(* ===== verification/_CoqProject ===== *)
-Q . S2P
Prelude.v
World.v
OrdoClock.v
Port.v
ThreadList.v
Object.v
Cells.v
VersionLog.v
LogLayout.v
LogAppend.v
Commit.v
Qp.v
Api.v
Snapshot.v
Locking.v
Reclaim.v
ChainHash.v
Sections.v
Threads.v
Pointers.v
Concur.v
Interference.v
Anomalies.v
Examples.v
Crc16.v
TimeMath.v
CString.v
Ilist.v
Buddy.v
BuddyView.v
BuddyInv.v
BuddyMem.v
HashView.v
Rlu.v
RluSets.v
RluCommit.v
RluView.v
RluThreads.v
RluExamples.v
HashExamples.v
Urcu.v
UrcuGrace.v
UrcuLive.v
UrcuFree.v
UrcuExamples.v
Atomic.v
HashUpdate.v
HashRemove.v
HashUpdateExamples.v
FsBytes.v
FsWorld.v
FsDisk.v
FsTrans.v
FsDedup.v
FsWrite.v
FsBlocks.v
FsInode.v
FsView.v
FsJournal.v
FsHeaders.v
FsCommit.v
FsScan.v
FsRecords.v
FsCrash.v
FsSafe.v
FsJournals.v
FsRunning.v
FsDurable.v
FsRecover.v
FsAtomic.v
FsAlloc.v
FsAllocInit.v
FsFile.v
FsFaults.v
FsExamples.v
