(* ===== verification/Prelude.v ===== *)
(** * KhronOS: a verification library for its synchronisation core

    KhronOS is the scalefs/sv6 kernel ([src/os/sv6/scalefs]) with MV-RLU,
    multi-version read-log-update, as its synchronisation of shared data.  A
    reader runs inside a critical section at a clock taken on entry and sees
    every object as of that clock, without locks; a writer copies an object
    into its own log, changes the copy, and publishes all copies of a section
    at once with a commit clock; a detection thread finds out which versions
    no section can still need, so that logs can be reused.  RLU, the algorithm
    MV-RLU extends, is in the kernel as well: there an object has one copy at
    most, which its writer writes back after all older sections have ended.
    ScaleFS, the file system of the kernel, keeps the disk consistent with one
    journal per CPU.  This library models MV-RLU, RLU and the hash table built
    on MV-RLU as they are written, the part of ScaleFS from transactions down
    to the disks, and self-contained parts of the kernel and its libraries, and
    proves what makes them correct, and where the code falls short of it.

    ** The program and its model

    The parts of the program and the files that model them:

    - the structures, constants and atomic accesses ([include/mvrlu/mvrlu_i.h],
      [config.h], [arch.h]): [World];
    - the clock ([include/mvrlu/ordo_clock.h]): [OrdoClock];
    - the kernel port: log blocks, object memory, spin locks, naps
      ([kernel/mvrlu/port-kernel.cc], [log_allocator.cc], [log_allocator.hh]):
      [Port];
    - the library itself ([kernel/mvrlu/mvrlu.c]): its thread lists in
      [ThreadList], objects and their copies in [Object], the circular log
      with write sets, commit, abort and reclamation in [VersionLog], the
      detection thread in [Qp], the programming interface in [Api];
    - the C++ wrapper ([include/mvrlu/mvrlu.hh], [section.hh],
      [kernel/mvrlu/mvrlu_wrapper.cc]): the end of [Api];
    - lists and the hash table built on it ([include/mvrlu/list.hh],
      [chainhash.hh]), and the hash of integers ([include/hash.hh]):
      [ChainHash];
    - RLU ([lib/rlu.c], [include/rlu.h], [include/rlu.hh]): [Rlu];
    - user-level RCU ([lib/urcu.c], [include/urcu.h]): [Urcu];
    - ScaleFS below its in-memory part: the state in [FsWorld] and the bytes of
      a block in [FsBytes]; disks and queued writes ([kernel/disk.cc],
      [include/disk.hh]) in [FsDisk]; transactions and the buffer cache
      ([include/scalefs.hh], [include/buf.hh], [kernel/bio.cc]) in [FsTrans];
      free blocks and inode numbers ([kernel/scalefs.cc], [kernel/fs.cc]) in
      [FsBlocks]; inodes and file contents ([kernel/fs.cc], [include/fs.h]) in
      [FsInode]; the journals and recovery ([kernel/scalefs.cc]) in [FsJournal];
      the commit and apply queues ([kernel/scalefs.cc]) in [FsCommit];
    - the buddy allocator of physical pages ([kernel/buddy.cc],
      [include/buddy.hh]): [Buddy];
    - intrusive lists ([libutil/include/ilist.hh]): [Ilist], with the modules
      [Islist] (singly linked lists and queues) and [Ilist] (doubly linked);
    - memory and string functions ([lib/string.c], [lib/ctype.c]): [CString];
    - calendar time ([lib/timemath.c]): [TimeMath];
    - the CRC-16 checksum ([kernel/crc16.cc],
      [include/crc16.hh]): [Crc16].

    A C function is a program: a finite tree of atomic actions on a shared
    state ([prog] below).  [run] executes a program alone; [cstep] of [Concur]
    interleaves any number of them, one action at a time, and [safe] is a
    rely/guarantee logic for one program among others.  The same definitions
    are used for both, so a theorem about [run] and one about [safe] speak of
    the same code.  Memory is sequentially consistent: fences are no actions.

    The state ([World.world]) has one map per structure type, from the address
    of the structure to its contents; an access to an address that holds no
    such structure is a fault.  Object contents are byte lists.  Machine words
    are integers, with the wrap-around of C written out ([wrap64], [wrap32],
    [wrap16]).  What the library gets from outside is an input: the readings
    of the time stamp counter, the addresses the kernel allocator returns, the
    time of day.  Addresses of structure members follow the LP64 layout.

    RLU has a state of its own ([Rlu.rlu_world]) of the same form: the
    registered threads with their write sets, the copy pointers and contents
    of objects and copies by address, the two global versions, and a count of
    failed assertions, since [RLU_ASSERT] prints and goes on.  So has user-level
    RCU.  The state of ScaleFS ([FsWorld.fs_world]) has disks with a write
    cache: a loss of power keeps any of the writes since the last flush, torn
    into sectors of 512 bytes; a panic or a failed assertion is a fault, and
    [out_of_blocks] is [None].  Strings and
    lists run as programs on byte memory and on links at addresses.  The buddy
    allocator runs under a lock and is a function on its state, with [None]
    for a failed assertion or a panic.  Calendar time and the checksum are pure
    functions, with [None] for an overflow of [int] and for a read behind the
    buffer.

    Loops that wait for other threads take a bound ([fuel]): a program whose
    bound is used up ends in [Spin], which is neither a result nor a fault.
    The theorems that a loop ends give a bound that is enough: the number of
    versions for [mvrlu_deref], of clock readings to skip for a commit, of
    write sets for [log_reclaim], of threads for a round of detection and for
    the quiescence of RLU, two for the publication of a copy, the length of a
    chain and the histories of its items for the operations of the hash table.
    Recursion of the buddy allocator has one step for each order, and its
    constructor one for each page of the region.  Recovery reads a journal in
    at most [PHYS_JOURNAL_SIZE / BSIZE + 1] rounds, since each takes a block.

    ** What is shown

    - [Snapshot], [Commit]: dereferencing gives the contents of the object at
      the reader's clock, in an abstract history of committed contents; a
      commit extends the histories of all its objects at one clock, so that
      readers that are not past it see no change (refinement).
    - [Locking]: locking an object makes a private copy of its newest version
      at the end of the open write set, or changes nothing; versions of an
      object are further apart than the clock uncertainty.
    - [Sections]: leaving a section commits it, aborting it gives everything
      back.
    - [LogLayout], [LogAppend]: entries of the log lie inside the buffer, are
      aligned, and walks over a write set visit exactly its entries.
    - [Reclaim]: reclamation drops exactly the write sets older than the
      second grace period and writes the newest version back in between.
    - [Threads], [ThreadList], [Port]: registration and departure of threads,
      the lists as rings, the pool of log blocks over all its histories, and
      that detection ends.
    - [Concur], [Interference]: under any interleaving at most one thread gets
      an object's lock, publication ends in two rounds, and a grace period
      does not end before every section that was open at its start has.
    - [Pointers]: shared pointers hold actual objects.
    - [Anomalies], [Sections], [Threads], [LogLayout], [Examples]: behaviours
      the code does not mean to have: an uncommitted copy is visible for a
      moment, a failed lock attempt can make a commit lose its last copy, a
      restarted hash table operation runs unprotected, a zombie thread is
      freed while it is on a list, fillers of 64 KiB are cut, log buffers are
      not aligned.

    - [HashView]: a lookup in the hash table answers from the snapshot at the
      section's clock, as a finite map; enumeration finds the next key in the
      order of the table, and the count is that of the non-zero keys.
    - [Atomic]: what a writing section did becomes visible at one clock.
      [HashUpdate], [HashRemove]: insertion and removal update the finite map
      that readers from the commit's clock on see.
    - [UrcuGrace], [UrcuFree]: [urcu_synchronize] outlasts the sections that
      were open at its start, and returns when no section lasts for ever;
      deferred freeing.
    - [RluSets]: [rlu_try_lock] takes a copy, [rlu_abort] undoes a section.
      [RluCommit]: a commit writes every copy back and unlocks its object.
      [RluView]: what [deref_ptr] returns to whom, that readers which have
      seen a commit do not notice the write-back, and that under any
      interference [rlu_synchronize] outlasts the sections that were open at
      its start.  [RluThreads]: destroying a handle makes later commits of
      others fault.
    - [BuddyView], [BuddyInv], [BuddyMem]: the bitmaps and lists of the buddy
      allocator stand for a set of free blocks; the constructor establishes,
      and every history of allocations and releases keeps, that blocks in use
      are disjoint and no memory is lost; a request fails only for lack of
      memory.
    - [Ilist]: the lists implement sequences.  [CString]: [memmove] copies for
      every overlap, [safestrcpy] keeps within its buffer and [strncpy] does
      not, [strstr] finds the first occurrence.  [TimeMath]: which fields are
      those of the civil calendar, and the round trip.  [Crc16]: the table
      computes the remainder of a division of polynomials.

    - [FsAtomic], on [FsWrite], [FsView], [FsHeaders], [FsScan], [FsRecords],
      [FsCrash], [FsSafe], [FsJournals], [FsRunning], [FsDurable] and
      [FsRecover]: wherever the power fails during a commit, recovery
      terminates with the contents before or after the transaction; applying
      and resetting change nothing of what recovery gives; over every history
      of these operations and of losses of power no committed transaction is
      lost.  This is for one disk, block numbers below [2 ^ 20], transactions
      of at most 1021 blocks, one operation on the disk at a time, and logged
      blocks that cannot be taken for a header block ([plain]).
    - [FsDedup]: a transaction writes the newest version of each block.
      [FsAlloc], [FsAllocInit]: the bitmaps of free blocks keep their form and
      hand nothing out twice.  [FsFile]: what is written to a file is read.
      [FsFaults]: a transaction is read after its deletion, and blocks are
      written to the wrong place on large or several disks.

    [Examples], [HashExamples], [HashUpdateExamples], [RluExamples],
    [UrcuExamples] and [FsExamples] run the libraries from boot on
    a concrete machine and evaluate the theorems on the states they reach; the
    other files carry their own examples.

    ** What is not modelled

    Weak memory ordering; statistics, debugging output and nested locking,
    which the configuration switches off, and with them the ORDO variant of
    RLU and the debugging checks of the buddy allocator; the body of condition
    variables and thread creation, which belong to the kernel; [mvrlu_finish],
    which waits for the detection thread to end.

    Of ScaleFS: the in-memory file system with its operation logs
    ([kernel/mfs.cc], [kernel/mnode.cc] and the first half of
    [kernel/scalefs.cc]), which rests on C++ reference counts and the page
    cache; directories, path names and the cache of inodes ([kernel/fs.cc]), so
    that recovery starts with the inodes of the journals at hand, and ends
    before [reclaim_unreachable_inodes]; a loss of power during recovery; the
    drivers of the disks.

    The rest of the kernel (devices, virtual memory, processes) depends on the
    hardware; the rest of the user library, the user-space variant of MV-RLU,
    the xv6 variants and the benchmarks are separate programs outside of this
    development. *)

From Stdlib Require Export ZArith Lia ssreflect.
From stdpp Require Export base option list gmap relations.

#[global] Open Scope general_if_scope.
#[global] Open Scope Z_scope.

(** ** Machine words

    C's unsigned types are [Z] values reduced modulo their width.  The
    wrap-around is written out at every place where the source computes in
    that width. *)

Definition wrap64 (x : Z) : Z := x mod 18446744073709551616.
Definition wrap32 (x : Z) : Z := x mod 4294967296.
Definition wrap16 (x : Z) : Z := x mod 65536.

Definition ULONG_MAX : Z := 18446744073709551615.
Definition NULL : Z := 0.

(** A C truth value. *)
Definition truth (n : Z) : bool := negb (n =? 0).
Definition of_bool (b : bool) : Z := if b then 1 else 0.

(** ** Record update

    [Settable R] holds the eta expansion of a record type; the notation
    [r <| f := v |>] replaces one field, [r <| f ::= g |>] maps a function
    over it. *)

Class Settable (R : Type) := record_eta : R → R.

Class Setter {R E : Type} (get : R → E) := field_map : (E → E) → R → R.

Ltac derive_setter :=
  match goal with
  | |- @Setter ?R ?E ?get =>
      let eta := eval cbv delta [record_eta] in (@record_eta R _) in
      let eta := eval hnf in eta in
      match eval pattern get in eta with
      | ?ctx _ => exact (fun (g : E → E) => ctx (fun r : R => g (get r)))
      end
  end.

#[export] Hint Extern 1 (Setter _) => derive_setter : typeclass_instances.

Declare Scope record_scope.
Notation "r <| f := v |>" := (field_map (get := f) (λ _, v) r)
  (at level 1, left associativity, format "r <| f  :=  v |>") : record_scope.
Notation "r <| f ::= g |>" := (field_map (get := f) g r)
  (at level 1, left associativity, format "r <| f  ::=  g |>") : record_scope.
#[global] Open Scope record_scope.

(** ** Programs as finite trees of atomic actions

    A C function is a [prog]: a finite tree whose nodes are the accesses it
    makes to memory that other threads can see.  One node is one indivisible
    access of the sequentially consistent machine.  [run] executes a program
    on its own; the interleaving semantics of several programs is the step
    relation of the file on concurrency. *)

(** What an atomic action does in a state. *)
Inductive effect (S B : Type) : Type :=
| Next (b : B) (s : S)     (* the action takes place *)
| Wait                     (* the action is not enabled: a lock is held *)
| Crash.                   (* an access to memory that is not mapped *)
Arguments Next {S B} b s.
Arguments Wait {S B}.
Arguments Crash {S B}.

Inductive prog (S A : Type) : Type :=
| Ret (a : A)
| Do (B : Type) (op : S → effect S B) (k : B → prog S A)
| Spin.                    (* the bound given to a busy-wait loop is used up *)
Arguments Ret {S A} a.
Arguments Do {S A B} op k.
Arguments Spin {S A}.

Fixpoint prog_bind {S A B : Type} (m : prog S A) (f : A → prog S B) : prog S B :=
  match m with
  | Ret a => f a
  | Do op k => Do op (λ b, prog_bind (k b) f)
  | Spin => Spin
  end.

#[export] Instance prog_mret S : MRet (prog S) := λ A, Ret.
#[export] Instance prog_mbind S : MBind (prog S) := λ A B f m, prog_bind m f.

(** The result of running a program alone. *)
Inductive outcome (S A : Type) : Type :=
| Done (a : A) (s : S)
| Blocked
| Fault
| Spinning.
Arguments Done {S A} a s.
Arguments Blocked {S A}.
Arguments Fault {S A}.
Arguments Spinning {S A}.

Fixpoint run {S A : Type} (p : prog S A) (s : S) : outcome S A :=
  match p with
  | Ret a => Done a s
  | Do op k =>
      match op s with
      | Next b s' => run (k b) s'
      | Wait => Blocked
      | Crash => Fault
      end
  | Spin => Spinning
  end.

Definition outcome_bind {S A B : Type} (r : outcome S A)
    (f : A → S → outcome S B) : outcome S B :=
  match r with
  | Done a s => f a s
  | Blocked => Blocked
  | Fault => Fault
  | Spinning => Spinning
  end.

(** One atomic action. *)
Definition act {S B : Type} (op : S → effect S B) : prog S B := Do op Ret.

(** [if (b) p;] *)
Definition when {S : Type} (b : bool) (p : prog S unit) : prog S unit :=
  if b then p else mret ().

(** [for (i = 0; i < n; i++) body(i)] over a fixed number of iterations that
    threads a loop variable. *)
Fixpoint iterate {S C : Type} (n : nat) (body : C → prog S C) (c : C) : prog S C :=
  match n with
  | O => mret c
  | Datatypes.S n' => c' ← body c; iterate n' body c'
  end.

(** [while (1) { ... }] with a bound on the number of iterations: the body
    returns [inr] to leave the loop. *)
Fixpoint loop {S C A : Type} (fuel : nat) (body : C → prog S (C + A)) (c : C)
    : prog S A :=
  match fuel with
  | O => Spin
  | Datatypes.S fuel' =>
      r ← body c;
      match r with
      | inl c' => loop fuel' body c'
      | inr a => mret a
      end
  end.

(** A walk over a list of pointers that threads a value. *)
Fixpoint fold_each {S E A : Type} (l : list E) (body : E → A → prog S A) (a : A)
    : prog S A :=
  match l with
  | [] => mret a
  | x :: l' => a' ← body x a; fold_each l' body a'
  end.

(** Programs are evaluated with the lemmas below, not by reduction. *)
Arguments run : simpl never.
Arguments prog_mbind : simpl never.
#[global] Arguments mbind {_ _ _ _} _ _ : simpl never.
Arguments act : simpl never.
Arguments when : simpl never.
Arguments iterate : simpl never.
Arguments loop : simpl never.
Arguments fold_each : simpl never.

(** ** Lemmas on running programs *)

Lemma run_ret {S A} (a : A) (s : S) : run (mret a) s = Done a s.
Proof. reflexivity. Qed.

Lemma run_do {S A B} (op : S → effect S B) (k : B → prog S A) s :
  run (Do op k) s = match op s with
                    | Next b s' => run (k b) s' | Wait => Blocked | Crash => Fault end.
Proof. reflexivity. Qed.

Lemma run_bind {S A B} (m : prog S A) (f : A → prog S B) s :
  run (m ≫= f) s = outcome_bind (run m s) (λ a s', run (f a) s').
Proof.
  revert s. induction m as [a|C op k IH|]; intros s; [done| |done].
  change (run (Do op k) s) with (match op s with Next b s' => run (k b) s'
    | Wait => Blocked | Crash => Fault end).
  change (run (Do op k ≫= f) s) with (match op s with Next b s' => run (k b ≫= f) s'
    | Wait => Blocked | Crash => Fault end).
  destruct (op s); simpl; auto.
Qed.

Lemma run_bind_done {S A B} (m : prog S A) (f : A → prog S B) s a s' :
  run m s = Done a s' → run (m ≫= f) s = run (f a) s'.
Proof. intros H. by rewrite run_bind H. Qed.

Lemma run_bind_inv {S A B} (m : prog S A) (f : A → prog S B) s b s'' :
  run (m ≫= f) s = Done b s'' →
  ∃ a s', run m s = Done a s' ∧ run (f a) s' = Done b s''.
Proof. rewrite run_bind. destruct (run m s); simpl; naive_solver. Qed.

Lemma run_act {S B} (op : S → effect S B) s :
  run (act op) s = match op s with
                   | Next b s' => Done b s' | Wait => Blocked | Crash => Fault end.
Proof. reflexivity. Qed.

Lemma run_loop_S {S C A} n (body : C → prog S (C + A)) c s :
  run (loop (Datatypes.S n) body c) s =
  outcome_bind (run (body c) s)
    (λ r s', match r with inl c' => run (loop n body c') s' | inr a => Done a s' end).
Proof.
  unfold loop at 1; fold (@loop S C A). rewrite run_bind.
  by destruct (run (body c) s) as [[]| | |].
Qed.

Lemma run_loop_exit {S C A} n (body : C → prog S (C + A)) c s a s' :
  run (body c) s = Done (inr a) s' →
  run (loop (Datatypes.S n) body c) s = Done a s'.
Proof. intros H. by rewrite run_loop_S H. Qed.

Lemma run_loop_again {S C A} n (body : C → prog S (C + A)) c s c' s' :
  run (body c) s = Done (inl c') s' →
  run (loop (Datatypes.S n) body c) s = run (loop n body c') s'.
Proof. intros H. by rewrite run_loop_S H. Qed.

(** A loop that terminates within a bound gives the same result under any
    larger bound. *)
Lemma run_loop_mono {S C A} n m (body : C → prog S (C + A)) c s a s' :
  (n ≤ m)%nat →
  run (loop n body c) s = Done a s' → run (loop m body c) s = Done a s'.
Proof.
  revert m c s. induction n as [|n IH]; intros [|m] c s Hle H; try done; [lia|].
  rewrite run_loop_S in H. rewrite run_loop_S.
  destruct (run (body c) s) as [[c'|a'] s1| | |]; simpl in *; try done.
  apply IH; [lia|done].
Qed.

Lemma run_iterate_O {S C} (body : C → prog S C) c s :
  run (iterate 0 body c) s = Done c s.
Proof. reflexivity. Qed.

Lemma run_iterate_S {S C} n (body : C → prog S C) c s :
  run (iterate (Datatypes.S n) body c) s =
  outcome_bind (run (body c) s) (λ c' s', run (iterate n body c') s').
Proof. apply run_bind. Qed.

Lemma run_fold_each_nil {S E A} (body : E → A → prog S A) a s :
  run (fold_each [] body a) s = Done a s.
Proof. reflexivity. Qed.

Lemma run_fold_each_cons {S E A} (x : E) l (body : E → A → prog S A) a s :
  run (fold_each (x :: l) body a) s =
  outcome_bind (run (body x a) s) (λ a' s', run (fold_each l body a') s').
Proof. apply run_bind. Qed.

(** A walk whose body handles one element at a time: [P] is what an element
    needs, [Q] what it is left with, [I] is kept throughout, and handling one
    element disturbs neither [P] nor [Q] of the others. *)
Lemma run_fold_each_frame {S E A} (body : E → A → prog S A)
    (P Q : E → S → Prop) (I : list E → A → S → Prop) :
  ∀ (todo done : list E) a s,
  NoDup (done ++ todo) → I todo a s →
  (∀ e, e ∈ todo → P e s) → (∀ e, e ∈ done → Q e s) →
  (∀ e t a s, e ∈ todo → I (e :: t) a s → P e s →
    ∃ a' s', run (body e a) s = Done a' s' ∧ I t a' s' ∧ Q e s' ∧
      ∀ e', e' ∈ done ++ todo → e' ≠ e → (P e' s → P e' s') ∧ (Q e' s → Q e' s')) →
  ∃ a' s', run (fold_each todo body a) s = Done a' s' ∧ I [] a' s' ∧
    ∀ e, e ∈ done ++ todo → Q e s'.
Proof.
  induction todo as [|e todo IH]; intros dn a s Hnd HI HP HQ Hstep.
  { exists a, s. rewrite app_nil_r. done. }
  destruct (Hstep e todo a s) as (a1 & s1 & Hr & HI1 & HQ1 & Hfr); [set_solver|done|set_solver|].
  rewrite run_fold_each_cons Hr /=.
  assert (dn ++ e :: todo = (dn ++ [e]) ++ todo) as Eq by (by rewrite -app_assoc).
  assert (e ∉ dn ∧ e ∉ todo) as [He1 He2].
  { apply NoDup_app in Hnd as (_ & ? & [? _]%NoDup_cons). set_solver. }
  rewrite Eq in Hnd |- *. apply (IH (dn ++ [e])); auto.
  - intros e' He'. apply Hfr; [set_solver|set_solver|]. apply HP. set_solver.
  - intros e' [He'|He']%elem_of_app.
    + apply Hfr; [set_solver|set_solver|]. by apply HQ.
    + by apply list_elem_of_singleton in He' as ->.
  - intros e' t a' s' He' HI' HP'. destruct (Hstep e' t a' s') as (a2 & s2 & ? & ? & ? & Hfr2);
      [set_solver|done|done|]. exists a2, s2. split_and!; auto. intros e'' He''.
    apply Hfr2. rewrite Eq. done.
Qed.

(** ** What the actions of a program do to the state

    [keeps R p]: every action of [p], from whatever state it is taken, moves
    the state along [R]. *)

Fixpoint keeps {S A : Type} (R : S → S → Prop) (p : prog S A) : Prop :=
  match p with
  | Ret _ => True
  | Do op k => ∀ s b s', op s = Next b s' → R s s' ∧ keeps R (k b)
  | Spin => True
  end.

Section keeps.
Context {S : Type} (R : S → S → Prop).

Lemma keeps_run `{!PreOrder R} {A} (p : prog S A) s a s' : keeps R p → run p s = Done a s' → R s s'.
Proof.
  revert s. induction p as [x|C op k IH|]; intros s Hk Hr; [by injection Hr as <- <-| |done].
  rewrite run_do in Hr. destruct (op s) as [b s1| |] eqn:E; try done.
  destruct (Hk _ _ _ E) as [H1 H2]. etrans; [exact H1|]. by eapply IH.
Qed.

Lemma keeps_ret {A} (a : A) : keeps R (mret (M := prog S) a).
Proof. done. Qed.

Lemma keeps_bind {A B} (m : prog S A) (f : A → prog S B) :
  keeps R m → (∀ a, keeps R (f a)) → keeps R (m ≫= f).
Proof.
  intros Hm Hf. induction m as [x|C op k IH|]; [apply Hf| |done].
  intros s b s' E. destruct (Hm _ _ _ E). split; [done|]. by apply IH.
Qed.

Lemma keeps_act {B} (op : S → effect S B) :
  (∀ s b s', op s = Next b s' → R s s') → keeps R (act op).
Proof. intros H s b s' E. split; [by eapply H|done]. Qed.

Lemma keeps_when b (p : prog S unit) : keeps R p → keeps R (when b p).
Proof. by destruct b. Qed.

Lemma keeps_loop {C A} n (body : C → prog S (C + A)) c :
  (∀ c, keeps R (body c)) → keeps R (loop n body c).
Proof.
  intros H. revert c. induction n as [|n IH]; intros c; [done|].
  apply keeps_bind; [done|]. intros []; [apply IH|done].
Qed.

Lemma keeps_iterate {C} n (body : C → prog S C) c :
  (∀ c, keeps R (body c)) → keeps R (iterate n body c).
Proof.
  intros H. revert c. induction n as [|n IH]; intros c; [done|].
  apply keeps_bind; [done|]. intros ?. apply IH.
Qed.

Lemma keeps_fold_each {E A} (l : list E) (body : E → A → prog S A) a :
  (∀ e a, e ∈ l → keeps R (body e a)) → keeps R (fold_each l body a).
Proof.
  revert a. induction l as [|x l IH]; intros a H; [done|].
  apply keeps_bind; [apply H; set_solver|]. intros ?. apply IH. set_solver.
Qed.
End keeps.

Lemma keeps_mono {S A} (R R' : S → S → Prop) (p : prog S A) :
  (∀ s s', R s s' → R' s s') → keeps R p → keeps R' p.
Proof.
  intros HR. induction p as [x|C op k IH|]; intros H; [done| |done].
  intros s b s' E. destruct (H _ _ _ E). auto.
Qed.

(** ** Arithmetic on machine words *)

Lemma wrap64_small x : 0 ≤ x ≤ ULONG_MAX → wrap64 x = x.
Proof. unfold wrap64, ULONG_MAX. intros. apply Z.mod_small. lia. Qed.
Lemma wrap32_small x : 0 ≤ x < 4294967296 → wrap32 x = x.
Proof. unfold wrap32. intros. apply Z.mod_small. lia. Qed.
Lemma wrap16_small x : 0 ≤ x < 65536 → wrap16 x = x.
Proof. unfold wrap16. intros. apply Z.mod_small. lia. Qed.

Lemma wrap64_range x : 0 ≤ wrap64 x ≤ ULONG_MAX.
Proof. unfold wrap64, ULONG_MAX. pose proof (Z.mod_pos_bound x 18446744073709551616). lia. Qed.

(** Masking off low bits is rounding down to a multiple; masking off high bits
    is the remainder. *)
Lemma land_lnot_ones x k : 0 ≤ k → Z.land x (Z.lnot (Z.ones k)) = x - x mod 2 ^ k.
Proof.
  intros Hk. rewrite -Z.ldiff_land Z.ldiff_ones_r // Z.shiftl_mul_pow2 // Z.shiftr_div_pow2 //.
  pose proof (Z.div_mod x (2 ^ k)). lia.
Qed.

(** Adding less than one period to a position on a ring. *)
Lemma mod_add_split t n L :
  0 < L → 0 ≤ n < L →
  (t + n) mod L = if t mod L + n <? L then t mod L + n else t mod L + n - L.
Proof.
  intros HL Hn. pose proof (Z.mod_pos_bound t L HL). pose proof (Z.div_mod t L).
  destruct (Z.ltb_spec (t mod L + n) L).
  - symmetry. apply (Z.mod_unique_pos _ _ (t / L)); lia.
  - symmetry. apply (Z.mod_unique_pos _ _ (t / L + 1)); lia.
Qed.

Lemma mod_sub_multiple a b k : 0 < k → a mod k = 0 → b mod k = 0 → (a - b) mod k = 0.
Proof. intros ? Ha Hb. by rewrite Zminus_mod Ha Hb. Qed.

Lemma mod_add_multiple a b k : 0 < k → a mod k = 0 → b mod k = 0 → (a + b) mod k = 0.
Proof. intros ? Ha Hb. by rewrite Zplus_mod Ha Hb. Qed.

(** ** Hints and tactics *)

Create HintDb khronos.
Create HintDb keeps.
#[export] Hint Resolve keeps_ret keeps_bind keeps_when keeps_loop keeps_iterate
  keeps_fold_each : keeps.
#[export] Hint Rewrite @run_bind @run_ret @run_act : khronos.

(** Evaluate a program one action at a time. *)
Ltac prog_step := rewrite ?run_bind ?run_ret ?run_act; simpl.

(** Break up a hypothesis that a sequence of programs ran to the end. *)
Ltac run_inv H :=
  repeat (apply run_bind_inv in H as (? & ? & ? & H)); simpl in H.
