(* ===== verification/World.v ===== *)
(** * The data of MV-RLU and the machine state

    The structures of [include/mvrlu/mvrlu_i.h], the constants of
    [include/mvrlu/config.h] and [include/mvrlu/arch.h], and the state all
    functions of the library work on: typed memory cells keyed by address, the
    global variables of [kernel/mvrlu/mvrlu.c], the pool of log blocks, and the
    inputs the hardware and the kernel provide (clock readings, addresses of
    the kernel allocator). *)

From S2P Require Import Prelude.

(** ** Constants *)

Definition L1_CACHE_BYTES : Z := 64.
Definition MVRLU_CACHE_LINE_SIZE : Z := L1_CACHE_BYTES.
Definition MVRLU_LOG_SIZE : Z := Z.shiftl 1 17.
Definition MVRLU_MAX_THREAD_NUM : Z := Z.shiftl 1 7.
Definition MVRLU_MAX_FREE_PTRS : Z := 512.
Definition MVRLU_QP_INTERVAL_USEC : Z := 500.
Definition MVRLU_LOG_LOW_MARK : Z := Z.shiftr MVRLU_LOG_SIZE 1.
Definition MVRLU_LOG_HIGH_MARK : Z := MVRLU_LOG_SIZE - Z.shiftr MVRLU_LOG_SIZE 2.
Definition MVRLU_DEREF_MIN_ACT_OBJ : Z := 50.
Definition MVRLU_DEREF_MARK : Z := 3.
Definition MAX_VERSION : Z := ULONG_MAX - 1.
Definition MIN_VERSION : Z := 0.
Definition EBUSY : Z := 16.

(** ** Types *)

(** [enum { TYPE_ACTUAL = 0, ... }]; a zeroed header reads [TYPE_ACTUAL]. *)
Inductive obj_type : Type :=
| TYPE_ACTUAL     (* actual object *)
| TYPE_WRT_SET    (* log: write set header *)
| TYPE_COPY       (* log: copied version *)
| TYPE_FREE       (* log: copy whose actual object is requested to free *)
| TYPE_BOGUS.     (* log: bogus to skip the end of a log *)

#[export] Instance obj_type_eq_dec : EqDecision obj_type.
Proof. solve_decision. Defined.

Inductive live_state : Type :=
| THREAD_LIVE           (* live thread *)
| THREAD_LIVE_ZOMBIE    (* finished but not yet reclaimed thread *)
| THREAD_DEAD_ZOMBIE.   (* zombie thread that is requested to be reclaimed *)

#[export] Instance live_state_eq_dec : EqDecision live_state.
Proof. solve_decision. Defined.

Record mvrlu_obj_hdr := ObjHdr {
  obj_size : Z;        (* unsigned int *)
  padding_size : Z;    (* unsigned short *)
  type : obj_type;     (* unsigned short *)
  p_copy : Z;          (* void * *)
}.
#[export] Instance obj_hdr_eta : Settable mvrlu_obj_hdr :=
  λ h, ObjHdr (obj_size h) (padding_size h) (type h) (p_copy h).

(** Header of an actual object: [act_hdr] followed by [obj_hdr]. *)
Record mvrlu_act_hdr_struct := ActHdr {
  p_lock : Z;
  a_obj_hdr : mvrlu_obj_hdr;
}.
#[export] Instance act_hdr_eta : Settable mvrlu_act_hdr_struct :=
  λ h, ActHdr (p_lock h) (a_obj_hdr h).

(** Header of an entry of a log: [cpy_hdr] followed by [obj_hdr]. *)
Record mvrlu_cpy_hdr_struct := CpyHdr {
  p_wrt_clk : Z;       (* unsigned long *: the write set's clock cell *)
  wrt_clk_next : Z;
  __wrt_clk : Z;
  p_act : Z;
  c_obj_hdr : mvrlu_obj_hdr;
}.
#[export] Instance cpy_hdr_eta : Settable mvrlu_cpy_hdr_struct :=
  λ h, CpyHdr (p_wrt_clk h) (wrt_clk_next h) (__wrt_clk h) (p_act h) (c_obj_hdr h).

Record mvrlu_wrt_set := WrtSet {
  wrt_clk : Z;
  num_objs : Z;        (* unsigned int *)
  start_tail_cnt : Z;
  ws_thread : Z;
}.
#[export] Instance wrt_set_eta : Settable mvrlu_wrt_set :=
  λ h, WrtSet (wrt_clk h) (num_objs h) (start_tail_cnt h) (ws_thread h).

Record mvrlu_log := Log {
  qp_clk1 : Z;
  qp_clk2 : Z;
  reclaim_lock : Z;
  need_reclaim : Z;
  head_cnt : Z;
  tail_cnt : Z;
  cur_wrt_set : Z;
  buffer : Z;
}.
#[export] Instance log_eta : Settable mvrlu_log :=
  λ h, Log (qp_clk1 h) (qp_clk2 h) (reclaim_lock h) (need_reclaim h)
           (head_cnt h) (tail_cnt h) (cur_wrt_set h) (buffer h).

Record mvrlu_free_ptrs := FreePtrs {
  num_ptrs : Z;
  ptrs : gmap Z Z;     (* void *ptrs[MVRLU_MAX_FREE_PTRS] *)
}.
#[export] Instance free_ptrs_eta : Settable mvrlu_free_ptrs :=
  λ h, FreePtrs (num_ptrs h) (ptrs h).

Record mvrlu_qp_info := QpInfo {
  need_wait : Z;
  qp_run_cnt : Z;
}.
#[export] Instance qp_info_eta : Settable mvrlu_qp_info :=
  λ h, QpInfo (need_wait h) (qp_run_cnt h).

Record mvrlu_list := ListNode {
  next : Z;
  prev : Z;
}.
#[export] Instance list_eta : Settable mvrlu_list :=
  λ h, ListNode (next h) (prev h).

(** [mvrlu_thread_struct], without the padding; its [list] member is a cell of
    the node memory, see [w_node]. *)
Record mvrlu_thread_struct := Thread {
  tid : Z;
  is_write_detected : Z;
  free_ptrs : mvrlu_free_ptrs;
  run_cnt : Z;
  local_clk : Z;
  live_status : live_state;
  qp_info : mvrlu_qp_info;
  log : mvrlu_log;
  num_act_obj : Z;
  num_deref : Z;
}.
#[export] Instance thread_eta : Settable mvrlu_thread_struct :=
  λ h, Thread (tid h) (is_write_detected h) (free_ptrs h) (run_cnt h)
              (local_clk h) (live_status h) (qp_info h) (log h)
              (num_act_obj h) (num_deref h).

(** [mvrlu_thread_list]; its [list] member is a cell of the node memory. *)
Record mvrlu_thread_list := ThreadList {
  tl_lock : bool;      (* the spinlock is held *)
  thread_wait : Z;
  cur_tid : Z;
  num : Z;
}.
#[export] Instance thread_list_eta : Settable mvrlu_thread_list :=
  λ h, ThreadList (tl_lock h) (thread_wait h) (cur_tid h) (num h).

Record mvrlu_qp_thread := QpThread {
  qp_clk : Z;
  stop_requested : Z;
  qp_need_reclaim : Z;
}.
#[export] Instance qp_thread_eta : Settable mvrlu_qp_thread :=
  λ h, QpThread (qp_clk h) (stop_requested h) (qp_need_reclaim h).

(** ** Sizes and member offsets (LP64)

    The packed header structures and the padded thread structure as the
    compiler lays them out: [CACHE_DEFAULT_PADDING] is 16 longs. *)

Definition sizeof_obj_hdr : Z := 4 + 2 + 2 + 8.
Definition sizeof_act_hdr_struct : Z := 8 + sizeof_obj_hdr.
Definition sizeof_cpy_hdr_struct : Z := 8 + 8 + 8 + 8 + sizeof_obj_hdr.
Definition sizeof_wrt_set : Z := 8 + 8 + 8 + 8.
Definition sizeof_wrt_set_struct : Z := sizeof_cpy_hdr_struct + sizeof_wrt_set.
Definition sizeof_padding : Z := 16 * 8.
Definition offsetof_qp_info : Z :=
  sizeof_padding + 8 + (8 + 8 * MVRLU_MAX_FREE_PTRS) + sizeof_padding + 24
  + sizeof_padding.
Definition offsetof_log : Z := offsetof_qp_info + 8.
Definition offsetof_list : Z :=
  offsetof_log + 48 + sizeof_padding + 8 + sizeof_padding + 8 + sizeof_padding.
Definition sizeof_thread_struct : Z := offsetof_list + 16.
Definition sizeof_log_block : Z := 8 + MVRLU_LOG_SIZE.

(** ** The machine state *)

Record world := World {
  (* typed memory, keyed by the address of the structure *)
  w_ahs : gmap Z mvrlu_act_hdr_struct;
  w_chs : gmap Z mvrlu_cpy_hdr_struct;
  w_ws : gmap Z mvrlu_wrt_set;
  w_data : gmap Z (list Z);            (* the bytes of an object *)
  w_thr : gmap Z mvrlu_thread_struct;
  w_node : gmap Z mvrlu_list;
  (* global variables of mvrlu.c *)
  w_tl : gmap Z mvrlu_thread_list;     (* g_live_threads, g_zombie_threads *)
  w_qp : mvrlu_qp_thread;              (* g_qp_thread *)
  w_until : Z;                         (* until_counter *)
  w_init : Z;                          (* init *)
  (* log_pool of port-kernel.cc *)
  w_pool : list Z;
  w_start_addr : Z;
  w_end_addr : Z;
  (* blocks handed out by the kernel allocator, with their sizes *)
  w_mem : gmap Z Z;
  (* inputs *)
  w_tsc : list Z;                      (* the next time stamp readings *)
  w_nsec : list Z;                     (* the next results of nsectime *)
  w_kmem : list Z;                     (* the next results of kmalign *)
  w_junk : Z → Z;                      (* contents of fresh memory *)
}.
#[export] Instance world_eta : Settable world :=
  λ w, World (w_ahs w) (w_chs w) (w_ws w) (w_data w) (w_thr w) (w_node w)
             (w_tl w) (w_qp w) (w_until w) (w_init w) (w_pool w)
             (w_start_addr w) (w_end_addr w) (w_mem w) (w_tsc w) (w_nsec w)
             (w_kmem w) (w_junk w).

(** Link-time addresses of the two thread lists and, inside them, of their
    list heads. *)
Definition g_live_threads : Z := 16.
Definition g_zombie_threads : Z := 32.
Definition tl_list (tl : Z) : Z := tl + 8.

(** ** Memory locations

    A location is a pair of a read and a write on the state; the accesses of
    the source are the atomic actions below. *)

Record loc (V : Type) := Loc {
  lget : world → option V;
  lset : V → world → world;
}.
Arguments Loc {V} _ _.
Arguments lget {V} _ _.
Arguments lset {V} _ _ _.

Section locations.
Context {R V : Type} (M : world → gmap Z R).
Context (mapM : (gmap Z R → gmap Z R) → world → world).

(** A member of the structure at address [a]. *)
Definition member (get : R → V) (upd : V → R → R) (a : Z) : loc V :=
  Loc (λ w, get <$> M w !! a) (λ v, mapM (alter (upd v) a)).
End locations.

Definition ahs_loc {V} (get : mvrlu_act_hdr_struct → V) `{!Setter get} (a : Z) : loc V :=
  member w_ahs (λ f w, w <| w_ahs ::= f |>) get (λ v h, h <| get := v |>) a.
Definition chs_loc {V} (get : mvrlu_cpy_hdr_struct → V) `{!Setter get} (a : Z) : loc V :=
  member w_chs (λ f w, w <| w_chs ::= f |>) get (λ v h, h <| get := v |>) a.
Definition ws_loc {V} (get : mvrlu_wrt_set → V) `{!Setter get} (a : Z) : loc V :=
  member w_ws (λ f w, w <| w_ws ::= f |>) get (λ v h, h <| get := v |>) a.
Definition thr_loc {V} (get : mvrlu_thread_struct → V) `{!Setter get} (a : Z) : loc V :=
  member w_thr (λ f w, w <| w_thr ::= f |>) get (λ v h, h <| get := v |>) a.
Definition node_loc {V} (get : mvrlu_list → V) `{!Setter get} (a : Z) : loc V :=
  member w_node (λ f w, w <| w_node ::= f |>) get (λ v h, h <| get := v |>) a.
Definition tl_loc {V} (get : mvrlu_thread_list → V) `{!Setter get} (a : Z) : loc V :=
  member w_tl (λ f w, w <| w_tl ::= f |>) get (λ v h, h <| get := v |>) a.

(** Members of nested structures. *)
Definition ahs_hdr {V} (get : mvrlu_obj_hdr → V) `{!Setter get} (a : Z) : loc V :=
  member w_ahs (λ f w, w <| w_ahs ::= f |>) (λ h, get (a_obj_hdr h))
    (λ v h, h <| a_obj_hdr ::= λ o, o <| get := v |> |>) a.
Definition chs_hdr {V} (get : mvrlu_obj_hdr → V) `{!Setter get} (a : Z) : loc V :=
  member w_chs (λ f w, w <| w_chs ::= f |>) (λ h, get (c_obj_hdr h))
    (λ v h, h <| c_obj_hdr ::= λ o, o <| get := v |> |>) a.

(** The macro [log_to_thread] and the address of [self->log]. *)
Definition log_of (self : Z) : Z := self + offsetof_log.
Definition log_to_thread (log : Z) : Z := log - offsetof_log.
(** The macro [list_to_thread] and the address of [self->list]. *)
Definition list_of (self : Z) : Z := self + offsetof_list.
Definition list_to_thread (pos : Z) : Z := pos - offsetof_list.

(** A member of the log at address [l]. *)
Definition log_loc {V} (get : mvrlu_log → V) `{!Setter get} (l : Z) : loc V :=
  member w_thr (λ f w, w <| w_thr ::= f |>) (λ t, get (log t))
    (λ v t, t <| log ::= λ g, g <| get := v |> |>) (log_to_thread l).
Definition qpi_loc {V} (get : mvrlu_qp_info → V) `{!Setter get} (t : Z) : loc V :=
  member w_thr (λ f w, w <| w_thr ::= f |>) (λ t, get (qp_info t))
    (λ v t, t <| qp_info ::= λ g, g <| get := v |> |>) t.
Definition fp_loc {V} (get : mvrlu_free_ptrs → V) `{!Setter get} (t : Z) : loc V :=
  member w_thr (λ f w, w <| w_thr ::= f |>) (λ t, get (free_ptrs t))
    (λ v t, t <| free_ptrs ::= λ g, g <| get := v |> |>) t.
Definition qp_loc {V} (get : mvrlu_qp_thread → V) `{!Setter get} : loc V :=
  Loc (λ w, Some (get (w_qp w))) (λ v w, w <| w_qp ::= λ q, q <| get := v |> |>).
Definition until_loc : loc Z := Loc (λ w, Some (w_until w)) (λ v w, w <| w_until := v |>).
Definition init_loc : loc Z := Loc (λ w, Some (w_init w)) (λ v w, w <| w_init := v |>).

(** ** Atomic accesses ([include/mvrlu/arch.h]) *)

Notation kprog := (prog world).

Definition load {V} (l : loc V) : kprog V :=
  act (λ w, match lget l w with Some v => Next v w | None => Crash end).

Definition store {V} (l : loc V) (v : V) : kprog unit :=
  act (λ w, match lget l w with Some _ => Next () (lset l v w) | None => Crash end).

(** [smp_cas]: [__sync_bool_compare_and_swap]. *)
Definition smp_cas {V} `{EqDecision V} (l : loc V) (old new : V) : kprog bool :=
  act (λ w, match lget l w with
            | Some v => if decide (v = old) then Next true (lset l new w)
                        else Next false w
            | None => Crash
            end).

(** [smp_cas_v]: the value found, by [__sync_val_compare_and_swap]; the macro's
    own value is whether that is the expected one. *)
Definition smp_cas_v {V} `{EqDecision V} (l : loc V) (old new : V) : kprog (bool * V) :=
  act (λ w, match lget l w with
            | Some v => if decide (v = old) then Next (true, v) (lset l new w)
                        else Next (false, v) w
            | None => Crash
            end).

(** [smp_atomic_store]: an exchange whose result is dropped. *)
Definition smp_atomic_store {V} (l : loc V) (v : V) : kprog unit := store l v.

(** [smp_faa] on an [unsigned int]. *)
Definition smp_faa32 (l : loc Z) (n : Z) : kprog Z :=
  act (λ w, match lget l w with
            | Some v => Next v (lset l (wrap32 (v + n)) w)
            | None => Crash
            end).

(** [memcpy(dst, src, n)] between two objects. *)
Definition memcpy (dst src : Z) (n : Z) : kprog unit :=
  act (λ w, match w_data w !! src with
            | Some bs =>
                Next () (w <| w_data ::= λ d,
                  <[dst := take (Z.to_nat n) bs ++
                           drop (Z.to_nat n) (default [] (d !! dst))]> d |>)
            | None => Crash
            end).

Arguments lget : simpl never.
Arguments lset : simpl never.
Arguments load : simpl never.
Arguments store : simpl never.
Arguments smp_cas : simpl never.
Arguments smp_cas_v : simpl never.
Arguments smp_atomic_store : simpl never.
Arguments smp_faa32 : simpl never.
Arguments memcpy : simpl never.

(** ** Running one access *)

Lemma run_load {V} (l : loc V) w v : lget l w = Some v → run (load l) w = Done v w.
Proof. unfold load. rewrite run_act. by intros ->. Qed.

Lemma run_store {V} (l : loc V) w v v' :
  lget l w = Some v → run (store l v') w = Done () (lset l v' w).
Proof. unfold store. rewrite run_act. by intros ->. Qed.

Lemma run_cas_hit {V} `{EqDecision V} (l : loc V) w old new :
  lget l w = Some old → run (smp_cas l old new) w = Done true (lset l new w).
Proof. unfold smp_cas. rewrite run_act. intros ->. by rewrite decide_True. Qed.

Lemma run_cas_miss {V} `{EqDecision V} (l : loc V) w v old new :
  lget l w = Some v → v ≠ old → run (smp_cas l old new) w = Done false w.
Proof. unfold smp_cas. rewrite run_act. intros -> ?. by rewrite decide_False. Qed.

#[export] Hint Rewrite @lookup_alter_eq @lookup_insert_eq : khronos.

(** One access of a program, given the contents of the location. *)
Ltac ld H := erewrite run_bind_done; [|apply run_load; exact H]; cbv beta.
Ltac st H := erewrite run_bind_done; [|eapply run_store; exact H]; cbv beta.

(** Bring two states that should be equal to record form. *)
Ltac world_eq := unfold lset, lget; cbn; cbv beta delta [field_map]; cbn; f_equal.

(** Replace the constants by their values. *)
Ltac zconst :=
  change sizeof_log_block with 131080 in *;
  change MVRLU_LOG_SIZE with 131072 in *;
  change MVRLU_MAX_THREAD_NUM with 128 in *;
  change MVRLU_LOG_LOW_MARK with 65536 in *;
  change MVRLU_LOG_HIGH_MARK with 98304 in *;
  change MVRLU_CACHE_LINE_SIZE with 64 in *;
  change L1_CACHE_BYTES with 64 in *;
  change sizeof_wrt_set_struct with 80 in *;
  change sizeof_wrt_set with 32 in *;
  change sizeof_cpy_hdr_struct with 48 in *;
  change sizeof_act_hdr_struct with 24 in *;
  change sizeof_obj_hdr with 16 in *;
  change sizeof_thread_struct with 4992 in *;
  change offsetof_list with 4976 in *;
  change offsetof_log with 4528 in *;
  change MAX_VERSION with 18446744073709551614 in *;
  change ULONG_MAX with 18446744073709551615 in *;
  change MIN_VERSION with 0 in *;
  change NULL with 0 in *.

Ltac zlia := zconst; lia.
