(* ===== verification/OrdoClock.v ===== *)
(** * The ORDO clock ([include/mvrlu/ordo_clock.h])

    Time stamps are readings of the cores' time stamp counters, which agree up
    to [g_ordo_boundary] cycles.  Comparisons are done in 64 bits with the
    boundary as the margin of uncertainty.  The macros of [mvrlu.c] that name
    the clock operations under [MVRLU_ORDO_TIMESTAMPING] are here too. *)

From S2P Require Import Prelude World.

Definition __ORDO_BOUNDARY : Z := 267.
Definition g_ordo_boundary : Z := __ORDO_BOUNDARY.
Definition ordo_boundary : Z := g_ordo_boundary.

(** [ORDO_LESS_THAN], [ORDO_GREATER_THAN], [ORDO_UNCERTAIN]. *)
Definition ORDO_LESS_THAN : Z := -1.
Definition ORDO_GREATER_THAN : Z := 1.
Definition ORDO_UNCERTAIN : Z := 0.

(** [ordo_get_clock], and [ordo_get_clock_relaxed]: the next reading of the
    time stamp counter. *)
Definition ordo_get_clock : kprog Z :=
  act (λ w, match w_tsc w with
            | t :: ts => Next t (w <| w_tsc := ts |>)
            | [] => Wait
            end).
Definition ordo_get_clock_relaxed : kprog Z := ordo_get_clock.

Definition ordo_lt_clock (t1 t2 : Z) : bool := wrap64 (t1 + g_ordo_boundary) <? t2.
Definition ordo_gt_clock (t1 t2 : Z) : bool := wrap64 (t2 + g_ordo_boundary) <? t1.

Definition ordo_cmp_clock (t1 t2 : Z) : Z :=
  if ordo_lt_clock t1 t2 then ORDO_LESS_THAN
  else if ordo_gt_clock t1 t2 then ORDO_GREATER_THAN
  else ORDO_UNCERTAIN.

(** [while (!ordo_gt_clock(new_clk = ordo_get_clock(), t)) smp_mb();] *)
Definition ordo_new_clock (fuel : nat) (t : Z) : kprog Z :=
  loop fuel (λ _ : unit,
    new_clk ← ordo_get_clock;
    if ordo_gt_clock new_clk t then mret (inr new_clk) else mret (inl ())) ().

(** The macros [gte_clock], [lte_clock], [new_clock] and [correct_qp_clk]. *)
Definition gte_clock (t1 t2 : Z) : bool := ordo_gt_clock t1 t2.
Definition lte_clock (t1 t2 : Z) : bool := ordo_lt_clock t1 t2.
Definition get_clock : kprog Z := ordo_get_clock.
Definition get_clock_relaxed : kprog Z := ordo_get_clock_relaxed.
Definition new_clock (fuel : nat) (local_clk : Z) : kprog Z :=
  ordo_new_clock fuel (wrap64 (local_clk + ordo_boundary)).
Definition correct_qp_clk (qp_clk : Z) : Z := wrap64 (qp_clk - ordo_boundary).

(** ** Comparisons *)

(** Time stamps far enough below the 64-bit limit for the margin to fit: at
    any clock rate a machine has, every reading of a running kernel. *)
Definition sane_clock (t : Z) : Prop := 0 ≤ t ≤ ULONG_MAX - 4 * g_ordo_boundary.

Lemma sane_add t k : sane_clock t → 0 ≤ k ≤ 4 → wrap64 (t + k * g_ordo_boundary) = t + k * g_ordo_boundary.
Proof. unfold sane_clock, g_ordo_boundary, __ORDO_BOUNDARY. intros ??. apply wrap64_small. lia. Qed.

Lemma lt_clock_spec t1 t2 :
  sane_clock t1 → ordo_lt_clock t1 t2 = true ↔ t1 + g_ordo_boundary < t2.
Proof.
  intros H. unfold ordo_lt_clock. pose proof (sane_add t1 1 H) as E.
  rewrite Z.mul_1_l in E. rewrite -> E by lia. apply Z.ltb_lt.
Qed.

Lemma gt_clock_spec t1 t2 :
  sane_clock t2 → ordo_gt_clock t1 t2 = true ↔ t2 + g_ordo_boundary < t1.
Proof.
  intros H. unfold ordo_gt_clock. pose proof (sane_add t2 1 H) as E.
  rewrite Z.mul_1_l in E. rewrite -> E by lia. apply Z.ltb_lt.
Qed.

Lemma lt_clock_false t1 t2 :
  sane_clock t1 → ordo_lt_clock t1 t2 = false ↔ t2 ≤ t1 + g_ordo_boundary.
Proof. intros H. rewrite -not_true_iff_false lt_clock_spec //. lia. Qed.

Lemma gt_clock_false t1 t2 :
  sane_clock t2 → ordo_gt_clock t1 t2 = false ↔ t1 ≤ t2 + g_ordo_boundary.
Proof. intros H. rewrite -not_true_iff_false gt_clock_spec //. lia. Qed.

Lemma boundary_val : g_ordo_boundary = 267.
Proof. reflexivity. Qed.

(** The comparison of an uncommitted version wraps around. *)
Lemma lt_clock_max t : ordo_lt_clock MAX_VERSION t = (265 <? t).
Proof. reflexivity. Qed.

Lemma gt_clock_max t : sane_clock t → ordo_gt_clock MAX_VERSION t = true.
Proof.
  intros H. apply gt_clock_spec; [done|].
  unfold sane_clock, MAX_VERSION, ULONG_MAX in *. rewrite boundary_val in H |- *. lia.
Qed.

(** ** Drawing a new time stamp *)

(** The readings [ordo_new_clock] drops before it returns. *)
Lemma run_new_clock_skip fuel t ts tsc new w :
  Forall (λ r, ordo_gt_clock r t = false) ts →
  ordo_gt_clock new t = true →
  w_tsc w = ts ++ new :: tsc →
  (length ts < fuel)%nat →
  run (ordo_new_clock fuel t) w = Done new (w <| w_tsc := tsc |>).
Proof.
  unfold ordo_new_clock. intros Hts Hnew. revert fuel w.
  induction Hts as [|r ts Hr Hts IH]; intros [|fuel] w Hw Hf; simpl in Hf; try lia.
  - apply run_loop_exit. unfold ordo_get_clock. prog_step. rewrite Hw /= Hnew. done.
  - erewrite run_loop_again.
    2:{ unfold ordo_get_clock. prog_step. rewrite Hw /= Hr. done. }
    rewrite IH //. lia.
Qed.

Lemma run_new_clock_inv fuel t new w w' :
  run (ordo_new_clock fuel t) w = Done new w' →
  ∃ ts tsc, w_tsc w = ts ++ new :: tsc ∧ w' = w <| w_tsc := tsc |> ∧
    Forall (λ r, ordo_gt_clock r t = false) ts ∧ ordo_gt_clock new t = true.
Proof.
  unfold ordo_new_clock. revert w. induction fuel as [|fuel IH]; intros w; [done|].
  rewrite run_loop_S run_bind. unfold ordo_get_clock. rewrite run_act.
  destruct (w_tsc w) as [|c cs] eqn:Ec; [done|]. simpl.
  destruct (ordo_gt_clock c t) eqn:Eg; simpl; intros H2; simplify_eq.
  - by exists [], cs.
  - apply IH in H2 as (ts & tsc & E1 & -> & Hf & Hg). simpl in E1. subst cs.
    exists (c :: ts), tsc. split_and!; auto.
Qed.

(** [new_clock] returns the first reading that is past the given
    clock by more than twice the uncertainty, having drawn the readings up to
    it and no more; [ordo_cmp_clock] orders the two, and orders any two
    clocks the same way from both sides. *)
Theorem new_clock_first_past fuel w local skip new tsc :
  sane_clock local → w_tsc w = skip ++ new :: tsc →
  Forall (λ r, r ≤ local + 2 * g_ordo_boundary) skip →
  local + 2 * g_ordo_boundary < new → sane_clock new → (length skip < fuel)%nat →
  run (new_clock fuel local) w = Done new (w <| w_tsc := tsc |>) ∧
  ordo_cmp_clock local new = ORDO_LESS_THAN ∧ ordo_cmp_clock new local = ORDO_GREATER_THAN ∧
  Forall (λ r, sane_clock r → ordo_cmp_clock r new ≠ ORDO_GREATER_THAN) skip.
Proof.
  intros Hs Ht Hskip Hnew Hsn Hf. pose proof (sane_add local 1 Hs) as E1.
  pose proof (sane_add local 2 Hs) as E2. rewrite Z.mul_1_l in E1.
  assert (∀ r, ordo_gt_clock r (wrap64 (local + ordo_boundary)) = true ↔ local + 2 * g_ordo_boundary < r) as Hgt.
  { intros r. unfold ordo_boundary. rewrite -> E1 by lia. unfold ordo_gt_clock.
    replace (local + g_ordo_boundary + g_ordo_boundary) with (local + 2 * g_ordo_boundary) by lia.
    rewrite -> E2 by lia. apply Z.ltb_lt. }
  pose proof (lt_clock_spec local new Hs) as Hl1. pose proof (gt_clock_spec new local Hs) as Hg1.
  pose proof (lt_clock_false new local Hsn) as Hl2. rewrite boundary_val in Hskip, Hnew, Hl1, Hg1, Hl2, Hgt.
  split_and!.
  - apply run_new_clock_skip with skip; [|by apply Hgt|done|done].
    eapply Forall_impl; [exact Hskip|]. intros r Hr. apply not_true_iff_false. rewrite Hgt. cbv beta in Hr. lia.
  - unfold ordo_cmp_clock. by rewrite (proj2 Hl1) //; lia.
  - unfold ordo_cmp_clock. rewrite (proj2 Hl2); [lia|]. by rewrite (proj2 Hg1) //; lia.
  - eapply Forall_impl; [exact Hskip|]. intros r Hr Hsr. cbv beta in Hr. unfold ordo_cmp_clock.
    destruct (ordo_lt_clock r new); [done|]. rewrite (proj2 (gt_clock_false r new Hsn)); [|done].
    rewrite boundary_val. lia.
Qed.
