(* ===== verification/Port.v ===== *)
(** * The kernel port: log blocks and object memory

    [kernel/mvrlu/log_allocator.cc], [include/mvrlu/log_allocator.hh] and the
    memory part of [kernel/mvrlu/port-kernel.cc].  The log blocks are one
    array allocated at boot; free blocks are a list.  The pool's lock makes
    each operation on it one step. *)

From S2P Require Import Prelude World OrdoClock.

(** ** Log blocks *)

(** [offsetof(log_block, log_part)]: the link comes first. *)
Definition offsetof_log_part : Z := 8.

(** [log_block::cast_to_block]. *)
Definition cast_to_block (log_reg : Z) : Z := log_reg - offsetof_log_part.

(** The [i]-th element of [log_chunks->space]. *)
Definition log_block_at (log_chunks : Z) (i : nat) : Z :=
  log_chunks + Z.of_nat i * sizeof_log_block.

(** The constructor [log_allocator::log_allocator]: every block of the array
    at address [log_chunks] is pushed to the front of the pool. *)
Definition log_allocator (log_chunks : Z) (w : world) : world :=
  w <| w_pool := foldl (λ pool i, log_block_at log_chunks i :: pool) []
                   (seq 0 (Z.to_nat MVRLU_MAX_THREAD_NUM)) |>
    <| w_start_addr := log_chunks |>
    <| w_end_addr := wrap64 (log_chunks + sizeof_log_block * MVRLU_MAX_THREAD_NUM) |>.

Definition addr_in_log_region (w : world) (addr : Z) : bool :=
  (w_start_addr w <=? addr) && (addr <? w_end_addr w).

(** [log_allocator::alloc_log_mem]; [nullptr] when no block is left. *)
Definition alloc_log_mem : kprog Z :=
  act (λ w, match w_pool w with
            | block :: pool => Next (block + offsetof_log_part) (w <| w_pool := pool |>)
            | [] => Next NULL w
            end).

(** [log_allocator::free_log_mem]; [panic] on an address outside the region. *)
Definition free_log_mem (log_part : Z) : kprog unit :=
  act (λ w, let b := cast_to_block log_part in
            if addr_in_log_region w b then Next () (w <| w_pool ::= cons b |>)
            else Crash).

Definition port_log_region_init (size num : Z) : kprog Z := mret 0.
Definition port_alloc_log_mem : kprog Z := alloc_log_mem.
Definition port_free_log_mem (addr : Z) : kprog unit := free_log_mem addr.
Definition port_addr_in_log_region (addr : Z) : kprog bool :=
  act (λ w, Next (addr_in_log_region w addr) w).

(** ** Object memory *)

Definition sizeof_size_t : Z := 8.

(** [port_alloc_x]: the block's size is kept in the word before the memory.
    [w_kmem] gives the addresses [kmalign] returns. *)
Definition port_alloc_x (size : Z) : kprog Z :=
  act (λ w, match w_kmem w with
            | mem :: rest =>
                Next (mem + sizeof_size_t)
                  (w <| w_kmem := rest |>
                     <| w_mem ::= <[mem := wrap64 (size + sizeof_size_t)]> |>)
            | [] => Wait
            end).
Definition port_alloc (size : Z) : kprog Z := port_alloc_x size.

(** [GET_MEM]. *)
Definition GET_MEM (ptr : Z) : Z := ptr - sizeof_size_t.

(** [port_free]: what lived in the block, an object or a thread structure with
    its list node, is gone with it. *)
Definition port_free (ptr : Z) : kprog unit :=
  act (λ w, let mem := GET_MEM ptr in
            match w_mem w !! mem with
            | Some size =>
                Next () (w <| w_mem ::= delete mem |>
                           <| w_ahs ::= delete ptr |>
                           <| w_data ::= delete (ptr + sizeof_act_hdr_struct) |>
                           <| w_thr ::= delete ptr |>
                           <| w_node ::= delete (list_of ptr) |>)
            | None => Crash
            end).

(** ** The nap of the detection thread *)

Definition nsectime : kprog Z :=
  act (λ w, match w_nsec w with
            | t :: ts => Next t (w <| w_nsec := ts |>)
            | [] => Wait
            end).

(** [port_initiate_nap]: the time, in nanoseconds of [nsectime()], until which
    the caller sleeps unless it is woken up; [None] when that time has passed
    on the second look. *)
Definition port_initiate_nap (usecs : Z) : kprog (option Z) :=
  t1 ← nsectime;
  let until := wrap64 (t1 + wrap64 (usecs * 1000000)) in
  t2 ← nsectime;
  if t2 <? until then mret (Some until) else mret None.

(** [port_initiate_wakeup]: wakes the sleepers; no memory of the library
    changes. *)
Definition port_initiate_wakeup : kprog unit := mret ().

(** [port_create_thread], with the result of [threadalloc]. *)
Definition port_create_thread (temp : option Z) : kprog Z :=
  match temp with Some _ => mret 0 | None => mret (-11) end.

(** ** Lemmas *)

Lemma addr_in_log_region_spec w a :
  addr_in_log_region w a = true ↔ w_start_addr w ≤ a < w_end_addr w.
Proof. unfold addr_in_log_region. rewrite andb_true_iff Z.leb_le Z.ltb_lt. done. Qed.

Lemma log_block_at_inj c i j : log_block_at c i = log_block_at c j → i = j.
Proof. unfold log_block_at. zlia. Qed.

(** Blocks of the region: the addresses the constructor puts in the pool. *)
Definition region_blocks (c : Z) : list Z :=
  log_block_at c <$> seq 0 (Z.to_nat MVRLU_MAX_THREAD_NUM).

Lemma foldl_cons_rev {A B} (f : A → B) (l : list A) acc :
  foldl (λ pool i, f i :: pool) acc l = reverse (f <$> l) ++ acc.
Proof.
  revert acc. induction l as [|x l IH]; intros acc; [done|].
  rewrite /= IH reverse_cons -app_assoc. done.
Qed.

Lemma log_allocator_pool c w : w_pool (log_allocator c w) = reverse (region_blocks c).
Proof.
  transitivity (foldl (λ pool i, log_block_at c i :: pool) []
                  (seq 0 (Z.to_nat MVRLU_MAX_THREAD_NUM))); [done|].
  by rewrite (foldl_cons_rev (log_block_at c)) app_nil_r.
Qed.

(** ** The invariant of the pool

    [busy] are the blocks lent to threads.  Every block of the region is
    either free or lent, never both. *)
Definition pool_inv (c : Z) (busy : list Z) (w : world) : Prop :=
  w_start_addr w = c ∧
  w_end_addr w = c + sizeof_log_block * MVRLU_MAX_THREAD_NUM ∧
  w_pool w ++ busy ≡ₚ region_blocks c.

(** A region that does not run over the end of the address space. *)
Definition region_fits (c : Z) : Prop :=
  0 < c ∧ c + sizeof_log_block * MVRLU_MAX_THREAD_NUM ≤ ULONG_MAX.

Lemma log_allocator_inv c w : region_fits c → pool_inv c [] (log_allocator c w).
Proof.
  intros [Hc Hfit]. split_and!; [done| |].
  - simpl. apply wrap64_small. zlia.
  - rewrite log_allocator_pool app_nil_r. apply reverse_Permutation.
Qed.

Lemma region_blocks_NoDup c : NoDup (region_blocks c).
Proof.
  apply NoDup_fmap_2_strong; [|apply NoDup_seq].
  intros i j _ _. apply log_block_at_inj.
Qed.

Lemma elem_of_region_blocks c b :
  b ∈ region_blocks c ↔ ∃ i, (i < 128)%nat ∧ b = log_block_at c i.
Proof.
  unfold region_blocks. rewrite list_elem_of_fmap.
  change (Z.to_nat MVRLU_MAX_THREAD_NUM) with 128%nat.
  split; intros (i & H1 & H2); exists i.
  - rewrite elem_of_seq in H2. split; [lia|done].
  - rewrite elem_of_seq. split; [done|lia].
Qed.

(** A block of the region lies inside it with its whole log part. *)
Lemma region_block_bounds c b :
  b ∈ region_blocks c →
  c ≤ b ∧ b + sizeof_log_block ≤ c + sizeof_log_block * MVRLU_MAX_THREAD_NUM.
Proof.
  rewrite elem_of_region_blocks. intros (i & Hi & ->).
  unfold log_block_at. zlia.
Qed.

(** Two different blocks do not overlap. *)
Lemma region_blocks_disjoint c b1 b2 :
  b1 ∈ region_blocks c → b2 ∈ region_blocks c → b1 ≠ b2 →
  b1 + sizeof_log_block ≤ b2 ∨ b2 + sizeof_log_block ≤ b1.
Proof.
  rewrite !elem_of_region_blocks. intros (i & Hi & ->) (j & Hj & ->).
  unfold log_block_at. intros Hne.
  assert (i ≠ j) by (intros ->; done). zlia.
Qed.

Lemma alloc_log_mem_inv c busy w p w' :
  region_fits c →
  pool_inv c busy w → run alloc_log_mem w = Done p w' →
  (p = NULL ∧ w' = w ∧ w_pool w = [] ∧ length busy = 128%nat) ∨
  (∃ b, p = b + offsetof_log_part ∧ b ∈ region_blocks c ∧ b ∉ busy ∧
        pool_inv c (b :: busy) w').
Proof.
  intros Hc (Hs & He & Hp). unfold alloc_log_mem. rewrite run_act.
  destruct (w_pool w) as [|b pool] eqn:Ep; intros Hr; injection Hr as <- <-.
  - left. split_and!; auto. apply Permutation_length in Hp. by rewrite Hp length_fmap length_seq.
  - right. exists b. pose proof (region_blocks_NoDup c) as Hnd. rewrite -Hp in Hnd.
    apply NoDup_cons in Hnd as [Hb _]. rewrite elem_of_app in Hb.
    split_and!; auto.
    + rewrite -Hp. set_solver.
    + split_and!; simpl; auto. rewrite -Hp. by rewrite -Permutation_middle.
Qed.

Lemma free_log_mem_inv c b busy w :
  pool_inv c (b :: busy) w →
  ∃ w', run (free_log_mem (b + offsetof_log_part)) w = Done () w' ∧
        pool_inv c busy w' ∧ w' = w <| w_pool ::= cons b |>.
Proof.
  intros (Hs & He & Hp). unfold free_log_mem. rewrite run_act.
  unfold cast_to_block. replace (b + offsetof_log_part - offsetof_log_part) with b by lia.
  assert (b ∈ region_blocks c) as Hb by (rewrite -Hp; set_solver).
  apply region_block_bounds in Hb. rewrite (proj2 (addr_in_log_region_spec w b)).
  { rewrite Hs He. zlia. }
  eexists. split; [done|]. split; [|done]. split_and!; simpl; auto.
  rewrite -Hp. by rewrite -Permutation_middle.
Qed.

(** ** The pool over time *)

(** The states the pool goes through: [busy] are the blocks of the threads
    that were given one and have not given it back. *)
Inductive pool_reach (c : Z) : list Z → world → Prop :=
| pool_boot w : pool_reach c [] (log_allocator c w)
| pool_alloc busy w p w' :
    pool_reach c busy w → run alloc_log_mem w = Done p w' → p ≠ NULL →
    pool_reach c (cast_to_block p :: busy) w'
| pool_free busy1 b busy2 w w' :
    pool_reach c (busy1 ++ b :: busy2) w →
    run (free_log_mem (b + offsetof_log_part)) w = Done () w' →
    pool_reach c (busy1 ++ busy2) w'
| pool_other busy w w' :
    pool_reach c busy w → w_pool w' = w_pool w → w_start_addr w' = w_start_addr w →
    w_end_addr w' = w_end_addr w → pool_reach c busy w'.

Lemma pool_inv_perm c l1 l2 w : l1 ≡ₚ l2 → pool_inv c l1 w → pool_inv c l2 w.
Proof. intros E (?&?&H). split_and!; auto. by rewrite -E. Qed.

Lemma pool_reach_inv c busy w : region_fits c → pool_reach c busy w → pool_inv c busy w.
Proof.
  intros Hc. induction 1 as [w|busy w p w' _ IH Hr Hp|busy1 b busy2 w w' _ IH Hr|busy w w' _ (?&?&?) E1 E2 E3].
  - by apply log_allocator_inv.
  - destruct (alloc_log_mem_inv _ _ _ _ _ Hc IH Hr) as [(?&_)|(b & -> & _ & _ & H)]; [done|].
    unfold cast_to_block. by replace (b + offsetof_log_part - offsetof_log_part) with b by lia.
  - apply (pool_inv_perm _ _ (b :: busy1 ++ busy2)) in IH; [|by rewrite Permutation_middle].
    destruct (free_log_mem_inv _ _ _ _ IH) as (w2 & Hr2 & H & _). congruence.
  - split_and!; congruence.
Qed.

(** C33: at any time no two threads share a log: the blocks lent out are
    distinct, lie inside the region and do not overlap; giving one back never
    panics, and [alloc_log_mem] returns [nullptr] exactly when all
    [MVRLU_MAX_THREAD_NUM] blocks are lent out. *)
Theorem pool_blocks_exclusive c busy w :
  region_fits c → pool_reach c busy w →
  NoDup busy ∧
  (∀ b, b ∈ busy → c ≤ b ∧ b + sizeof_log_block ≤ w_end_addr w) ∧
  (∀ b1 b2, b1 ∈ busy → b2 ∈ busy → b1 ≠ b2 →
     b1 + sizeof_log_block ≤ b2 ∨ b2 + sizeof_log_block ≤ b1) ∧
  (∀ b, b ∈ busy → ∃ w', run (free_log_mem (b + offsetof_log_part)) w = Done () w') ∧
  ((∃ w', run alloc_log_mem w = Done NULL w') ↔ Z.of_nat (length busy) = MVRLU_MAX_THREAD_NUM).
Proof.
  intros Hc Hr. pose proof (pool_reach_inv _ _ _ Hc Hr) as Hinv. pose proof Hinv as (_ & He & Hp).
  assert (∀ b, b ∈ busy → b ∈ region_blocks c) as Hin by (intros b Hb; rewrite -Hp; set_solver).
  pose proof (region_blocks_NoDup c) as Hnd. rewrite -Hp in Hnd. split_and!.
  - by apply NoDup_app in Hnd as (_ & _ & ?).
  - intros b Hb. rewrite He. by apply region_block_bounds, Hin.
  - intros b1 b2 H1 H2. apply (region_blocks_disjoint c); auto.
  - intros b Hb. apply list_elem_of_split in Hb as (l1 & l2 & ->).
    apply (pool_inv_perm _ _ (b :: l1 ++ l2)) in Hinv; [|by rewrite Permutation_middle].
    destruct (free_log_mem_inv _ _ _ _ Hinv) as (w2 & Hr2 & _). eauto.
  - apply Permutation_length in Hp as Hlen. unfold region_blocks in Hlen.
    rewrite length_app length_fmap length_seq in Hlen. unfold alloc_log_mem. rewrite run_act.
    destruct (w_pool w) as [|b pool] eqn:Ep; cbn [length] in Hlen.
    + split; [|eauto]. intros _. zlia.
    + split; [|zlia]. intros (w' & [= E _]). exfalso.
      assert (b ∈ region_blocks c) as Hb by (rewrite -Hp; set_solver).
      apply region_block_bounds in Hb. destruct Hc. unfold offsetof_log_part in E. zlia.
Qed.
