(* ===== verification/ThreadList.v ===== *)
(** * Thread lists ([mvrlu.c], "thread information")

    The circular doubly linked lists of registered threads, their spinlock and
    the waiter flag that lets a thread interrupt a long walk. *)

From S2P Require Import Prelude World Port.

(** ** List primitives *)

Definition init_mvrlu_list (l : Z) : kprog unit :=
  act (λ w, Next () (w <| w_node ::= <[l := ListNode l l]> |>)).

Definition mvrlu_list_add (new head : Z) : kprog unit :=
  hn ← load (node_loc next head);
  store (node_loc prev hn) new;;
  hn ← load (node_loc next head);
  store (node_loc next new) hn;;
  store (node_loc prev new) head;;
  store (node_loc next head) new.

Definition mvrlu_list_del (entry : Z) : kprog unit :=
  en ← load (node_loc next entry);
  ep ← load (node_loc prev entry);
  store (node_loc prev en) ep;;
  ep ← load (node_loc prev entry);
  en ← load (node_loc next entry);
  store (node_loc next ep) en.

Definition mvrlu_list_empty (head : Z) : kprog bool :=
  n ← load (node_loc next head);
  if decide (n = head) then
    p ← load (node_loc prev head); mret (bool_decide (p = head))
  else mret false.

Definition mvrlu_list_rotate_left (head : Z) : kprog unit :=
  e ← mvrlu_list_empty head;
  when (negb e) (
    first ← load (node_loc next head);
    mvrlu_list_del first;;
    hp ← load (node_loc prev head);
    mvrlu_list_add first hp).

(** [thread_list_for_each_safe]: the successor is read before the body runs.
    The body returns [Some] to leave the walk. *)
Definition thread_list_for_each_safe {A} (fuel : nat) (tl : Z)
    (body : Z → kprog (option A)) : kprog (option A) :=
  pos ← load (node_loc next (tl_list tl));
  n ← load (node_loc next pos);
  loop fuel (λ '(pos, n),
    if decide (pos = tl_list tl) then mret (inr None)
    else
      r ← body (list_to_thread pos);
      match r with
      | Some a => mret (inr (Some a))
      | None => n' ← load (node_loc next n); mret (inl (n, n'))
      end) (pos, n).

(** ** Locking *)

Definition port_spin_lock (tl : Z) : kprog unit :=
  act (λ w, match w_tl w !! tl with
            | Some t => if tl_lock t then Wait
                        else Next () (lset (tl_loc tl_lock tl) true w)
            | None => Crash
            end).
Definition port_spin_trylock (tl : Z) : kprog bool :=
  act (λ w, match w_tl w !! tl with
            | Some t => if tl_lock t then Next false w
                        else Next true (lset (tl_loc tl_lock tl) true w)
            | None => Crash
            end).
Definition port_spin_unlock (tl : Z) : kprog unit := store (tl_loc tl_lock tl) false.

Definition thread_list_has_waiter (tl : Z) : kprog bool :=
  x ← load (tl_loc thread_wait tl); mret (truth x).

Definition init_thread_list (tl : Z) : kprog unit :=
  act (λ w, Next () (w <| w_tl ::= λ m,
    <[tl := (default (ThreadList false 0 0 0) (m !! tl))
              <| tl_lock := false |> <| cur_tid := 0 |> <| num := 0 |>]> m |>));;
  init_mvrlu_list (tl_list tl).

Definition thread_list_lock (tl : Z) : kprog unit := port_spin_lock tl.

Definition thread_list_lock_force (tl : Z) : kprog unit :=
  ok ← port_spin_trylock tl;
  when (negb ok) (
    smp_cas (tl_loc thread_wait tl) 0 1;;
    port_spin_lock tl).

Definition thread_list_unlock (tl : Z) : kprog unit :=
  x ← load (tl_loc thread_wait tl);
  when (truth x) (smp_atomic_store (tl_loc thread_wait tl) 0);;
  port_spin_unlock tl.

(** ** Adding and removing threads *)

Definition thread_list_add (tl self : Z) : kprog unit :=
  thread_list_lock_force tl;;
  c ← load (tl_loc cur_tid tl);
  store (tl_loc cur_tid tl) (wrap32 (c + 1));;
  store (thr_loc tid self) c;;
  n ← load (tl_loc num tl);
  store (tl_loc num tl) (wrap32 (n + 1));;
  mvrlu_list_add (list_of self) (tl_list tl);;
  thread_list_unlock tl.

Definition thread_list_del_unsafe (tl self : Z) : kprog unit :=
  n ← load (tl_loc num tl);
  store (tl_loc num tl) (wrap32 (n - 1));;
  mvrlu_list_del (list_of self);;
  store (node_loc next (list_of self)) NULL;;
  store (node_loc prev (list_of self)) NULL.

Definition thread_list_del (tl self : Z) : kprog unit :=
  thread_list_lock_force tl;;
  thread_list_del_unsafe tl self;;
  thread_list_unlock tl.

Definition thread_list_rotate_left_unsafe (tl : Z) : kprog unit :=
  mvrlu_list_rotate_left (tl_list tl).

(** ** Well-formed rings *)

Definition nxt (m : gmap Z mvrlu_list) (a : Z) : option Z := next <$> m !! a.
Definition prv (m : gmap Z mvrlu_list) (a : Z) : option Z := prev <$> m !! a.

Definition set_next (a v : Z) (m : gmap Z mvrlu_list) : gmap Z mvrlu_list :=
  alter (λ n, n <| next := v |>) a m.
Definition set_prev (a v : Z) (m : gmap Z mvrlu_list) : gmap Z mvrlu_list :=
  alter (λ n, n <| prev := v |>) a m.

(** Every two neighbours of the path point at each other. *)
Fixpoint links (m : gmap Z mvrlu_list) (xs : list Z) : Prop :=
  match xs with
  | x :: (y :: _) as t => nxt m x = Some y ∧ prv m y = Some x ∧ links m t
  | _ => True
  end.

(** [h] is the head of a ring that holds the entries [l], in order. *)
Definition dll (m : gmap Z mvrlu_list) (h : Z) (l : list Z) : Prop :=
  NoDup (h :: l) ∧ links m (h :: l ++ [h]).

(** *** Lemmas on links *)

Lemma nxt_set_next a v m x :
  nxt (set_next a v m) x = if decide (x = a) then (λ _, v) <$> nxt m a else nxt m x.
Proof.
  unfold nxt, set_next. case_decide as E; [subst; rewrite lookup_alter_eq|rewrite lookup_alter_ne //].
  by destruct (m !! a).
Qed.
Lemma prv_set_next a v m x : prv (set_next a v m) x = prv m x.
Proof.
  unfold prv, set_next. destruct (decide (x = a)) as [->|];
    [rewrite lookup_alter_eq|rewrite lookup_alter_ne //]. by destruct (m !! a).
Qed.
Lemma prv_set_prev a v m x :
  prv (set_prev a v m) x = if decide (x = a) then (λ _, v) <$> prv m a else prv m x.
Proof.
  unfold prv, set_prev. case_decide as E; [subst; rewrite lookup_alter_eq|rewrite lookup_alter_ne //].
  by destruct (m !! a).
Qed.
Lemma nxt_set_prev a v m x : nxt (set_prev a v m) x = nxt m x.
Proof.
  unfold nxt, set_prev. destruct (decide (x = a)) as [->|];
    [rewrite lookup_alter_eq|rewrite lookup_alter_ne //]. by destruct (m !! a).
Qed.

Lemma nxt_prv_dom m a : is_Some (nxt m a) ↔ is_Some (prv m a).
Proof. unfold nxt, prv. rewrite !fmap_is_Some. done. Qed.

Lemma links_app m xs x ys :
  links m (xs ++ x :: ys) ↔ links m (xs ++ [x]) ∧ links m (x :: ys).
Proof.
  induction xs as [|a [|b xs] IH]; simpl in *; [naive_solver|naive_solver|].
  rewrite IH. naive_solver.
Qed.

Lemma links_frame m m' q z x0 t :
  q ++ [z] = x0 :: t →
  (∀ a, a ∈ q → nxt m' a = nxt m a) → (∀ b, b ∈ t → prv m' b = prv m b) →
  links m (q ++ [z]) → links m' (q ++ [z]).
Proof.
  revert x0 t. induction q as [|a [|b q] IH]; intros x0 t E Hn Hp; simplify_eq/=; [done| |].
  - intros (? & ? & _). split_and!; auto.
    + rewrite Hn //. set_solver.
    + rewrite Hp //. set_solver.
  - intros (? & ? & H). split_and!.
    + rewrite Hn //. set_solver.
    + rewrite Hp //. set_solver.
    + eapply IH; [done|set_solver|set_solver|done].
Qed.

(** A ring can be entered at any of its nodes. *)
Lemma dll_rotate m h l1 p l2 : dll m h (l1 ++ p :: l2) ↔ dll m p (l2 ++ h :: l1).
Proof.
  unfold dll.
  replace (h :: (l1 ++ p :: l2) ++ [h]) with ((h :: l1) ++ p :: (l2 ++ [h]))
    by (by rewrite -app_assoc).
  replace (p :: (l2 ++ h :: l1) ++ [p]) with ((p :: l2) ++ h :: (l1 ++ [p]))
    by (by rewrite -app_assoc).
  rewrite (links_app m (h :: l1)) (links_app m (p :: l2)).
  assert (h :: l1 ++ p :: l2 ≡ₚ p :: l2 ++ h :: l1) as E.
  { by rewrite !app_comm_cons (Permutation_app_comm (h :: l1)). }
  rewrite E. simpl. tauto.
Qed.

Lemma dll_next m h l : dll m h l → nxt m h = Some (default h (head l)).
Proof. intros [_ H]. destruct l; simpl in H; naive_solver. Qed.

Lemma dll_prev m h l : dll m h l → prv m h = Some (default h (last l)).
Proof.
  intros [_ H]. destruct l as [|y l'] using rev_ind; [simpl in H; naive_solver|].
  rewrite last_snoc /=. replace (h :: (l' ++ [y]) ++ [h]) with ((h :: l') ++ y :: [h]) in H
    by (by rewrite -app_assoc).
  apply links_app in H as [_ H]. simpl in H. naive_solver.
Qed.

Lemma dll_node m h l a : dll m h l → a ∈ h :: l → is_Some (nxt m a) ∧ is_Some (prv m a).
Proof.
  intros Hd [->|(l1 & l2 & ->)%list_elem_of_split]%elem_of_cons.
  - erewrite dll_next, dll_prev; eauto.
  - rewrite dll_rotate in Hd. erewrite dll_next, dll_prev; eauto.
Qed.

Lemma dll_frame m m' h l :
  (∀ a, a ∈ h :: l → nxt m' a = nxt m a ∧ prv m' a = prv m a) → dll m h l → dll m' h l.
Proof.
  intros Hf [Hnd H]. split; [done|]. rewrite app_comm_cons in H |- *.
  eapply links_frame; [done| | |done].
  - intros a Ha. by apply Hf.
  - intros b Hb. apply Hf. set_solver.
Qed.

(** *** The effect of the primitives on the node memory *)

Definition list_add_map (new hd : Z) (m : gmap Z mvrlu_list) : gmap Z mvrlu_list :=
  let hn := default NULL (nxt m hd) in
  set_next hd new (set_prev new hd (set_next new hn (set_prev hn new m))).

Definition list_del_map (e : Z) (m : gmap Z mvrlu_list) : gmap Z mvrlu_list :=
  let en := default NULL (nxt m e) in
  let ep := default NULL (prv m e) in
  set_next ep en (set_prev en ep m).

Lemma run_list_add w new hd hn :
  nxt (w_node w) hd = Some hn → is_Some (nxt (w_node w) hn) →
  is_Some (nxt (w_node w) new) →
  run (mvrlu_list_add new hd) w = Done () (w <| w_node := list_add_map new hd (w_node w) |>).
Proof.
  intros Hn [x Hx] [y Hy].
  assert (is_Some (prv (w_node w) hn)) as [x' Hx'] by (apply nxt_prv_dom; eauto).
  assert (is_Some (prv (w_node w) new)) as [y' Hy'] by (apply nxt_prv_dom; eauto).
  unfold mvrlu_list_add. ld Hn. st Hx'. set (w1 := lset _ _ w).
  assert (∀ a, nxt (w_node w1) a = nxt (w_node w) a) as Hn1.
  { intros a. apply nxt_set_prev. }
  ld (eq_trans (Hn1 hd) Hn). st (eq_trans (Hn1 new) Hy). set (w2 := lset _ _ w1).
  assert (is_Some (prv (w_node w2) new)) as [y2 Hy2].
  { change (w_node w2) with (set_next new hn (set_prev hn new (w_node w))).
    rewrite prv_set_next prv_set_prev. case_decide; subst; rewrite ?Hx' ?Hy'; eauto. }
  st Hy2. set (w3 := lset _ _ w2).
  assert (is_Some (nxt (w_node w3) hd)) as [z Hz].
  { change (w_node w3) with (set_prev new hd (set_next new hn (w_node w1))).
    rewrite nxt_set_prev nxt_set_next. case_decide; subst; rewrite !Hn1 ?Hy ?Hn; eauto. }
  rewrite (run_store _ w3 z) //. f_equal. unfold list_add_map. by rewrite Hn.
Qed.

Lemma run_list_del w e en ep :
  nxt (w_node w) e = Some en → prv (w_node w) e = Some ep →
  is_Some (nxt (w_node w) en) → is_Some (nxt (w_node w) ep) → en ≠ e →
  run (mvrlu_list_del e) w = Done () (w <| w_node := list_del_map e (w_node w) |>).
Proof.
  intros Hn Hp [x Hx] [y Hy] Hne.
  assert (is_Some (prv (w_node w) en)) as [x' Hx'] by (apply nxt_prv_dom; eauto).
  unfold mvrlu_list_del. ld Hn. ld Hp. st Hx'. set (w1 := lset _ _ w).
  assert (prv (w_node w1) e = Some ep) as Hp1.
  { change (w_node w1) with (set_prev en ep (w_node w)). rewrite prv_set_prev.
    by rewrite decide_False. }
  assert (∀ a, nxt (w_node w1) a = nxt (w_node w) a) as Hn1.
  { intros a. apply nxt_set_prev. }
  ld Hp1. ld (eq_trans (Hn1 e) Hn). rewrite (run_store _ w1 y); [exact (eq_trans (Hn1 ep) Hy)|].
  f_equal. unfold list_del_map. by rewrite Hn Hp.
Qed.

(** What changes when [new] is linked in after [hd]. *)
Lemma list_add_map_spec m new hd hn :
  nxt m hd = Some hn → is_Some (nxt m hn) → is_Some (nxt m new) → new ≠ hd → new ≠ hn →
  let m' := list_add_map new hd m in
  nxt m' hd = Some new ∧ prv m' new = Some hd ∧ nxt m' new = Some hn ∧
  prv m' hn = Some new ∧
  (∀ a, a ≠ hd → a ≠ new → nxt m' a = nxt m a) ∧
  (∀ b, b ≠ hn → b ≠ new → prv m' b = prv m b).
Proof.
  intros Hn [x Hx] [y Hy] ??. unfold list_add_map. rewrite Hn. simpl.
  assert (is_Some (prv m hn)) as [x' Hx'] by (apply nxt_prv_dom; eauto).
  assert (is_Some (prv m new)) as [y' Hy'] by (apply nxt_prv_dom; eauto).
  split_and!; intros;
    repeat (rewrite ?nxt_set_next ?nxt_set_prev ?prv_set_next ?prv_set_prev; case_decide; simplify_eq/=);
    rewrite ?nxt_set_next ?nxt_set_prev ?prv_set_next ?prv_set_prev;
    repeat case_decide; simplify_eq/=; rewrite ?Hn ?Hy ?Hx' ?Hy' //.
Qed.

Lemma list_del_map_spec m e en ep :
  nxt m e = Some en → prv m e = Some ep → is_Some (nxt m en) → is_Some (nxt m ep) →
  let m' := list_del_map e m in
  nxt m' ep = Some en ∧ prv m' en = Some ep ∧
  (∀ a, a ≠ ep → nxt m' a = nxt m a) ∧ (∀ b, b ≠ en → prv m' b = prv m b).
Proof.
  intros Hn Hp [x Hx] [y Hy]. unfold list_del_map. rewrite Hn Hp. simpl.
  assert (is_Some (prv m en)) as [x' Hx'] by (apply nxt_prv_dom; eauto).
  split_and!; intros; rewrite ?nxt_set_next ?nxt_set_prev ?prv_set_next ?prv_set_prev;
    repeat case_decide; simplify_eq/=; rewrite ?nxt_set_prev ?Hy ?Hx' //.
Qed.

(** Inserting after the head. *)
Lemma dll_add m h l new :
  dll m h l → new ∉ h :: l → is_Some (nxt m new) → dll (list_add_map new h m) h (new :: l).
Proof.
  intros Hd Hnew Hs. pose proof (dll_next _ _ _ Hd) as Hn. pose proof Hd as [Hnd Hl].
  set (hn := default h (head l)) in *.
  assert (hn ∈ h :: l) as Hin by (destruct l; set_solver).
  destruct (list_add_map_spec m new h hn) as (H1 & H2 & H3 & H4 & H5 & H6);
    [done|by eapply dll_node|done|set_solver|set_solver|].
  generalize dependent (list_add_map new h m). intros m' H1 H2 H3 H4 H5 H6.
  apply NoDup_cons in Hnd as [Hh Hnd].
  split; [rewrite !NoDup_cons; set_solver|].
  assert (∃ t, l ++ [h] = hn :: t ∧ hn ∉ t) as (t & Et & Hnt).
  { destruct l as [|y l']; simpl; [exists []; set_solver|].
    exists (l' ++ [h]). split; [done|]. apply NoDup_cons in Hnd as [??]. set_solver. }
  assert (links m (l ++ [h])) as Hl'.
  { rewrite Et in Hl |- *. simpl in Hl. naive_solver. }
  assert (links m' (l ++ [h])) as Hl''.
  { eapply links_frame; [exact Et| | |done]; [set_solver|].
    intros b Hb. apply H6; [set_solver|]. intros ->. apply Hnew.
    assert (new ∈ l ++ [h]) by (rewrite Et; set_solver). set_solver. }
  rewrite /= Et. rewrite Et in Hl''. done.
Qed.

(** Removing a node. *)
Lemma dll_del m h l1 e l2 :
  dll m h (l1 ++ e :: l2) → dll (list_del_map e m) h (l1 ++ l2).
Proof.
  intros Hd. pose proof (proj1 (dll_rotate _ _ _ _ _) Hd) as Hr.
  pose proof (dll_next _ _ _ Hr) as Hn. pose proof (dll_prev _ _ _ Hr) as Hp.
  set (en := default e (head (l2 ++ h :: l1))) in *.
  set (ep := default e (last (l2 ++ h :: l1))) in *.
  assert (en ∈ h :: l1 ++ l2) as Hen by (subst en; destruct l2; set_solver).
  assert (∃ q, h :: l1 = q ++ [ep]) as [q Eq].
  { subst ep. rewrite last_app_cons. destruct l1 as [|y l1'] using rev_ind; [by exists []|].
    exists (h :: l1'). by rewrite app_comm_cons last_snoc. }
  assert (ep ∈ h :: l1) as Hep by (rewrite Eq; set_solver).
  destruct (list_del_map_spec m e en ep) as (H1 & H2 & H3 & H4);
    [done|done|eapply dll_node; [exact Hd|set_solver]..|].
  generalize dependent (list_del_map e m). intros m' H1 H2 H3 H4.
  destruct Hd as [Hnd Hl].
  assert (NoDup (h :: l1 ++ l2)) as Hnd'.
  { eapply sublist_NoDup; [exact Hnd|]. apply sublist_skip, sublist_app; [done|]. by apply sublist_cons. }
  split; [done|].
  assert (∃ t, l2 ++ [h] = en :: t ∧ en ∉ t) as (t & Et & Hnt).
  { subst en. apply NoDup_cons in Hnd' as [? (? & ? & Hn2)%NoDup_app].
    destruct l2 as [|y l2']; simpl; [exists []; set_solver|].
    exists (l2' ++ [h]). split; [done|]. apply NoDup_cons in Hn2 as [??]. set_solver. }
  replace (h :: (l1 ++ e :: l2) ++ [h]) with ((h :: l1) ++ e :: (l2 ++ [h])) in Hl
    by (by rewrite -app_assoc).
  replace (h :: (l1 ++ l2) ++ [h]) with ((h :: l1) ++ (l2 ++ [h])) by (by rewrite -app_assoc).
  apply links_app in Hl as [HA HB].
  assert (links m (l2 ++ [h])) as HB'. { rewrite Et in HB |- *. simpl in HB. naive_solver. }
  assert (links m (h :: l1)) as HA'. { rewrite Eq in HA |- *. rewrite -app_assoc in HA. by apply links_app in HA as [? _]. }
  clearbody en ep. pose proof Hnd' as (Hq & Hdis & _)%(NoDup_app (h :: l1)).
  assert (links m' (l2 ++ [h])) as HB''.
  { eapply links_frame; [exact Et| | |done]; [|set_solver].
    intros a Ha. apply H3. intros ->. by apply (Hdis ep). }
  assert (links m' (q ++ [ep])) as HA''.
  { rewrite Eq in HA'. eapply links_frame; [symmetry; exact Eq| | |done].
    - intros a Ha. apply H3. intros ->. rewrite Eq in Hq.
      apply NoDup_app in Hq as (_ & Hx & _). apply (Hx ep Ha). set_solver.
    - intros b Hb. apply H4. intros ->. assert (en ∈ l2 ++ [h]) as Hx by (rewrite Et; set_solver).
      apply elem_of_app in Hx as [Hx|Hx]; [apply (Hdis en); set_solver|].
      apply NoDup_cons in Hq as [? _]. by apply list_elem_of_singleton in Hx as ->. }
  rewrite Eq Et. rewrite -app_assoc /=. apply links_app. rewrite Et in HB''. split; [done|].
  split_and!; done.
Qed.

(** Nodes outside the ring and the node involved keep their contents. *)
Lemma list_add_map_other m new hd a :
  a ≠ new → a ≠ hd → nxt m hd ≠ Some a → is_Some (nxt m hd) →
  list_add_map new hd m !! a = m !! a.
Proof.
  intros ??? [x Hx]. unfold list_add_map, set_next, set_prev. rewrite Hx /=.
  rewrite !lookup_alter_ne; congruence.
Qed.

Lemma list_del_map_other m e a :
  nxt m e ≠ Some a → prv m e ≠ Some a → is_Some (nxt m e) →
  list_del_map e m !! a = m !! a.
Proof.
  intros ?? Hs. pose proof (proj1 (nxt_prv_dom _ _) Hs) as [y Hy]. destruct Hs as [x Hx].
  unfold list_del_map, set_next, set_prev. rewrite Hx Hy /=.
  rewrite !lookup_alter_ne; congruence.
Qed.

(** *** Running the primitives on a ring *)

Lemma run_list_add_ring w h l new :
  dll (w_node w) h l → new ∉ h :: l → is_Some (nxt (w_node w) new) →
  ∃ m', run (mvrlu_list_add new h) w = Done () (w <| w_node := m' |>) ∧
    dll m' h (new :: l) ∧ (∀ a, a ∉ h :: new :: l → m' !! a = w_node w !! a).
Proof.
  intros Hd Hnew Hs. exists (list_add_map new h (w_node w)).
  pose proof (dll_next _ _ _ Hd) as Hn.
  assert (default h (head l) ∈ h :: l) as Hin by (destruct l; set_solver).
  split_and!.
  - eapply run_list_add; [done|by eapply dll_node|done].
  - by apply dll_add.
  - intros a Ha. apply list_add_map_other; [set_solver|set_solver| |rewrite Hn; eauto].
    rewrite Hn. intros [= <-]. set_solver.
Qed.

Lemma run_list_del_ring w h l1 e l2 :
  dll (w_node w) h (l1 ++ e :: l2) →
  ∃ m', run (mvrlu_list_del e) w = Done () (w <| w_node := m' |>) ∧
    dll m' h (l1 ++ l2) ∧ is_Some (m' !! e) ∧
    (∀ a, a ∉ h :: l1 ++ l2 → m' !! a = w_node w !! a).
Proof.
  intros Hd. exists (list_del_map e (w_node w)).
  pose proof (proj1 (dll_rotate _ _ _ _ _) Hd) as Hr.
  pose proof (dll_next _ _ _ Hr) as Hn. pose proof (dll_prev _ _ _ Hr) as Hp.
  assert (default e (head (l2 ++ h :: l1)) ∈ h :: l1 ++ l2) as Hen by (destruct l2; set_solver).
  assert (default e (last (l2 ++ h :: l1)) ∈ h :: l1 ++ l2) as Hep.
  { rewrite last_app_cons. destruct l1 as [|y l1'] using rev_ind; [set_solver|].
    rewrite app_comm_cons last_snoc. set_solver. }
  assert (e ∉ h :: l1 ++ l2) as He.
  { destruct Hr as [[He _]%NoDup_cons _]. set_solver. }
  assert (∀ a, a ∉ h :: l1 ++ l2 → list_del_map e (w_node w) !! a = w_node w !! a) as Hoth.
  { intros a Ha. apply list_del_map_other; rewrite ?Hn ?Hp; [..|eauto]; intros [= <-]; done. }
  split_and!; [|by apply dll_del| |done].
  - apply (run_list_del w e _ _ Hn Hp); [apply (dll_node _ _ _ _ Hd); set_solver..|].
    intros E. rewrite E in Hen. done.
  - rewrite Hoth //. destruct (dll_node _ _ _ e Hd) as [[x Hx] _]; [set_solver|].
    unfold nxt in Hx. destruct (w_node w !! e); [eauto|done].
Qed.

Lemma run_list_empty_ring w h l :
  dll (w_node w) h l → run (mvrlu_list_empty h) w = Done (bool_decide (l = [])) w.
Proof.
  intros Hd. unfold mvrlu_list_empty. ld (dll_next _ _ _ Hd).
  pose proof Hd as [Hnd _]. case_decide as E.
  - destruct l as [|y l']; simpl in E; [|subst; apply NoDup_cons in Hnd as [??]; set_solver].
    ld (dll_prev _ _ _ Hd). by rewrite /= !bool_decide_eq_true_2.
  - destruct l; [done|]. by rewrite bool_decide_eq_false_2.
Qed.

(** [mvrlu_list_rotate_left] moves the first entry of a list to its
    end, whatever the length of the list, and writes no node outside it. *)
Theorem list_rotate_left_ring w h l :
  dll (w_node w) h l →
  ∃ m', run (mvrlu_list_rotate_left h) w = Done () (w <| w_node := m' |>) ∧
    dll m' h (match l with [] => [] | x :: t => t ++ [x] end) ∧
    (∀ a, a ∉ h :: l → m' !! a = w_node w !! a).
Proof.
  intros Hd. unfold mvrlu_list_rotate_left.
  erewrite run_bind_done by (apply run_list_empty_ring; exact Hd).
  destruct l as [|x t].
  { exists (w_node w). split_and!; auto. by destruct w. }
  rewrite bool_decide_eq_false_2 // /when /=. ld (dll_next _ _ _ Hd).
  destruct (run_list_del_ring w h [] x t) as (m1 & Hr1 & Hd1 & Hx1 & Ho1); [done|].
  erewrite run_bind_done by exact Hr1. simpl in Hd1, Ho1.
  assert (x ∉ h :: t) as Hxt.
  { destruct Hd as [Hnd _]. apply NoDup_cons in Hnd as [? [??]%NoDup_cons]. set_solver. }
  assert (is_Some (nxt m1 x)) as Hsx by (unfold nxt; by apply fmap_is_Some).
  ld (dll_prev _ _ _ Hd1 : prv (w_node (w <| w_node := m1 |>)) h = Some _).
  destruct t as [|p t' _] using rev_ind.
  - destruct (run_list_add_ring (w <| w_node := m1 |>) h [] x) as (m2 & Hr2 & Hd2 & Ho2); auto.
    exists m2. split_and!; [exact Hr2|done|]. intros a Ha. rewrite Ho2; [set_solver|].
    simpl. apply Ho1. set_solver.
  - rewrite last_snoc /=. apply dll_rotate in Hd1 as Hd1'. simpl in Hd1'.
    destruct (run_list_add_ring (w <| w_node := m1 |>) p (h :: t') x) as (m2 & Hr2 & Hd2 & Ho2);
      [done|set_solver|done|].
    exists m2. split_and!; [exact Hr2| |].
    + rewrite -app_assoc /=. apply (dll_rotate m2 p [x] h t'). done.
    + intros a Ha. rewrite Ho2; [set_solver|]. simpl. apply Ho1. set_solver.
Qed.

(** *** Thread lists *)

(** The list [tl] is unlocked and holds the threads [ts]. *)
Definition tl_inv (w : world) (tl : Z) (ts : list Z) : Prop :=
  ∃ t, w_tl w !! tl = Some t ∧ tl_lock t = false ∧
       num t = wrap32 (Z.of_nat (length ts)) ∧
       dll (w_node w) (tl_list tl) (list_of <$> ts).

Lemma list_of_inj a b : list_of a = list_of b → a = b.
Proof. unfold list_of. lia. Qed.

Lemma list_to_thread_of a : list_to_thread (list_of a) = a.
Proof. unfold list_to_thread, list_of. lia. Qed.

Lemma elem_of_list_of a (ts : list Z) : list_of a ∈ list_of <$> ts ↔ a ∈ ts.
Proof.
  rewrite list_elem_of_fmap. split; [|by eauto]. intros (b & E & H).
  by apply list_of_inj in E as ->.
Qed.

Lemma run_lock_free w tl t :
  w_tl w !! tl = Some t → tl_lock t = false →
  run (thread_list_lock tl) w = Done () (lset (tl_loc tl_lock tl) true w).
Proof. intros H1 H2. unfold thread_list_lock, port_spin_lock. by rewrite run_act H1 H2. Qed.

Lemma run_lock_force_free w tl t :
  w_tl w !! tl = Some t → tl_lock t = false →
  run (thread_list_lock_force tl) w = Done () (lset (tl_loc tl_lock tl) true w).
Proof.
  intros H1 H2. unfold thread_list_lock_force, port_spin_trylock.
  by rewrite run_bind run_act H1 H2.
Qed.

(** Releasing the lock clears the waiter flag. *)
Definition tl_released (tl : Z) (w : world) : world :=
  w <| w_tl ::= alter (λ t, t <| thread_wait := 0 |> <| tl_lock := false |>) tl |>.

Lemma run_unlock w tl t :
  w_tl w !! tl = Some t → run (thread_list_unlock tl) w = Done () (tl_released tl w).
Proof.
  intros H. unfold thread_list_unlock.
  assert (lget (tl_loc thread_wait tl) w = Some (thread_wait t)) as Hg.
  { unfold lget. simpl. by rewrite H. }
  ld Hg. unfold truth. destruct (thread_wait t =? 0) eqn:E; simpl.
  - rewrite /when run_bind run_ret /=. unfold port_spin_unlock.
    rewrite (run_store _ _ (tl_lock t)); [unfold lget; simpl; by rewrite H|].
    f_equal. unfold tl_released. world_eq.
    apply map_eq. intros i. destruct (decide (i = tl)) as [->|];
      [rewrite !lookup_alter_eq H /=|by rewrite !lookup_alter_ne].
    do 2 f_equal. lia.
  - rewrite /when. unfold smp_atomic_store. st Hg. unfold port_spin_unlock.
    rewrite (run_store _ _ (tl_lock t)); [unfold lget, lset; simpl; by rewrite lookup_alter_eq H|].
    f_equal. unfold tl_released. world_eq.
    apply map_eq. intros i. destruct (decide (i = tl)) as [->|];
      [by rewrite !lookup_alter_eq H /=|by rewrite !lookup_alter_ne].
Qed.

Lemma num_succ n : wrap32 (wrap32 n + 1) = wrap32 (n + 1).
Proof. unfold wrap32. by rewrite Zplus_mod_idemp_l. Qed.
Lemma num_pred n : wrap32 (wrap32 n - 1) = wrap32 (n - 1).
Proof. unfold wrap32. by rewrite Zminus_mod_idemp_l. Qed.

(** Registering a thread: it gets the next identifier and becomes the first of
    the list; the lock is free again. *)
Lemma run_thread_list_add w tl ts self t th nd :
  w_tl w !! tl = Some t → tl_inv w tl ts →
  self ∉ ts → list_of self ≠ tl_list tl →
  w_thr w !! self = Some th → w_node w !! list_of self = Some nd →
  ∃ mt mn,
    let w' := w <| w_thr ::= alter (λ h, h <| tid := cur_tid t |>) self |>
                <| w_tl := mt |> <| w_node := mn |> in
    run (thread_list_add tl self) w = Done () w' ∧
    tl_inv w' tl (self :: ts) ∧
    (cur_tid <$> mt !! tl) = Some (wrap32 (cur_tid t + 1)) ∧
    (∀ tl', tl' ≠ tl → mt !! tl' = w_tl w !! tl') ∧
    (∀ a, a ∉ tl_list tl :: list_of self :: (list_of <$> ts) → mn !! a = w_node w !! a).
Proof.
  intros Ht (t' & Ht' & Hl & Hnum & Hd) Hself Hne Hth Hnd. rewrite Ht in Ht'. injection Ht' as <-.
  unfold thread_list_add. erewrite run_bind_done by (by eapply run_lock_force_free).
  set (w1 := lset _ _ w).
  assert (w_tl w1 !! tl = Some (t <| tl_lock := true |>)) as H1.
  { unfold w1, lset. simpl. by rewrite lookup_alter_eq Ht. }
  assert (lget (tl_loc cur_tid tl) w1 = Some (cur_tid t)) as Hc by (unfold lget; simpl; by rewrite H1).
  ld Hc. st Hc. set (w2 := lset _ _ w1).
  assert (w_tl w2 !! tl = Some (t <| tl_lock := true |> <| cur_tid := wrap32 (cur_tid t + 1) |>)) as H2.
  { unfold w2, lset. simpl. by rewrite lookup_alter_eq H1. }
  assert (lget (thr_loc tid self) w2 = Some (tid th)) as Htid by (unfold lget; simpl; by rewrite Hth).
  st Htid. set (w3 := lset _ _ w2).
  assert (w_tl w3 !! tl = _) as H3 by exact H2.
  assert (lget (tl_loc num tl) w3 = Some (num t)) as Hn by (unfold lget; simpl; by rewrite H3).
  ld Hn. st Hn. set (w4 := lset _ _ w3).
  assert (w_tl w4 !! tl = Some (t <| tl_lock := true |> <| cur_tid := wrap32 (cur_tid t + 1) |>
                                   <| num := wrap32 (num t + 1) |>)) as H4.
  { unfold w4, lset. simpl. by rewrite lookup_alter_eq H3. }
  destruct (run_list_add_ring w4 (tl_list tl) (list_of <$> ts) (list_of self))
    as (mn & Hr & Hd' & Ho); [done| | |].
  { rewrite elem_of_cons elem_of_list_of. naive_solver. }
  { unfold nxt. by rewrite -[w_node w4]/(w_node w) Hnd. }
  erewrite run_bind_done by exact Hr. erewrite run_unlock by exact H4.
  exists (alter (λ t, t <| thread_wait := 0 |> <| tl_lock := false |>) tl (w_tl w4)), mn.
  pose proof (lookup_alter_eq (λ t, t <| thread_wait := 0 |> <| tl_lock := false |>) (w_tl w4) tl) as Hlk.
  rewrite -> H4 in Hlk. split_and!; [done| | | |].
  - eexists. split; [exact Hlk|]. split_and!; [done| |done].
    simpl. rewrite Hnum num_succ. f_equal. lia.
  - by rewrite Hlk.
  - intros tl' Hne'. unfold w4, w3, w2, w1, lset. simpl. by rewrite !lookup_alter_ne.
  - intros a Ha. by apply Ho.
Qed.

(** Removing a registered thread. *)
Lemma run_thread_list_del_unsafe w tl t ts1 self ts2 :
  w_tl w !! tl = Some t →
  num t = wrap32 (Z.of_nat (length (ts1 ++ self :: ts2))) →
  dll (w_node w) (tl_list tl) (list_of <$> ts1 ++ self :: ts2) →
  ∃ mn,
    let w' := w <| w_tl ::= alter (λ h, h <| num := wrap32 (num t - 1) |>) tl |>
                <| w_node := mn |> in
    run (thread_list_del_unsafe tl self) w = Done () w' ∧
    wrap32 (num t - 1) = wrap32 (Z.of_nat (length (ts1 ++ ts2))) ∧
    dll mn (tl_list tl) (list_of <$> ts1 ++ ts2) ∧
    mn !! list_of self = Some (ListNode NULL NULL) ∧
    (∀ a, a ∉ tl_list tl :: (list_of <$> ts1 ++ self :: ts2) → mn !! a = w_node w !! a).
Proof.
  intros Ht Hnum Hd. unfold thread_list_del_unsafe.
  assert (lget (tl_loc num tl) w = Some (num t)) as Hn by (unfold lget; simpl; by rewrite Ht).
  ld Hn. st Hn. set (w1 := lset _ _ w). rewrite fmap_app fmap_cons in Hd.
  destruct (run_list_del_ring w1 (tl_list tl) (list_of <$> ts1) (list_of self) (list_of <$> ts2))
    as (m1 & Hr & Hd1 & [nd Hs] & Ho); [done|].
  erewrite run_bind_done by exact Hr. set (w2 := w1 <| w_node := m1 |>).
  assert (lget (node_loc next (list_of self)) w2 = Some (next nd)) as Hg.
  { unfold lget. simpl. by rewrite Hs. }
  st Hg. set (w3 := lset _ _ w2).
  rewrite (run_store _ w3 (prev nd)).
  { unfold w3, lget, lset. simpl. by rewrite lookup_alter_eq Hs. }
  assert (list_of self ∉ tl_list tl :: (list_of <$> ts1) ++ (list_of <$> ts2)) as Hni.
  { apply dll_rotate in Hd as [[He _]%NoDup_cons _]. set_solver. }
  exists (set_prev (list_of self) NULL (set_next (list_of self) NULL m1)). split_and!.
  - done.
  - rewrite Hnum num_pred !length_app /=. f_equal. lia.
  - rewrite fmap_app. eapply dll_frame; [|exact Hd1]. intros a Ha.
    rewrite nxt_set_prev prv_set_prev nxt_set_next prv_set_next.
    assert (a ≠ list_of self) by (intros ->; by apply Hni). by rewrite !decide_False ?prv_set_next.
  - unfold set_prev, set_next. by rewrite !lookup_alter_eq Hs.
  - intros a Ha. unfold set_prev, set_next. rewrite fmap_app fmap_cons in Ha.
    rewrite !lookup_alter_ne; [set_solver..|]. apply Ho. set_solver.
Qed.

Lemma run_thread_list_del w tl ts1 self ts2 :
  tl_inv w tl (ts1 ++ self :: ts2) →
  ∃ mt mn,
    let w' := w <| w_tl := mt |> <| w_node := mn |> in
    run (thread_list_del tl self) w = Done () w' ∧ tl_inv w' tl (ts1 ++ ts2) ∧
    mn !! list_of self = Some (ListNode NULL NULL) ∧
    (∀ tl', tl' ≠ tl → mt !! tl' = w_tl w !! tl') ∧
    (∀ a, a ∉ tl_list tl :: (list_of <$> ts1 ++ self :: ts2) → mn !! a = w_node w !! a).
Proof.
  intros (t & Ht & Hl & Hnum & Hd). unfold thread_list_del.
  erewrite run_bind_done by (by eapply run_lock_force_free). set (w1 := lset _ _ w).
  assert (w_tl w1 !! tl = Some (t <| tl_lock := true |>)) as H1.
  { unfold w1, lset. simpl. by rewrite lookup_alter_eq Ht. }
  destruct (run_thread_list_del_unsafe w1 tl _ ts1 self ts2 H1) as (mn & Hr & Hn & Hd' & Hs & Ho);
    [done..|].
  erewrite run_bind_done by exact Hr. set (w2 := (w1 <| w_tl ::= _ |>) <| w_node := mn |>).
  assert (w_tl w2 !! tl = Some (t <| tl_lock := true |> <| num := wrap32 (num t - 1) |>)) as H2.
  { unfold w2. simpl. by rewrite lookup_alter_eq H1. }
  erewrite run_unlock by exact H2.
  exists (alter (λ t, t <| thread_wait := 0 |> <| tl_lock := false |>) tl (w_tl w2)), mn.
  pose proof (lookup_alter_eq (λ t, t <| thread_wait := 0 |> <| tl_lock := false |>) (w_tl w2) tl) as Hlk.
  rewrite -> H2 in Hlk. split_and!; [done| |done| |done].
  - eexists. split; [exact Hlk|]. split_and!; [done|exact Hn|done].
  - intros tl' Hne. unfold w2, w1, lset. simpl. by rewrite !lookup_alter_ne.
Qed.

(** ** Walking a list *)

(** The walk as a fold over the threads. *)
Fixpoint for_each_until {A} (ts : list Z) (body : Z → kprog (option A)) : kprog (option A) :=
  match ts with
  | [] => mret None
  | t :: ts' =>
      r ← body t;
      match r with Some a => mret (Some a) | None => for_each_until ts' body end
  end.

(** When the body leaves the links alone, the walk visits the threads in list
    order. *)
Lemma run_for_each_safe {A} fuel tl ts (body : Z → kprog (option A)) w :
  dll (w_node w) (tl_list tl) (list_of <$> ts) →
  (length ts < fuel)%nat →
  (∀ t w1 r w2, t ∈ ts → run (body t) w1 = Done r w2 → w_node w2 = w_node w1) →
  run (thread_list_for_each_safe fuel tl body) w = run (for_each_until ts body) w.
Proof.
  intros Hd Hf Hb. unfold thread_list_for_each_safe. set (h := tl_list tl) in *.
  assert (∀ ts2 fuel ts1 w1, ts = ts1 ++ ts2 → w_node w1 = w_node w → (length ts2 < fuel)%nat →
    let path := (list_of <$> ts2) ++ [h] in
    run (loop fuel (λ '(pos, n),
      if decide (pos = h) then mret (inr None)
      else
        r ← body (list_to_thread pos);
        match r with
        | Some a => mret (inr (Some a))
        | None => n' ← load (node_loc next n); mret (inl (n, n'))
        end) (default h (head path), default h (nxt (w_node w) (default h (head path))))) w1
    = run (for_each_until ts2 body) w1) as Hgen.
  { clear fuel Hf. induction ts2 as [|t ts2 IH]; intros fuel ts1 w1 Ets Hw1 Hf path;
      (destruct fuel as [|fuel]; [simpl in Hf; lia|]).
    - apply run_loop_exit. simpl. by rewrite decide_True.
    - rewrite run_loop_S. subst path. rewrite /= list_to_thread_of.
      assert (h ∉ list_of <$> ts) as Hh by (destruct Hd as [[? _]%NoDup_cons _]; done).
      rewrite decide_False. { intros E. apply Hh. rewrite -E Ets. set_solver. }
      rewrite !run_bind. destruct (run (body t) w1) as [r w2| | |] eqn:Er; try done. simpl.
      destruct r as [a|]; [done|].
      assert (w_node w2 = w_node w) as Hw2 by (rewrite -Hw1; eapply (Hb t); [set_solver|exact Er]).
      (* the successor's own successor *)
      set (p2 := (list_of <$> ts2) ++ [h]).
      assert (nxt (w_node w) (list_of t) = Some (default h (head p2))) as Hn.
      { subst ts. rewrite fmap_app fmap_cons in Hd. apply dll_rotate in Hd.
        rewrite (dll_next _ _ _ Hd). f_equal. subst p2. by destruct (list_of <$> ts2). }
      rewrite Hn. simpl.
      assert (is_Some (nxt (w_node w) (default h (head p2)))) as [n' Hn'].
      { eapply dll_node; [exact Hd|]. subst p2 ts. destruct ts2; set_solver. }
      erewrite run_bind_done.
      2:{ apply (run_load _ _ n'). change (nxt (w_node w2) (default h (head p2)) = Some n'). by rewrite Hw2. }
      rewrite run_ret /=. specialize (IH fuel (ts1 ++ [t]) w2). simpl in IH.
      rewrite -IH; [by rewrite -app_assoc|done|simpl in Hf; lia|].
      fold p2. by rewrite Hn'. }
  pose proof (dll_next _ _ _ Hd) as Hn. ld Hn.
  assert (default h (head (list_of <$> ts)) = default h (head ((list_of <$> ts) ++ [h]))) as E.
  { by destruct ts. }
  rewrite E. assert (is_Some (nxt (w_node w) (default h (head ((list_of <$> ts) ++ [h]))))) as [n' Hn'].
  { eapply dll_node; [exact Hd|]. destruct ts; set_solver. }
  ld Hn'. specialize (Hgen ts fuel [] w eq_refl eq_refl Hf). simpl in Hgen.
  rewrite Hn' in Hgen. exact Hgen.
Qed.
