(* ===== verification/Object.v ===== *)
(** * Objects and their copies ([mvrlu.c], "Object access functions" and
    "Object copy operations")

    A pointer to an object is the address behind its header.  An actual object
    is outside the log region; a copy is inside it and its header leads back to
    the actual object.  The lock of an object is the pointer to the copy the
    lock holder is writing. *)

From S2P Require Import Prelude World OrdoClock Port.

(** ** Object access *)

Definition obj_to_ahs (obj : Z) : Z := obj - sizeof_act_hdr_struct.
Definition vobj_to_ahs (vobj : Z) : Z := obj_to_ahs vobj.
Definition obj_to_chs (obj : Z) : Z := obj - sizeof_cpy_hdr_struct.
Definition vobj_to_chs (vobj : Z) : Z := obj_to_chs vobj.
Definition obj_to_obj_hdr (obj : Z) : Z := obj - sizeof_obj_hdr.

(** [ahs->obj_hdr.obj] and [chs->obj_hdr.obj]. *)
Definition ahs_obj (ahs : Z) : Z := ahs + sizeof_act_hdr_struct.
Definition chs_obj (chs : Z) : Z := chs + sizeof_cpy_hdr_struct.

Definition is_obj_actual (obj_hdr : Z) : kprog bool :=
  b ← port_addr_in_log_region obj_hdr; mret (negb b).

Definition get_act_obj (obj : Z) : kprog Z :=
  let obj_hdr := obj_to_obj_hdr obj in
  a ← is_obj_actual obj_hdr;
  if (a : bool) then mret obj else load (chs_loc p_act (obj_to_chs obj)).

(** [MVRLU_CACHE_LINE_MASK], an [int]. *)
Definition MVRLU_CACHE_LINE_MASK : Z := Z.lnot (MVRLU_CACHE_LINE_SIZE - 1).

Definition align_uint_to_cacheline (unum : Z) : Z :=
  Z.land (wrap32 (unum + Z.lnot MVRLU_CACHE_LINE_MASK)) MVRLU_CACHE_LINE_MASK.
Definition align_ptr_to_cacheline (p : Z) : Z :=
  Z.land (wrap64 (p + Z.lnot MVRLU_CACHE_LINE_MASK)) MVRLU_CACHE_LINE_MASK.

(** ** Object copies *)

Definition get_log_size (chs : Z) : kprog Z :=
  os ← load (chs_hdr obj_size chs);
  ps ← load (chs_hdr padding_size chs);
  mret (wrap32 (os + ps)).

Definition get_wrt_clk (chs : Z) : kprog Z :=
  c ← load (chs_loc __wrt_clk chs);
  if decide (c = MAX_VERSION) then
    p ← load (chs_loc p_wrt_clk chs); load (ws_loc wrt_clk p)
  else mret c.

Definition try_lock_obj (ahs p_old_copy p_new_copy : Z) : kprog bool :=
  l ← load (ahs_loc p_lock ahs);
  if decide (l ≠ NULL) then mret false else
  c ← load (ahs_hdr p_copy ahs);
  if decide (c ≠ p_old_copy) then mret false else
  ret ← smp_cas (ahs_loc p_lock ahs) NULL p_new_copy;
  if negb ret then mret false else
  c ← load (ahs_hdr p_copy ahs);
  if decide (c ≠ p_old_copy) then
    store (ahs_loc p_lock ahs) NULL;; mret false
  else mret true.

Definition try_detach_obj (chs : Z) : kprog unit :=
  p_act ← load (chs_loc p_act chs);
  let ahs := obj_to_ahs p_act in
  let p_copy_ := chs_obj chs in
  c ← load (ahs_hdr p_copy ahs);
  if decide (c ≠ p_copy_) then mret () else
  smp_cas (ahs_hdr p_copy ahs) p_copy_ NULL;;
  mret ().

Definition try_writeback_obj (chs : Z) : kprog bool :=
  p_act ← load (chs_loc p_act chs);
  let ahs := obj_to_ahs p_act in
  let p_copy_ := chs_obj chs in
  c ← load (ahs_hdr p_copy ahs);
  if decide (c ≠ p_copy_) then mret false else
  sz ← load (chs_hdr obj_size chs);
  memcpy p_act p_copy_ sz;;
  mret true.

Definition free_obj (chs : Z) : kprog unit :=
  p_act ← load (chs_loc p_act chs);
  port_free (vobj_to_ahs p_act).

(** ** Lemmas *)

Lemma cache_mask : MVRLU_CACHE_LINE_MASK = Z.lnot (Z.ones 6).
Proof. reflexivity. Qed.

Lemma align_uint_val x :
  0 ≤ x < 4294967296 - 63 → align_uint_to_cacheline x = (x + 63) - (x + 63) mod 64.
Proof.
  intros Hx. unfold align_uint_to_cacheline.
  change (Z.lnot MVRLU_CACHE_LINE_MASK) with 63.
  rewrite cache_mask land_lnot_ones // wrap32_small //. lia.
Qed.

(** Rounding up to a cache line. *)
Lemma align_uint_spec x :
  0 ≤ x < 4294967296 - 63 →
  let a := align_uint_to_cacheline x in a mod 64 = 0 ∧ x ≤ a < x + 64.
Proof.
  intros Hx. cbv zeta. rewrite align_uint_val //.
  pose proof (Z.mod_pos_bound (x + 63) 64). split; [|lia].
  rewrite -Zminus_mod_idemp_l Z.sub_diag //.
Qed.

Lemma align_ptr_id p :
  0 ≤ p ≤ ULONG_MAX - 63 → align_ptr_to_cacheline p = p ↔ p mod 64 = 0.
Proof.
  intros Hp. unfold align_ptr_to_cacheline.
  change (Z.lnot MVRLU_CACHE_LINE_MASK) with 63.
  rewrite cache_mask land_lnot_ones // wrap64_small; [lia|].
  change (2 ^ 6) with 64. pose proof (Z.div_mod p 64). pose proof (Z.div_mod (p + 63) 64).
  pose proof (Z.mod_pos_bound p 64). pose proof (Z.mod_pos_bound (p + 63) 64). lia.
Qed.

Lemma run_get_act_obj_actual w obj :
  addr_in_log_region w (obj_to_obj_hdr obj) = false → run (get_act_obj obj) w = Done obj w.
Proof.
  intros H. unfold get_act_obj, is_obj_actual, port_addr_in_log_region.
  by rewrite !run_bind run_act /= H.
Qed.

Lemma run_get_act_obj_copy w obj c :
  addr_in_log_region w (obj_to_obj_hdr obj) = true →
  w_chs w !! obj_to_chs obj = Some c → run (get_act_obj obj) w = Done (p_act c) w.
Proof.
  intros H Hc. unfold get_act_obj, is_obj_actual, port_addr_in_log_region.
  rewrite !run_bind run_act /= H /=. apply run_load. unfold lget. simpl. by rewrite Hc.
Qed.

Lemma run_get_wrt_clk w chs c :
  w_chs w !! chs = Some c →
  (__wrt_clk c = MAX_VERSION → is_Some (w_ws w !! p_wrt_clk c)) →
  run (get_wrt_clk chs) w =
  Done (if decide (__wrt_clk c = MAX_VERSION)
        then default 0 (wrt_clk <$> w_ws w !! p_wrt_clk c) else __wrt_clk c) w.
Proof.
  intros Hc Hws. unfold get_wrt_clk.
  assert (lget (chs_loc __wrt_clk chs) w = Some (__wrt_clk c)) as H1 by (unfold lget; simpl; by rewrite Hc).
  ld H1. case_decide as E; [|done].
  assert (lget (chs_loc p_wrt_clk chs) w = Some (p_wrt_clk c)) as H2 by (unfold lget; simpl; by rewrite Hc).
  ld H2. destruct (Hws E) as [s Hs]. rewrite Hs. apply run_load. unfold lget. simpl. by rewrite Hs.
Qed.

Lemma run_get_log_size w chs c :
  w_chs w !! chs = Some c →
  run (get_log_size chs) w =
  Done (wrap32 (obj_size (c_obj_hdr c) + padding_size (c_obj_hdr c))) w.
Proof.
  intros Hc. unfold get_log_size.
  assert (lget (chs_hdr obj_size chs) w = Some (obj_size (c_obj_hdr c))) as H1 by (unfold lget; simpl; by rewrite Hc).
  assert (lget (chs_hdr padding_size chs) w = Some (padding_size (c_obj_hdr c))) as H2 by (unfold lget; simpl; by rewrite Hc).
  ld H1. ld H2. done.
Qed.
