(* ===== verification/Cells.v ===== *)
(** * Symbolic execution

    The state after a store is written with the cell it fills, so that a proof
    can run a program access by access: [set_chs a c w] is [w] with the log
    entry header [c] at address [a], and so on. *)

From S2P Require Import Prelude World.

Definition set_ahs (a : Z) (c : mvrlu_act_hdr_struct) (w : world) : world :=
  w <| w_ahs ::= <[a := c]> |>.
Definition set_chs (a : Z) (c : mvrlu_cpy_hdr_struct) (w : world) : world :=
  w <| w_chs ::= <[a := c]> |>.
Definition set_ws (a : Z) (c : mvrlu_wrt_set) (w : world) : world :=
  w <| w_ws ::= <[a := c]> |>.
Definition set_thr (a : Z) (c : mvrlu_thread_struct) (w : world) : world :=
  w <| w_thr ::= <[a := c]> |>.
Definition set_qp (q : mvrlu_qp_thread) (w : world) : world := w <| w_qp := q |>.

Lemma alter_Some {A} (f : A → A) (m : gmap Z A) i x :
  m !! i = Some x → alter f i m = <[i := f x]> m.
Proof.
  intros H. apply map_eq. intros j. destruct (decide (i = j)) as [->|].
  - by rewrite lookup_alter_eq lookup_insert_eq H.
  - by rewrite lookup_alter_ne ?lookup_insert_ne.
Qed.

Lemma log_to_thread_of self : log_to_thread (log_of self) = self.
Proof. unfold log_to_thread, log_of. lia. Qed.

(** ** Reading a member *)

Section reads.
Context {V : Type}.

Lemma ahs_get (get : mvrlu_act_hdr_struct → V) `{!Setter get} a w c :
  w_ahs w !! a = Some c → lget (ahs_loc get a) w = Some (get c).
Proof. intros H. unfold lget. simpl. by rewrite H. Qed.
Lemma ahs_hdr_get (get : mvrlu_obj_hdr → V) `{!Setter get} a w c :
  w_ahs w !! a = Some c → lget (ahs_hdr get a) w = Some (get (a_obj_hdr c)).
Proof. intros H. unfold lget. simpl. by rewrite H. Qed.
Lemma chs_get (get : mvrlu_cpy_hdr_struct → V) `{!Setter get} a w c :
  w_chs w !! a = Some c → lget (chs_loc get a) w = Some (get c).
Proof. intros H. unfold lget. simpl. by rewrite H. Qed.
Lemma chs_hdr_get (get : mvrlu_obj_hdr → V) `{!Setter get} a w c :
  w_chs w !! a = Some c → lget (chs_hdr get a) w = Some (get (c_obj_hdr c)).
Proof. intros H. unfold lget. simpl. by rewrite H. Qed.
Lemma ws_get (get : mvrlu_wrt_set → V) `{!Setter get} a w c :
  w_ws w !! a = Some c → lget (ws_loc get a) w = Some (get c).
Proof. intros H. unfold lget. simpl. by rewrite H. Qed.
Lemma thr_get (get : mvrlu_thread_struct → V) `{!Setter get} a w c :
  w_thr w !! a = Some c → lget (thr_loc get a) w = Some (get c).
Proof. intros H. unfold lget. simpl. by rewrite H. Qed.
Lemma log_get (get : mvrlu_log → V) `{!Setter get} a w c :
  w_thr w !! a = Some c → lget (log_loc get (log_of a)) w = Some (get (log c)).
Proof. intros H. unfold lget. simpl. rewrite log_to_thread_of. by rewrite H. Qed.
Lemma fp_get (get : mvrlu_free_ptrs → V) `{!Setter get} a w c :
  w_thr w !! a = Some c → lget (fp_loc get a) w = Some (get (free_ptrs c)).
Proof. intros H. unfold lget. simpl. by rewrite H. Qed.
Lemma qpi_get (get : mvrlu_qp_info → V) `{!Setter get} a w c :
  w_thr w !! a = Some c → lget (qpi_loc get a) w = Some (get (qp_info c)).
Proof. intros H. unfold lget. simpl. by rewrite H. Qed.

(** ** Writing a member *)

Lemma ahs_put (get : mvrlu_act_hdr_struct → V) `{!Setter get} a w c v :
  w_ahs w !! a = Some c → lset (ahs_loc get a) v w = set_ahs a (c <| get := v |>) w.
Proof. intros H. unfold set_ahs. world_eq. by apply alter_Some. Qed.
Lemma ahs_hdr_put (get : mvrlu_obj_hdr → V) `{!Setter get} a w c v :
  w_ahs w !! a = Some c →
  lset (ahs_hdr get a) v w = set_ahs a (c <| a_obj_hdr ::= λ o, o <| get := v |> |>) w.
Proof. intros H. unfold set_ahs. world_eq. by erewrite alter_Some. Qed.
Lemma chs_put (get : mvrlu_cpy_hdr_struct → V) `{!Setter get} a w c v :
  w_chs w !! a = Some c → lset (chs_loc get a) v w = set_chs a (c <| get := v |>) w.
Proof. intros H. unfold set_chs. world_eq. by apply alter_Some. Qed.
Lemma chs_hdr_put (get : mvrlu_obj_hdr → V) `{!Setter get} a w c v :
  w_chs w !! a = Some c →
  lset (chs_hdr get a) v w = set_chs a (c <| c_obj_hdr ::= λ o, o <| get := v |> |>) w.
Proof. intros H. unfold set_chs. world_eq. by erewrite alter_Some. Qed.
Lemma ws_put (get : mvrlu_wrt_set → V) `{!Setter get} a w c v :
  w_ws w !! a = Some c → lset (ws_loc get a) v w = set_ws a (c <| get := v |>) w.
Proof. intros H. unfold set_ws. world_eq. by apply alter_Some. Qed.
Lemma thr_put (get : mvrlu_thread_struct → V) `{!Setter get} a w c v :
  w_thr w !! a = Some c → lset (thr_loc get a) v w = set_thr a (c <| get := v |>) w.
Proof. intros H. unfold set_thr. world_eq. by apply alter_Some. Qed.
Lemma log_put (get : mvrlu_log → V) `{!Setter get} a w c v :
  w_thr w !! a = Some c →
  lset (log_loc get (log_of a)) v w = set_thr a (c <| log ::= λ g, g <| get := v |> |>) w.
Proof. intros H. unfold set_thr. world_eq. rewrite log_to_thread_of. by erewrite alter_Some. Qed.
Lemma fp_put (get : mvrlu_free_ptrs → V) `{!Setter get} a w c v :
  w_thr w !! a = Some c →
  lset (fp_loc get a) v w = set_thr a (c <| free_ptrs ::= λ g, g <| get := v |> |>) w.
Proof. intros H. unfold set_thr. world_eq. by erewrite alter_Some. Qed.
Lemma qpi_put (get : mvrlu_qp_info → V) `{!Setter get} a w c v :
  w_thr w !! a = Some c →
  lset (qpi_loc get a) v w = set_thr a (c <| qp_info ::= λ g, g <| get := v |> |>) w.
Proof. intros H. unfold set_thr. world_eq. by erewrite alter_Some. Qed.
End reads.

(** ** What a cell update leaves alone *)

Lemma set_chs_chs a c c' w : set_chs a c (set_chs a c' w) = set_chs a c w.
Proof. unfold set_chs. world_eq. apply insert_insert_eq. Qed.
Lemma set_thr_thr a c c' w : set_thr a c (set_thr a c' w) = set_thr a c w.
Proof. unfold set_thr. world_eq. apply insert_insert_eq. Qed.
Lemma set_ws_ws a c c' w : set_ws a c (set_ws a c' w) = set_ws a c w.
Proof. unfold set_ws. world_eq. apply insert_insert_eq. Qed.
Lemma set_ahs_ahs a c c' w : set_ahs a c (set_ahs a c' w) = set_ahs a c w.
Proof. unfold set_ahs. world_eq. apply insert_insert_eq. Qed.

(** Writing back what is there changes nothing. *)
Lemma set_chs_id a c w : w_chs w !! a = Some c → set_chs a c w = w.
Proof. intros H. unfold set_chs. destruct w. world_eq. by apply insert_id. Qed.
Lemma set_thr_id a c w : w_thr w !! a = Some c → set_thr a c w = w.
Proof. intros H. unfold set_thr. destruct w. world_eq. by apply insert_id. Qed.
Lemma set_ws_id a c w : w_ws w !! a = Some c → set_ws a c w = w.
Proof. intros H. unfold set_ws. destruct w. world_eq. by apply insert_id. Qed.
Lemma set_ahs_id a c w : w_ahs w !! a = Some c → set_ahs a c w = w.
Proof. intros H. unfold set_ahs. destruct w. world_eq. by apply insert_id. Qed.

#[export] Hint Rewrite log_to_thread_of set_chs_chs set_thr_thr set_ws_ws set_ahs_ahs : khronos.

(** ** Tactics *)

(** Look up a cell in a state built from cell updates. *)
Ltac cell :=
  cbn [w_ahs w_chs w_ws w_data w_thr w_node w_tl w_qp set_ahs set_chs set_ws set_thr set_qp
       field_map];
  rewrite ?lookup_insert_eq;
  repeat (rewrite lookup_insert_ne; [|solve [auto | congruence | lia]]);
  rewrite ?lookup_insert_eq;
  first [eassumption | reflexivity | done].

Ltac cell_get :=
  first [apply ahs_get | apply ahs_hdr_get | apply chs_get | apply chs_hdr_get
        | apply ws_get | apply thr_get | apply log_get | apply fp_get | apply qpi_get
        | reflexivity]; cell.

Ltac cell_put :=
  first [apply ahs_put | apply ahs_hdr_put | apply chs_put | apply chs_hdr_put
        | apply ws_put | apply thr_put | apply log_put | apply fp_put | apply qpi_put]; cell.

(** Run one load or store of the program in the goal. *)
Lemma run_store_put {V} (l : loc V) v v' w w' :
  lget l w = Some v → lset l v' w = w' → run (store l v') w = Done () w'.
Proof. intros H <-. by eapply run_store. Qed.

Ltac xload := erewrite run_bind_done; [|apply run_load; cell_get]; cbv beta.
Ltac xstore :=
  erewrite run_bind_done; [|eapply run_store_put; [cell_get|cell_put]]; cbv beta;
  rewrite ?set_chs_chs ?set_thr_thr ?set_ws_ws ?set_ahs_ahs.
Ltac xstore_last :=
  erewrite run_store_put; [|cell_get|cell_put];
  rewrite ?set_chs_chs ?set_thr_thr ?set_ws_ws ?set_ahs_ahs.
