(* ===== verification/VersionLog.v ===== *)
(** * The per-thread version log ([mvrlu.c], "Log operations")

    Each thread owns a circular buffer of [MVRLU_LOG_SIZE] bytes, addressed by
    two counters that only grow, [head_cnt] and [tail_cnt].  It holds write
    sets: a header entry followed by the entries of the copies (and at most one
    bogus entry that skips the end of the buffer).  A log is named by its
    address, [&self->log]. *)

From S2P Require Import Prelude World OrdoClock Port Object.

(** ** Addressing *)

Definition MVRLU_LOG_MASK : Z := Z.lnot (MVRLU_LOG_SIZE - 1).

Definition log_used (log : Z) : kprog Z :=
  t ← load (log_loc tail_cnt log);
  h ← load (log_loc head_cnt log);
  mret (wrap64 (t - h)).

Definition log_index (cnt : Z) : Z := Z.land cnt (Z.lnot MVRLU_LOG_MASK).

Definition log_at (log cnt : Z) : kprog Z :=
  b ← load (log_loc buffer log); mret (b + log_index cnt).
Definition log_at_wss (log cnt : Z) : kprog Z := log_at log cnt.
Definition log_at_chs (log cnt : Z) : kprog Z := log_at log cnt.

(** ** Allocation *)

Definition add_extra_padding (tail log_size extra_size : Z) (bogus : bool) : Z :=
  let extra_size := wrap32 (extra_size + sizeof_cpy_hdr_struct) in
  let extra_size := align_uint_to_cacheline extra_size in
  if negb bogus &&
     (log_index (wrap64 (tail + log_size + extra_size)) <? log_index tail)
  then wrap32 (MVRLU_LOG_SIZE - log_index (wrap64 (tail + log_size)))
  else 0.

Definition zero_chs : mvrlu_cpy_hdr_struct := CpyHdr 0 0 0 0 (ObjHdr 0 0 TYPE_ACTUAL 0).

(** [memset(chs, 0, sizeof( *chs))]. *)
Definition memset_chs (chs : Z) : kprog unit :=
  act (λ w, Next () (w <| w_chs ::= <[chs := zero_chs]> |>)).

(** Returns the entry and the new value of [*bogus]. *)
Definition log_alloc (log obj_size_ : Z) (bogus : bool) : kprog (Z * bool) :=
  let log_size := wrap32 (obj_size_ + sizeof_cpy_hdr_struct) in
  let log_size := align_uint_to_cacheline log_size in
  tail ← load (log_loc tail_cnt log);
  bogus ← (if log_index (wrap64 (tail + log_size)) <? log_index tail then
             chs ← log_at log tail;
             memset_chs chs;;
             let bogus_size := wrap32 (MVRLU_LOG_SIZE - log_index tail) in
             store (chs_hdr padding_size chs) (wrap16 bogus_size);;
             store (chs_hdr type chs) TYPE_BOGUS;;
             store (log_loc tail_cnt log) (wrap64 (tail + bogus_size));;
             mret true
           else mret bogus);
  tail ← load (log_loc tail_cnt log);
  let extra_pad := add_extra_padding tail log_size sizeof_wrt_set_struct bogus in
  let log_size := wrap32 (log_size + extra_pad) in
  chs ← log_at log tail;
  memset_chs chs;;
  store (chs_loc __wrt_clk chs) MAX_VERSION;;
  store (chs_hdr obj_size chs) obj_size_;;
  store (chs_hdr padding_size chs) (wrap16 (wrap32 (log_size - obj_size_)));;
  mret (chs, bogus).

(** ** Appending *)

(** The members of a new write set; its memory is the entry's object. *)
Definition put_ws (ws : Z) (v : mvrlu_wrt_set) : kprog unit :=
  act (λ w, Next () (w <| w_ws ::= <[ws := v]> |>)).

(** "Add a write set if it is not allocated". *)
Definition log_append_ws (log : Z) : kprog bool :=
  '(chs, bogus) ← log_alloc log sizeof_wrt_set false;
  let ws := chs_obj chs in
  store (chs_loc p_wrt_clk chs) ws;;
  store (chs_hdr type chs) TYPE_WRT_SET;;
  tail ← load (log_loc tail_cnt log);
  put_ws ws (WrtSet MAX_VERSION 0 tail (log_to_thread log));;
  store (log_loc cur_wrt_set log) ws;;
  sz ← get_log_size chs;
  store (log_loc tail_cnt log) (wrap64 (tail + sz));;
  mret bogus.

(** "allocate an object". *)
Definition log_append_obj (log p_act_ obj_size_ : Z) (bogus : bool) : kprog (Z * bool) :=
  '(chs, bogus) ← log_alloc log obj_size_ bogus;
  cur ← load (log_loc cur_wrt_set log);
  store (chs_loc p_wrt_clk chs) cur;;
  store (chs_loc p_act chs) p_act_;;
  store (chs_hdr type chs) TYPE_COPY;;
  mret (chs, bogus).

Definition log_append_begin (log p_act_ obj_size_ : Z) : kprog (Z * bool) :=
  cur ← load (log_loc cur_wrt_set log);
  bogus ← (if decide (cur = NULL) then log_append_ws log else mret false);
  log_append_obj log p_act_ obj_size_ bogus.

Definition log_append_abort (log chs : Z) : kprog unit := mret ().

Definition log_append_end (log chs : Z) (bogus_allocated : bool) : kprog unit :=
  tail ← load (log_loc tail_cnt log);
  sz ← get_log_size chs;
  store (log_loc tail_cnt log) (wrap64 (tail + sz));;
  cur ← load (log_loc cur_wrt_set log);
  n ← load (ws_loc num_objs cur);
  store (ws_loc num_objs cur) (wrap32 (n + 1));;
  when bogus_allocated (
    n ← load (ws_loc num_objs cur);
    store (ws_loc num_objs cur) (wrap32 (n + 1))).

(** ** Walking a write set *)

Definition ws_iter_begin (ws : Z) : kprog Z :=
  let chs := obj_to_chs ws in
  c ← load (ws_loc start_tail_cnt ws);
  sz ← get_log_size chs;
  mret (wrap64 (c + sz)).

Definition ws_iter_next (iter chs : Z) : kprog Z :=
  sz ← get_log_size chs; mret (wrap64 (iter + sz)).

(** [ws_for_each]: [num_objs] entries from [ws_iter_begin] on, with a value
    threaded through.  The number of entries is read once: the set being walked
    is the caller's own or a committed one, and does not grow.  The result is
    the final count and value. *)
Definition ws_for_each {A} (log ws : Z) (body : Z → A → kprog A) (a : A) : kprog (Z * A) :=
  cnt ← ws_iter_begin ws;
  n ← load (ws_loc num_objs ws);
  iterate (Z.to_nat n) (λ '(cnt, a),
    chs ← log_at_chs log cnt;
    a' ← body chs a;
    cnt' ← ws_iter_next cnt chs;
    mret (cnt', a')) (cnt, a).

(** ** Objects to free *)

(** [fp_is_free] over the first [num_ptrs] slots. *)
Definition fp_mem (fp : mvrlu_free_ptrs) (p : Z) : bool :=
  existsb (λ i, bool_decide (ptrs fp !! Z.of_nat i = Some p))
    (seq 0 (Z.to_nat (num_ptrs fp))).

(** [self] names the thread whose [free_ptrs] are consulted. *)
Definition fp_is_free (self ahs : Z) : kprog bool :=
  fp ← load (thr_loc free_ptrs self);
  mret (fp_mem fp (ahs_obj ahs)).

Definition fp_reset (self : Z) : kprog unit := store (fp_loc num_ptrs self) 0.

(** ** Commit and abort *)

(** The retry loop of [ws_move_lock_to_copy]: publish [chs] as the newest
    version of the object at [ahs], in front of [p_old_copy]. *)
Definition push_version (fuel : nat) (ahs chs p_old_copy : Z) : kprog unit :=
  loop fuel (λ p_old_copy,
    store (chs_hdr p_copy chs) p_old_copy;;
    (if decide (p_old_copy = NULL) then store (chs_loc wrt_clk_next chs) MIN_VERSION
     else
       wrt_clk_next_ ← get_wrt_clk (vobj_to_chs p_old_copy);
       store (chs_loc wrt_clk_next chs) wrt_clk_next_);;
    '(ok, p_old_copy2) ← smp_cas_v (ahs_hdr p_copy ahs) p_old_copy (chs_obj chs);
    if (ok : bool) then mret (inr ()) else mret (inl p_old_copy2)) p_old_copy.

(** The body of [ws_move_lock_to_copy] for one entry; [num_free] is the number
    of freed objects not yet met. *)
Definition move_lock_to_copy_one (fuel : nat) (self chs num_free : Z) : kprog Z :=
  t ← load (chs_hdr type chs);
  if decide (t = TYPE_BOGUS) then mret num_free else
  p ← load (chs_loc p_act chs);
  let ahs := vobj_to_ahs p in
  freed ← (if 0 <? num_free then fp_is_free self ahs else mret false);
  if (freed : bool) then
    store (chs_hdr type chs) TYPE_FREE;; mret (num_free - 1)
  else
  sz ← load (chs_hdr obj_size chs);
  if decide (sz = 0) then mret num_free else
  p_old_copy ← load (ahs_hdr p_copy ahs);
  push_version fuel ahs chs p_old_copy;;
  mret num_free.

Definition ws_move_lock_to_copy (fuel : nat) (log self : Z) : kprog unit :=
  ws ← load (log_loc cur_wrt_set log);
  num_free ← load (fp_loc num_ptrs self);
  ws_for_each log ws (move_lock_to_copy_one fuel self) num_free;;
  mret ().

(** The body of [ws_unlock] for one entry. *)
Definition unlock_one (wrt_clk_ chs : Z) : kprog unit :=
  t ← load (chs_hdr type chs);
  if decide (t = TYPE_BOGUS) then mret () else
  when (negb (wrt_clk_ =? MAX_VERSION)) (store (chs_loc __wrt_clk chs) wrt_clk_);;
  t ← load (chs_hdr type chs);
  if decide (t = TYPE_COPY) then
    p ← load (chs_loc p_act chs);
    store (ahs_loc p_lock (vobj_to_ahs p)) NULL
  else mret ().

(** The parameter is overwritten by the clock of the write set. *)
Definition ws_unlock (log _wrt_clk : Z) : kprog unit :=
  ws ← load (log_loc cur_wrt_set log);
  wrt_clk_ ← load (ws_loc wrt_clk ws);
  ws_for_each log ws (λ chs _, unlock_one wrt_clk_ chs) ();;
  mret ().

Definition log_commit (fuel : nat) (log self local_clk_ : Z) : kprog unit :=
  ws_move_lock_to_copy fuel log self;;
  cur ← load (log_loc cur_wrt_set log);
  c ← new_clock fuel local_clk_;
  smp_atomic_store (ws_loc wrt_clk cur) c;;
  cur ← load (log_loc cur_wrt_set log);
  c ← load (ws_loc wrt_clk cur);
  ws_unlock log c;;
  store (log_loc cur_wrt_set log) NULL;;
  fp_reset self.

Definition log_abort (log self : Z) : kprog unit :=
  ws_unlock log MAX_VERSION;;
  cur ← load (log_loc cur_wrt_set log);
  c ← load (ws_loc start_tail_cnt cur);
  store (log_loc tail_cnt log) c;;
  store (log_loc cur_wrt_set log) NULL;;
  fp_reset self.

(** ** Reclamation *)

Definition try_lock (lock : loc Z) : kprog bool :=
  v ← load lock;
  if decide (v = 0) then smp_cas lock 0 1 else mret false.

Definition unlock (lock : loc Z) : kprog unit := store lock 0.

(** One entry of a write set met by [log_reclaim]. *)
Definition reclaim_one (reclaim try_writeback : bool) (chs : Z) : kprog unit :=
  t ← load (chs_hdr type chs);
  match t with
  | TYPE_COPY =>
      if try_writeback then
        ok ← try_writeback_obj chs; when ok (try_detach_obj chs)
      else mret ()
  | TYPE_FREE => when reclaim (free_obj chs)
  | _ => mret ()
  end.

(** One write set met by [log_reclaim]: [inr] ends the loop. *)
Definition reclaim_step (log qp_clk1_ qp_clk2_ tail start_cnt : Z) : kprog (Z + unit) :=
  if start_cnt <? tail then
    wss ← log_at_wss log (log_index start_cnt);
    let ws := chs_obj wss in
    c ← load (ws_loc wrt_clk ws);
    stop ← (if gte_clock c qp_clk1_ then
              c ← load (ws_loc wrt_clk ws); mret (negb (c =? qp_clk1_))
            else mret false);
    if (stop : bool) then mret (inr ()) else
    c ← load (ws_loc wrt_clk ws);
    '(reclaim, try_writeback) ←
      (if lte_clock c qp_clk2_ then mret (true, false)
       else
         c ← load (ws_loc wrt_clk ws);
         mret (false, lte_clock c qp_clk1_));
    '(cnt, _) ← ws_for_each log ws (λ chs _, reclaim_one reclaim try_writeback chs) ();
    when reclaim (store (log_loc head_cnt log) cnt);;
    mret (inl cnt)
  else mret (inr ()).

Definition log_reclaim (fuel : nat) (log : Z) : kprog unit :=
  nr ← load (log_loc need_reclaim log);
  if decide (nr = 0) then mret () else
  ok ← try_lock (log_loc reclaim_lock log);
  if negb ok then mret () else
  q1 ← load (log_loc qp_clk1 log);
  q2 ← load (log_loc qp_clk2 log);
  start_cnt ← load (log_loc head_cnt log);
  tail ← load (log_loc tail_cnt log);
  loop fuel (reclaim_step log q1 q2 tail) start_cnt;;
  store (log_loc need_reclaim log) 0;;
  unlock (log_loc reclaim_lock log).
