(* ===== verification/LogLayout.v ===== *)
(** * Layout of the version log

    Where [log_alloc] puts an entry, that every entry fits in the buffer, that
    the assertions of the source about it hold, and how [ws_for_each] walks
    over the entries of a write set. *)

From S2P Require Import Prelude World OrdoClock Port Object Cells VersionLog.

(** ** Positions *)

Lemma log_index_mod c : log_index c = c mod MVRLU_LOG_SIZE.
Proof.
  unfold log_index, MVRLU_LOG_MASK. rewrite Z.lnot_involutive.
  change (MVRLU_LOG_SIZE - 1) with (Z.ones 17). rewrite Z.land_ones //.
Qed.

Lemma log_index_range c : 0 ≤ log_index c < MVRLU_LOG_SIZE.
Proof. rewrite log_index_mod. apply Z.mod_pos_bound. done. Qed.

(** The size of the entry for an object of [osz] bytes, header included. *)
Definition entry_size (osz : Z) : Z :=
  align_uint_to_cacheline (wrap32 (osz + sizeof_cpy_hdr_struct)).

(** Whether the allocation at [t] would run over the end of the buffer. *)
Definition wraps (t ls : Z) : bool := log_index (wrap64 (t + ls)) <? log_index t.

(** The bogus entry's size, the position of the new entry and its final size. *)
Definition bogus_size (t : Z) : Z := wrap32 (MVRLU_LOG_SIZE - log_index t).
Definition alloc_pos (t ls : Z) : Z := if wraps t ls then wrap64 (t + bogus_size t) else t.
Definition alloc_size (t ls : Z) (bogus : bool) : Z :=
  wrap32 (ls + add_extra_padding (alloc_pos t ls) ls sizeof_wrt_set_struct (wraps t ls || bogus)).

Definition bogus_hdr (t : Z) : mvrlu_cpy_hdr_struct :=
  CpyHdr 0 0 0 0 (ObjHdr 0 (wrap16 (bogus_size t)) TYPE_BOGUS 0).
Definition alloc_hdr (osz sz : Z) : mvrlu_cpy_hdr_struct :=
  CpyHdr 0 0 MAX_VERSION 0 (ObjHdr osz (wrap16 (wrap32 (sz - osz))) TYPE_ACTUAL 0).

(** The state after [log_alloc]. *)
Definition alloc_world (self : Z) (th : mvrlu_thread_struct) (osz : Z) (bogus : bool)
    (w : world) : world :=
  let t := tail_cnt (log th) in
  let buf := buffer (log th) in
  let ls := entry_size osz in
  let w1 :=
    if wraps t ls then
      set_thr self (th <| log ::= λ g, g <| tail_cnt := alloc_pos t ls |> |>)
        (set_chs (buf + log_index t) (bogus_hdr t) w)
    else w in
  set_chs (buf + log_index (alloc_pos t ls)) (alloc_hdr osz (alloc_size t ls bogus)) w1.

Lemma run_log_at w self th cnt :
  w_thr w !! self = Some th →
  run (log_at (log_of self) cnt) w = Done (buffer (log th) + log_index cnt) w.
Proof. intros H. unfold log_at. xload. done. Qed.

Lemma run_memset_chs w a : run (memset_chs a) w = Done () (set_chs a zero_chs w).
Proof. done. Qed.

Lemma run_log_alloc w self th osz bogus :
  w_thr w !! self = Some th →
  run (log_alloc (log_of self) osz bogus) w =
  Done (buffer (log th) + log_index (alloc_pos (tail_cnt (log th)) (entry_size osz)),
        wraps (tail_cnt (log th)) (entry_size osz) || bogus)
       (alloc_world self th osz bogus w).
Proof.
  intros Hth. unfold log_alloc, alloc_world. xload.
  fold (entry_size osz). fold (wraps (tail_cnt (log th)) (entry_size osz)).
  unfold alloc_size, alloc_pos. destruct (wraps _ _) eqn:Ew; rewrite run_bind.
  - erewrite run_bind_done by (by apply run_log_at).
    erewrite run_bind_done by apply run_memset_chs.
    xstore. xstore. xstore. rewrite run_ret /=. fold (bogus_size (tail_cnt (log th))).
    xload. erewrite run_bind_done by (apply run_log_at; cell).
    erewrite run_bind_done by apply run_memset_chs. xstore. xstore. xstore. done.
  - rewrite run_ret /=. xload. erewrite run_bind_done by (by apply run_log_at).
    erewrite run_bind_done by apply run_memset_chs. xstore. xstore. xstore. done.
Qed.

(** ** Every entry fits *)

(** A position where a write set header fits without wrapping around: the
    padding added by [add_extra_padding] keeps the tail there. *)
Definition tail_ok (t : Z) : Prop :=
  t mod 64 = 0 ∧ t mod MVRLU_LOG_SIZE + 128 < MVRLU_LOG_SIZE.

(** A counter far from the end of its 64 bits. *)
Definition cnt_ok (t : Z) : Prop := 0 ≤ t ≤ ULONG_MAX - 4 * MVRLU_LOG_SIZE.

(** An object whose entry's size fits the 16-bit [padding_size] of the bogus
    entry that may precede it. *)
Definition obj_fits (osz : Z) : Prop := 0 ≤ osz ≤ 65408.

Lemma entry_size_spec osz :
  obj_fits osz →
  let ls := entry_size osz in ls mod 64 = 0 ∧ osz + 48 ≤ ls < osz + 112.
Proof.
  intros Ho. unfold entry_size, obj_fits in *. zconst. rewrite wrap32_small; [lia|].
  destruct (align_uint_spec (osz + 48)); [lia|]. cbv zeta. split; [done|lia].
Qed.

Lemma entry_size_ws : entry_size sizeof_wrt_set = 128.
Proof. reflexivity. Qed.

Lemma wraps_spec t ls :
  cnt_ok t → 0 < ls ≤ 65536 →
  wraps t ls = (MVRLU_LOG_SIZE <=? t mod MVRLU_LOG_SIZE + ls).
Proof.
  intros Ht Hls. unfold wraps. rewrite !log_index_mod wrap64_small; [unfold cnt_ok in Ht; zlia|].
  rewrite mod_add_split; [zlia|zlia|]. pose proof (Z.mod_pos_bound t MVRLU_LOG_SIZE).
  zconst. destruct (Z.ltb_spec (t mod 131072 + ls) 131072);
    destruct (Z.leb_spec 131072 (t mod 131072 + ls)); lia.
Qed.

Lemma bogus_size_val t : bogus_size t = MVRLU_LOG_SIZE - t mod MVRLU_LOG_SIZE.
Proof.
  unfold bogus_size. rewrite log_index_mod. apply wrap32_small.
  pose proof (Z.mod_pos_bound t MVRLU_LOG_SIZE). zlia.
Qed.

Lemma alloc_pos_val t ls :
  cnt_ok t → 0 < ls ≤ 65536 →
  alloc_pos t ls = if MVRLU_LOG_SIZE <=? t mod MVRLU_LOG_SIZE + ls
                   then t + (MVRLU_LOG_SIZE - t mod MVRLU_LOG_SIZE) else t.
Proof.
  intros Ht Hls. unfold alloc_pos. rewrite wraps_spec //. case_match; [|done].
  rewrite bogus_size_val wrap64_small //. unfold cnt_ok in Ht.
  pose proof (Z.mod_pos_bound t MVRLU_LOG_SIZE). zlia.
Qed.

Lemma alloc_pos_index t ls :
  cnt_ok t → 0 < ls ≤ 65536 →
  alloc_pos t ls mod MVRLU_LOG_SIZE =
  if MVRLU_LOG_SIZE <=? t mod MVRLU_LOG_SIZE + ls then 0 else t mod MVRLU_LOG_SIZE.
Proof.
  intros Ht Hls. rewrite alloc_pos_val //. case_match; [|done].
  pose proof (Z.div_mod t MVRLU_LOG_SIZE). zconst.
  replace (t + (131072 - t mod 131072)) with ((t / 131072 + 1) * 131072) by lia.
  by rewrite Z_mod_mult.
Qed.

Lemma extra_padding_val t ls b :
  cnt_ok t → 0 < ls ≤ 65536 → t mod MVRLU_LOG_SIZE + ls < MVRLU_LOG_SIZE →
  add_extra_padding t ls sizeof_wrt_set_struct b =
  if negb b && (MVRLU_LOG_SIZE <=? t mod MVRLU_LOG_SIZE + ls + 128)
  then MVRLU_LOG_SIZE - (t mod MVRLU_LOG_SIZE + ls) else 0.
Proof.
  intros Ht Hls Hfit. unfold add_extra_padding.
  change (align_uint_to_cacheline (wrap32 (sizeof_wrt_set_struct + sizeof_cpy_hdr_struct))) with 128.
  unfold cnt_ok in Ht. pose proof (Z.mod_pos_bound t MVRLU_LOG_SIZE). zconst.
  rewrite !log_index_mod. zconst. rewrite !wrap64_small; [zlia..|].
  rewrite -Z.add_assoc !mod_add_split; [lia..|].
  destruct (Z.ltb_spec (t mod 131072 + ls) 131072); [|lia].
  destruct b; [done|]. cbn [negb andb].
  destruct (Z.ltb_spec (t mod 131072 + (ls + 128)) 131072);
    destruct (Z.leb_spec 131072 (t mod 131072 + ls + 128)); try lia.
  - destruct (Z.ltb_spec (t mod 131072 + (ls + 128)) (t mod 131072)); lia.
  - destruct (Z.ltb_spec (t mod 131072 + (ls + 128) - 131072) (t mod 131072)); [|lia].
    rewrite wrap32_small; lia.
Qed.

(** The size [get_log_size] computes from a header. *)
Definition hdr_size (c : mvrlu_cpy_hdr_struct) : Z :=
  wrap32 (obj_size (c_obj_hdr c) + padding_size (c_obj_hdr c)).

(** The facts about one allocation at a cache-line aligned tail. *)
Record alloc_facts (t osz : Z) : Prop := {
  af_pos_le : t ≤ alloc_pos t (entry_size osz) ≤ t + entry_size osz;
  af_pos_aligned : alloc_pos t (entry_size osz) mod 64 = 0;
  af_size : entry_size osz ≤ alloc_size t (entry_size osz) false ≤ entry_size osz + 128;
  af_size_aligned : alloc_size t (entry_size osz) false mod 64 = 0;
  af_fits : alloc_pos t (entry_size osz) mod MVRLU_LOG_SIZE
            + alloc_size t (entry_size osz) false ≤ MVRLU_LOG_SIZE;
  af_tail : tail_ok (alloc_pos t (entry_size osz) + alloc_size t (entry_size osz) false);
  af_hdr : hdr_size (alloc_hdr osz (alloc_size t (entry_size osz) false))
           = alloc_size t (entry_size osz) false;
  af_bogus : wraps t (entry_size osz) = true →
             hdr_size (bogus_hdr t) = alloc_pos t (entry_size osz) - t ∧
             0 < alloc_pos t (entry_size osz) - t;
}.

Lemma alloc_size_val t osz :
  cnt_ok t → obj_fits osz →
  let ls := entry_size osz in
  let i := t mod MVRLU_LOG_SIZE in
  alloc_size t ls false =
    if (i + ls <? MVRLU_LOG_SIZE) && (MVRLU_LOG_SIZE <=? i + ls + 128)
    then MVRLU_LOG_SIZE - i else ls.
Proof.
  intros Ht Ho ls i. destruct (entry_size_spec osz Ho) as [Hal Hr]. fold ls in Hal, Hr.
  assert (0 < ls ≤ 65536) as Hls by (unfold obj_fits in Ho; lia).
  unfold alloc_size. rewrite orb_false_r wraps_spec // alloc_pos_val //. fold i.
  pose proof (Z.mod_pos_bound t MVRLU_LOG_SIZE ltac:(done)) as Hi. fold i in Hi.
  destruct (Z.leb_spec MVRLU_LOG_SIZE (i + ls)) as [Hw|Hw].
  - destruct (Z.ltb_spec (i + ls) MVRLU_LOG_SIZE); [lia|].
    unfold add_extra_padding. cbn [negb andb]. rewrite Z.add_0_r. apply wrap32_small. lia.
  - destruct (Z.ltb_spec (i + ls) MVRLU_LOG_SIZE); [|lia].
    rewrite extra_padding_val //. fold i. cbn [negb andb].
    destruct (Z.leb_spec MVRLU_LOG_SIZE (i + ls + 128)); rewrite wrap32_small; zlia.
Qed.

Lemma alloc_facts_hold t osz :
  cnt_ok t → obj_fits osz → t mod 64 = 0 → alloc_facts t osz.
Proof.
  intros Ht Ho Hal. destruct (entry_size_spec osz Ho) as [Hls64 Hr].
  assert (0 < entry_size osz ≤ 65536) as Hls by (unfold obj_fits in Ho; lia).
  pose proof (alloc_size_val t osz Ht Ho) as Hs. cbv zeta in Hs.
  pose proof (alloc_pos_val t _ Ht Hls) as Hp. pose proof (alloc_pos_index t _ Ht Hls) as Hpi.
  pose proof (Z.mod_pos_bound t MVRLU_LOG_SIZE ltac:(done)) as Hi.
  assert ((t mod MVRLU_LOG_SIZE) mod 64 = 0) as Hi64.
  { rewrite -(Znumtheory.Zmod_div_mod 64 MVRLU_LOG_SIZE t) //. by exists 2048. }
  set (ls := entry_size osz) in *. set (p := alloc_pos t ls) in *.
  set (s := alloc_size t ls false) in *. set (i := t mod MVRLU_LOG_SIZE) in *.
  assert (ls ≤ s ≤ ls + 128) as Hsr.
  { rewrite Hs. destruct (Z.ltb_spec (i + ls) MVRLU_LOG_SIZE), (Z.leb_spec MVRLU_LOG_SIZE (i + ls + 128));
      cbn [andb]; lia. }
  assert (s mod 64 = 0) as Hs64.
  { rewrite Hs. destruct (_ && _); [by apply mod_sub_multiple|done]. }
  assert (p mod 64 = 0) as Hp64.
  { rewrite Hp. case_match; [|done]. apply mod_add_multiple; [done|done|]. by apply mod_sub_multiple. }
  assert (p mod MVRLU_LOG_SIZE + s ≤ MVRLU_LOG_SIZE) as Hfit.
  { rewrite Hpi Hs. destruct (Z.leb_spec MVRLU_LOG_SIZE (i + ls)), (Z.ltb_spec (i + ls) MVRLU_LOG_SIZE),
      (Z.leb_spec MVRLU_LOG_SIZE (i + ls + 128)); cbn [andb]; zlia. }
  assert (t ≤ p ≤ t + ls) as Hpr.
  { rewrite Hp. destruct (Z.leb_spec MVRLU_LOG_SIZE (i + ls)); lia. }
  split; fold ls; fold p; fold s; try done.
  - split; [by apply mod_add_multiple|].
    destruct (decide (p mod MVRLU_LOG_SIZE + s = MVRLU_LOG_SIZE)) as [E|E].
    + pose proof (Z.div_mod p MVRLU_LOG_SIZE ltac:(done)).
      replace (p + s) with ((p / MVRLU_LOG_SIZE + 1) * MVRLU_LOG_SIZE) by lia.
      rewrite Z_mod_mult. zlia.
    + rewrite mod_add_split; [done|zlia|]. destruct (Z.ltb_spec (p mod MVRLU_LOG_SIZE + s) MVRLU_LOG_SIZE); [|lia].
      revert E. rewrite Hpi Hs.
      destruct (Z.leb_spec MVRLU_LOG_SIZE (i + ls)), (Z.ltb_spec (i + ls) MVRLU_LOG_SIZE),
        (Z.leb_spec MVRLU_LOG_SIZE (i + ls + 128)); cbn [andb]; zlia.
  - unfold hdr_size, alloc_hdr. cbn. rewrite !wrap32_small ?wrap16_small ?wrap32_small; unfold obj_fits in Ho; lia.
  - unfold hdr_size, bogus_hdr. cbn. intros Hw. rewrite wraps_spec // in Hw. rewrite Hp Hw.
    apply Z.leb_le in Hw. rewrite bogus_size_val. fold i.
    rewrite !wrap16_small ?wrap32_small; unfold obj_fits in Ho; zlia.
Qed.

(** Between write sets the header of the next one fits without a bogus entry. *)
Lemma ws_never_wraps t : cnt_ok t → tail_ok t → wraps t (entry_size sizeof_wrt_set) = false.
Proof.
  intros Hc [_ Ht]. rewrite entry_size_ws wraps_spec //. apply Z.leb_gt. done.
Qed.

(** ** Walking over the entries of a write set *)

(** The addresses of [n] entries from count [c] on, and the count behind them. *)
Fixpoint walk (m : gmap Z mvrlu_cpy_hdr_struct) (buf : Z) (n : nat) (c : Z)
    : option (list Z * Z) :=
  match n with
  | O => Some ([], c)
  | S n' =>
      match m !! (buf + log_index c) with
      | Some h =>
          match walk m buf n' (wrap64 (c + hdr_size h)) with
          | Some (l, e) => Some ((buf + log_index c) :: l, e)
          | None => None
          end
      | None => None
      end
  end.

(** Two states with the same entries in the same places. *)
Definition same_layout (w1 w2 : world) : Prop :=
  (∀ t, (λ h, buffer (log h)) <$> w_thr w1 !! t = (λ h, buffer (log h)) <$> w_thr w2 !! t) ∧
  (∀ a, hdr_size <$> w_chs w1 !! a = hdr_size <$> w_chs w2 !! a).

#[export] Instance same_layout_equiv : Equivalence same_layout.
Proof.
  split.
  - by intros w.
  - intros w1 w2 [H1 H2]. by split.
  - intros w1 w2 w3 [H1 H2] [H3 H4]. split; intros; [by rewrite H1|by rewrite H2].
Qed.

Lemma walk_layout w1 w2 buf n c :
  same_layout w1 w2 → walk (w_chs w1) buf n c = walk (w_chs w2) buf n c.
Proof.
  intros [_ H]. revert c. induction n as [|n IH]; intros c; [done|]. cbn.
  specialize (H (buf + log_index c)).
  destruct (w_chs w1 !! _), (w_chs w2 !! _); simplify_eq/=; try done.
  by rewrite H IH.
Qed.

Lemma walk_length m buf n c l e : walk m buf n c = Some (l, e) → length l = n.
Proof.
  revert c l. induction n as [|n IH]; intros c l; cbn; [by intros [= <- <-]|].
  destruct (m !! _); [|done]. destruct (walk m buf n _) as [[l' e']|] eqn:E; [|done].
  intros [= <- <-]. cbn. by rewrite (IH _ _ E).
Qed.

Lemma run_get_log_size' w chs c :
  w_chs w !! chs = Some c → run (get_log_size chs) w = Done (hdr_size c) w.
Proof. apply run_get_log_size. Qed.

(** [ws_for_each] applies its body to the entries in order, provided the body
    does not move them; [Inv] is what the body may rely on. *)
Lemma run_ws_for_each_inv {A} (Inv : world → Prop) self ws (body : Z → A → kprog A) a w th s hc l e :
  w_thr w !! self = Some th → w_ws w !! ws = Some s →
  w_chs w !! obj_to_chs ws = Some hc →
  walk (w_chs w) (buffer (log th)) (Z.to_nat (num_objs s))
    (wrap64 (start_tail_cnt s + hdr_size hc)) = Some (l, e) →
  Inv w →
  (∀ chs a w a' w', chs ∈ l → Inv w → run (body chs a) w = Done a' w' → Inv w' ∧ same_layout w w') →
  run (ws_for_each (log_of self) ws body a) w =
  outcome_bind (run (fold_each l body a) w) (λ a' w', Done (e, a') w').
Proof.
  intros Hth Hs Hc Hw HI Hk. unfold ws_for_each.
  assert (run (ws_iter_begin ws) w = Done (wrap64 (start_tail_cnt s + hdr_size hc)) w) as Hb.
  { unfold ws_iter_begin. xload. erewrite run_bind_done by (by apply run_get_log_size'). done. }
  erewrite run_bind_done by exact Hb. xload. clear Hb Hs Hc.
  revert Hw. generalize (wrap64 (start_tail_cnt s + hdr_size hc)) as c.
  generalize (Z.to_nat (num_objs s)) as n. intros n.
  revert a l w th Hth HI Hk. induction n as [|n IH]; intros a l w th Hth HI Hk c Hw; cbn in Hw.
  { injection Hw as <- <-. done. }
  destruct (w_chs w !! _) as [h|] eqn:Eh; [|done].
  destruct (walk _ _ n _) as [[l' e']|] eqn:El; [|done]. injection Hw as <- <-.
  rewrite run_iterate_S run_fold_each_cons.
  unfold log_at_chs. erewrite run_bind_done by (by apply run_log_at).
  rewrite run_bind. destruct (run (body _ a) w) as [a' w'| | |] eqn:Er; try done. cbn.
  destruct (Hk _ _ _ _ _ (list_elem_of_here _ _) HI Er) as [HI' Hlay].
  destruct Hlay as [Hl1 Hl2] eqn:El12. clear El12.
  assert (∃ h', w_chs w' !! (buffer (log th) + log_index c) = Some h' ∧ hdr_size h' = hdr_size h)
    as (h' & Eh' & Es).
  { specialize (Hl2 (buffer (log th) + log_index c)). rewrite Eh in Hl2.
    destruct (w_chs w' !! _); simplify_eq/=. eauto. }
  assert (∃ th', w_thr w' !! self = Some th' ∧ buffer (log th') = buffer (log th)) as (th' & Hth' & Eb).
  { specialize (Hl1 self). rewrite Hth in Hl1. destruct (w_thr w' !! self); simplify_eq/=. eauto. }
  unfold ws_iter_next. rewrite run_bind. erewrite run_bind_done by (by apply run_get_log_size').
  rewrite run_ret. cbn [outcome_bind]. rewrite run_ret. cbn [outcome_bind]. rewrite Es.
  apply (IH a' l' w' th'); [done|done| |].
  - intros ????? Hin. apply Hk. set_solver.
  - rewrite Eb -El. symmetry. by apply walk_layout.
Qed.

Lemma run_ws_for_each {A} self ws (body : Z → A → kprog A) a w th s hc l e :
  w_thr w !! self = Some th → w_ws w !! ws = Some s →
  w_chs w !! obj_to_chs ws = Some hc →
  walk (w_chs w) (buffer (log th)) (Z.to_nat (num_objs s))
    (wrap64 (start_tail_cnt s + hdr_size hc)) = Some (l, e) →
  (∀ chs a, keeps same_layout (body chs a)) →
  run (ws_for_each (log_of self) ws body a) w =
  outcome_bind (run (fold_each l body a) w) (λ a' w', Done (e, a') w').
Proof.
  intros Hth Hs Hc Hw Hk. eapply (run_ws_for_each_inv (λ _, True)); eauto.
  intros chs a' w1 a1 w2 _ _ Hr. split; [done|]. eapply keeps_run; [apply _|apply Hk|exact Hr].
Qed.

(** ** Well-formed write sets *)

(** The entries from count [c] to count [e], without gaps. *)
Inductive entries (m : gmap Z mvrlu_cpy_hdr_struct) (buf : Z) : Z → list Z → Z → Prop :=
| entries_nil c : entries m buf c [] c
| entries_cons c h l e :
    m !! (buf + log_index c) = Some h → 0 < hdr_size h → c + hdr_size h ≤ ULONG_MAX →
    entries m buf (c + hdr_size h) l e →
    entries m buf c ((buf + log_index c) :: l) e.

Lemma entries_walk m buf c l e :
  0 ≤ c → entries m buf c l e → walk m buf (length l) c = Some (l, e).
Proof.
  intros Hc H. revert Hc. induction H as [|c h l e Hh Hs Hb H IH]; intros Hc; [done|].
  cbn. rewrite Hh wrap64_small; [lia|]. rewrite IH //. lia.
Qed.

Lemma entries_snoc m buf c l e h :
  entries m buf c l e → m !! (buf + log_index e) = Some h → 0 < hdr_size h →
  e + hdr_size h ≤ ULONG_MAX →
  entries m buf c (l ++ [buf + log_index e]) (e + hdr_size h).
Proof.
  induction 1; intros; cbn; econstructor; eauto using entries_nil.
Qed.

Lemma entries_le m buf c l e : entries m buf c l e → c ≤ e.
Proof. induction 1; lia. Qed.

(** Where an entry lies. *)
Lemma entries_elem m buf c l e a :
  entries m buf c l e → a ∈ l → ∃ c', c ≤ c' < e ∧ a = buf + log_index c' ∧ is_Some (m !! a).
Proof.
  induction 1 as [|c h l e Hh Hs Hb H IH]; [by intros ?%not_elem_of_nil|].
  pose proof (entries_le _ _ _ _ _ H). intros [->|Ha]%elem_of_cons.
  - exists c. split_and!; [lia|lia|done|eauto].
  - destruct (IH Ha) as (c' & ? & ? & ?). exists c'. split_and!; [lia|lia|done|done].
Qed.

(** Entries depend only on the sizes found at their addresses. *)
Lemma entries_ext m m' buf c l e :
  (∀ a, a ∈ l → hdr_size <$> m' !! a = hdr_size <$> m !! a) →
  entries m buf c l e → entries m' buf c l e.
Proof.
  intros Hext H. revert Hext. induction H as [|c h l e Hh Hs Hb H IH]; intros Hext;
    [constructor|].
  pose proof (Hext (buf + log_index c)) as E. rewrite Hh in E.
  destruct (m' !! (buf + log_index c)) as [h'|] eqn:E'; [|set_solver].
  assert (hdr_size h' = hdr_size h) as Es. { specialize (E ltac:(set_solver)). by simplify_eq/=. }
  econstructor; [exact E'| | |]; rewrite Es //. apply IH. set_solver.
Qed.

(** Two counts less than one buffer apart have different places. *)
Lemma log_index_inj_near c c' :
  c ≤ c' < c + MVRLU_LOG_SIZE → log_index c = log_index c' → c = c'.
Proof.
  rewrite !log_index_mod. intros Hr E.
  pose proof (Z.div_mod c MVRLU_LOG_SIZE ltac:(done)).
  pose proof (Z.div_mod c' MVRLU_LOG_SIZE ltac:(done)). rewrite E in H. zconst. nia.
Qed.

Lemma entries_fresh m buf c l e p :
  entries m buf c l e → e ≤ p < c + MVRLU_LOG_SIZE → buf + log_index p ∉ l.
Proof.
  intros H Hp Hin. destruct (entries_elem _ _ _ _ _ _ H Hin) as (c' & Hc & E & _).
  assert (c' = p); [|lia]. apply log_index_inj_near; lia.
Qed.

Lemma entries_NoDup m buf c l e :
  entries m buf c l e → e ≤ c + MVRLU_LOG_SIZE → NoDup l.
Proof.
  induction 1 as [|c h l e Hh Hs Hb H IH]; intros Hle; [constructor|].
  apply NoDup_cons. split; [|apply IH; lia]. intros Hin.
  destruct (entries_elem _ _ _ _ _ _ H Hin) as (c' & Hc & E & _).
  assert (c = c'); [|lia]. apply log_index_inj_near; lia.
Qed.

(** The write set of thread [self] whose header is at count [c] and whose
    entries [es] end at count [e]; [h] and [s] are its cells. *)
Record ws_rep (w : world) (buf self c : Z) (es : list Z) (e : Z)
    (h : mvrlu_cpy_hdr_struct) (s : mvrlu_wrt_set) : Prop := WsRep {
  wr_hdr : w_chs w !! (buf + log_index c) = Some h;
  wr_type : type (c_obj_hdr h) = TYPE_WRT_SET;
  wr_size : 0 < hdr_size h;
  wr_size_max : c + hdr_size h ≤ ULONG_MAX;
  wr_ws : w_ws w !! chs_obj (buf + log_index c) = Some s;
  wr_start : start_tail_cnt s = c;
  wr_num : num_objs s = Z.of_nat (length es);
  wr_thread : ws_thread s = self;
  wr_entries : entries (w_chs w) buf (c + hdr_size h) es e;
}.

(** [ws_for_each] on a well-formed write set visits its entries in order and
    ends behind the last one. *)
Lemma run_ws_for_each_rep {A} self (body : Z → A → kprog A) a w th c es e h s :
  w_thr w !! self = Some th →
  ws_rep w (buffer (log th)) self c es e h s → 0 ≤ c →
  (∀ chs a, keeps same_layout (body chs a)) →
  run (ws_for_each (log_of self) (chs_obj (buffer (log th) + log_index c)) body a) w =
  outcome_bind (run (fold_each es body a) w) (λ a' w', Done (e, a') w').
Proof.
  intros Hth [] Hc Hk. eapply run_ws_for_each; eauto.
  - unfold obj_to_chs, chs_obj. by rewrite Z.add_simpl_r.
  - rewrite wr_num0 Nat2Z.id wr_start0 wrap64_small; [lia|].
    apply entries_walk; [lia|done].
Qed.

(** The same with an invariant. *)
Lemma run_ws_for_each_rep_inv {A} (Inv : world → Prop) self (body : Z → A → kprog A) a w th c es e h s :
  w_thr w !! self = Some th →
  ws_rep w (buffer (log th)) self c es e h s → 0 ≤ c → Inv w →
  (∀ chs a w a' w', chs ∈ es → Inv w → run (body chs a) w = Done a' w' → Inv w' ∧ same_layout w w') →
  run (ws_for_each (log_of self) (chs_obj (buffer (log th) + log_index c)) body a) w =
  outcome_bind (run (fold_each es body a) w) (λ a' w', Done (e, a') w').
Proof.
  intros Hth [] Hc HI Hk. eapply (run_ws_for_each_inv Inv); eauto.
  - unfold obj_to_chs, chs_obj. by rewrite Z.add_simpl_r.
  - rewrite wr_num0 Nat2Z.id wr_start0 wrap64_small; [lia|].
    apply entries_walk; [lia|done].
Qed.

(** ** Programs that leave the entries in place *)

Lemma keeps_load {V} R `{!Reflexive R} (l : loc V) : keeps R (load l).
Proof. apply keeps_act. intros w v w'. destruct (lget l w); [by intros [= _ <-]|done]. Qed.

Lemma keeps_store {V} (R : world → world → Prop) (l : loc V) v :
  (∀ w, R w (lset l v w)) → keeps R (store l v).
Proof. intros H. apply keeps_act. intros w b w'. destruct (lget l w); [by intros [= _ <-]|done]. Qed.

Lemma keeps_cas {V} `{EqDecision V} (R : world → world → Prop) `{!Reflexive R} (l : loc V) o v :
  (∀ w, R w (lset l v w)) → keeps R (smp_cas l o v).
Proof.
  intros HR. apply keeps_act. intros w b w'. destruct (lget l w); [|done].
  case_decide; by intros [= _ <-].
Qed.

Lemma keeps_cas_v {V} `{EqDecision V} (R : world → world → Prop) `{!Reflexive R} (l : loc V) o v :
  (∀ w, R w (lset l v w)) → keeps R (smp_cas_v l o v).
Proof.
  intros HR. apply keeps_act. intros w b w'. destruct (lget l w); [|done].
  case_decide; by intros [= _ <-].
Qed.

Lemma layout_chs w f a :
  (∀ h, hdr_size (f h) = hdr_size h) → same_layout w (w <| w_chs ::= alter f a |>).
Proof.
  intros Hf. split; [done|]. intros c. cbn. destruct (decide (a = c)) as [->|].
  - rewrite lookup_alter_eq. destruct (w_chs w !! c); [|done]. cbn. by rewrite Hf.
  - by rewrite lookup_alter_ne.
Qed.

Lemma layout_thr w f a :
  (∀ h, buffer (log (f h)) = buffer (log h)) → same_layout w (w <| w_thr ::= alter f a |>).
Proof.
  intros Hf. split; [|done]. intros t. cbn. destruct (decide (a = t)) as [->|].
  - rewrite lookup_alter_eq. destruct (w_thr w !! t); [|done]. cbn. by rewrite Hf.
  - by rewrite lookup_alter_ne.
Qed.

(** A program that only makes accesses which leave the entries in place. *)
Ltac keeps_layout :=
  repeat first
    [ apply keeps_ret | apply keeps_bind; [|intros ?] | apply keeps_when
    | apply keeps_loop; intros ? | apply keeps_load; apply _
    | apply keeps_store; intros ? | apply keeps_cas; [apply _|intros ?]
    | apply keeps_cas_v; [apply _|intros ?]
    | by apply layout_chs | by apply layout_thr | done
    | case_decide | case_match ].

(** [log_alloc] places the entry of an object inside the buffer: it
    starts at a cache line, its header and the object fit before the end of
    the buffer, and behind it there is room for the header of the next write
    set without a wrap.  The size kept in the header is the size of the entry,
    so that a walk over the log lands on the next one; a filler before the
    entry is as long as the gap it fills. *)
Theorem log_alloc_places_entry w self th osz :
  let t := tail_cnt (log th) in
  w_thr w !! self = Some th → cnt_ok t → t mod 64 = 0 → obj_fits osz →
  ∃ w' pos b h,
    run (log_alloc (log_of self) osz false) w = Done (buffer (log th) + log_index pos, b) w' ∧
    w_chs w' !! (buffer (log th) + log_index pos) = Some h ∧ obj_size (c_obj_hdr h) = osz ∧
    t ≤ pos ∧ log_index pos mod 64 = 0 ∧
    osz + sizeof_cpy_hdr_struct ≤ hdr_size h ∧ log_index pos + hdr_size h ≤ MVRLU_LOG_SIZE ∧
    tail_ok (pos + hdr_size h) ∧
    (pos ≠ t → b = true ∧ log_index pos = 0 ∧ ∃ hb, w_chs w' !! (buffer (log th) + log_index t) = Some hb ∧
       type (c_obj_hdr hb) = TYPE_BOGUS ∧ t + hdr_size hb = pos).
Proof.
  intros t Hth Hc Hal Ho. destruct (alloc_facts_hold t osz Hc Ho Hal) as [H1 H2 H3 H4 H5 H6 H7 H8].
  destruct (entry_size_spec osz Ho) as [_ Hr]. assert (0 < entry_size osz ≤ 65536) as Hls
    by (unfold obj_fits in Ho; lia). pose proof (alloc_pos_index t _ Hc Hls) as Hpi.
  set (pos := alloc_pos t (entry_size osz)) in *.
  set (sz := alloc_size t (entry_size osz) false) in *.
  exists (alloc_world self th osz false w), pos, (wraps t (entry_size osz) || false), (alloc_hdr osz sz).
  split; [by apply run_log_alloc|]. rewrite H7 log_index_mod. split_and!; try done; try lia.
  - unfold alloc_world. fold t pos sz. rewrite -log_index_mod. cbn. apply lookup_insert_eq.
  - rewrite -(Znumtheory.Zmod_div_mod 64 MVRLU_LOG_SIZE pos) //. by exists 2048.
  - zlia.
  - intros Hne. assert (wraps t (entry_size osz) = true) as Hw.
    { destruct (wraps t (entry_size osz)) eqn:E; [done|]. unfold pos, alloc_pos in Hne. by rewrite E in Hne. }
    rewrite wraps_spec // in Hw |- *. rewrite Hw in Hpi |- *. apply Z.leb_le in Hw.
    split_and!; [done|done|]. exists (bogus_hdr t). split_and!; [|done|].
    + unfold alloc_world. fold t pos sz. rewrite wraps_spec //. rewrite (proj2 (Z.leb_le _ _) Hw). cbn.
      rewrite lookup_insert_ne ?lookup_insert_eq // !log_index_mod Hpi.
      unfold obj_fits in Ho. zlia.
    + rewrite wraps_spec // (proj2 (Z.leb_le _ _) Hw) in H8. destruct (H8 eq_refl). lia.
Qed.

(** The size of a filler is kept in sixteen bits: when the rest of
    the buffer that an entry does not fit into is 64 KiB or more, the size is
    cut, and a walk over the log does not land on the entry behind the
    filler. *)
Theorem bogus_entry_cut w self th osz :
  let t := tail_cnt (log th) in
  w_thr w !! self = Some th → cnt_ok t → 0 < entry_size osz ≤ MVRLU_LOG_SIZE →
  wraps t (entry_size osz) = true → t mod MVRLU_LOG_SIZE + 65536 ≤ MVRLU_LOG_SIZE →
  ∃ w' pos b hb,
    run (log_alloc (log_of self) osz false) w = Done (buffer (log th) + log_index pos, b) w' ∧
    w_chs w' !! (buffer (log th) + log_index t) = Some hb ∧
    type (c_obj_hdr hb) = TYPE_BOGUS ∧ t + hdr_size hb < pos.
Proof.
  intros t Hth Hc Hls Hw Hbig. pose proof (Z.mod_pos_bound t MVRLU_LOG_SIZE ltac:(done)) as Hi.
  unfold cnt_ok in Hc. set (ls := entry_size osz) in *.
  assert (alloc_pos t ls = t + (MVRLU_LOG_SIZE - t mod MVRLU_LOG_SIZE)) as Hp.
  { unfold alloc_pos. rewrite Hw bogus_size_val wrap64_small //. zlia. }
  assert (log_index (alloc_pos t ls) = 0) as Hp0.
  { rewrite log_index_mod Hp. pose proof (Z.div_mod t MVRLU_LOG_SIZE ltac:(done)).
    replace (t + _) with ((t / MVRLU_LOG_SIZE + 1) * MVRLU_LOG_SIZE) by lia. apply Z_mod_mult. }
  assert (0 < log_index t) as Ht.
  { unfold wraps in Hw. apply Z.ltb_lt in Hw. pose proof (log_index_range (wrap64 (t + ls))). lia. }
  exists (alloc_world self th osz false w), (alloc_pos t ls), (wraps t ls || false), (bogus_hdr t).
  split_and!; [by apply run_log_alloc| |done|].
  - unfold alloc_world. fold t ls. rewrite Hw Hp0. cbn. rewrite lookup_insert_ne; [lia|]. apply lookup_insert_eq.
  - rewrite Hp. unfold hdr_size, bogus_hdr. cbn. rewrite bogus_size_val. unfold wrap16.
    pose proof (Z.mod_pos_bound (MVRLU_LOG_SIZE - t mod MVRLU_LOG_SIZE) 65536 ltac:(done)).
    rewrite wrap32_small; zlia.
Qed.
