(* ===== verification/LogAppend.v ===== *)
(** * Appending to the log

    [log_append_begin] and [log_append_end] keep the open write set well
    formed: its [num_objs] entries are exactly the bogus and copy entries
    appended since it was opened, and they end at the tail. *)

From S2P Require Import Prelude World OrdoClock Port Object Cells VersionLog LogLayout.

(** The header [log_append_obj] leaves. *)
Definition copy_hdr (ws p_act_ osz sz : Z) : mvrlu_cpy_hdr_struct :=
  CpyHdr ws 0 MAX_VERSION p_act_ (ObjHdr osz (wrap16 (wrap32 (sz - osz))) TYPE_COPY 0).
Definition ws_hdr (ws sz : Z) : mvrlu_cpy_hdr_struct :=
  CpyHdr ws 0 MAX_VERSION 0
    (ObjHdr sizeof_wrt_set (wrap16 (wrap32 (sz - sizeof_wrt_set))) TYPE_WRT_SET 0).

Lemma hdr_size_copy ws p osz sz : hdr_size (copy_hdr ws p osz sz) = hdr_size (alloc_hdr osz sz).
Proof. done. Qed.
Lemma hdr_size_ws ws sz : hdr_size (ws_hdr ws sz) = hdr_size (alloc_hdr sizeof_wrt_set sz).
Proof. done. Qed.

Lemma obj_fits_ws : obj_fits sizeof_wrt_set.
Proof. unfold obj_fits. zlia. Qed.

(** The size of a write set header placed at [t]. *)
Definition ws_entry_size (t : Z) : Z := alloc_size t (entry_size sizeof_wrt_set) false.

(** ** Opening a write set *)

Definition opened_thread (th : mvrlu_thread_struct) : mvrlu_thread_struct :=
  let t := tail_cnt (log th) in
  th <| log ::= λ g, g <| cur_wrt_set := chs_obj (buffer g + log_index t) |>
                       <| tail_cnt := t + ws_entry_size t |> |>.

Definition opened_world (self : Z) (th : mvrlu_thread_struct) (w : world) : world :=
  let t := tail_cnt (log th) in
  let chs := buffer (log th) + log_index t in
  set_thr self (opened_thread th)
    (set_ws (chs_obj chs) (WrtSet MAX_VERSION 0 t self)
      (set_chs chs (ws_hdr (chs_obj chs) (ws_entry_size t)) w)).

Lemma run_log_append_ws w self th :
  w_thr w !! self = Some th → cnt_ok (tail_cnt (log th)) → tail_ok (tail_cnt (log th)) →
  run (log_append_ws (log_of self)) w = Done false (opened_world self th w).
Proof.
  intros Hth Hc Ht. set (t := tail_cnt (log th)) in *. unfold log_append_ws.
  pose proof (ws_never_wraps t Hc Ht) as Hw.
  destruct (alloc_facts_hold t sizeof_wrt_set Hc obj_fits_ws) as [_ _ Hsz _ _ _ Hh _]; [apply Ht|].
  erewrite run_bind_done by (by apply run_log_alloc). unfold alloc_world, alloc_pos.
  fold t. rewrite Hw. cbn [orb]. fold (ws_entry_size t) in Hsz, Hh |- *.
  xstore. xstore. xload. erewrite run_bind_done by done. fold (set_ws).
  match goal with |- context [run _ ?x] => set (w1 := x) end.
  assert (w_thr w1 !! self = Some th) as Hth1 by done.
  assert (w_chs w1 !! (buffer (log th) + log_index t) =
          Some (ws_hdr (chs_obj (buffer (log th) + log_index t)) (ws_entry_size t))) as Hc1.
  { unfold w1. cell. }
  xstore. erewrite run_bind_done by (apply run_get_log_size'; cell).
  xstore. rewrite run_ret. f_equal. rewrite hdr_size_ws Hh. fold t.
  rewrite wrap64_small.
  { unfold cnt_ok in Hc. rewrite entry_size_ws in Hsz. zlia. }
  unfold opened_world, opened_thread, w1. fold t. rewrite log_to_thread_of. done.
Qed.

(** A freshly opened write set is well formed and empty. *)
Lemma opened_rep w self th :
  cnt_ok (tail_cnt (log th)) → tail_ok (tail_cnt (log th)) →
  let t := tail_cnt (log th) in
  let chs := buffer (log th) + log_index t in
  ws_rep (opened_world self th w) (buffer (log th)) self t [] (t + ws_entry_size t)
    (ws_hdr (chs_obj chs) (ws_entry_size t)) (WrtSet MAX_VERSION 0 t self).
Proof.
  intros Hc Ht t chs.
  destruct (alloc_facts_hold t sizeof_wrt_set Hc obj_fits_ws) as [_ _ Hsz _ _ _ Hh _]; [apply Ht|].
  fold (ws_entry_size t) in Hsz, Hh. rewrite entry_size_ws in Hsz.
  split; rewrite ?hdr_size_ws ?Hh; try done.
  - unfold opened_world. cell.
  - lia.
  - unfold cnt_ok in Hc. fold t in Hc. zlia.
  - unfold opened_world. cell.
  - constructor.
Qed.

(** ** Appending an entry *)

(** The state after [log_append_obj]: the bogus entry, if one was needed, has
    already moved the tail. *)
Definition begun_world (self : Z) (th : mvrlu_thread_struct) (p_act_ osz : Z) (w : world) : world :=
  let t := tail_cnt (log th) in
  let buf := buffer (log th) in
  let ls := entry_size osz in
  set_chs (buf + log_index (alloc_pos t ls))
    (copy_hdr (cur_wrt_set (log th)) p_act_ osz (alloc_size t ls false))
    (if wraps t ls then
       set_thr self (th <| log ::= λ g, g <| tail_cnt := alloc_pos t ls |> |>)
         (set_chs (buf + log_index t) (bogus_hdr t) w)
     else w).

Lemma run_log_append_obj w self th p_act_ osz :
  w_thr w !! self = Some th →
  run (log_append_obj (log_of self) p_act_ osz false) w =
  Done (buffer (log th) + log_index (alloc_pos (tail_cnt (log th)) (entry_size osz)),
        wraps (tail_cnt (log th)) (entry_size osz))
       (begun_world self th p_act_ osz w).
Proof.
  intros Hth. unfold log_append_obj. erewrite run_bind_done by (by apply run_log_alloc).
  rewrite orb_false_r. unfold alloc_world, begun_world.
  destruct (wraps _ _) eqn:Ew.
  - erewrite run_bind_done; [|apply run_load; apply log_get; cell].
    cbv beta. xstore. xstore. xstore. done.
  - xload. xstore. xstore. xstore. done.
Qed.

Definition ended_world (self ws : Z) (th : mvrlu_thread_struct) (s : mvrlu_wrt_set)
    (sz : Z) (b : bool) (w : world) : world :=
  set_ws ws (s <| num_objs := if b then wrap32 (wrap32 (num_objs s + 1) + 1)
                              else wrap32 (num_objs s + 1) |>)
    (set_thr self (th <| log ::= λ g, g <| tail_cnt := wrap64 (tail_cnt g + sz) |> |>) w).

Lemma run_log_append_end w self th s chs ch b :
  w_thr w !! self = Some th → w_ws w !! cur_wrt_set (log th) = Some s →
  w_chs w !! chs = Some ch →
  run (log_append_end (log_of self) chs b) w =
  Done () (ended_world self (cur_wrt_set (log th)) th s (hdr_size ch) b w).
Proof.
  intros Hth Hs Hch. unfold log_append_end, ended_world. xload.
  erewrite run_bind_done by (by apply run_get_log_size'). xstore. xload.
  destruct b; unfold when.
  - xload. xstore. xload. xstore_last. done.
  - xload. xstore. done.
Qed.

(** An entry that keeps its place keeps its size. *)
Lemma entries_insert m buf c l e a h :
  a ∉ l → entries m buf c l e → entries (<[a := h]> m) buf c l e.
Proof.
  intros Ha. apply entries_ext. intros a' Ha'. rewrite lookup_insert_ne //. intros ->. done.
Qed.

(** The entries [log_append_begin] adds to the open set at tail [t]. *)
Definition new_entries (buf t osz : Z) : list Z :=
  (if wraps t (entry_size osz) then [buf + log_index t] else []) ++
  [buf + log_index (alloc_pos t (entry_size osz))].

Lemma begun_entries w self th p_act_ osz c es :
  let t := tail_cnt (log th) in
  let buf := buffer (log th) in
  let w' := begun_world self th p_act_ osz w in
  cnt_ok t → t mod 64 = 0 → obj_fits osz →
  entries (w_chs w) buf c es t →
  alloc_pos t (entry_size osz) + alloc_size t (entry_size osz) false ≤ c + MVRLU_LOG_SIZE →
  entries (w_chs w') buf c (es ++ new_entries buf t osz)
    (alloc_pos t (entry_size osz) + alloc_size t (entry_size osz) false).
Proof.
  intros t buf w' Hc Hal Ho He Hroom.
  destruct (alloc_facts_hold t osz Hc Ho Hal) as [Hp _ Hsz _ _ _ Hh Hb].
  destruct (entry_size_spec osz Ho) as [_ Hes]. unfold obj_fits in Ho.
  set (p := alloc_pos t (entry_size osz)) in *. set (sz := alloc_size t (entry_size osz) false) in *.
  assert (p + sz ≤ ULONG_MAX) as Hmax by (unfold cnt_ok in Hc; fold t in Hc; zlia).
  assert (buf + log_index p ∉ es) as Hfp by (eapply entries_fresh; [exact He|lia]).
  unfold w', begun_world, new_entries. fold t buf p sz.
  pose proof (entries_insert (w_chs w) buf c es t (buf + log_index p)
    (copy_hdr (cur_wrt_set (log th)) p_act_ osz sz) Hfp He) as He1.
  assert (hdr_size (copy_hdr (cur_wrt_set (log th)) p_act_ osz sz) = sz) as Hcs
    by (rewrite hdr_size_copy; exact Hh).
  destruct (wraps t (entry_size osz)) eqn:Ew; cbn [app].
  - destruct (Hb eq_refl) as [Hbs Hpos].
    assert (log_index t ≠ log_index p) as Hne.
    { intros E. assert (t = p); [|lia]. apply log_index_inj_near; [|done]. fold p in Hp. zlia. }
    assert (buf + log_index t ∉ es) as Hft by (eapply entries_fresh; [exact He|lia]).
    cbn [w_chs set_chs set_thr field_map]. rewrite insert_insert_ne; [lia|].
    apply (entries_insert _ _ _ _ _ (buf + log_index t) (bogus_hdr t) Hft) in He1.
    eapply entries_snoc in He1; [|rewrite lookup_insert_eq; done|lia|lia].
    replace (t + hdr_size (bogus_hdr t)) with p in He1 by lia.
    eapply entries_snoc in He1; [|rewrite lookup_insert_ne; [lia|rewrite lookup_insert_eq; done]|lia|lia].
    rewrite Hcs in He1. rewrite -app_assoc in He1. exact He1.
  - assert (p = t) as Hpt by (unfold p, alloc_pos; by rewrite Ew).
    rewrite Hpt in He1 |- *. cbn [w_chs set_chs field_map].
    eapply entries_snoc in He1; [|rewrite lookup_insert_eq; done|lia|lia].
    by rewrite Hcs in He1.
Qed.

(** ** Open write sets *)

(** Thread [self] has an open write set whose header is at count [c] and whose
    entries are [es]; the tail of its log is right behind them. *)
Record open_ws (w : world) (self : Z) (th : mvrlu_thread_struct) (c : Z) (es : list Z)
    (h : mvrlu_cpy_hdr_struct) (s : mvrlu_wrt_set) : Prop := OpenWs {
  ow_thr : w_thr w !! self = Some th;
  ow_cur : cur_wrt_set (log th) = chs_obj (buffer (log th) + log_index c);
  ow_start : 0 ≤ c;
  ow_aligned : tail_cnt (log th) mod 64 = 0;
  ow_rep : ws_rep w (buffer (log th)) self c es (tail_cnt (log th)) h s;
}.

(** The tail behind an object appended at tail [t]. *)
Definition new_tail (t osz : Z) : Z :=
  alloc_pos t (entry_size osz) + alloc_size t (entry_size osz) false.

Lemma entries_length m buf c l e : entries m buf c l e → Z.of_nat (length l) ≤ e - c.
Proof. induction 1; cbn [length]; lia. Qed.

Lemma open_ws_tail w self th c es h s :
  open_ws w self th c es h s → c < tail_cnt (log th).
Proof. intros [_ _ _ _ [_ _ ? _ _ _ _ _ ?%entries_le]]. lia. Qed.

Lemma opened_open w self th :
  w_thr w !! self = Some th → cnt_ok (tail_cnt (log th)) → tail_ok (tail_cnt (log th)) →
  ∃ h s, open_ws (opened_world self th w) self (opened_thread th) (tail_cnt (log th)) [] h s ∧
         wrt_clk s = MAX_VERSION.
Proof.
  intros Hth Hc Ht. eexists _, _. split; [|shelve]. split.
  - unfold opened_world. cell.
  - done.
  - unfold cnt_ok in Hc. lia.
  - cbn. apply mod_add_multiple; [done|apply Ht|].
    by destruct (alloc_facts_hold (tail_cnt (log th)) sizeof_wrt_set Hc obj_fits_ws (proj1 Ht)).
  - exact (opened_rep w self th Hc Ht).
  Unshelve. done.
Qed.

(** What [log_append_obj] leaves alone: the header of the set, and the thread
    apart from the tail. *)
Lemma begun_keeps_hdr w self th p_act_ osz c h :
  let t := tail_cnt (log th) in
  cnt_ok t → t mod 64 = 0 → obj_fits osz → c < t → new_tail t osz ≤ c + MVRLU_LOG_SIZE →
  w_chs w !! (buffer (log th) + log_index c) = Some h →
  w_chs (begun_world self th p_act_ osz w) !! (buffer (log th) + log_index c) = Some h.
Proof.
  intros t Hc Hal Ho Hct Hroom Hh. unfold new_tail in Hroom.
  destruct (alloc_facts_hold t osz Hc Ho Hal) as [Hp _ Hsz _ _ _ _ _].
  destruct (entry_size_spec osz Ho) as [_ Hes]. unfold obj_fits in Ho.
  assert (∀ x, t ≤ x < c + MVRLU_LOG_SIZE → log_index x ≠ log_index c) as Hn.
  { intros x Hx E. symmetry in E. apply log_index_inj_near in E; lia. }
  pose proof (Hn t) as Hn1. pose proof (Hn (alloc_pos t (entry_size osz))) as Hn2.
  unfold begun_world. fold t. destruct (wraps _ _); cbn [w_chs set_chs set_thr field_map];
    rewrite !lookup_insert_ne; lia || done.
Qed.

Lemma begun_thr w self th p_act_ osz :
  w_thr w !! self = Some th →
  w_thr (begun_world self th p_act_ osz w) !! self =
  Some (th <| log ::= λ g, g <| tail_cnt := alloc_pos (tail_cnt (log th)) (entry_size osz) |> |>).
Proof.
  intros Hth. unfold begun_world, alloc_pos. destruct (wraps _ _); [cell|].
  cbn [w_thr set_chs field_map]. rewrite Hth. by destruct th as [???????[]??].
Qed.

Lemma begun_ws w self th p_act_ osz : w_ws (begun_world self th p_act_ osz w) = w_ws w.
Proof. unfold begun_world. by destruct (wraps _ _). Qed.

Lemma begun_chs w self th p_act_ osz :
  w_chs (begun_world self th p_act_ osz w) !!
    (buffer (log th) + log_index (alloc_pos (tail_cnt (log th)) (entry_size osz))) =
  Some (copy_hdr (cur_wrt_set (log th)) p_act_ osz
          (alloc_size (tail_cnt (log th)) (entry_size osz) false)).
Proof. unfold begun_world. cell. Qed.

(** The rest of [log_append_begin] and [log_append_end], with the caller's
    lock and copy of the object's bytes between them. *)
Lemma open_ws_append w self th c es h s p_act_ osz :
  let t := tail_cnt (log th) in
  let chs := buffer (log th) + log_index (alloc_pos t (entry_size osz)) in
  let b := wraps t (entry_size osz) in
  let w1 := begun_world self th p_act_ osz w in
  open_ws w self th c es h s → cnt_ok t → obj_fits osz → new_tail t osz ≤ c + MVRLU_LOG_SIZE →
  ∀ w2, w_thr w2 = w_thr w1 → w_chs w2 = w_chs w1 → w_ws w2 = w_ws w1 →
  let th' := th <| log ::= λ g, g <| tail_cnt := new_tail t osz |> |> in
  let s' := s <| num_objs := Z.of_nat (length (es ++ new_entries (buffer (log th)) t osz)) |> in
  let w3 := set_ws (cur_wrt_set (log th)) s' (set_thr self th' w2) in
  run (log_append_end (log_of self) chs b) w2 = Done () w3 ∧
  open_ws w3 self th' c (es ++ new_entries (buffer (log th)) t osz) h s' ∧
  tail_ok (new_tail t osz).
Proof.
  intros t chs b w1 Hopen Hc Ho Hroom w2 E1 E2 E3 th' s' w3.
  pose proof (open_ws_tail _ _ _ _ _ _ _ Hopen) as Hct.
  destruct Hopen as [Hth Hcur Hc0 Hal [H1 H2 H3 H4 H5 H6 H7 H8 H9]]. fold t in Hal, Hct, H9.
  pose proof (entries_length _ _ _ _ _ H9) as Hlen.
  destruct (alloc_facts_hold t osz Hc Ho Hal) as [Hp Hp64 Hsz Hsz64 Hfit Htail Hh Hb].
  destruct (entry_size_spec osz Ho) as [_ Hes].
  pose proof (begun_entries w self th p_act_ osz (c + hdr_size h) es Hc Hal Ho H9
    ltac:(unfold new_tail in Hroom; fold t; lia)) as He. fold t w1 in He.
  assert (new_tail t osz ≤ ULONG_MAX) as Hmax.
  { unfold cnt_ok in Hc. unfold new_tail, obj_fits in *. zlia. }
  split_and!; [| |exact Htail].
  - erewrite run_log_append_end; [|rewrite E1; by apply begun_thr| |rewrite E2; apply begun_chs].
    2:{ rewrite E3 begun_ws. cbn. rewrite Hcur. exact H5. }
    unfold ended_world, w3, s', th'. rewrite hdr_size_copy Hh. fold t b. f_equal.
    assert (∀ n, n = wrap64 (alloc_pos t (entry_size osz) + alloc_size t (entry_size osz) false) →
      th <| log ::= λ g, g <| tail_cnt := alloc_pos t (entry_size osz) |> |>
         <| log ::= λ g, g <| tail_cnt := wrap64 (tail_cnt g + alloc_size t (entry_size osz) false) |> |>
      = th <| log ::= λ g, g <| tail_cnt := n |> |>) as Eth by (by intros n ->).
    rewrite (Eth (new_tail t osz)).
    { rewrite wrap64_small //. unfold new_tail, cnt_ok in *. zlia. }
    f_equal. cbv beta delta [field_map]; cbn -[wrap32]. f_equal.
    rewrite H7 length_app. unfold new_entries. fold b. unfold new_tail, cnt_ok, obj_fits in *.
    assert (t ≤ c + MVRLU_LOG_SIZE) by zlia.
    destruct b; cbn [length app]; rewrite !wrap32_small; zlia.
  - split; [unfold w3; cell|done|done| |].
    + cbn. unfold new_tail. by apply mod_add_multiple.
    + unfold w3. split; cbn [buffer tail_cnt log th' field_map].
      * cbn. rewrite E2. apply begun_keeps_hdr; done.
      * done.
      * done.
      * lia.
      * rewrite -Hcur. cell.
      * done.
      * done.
      * done.
      * cbn. rewrite E2. exact He.
Qed.
