(* ===== verification/Commit.v ===== *)
(** * Commit and abort of a write set

    What [log_commit] and [log_abort] do to the objects a critical section has
    locked: a commit puts every copy in front of its object's versions, stamps
    it and drops the lock; an abort drops the locks and takes the log space
    back. *)

From S2P Require Import Prelude World OrdoClock Port Object Cells VersionLog LogLayout LogAppend.

(** ** The clock of a version *)

Definition clk_of (w : world) (h : mvrlu_cpy_hdr_struct) : option Z :=
  if decide (__wrt_clk h = MAX_VERSION) then wrt_clk <$> w_ws w !! p_wrt_clk h
  else Some (__wrt_clk h).

(** The clock of the version [p] points at; the object itself is older than
    any version. *)
Definition ver_clk (w : world) (p : Z) : option Z :=
  if decide (p = NULL) then Some MIN_VERSION
  else match w_chs w !! vobj_to_chs p with Some h => clk_of w h | None => None end.

Lemma run_get_wrt_clk_of w chs c k :
  w_chs w !! chs = Some c → clk_of w c = Some k → run (get_wrt_clk chs) w = Done k w.
Proof.
  intros Hc. unfold clk_of. intros Hk. rewrite (run_get_wrt_clk w chs c) //.
  - case_decide; [|done]. intros _. destruct (w_ws w !! p_wrt_clk c); by simplify_eq/=.
  - case_decide; [|by simplify_eq]. by destruct (w_ws w !! p_wrt_clk c); simplify_eq/=.
Qed.

(** ** Entries of an open write set *)

Definition obj_of (h : mvrlu_cpy_hdr_struct) : Z := vobj_to_ahs (p_act h).

(** The entry [chs] of an open set: a bogus entry, or a copy whose object is
    locked by it and whose newest version is not part of the set. *)
Definition entry_ok (w : world) (es : list Z) (chs : Z) : Prop :=
  ∃ h, w_chs w !! chs = Some h ∧
  (type (c_obj_hdr h) = TYPE_BOGUS ∨
   (type (c_obj_hdr h) = TYPE_COPY ∧
    ∃ a, w_ahs w !! obj_of h = Some a ∧ p_lock a = chs_obj chs ∧
         vobj_to_chs (p_copy (a_obj_hdr a)) ∉ es ∧
         is_Some (ver_clk w (p_copy (a_obj_hdr a))))).

(** The object a log entry stands for. *)
Definition entry_obj (w : world) (chs : Z) : Z :=
  match w_chs w !! chs with Some h => obj_of h | None => NULL end.

Definition is_copy (w : world) (chs : Z) : bool :=
  match w_chs w !! chs with Some h => bool_decide (type (c_obj_hdr h) = TYPE_COPY) | None => false end.

(** A copy holds the lock of its object. *)
Definition held (w : world) (chs : Z) : Prop :=
  ∃ h, w_chs w !! chs = Some h ∧
  (type (c_obj_hdr h) = TYPE_COPY →
   ∃ a, w_ahs w !! obj_of h = Some a ∧ p_lock a = chs_obj chs).

Lemma entry_ok_held w es chs : entry_ok w es chs → held w chs.
Proof.
  intros (h & E & [Hb|(_ & a & Ha & Hl & _)]); exists h; (split; [done|]); [congruence|eauto].
Qed.

(** Locks tell the entries of one set apart. *)
Lemma entry_obj_inj w chs1 chs2 :
  held w chs1 → held w chs2 → is_copy w chs1 = true → is_copy w chs2 = true →
  entry_obj w chs1 = entry_obj w chs2 → chs1 = chs2.
Proof.
  unfold is_copy, entry_obj. intros (h1 & E1 & H1) (h2 & E2 & H2). rewrite E1 E2.
  intros T1%bool_decide_eq_true T2%bool_decide_eq_true Eo.
  destruct (H1 T1) as (a1 & Ha1 & Hl1). destruct (H2 T2) as (a2 & Ha2 & Hl2).
  rewrite Eo Ha2 in Ha1. injection Ha1 as <-. unfold chs_obj in *. lia.
Qed.

(** ** Publishing one copy *)

(** What [ws_move_lock_to_copy] makes of an entry and of its object. *)
Definition moved_hdr (w : world) (freed : bool) (h : mvrlu_cpy_hdr_struct) : mvrlu_cpy_hdr_struct :=
  if decide (type (c_obj_hdr h) = TYPE_BOGUS) then h else
  if freed then h <| c_obj_hdr ::= λ o, o <| type := TYPE_FREE |> |> else
  if decide (obj_size (c_obj_hdr h) = 0) then h else
  match w_ahs w !! obj_of h with
  | Some a =>
      h <| c_obj_hdr ::= λ o, o <| p_copy := p_copy (a_obj_hdr a) |> |>
        <| wrt_clk_next := default 0 (ver_clk w (p_copy (a_obj_hdr a))) |>
  | None => h
  end.

Definition moved_act (freed : bool) (chs : Z) (h : mvrlu_cpy_hdr_struct)
    (a : mvrlu_act_hdr_struct) : mvrlu_act_hdr_struct :=
  if decide (type (c_obj_hdr h) = TYPE_BOGUS) then a else
  if freed then a else
  if decide (obj_size (c_obj_hdr h) = 0) then a else
  a <| a_obj_hdr ::= λ o, o <| p_copy := chs_obj chs |> |>.

Lemma run_push_version fuel w ahs chs a h k :
  w_ahs w !! ahs = Some a → w_chs w !! chs = Some h →
  vobj_to_chs (p_copy (a_obj_hdr a)) ≠ chs → ver_clk w (p_copy (a_obj_hdr a)) = Some k →
  run (push_version (S fuel) ahs chs (p_copy (a_obj_hdr a))) w =
  Done () (set_ahs ahs (a <| a_obj_hdr ::= λ o, o <| p_copy := chs_obj chs |> |>)
    (set_chs chs (h <| c_obj_hdr ::= λ o, o <| p_copy := p_copy (a_obj_hdr a) |> |>
                    <| wrt_clk_next := k |>) w)).
Proof.
  intros Ha Hh Hne Hk. unfold push_version. apply run_loop_exit.
  set (p := p_copy (a_obj_hdr a)) in *. xstore. rewrite run_bind.
  set (w1 := set_chs _ _ _).
  assert (run (if decide (p = NULL) then store (chs_loc wrt_clk_next chs) MIN_VERSION
     else wrt_clk_next_ ← get_wrt_clk (vobj_to_chs p); store (chs_loc wrt_clk_next chs) wrt_clk_next_) w1
    = Done () (set_chs chs (h <| c_obj_hdr ::= λ o, o <| p_copy := p |> |>
                    <| wrt_clk_next := k |>) w)) as ->.
  { unfold ver_clk in Hk. case_decide.
    - injection Hk as <-. unfold w1. xstore_last. done.
    - destruct (w_chs w !! vobj_to_chs p) as [h'|] eqn:Eh'; [|done]. cbn in Hk.
      erewrite run_bind_done.
      2:{ apply (run_get_wrt_clk_of w1 _ h' k); [unfold w1; cell|done]. }
      unfold w1. xstore_last. done. }
  cbn [outcome_bind]. rewrite run_bind. unfold smp_cas_v. rewrite run_act.
  erewrite ahs_hdr_get by cell. fold p. rewrite decide_True //. cbn [outcome_bind].
  erewrite ahs_hdr_put by cell. done.
Qed.

Lemma run_move_one fuel w es self th chs h n :
  w_thr w !! self = Some th → w_chs w !! chs = Some h → entry_ok w es chs → chs ∈ es →
  let freed := (0 <? n) && fp_mem (free_ptrs th) (ahs_obj (obj_of h)) in
  let w1 := set_chs chs (moved_hdr w freed h) w in
  run (move_lock_to_copy_one (S fuel) self chs n) w =
  Done (if decide (type (c_obj_hdr h) = TYPE_BOGUS) then n else if freed then n - 1 else n)
       (match w_ahs w !! obj_of h with
        | Some a => if decide (type (c_obj_hdr h) = TYPE_BOGUS) then w1
                    else set_ahs (obj_of h) (moved_act freed chs h a) w1
        | None => w1 end).
Proof.
  intros Hth Hh (h0 & Hh0 & Hok) Hin freed w1. rewrite Hh in Hh0. injection Hh0 as <-.
  unfold move_lock_to_copy_one, w1, moved_hdr, moved_act.
  assert (∀ h0, h0 = h → set_chs chs h0 w = w) as Hid.
  { intros h0 ->. by apply set_chs_id. }
  xload. case_decide as Eb.
  { rewrite Hid //. by case_match. }
  destruct Hok as [?|(Ec & a & Ha & Hl & Hfr & [k Hk])]; [done|].
  assert (∀ a0 w0, a0 = a → w_ahs w0 !! obj_of h = Some a → set_ahs (obj_of h) a0 w0 = w0) as Hida.
  { intros a0 w0 ->. apply set_ahs_id. }
  xload. rewrite run_bind. fold (obj_of h). rewrite Ha.
  assert (run (if 0 <? n then fp_is_free self (obj_of h) else mret false) w = Done freed w) as ->.
  { unfold freed. destruct (0 <? n); [|done]. unfold fp_is_free. xload. done. }
  cbn [outcome_bind]. destruct freed.
  - xstore. rewrite Hida //.
  - xload. case_decide as Es.
    + rewrite Hid // Hida //.
    + xload. erewrite run_bind_done; [|apply run_push_version; [done|done| |exact Hk]].
      2:{ intros E. apply Hfr. rewrite E. done. }
      rewrite run_ret Hk. done.
Qed.

(** ** Walks that handle one entry at a time *)

(** The objects of the copies among [es]. *)
Definition objs_of (w : world) (es : list Z) : list Z :=
  entry_obj w <$> filter (λ chs, is_copy w chs = true) es.

(** [w] is [w0] but for the entries [es] and their objects. *)
Definition only_entries (w0 : world) (es : list Z) (w : world) : Prop :=
  w = w0 <| w_chs := w_chs w |> <| w_ahs := w_ahs w |> ∧
  (∀ c, c ∉ es → w_chs w !! c = w_chs w0 !! c) ∧
  (∀ a, a ∉ objs_of w0 es → w_ahs w !! a = w_ahs w0 !! a).

Lemma only_entries_refl w es : only_entries w es w.
Proof. split_and!; [by destruct w|done|done]. Qed.

Lemma elem_of_objs_of w es chs :
  chs ∈ es → is_copy w chs = true → entry_obj w chs ∈ objs_of w es.
Proof. intros. apply list_elem_of_fmap_2. by apply list_elem_of_filter. Qed.

Lemma only_entries_set w0 es w chs h :
  only_entries w0 es w → chs ∈ es → only_entries w0 es (set_chs chs h w).
Proof.
  intros (E & Hc & Ha) Hin. split_and!; [rewrite E; by destruct w0| |exact Ha].
  intros c Hn. cbn. rewrite lookup_insert_ne; [set_solver|by apply Hc].
Qed.

Lemma only_entries_set_act w0 es w o a :
  only_entries w0 es w → o ∈ objs_of w0 es → only_entries w0 es (set_ahs o a w).
Proof.
  intros (E & Hc & Ha) Hin. split_and!; [rewrite E; by destruct w0|exact Hc|].
  intros c Hn. cbn. rewrite lookup_insert_ne; [set_solver|by apply Ha].
Qed.

(** The cells of entry [chs] in [w], given those in [w0]. *)
Definition entry_cells (w0 : world) (fh : mvrlu_cpy_hdr_struct → mvrlu_cpy_hdr_struct)
    (fa : mvrlu_cpy_hdr_struct → mvrlu_act_hdr_struct → mvrlu_act_hdr_struct)
    (chs : Z) (w : world) : Prop :=
  w_chs w !! chs = fh <$> w_chs w0 !! chs ∧
  (is_copy w0 chs = true →
   w_ahs w !! entry_obj w0 chs =
     match w_chs w0 !! chs with
     | Some h => fa h <$> w_ahs w0 !! entry_obj w0 chs
     | None => None
     end).

(** Changing the cells of one entry leaves those of another alone. *)
Lemma entry_cells_frame w0 fh fa chs chs' h' a' w :
  held w0 chs → held w0 chs' → chs ≠ chs' → is_copy w0 chs' = true →
  entry_cells w0 fh fa chs w →
  entry_cells w0 fh fa chs (set_ahs (entry_obj w0 chs') a' (set_chs chs' h' w)).
Proof.
  intros H1 H2 Hne Hc' [Hh Ha]. split.
  - cbn. by rewrite lookup_insert_ne.
  - intros Hc. cbn. rewrite lookup_insert_ne; [|by apply Ha].
    intros E. apply Hne. symmetry. by eapply entry_obj_inj.
Qed.

Lemma entry_cells_frame_chs w0 fh fa chs chs' h' w :
  chs ≠ chs' → entry_cells w0 fh fa chs w → entry_cells w0 fh fa chs (set_chs chs' h' w).
Proof. intros Hne [Hh Ha]. split; [cbn; by rewrite lookup_insert_ne|exact Ha]. Qed.

(** An entry whose cells are still those of [w0]. *)
Definition untouched (w0 : world) : Z → world → Prop := entry_cells w0 id (λ _, id).

Lemma untouched_ok w0 es chs w :
  only_entries w0 es w → untouched w0 chs w → entry_ok w0 es chs → entry_ok w es chs.
Proof.
  intros (E & Hc & Ha) [Hh Ho] (h & Eh & Hok). exists h.
  rewrite Hh Eh. split; [done|]. destruct Hok as [?|(Ec & a & Ha0 & Hl & Hfr & Hk)]; [by left|right].
  split; [done|]. exists a. unfold entry_obj, is_copy in Ho. rewrite Eh /= Ha0 in Ho.
  split_and!; [|done|done|].
  - rewrite Ho //. by apply bool_decide_eq_true.
  - unfold ver_clk in *. case_decide; [done|]. rewrite Hc // E. exact Hk.
Qed.

Lemma untouched_ver_clk w0 es chs w h a :
  only_entries w0 es w → untouched w0 chs w → entry_ok w0 es chs →
  w_chs w0 !! chs = Some h → type (c_obj_hdr h) ≠ TYPE_BOGUS → w_ahs w0 !! obj_of h = Some a →
  ver_clk w (p_copy (a_obj_hdr a)) = ver_clk w0 (p_copy (a_obj_hdr a)).
Proof.
  intros (E & Hc & _) _ (h' & Eh & Hok) Eh' Hb Ha. rewrite Eh in Eh'. injection Eh' as ->.
  destruct Hok as [?|(_ & a' & Ha' & _ & Hfr & _)]; [done|]. rewrite Ha in Ha'. injection Ha' as <-.
  unfold ver_clk. case_decide; [done|]. rewrite Hc // E. done.
Qed.

Section move.
Context (w0 : world) (self : Z) (th : mvrlu_thread_struct) (es : list Z).
Context (Hth : w_thr w0 !! self = Some th) (Hnd : NoDup es).
Context (Hok : ∀ chs, chs ∈ es → entry_ok w0 es chs).

(** Whether the section asked to free the object of entry [chs]. *)
Definition freed (chs : Z) : bool := fp_mem (free_ptrs th) (ahs_obj (entry_obj w0 chs)).

(** The entries among [l] whose objects are to be freed. *)
Definition to_free (l : list Z) : list Z :=
  filter (λ chs, is_copy w0 chs = true ∧ freed chs = true) l.

Definition moved (chs : Z) : world → Prop :=
  entry_cells w0 (moved_hdr w0 (freed chs)) (moved_act (freed chs) chs) chs.

Lemma to_free_cons chs l :
  length (to_free (chs :: l)) =
  ((if is_copy w0 chs && freed chs then 1 else 0) + length (to_free l))%nat.
Proof.
  unfold to_free. rewrite filter_cons.
  destruct (decide _) as [[-> ->]|Hn]; [done|].
  destruct (is_copy w0 chs), (freed chs); try done. by destruct Hn.
Qed.

Lemma move_step fuel chs l n w :
  chs ∈ es → only_entries w0 es w → untouched w0 chs w →
  Z.of_nat (length (to_free (chs :: l))) ≤ n →
  ∃ n' w', run (move_lock_to_copy_one (S fuel) self chs n) w = Done n' w' ∧
    only_entries w0 es w' ∧ Z.of_nat (length (to_free l)) ≤ n' ∧ moved chs w' ∧
    ∀ chs', chs' ∈ es → chs' ≠ chs →
      (untouched w0 chs' w → untouched w0 chs' w') ∧ (moved chs' w → moved chs' w').
Proof.
  intros Hin Hon Hun Hn. pose proof (Hok _ Hin) as Hok0.
  pose proof (untouched_ok _ _ _ _ Hon Hun Hok0) as Hok1.
  pose proof (λ h a, untouched_ver_clk w0 es chs w h a Hon Hun Hok0) as Hver.
  destruct Hok0 as (h & Eh & Hcase). pose proof Hun as [Hch Hah].
  rewrite Eh /= in Hch. assert (w_thr w !! self = Some th) as Hth1.
  { destruct Hon as [-> _]. exact Hth. }
  rewrite (run_move_one fuel w es self th chs h n) //.
  rewrite to_free_cons in Hn.
  assert (is_copy w0 chs = bool_decide (type (c_obj_hdr h) = TYPE_COPY)) as Ecp
    by (unfold is_copy; by rewrite Eh).
  assert (entry_obj w0 chs = obj_of h) as Eob by (unfold entry_obj; by rewrite Eh).
  destruct Hcase as [Eb|(Ec & a & Ha & Hl & Hfr & Hk)].
  - (* bogus *)
    rewrite Ecp Eb bool_decide_false //= in Hn.
    exists n, (set_chs chs h w). unfold moved_hdr. rewrite !decide_True //. split_and!.
    + destruct (w_ahs w !! obj_of h); by rewrite ?decide_True.
    + by apply only_entries_set.
    + lia.
    + split; [|by rewrite Ecp Eb bool_decide_false].
      cbn. rewrite lookup_insert_eq Eh /= /moved_hdr decide_True //.
    + intros chs' Hin' Hne. split; by apply entry_cells_frame_chs.
  - assert (is_copy w0 chs = true) as Hcp by (rewrite Ecp; by apply bool_decide_eq_true).
    assert (type (c_obj_hdr h) ≠ TYPE_BOGUS) as Hnb by (rewrite Ec; done).
    rewrite Hcp /= in Hn. specialize (Hah Hcp). rewrite Eh /= Eob Ha /= in Hah.
    assert ((0 <? n) && fp_mem (free_ptrs th) (ahs_obj (obj_of h)) = freed chs) as ->.
    { unfold freed. rewrite Eob. destruct (fp_mem _ _) eqn:Ef; [|by rewrite andb_false_r].
      rewrite andb_true_r. apply Z.ltb_lt.
      unfold freed in Hn. rewrite Eob Ef in Hn. lia. }
    assert (moved_hdr w (freed chs) h = moved_hdr w0 (freed chs) h) as Emh.
    { unfold moved_hdr. rewrite Hah Ha. cbv beta iota. by rewrite (Hver h a Eh Hnb Ha). }
    rewrite Emh Hah decide_False // decide_False // -Eob.
    eexists _, _. split; [done|]. split_and!.
    + apply only_entries_set_act; [by apply only_entries_set|by apply elem_of_objs_of].
    + destruct (freed chs); lia.
    + split; cbn; rewrite lookup_insert_eq Eh //=. intros _. by rewrite Eob Ha.
    + intros chs' Hin' Hne. split; intros; apply entry_cells_frame; eauto using entry_ok_held.
Qed.

Lemma run_move_all fuel n :
  Z.of_nat (length (to_free es)) ≤ n →
  ∃ n' w', run (fold_each es (move_lock_to_copy_one (S fuel) self) n) w0 = Done n' w' ∧
    only_entries w0 es w' ∧ ∀ chs, chs ∈ es → moved chs w'.
Proof.
  intros Hn.
  destruct (run_fold_each_frame (move_lock_to_copy_one (S fuel) self) (untouched w0) moved
    (λ l n w, only_entries w0 es w ∧ Z.of_nat (length (to_free l)) ≤ n) es [] n w0)
    as (n' & w' & Hr & [Ho _] & Hq).
  - done.
  - split; [apply only_entries_refl|done].
  - intros chs Hin. split; [by destruct (w_chs w0 !! chs)|]. intros _.
    destruct (Hok _ Hin) as (h & -> & _). cbn. by destruct (w_ahs w0 !! _).
  - set_solver.
  - intros chs l m w Hin [Ho Hm] Hu.
    destruct (move_step fuel chs l m w Hin Ho Hu Hm) as (m' & w' & ? & ? & ? & ? & Hfr).
    exists m', w'. split_and!; auto.
  - exists n', w'. split_and!; auto.
Qed.
End move.

(** ** Dropping the locks *)

(** What [ws_unlock] makes of an entry and of its object. *)
Definition unlocked_hdr (clk : Z) (h : mvrlu_cpy_hdr_struct) : mvrlu_cpy_hdr_struct :=
  if decide (type (c_obj_hdr h) = TYPE_BOGUS) then h else
  if decide (clk = MAX_VERSION) then h else h <| __wrt_clk := clk |>.

Definition unlocked_act (h : mvrlu_cpy_hdr_struct) (a : mvrlu_act_hdr_struct)
    : mvrlu_act_hdr_struct := a <| p_lock := NULL |>.

Lemma run_unlock_one w clk chs h :
  w_chs w !! chs = Some h → held w chs →
  run (unlock_one clk chs) w =
  Done () (let w1 := set_chs chs (unlocked_hdr clk h) w in
           if decide (type (c_obj_hdr h) = TYPE_COPY) then
             match w_ahs w !! obj_of h with
             | Some a => set_ahs (obj_of h) (unlocked_act h a) w1
             | None => w1
             end
           else w1).
Proof.
  intros Hh (h0 & Hh0 & Hheld). rewrite Hh in Hh0. injection Hh0 as <-.
  unfold unlock_one, unlocked_hdr, unlocked_act.
  assert (∀ h0, h0 = h → set_chs chs h0 w = w) as Hid.
  { intros h0 ->. by apply set_chs_id. }
  xload. case_decide as Eb; [rewrite Hid // decide_False //; congruence|].
  destruct (decide (clk = MAX_VERSION)) as [->|Hclk].
  - rewrite run_bind. unfold when. cbn [negb]. rewrite Z.eqb_refl run_ret. cbn [outcome_bind].
    xload. rewrite Hid //. case_decide as Ec; [|done].
    destruct (Hheld Ec) as (a & Ha & _). rewrite Ha. xload. fold (obj_of h). xstore_last. done.
  - unfold when. rewrite (proj2 (Z.eqb_neq _ _) Hclk) /=. xstore. xload. cbn [type c_obj_hdr field_map].
    case_decide as Ec; [|done].
    destruct (Hheld Ec) as (a & Ha & _). rewrite Ha. xload. fold (obj_of h). xstore_last. done.
Qed.

Lemma get_wrt_clk_layout chs : keeps same_layout (get_wrt_clk chs).
Proof. unfold get_wrt_clk. keeps_layout. Qed.

Lemma push_version_layout fuel ahs chs p : keeps same_layout (push_version fuel ahs chs p).
Proof. unfold push_version, get_wrt_clk. keeps_layout. Qed.

Lemma move_one_layout fuel self chs n : keeps same_layout (move_lock_to_copy_one fuel self chs n).
Proof.
  unfold move_lock_to_copy_one, fp_is_free. keeps_layout; apply push_version_layout.
Qed.

Lemma unlock_one_layout clk chs : keeps same_layout (unlock_one clk chs).
Proof. unfold unlock_one. keeps_layout. Qed.

Section unlock.
Context (w0 : world) (es : list Z) (clk : Z).
Context (Hnd : NoDup es) (Hheld : ∀ chs, chs ∈ es → held w0 chs).

Definition unlocked : Z → world → Prop := entry_cells w0 (unlocked_hdr clk) unlocked_act.

Lemma untouched_held chs w : held w0 chs → untouched w0 chs w → held w chs.
Proof.
  intros (h & Eh & Ha) [Hh Ho]. exists h. unfold entry_obj, is_copy in Ho.
  rewrite Hh Eh. rewrite Eh in Ho. split; [done|]. intros Ec. destruct (Ha Ec) as (a & Ha0 & Hl).
  exists a. rewrite Ho ?Ha0 //. by apply bool_decide_eq_true.
Qed.

Lemma unlock_step chs w :
  chs ∈ es → only_entries w0 es w → untouched w0 chs w →
  ∃ w', run (unlock_one clk chs) w = Done () w' ∧ only_entries w0 es w' ∧ unlocked chs w' ∧
    ∀ chs', chs' ∈ es → chs' ≠ chs →
      (untouched w0 chs' w → untouched w0 chs' w') ∧ (unlocked chs' w → unlocked chs' w').
Proof.
  intros Hin Hon Hun. pose proof (untouched_held _ _ (Hheld _ Hin) Hun) as Hh1.
  destruct (Hheld _ Hin) as (h & Eh & Ha). destruct Hun as [Hch Hah]. rewrite Eh /= in Hch.
  rewrite (run_unlock_one w clk chs h) //. cbv zeta. eexists. split; [done|].
  assert (is_copy w0 chs = bool_decide (type (c_obj_hdr h) = TYPE_COPY)) as Ecp
    by (unfold is_copy; by rewrite Eh).
  assert (entry_obj w0 chs = obj_of h) as Eob by (unfold entry_obj; by rewrite Eh).
  case_decide as Ec.
  - destruct (Ha Ec) as (a & Ha0 & Hl).
    assert (is_copy w0 chs = true) as Hcp by (rewrite Ecp; by apply bool_decide_eq_true).
    specialize (Hah Hcp). rewrite Eh /= Eob Ha0 /= in Hah. rewrite Hah -Eob.
    split_and!.
    + apply only_entries_set_act; [by apply only_entries_set|by apply elem_of_objs_of].
    + split; cbn; rewrite lookup_insert_eq Eh //=. intros _. by rewrite Eob Ha0.
    + intros chs' Hin' Hne. split; intros; apply entry_cells_frame; eauto.
  - split_and!.
    + by apply only_entries_set.
    + split; [cbn; by rewrite lookup_insert_eq Eh|]. rewrite Ecp bool_decide_false //.
    + intros chs' Hin' Hne. split; by apply entry_cells_frame_chs.
Qed.

Lemma run_unlock_all :
  ∃ w', run (fold_each es (λ chs _, unlock_one clk chs) ()) w0 = Done () w' ∧
    only_entries w0 es w' ∧ ∀ chs, chs ∈ es → unlocked chs w'.
Proof.
  destruct (run_fold_each_frame (λ chs _, unlock_one clk chs) (untouched w0) unlocked
    (λ _ _ w, only_entries w0 es w) es [] () w0) as ([] & w' & Hr & Ho & Hq).
  - done.
  - apply only_entries_refl.
  - intros chs Hin. split; [by destruct (w_chs w0 !! chs)|]. intros _.
    destruct (Hheld _ Hin) as (h & -> & _). cbn. by destruct (w_ahs w0 !! _).
  - set_solver.
  - intros chs l [] w Hin Ho Hu. destruct (unlock_step chs w Hin Ho Hu) as (w' & ? & ? & ? & ?).
    exists (), w'. split_and!; auto.
  - exists w'. split_and!; auto.
Qed.
End unlock.

(** Every object to be freed that the set has locked is met before the count
    of [free_ptrs] runs out. *)
Lemma fp_mem_elem fp p :
  fp_mem fp p = true ↔ p ∈ omap (λ i, ptrs fp !! Z.of_nat i) (seq 0 (Z.to_nat (num_ptrs fp))).
Proof.
  unfold fp_mem. rewrite existsb_exists list_elem_of_omap. split.
  - intros (i & Hi & Hp%bool_decide_eq_true). exists i. split; [by apply list_elem_of_In|done].
  - intros (i & Hi & Hp). exists i. split; [by apply list_elem_of_In|by apply bool_decide_eq_true].
Qed.

Lemma length_omap_le {A B} (f : A → option B) l : (length (omap f l) ≤ length l)%nat.
Proof. induction l as [|x l IH]; [done|]. cbn. destruct (f x); cbn; lia. Qed.

Lemma to_free_le w th es :
  NoDup es → (∀ chs, chs ∈ es → held w chs) → 0 ≤ num_ptrs (free_ptrs th) →
  Z.of_nat (length (to_free w th es)) ≤ num_ptrs (free_ptrs th).
Proof.
  intros Hnd Hh Hn. set (L := omap (λ i, ptrs (free_ptrs th) !! Z.of_nat i)
    (seq 0 (Z.to_nat (num_ptrs (free_ptrs th))))).
  assert ((λ chs, ahs_obj (entry_obj w chs)) <$> to_free w th es ⊆+ L) as Hsub.
  { apply NoDup_submseteq.
    - apply NoDup_fmap_2_strong; [|by apply NoDup_filter].
      intros c1 c2 [[H1 _] I1]%list_elem_of_filter [[H2 _] I2]%list_elem_of_filter E.
      apply (entry_obj_inj w); auto. unfold ahs_obj in E. lia.
    - intros p (chs & -> & [[_ Hf] _]%list_elem_of_filter)%list_elem_of_fmap.
      by apply fp_mem_elem. }
  apply submseteq_length in Hsub. rewrite length_fmap in Hsub.
  pose proof (length_omap_le (λ i, ptrs (free_ptrs th) !! Z.of_nat i)
    (seq 0 (Z.to_nat (num_ptrs (free_ptrs th))))) as Hl.
  fold L in Hl. rewrite length_seq in Hl. lia.
Qed.

(** ** The write set as a whole *)

Lemma ws_rep_layout w w' buf self c es e h s s' :
  ws_rep w buf self c es e h s → same_layout w w' →
  w_chs w' !! (buf + log_index c) = Some h →
  w_ws w' !! chs_obj (buf + log_index c) = Some s' →
  num_objs s' = num_objs s → start_tail_cnt s' = start_tail_cnt s → ws_thread s' = ws_thread s →
  ws_rep w' buf self c es e h s'.
Proof.
  intros [] [_ Hl] ?? E1 E2 E3. split; try done; try congruence.
  eapply entries_ext; [|eassumption]. intros a _. by rewrite Hl.
Qed.

(** What the open write set of a section looks like. *)
Record section_ws (w : world) (self : Z) (th : mvrlu_thread_struct) (c : Z) (es : list Z)
    (h : mvrlu_cpy_hdr_struct) (s : mvrlu_wrt_set) : Prop := SectionWs {
  sw_open : open_ws w self th c es h s;
  sw_room : tail_cnt (log th) ≤ c + MVRLU_LOG_SIZE;
  sw_entries : ∀ chs, chs ∈ es → entry_ok w es chs;
  sw_nfree : 0 ≤ num_ptrs (free_ptrs th);
}.

Section set_facts.
Context {w : world} {self : Z} {th : mvrlu_thread_struct} {c : Z} {es : list Z}.
Context {h : mvrlu_cpy_hdr_struct} {s : mvrlu_wrt_set}.
Context (H : section_ws w self th c es h s).

Lemma section_NoDup : NoDup es.
Proof.
  destruct H as [[_ _ _ _ []] Hr _ _]. eapply entries_NoDup; [eassumption|]. lia.
Qed.

Lemma section_hdr_out : buffer (log th) + log_index c ∉ es.
Proof.
  destruct H as [[_ _ _ _ [_ _ Hsz _ _ _ _ _ He]] Hr _ _]. intros Hin.
  destruct (entries_elem _ _ _ _ _ _ He Hin) as (c' & Hc & E & _).
  assert (c = c'); [|lia]. apply log_index_inj_near; lia.
Qed.

Lemma section_held chs : chs ∈ es → held w chs.
Proof. intros Hin. by eapply entry_ok_held, sw_entries. Qed.

(** A walk over the set in a state with the same entries. *)
Lemma section_walk {A} w' (body : Z → A → kprog A) a s' :
  only_entries w es w' ∨ only_entries (set_ws (cur_wrt_set (log th)) s' w) es w' →
  same_layout w w' →
  w_ws w' !! cur_wrt_set (log th) = Some s' →
  num_objs s' = num_objs s → start_tail_cnt s' = start_tail_cnt s → ws_thread s' = ws_thread s →
  (∀ chs a, keeps same_layout (body chs a)) →
  run (ws_for_each (log_of self) (cur_wrt_set (log th)) body a) w' =
  outcome_bind (run (fold_each es body a) w') (λ a' w', Done (tail_cnt (log th), a') w').
Proof.
  intros Ho Hl Hs E1 E2 E3 Hb. pose proof section_hdr_out as Hout.
  destruct H as [[Hth Hcur Hc0 _ Hrep] _ _ _]. rewrite Hcur. rewrite Hcur in Hs.
  assert (w_thr w' !! self = Some th ∧ w_chs w' !! (buffer (log th) + log_index c) = Some h) as [Hth' Hh'].
  { destruct Hrep. destruct Ho as [(E & Hc & _)|(E & Hc & _)]; (split; [by rewrite E|by rewrite Hc]). }
  eapply run_ws_for_each_rep; [done| |done|done].
  by eapply ws_rep_layout.
Qed.
End set_facts.

(** [ws_move_lock_to_copy] publishes the copies. *)
Lemma run_ws_move fuel w self th c es h s :
  section_ws w self th c es h s →
  ∃ w', run (ws_move_lock_to_copy (S fuel) (log_of self) self) w = Done () w' ∧
    only_entries w es w' ∧ same_layout w w' ∧ ∀ chs, chs ∈ es → moved w th chs w'.
Proof.
  intros H. pose proof (section_NoDup H) as Hnd. pose proof H as [Hop Hr Hok Hn].
  destruct (run_move_all w self th es (ow_thr _ _ _ _ _ _ _ Hop) Hnd Hok fuel (num_ptrs (free_ptrs th)))
    as (n' & w' & Hrun & Hon & Hmv).
  { apply to_free_le; [done| |done]. apply (section_held H). }
  exists w'. split; [|split_and!; auto].
  - unfold ws_move_lock_to_copy. destruct Hop as [Hth Hcur _ _ []]. xload. xload.
    rewrite run_bind. erewrite (section_walk H).
    + rewrite Hrun. done.
    + left. apply only_entries_refl.
    + done.
    + by rewrite Hcur.
    + done.
    + done.
    + done.
    + intros. apply move_one_layout.
  - eapply keeps_run; [apply _| |exact Hrun]. apply keeps_fold_each. intros. apply move_one_layout.
Qed.

(** ** Commit *)

(** What a commit at clock [clk] makes of an entry and of its object. *)
Definition committed_hdr (w : world) (th : mvrlu_thread_struct) (clk chs : Z)
    (h : mvrlu_cpy_hdr_struct) : mvrlu_cpy_hdr_struct :=
  unlocked_hdr clk (moved_hdr w (freed w th chs) h).
Definition committed_act (w : world) (th : mvrlu_thread_struct) (chs : Z)
    (h : mvrlu_cpy_hdr_struct) (a : mvrlu_act_hdr_struct) : mvrlu_act_hdr_struct :=
  if freed w th chs then a else unlocked_act h (moved_act false chs h a).

Lemma moved_obj w th chs h :
  obj_of (moved_hdr w (freed w th chs) h) = obj_of h.
Proof.
  unfold moved_hdr. case_decide; [done|]. destruct (freed _ _ _); [done|].
  case_decide; [done|]. by destruct (w_ahs w !! obj_of h).
Qed.

Lemma moved_type w th chs h :
  type (c_obj_hdr h) = TYPE_COPY →
  type (c_obj_hdr (moved_hdr w (freed w th chs) h)) =
  (if freed w th chs then TYPE_FREE else TYPE_COPY).
Proof.
  intros E. unfold moved_hdr. rewrite decide_False; [congruence|].
  destruct (freed _ _ _); [done|]. case_decide; [done|]. by destruct (w_ahs w !! obj_of h).
Qed.

Lemma moved_type_not w th chs h :
  type (c_obj_hdr h) = TYPE_BOGUS → moved_hdr w (freed w th chs) h = h.
Proof. intros E. unfold moved_hdr. by rewrite decide_True. Qed.

(** The cells of an entry between the two walks of a commit. *)
Lemma moved_cells w es th chs w1 :
  entry_ok w es chs → moved w th chs w1 →
  ∃ h, w_chs w !! chs = Some h ∧ w_chs w1 !! chs = Some (moved_hdr w (freed w th chs) h) ∧
    entry_obj w1 chs = entry_obj w chs ∧
    is_copy w1 chs = is_copy w chs && negb (freed w th chs) ∧
    (is_copy w chs = true → ∃ a, w_ahs w !! entry_obj w chs = Some a ∧ p_lock a = chs_obj chs ∧
       w_ahs w1 !! entry_obj w chs = Some (moved_act (freed w th chs) chs h a)).
Proof.
  intros (h & Eh & Hc) [Hh Ha]. exists h. rewrite Eh /= in Hh. split; [done|]. split; [done|].
  unfold entry_obj, is_copy in *. rewrite Eh Hh moved_obj in Ha |- *. split; [done|].
  destruct Hc as [Eb|(Ec & a & Ha0 & Hl & _)].
  - rewrite moved_type_not // Eb !bool_decide_false //.
  - rewrite moved_type // Ec. split; [by destruct (freed _ _ _)|].
    intros _. exists a. rewrite Ha ?Ha0 //. by apply bool_decide_eq_true.
Qed.

Lemma moved_act_lock f chs h a : p_lock (moved_act f chs h a) = p_lock a.
Proof. unfold moved_act. case_decide; [done|]. destruct f; [done|]. by case_decide. Qed.

Lemma moved_held w es th chs w1 : entry_ok w es chs → moved w th chs w1 → held w1 chs.
Proof.
  intros Hok Hm. destruct (moved_cells _ _ _ _ _ Hok Hm) as (h & Eh & Eh1 & Eo & Ec & Ha).
  exists (moved_hdr w (freed w th chs) h). split; [done|]. intros Et.
  destruct Ha as (a & _ & Hl & Ha1).
  { unfold is_copy in Ec at 1. rewrite Eh1 bool_decide_true // in Ec. by destruct (is_copy w chs). }
  exists (moved_act (freed w th chs) chs h a). rewrite moved_act_lock moved_obj. split; [|done].
  revert Ha1. unfold entry_obj. by rewrite Eh.
Qed.

(** Publishing and unlocking together. *)
Lemma committed_cells w th es clk w1 w3 w' :
  (∀ chs, chs ∈ es → entry_ok w es chs) →
  (∀ chs, chs ∈ es → moved w th chs w1) →
  w_chs w3 = w_chs w1 → w_ahs w3 = w_ahs w1 → only_entries w3 es w' →
  (∀ chs, chs ∈ es → unlocked w3 clk chs w') →
  ∀ chs, chs ∈ es → entry_cells w (committed_hdr w th clk chs) (committed_act w th chs) chs w'.
Proof.
  intros Hok Hmv Ec3 Ea3 (_ & _ & Hoa) Hun chs Hin.
  destruct (moved_cells _ _ _ _ _ (Hok _ Hin) (Hmv _ Hin)) as (h & Eh & Eh1 & Eo & Ec & Ha).
  destruct (Hun _ Hin) as [Uh Ua]. unfold is_copy, entry_obj in Ua. rewrite Ec3 Ea3 in Uh Ua.
  rewrite Eh1 moved_obj /= in Uh Ua.
  split; [by rewrite Eh|]. intros Hcp. destruct (Ha Hcp) as (a & Ha0 & Hl & Ha1).
  rewrite Eh Ha0 /=. unfold committed_act.
  assert (entry_obj w chs = obj_of h) as Eobj by (unfold entry_obj; by rewrite Eh).
  rewrite Eobj in Ha0, Ha1 |- *.
  rewrite Hcp /= in Ec. unfold is_copy in Ec at 1. rewrite Eh1 in Ec.
  destruct (freed w th chs) eqn:Ef; cbn [negb] in Ec.
  - rewrite Hoa ?Ea3 ?Ha1.
    + intros (chs' & E' & [Hc' Hin']%list_elem_of_filter)%list_elem_of_fmap.
      assert (held w1 chs') as Hh' by (eapply moved_held; eauto).
      destruct (moved_cells _ _ _ _ _ (Hok _ Hin') (Hmv _ Hin')) as (h' & Ehh' & Eh1' & Eo' & Ec' & _).
      unfold is_copy, entry_obj in Hc', E'. rewrite Ec3 in Hc', E'.
      fold (entry_obj w1 chs') (is_copy w1 chs') in Hc', E'.
      rewrite Ec' in Hc'. apply andb_true_iff in Hc' as [Hc' Hf'].
      assert (chs = chs') as <-; [|by rewrite Ef in Hf'].
      apply (entry_obj_inj w); eauto using entry_ok_held. congruence.
    + unfold moved_act. by destruct (decide _).
  - rewrite Ec in Ua. rewrite Ua // Ha1. done.
Qed.

(** The thread and the whole state after a commit. *)
Definition closed_thread (th : mvrlu_thread_struct) : mvrlu_thread_struct :=
  th <| log ::= λ g, g <| cur_wrt_set := NULL |> |>
     <| free_ptrs ::= λ f, f <| num_ptrs := 0 |> |>.

Lemma run_ws_unlock w self th c es h s w2 s2 :
  section_ws w self th c es h s →
  only_entries (set_ws (cur_wrt_set (log th)) s2 w) es w2 → same_layout w w2 →
  w_ws w2 !! cur_wrt_set (log th) = Some s2 →
  num_objs s2 = num_objs s → start_tail_cnt s2 = start_tail_cnt s → ws_thread s2 = ws_thread s →
  (∀ chs, chs ∈ es → held w2 chs) → ∀ k,
  ∃ w', run (ws_unlock (log_of self) k) w2 = Done () w' ∧
    only_entries w2 es w' ∧ ∀ chs, chs ∈ es → unlocked w2 (wrt_clk s2) chs w'.
Proof.
  intros H Ho Hl Hs E1 E2 E3 Hh k.
  destruct (run_unlock_all w2 es (wrt_clk s2) (section_NoDup H) Hh) as (w' & Hr & Hon & Hun).
  exists w'. split; [|done]. unfold ws_unlock.
  assert (w_thr w2 !! self = Some th) as Hth by (destruct Ho as [-> _]; apply (sw_open _ _ _ _ _ _ _ H)).
  xload. xload. rewrite run_bind. erewrite (section_walk H w2 _ _ s2); [by rewrite Hr|eauto..|].
  intros. apply unlock_one_layout.
Qed.

(** [w'] is [w] after the commit at [clk] of the set [es] of thread [self]. *)
Record committed (w : world) (self : Z) (th : mvrlu_thread_struct) (es : list Z)
    (s : mvrlu_wrt_set) (clk : Z) (tsc : list Z) (w' : world) : Prop := Committed {
  cm_frame : w' = w <| w_thr := <[self := closed_thread th]> (w_thr w) |>
                    <| w_ws := <[cur_wrt_set (log th) := s <| wrt_clk := clk |>]> (w_ws w) |>
                    <| w_tsc := tsc |> <| w_chs := w_chs w' |> <| w_ahs := w_ahs w' |>;
  cm_chs : ∀ c, c ∉ es → w_chs w' !! c = w_chs w !! c;
  cm_ahs : ∀ a, a ∉ objs_of w es → w_ahs w' !! a = w_ahs w !! a;
  cm_entries : ∀ chs, chs ∈ es →
    entry_cells w (committed_hdr w th clk chs) (committed_act w th chs) chs w';
}.

Lemma run_log_commit fuel w self th c es h s local_clk_ skip new tsc :
  section_ws w self th c es h s →
  w_tsc w = skip ++ new :: tsc →
  Forall (λ r, ordo_gt_clock r (wrap64 (local_clk_ + ordo_boundary)) = false) skip →
  ordo_gt_clock new (wrap64 (local_clk_ + ordo_boundary)) = true →
  (length skip ≤ fuel)%nat →
  ∃ w', run (log_commit (S fuel) (log_of self) self local_clk_) w = Done () w' ∧
        committed w self th es s new tsc w'.
Proof.
  intros H Htsc Hskip Hnew Hfuel. pose proof H as [[Hth Hcur _ _ Hrep] _ Hok _].
  destruct (run_ws_move fuel w self th c es h s H) as (w1 & Hr1 & Hon1 & Hl1 & Hmv).
  pose proof Hon1 as (E1 & Hc1 & Ha1).
  assert (w_thr w1 !! self = Some th) as Hth1 by (by rewrite E1).
  assert (w_ws w1 !! cur_wrt_set (log th) = Some s) as Hs1 by (rewrite E1 Hcur; apply Hrep).
  set (s2 := s <| wrt_clk := new |>).
  set (w2 := set_ws (cur_wrt_set (log th)) s2 (w1 <| w_tsc := tsc |>)).
  set (w0 := w <| w_tsc := tsc |>).
  assert (section_ws w0 self th c es h s) as H0.
  { destruct H as [[? ? ? ? []] ? ? ?]. split; [|done|done|done]. by split. }
  assert (only_entries (set_ws (cur_wrt_set (log th)) s2 w0) es w2) as Hon2.
  { split_and!; [|exact Hc1|exact Ha1]. unfold w2. rewrite E1. done. }
  destruct (run_ws_unlock w0 self th c es h s w2 s2 H0 Hon2) with (k := new)
    as (w3 & Hr3 & Hon3 & Hun); [done|unfold w2; cell|done..| |].
  { intros chs Hin. eapply (moved_held w es th chs w1); eauto. }
  pose proof Hon3 as (E3 & Hc3 & Ha3).
  assert (w_thr w3 !! self = Some th) as Hth3 by (by rewrite E3).
  exists (set_thr self (closed_thread th) w3). split.
  - unfold log_commit. erewrite run_bind_done by exact Hr1. xload. unfold new_clock.
    erewrite run_bind_done.
    2:{ eapply run_new_clock_skip; [exact Hskip|exact Hnew|by rewrite E1|lia]. }
    fold (set_ws (cur_wrt_set (log th)) s2). unfold smp_atomic_store. xstore. fold s2. fold w2. xload.
    erewrite run_bind_done; [|apply run_load; apply (ws_get wrt_clk); unfold w2; cell].
    erewrite run_bind_done by exact Hr3. xstore. unfold fp_reset. xstore_last. done.
  - split.
    + rewrite {1}E3. unfold w2. rewrite {1}E1. done.
    + intros c' Hn. cbn. rewrite Hc3 //. by apply Hc1.
    + intros a Hn. cbn. rewrite Ha3; [|by apply Ha1].
      intros Hin. apply Hn. revert Hin. unfold objs_of.
      intros (chs & -> & [Hc' Hin']%list_elem_of_filter)%list_elem_of_fmap.
      destruct (moved_cells _ _ _ _ _ (Hok _ Hin') (Hmv _ Hin')) as (h' & _ & _ & Eo & Ec & _).
      change (is_copy w1 chs = true) in Hc'. rewrite Ec in Hc'. apply andb_true_iff in Hc' as [Hc' _].
      change (entry_obj w2 chs) with (entry_obj w1 chs). rewrite Eo. by apply elem_of_objs_of.
    + intros chs Hin. destruct (committed_cells w th es new w1 w2 w3) with (chs := chs); auto. by split.
Qed.

(** ** Abort *)

(** [w'] is [w] after thread [self] has dropped its set [es] opened at [c]. *)
Record aborted (w : world) (self : Z) (th : mvrlu_thread_struct) (c : Z) (es : list Z)
    (w' : world) : Prop := Aborted {
  ab_frame : w' = w <| w_thr := <[self := closed_thread th <| log ::= λ g, g <| tail_cnt := c |> |>]> (w_thr w) |>
                    <| w_ahs := w_ahs w' |>;
  ab_ahs : ∀ a, w_ahs w' !! a =
    (if decide (a ∈ objs_of w es) then λ x : mvrlu_act_hdr_struct, x <| p_lock := NULL |> else id)
      <$> w_ahs w !! a;
}.

Lemma run_log_abort w self th c es h s :
  section_ws w self th c es h s → wrt_clk s = MAX_VERSION →
  ∃ w', run (log_abort (log_of self) self) w = Done () w' ∧ aborted w self th c es w'.
Proof.
  intros H Hclk. pose proof H as [[Hth Hcur _ _ Hrep] _ Hok _].
  assert (w_ws w !! cur_wrt_set (log th) = Some s) as Hs by (rewrite Hcur; apply Hrep).
  assert (set_ws (cur_wrt_set (log th)) s w = w) as Hid by (by apply set_ws_id).
  destruct (run_ws_unlock w self th c es h s w s H) with (k := MAX_VERSION)
    as (w3 & Hr3 & Hon3 & Hun); [|done..| |].
  { rewrite Hid. apply only_entries_refl. }
  { intros chs Hin. by apply (section_held H). }
  pose proof Hon3 as (E3 & Hc3 & Ha3).
  assert (w_chs w3 = w_chs w) as Ec.
  { apply map_eq. intros a. destruct (decide (a ∈ es)) as [Hin|]; [|by apply Hc3].
    destruct (Hun _ Hin) as [-> _]. destruct (w_chs w !! a) as [h'|]; [|done].
    cbn. f_equal. unfold unlocked_hdr. rewrite Hclk. by repeat case_decide. }
  assert (w_thr w3 !! self = Some th) as Hth3 by (by rewrite E3).
  assert (w_ws w3 !! cur_wrt_set (log th) = Some s) as Hs3 by (by rewrite E3).
  exists (set_thr self (closed_thread th <| log ::= λ g, g <| tail_cnt := c |> |>) w3). split.
  - unfold log_abort. erewrite run_bind_done by exact Hr3. xload. xload. xstore. xstore.
    unfold fp_reset. xstore_last. rewrite (wr_start _ _ _ _ _ _ _ _ Hrep). done.
  - split.
    + rewrite {1}E3 Ec. by destruct w.
    + intros a. cbn. case_decide as Hin.
      * apply list_elem_of_fmap in Hin as (chs & -> & [Hcp Hin]%list_elem_of_filter).
        destruct (Hun _ Hin) as [_ ->]; [|done]. by destruct (Hok _ Hin) as (h' & -> & _).
      * rewrite Ha3 //. by destruct (w_ahs w !! a).
Qed.
