(* ===== verification/Qp.v ===== *)
(** * Grace periods ([mvrlu.c], "Quiescent detection functions")

    The detection thread finds points in time that every critical section open
    at an earlier point has left, hands them to the threads as the bounds of
    reclamation, helps to reclaim, and reaps finished threads. *)

From S2P Require Import Prelude World OrdoClock Port ThreadList Object VersionLog.

(** ** Waking the detection thread *)

Definition wakeup_qp_thread : kprog unit := port_initiate_wakeup.

Definition wakeup_qp_thread_for_reclaim : kprog bool :=
  nr ← load (qp_loc qp_need_reclaim);
  if truth nr then mret false else
  ok ← smp_cas (qp_loc qp_need_reclaim) 0 1;
  if (ok : bool) then wakeup_qp_thread;; mret true else mret false.

(** The [do ... while (!log->need_reclaim)] of [log_reclaim_force]; [count] is
    the number of rounds since the last wake-up. *)
Definition wait_need_reclaim (fuel : nat) (log : Z) : kprog unit :=
  loop fuel (λ count,
    let count := count + 1 in
    u ← load until_loc;
    count ← (if u <? count then wakeup_qp_thread_for_reclaim;; mret 0 else mret count);
    nr ← load (log_loc need_reclaim log);
    if truth nr then mret (inr ()) else mret (inl count)) 0.

Definition log_reclaim_force (fuel : nat) (log : Z) : kprog unit :=
  nr ← load (log_loc need_reclaim log);
  if truth nr then log_reclaim fuel log else
  h ← load (log_loc head_cnt log);
  t ← load (log_loc tail_cnt log);
  when (negb (h =? t)) (
    wakeup_qp_thread_for_reclaim;;
    wait_need_reclaim fuel log;;
    log_reclaim fuel log).

(** ** Detection *)

(** The body of [qp_init] for one thread. *)
Definition qp_init_one (thread : Z) : kprog (option unit) :=
  r ← load (thr_loc run_cnt thread);
  store (qpi_loc qp_run_cnt thread) r;;
  r ← load (qpi_loc qp_run_cnt thread);
  store (qpi_loc need_wait thread) (Z.land r 1);;
  mret None.

Definition qp_init (fuel : nat) : kprog unit :=
  thread_list_lock g_live_threads;;
  thread_list_for_each_safe fuel g_live_threads qp_init_one;;
  thread_list_unlock g_live_threads.

(** The [while (1)] of [qp_wait] for one thread: [Some] asks for the retry. *)
Definition qp_wait_one (fuel : nat) (qp_clk_ thread : Z) : kprog (option unit) :=
  nw ← load (qpi_loc need_wait thread);
  if negb (truth nw) then mret None else
  loop fuel (λ _ : unit,
    r1 ← load (qpi_loc qp_run_cnt thread);
    r2 ← load (thr_loc run_cnt thread);
    passed ← (if decide (r1 ≠ r2) then mret true
              else c ← load (thr_loc local_clk thread); mret (gte_clock c qp_clk_));
    if (passed : bool) then
      store (qpi_loc need_wait thread) 0;; mret (inr None)
    else
    hw ← thread_list_has_waiter g_live_threads;
    if (hw : bool) then
      thread_list_unlock g_live_threads;; mret (inr (Some ()))
    else mret (inl ())) ().

Definition qp_wait (fuel : nat) (qp_clk_ : Z) : kprog unit :=
  loop fuel (λ _ : unit,
    thread_list_lock g_live_threads;;
    r ← thread_list_for_each_safe fuel g_live_threads (qp_wait_one fuel qp_clk_);
    match r with
    | Some _ => mret (inl ())
    | None => thread_list_unlock g_live_threads;; mret (inr ())
    end) ().

Definition qp_take_nap : kprog unit := port_initiate_nap MVRLU_QP_INTERVAL_USEC;; mret ().

Definition qp_detect (fuel : nat) : kprog unit :=
  qp_clk_ ← get_clock;
  qp_init fuel;;
  nr ← load (qp_loc qp_need_reclaim);
  when (negb (truth nr)) qp_take_nap;;
  qp_wait fuel qp_clk_;;
  store (qp_loc qp_clk) (correct_qp_clk qp_clk_).

(** ** Reclamation on behalf of the threads *)

Definition qp_update_qp_clk_for_reclaim (thread : Z) : kprog unit :=
  q1 ← load (log_loc qp_clk1 (log_of thread));
  store (log_loc qp_clk2 (log_of thread)) q1;;
  q ← load (qp_loc qp_clk);
  store (log_loc qp_clk1 (log_of thread)) q;;
  store (log_loc need_reclaim (log_of thread)) 1.

Definition help_reclaim_one (fuel : nat) (thread : Z) : kprog (option unit) :=
  hw ← thread_list_has_waiter g_live_threads;
  if (hw : bool) then thread_list_unlock g_live_threads;; mret (Some ()) else
  nr ← load (log_loc need_reclaim (log_of thread));
  when (truth nr) (log_reclaim fuel (log_of thread));;
  mret None.

Definition qp_help_reclaim_log (fuel : nat) : kprog unit :=
  loop fuel (λ _ : unit,
    thread_list_lock g_live_threads;;
    r ← thread_list_for_each_safe fuel g_live_threads (help_reclaim_one fuel);
    match r with
    | Some _ => mret (inl ())
    | None =>
        thread_list_rotate_left_unsafe g_live_threads;;
        thread_list_unlock g_live_threads;;
        mret (inr ())
    end) ().

Definition mvrlu_thread_free (self : Z) : kprog unit :=
  smp_atomic_store (thr_loc live_status self) THREAD_DEAD_ZOMBIE;;
  h ← load (log_loc head_cnt (log_of self));
  t ← load (log_loc tail_cnt (log_of self));
  when (h =? t) (port_free self).

Definition reap_one (fuel : nat) (thread : Z) : kprog (option unit) :=
  hw ← thread_list_has_waiter g_zombie_threads;
  if (hw : bool) then thread_list_unlock g_zombie_threads;; mret (Some ()) else
  qp_update_qp_clk_for_reclaim thread;;
  log_reclaim fuel (log_of thread);;
  h ← load (log_loc head_cnt (log_of thread));
  t ← load (log_loc tail_cnt (log_of thread));
  if negb (h =? t) then mret None else
  b ← load (log_loc buffer (log_of thread));
  when (truth b) (
    b ← load (log_loc buffer (log_of thread));
    port_free_log_mem b;;
    store (log_loc buffer (log_of thread)) NULL);;
  ls ← load (thr_loc live_status thread);
  when (bool_decide (ls = THREAD_DEAD_ZOMBIE)) (
    thread_list_del_unsafe g_zombie_threads thread;;
    mvrlu_thread_free thread);;
  mret None.

Definition qp_reap_zombie_threads (fuel : nat) : kprog unit :=
  loop fuel (λ _ : unit,
    thread_list_lock g_zombie_threads;;
    r ← thread_list_for_each_safe fuel g_zombie_threads (reap_one fuel);
    match r with
    | Some _ => mret (inl ())
    | None => thread_list_unlock g_zombie_threads;; mret (inr ())
    end) ().

Definition check_reclaim_one (thread : Z) : kprog (option unit) :=
  nr ← load (log_loc need_reclaim (log_of thread));
  if truth nr then mret (Some ()) else mret None.

Definition qp_check_reclaim_done (fuel : nat) : kprog bool :=
  thread_list_lock g_live_threads;;
  r ← thread_list_for_each_safe fuel g_live_threads check_reclaim_one;
  thread_list_unlock g_live_threads;;
  mret (match r with Some _ => false | None => true end).

Definition trigger_one (thread : Z) : kprog (option unit) :=
  qp_update_qp_clk_for_reclaim thread;; mret None.

Definition qp_trigger_reclaim (fuel : nat) : kprog unit :=
  thread_list_lock g_live_threads;;
  thread_list_for_each_safe fuel g_live_threads trigger_one;;
  thread_list_unlock g_live_threads.

(** ** The detection thread *)

(** One round of the detection loop; the value is [reclaim_done]. *)
Definition qp_round (fuel : nat) (reclaim_done : bool) : kprog bool :=
  qp_detect fuel;;
  reclaim_done ←
    (if reclaim_done then mret true
     else
       qp_reap_zombie_threads fuel;;
       qp_help_reclaim_log fuel;;
       d ← qp_check_reclaim_done fuel;
       when d (smp_cas (qp_loc qp_need_reclaim) 1 0;; mret ());;
       mret d);
  nr ← (if (reclaim_done : bool) then load (qp_loc qp_need_reclaim) else mret 0);
  if truth nr then qp_trigger_reclaim fuel;; mret false
  else mret reclaim_done.

Definition qp_thread_main (fuel : nat) : kprog unit :=
  loop fuel (λ reclaim_done,
    stop ← load (qp_loc stop_requested);
    if truth stop then mret (inr ())
    else d ← qp_round fuel reclaim_done; mret (inl d)) true;;
  iterate 2 (λ _ : unit,
    c ← get_clock;
    store (qp_loc qp_clk) c;;
    qp_reap_zombie_threads fuel) ().

(** [init_qp_thread]: the structure is cleared before the thread starts. *)
Definition init_qp_thread (temp : option Z) : kprog Z :=
  act (λ w, Next () (w <| w_qp := QpThread 0 0 0 |>));;
  rc ← port_create_thread temp;
  if truth rc then mret rc else mret 0.

(** [finish_qp_thread] up to the wait for the thread's end. *)
Definition finish_qp_thread : kprog unit :=
  wakeup_qp_thread;;
  smp_atomic_store (qp_loc stop_requested) 1.
