(* ===== verification/Api.v ===== *)
(** * The programming interface ([mvrlu.c], "External APIs")

    Initialisation, threads, objects, critical sections, dereference and
    locking, as the kernel is configured: no nested locking, no statistics,
    assertions compiled out. *)

From S2P Require Import Prelude World OrdoClock Port ThreadList Object VersionLog Qp.

(** ** Start and end *)

(** [init_clock] is [ordo_clock_init], which only sets the boundary constant.
    [temp] is the result of [threadalloc]. *)
Definition mvrlu_init (temp : option Z) : kprog Z :=
  ok ← smp_cas init_loc 0 1;
  if negb ok then mret (- EBUSY) else
  init_thread_list g_live_threads;;
  init_thread_list g_zombie_threads;;
  rc ← port_log_region_init MVRLU_LOG_SIZE MVRLU_MAX_THREAD_NUM;
  if truth rc then mret rc else
  rc ← init_qp_thread temp;
  if truth rc then mret rc else mret 0.

Definition mvrlu_is_init : kprog Z := load init_loc.

Definition change_mvrlu_until (new_until : Z) : kprog unit := store until_loc new_until.

(** ** Threads *)

Definition mvrlu_thread_alloc : kprog Z := port_alloc sizeof_thread_struct.

Definition zero_thread : mvrlu_thread_struct :=
  Thread 0 0 (FreePtrs 0 ∅) 0 0 THREAD_LIVE (QpInfo 0 0) (Log 0 0 0 0 0 0 0 0) 0 0.

(** [memset(self, 0, sizeof( *self))]. *)
Definition memset_thread (self : Z) : kprog unit :=
  act (λ w, Next () (w <| w_thr ::= <[self := zero_thread]> |>
                       <| w_node ::= <[list_of self := ListNode NULL NULL]> |>)).

Definition mvrlu_thread_init (self : Z) : kprog unit :=
  memset_thread self;;
  b ← port_alloc_log_mem;
  store (log_loc buffer (log_of self)) b;;
  thread_list_add g_live_threads self.

Definition mvrlu_thread_finish (fuel : nat) (self : Z) : kprog unit :=
  nr ← load (log_loc need_reclaim (log_of self));
  when (truth nr) (log_reclaim fuel (log_of self));;
  store (qpi_loc need_wait self) 0;;
  thread_list_del g_live_threads self;;
  h ← load (log_loc head_cnt (log_of self));
  t ← load (log_loc tail_cnt (log_of self));
  if h =? t then
    b ← load (log_loc buffer (log_of self));
    port_free_log_mem b;;
    store (log_loc buffer (log_of self)) NULL
  else
    smp_atomic_store (thr_loc live_status self) THREAD_LIVE_ZOMBIE;;
    thread_list_add g_zombie_threads self.

(** ** Objects *)

(** [memset(ahs, 0, sizeof( *ahs))] on fresh memory: the [size] bytes behind the
    header hold whatever they held before. *)
Definition memset_ahs (ahs size : Z) : kprog unit :=
  act (λ w, Next ()
    (w <| w_ahs ::= <[ahs := ActHdr NULL (ObjHdr 0 0 TYPE_ACTUAL NULL)]> |>
       <| w_data ::= <[ahs_obj ahs :=
            (λ i, w_junk w (ahs_obj ahs + Z.of_nat i)) <$> seq 0 (Z.to_nat size)]> |>)).

Definition mvrlu_alloc_x (size : Z) : kprog Z :=
  ahs ← port_alloc_x (wrap64 (sizeof_act_hdr_struct + size));
  if decide (ahs = NULL) then mret NULL else
  memset_ahs ahs size;;
  store (ahs_hdr type ahs) TYPE_ACTUAL;;
  store (ahs_hdr obj_size ahs) (wrap32 size);;
  mret (ahs_obj ahs).

Definition mvrlu_alloc (size : Z) : kprog Z := mvrlu_alloc_x size.

(** [self->free_ptrs.ptrs[i] = p]; a write behind the array is a fault. *)
Definition fp_store (self i p : Z) : kprog unit :=
  act (λ w, match w_thr w !! self with
            | Some th =>
                if i <? MVRLU_MAX_FREE_PTRS then
                  Next () (lset (fp_loc ptrs self) (<[i := p]> (ptrs (free_ptrs th))) w)
                else Crash
            | None => Crash
            end).

Definition mvrlu_free (self obj : Z) : kprog unit :=
  if decide (obj = NULL) then mret () else
  if decide (self = NULL) then port_free (obj_to_ahs obj) else
  p_act ← get_act_obj obj;
  n ← load (fp_loc num_ptrs self);
  store (fp_loc num_ptrs self) (wrap32 (n + 1));;
  fp_store self n p_act.

(** ** Critical sections *)

(** The capacity water mark of [mvrlu_reader_lock]. *)
Definition reader_wait_space (fuel : nat) (self : Z) : kprog unit :=
  u ← log_used (log_of self);
  when (MVRLU_LOG_HIGH_MARK <=? u) (
    loop fuel (λ _ : unit,
      log_reclaim_force fuel (log_of self);;
      u ← log_used (log_of self);
      if MVRLU_LOG_HIGH_MARK <=? u then mret (inl ()) else mret (inr ())) ()).

Definition mvrlu_reader_lock (fuel : nat) (self : Z) : kprog unit :=
  nr ← load (log_loc need_reclaim (log_of self));
  when (truth nr) (log_reclaim fuel (log_of self));;
  reader_wait_space fuel self;;
  smp_faa32 (thr_loc run_cnt self) 1;;
  store (thr_loc num_act_obj self) 0;;
  store (thr_loc num_deref self) 0;;
  c ← get_clock_relaxed;
  store (thr_loc local_clk self) c.

(** The dereference water mark of [mvrlu_reader_unlock]. *)
Definition deref_mark (self : Z) : kprog bool :=
  d ← load (thr_loc num_deref self);
  if negb (truth d) then mret false else
  a ← load (thr_loc num_act_obj self);
  if negb (MVRLU_DEREF_MIN_ACT_OBJ <? a) then mret false else
  a ← load (thr_loc num_act_obj self);
  d ← load (thr_loc num_deref self);
  mret (a <? MVRLU_DEREF_MARK * d).

(** The part of [mvrlu_reader_unlock] for a section that wrote, or that owes a
    reclamation. *)
Definition unlock_write (fuel : nat) (self : Z) : kprog unit :=
  iwd ← load (thr_loc is_write_detected self);
  when (truth iwd) (
    store (thr_loc is_write_detected self) 0;;
    c ← load (thr_loc local_clk self);
    log_commit fuel (log_of self) self c);;
  nr ← load (log_loc need_reclaim (log_of self));
  when (truth nr) (log_reclaim fuel (log_of self));;
  u ← log_used (log_of self);
  when (MVRLU_LOG_LOW_MARK <=? u) (wakeup_qp_thread_for_reclaim;; mret ()).

Definition mvrlu_reader_unlock (fuel : nat) (self : Z) : kprog unit :=
  r ← load (thr_loc run_cnt self);
  store (thr_loc run_cnt self) (wrap32 (r + 1));;
  dm ← deref_mark self;
  when dm (wakeup_qp_thread_for_reclaim;; mret ());;
  iwd ← load (thr_loc is_write_detected self);
  go ← (if truth iwd then mret true
        else nr ← load (log_loc need_reclaim (log_of self)); mret (truth nr));
  when go (unlock_write fuel self).

Definition mvrlu_abort (fuel : nat) (self : Z) : kprog unit :=
  r ← load (thr_loc run_cnt self);
  store (thr_loc run_cnt self) (wrap32 (r + 1));;
  cur ← load (log_loc cur_wrt_set (log_of self));
  when (truth cur) (
    log_abort (log_of self) self;;
    store (thr_loc is_write_detected self) 0);;
  nr ← load (log_loc need_reclaim (log_of self));
  when (truth nr) (log_reclaim fuel (log_of self)).

(** ** Dereference *)

(** The walk over the versions of an object, newest first. *)
Definition deref_chain (fuel : nat) (self qp_clk2_ p_copy_ : Z) : kprog (option Z) :=
  loop fuel (λ p_copy_,
    let chs := vobj_to_chs p_copy_ in
    wrt_clk_ ← get_wrt_clk chs;
    l ← load (thr_loc local_clk self);
    if lte_clock wrt_clk_ l then mret (inr (Some p_copy_)) else
    nx ← load (chs_loc wrt_clk_next chs);
    if lte_clock nx qp_clk2_ then mret (inr None) else
    p ← load (chs_hdr p_copy chs);
    if decide (p = NULL) then mret (inr None) else mret (inl p)) p_copy_.

Definition mvrlu_deref (fuel : nat) (self obj : Z) : kprog Z :=
  if decide (obj = NULL) then mret NULL else
  p_act ← get_act_obj obj;
  n ← load (thr_loc num_act_obj self);
  store (thr_loc num_act_obj self) (n + 1);;
  p ← load (ahs_hdr p_copy (vobj_to_ahs p_act));
  if decide (p = NULL) then mret p_act else
  qp_clk2_ ← load (log_loc qp_clk2 (log_of self));
  d ← load (thr_loc num_deref self);
  store (thr_loc num_deref self) (d + 1);;
  r ← deref_chain fuel self qp_clk2_ p;
  mret (default p_act r).

(** ** Locking an object *)

(** [_mvrlu_try_lock]: on success the new value of [*pp_obj]. *)
Definition _mvrlu_try_lock (self obj size : Z) : kprog (option Z) :=
  p_act ← get_act_obj obj;
  let ahs := vobj_to_ahs p_act in
  l ← load (ahs_loc p_lock ahs);
  if decide (l ≠ NULL) then mret None else
  p_old_copy ← load (ahs_hdr p_copy ahs);
  stale ← (if decide (p_old_copy = NULL) then mret false
           else
             c ← get_wrt_clk (vobj_to_chs p_old_copy);
             lc ← load (thr_loc local_clk self);
             mret (negb (lte_clock c lc)));
  if (stale : bool) then mret None else
  '(chs, bogus_allocated) ← log_append_begin (log_of self) p_act size;
  let p_new_copy := chs_obj chs in
  ok ← try_lock_obj ahs p_old_copy p_new_copy;
  if negb ok then
    log_append_abort (log_of self) chs;; mret None
  else
  memcpy p_new_copy (if decide (p_old_copy = NULL) then p_act else p_old_copy) size;;
  log_append_end (log_of self) chs bogus_allocated;;
  iwd ← load (thr_loc is_write_detected self);
  when (iwd =? 0) (store (thr_loc is_write_detected self) 1);;
  mret (Some p_new_copy).

(** Whether the lock was taken; the caller's pointer does not change. *)
Definition _mvrlu_try_lock_const (self obj size : Z) : kprog bool :=
  r ← _mvrlu_try_lock self obj 0;
  mret (match r with Some _ => true | None => false end).

(** ** Pointers *)

Definition act_of (obj : Z) : kprog Z :=
  if decide (obj = NULL) then mret obj else get_act_obj obj.

Definition mvrlu_cmp_ptrs (obj1 obj2 : Z) : kprog bool :=
  o1 ← act_of obj1;
  o2 ← act_of obj2;
  mret (bool_decide (o1 = o2)).

(** The eight bytes of a pointer in memory. *)
Definition le64 (v : Z) : list Z := (λ i, (v / 256 ^ Z.of_nat i) mod 256) <$> seq 0 8.
Definition of_le64 (bs : list Z) : Z := foldr (λ b acc, b + 256 * acc) 0 bs.

(** [*p_ptr = v] and [*p_ptr] for the pointer [off] bytes into the object (or
    copy) at [base]. *)
Definition store_ptr (base : Z) (off : nat) (v : Z) : kprog unit :=
  act (λ w, match w_data w !! base with
            | Some bs =>
                if decide (off + 8 ≤ length bs)%nat then
                  Next () (w <| w_data ::= <[base := list_inserts off (le64 v) bs]> |>)
                else Crash
            | None => Crash
            end).
Definition load_ptr (base : Z) (off : nat) : kprog Z :=
  act (λ w, match w_data w !! base with
            | Some bs =>
                if decide (off + 8 ≤ length bs)%nat then
                  Next (of_le64 (take 8 (drop off bs))) w
                else Crash
            | None => Crash
            end).

Definition _mvrlu_assign_pointer (base : Z) (off : nat) (obj : Z) : kprog unit :=
  o ← act_of obj;
  store_ptr base off o.

Definition mvrlu_flush_log (fuel : nat) (self : Z) : kprog unit :=
  loop fuel (λ _ : unit,
    h ← load (log_loc head_cnt (log_of self));
    t ← load (log_loc tail_cnt (log_of self));
    if h =? t then mret (inr ())
    else log_reclaim_force fuel (log_of self);; mret (inl ())) ().

(** ** The C++ wrapper ([include/mvrlu/mvrlu.hh], [include/mvrlu/section.hh],
    [kernel/mvrlu/mvrlu_wrapper.cc]) *)

(** The constructor and destructor of [thread_handle]; the value is [self_]. *)
Definition thread_handle_new : kprog Z :=
  i ← mvrlu_is_init;
  if truth i then
    self ← mvrlu_thread_alloc;
    mvrlu_thread_init self;;
    mret self
  else mret NULL.

Definition thread_handle_delete (fuel : nat) (self_ : Z) : kprog unit :=
  when (truth self_) (
    mvrlu_thread_finish fuel self_;;
    mvrlu_thread_free self_).

(** [thread_handle::mvrlu_try_lock] and [mvrlu_try_lock_const]. *)
Definition handle_try_lock (self_ obj size : Z) : kprog (option Z) :=
  if decide (obj = NULL) then mret (Some obj) else _mvrlu_try_lock self_ obj size.
Definition handle_try_lock_const (self_ obj size : Z) : kprog bool :=
  if decide (obj = NULL) then mret true else _mvrlu_try_lock_const self_ obj size.

(** The constructor and destructor of [mvrlu_section]. *)
Definition mvrlu_section_enter (fuel : nat) (handle : Z) : kprog unit := mvrlu_reader_lock fuel handle.
Definition mvrlu_section_leave (fuel : nat) (handle : Z) : kprog unit := mvrlu_reader_unlock fuel handle.
