(* ===== verification/Snapshot.v ===== *)
(** * Versions and snapshots

    The versions of an object form a chain, newest first.  [mvrlu_deref] picks
    the newest version that is older than the reader's clock, and a commit
    changes what later readers see without changing what earlier ones see. *)

From S2P Require Import Prelude World OrdoClock Port Object Cells VersionLog LogLayout LogAppend Commit Qp Api.

(** ** Version chains *)

(** The versions reachable from the pointer [p]. *)
Inductive versions (m : gmap Z mvrlu_cpy_hdr_struct) : Z → list Z → Prop :=
| versions_nil : versions m NULL []
| versions_cons p h l :
    p ≠ NULL → m !! vobj_to_chs p = Some h → versions m (p_copy (c_obj_hdr h)) l →
    versions m p (p :: l).

(** The clock of the next older version, as kept in a version's header. *)
Definition next_clk (w : world) (p : Z) : Z :=
  match w_chs w !! vobj_to_chs p with Some h => wrt_clk_next h | None => 0 end.

(** The version a reader at [local] sees; [None] is the object itself.  The
    search ends early below the reclamation bound [q2]. *)
Fixpoint visible (w : world) (local q2 : Z) (l : list Z) : option Z :=
  match l with
  | [] => None
  | p :: l' =>
      match ver_clk w p with
      | Some k =>
          if lte_clock k local then Some p
          else if lte_clock (next_clk w p) q2 then None
          else visible w local q2 l'
      | None => None
      end
  end.

(** The bytes a reader at [local] gets for the object at [obj]. *)
Definition view (w : world) (local q2 : Z) (obj : Z) (l : list Z) : option (list Z) :=
  w_data w !! default obj (visible w local q2 l).

Lemma run_deref_chain fuel w self th q2 p l :
  w_thr w !! self = Some th → versions (w_chs w) p l → p ≠ NULL →
  (∀ p', p' ∈ l → is_Some (ver_clk w p')) → (length l ≤ fuel)%nat →
  run (deref_chain fuel self q2 p) w = Done (visible w (local_clk th) q2 l) w.
Proof.
  intros Hth Hv. revert fuel. induction Hv as [|p h l Hp Hh Hv IH]; [done|].
  intros fuel _ Hk Hf. destruct fuel as [|fuel]; [cbn in Hf; lia|].
  destruct (Hk p) as [k Ek]; [set_solver|].
  assert (clk_of w h = Some k) as Ek'.
  { unfold ver_clk in Ek. by rewrite decide_False // Hh in Ek. }
  cbn [visible]. rewrite Ek. unfold next_clk. rewrite Hh.
  unfold deref_chain. rewrite run_loop_S.
  assert (∀ r, r = (if lte_clock k (local_clk th) then inr (Some p)
                    else if lte_clock (wrt_clk_next h) q2 then inr None
                    else if decide (p_copy (c_obj_hdr h) = NULL) then inr None
                    else inl (p_copy (c_obj_hdr h))) →
    run (let chs := vobj_to_chs p in
         wrt_clk_ ← get_wrt_clk chs; l ← load (thr_loc local_clk self);
         if lte_clock wrt_clk_ l then mret (inr (Some p)) else
         nx ← load (chs_loc wrt_clk_next chs);
         if lte_clock nx q2 then mret (inr None) else
         p ← load (chs_hdr p_copy chs);
         if decide (p = NULL) then mret (inr None) else mret (inl p)) w = Done r w) as Hbody.
  { intros r ->. cbv zeta. erewrite run_bind_done by (by eapply run_get_wrt_clk_of).
    xload. destruct (lte_clock k _); [done|]. xload. destruct (lte_clock _ q2); [done|].
    xload. by case_decide. }
  cbv beta. rewrite (Hbody _ eq_refl). clear Hbody. cbn [outcome_bind].
  destruct (lte_clock k _); [done|]. destruct (lte_clock _ q2); [done|]. case_decide as E.
  - rewrite E in Hv. inversion Hv; [done|]. by subst.
  - apply IH; [done| |cbn in Hf; lia]. intros p' Hp'. apply Hk. set_solver.
Qed.

(** The state after a dereference: only the thread's statistics change. *)
Definition deref_counted (self : Z) (th : mvrlu_thread_struct) (walked : bool) (w : world) : world :=
  set_thr self (if walked then th <| num_act_obj := num_act_obj th + 1 |> <| num_deref := num_deref th + 1 |>
                else th <| num_act_obj := num_act_obj th + 1 |>) w.

Lemma run_mvrlu_deref fuel w self th obj p_act_ a l :
  w_thr w !! self = Some th → obj ≠ NULL → run (get_act_obj obj) w = Done p_act_ w →
  w_ahs w !! vobj_to_ahs p_act_ = Some a →
  versions (w_chs w) (p_copy (a_obj_hdr a)) l →
  (∀ p, p ∈ l → is_Some (ver_clk w p)) → (length l ≤ fuel)%nat →
  run (mvrlu_deref fuel self obj) w =
  Done (default p_act_ (visible w (local_clk th) (qp_clk2 (log th)) l))
       (deref_counted self th (bool_decide (p_copy (a_obj_hdr a) ≠ NULL)) w).
Proof.
  intros Hth Hobj Hact Ha Hv Hk Hf. unfold mvrlu_deref, deref_counted. rewrite decide_False //.
  erewrite run_bind_done by exact Hact. xload. xstore. xload. case_decide as E.
  - rewrite bool_decide_false; [by intros []|]. rewrite E in Hv. inversion Hv; by subst.
  - rewrite bool_decide_true //. xload. xload. xstore. erewrite run_bind_done.
    2:{ eapply (run_deref_chain fuel _ self); [cell|exact Hv|done|exact Hk|done]. }
    rewrite run_ret. do 2 f_equal.
    assert (∀ w1 w2 lc q, w_chs w1 = w_chs w2 → w_ws w1 = w_ws w2 →
      visible w1 lc q l = visible w2 lc q l) as Hvis; [|by apply Hvis].
    clear. intros w1 w2 lc q E1 E2. induction l as [|p l IH]; [done|]. cbn.
    unfold ver_clk, clk_of, next_clk. by rewrite E1 E2 IH.
Qed.

(** ** What a commit does to the chains *)

(** The versions [l] belong to write sets other than [ws] and its entries [es]. *)
Definition settled (w : world) (ws : Z) (es l : list Z) : Prop :=
  ∀ p, p ∈ l → p ≠ NULL ∧ vobj_to_chs p ∉ es ∧
    ∃ h, w_chs w !! vobj_to_chs p = Some h ∧ p_wrt_clk h ≠ ws ∧ is_Some (clk_of w h).

Lemma settled_cons w ws es p l : settled w ws es (p :: l) → settled w ws es l.
Proof. intros H p' Hp'. apply H. set_solver. Qed.

Lemma settled_ver_clk w ws es l p : settled w ws es l → p ∈ l → is_Some (ver_clk w p).
Proof.
  intros H Hp. destruct (H p Hp) as (? & _ & h & Eh & _ & ?). unfold ver_clk.
  by rewrite decide_False // Eh.
Qed.

Section commit_chains.
Context {w w' : world} {self : Z} {th : mvrlu_thread_struct} {es : list Z}.
Context {s : mvrlu_wrt_set} {clk : Z} {tsc : list Z}.
Context (Hcm : committed w self th es s clk tsc w').

Lemma committed_ver_clk p l :
  settled w (cur_wrt_set (log th)) es l → p ∈ l → ver_clk w' p = ver_clk w p.
Proof.
  intros Hs Hp. destruct (Hs p Hp) as (Hn & Hout & h & Eh & Hws & _).
  unfold ver_clk. rewrite !decide_False // (cm_chs _ _ _ _ _ _ _ _ Hcm) // Eh.
  unfold clk_of. case_decide; [|done]. rewrite (cm_frame _ _ _ _ _ _ _ _ Hcm). cbn.
  by rewrite lookup_insert_ne.
Qed.

Lemma committed_visible local q2 l :
  settled w (cur_wrt_set (log th)) es l → visible w' local q2 l = visible w local q2 l.
Proof.
  induction l as [|p l IH]; intros Hs; [done|]. cbn.
  rewrite (committed_ver_clk p (p :: l)) //; [set_solver|].
  rewrite IH; [by eapply settled_cons|]. destruct (Hs p) as (_ & Hout & _); [set_solver|].
  unfold next_clk. by rewrite (cm_chs _ _ _ _ _ _ _ _ Hcm).
Qed.

Lemma committed_versions p l :
  versions (w_chs w) p l → settled w (cur_wrt_set (log th)) es l → versions (w_chs w') p l.
Proof.
  induction 1 as [|p h l Hp Hh Hv IH]; intros Hs; [constructor|].
  econstructor; [done| |apply IH; by eapply settled_cons].
  destruct (Hs p) as (_ & Hout & _); [set_solver|]. by rewrite (cm_chs _ _ _ _ _ _ _ _ Hcm).
Qed.

(** A copy that the commit publishes: not freed, and not taken by
    [try_lock_const]. *)
Definition publishes (chs : Z) (h : mvrlu_cpy_hdr_struct) (a : mvrlu_act_hdr_struct) : Prop :=
  chs ∈ es ∧ w_chs w !! chs = Some h ∧ type (c_obj_hdr h) = TYPE_COPY ∧
  freed w th chs = false ∧ obj_size (c_obj_hdr h) ≠ 0 ∧ w_ahs w !! obj_of h = Some a.

Lemma published_hdr chs h a :
  publishes chs h a → clk ≠ MAX_VERSION →
  w_chs w' !! chs =
  Some (h <| c_obj_hdr ::= λ o, o <| p_copy := p_copy (a_obj_hdr a) |> |>
          <| wrt_clk_next := default 0 (ver_clk w (p_copy (a_obj_hdr a))) |>
          <| __wrt_clk := clk |>).
Proof.
  intros (Hin & Eh & Et & Hf & Hsz & Ha) Hclk.
  destruct (cm_entries _ _ _ _ _ _ _ _ Hcm chs Hin) as [-> _]. rewrite Eh /=. f_equal.
  unfold committed_hdr, moved_hdr, unlocked_hdr. rewrite Hf Ha Et.
  rewrite decide_False // decide_False //.
  { cbn. congruence. }
  by rewrite decide_False // decide_False.
Qed.

Lemma published_act chs h a :
  publishes chs h a →
  w_ahs w' !! obj_of h = Some (a <| a_obj_hdr ::= λ o, o <| p_copy := chs_obj chs |> |> <| p_lock := NULL |>).
Proof.
  intros (Hin & Eh & Et & Hf & Hsz & Ha).
  destruct (cm_entries _ _ _ _ _ _ _ _ Hcm chs Hin) as [_ Hact].
  unfold is_copy, entry_obj in Hact. rewrite Eh Ha /= in Hact. rewrite Hact.
  { by apply bool_decide_eq_true. }
  unfold committed_act, moved_act, unlocked_act. rewrite Hf Et decide_False // decide_False //.
Qed.

(** The chain of a published object is the old one behind the new copy. *)
Lemma published_chain chs h a l :
  publishes chs h a → clk ≠ MAX_VERSION → chs_obj chs ≠ NULL →
  versions (w_chs w) (p_copy (a_obj_hdr a)) l → settled w (cur_wrt_set (log th)) es l →
  versions (w_chs w') (chs_obj chs) (chs_obj chs :: l).
Proof.
  intros Hp Hclk Hn Hv Hs. econstructor; [done| |].
  - unfold vobj_to_chs, obj_to_chs, chs_obj. rewrite Z.add_simpl_r. by apply published_hdr.
  - cbn. by apply committed_versions.
Qed.

Lemma published_visible chs h a l local q2 :
  publishes chs h a → clk ≠ MAX_VERSION → chs_obj chs ≠ NULL →
  settled w (cur_wrt_set (log th)) es l →
  visible w' local q2 (chs_obj chs :: l) =
  if lte_clock clk local then Some (chs_obj chs)
  else if lte_clock (default 0 (ver_clk w (p_copy (a_obj_hdr a)))) q2 then None
  else visible w local q2 l.
Proof.
  intros Hp Hclk Hn Hs. pose proof (published_hdr _ _ _ Hp Hclk) as Hh.
  assert (vobj_to_chs (chs_obj chs) = chs) as Ec
    by (unfold vobj_to_chs, obj_to_chs, chs_obj; lia).
  cbn. unfold ver_clk at 1, next_clk. rewrite decide_False // Ec Hh.
  unfold clk_of. cbn [__wrt_clk field_map]. rewrite decide_False //.
  by rewrite committed_visible.
Qed.
End commit_chains.

(** ** The abstract view

    An object is a history of committed contents with their clocks, newest
    first, over the contents of the object itself. *)

Definition history (w : world) (l : list Z) : list (Z * list Z) :=
  (λ p, (default 0 (ver_clk w p), default [] (w_data w !! p))) <$> l.

(** The contents at time [local]. *)
Fixpoint snap (base : list Z) (hist : list (Z * list Z)) (local : Z) : list Z :=
  match hist with
  | [] => base
  | (k, bs) :: hist' => if lte_clock k local then bs else snap base hist' local
  end.

(** What reclamation guarantees to a reader at [local] below its bound [q2]:
    where the search for a version may stop early, the next version has been
    written back to the object and is old enough. *)
Fixpoint written_back (w : world) (obj local q2 : Z) (l : list Z) : Prop :=
  match l with
  | p :: (p2 :: _) as l' =>
      (lte_clock (next_clk w p) q2 = true →
       lte_clock (default 0 (ver_clk w p2)) local = true ∧ w_data w !! p2 = w_data w !! obj) ∧
      written_back w obj local q2 l'
  | _ => True
  end.

Lemma visible_snap w obj local q2 l :
  (∀ p, p ∈ l → is_Some (ver_clk w p)) → written_back w obj local q2 l →
  default [] (w_data w !! default obj (visible w local q2 l)) =
  snap (default [] (w_data w !! obj)) (history w l) local.
Proof.
  intros Hk Hwb. induction l as [|p l IH]; [done|]. cbn.
  destruct (Hk p) as [k Ek]; [set_solver|]. rewrite Ek. cbn.
  destruct (lte_clock k local); [done|].
  assert (∀ p, p ∈ l → is_Some (ver_clk w p)) as Hk' by set_solver.
  destruct (lte_clock (next_clk w p) q2) eqn:En.
  - destruct l as [|p2 l]; [done|]. destruct Hwb as [H _]. destruct (H En) as [Hl Hd].
    cbn. by rewrite Hl Hd.
  - apply IH; [done|]. by destruct l as [|p2 l]; [|destruct Hwb].
Qed.


Lemma history_committed w w' self th es s clk tsc l :
  committed w self th es s clk tsc w' → settled w (cur_wrt_set (log th)) es l →
  history w' l = history w l.
Proof.
  intros Hcm Hs. apply list_fmap_ext. intros i p Hp%list_elem_of_lookup_2.
  rewrite (committed_ver_clk Hcm p l) // (cm_frame _ _ _ _ _ _ _ _ Hcm). done.
Qed.

(** An abstract commit is invisible to readers that are not past it, and what
    later ones see. *)
Lemma snap_commit base hist new bs local :
  sane_clock new →
  snap base ((new, bs) :: hist) local =
  if decide (new + g_ordo_boundary < local) then bs else snap base hist local.
Proof.
  intros Hs. cbn. destruct (lte_clock new local) eqn:E; unfold lte_clock in E.
  - apply lt_clock_spec in E; [|done]. by rewrite decide_True.
  - apply lt_clock_false in E; [|done]. rewrite decide_False //. lia.
Qed.

(** The history of a published object. *)
Lemma published_history w w' self th es s clk tsc chs h a l :
  committed w self th es s clk tsc w' → publishes (w := w) (th := th) (es := es) chs h a →
  clk ≠ MAX_VERSION → chs_obj chs ≠ NULL → settled w (cur_wrt_set (log th)) es l →
  history w' (chs_obj chs :: l) = (clk, default [] (w_data w !! chs_obj chs)) :: history w l.
Proof.
  intros Hcm Hp Hmax Hnn Hs. unfold history at 1. cbn. fold (history w' l).
  rewrite (history_committed _ _ _ _ _ _ _ _ _ Hcm Hs) (cm_frame _ _ _ _ _ _ _ _ Hcm).
  f_equal. f_equal. pose proof (published_hdr Hcm _ _ _ Hp Hmax) as Hh.
  unfold ver_clk. rewrite decide_False //.
  assert (vobj_to_chs (chs_obj chs) = chs) as -> by (unfold vobj_to_chs, obj_to_chs, chs_obj; lia).
  cbn. rewrite Hh. unfold clk_of. cbn. by rewrite decide_False.
Qed.

Lemma sane_not_max k : sane_clock k → k ≠ MAX_VERSION.
Proof. unfold sane_clock. rewrite boundary_val. zlia. Qed.

(** C2: committing a write set, within as many clock readings as it
    takes to get one past the section's clock, puts each published copy in
    front of the history of its object with the commit's clock, and unlocks
    the object; the object itself and all older contents stay.  So a reader
    whose clock is not past the commit's still gets what it got before, for
    every object of the set, and a later one gets the new contents. *)
Theorem commit_extends_history fuel w self th c es h0 s local_clk_ skip new tsc :
  section_ws w self th c es h0 s →
  w_tsc w = skip ++ new :: tsc →
  Forall (λ r, ordo_gt_clock r (wrap64 (local_clk_ + ordo_boundary)) = false) skip →
  ordo_gt_clock new (wrap64 (local_clk_ + ordo_boundary)) = true →
  sane_clock new → (length skip ≤ fuel)%nat →
  ∃ w', run (log_commit (S fuel) (log_of self) self local_clk_) w = Done () w' ∧
    ∀ chs h a l,
      publishes (w := w) (th := th) (es := es) chs h a → chs_obj chs ≠ NULL →
      versions (w_chs w) (p_copy (a_obj_hdr a)) l → settled w (cur_wrt_set (log th)) es l →
      ∃ a', w_ahs w' !! obj_of h = Some a' ∧ p_lock a' = NULL ∧
        versions (w_chs w') (p_copy (a_obj_hdr a')) (chs_obj chs :: l) ∧
        history w' (chs_obj chs :: l) =
          (new, default [] (w_data w !! chs_obj chs)) :: history w l ∧
        w_data w' = w_data w ∧
        ∀ base local, snap base (history w' (chs_obj chs :: l)) local =
          if decide (new + g_ordo_boundary < local) then default [] (w_data w !! chs_obj chs)
          else snap base (history w l) local.
Proof.
  intros H Ht Hsk Hn Hsane Hf.
  destruct (run_log_commit fuel w self th c es h0 s local_clk_ skip new tsc H Ht Hsk Hn Hf)
    as (w' & Hrun & Hcm).
  exists w'. split; [done|]. intros chs h a l Hp Hnn Hv Hs.
  pose proof (sane_not_max new Hsane) as Hmax.
  pose proof (published_history _ _ _ _ _ _ _ _ _ _ _ _ Hcm Hp Hmax Hnn Hs) as Hh.
  eexists. split; [by apply (published_act Hcm)|]. rewrite Hh. split_and!.
  - done.
  - by eapply (published_chain Hcm).
  - done.
  - by rewrite (cm_frame _ _ _ _ _ _ _ _ Hcm).
  - intros base local. by apply snap_commit.
Qed.
