(* ===== verification/Locking.v ===== *)
(** * Locking an object in a critical section

    [_mvrlu_try_lock] appends a copy of the object to the log of the thread,
    makes it the lock of the object and fills it with the newest contents.
    The open write set stays well formed, so that the section can end by
    committing or aborting it. *)

From S2P Require Import Prelude World OrdoClock Port Object Cells VersionLog LogLayout LogAppend Commit Qp Api Snapshot.

(** ** The lock word *)

Lemma run_try_lock_obj_free w ahs new a :
  w_ahs w !! ahs = Some a → p_lock a = NULL →
  run (try_lock_obj ahs (p_copy (a_obj_hdr a)) new) w =
  Done true (set_ahs ahs (a <| p_lock := new |>) w).
Proof.
  intros Ha Hl. unfold try_lock_obj. xload. rewrite decide_False; [by intros []|].
  xload. rewrite decide_False; [by intros []|].
  erewrite run_bind_done; [|apply run_cas_hit; rewrite -Hl; by apply ahs_get].
  cbn [negb]. erewrite ahs_put by exact Ha. xload. rewrite decide_False; [by intros []|]. done.
Qed.

Lemma run_try_lock_obj_held w ahs old new a :
  w_ahs w !! ahs = Some a → p_lock a ≠ NULL →
  run (try_lock_obj ahs old new) w = Done false w.
Proof. intros Ha Hl. unfold try_lock_obj. xload. by rewrite decide_True. Qed.

(** ** The state of a section *)

(** No object's newest version is an entry of the open set. *)
Definition unpublished (w : world) (es : list Z) : Prop :=
  ∀ o a, w_ahs w !! o = Some a → vobj_to_chs (p_copy (a_obj_hdr a)) ∉ es.

(** Thread [self] is inside a critical section; [es] are the entries of its
    open write set, none if it has not locked anything. *)
Inductive in_section (w : world) (self : Z) (th : mvrlu_thread_struct) : list Z → Prop :=
| section_clean :
    w_thr w !! self = Some th → cur_wrt_set (log th) = NULL → tail_ok (tail_cnt (log th)) →
    0 ≤ num_ptrs (free_ptrs th) → in_section w self th []
| section_writing c es h s :
    section_ws w self th c es h s → wrt_clk s = MAX_VERSION → unpublished w es →
    cur_wrt_set (log th) ≠ NULL → in_section w self th es.

(** Where the open set starts, and where its next entry goes. *)
Definition set_start (w : world) (th : mvrlu_thread_struct) : Z :=
  if decide (cur_wrt_set (log th) = NULL) then tail_cnt (log th)
  else match w_ws w !! cur_wrt_set (log th) with Some s => start_tail_cnt s | None => 0 end.
Definition next_pos (th : mvrlu_thread_struct) : Z :=
  let t := tail_cnt (log th) in
  if decide (cur_wrt_set (log th) = NULL) then t + ws_entry_size t else t.

(** The log space from count [lo] to [hi] holds no newest version of any
    object, nor the write set of one. *)
Definition unused (w : world) (buf lo hi : Z) : Prop :=
  ∀ o a x, w_ahs w !! o = Some a → lo ≤ x < hi →
    vobj_to_chs (p_copy (a_obj_hdr a)) ≠ buf + log_index x ∧
    ∀ h, w_chs w !! vobj_to_chs (p_copy (a_obj_hdr a)) = Some h →
         p_wrt_clk h ≠ chs_obj (buf + log_index x).

(** Room for a copy of [size] bytes. *)
Record log_room (w : world) (th : mvrlu_thread_struct) (size : Z) : Prop := LogRoom {
  lr_buf : 0 < buffer (log th);
  lr_cnt : cnt_ok (tail_cnt (log th)) ∧ cnt_ok (next_pos th);
  lr_size : obj_fits size;
  lr_fits : new_tail (next_pos th) size ≤ set_start w th + MVRLU_LOG_SIZE;
  lr_unused : unused w (buffer (log th)) (tail_cnt (log th)) (new_tail (next_pos th) size);
}.

(** ** Opening the set when needed *)

(** The newest versions keep their clocks. *)
Definition same_heads (w w' : world) : Prop :=
  ∀ o a, w_ahs w !! o = Some a →
    ver_clk w' (p_copy (a_obj_hdr a)) = ver_clk w (p_copy (a_obj_hdr a)).

Lemma opened_heads w self th hi :
  unused w (buffer (log th)) (tail_cnt (log th)) hi → tail_cnt (log th) < hi →
  same_heads w (opened_world self th w).
Proof.
  intros Hu Hlt o a Ho. destruct (Hu o a (tail_cnt (log th)) Ho) as [H1 H2]; [lia|].
  unfold ver_clk. case_decide; [done|]. cbn. rewrite lookup_insert_ne; [congruence|].
  destruct (w_chs w !! _) as [h|] eqn:Eh; [|done]. unfold clk_of. case_decide; [|done].
  cbn. rewrite lookup_insert_ne //. intros E. by apply (H2 h).
Qed.

Lemma begun_heads w self th p_act_ osz lo :
  cnt_ok (tail_cnt (log th)) → tail_cnt (log th) mod 64 = 0 → obj_fits osz →
  lo ≤ tail_cnt (log th) → unused w (buffer (log th)) lo (new_tail (tail_cnt (log th)) osz) →
  same_heads w (begun_world self th p_act_ osz w).
Proof.
  intros Hc Hal Hf Hlo Hu o a Ho. destruct (alloc_facts_hold _ osz Hc Hf Hal) as [Hp _ Hs _ _ _ _ _].
  destruct (entry_size_spec osz Hf) as [_ He]. unfold obj_fits in Hf. unfold new_tail in Hu.
  destruct (Hu o a (tail_cnt (log th)) Ho) as [H1 _]; [lia|].
  destruct (Hu o a (alloc_pos (tail_cnt (log th)) (entry_size osz)) Ho) as [H2 _]; [lia|].
  unfold ver_clk. case_decide; [done|]. unfold begun_world.
  destruct (wraps _ _); cbn; rewrite !lookup_insert_ne; congruence || done.
Qed.

Lemma opened_unused w self th lo hi :
  unused w (buffer (log th)) (tail_cnt (log th)) hi → tail_cnt (log th) ≤ lo →
  tail_cnt (log th) < hi → unused (opened_world self th w) (buffer (log th)) lo hi.
Proof.
  intros Hu Hlo Hhi o a x Ho Hx. destruct (Hu o a x Ho) as [H1 H2]; [lia|]. split; [done|].
  destruct (Hu o a (tail_cnt (log th)) Ho) as [H3 _]; [lia|]. intros h. cbn.
  rewrite lookup_insert_ne; [congruence|]. apply H2.
Qed.

(** Of the headers and write sets, only those in the log space of [buf] from
    count [lo] to [hi] differ. *)
Definition log_frame (buf lo hi : Z) (w w' : world) : Prop :=
  (∀ c, (∀ x, lo ≤ x < hi → c ≠ buf + log_index x) → w_chs w' !! c = w_chs w !! c) ∧
  (∀ p, (∀ x, lo ≤ x < hi → p ≠ chs_obj (buf + log_index x)) → w_ws w' !! p = w_ws w !! p).

Lemma log_frame_refl buf lo hi w : log_frame buf lo hi w w.
Proof. done. Qed.

Lemma log_frame_trans buf lo mid hi w1 w2 w3 :
  log_frame buf lo mid w1 w2 → log_frame buf lo hi w2 w3 → mid ≤ hi → log_frame buf lo hi w1 w3.
Proof.
  intros [C1 S1] [C2 S2] Hle. split.
  - intros c Hc. rewrite C2 // C1 //. intros x Hx. apply Hc. lia.
  - intros c Hc. rewrite S2 // S1 //. intros x Hx. apply Hc. lia.
Qed.

(** The thread's log with the write set that starts at [c] open and the tail at
    [t]. *)
Definition log_at_tail (g : mvrlu_log) (c t : Z) : mvrlu_log :=
  g <| tail_cnt := t |> <| cur_wrt_set := chs_obj (buffer g + log_index c) |>.

(** What a lock does not touch: the lists of threads, the detector, the pool,
    the memory of the kernel and the inputs. *)
Definition rest (w : world) :=
  (w_node w, w_tl w, w_qp w, w_until w, w_init w, (w_pool w, w_start_addr w, w_end_addr w),
   w_mem w, (w_tsc w, w_nsec w, w_kmem w, w_junk w)).

(** The section with its write set open, as [log_append_begin] leaves it before
    it allocates the copy. *)
Record ready (w : world) (self : Z) (th : mvrlu_thread_struct) (es : list Z)
    (wo : world) (tho : mvrlu_thread_struct) (c : Z) (h : mvrlu_cpy_hdr_struct)
    (s : mvrlu_wrt_set) : Prop := Ready {
  rd_open : open_ws wo self tho c es h s;
  rd_clk : wrt_clk s = MAX_VERSION;
  rd_ok : ∀ chs, chs ∈ es → entry_ok wo es chs;
  rd_unp : unpublished wo es;
  rd_ahs : w_ahs wo = w_ahs w;
  rd_data : w_data wo = w_data w;
  rd_heads : same_heads w wo;
  rd_tail : tail_cnt (log tho) = next_pos th;
  rd_buf : buffer (log tho) = buffer (log th);
  rd_start : c = set_start w th;
  rd_cur : cur_wrt_set (log tho) ≠ NULL;
  rd_thr : tho = th <| log := log tho |>;
  rd_fp : 0 ≤ num_ptrs (free_ptrs th);
  rd_log : log tho = log_at_tail (log th) c (next_pos th);
  rd_old : ∀ e, e ∈ es → w_chs wo !! e = w_chs w !! e;
  rd_frame : log_frame (buffer (log th)) c (next_pos th) w wo;
  rd_rest : rest wo = rest w;
  rd_thrs : w_thr wo = <[self := tho]> (w_thr w);
}.

Lemma opened_frame self th w hi :
  tail_cnt (log th) < hi →
  log_frame (buffer (log th)) (tail_cnt (log th)) hi w (opened_world self th w).
Proof.
  intros Hlt. split; intros c Hc; cbn; rewrite lookup_insert_ne //; intros <-;
    by eapply (Hc (tail_cnt (log th))); [lia|].
Qed.

Lemma section_ready w self th es size p_act_ :
  in_section w self th es → log_room w th size →
  ∃ wo tho c h s,
    ready w self th es wo tho c h s ∧
    unused wo (buffer (log th)) (next_pos th) (new_tail (next_pos th) size) ∧
    run (log_append_begin (log_of self) p_act_ size) w =
    run (log_append_obj (log_of self) p_act_ size false) wo.
Proof.
  intros Hs [Hbuf [Hc Hc'] Hsz Hfit Hun]. pose proof (entry_size_spec size Hsz) as [_ Hes].
  destruct Hs as [Hth Hcur Ht Hfp|c es h s Hsw Hclk Hunp Hcur].
  - destruct (alloc_facts_hold _ sizeof_wrt_set Hc obj_fits_ws (proj1 Ht)) as [_ _ Hw _ _ Hw64 _ _].
    fold (ws_entry_size (tail_cnt (log th))) in Hw, Hw64. rewrite entry_size_ws in Hw.
    assert (next_pos th = tail_cnt (log th) + ws_entry_size (tail_cnt (log th))) as En
      by (unfold next_pos; by rewrite decide_True).
    assert (next_pos th mod 64 = 0) as Hal.
    { rewrite En. destruct Hw64 as [H64 _]. unfold alloc_pos in H64.
      rewrite (ws_never_wraps _ Hc Ht) in H64. exact H64. }
    destruct (alloc_facts_hold _ size Hc' Hsz Hal) as [Hp _ Hsize _ _ _ _ _].
    assert (tail_cnt (log th) < new_tail (next_pos th) size) as Hlt by (unfold new_tail, obj_fits in *; lia).
    destruct (opened_open w self th Hth Hc Ht) as (h & s & Hop & Hclk).
    exists (opened_world self th w), (opened_thread th), (tail_cnt (log th)), h, s. split_and!.
    + split; try done.
      * set_solver.
      * intros o a _. set_solver.
      * by eapply opened_heads.
      * unfold set_start. by rewrite decide_True.
      * cbn. pose proof (log_index_range (tail_cnt (log th))). unfold chs_obj. zlia.
      * cbn. unfold log_at_tail. rewrite En. by destruct (log th).
      * set_solver.
      * apply opened_frame. rewrite En. zlia.
    + eapply opened_unused; [exact Hun|lia|lia].
    + unfold log_append_begin. xload. destruct (decide _); [|done].
      erewrite run_bind_done by (by apply run_log_append_ws). done.
  - exists w, th, c, h, s. pose proof Hsw as [Hop Hr Hok Hfp]. pose proof Hop as [Hth Hcu _ _ Hrep].
    split_and!.
    + split; try done.
      * unfold next_pos. by rewrite decide_False.
      * unfold set_start. rewrite decide_False // Hcu (wr_ws _ _ _ _ _ _ _ _ Hrep).
        by rewrite (wr_start _ _ _ _ _ _ _ _ Hrep).
      * by destruct th.
      * unfold log_at_tail, next_pos. rewrite decide_False // -Hcu. by destruct (log th).
      * by rewrite insert_id.
    + unfold next_pos in *. by destruct (decide _).
    + unfold log_append_begin. xload. by destruct (decide _).
Qed.

(** ** The set with the new entry *)

Section appended.
Context (w w' : world) (self : Z) (th : mvrlu_thread_struct) (c : Z) (es : list Z).
Context (h : mvrlu_cpy_hdr_struct) (s : mvrlu_wrt_set) (p_act_ size : Z) (a : mvrlu_act_hdr_struct).
Local Notation t := (tail_cnt (log th)).
Local Notation buf := (buffer (log th)).
Local Notation chs := (buf + log_index (alloc_pos t (entry_size size))).
Local Notation new := (new_entries buf t size).
Context (Hop : open_ws w self th c es h s) (Hc : cnt_ok t) (Hsz : obj_fits size).
Context (Hroom : new_tail t size ≤ c + MVRLU_LOG_SIZE) (Hbuf : 0 < buf).
Context (Hun : unused w buf t (new_tail t size)) (Hunp : unpublished w es).
Context (Hok : ∀ chs, chs ∈ es → entry_ok w es chs).
Context (Ha : w_ahs w !! vobj_to_ahs p_act_ = Some a) (Hl : p_lock a = NULL).
Context (Hk : is_Some (ver_clk w (p_copy (a_obj_hdr a)))).
Context (Echs : w_chs w' = w_chs (begun_world self th p_act_ size w)).
Context (Eahs : w_ahs w' = <[vobj_to_ahs p_act_ := a <| p_lock := chs_obj chs |>]> (w_ahs w)).
Context (Ews : ∀ x, wrt_clk <$> w_ws w' !! x = wrt_clk <$> w_ws w !! x).

Lemma new_positions x :
  x ∈ new → ∃ n, t ≤ n < new_tail t size ∧ x = buf + log_index n.
Proof.
  destruct (alloc_facts_hold t size Hc Hsz (ow_aligned _ _ _ _ _ _ _ Hop)) as [Hp _ Hs _ _ _ _ _].
  destruct (entry_size_spec size Hsz) as [_ He]. unfold obj_fits in Hsz.
  unfold new_entries, new_tail. destruct (wraps t _); cbn; intros Hx.
  - apply elem_of_cons in Hx as [->|Hx]; [exists t; split; [lia|done]|].
    apply list_elem_of_singleton in Hx as ->. eexists; split; [|done]. lia.
  - apply list_elem_of_singleton in Hx as ->. eexists; split; [|done]. lia.
Qed.

Lemma new_not_old x : x ∈ new → x ∉ es.
Proof.
  intros (n & Hn & ->)%new_positions. pose proof (open_ws_tail _ _ _ _ _ _ _ Hop).
  destruct Hop as [_ _ _ _ [_ _ Hs _ _ _ _ _ He]].
  eapply entries_fresh; [exact He|]. lia.
Qed.

Lemma heads_not_new o b : w_ahs w !! o = Some b → vobj_to_chs (p_copy (a_obj_hdr b)) ∉ es ++ new.
Proof.
  intros Ho Hin. apply elem_of_app in Hin as [Hin|Hin]; [by apply (Hunp o b)|].
  apply new_positions in Hin as (n & Hn & E). by destruct (Hun o b n Ho Hn).
Qed.

Lemma appended_heads o b :
  w_ahs w !! o = Some b → ver_clk w' (p_copy (a_obj_hdr b)) = ver_clk w (p_copy (a_obj_hdr b)).
Proof.
  intros Ho. rewrite -(begun_heads w self th p_act_ size t Hc (ow_aligned _ _ _ _ _ _ _ Hop) Hsz _ Hun o b Ho); [lia|].
  unfold ver_clk. case_decide; [done|]. rewrite Echs. destruct (w_chs _ !! _) as [h'|]; [|done].
  unfold clk_of. case_decide; [|done]. by rewrite Ews begun_ws.
Qed.

Lemma appended_unpublished : unpublished w' (es ++ new).
Proof.
  intros o b. rewrite Eahs. destruct (decide (vobj_to_ahs p_act_ = o)) as [<-|].
  - rewrite lookup_insert_eq. intros [= <-]. by apply (heads_not_new (vobj_to_ahs p_act_) a).
  - rewrite lookup_insert_ne //. by apply heads_not_new.
Qed.

Lemma begun_old_hdr x : x ∈ es → w_chs w' !! x = w_chs w !! x.
Proof.
  intros Hx. pose proof new_not_old as Hn. unfold new_entries in Hn.
  rewrite Echs. unfold begun_world. destruct (wraps _ _); cbn; rewrite !lookup_insert_ne //;
    intros <-; (eapply Hn; [|exact Hx]); set_solver.
Qed.

Lemma appended_old x : x ∈ es → entry_ok w' (es ++ new) x.
Proof.
  intros Hx. destruct (Hok x Hx) as (h' & Eh & Hcase). exists h'. rewrite begun_old_hdr //.
  split; [done|]. destruct Hcase as [?|(Et & b & Hb & Hbl & _ & Hbk)]; [by left|right].
  split; [done|]. exists b.
  assert (0 ≤ x) as Hx0.
  { destruct Hop as [_ _ _ _ [_ _ _ _ _ _ _ _ He]].
    destruct (entries_elem _ _ _ _ _ _ He Hx) as (n & _ & -> & _).
    pose proof (log_index_range n). lia. }
  assert (vobj_to_ahs p_act_ ≠ obj_of h') as Hne.
  { intros E. pose proof Ha as Ha'. rewrite E Hb in Ha'. injection Ha' as ->. rewrite Hl in Hbl. unfold chs_obj in Hbl. zlia. }
  rewrite Eahs lookup_insert_ne //. split_and!; [done|done|by eapply heads_not_new|].
  by erewrite appended_heads.
Qed.

Lemma appended_new x : x ∈ new → entry_ok w' (es ++ new) x.
Proof.
  pose proof (begun_chs w self th p_act_ size) as Hh. rewrite -Echs in Hh.
  assert (entry_ok w' (es ++ new) chs) as Hcopy.
  { eexists. split; [exact Hh|]. right. split; [done|]. exists (a <| p_lock := chs_obj chs |>).
    change (obj_of (copy_hdr _ p_act_ _ _)) with (vobj_to_ahs p_act_).
    rewrite Eahs lookup_insert_eq. split_and!; [done|done|exact (heads_not_new _ _ Ha)|].
    cbn. by rewrite (appended_heads _ _ Ha). }
  unfold new_entries in *. destruct (wraps _ _) eqn:Ew; cbn; intros Hx.
  - apply elem_of_cons in Hx as [->|Hx]; [|by apply list_elem_of_singleton in Hx as ->].
    exists (bogus_hdr t). split; [|by left]. rewrite Echs. unfold begun_world. rewrite Ew. cbn.
    destruct (alloc_facts_hold t size Hc Hsz (ow_aligned _ _ _ _ _ _ _ Hop)) as [Hp _ _ _ _ _ _ Hb].
    destruct (Hb Ew) as [_ Hpos]. rewrite lookup_insert_ne ?lookup_insert_eq //.
    intros E. assert (t = alloc_pos t (entry_size size)); [|lia].
    destruct (entry_size_spec size Hsz) as [_ He]. unfold obj_fits in Hsz.
    apply log_index_inj_near; zlia.
  - by apply list_elem_of_singleton in Hx as ->.
Qed.
End appended.

(** ** [_mvrlu_try_lock] *)

(** The check for a stale view. *)
Lemma run_stale_check w self th p k :
  w_thr w !! self = Some th → ver_clk w p = Some k →
  run (if decide (p = NULL) then mret false
       else c ← get_wrt_clk (vobj_to_chs p); lc ← load (thr_loc local_clk self);
            mret (negb (lte_clock c lc))) w =
  Done (bool_decide (p ≠ NULL) && negb (lte_clock k (local_clk th))) w.
Proof.
  intros Hth Hk. unfold ver_clk in Hk. destruct (decide (p = NULL)) as [->|Hp]; [done|].
  destruct (w_chs w !! vobj_to_chs p) as [h|] eqn:Eh; [|done].
  rewrite bool_decide_true //. erewrite run_bind_done by (by eapply run_get_wrt_clk_of).
  xload. done.
Qed.

(** What is copied into the new version. *)
Definition newest (p_act_ : Z) (a : mvrlu_act_hdr_struct) : Z :=
  if decide (p_copy (a_obj_hdr a) = NULL) then p_act_ else p_copy (a_obj_hdr a).

Lemma run_memcpy w dst src n bs :
  w_data w !! src = Some bs →
  run (memcpy dst src n) w =
  Done () (w <| w_data ::= λ d, <[dst := take (Z.to_nat n) bs ++
                                     drop (Z.to_nat n) (default [] (d !! dst))]> d |>).
Proof. intros H. unfold memcpy. by rewrite run_act H. Qed.

Lemma write_detected_id (th : mvrlu_thread_struct) :
  th <| is_write_detected := is_write_detected th |> = th.
Proof. by destruct th. Qed.

(** What [_mvrlu_try_lock] leaves behind when it takes the copy [p_new]: the
    entries [es'] behind those of the open set, the last of them the copy; the
    thread's log behind them; and nothing else but the lock of the object and
    the contents of the copy. *)
Record lock_taken (w : world) (self : Z) (th : mvrlu_thread_struct) (es : list Z)
    (p_act_ size : Z) (a : mvrlu_act_hdr_struct) (bs : list Z)
    (w' : world) (th' : mvrlu_thread_struct) (es' : list Z) (p_new : Z) : Prop := LockTaken {
  lt_section : in_section w' self th' (es ++ es');
  lt_last : last es' = Some (obj_to_chs p_new);
  lt_pos : ∃ x, p_new = chs_obj (buffer (log th) + log_index x) ∧ next_pos th ≤ x < tail_cnt (log th') ∧ x mod 64 = 0;
  lt_kinds : ∀ e, e ∈ es' → e = obj_to_chs p_new ∨ is_copy w' e = false;
  lt_hdr : ∃ sz, w_chs w' !! obj_to_chs p_new = Some (copy_hdr (cur_wrt_set (log th')) p_act_ size sz);
  lt_old : ∀ e, e ∈ es → w_chs w' !! e = w_chs w !! e;
  lt_frame : log_frame (buffer (log th)) (set_start w th) (tail_cnt (log th')) w w';
  lt_wd : is_write_detected th' ≠ 0;
  lt_thr : th' = th <| is_write_detected := is_write_detected th' |> <| log := log th' |>;
  lt_log : log th' = log_at_tail (log th) (set_start w th) (new_tail (next_pos th) size);
  lt_start : set_start w' th' = set_start w th;
  lt_rest : rest w' = rest w;
  lt_thrs : w_thr w' = <[self := th']> (w_thr w);
  lt_ahs : w_ahs w' = <[vobj_to_ahs p_act_ := a <| p_lock := p_new |>]> (w_ahs w);
  lt_data : w_data w' = <[p_new := take (Z.to_nat size) bs ++
                            drop (Z.to_nat size) (default [] (w_data w !! p_new))]> (w_data w);
}.

(** The copy and the filler in front of it are in the new log space. *)
Lemma begun_frame w self th p_act_ size c hi :
  cnt_ok (tail_cnt (log th)) → obj_fits size → tail_cnt (log th) mod 64 = 0 →
  c ≤ tail_cnt (log th) → new_tail (tail_cnt (log th)) size ≤ hi →
  log_frame (buffer (log th)) c hi w (begun_world self th p_act_ size w).
Proof.
  intros Hc Hsz Hal Hle Hhi. destruct (alloc_facts_hold _ size Hc Hsz Hal) as [Hp _ Hs _ _ _ _ _].
  destruct (entry_size_spec size Hsz) as [_ He]. unfold obj_fits in Hsz. unfold new_tail in Hhi.
  split; [|by rewrite begun_ws]. intros x Hx. unfold begun_world.
  pose proof (Hx (tail_cnt (log th)) ltac:(lia)). pose proof (Hx (alloc_pos (tail_cnt (log th)) (entry_size size)) ltac:(lia)).
  destruct (wraps _ _); cbn; rewrite !lookup_insert_ne //.
Qed.

Lemma new_entries_kinds w self th p_act_ size e :
  e ∈ new_entries (buffer (log th)) (tail_cnt (log th)) size →
  e = buffer (log th) + log_index (alloc_pos (tail_cnt (log th)) (entry_size size)) ∨
  is_copy (begun_world self th p_act_ size w) e = false.
Proof.
  unfold new_entries, is_copy, begun_world. destruct (wraps _ _).
  - intros [->|Hx]%elem_of_cons; [|apply list_elem_of_singleton in Hx as ->; by left]. cbn.
    destruct (decide (buffer (log th) + log_index (alloc_pos (tail_cnt (log th)) (entry_size size)) =
      buffer (log th) + log_index (tail_cnt (log th)))) as [->|]; [by left|right].
    by rewrite lookup_insert_ne // lookup_insert_eq.
  - intros Hx. apply list_elem_of_singleton in Hx as ->. by left.
Qed.

(** The rest of [_mvrlu_try_lock] behind its checks. *)
Definition lock_tail (self p_act_ old src size : Z) : kprog (option Z) :=
  '(chs, bogus_allocated) ← log_append_obj (log_of self) p_act_ size false;
  ok ← try_lock_obj (vobj_to_ahs p_act_) old (chs_obj chs);
  if negb ok then log_append_abort (log_of self) chs;; mret None else
  memcpy (chs_obj chs) src size;;
  log_append_end (log_of self) chs bogus_allocated;;
  iwd ← load (thr_loc is_write_detected self);
  when (iwd =? 0) (store (thr_loc is_write_detected self) 1);;
  mret (Some (chs_obj chs)).

(** The thread and the world behind the lock. *)
Definition taken_thread (th : mvrlu_thread_struct) (size : Z) : mvrlu_thread_struct :=
  th <| log ::= λ g, g <| tail_cnt := new_tail (tail_cnt (log th)) size |> |>
     <| is_write_detected := if is_write_detected th =? 0 then 1 else is_write_detected th |>.

Section taken.
Context (w w4 : world) (self : Z) (th : mvrlu_thread_struct) (c : Z) (es : list Z).
Context (h : mvrlu_cpy_hdr_struct) (s s3 : mvrlu_wrt_set) (p_act_ size k : Z) (a : mvrlu_act_hdr_struct) (bs : list Z).
Local Notation t := (tail_cnt (log th)).
Local Notation buf := (buffer (log th)).
Local Notation chs := (buf + log_index (alloc_pos t (entry_size size))).
Local Notation new := (new_entries buf t size).
Context (Hop : open_ws w self th c es h s) (Hclk : wrt_clk s = MAX_VERSION) (Hfp : 0 ≤ num_ptrs (free_ptrs th)).
Context (Hcur : cur_wrt_set (log th) ≠ NULL) (Hc : cnt_ok t) (Hsz : obj_fits size).
Context (Hroom : new_tail t size ≤ c + MVRLU_LOG_SIZE) (Hbuf : 0 < buf).
Context (Hun : unused w buf t (new_tail t size)) (Hunp : unpublished w es).
Context (Hok : ∀ chs, chs ∈ es → entry_ok w es chs).
Context (Ha : w_ahs w !! vobj_to_ahs p_act_ = Some a) (Hl : p_lock a = NULL).
Context (Hk : ver_clk w (p_copy (a_obj_hdr a)) = Some k).
Context (Hop4 : open_ws w4 self (taken_thread th size) c (es ++ new) h s3) (Hclk3 : wrt_clk s3 = MAX_VERSION).
Context (Estart : start_tail_cnt s3 = c).
Context (Echs : w_chs w4 = w_chs (begun_world self th p_act_ size w)).
Context (Ews : w_ws w4 = <[cur_wrt_set (log th) := s3]> (w_ws w)).
Context (Eahs : w_ahs w4 = <[vobj_to_ahs p_act_ := a <| p_lock := chs_obj chs |>]> (w_ahs w)).
Context (Edata : w_data w4 = <[chs_obj chs := take (Z.to_nat size) bs ++
                   drop (Z.to_nat size) (default [] (w_data w !! chs_obj chs))]> (w_data w)).
Context (Erest : rest w4 = rest w) (Ethr : w_thr w4 = <[self := taken_thread th size]> (w_thr w)).

Lemma taken_ws x : wrt_clk <$> w_ws w4 !! x = wrt_clk <$> w_ws w !! x.
Proof.
  rewrite Ews. pose proof Hop as [_ Hcu _ _ Hrep]. destruct (decide (cur_wrt_set (log th) = x)) as [<-|].
  - rewrite lookup_insert_eq Hcu (wr_ws _ _ _ _ _ _ _ _ Hrep) /=. congruence.
  - by rewrite lookup_insert_ne.
Qed.

Lemma taken_section : in_section w4 self (taken_thread th size) (es ++ new).
Proof.
  assert (is_Some (ver_clk w (p_copy (a_obj_hdr a)))) as Hks by (by rewrite Hk).
  eapply (section_writing _ _ _ c _ h s3); [split|done| |done].
  - done.
  - exact Hroom.
  - intros x [Hx|Hx]%elem_of_app.
    + eapply (appended_old w w4 self th c es h s p_act_ size a); eauto using taken_ws.
    + eapply (appended_new w w4 self th c es h s p_act_ size a); eauto using taken_ws.
  - exact Hfp.
  - eapply (appended_unpublished w w4 self th c es h s p_act_ size a); eauto using taken_ws.
Qed.

Lemma taken_frame : log_frame buf c (new_tail t size) w w4.
Proof.
  pose proof (open_ws_tail _ _ _ _ _ _ _ Hop) as Hct. destruct Hop as [_ Hcu _ Hal _].
  destruct (begun_frame w self th p_act_ size c (new_tail t size) Hc Hsz Hal) as [F1 _]; [lia..|].
  destruct (alloc_facts_hold _ size Hc Hsz Hal) as [Hp _ Hs _ _ _ _ _].
  destruct (entry_size_spec size Hsz) as [_ He]. unfold obj_fits in Hsz.
  split; [by rewrite Echs|]. intros p Hp'. rewrite Ews lookup_insert_ne // Hcu.
  intros <-. eapply (Hp' c); [unfold new_tail; lia|done].
Qed.

Lemma taken_start : set_start w th = c ∧ set_start w4 (taken_thread th size) = c.
Proof.
  unfold set_start. cbn [taken_thread log cur_wrt_set field_map]. rewrite !decide_False // Ews lookup_insert_eq.
  destruct Hop as [_ Hcu _ _ Hrep]. rewrite Hcu (wr_ws _ _ _ _ _ _ _ _ Hrep).
  by rewrite (wr_start _ _ _ _ _ _ _ _ Hrep).
Qed.

Lemma lock_taken_intro :
  lock_taken w self th es p_act_ size a bs w4 (taken_thread th size) new (chs_obj chs).
Proof.
  destruct taken_start as [Es Es4]. pose proof Hop as [_ Hcu _ Hal _].
  destruct (alloc_facts_hold _ size Hc Hsz Hal) as [Hp Hp64 Hs _ _ _ _ _].
  destruct (entry_size_spec size Hsz) as [_ He]. pose proof Hsz as Hsz'. unfold obj_fits in Hsz'.
  assert (next_pos th = t) as En by (unfold next_pos; by rewrite decide_False).
  assert (obj_to_chs (chs_obj chs) = chs) as Eo by (unfold obj_to_chs, chs_obj; lia).
  assert (tail_cnt (log (taken_thread th size)) = new_tail t size) as Et by done.
  split; rewrite ?Es ?Es4 ?En ?Eo ?Et; try done.
  - apply taken_section.
  - unfold new_entries. by rewrite last_snoc.
  - eexists. split; [done|]. unfold new_tail. split; [lia|done].
  - intros e He'. unfold is_copy. rewrite Echs. by apply new_entries_kinds.
  - eexists. rewrite Echs. change (cur_wrt_set (log (taken_thread th size))) with (cur_wrt_set (log th)). apply begun_chs.
  - intros e He'. eapply (begun_old_hdr w w4 self th c es h s p_act_ size a); eauto using taken_ws.
  - apply taken_frame.
  - cbn. destruct (Z.eqb_spec (is_write_detected th) 0); done.
  - unfold log_at_tail. rewrite -Hcu. cbn. by destruct (log th).
Qed.
End taken.

Lemma begun_rest w self th p_act_ size :
  rest (begun_world self th p_act_ size w) = rest w ∧
  ∀ x, <[self := x]> (w_thr (begun_world self th p_act_ size w)) = <[self := x]> (w_thr w).
Proof.
  unfold begun_world. destruct (wraps _ _); [|done]. split; [done|]. intros x. cbn. by rewrite insert_insert_eq.
Qed.

(** From the open set to the end of [_mvrlu_try_lock]. *)
Lemma lock_and_append w self th c es h s p_act_ size a k bs :
  let t := tail_cnt (log th) in
  let chs := buffer (log th) + log_index (alloc_pos t (entry_size size)) in
  let new := new_entries (buffer (log th)) t size in
  open_ws w self th c es h s → wrt_clk s = MAX_VERSION → 0 ≤ num_ptrs (free_ptrs th) →
  cur_wrt_set (log th) ≠ NULL → cnt_ok t → obj_fits size →
  new_tail t size ≤ c + MVRLU_LOG_SIZE → 0 < buffer (log th) →
  unused w (buffer (log th)) t (new_tail t size) → unpublished w es →
  (∀ chs, chs ∈ es → entry_ok w es chs) →
  w_ahs w !! vobj_to_ahs p_act_ = Some a → p_lock a = NULL →
  ver_clk w (p_copy (a_obj_hdr a)) = Some k → w_data w !! newest p_act_ a = Some bs →
  ∃ w' th',
    run (lock_tail self p_act_ (p_copy (a_obj_hdr a)) (newest p_act_ a) size) w = Done (Some (chs_obj chs)) w' ∧
    lock_taken w self th es p_act_ size a bs w' th' new (chs_obj chs).
Proof.
  intros t chs new Hop Hclk Hfp Hcur Hc Hsz Hroom Hbuf Hun Hunp Hok Ha Hl Hk Hbs.
  pose proof Hop as [Hth Hcu _ Hal Hrep]. unfold lock_tail.
  erewrite run_bind_done by (by apply run_log_append_obj). cbv beta iota. fold t chs.
  set (w1 := begun_world self th p_act_ size w).
  assert (w_ahs w1 !! vobj_to_ahs p_act_ = Some a ∧ w_data w1 = w_data w ∧ w_ahs w1 = w_ahs w)
    as (Ha1 & Ed1 & Ea1) by (unfold w1, begun_world; by destruct (wraps _ _)).
  erewrite run_bind_done by (by apply run_try_lock_obj_free). cbn [negb].
  erewrite run_bind_done by (apply (run_memcpy _ _ _ _ bs); cbn; by rewrite Ed1).
  match goal with |- context [run _ ?x] => set (w2 := x) end.
  destruct (open_ws_append w self th c es h s p_act_ size Hop Hc Hsz Hroom w2 eq_refl eq_refl eq_refl)
    as (Hend & Hop3 & Htok). fold t chs in Hend, Hop3, Htok. fold new in Hend, Hop3.
  erewrite run_bind_done by exact Hend. clear Hend.
  match type of Hop3 with open_ws ?a _ ?b _ _ _ ?d => set (w3 := a) in *; set (th3 := b) in *; set (s3 := d) in * end.
  pose proof Hop3 as [Hth3 Hcu3 Hc03 Hal3 Hrep3].
  erewrite run_bind_done; [|apply run_load; apply thr_get; exact Hth3].
  set (th4 := th3 <| is_write_detected := if is_write_detected th3 =? 0 then 1 else is_write_detected th3 |>).
  set (w4 := set_thr self th4 w3).
  assert (run (when (is_write_detected th3 =? 0) (store (thr_loc is_write_detected self) 1)) w3 = Done () w4) as Hwd.
  { unfold when, w4, th4. destruct (is_write_detected th3 =? 0).
    - eapply run_store_put; [by apply thr_get|by apply thr_put].
    - by rewrite write_detected_id set_thr_id. }
  erewrite run_bind_done by exact Hwd. exists w4, th4. split; [done|].
  eapply (lock_taken_intro w w4 self th c es h s s3); try done.
  - split; [unfold w4; cell|done..|]. destruct Hrep3. by split.
  - unfold s3. cbn. by destruct Hrep.
  - unfold w4, w3. cbn. f_equal. apply (begun_ws w self th p_act_ size).
  - unfold w4, w3, w2. cbn. by rewrite Ea1.
  - unfold w4, w3, w2. cbn. by rewrite Ed1.
  - change (rest w1 = rest w). apply begun_rest.
  - change (<[self := th4]> (<[self := th3]> (w_thr w1)) = <[self := th4]> (w_thr w)).
    rewrite insert_insert_eq. apply begun_rest.
Qed.

(** What a lock taken behind the opening of the set amounts to. *)
Lemma lock_taken_ready w self th es wo tho c h s p_act_ size a bs w' th' es' p_new :
  ready w self th es wo tho c h s → lock_taken wo self tho es p_act_ size a bs w' th' es' p_new →
  lock_taken w self th es p_act_ size a bs w' th' es' p_new.
Proof.
  intros [Ho _ _ _ Ea Ed _ Et Eb Es Hcur Etho _ Elog Hold Hfr Erest Ethr]
    [L1 L2 L3 L4 L5 L6 L7 L8 L9 L10 L11 L12 L12' L13 L14].
  assert (next_pos tho = next_pos th) as En by (unfold next_pos at 1; by rewrite decide_False).
  assert (set_start wo tho = c) as Eso.
  { unfold set_start. rewrite decide_False //. destruct Ho as [_ Hcu _ _ Hrep].
    rewrite Hcu (wr_ws _ _ _ _ _ _ _ _ Hrep). apply (wr_start _ _ _ _ _ _ _ _ Hrep). }
  rewrite En Eb in L3. rewrite Eb Eso in L7. rewrite Eso En Elog in L10. rewrite Eso in L11.
  split; rewrite -?Es; try done.
  - intros e He. rewrite L6 // Hold //.
  - eapply log_frame_trans; [exact Hfr|exact L7|]. destruct L3 as (x & _ & ?). lia.
  - rewrite L9 Etho. by destruct th.
  - by rewrite L12.
  - by rewrite L12' Ethr insert_insert_eq.
  - by rewrite L13 Ea.
  - by rewrite L14 Ed.
Qed.

(** [_mvrlu_try_lock] on a free object that the section can see. *)
Lemma run_try_lock_taken w self th es obj size p_act_ a k bs :
  in_section w self th es → log_room w th size →
  run (get_act_obj obj) w = Done p_act_ w →
  w_ahs w !! vobj_to_ahs p_act_ = Some a → p_lock a = NULL →
  ver_clk w (p_copy (a_obj_hdr a)) = Some k →
  (p_copy (a_obj_hdr a) ≠ NULL → lte_clock k (local_clk th) = true) →
  w_data w !! newest p_act_ a = Some bs →
  ∃ w' th' es' p_new,
    run (_mvrlu_try_lock self obj size) w = Done (Some p_new) w' ∧
    lock_taken w self th es p_act_ size a bs w' th' es' p_new.
Proof.
  intros Hsec Hroom Hact Ha Hl Hk Hvis Hbs.
  assert (w_thr w !! self = Some th) as Hth by (by destruct Hsec as [|c es h s [[]]]).
  destruct (section_ready w self th es size p_act_ Hsec Hroom) as (wo & tho & c & h & s & Hr & Hun & Hrun).
  pose proof Hr as [Ho Hc Hok Hunp Ea Ed Hh Et Eb Es Hcur Etho Hfp _ _ _ _ _].
  destruct Hroom as [Hbuf [_ Hcnt] Hsz Hfit _].
  rewrite -Et -Eb in Hun. rewrite -Es -Et in Hfit. rewrite -Et in Hcnt. rewrite -Eb in Hbuf.
  destruct (lock_and_append wo self tho c es h s p_act_ size a k bs) as (w' & th' & Hrt & Ht);
    [done|done|by rewrite Etho|done|done|done|done|done|done|done|done
    |by rewrite Ea|done|by rewrite (Hh _ _ Ha)|by rewrite Ed|].
  eexists w', th', _, _. split; [|by eapply lock_taken_ready].
  unfold _mvrlu_try_lock. erewrite run_bind_done by exact Hact.
  xload. rewrite decide_False; [by intros []|]. xload.
  erewrite run_bind_done by (by apply run_stale_check).
  assert (bool_decide (p_copy (a_obj_hdr a) ≠ NULL) && negb (lte_clock k (local_clk th)) = false) as ->.
  { case_bool_decide; [|done]. by rewrite Hvis. }
  cbv iota. rewrite run_bind Hrun -run_bind. exact Hrt.
Qed.



(** An object that is locked, or has a version too new for the section. *)
Definition refused (th : mvrlu_thread_struct) (a : mvrlu_act_hdr_struct) (k : Z) : Prop :=
  p_lock a ≠ NULL ∨ (p_copy (a_obj_hdr a) ≠ NULL ∧ lte_clock k (local_clk th) = false).

Lemma run_try_lock_refused w self th obj size p_act_ a k :
  w_thr w !! self = Some th →
  run (get_act_obj obj) w = Done p_act_ w →
  w_ahs w !! vobj_to_ahs p_act_ = Some a →
  ver_clk w (p_copy (a_obj_hdr a)) = Some k → refused th a k →
  run (_mvrlu_try_lock self obj size) w = Done None w.
Proof.
  intros Hth Hact Ha Hk Hor. unfold _mvrlu_try_lock. erewrite run_bind_done by exact Hact.
  xload. destruct (decide (p_lock a ≠ NULL)) as [|Hl]; [done|]. destruct Hor as [?|[Hn Hv]]; [done|].
  xload. erewrite run_bind_done by (by apply run_stale_check).
  by rewrite bool_decide_true // Hv.
Qed.

(** C31: an object that is locked, or whose newest version is too new
    for the section, is refused, and the attempt changes nothing: neither the
    object, nor the log, nor the section's write set.  The const variant
    refuses the same objects. *)
Theorem try_lock_refuses w self th obj size p_act_ a k :
  w_thr w !! self = Some th →
  run (get_act_obj obj) w = Done p_act_ w →
  w_ahs w !! vobj_to_ahs p_act_ = Some a →
  ver_clk w (p_copy (a_obj_hdr a)) = Some k → refused th a k →
  run (_mvrlu_try_lock self obj size) w = Done None w ∧
  run (_mvrlu_try_lock_const self obj size) w = Done false w.
Proof.
  intros. assert (∀ n, run (_mvrlu_try_lock self obj n) w = Done None w) as Hr
    by (intros n; by eapply run_try_lock_refused).
  split; [done|]. unfold _mvrlu_try_lock_const. by erewrite run_bind_done by apply Hr.
Qed.

(** The versions of an object are more than three times the
    uncertainty apart: if a section locked an object whose newest version is
    of clock [k], the clock its commit draws exceeds [k] by more than
    [3 * g_ordo_boundary], so that the two are ordered for every reader. *)
Theorem version_gap w self th obj size p_act_ a k p w1 fuel w2 new w3 :
  w_thr w !! self = Some th →
  run (get_act_obj obj) w = Done p_act_ w →
  w_ahs w !! vobj_to_ahs p_act_ = Some a →
  p_copy (a_obj_hdr a) ≠ NULL → ver_clk w (p_copy (a_obj_hdr a)) = Some k →
  sane_clock k → sane_clock (local_clk th) →
  run (_mvrlu_try_lock self obj size) w = Done (Some p) w1 →
  run (new_clock fuel (local_clk th)) w2 = Done new w3 →
  k + 3 * g_ordo_boundary < new ∧ ordo_cmp_clock k new = ORDO_LESS_THAN.
Proof.
  intros Hth Hact Ha Hn Hk Hsk Hsl Hr Hc.
  destruct (lte_clock k (local_clk th)) eqn:Hv.
  2:{ erewrite run_try_lock_refused in Hr; [done|done|done|done|done|by right]. }
  apply lt_clock_spec in Hv; [|done].
  destruct (run_new_clock_inv _ _ _ _ _ Hc) as (ts & tsc & _ & _ & _ & Hg). clear Hc Hr.
  unfold ordo_gt_clock, ordo_boundary in Hg. pose proof (sane_add (local_clk th) 1 Hsl) as E1.
  pose proof (sane_add (local_clk th) 2 Hsl) as E2. rewrite Z.mul_1_l in E1. rewrite -> E1 in Hg by lia.
  replace (local_clk th + g_ordo_boundary + g_ordo_boundary) with (local_clk th + 2 * g_ordo_boundary) in Hg by lia.
  rewrite -> E2 in Hg by lia. apply Z.ltb_lt in Hg. split; [lia|].
  unfold ordo_cmp_clock. assert (ordo_lt_clock k new = true) as ->; [|done].
  apply lt_clock_spec; [done|]. rewrite boundary_val in Hv, Hg |- *. lia.
Qed.
