(* ===== verification/Reclaim.v ===== *)
(** * Reclamation of a log ([log_reclaim])

    A log between its head and its tail is a sequence of committed write sets
    with increasing clocks.  [log_reclaim] drops the sets below the older
    bound, writes the newest versions of the sets below the younger bound back
    to their objects, and leaves the rest alone. *)

From Stdlib Require Import Sorted.
From S2P Require Import Prelude World OrdoClock Port Object Cells VersionLog LogLayout Commit.

(** ** One entry *)

(** What [log_reclaim] does to the objects for the entry [chs]. *)
Definition detach (h : mvrlu_cpy_hdr_struct) (chs : Z) (w : world) : world :=
  match w_ahs w !! obj_of h with
  | Some a =>
      if decide (p_copy (a_obj_hdr a) = chs_obj chs) then
        set_ahs (obj_of h) (a <| a_obj_hdr ::= λ o, o <| p_copy := NULL |> |>)
          (w <| w_data ::= λ d,
             <[p_act h := take (Z.to_nat (obj_size (c_obj_hdr h))) (default [] (d !! chs_obj chs)) ++
                          drop (Z.to_nat (obj_size (c_obj_hdr h))) (default [] (d !! p_act h))]> d |>)
      else w
  | None => w
  end.

Definition release (h : mvrlu_cpy_hdr_struct) (w : world) : world :=
  w <| w_mem ::= delete (GET_MEM (obj_of h)) |>
    <| w_ahs ::= delete (obj_of h) |>
    <| w_data ::= delete (obj_of h + sizeof_act_hdr_struct) |>
    <| w_thr ::= delete (obj_of h) |>
    <| w_node ::= delete (list_of (obj_of h)) |>.

Definition reclaim_entry (reclaim wb : bool) (chs : Z) (w : world) : world :=
  match w_chs w !! chs with
  | Some h =>
      match type (c_obj_hdr h) with
      | TYPE_COPY => if wb then detach h chs w else w
      | TYPE_FREE => if reclaim then release h w else w
      | _ => w
      end
  | None => w
  end.

(** The memory the entry leads to is mapped, and is not a thread structure. *)
Definition entry_mapped (reclaim wb : bool) (chs : Z) (w : world) : Prop :=
  ∃ h, w_chs w !! chs = Some h ∧
  (type (c_obj_hdr h) = TYPE_COPY → wb = true →
     ∃ a, w_ahs w !! obj_of h = Some a ∧ is_Some (w_data w !! chs_obj chs)) ∧
  (type (c_obj_hdr h) = TYPE_FREE → reclaim = true →
     is_Some (w_mem w !! GET_MEM (obj_of h)) ∧ w_thr w !! obj_of h = None ∧
     w_node w !! list_of (obj_of h) = None).

Lemma run_detach w chs h a :
  w_chs w !! chs = Some h → w_ahs w !! obj_of h = Some a → is_Some (w_data w !! chs_obj chs) →
  run (ok ← try_writeback_obj chs; when ok (try_detach_obj chs)) w = Done () (detach h chs w).
Proof.
  intros Hh Ha [bs Hbs]. unfold try_writeback_obj, detach. rewrite Ha.
  change (obj_of h) with (obj_to_ahs (p_act h)) in *.
  rewrite run_bind. xload. xload. case_decide as E.
  - rewrite run_ret. cbn [outcome_bind]. by rewrite decide_False.
  - assert (p_copy (a_obj_hdr a) = chs_obj chs) as E' by (destruct (decide (p_copy (a_obj_hdr a) = chs_obj chs)); [done|by destruct E]).
    rewrite decide_True //. xload. rewrite run_bind. unfold memcpy. rewrite run_act Hbs.
    cbn [outcome_bind]. rewrite run_ret. cbn [outcome_bind]. unfold when, try_detach_obj.
    xload. xload. rewrite decide_False; [by intros []|].
    erewrite run_bind_done; [|apply run_cas_hit; rewrite -E'; by apply ahs_hdr_get].
    rewrite run_ret. erewrite ahs_hdr_put by done. f_equal. unfold set_ahs. world_eq. by rewrite Hbs.
Qed.

Lemma run_reclaim_one w reclaim wb chs :
  entry_mapped reclaim wb chs w →
  run (reclaim_one reclaim wb chs) w = Done () (reclaim_entry reclaim wb chs w).
Proof.
  intros (h & Hh & Hcopy & Hfree). unfold reclaim_one, reclaim_entry. xload. rewrite Hh.
  destruct (type (c_obj_hdr h)) eqn:Et; try done.
  - destruct wb; [|done]. destruct (Hcopy eq_refl eq_refl) as (a & Ha & Hd). by eapply run_detach.
  - destruct reclaim; [|done]. destruct (Hfree eq_refl eq_refl) as ([sz Hsz] & Ht & Hn).
    unfold when, free_obj. xload. unfold port_free. rewrite run_act.
    fold (obj_of h). by rewrite Hsz.
Qed.

(** What stays while entries are reclaimed. *)
Record same_log (w w' : world) : Prop := SameLog {
  sl_chs : w_chs w' = w_chs w;
  sl_ws : w_ws w' = w_ws w;
  sl_thr : w_thr w' = w_thr w;
  sl_node : w_node w' = w_node w;
}.
#[export] Instance same_log_pre : PreOrder same_log.
Proof.
  split; [by intros w|]. intros w1 w2 w3 [] []. split; congruence.
Qed.

Lemma reclaim_entry_log reclaim wb chs w :
  entry_mapped reclaim wb chs w → same_log w (reclaim_entry reclaim wb chs w).
Proof.
  intros (h & Hh & Hcopy & Hfree). unfold reclaim_entry. rewrite Hh.
  destruct (type (c_obj_hdr h)) eqn:Et; try done.
  - destruct wb; [|done]. unfold detach. destruct (w_ahs w !! _); [|done]. by case_decide.
  - destruct reclaim; [|done]. destruct (Hfree eq_refl eq_refl) as (_ & Ht & Hn).
    unfold release. split; cbn; try done; by apply delete_id.
Qed.

(** ** One write set *)

Definition reclaim_entries (reclaim wb : bool) (es : list Z) (w : world) : world :=
  foldl (λ w chs, reclaim_entry reclaim wb chs w) w es.

Fixpoint entries_mapped (reclaim wb : bool) (es : list Z) (w : world) : Prop :=
  match es with
  | [] => True
  | chs :: es' => entry_mapped reclaim wb chs w ∧
                  entries_mapped reclaim wb es' (reclaim_entry reclaim wb chs w)
  end.

Lemma run_reclaim_entries reclaim wb es w :
  entries_mapped reclaim wb es w →
  run (fold_each es (λ chs _, reclaim_one reclaim wb chs) ()) w =
  Done () (reclaim_entries reclaim wb es w).
Proof.
  revert w. induction es as [|chs es IH]; intros w; [done|]. intros [Hm Hms].
  rewrite run_fold_each_cons (run_reclaim_one w) //. cbn [outcome_bind]. by apply IH.
Qed.

Lemma reclaim_entries_log reclaim wb es w :
  entries_mapped reclaim wb es w → same_log w (reclaim_entries reclaim wb es w).
Proof.
  revert w. induction es as [|chs es IH]; intros w; [done|]. intros [Hm Hms].
  etrans; [by apply reclaim_entry_log|]. by apply IH.
Qed.

(** No object that is to be freed is a thread structure. *)
Definition no_thread_objs (w : world) : Prop :=
  ∀ chs h, w_chs w !! chs = Some h →
    w_thr w !! obj_of h = None ∧ w_node w !! list_of (obj_of h) = None.

Lemma reclaim_one_same_log reclaim wb chs w a w' :
  no_thread_objs w → run (reclaim_one reclaim wb chs) w = Done a w' → same_log w w'.
Proof.
  intros Hno. unfold reclaim_one. rewrite run_bind.
  destruct (w_chs w !! chs) as [h|] eqn:Eh.
  2:{ unfold load. rewrite run_act. unfold lget. cbn. by rewrite Eh. }
  erewrite run_load by (by apply chs_hdr_get). cbn [outcome_bind].
  destruct (Hno _ _ Eh) as [Ht Hn].
  assert (∀ b, keeps same_log (if b : bool then ok ← try_writeback_obj chs; when ok (try_detach_obj chs)
                          else mret ())) as Hk.
  { intros []; [|done]. unfold try_writeback_obj, try_detach_obj.
    repeat first [apply keeps_ret | apply keeps_bind; [|intros ?] | apply keeps_when
      | apply keeps_load; apply _ | apply keeps_cas; [apply _|done] | case_decide | done].
    apply keeps_act. intros w1 b w2. destruct (w_data w1 !! _); [|done]. by intros [= _ <-]. }
  destruct (type (c_obj_hdr h)); try by intros [= _ <-].
  - intros Hr. eapply keeps_run; [apply _|apply Hk|exact Hr].
  - destruct reclaim; [|by intros [= _ <-]]. unfold when, free_obj. rewrite run_bind.
    erewrite run_load by (by apply chs_get). cbn [outcome_bind]. unfold port_free. rewrite run_act.
    fold (obj_of h). destruct (w_mem w !! _); [|done]. intros [= _ <-].
    split; cbn; try done; by apply delete_id.
Qed.

Lemma same_log_layout w w' : same_log w w' → same_layout w w'.
Proof. intros []. split; intros; congruence. Qed.

Lemma no_thread_objs_log w w' : same_log w w' → no_thread_objs w → no_thread_objs w'.
Proof. intros [E1 E2 E3 E4] H chs h. rewrite E1 E3 E4. apply H. Qed.

Lemma run_reclaim_set self w th c es e h s reclaim wb :
  w_thr w !! self = Some th → ws_rep w (buffer (log th)) self c es e h s → 0 ≤ c →
  no_thread_objs w → entries_mapped reclaim wb es w →
  run (ws_for_each (log_of self) (chs_obj (buffer (log th) + log_index c))
         (λ chs _, reclaim_one reclaim wb chs) ()) w =
  Done (e, ()) (reclaim_entries reclaim wb es w).
Proof.
  intros Hth Hrep Hc Hno Hm.
  erewrite (run_ws_for_each_rep_inv no_thread_objs); [|exact Hth|exact Hrep|done|done|].
  - by rewrite run_reclaim_entries.
  - intros chs [] w1 [] w2 _ Hn Hr. pose proof (reclaim_one_same_log _ _ _ _ _ _ Hn Hr) as Hl.
    split; [by eapply no_thread_objs_log|by apply same_log_layout].
Qed.

(** ** The sequence of write sets *)

(** A committed set: its entries, its cell and the count behind it. *)
Record log_set := LogSet { ls_es : list Z; ls_ws : mvrlu_wrt_set; ls_end : Z }.
Definition ls_clk (l : log_set) : Z := wrt_clk (ls_ws l).

Inductive log_sets (w : world) (buf self : Z) : Z → list log_set → Z → Prop :=
| log_sets_nil c : log_sets w buf self c [] c
| log_sets_cons c h x l e :
    ws_rep w buf self c (ls_es x) (ls_end x) h (ls_ws x) → 0 ≤ c →
    log_sets w buf self (ls_end x) l e → log_sets w buf self c (x :: l) e.

Lemma log_sets_log w w' buf self c l e :
  w_chs w' = w_chs w → w_ws w' = w_ws w →
  log_sets w buf self c l e → log_sets w' buf self c l e.
Proof.
  intros E1 E2. induction 1 as [|c h x l e [] Hc Hl IH]; [constructor|].
  econstructor; [|done|done]. split; try done; by rewrite ?E1 ?E2.
Qed.

Lemma ws_rep_lt w buf self c es e h s : ws_rep w buf self c es e h s → c < e.
Proof. intros [_ _ ? _ _ _ _ _ ?%entries_le]. lia. Qed.

Lemma log_sets_le w buf self c l e : log_sets w buf self c l e → c ≤ e.
Proof. induction 1 as [|c h x l e Hr Hc Hl IH]; [lia|]. apply ws_rep_lt in Hr. lia. Qed.

(** Whether [log_reclaim] stops before a set, and what it does with it. *)
Definition stops (q1 : Z) (x : log_set) : bool :=
  gte_clock (ls_clk x) q1 && negb (ls_clk x =? q1).
Definition drops (q2 : Z) (x : log_set) : bool := lte_clock (ls_clk x) q2.
Definition writes_back (q1 q2 : Z) (x : log_set) : bool :=
  negb (drops q2 x) && lte_clock (ls_clk x) q1.

Definition set_head (self e : Z) (w : world) : world :=
  w <| w_thr ::= alter (λ th, th <| log ::= λ g, g <| head_cnt := e |> |>) self |>.

(** The state after the sets [l]. *)
Fixpoint reclaim_sets (self q1 q2 : Z) (l : list log_set) (w : world) : world :=
  match l with
  | [] => w
  | x :: l' =>
      if stops q1 x then w else
      let w1 := reclaim_entries (drops q2 x) (writes_back q1 q2 x) (ls_es x) w in
      reclaim_sets self q1 q2 l' (if drops q2 x then set_head self (ls_end x) w1 else w1)
  end.

Fixpoint sets_mapped (self q1 q2 : Z) (l : list log_set) (w : world) : Prop :=
  match l with
  | [] => True
  | x :: l' =>
      stops q1 x = false →
      entries_mapped (drops q2 x) (writes_back q1 q2 x) (ls_es x) w ∧
      let w1 := reclaim_entries (drops q2 x) (writes_back q1 q2 x) (ls_es x) w in
      sets_mapped self q1 q2 l' (if drops q2 x then set_head self (ls_end x) w1 else w1)
  end.

Lemma log_index_idem c : log_index (log_index c) = log_index c.
Proof. rewrite !log_index_mod. apply Z.mod_mod. done. Qed.

Lemma set_head_put self e w th :
  w_thr w !! self = Some th →
  set_head self e w = set_thr self (th <| log ::= λ g, g <| head_cnt := e |> |>) w.
Proof. intros H. unfold set_head, set_thr. world_eq. by erewrite alter_Some. Qed.

(** The step of the loop of [log_reclaim] on a set. *)
Lemma run_reclaim_step self w th c h x q1 q2 tail :
  w_thr w !! self = Some th →
  ws_rep w (buffer (log th)) self c (ls_es x) (ls_end x) h (ls_ws x) → 0 ≤ c → c < tail →
  no_thread_objs w →
  (stops q1 x = false → entries_mapped (drops q2 x) (writes_back q1 q2 x) (ls_es x) w) →
  run (reclaim_step (log_of self) q1 q2 tail c) w =
  if stops q1 x then Done (inr ()) w else
  let w1 := reclaim_entries (drops q2 x) (writes_back q1 q2 x) (ls_es x) w in
  Done (inl (ls_end x)) (if drops q2 x then set_head self (ls_end x) w1 else w1).
Proof.
  intros Hth Hrep Hc Hlt Hno Hm. unfold reclaim_step.
  rewrite (proj2 (Z.ltb_lt c tail) Hlt). unfold log_at_wss.
  erewrite run_bind_done by (by apply run_log_at). rewrite log_index_idem.
  pose proof (wr_ws _ _ _ _ _ _ _ _ Hrep) as Hws. xload. fold (ls_clk x).
  rewrite run_bind.
  assert (run (if gte_clock (ls_clk x) q1 then
     c0 ← load (ws_loc wrt_clk (chs_obj (buffer (log th) + log_index c))); mret (negb (c0 =? q1))
     else mret false) w = Done (stops q1 x) w) as ->.
  { unfold stops. destruct (gte_clock _ _); [|done]. xload. done. }
  cbn [outcome_bind]. destruct (stops q1 x); [done|]. specialize (Hm eq_refl).
  xload. fold (ls_clk x). rewrite run_bind.
  assert (run (if lte_clock (ls_clk x) q2 then mret (true, false) else
     c0 ← load (ws_loc wrt_clk (chs_obj (buffer (log th) + log_index c)));
     mret (false, lte_clock c0 q1)) w = Done (drops q2 x, writes_back q1 q2 x) w) as ->.
  { unfold writes_back, drops. destruct (lte_clock _ q2); [done|]. xload. done. }
  cbn [outcome_bind]. erewrite run_bind_done by (by eapply run_reclaim_set).
  set (w1 := reclaim_entries _ _ _ _).
  assert (w_thr w1 !! self = Some th) as Hth1.
  { destruct (reclaim_entries_log _ _ _ _ Hm) as [_ _ E _]. unfold w1. by rewrite E. }
  cbv beta iota zeta. unfold when. destruct (drops q2 x).
  - xstore. by erewrite set_head_put.
  - done.
Qed.

Lemma set_head_log self e w : w_chs (set_head self e w) = w_chs w ∧ w_ws (set_head self e w) = w_ws w.
Proof. done. Qed.

(** The state between two sets. *)
Lemma reclaim_set_next self w th q2 e x wb (w1 := reclaim_entries (drops q2 x) wb (ls_es x) w)
    (w2 := if drops q2 x then set_head self e w1 else w1) :
  w_thr w !! self = Some th → no_thread_objs w → entries_mapped (drops q2 x) wb (ls_es x) w →
  w_chs w2 = w_chs w ∧ w_ws w2 = w_ws w ∧ w_node w2 = w_node w ∧ no_thread_objs w2 ∧
  w_thr w2 !! self =
    Some (if drops q2 x then th <| log ::= λ g, g <| head_cnt := e |> |> else th).
Proof.
  intros Hth Hno Hm. destruct (reclaim_entries_log _ _ _ _ Hm) as [E1 E2 E3 E4]. fold w1 in E1, E2, E3, E4.
  assert (no_thread_objs w1) as Hno1 by (by eapply no_thread_objs_log; [split|]).
  unfold w2. destruct (drops q2 x); split_and!; try done.
  - intros chs h Hh. destruct (Hno1 chs h Hh) as [Ht Hn]. split; [|done]. cbn.
    by apply lookup_alter_None.
  - cbn. by rewrite lookup_alter_eq E3 Hth.
  - by rewrite E3.
Qed.

Lemma run_reclaim_loop fuel self w th c l q1 q2 tail :
  w_thr w !! self = Some th → log_sets w (buffer (log th)) self c l tail →
  no_thread_objs w → sets_mapped self q1 q2 l w → (length l < fuel)%nat →
  run (loop fuel (reclaim_step (log_of self) q1 q2 tail) c) w =
  Done () (reclaim_sets self q1 q2 l w).
Proof.
  revert fuel w th c. induction l as [|x l IH]; intros fuel w th c Hth Hls Hno Hm Hf;
    (destruct fuel as [|fuel]; [cbn in Hf; lia|]).
  - inversion Hls; subst. apply run_loop_exit. unfold reclaim_step.
    by rewrite Z.ltb_irrefl.
  - inversion Hls as [|? h ? ? ? Hrep Hc Hls']; subst. cbn [sets_mapped reclaim_sets] in *.
    pose proof (ws_rep_lt _ _ _ _ _ _ _ _ Hrep) as Hlt. pose proof (log_sets_le _ _ _ _ _ _ Hls').
    rewrite run_loop_S (run_reclaim_step self w th c h x); [done..|lia|done| |].
    { intros Hs. by destruct (Hm Hs). }
    destruct (stops q1 x) eqn:Es; [done|]. cbn [outcome_bind]. destruct (Hm eq_refl) as [Hm1 Hm2].
    destruct (reclaim_set_next self w th q2 (ls_end x) x (writes_back q1 q2 x) Hth Hno Hm1)
      as (E1 & E2 & _ & Hno2 & Hth2).
    eapply IH; [exact Hth2| |done|exact Hm2|cbn in Hf; lia].
    assert (buffer (log (if drops q2 x then th <| log ::= λ g, g <| head_cnt := ls_end x |> |> else th))
      = buffer (log th)) as -> by (by destruct (drops q2 x)).
    by eapply log_sets_log.
Qed.

(** ** Why every access is to mapped memory *)

(** The entries met, with what is to be done with them. *)
Record op := Op { op_free : bool; op_wb : bool; op_chs : Z }.

Fixpoint ops_of (q1 q2 : Z) (l : list log_set) : list op :=
  match l with
  | [] => []
  | x :: l' =>
      if stops q1 x then []
      else (Op (drops q2 x) (writes_back q1 q2 x) <$> ls_es x) ++ ops_of q1 q2 l'
  end.

(** The object an operation frees. *)
Definition frees_obj (w : world) (o : op) : option Z :=
  match w_chs w !! op_chs o with
  | Some h => if op_free o && bool_decide (type (c_obj_hdr h) = TYPE_FREE) then Some (obj_of h) else None
  | None => None
  end.

(** Each object to free is allocated and met once; the objects to write back
    exist and are not among them. *)
Record ops_safe (w : world) (ops : list op) : Prop := OpsSafe {
  os_hdr : ∀ o, o ∈ ops → is_Some (w_chs w !! op_chs o);
  os_nodup : NoDup (omap (frees_obj w) ops);
  os_mem : ∀ p, p ∈ omap (frees_obj w) ops → is_Some (w_mem w !! GET_MEM p);
  os_wb : ∀ o h, o ∈ ops → op_wb o = true → w_chs w !! op_chs o = Some h →
    type (c_obj_hdr h) = TYPE_COPY →
    is_Some (w_ahs w !! obj_of h) ∧ is_Some (w_data w !! chs_obj (op_chs o)) ∧
    ∀ p, p ∈ omap (frees_obj w) ops → p ≠ obj_of h ∧ ahs_obj p ≠ chs_obj (op_chs o);
}.

Lemma frees_obj_log w w' : w_chs w' = w_chs w → frees_obj w' = frees_obj w.
Proof. intros E. unfold frees_obj. by rewrite E. Qed.

Lemma omap_cons_incl {A B} (f : A → option B) x l y : y ∈ omap f l → y ∈ omap f (x :: l).
Proof. cbn. destruct (f x); set_solver. Qed.

Lemma ops_safe_mapped w o ops :
  no_thread_objs w → ops_safe w (o :: ops) → entry_mapped (op_free o) (op_wb o) (op_chs o) w.
Proof.
  intros Hno [Hh Hnd Hm Hwb]. destruct (Hh o) as [h Eh]; [set_solver|].
  exists h. split; [done|]. split.
  - intros Et Eb. destruct (Hwb o h) as ([a Ha] & Hd & _); [set_solver|done..|]. by exists a.
  - intros Et Ef. destruct (Hno _ _ Eh) as [Ht Hn]. split; [|done]. apply Hm.
    cbn. unfold frees_obj. rewrite Eh Ef Et /=. set_solver.
Qed.

Lemma detach_keeps h chs w :
  w_mem (detach h chs w) = w_mem w ∧
  (∀ x, is_Some (w_ahs w !! x) → is_Some (w_ahs (detach h chs w) !! x)) ∧
  (∀ x, is_Some (w_data w !! x) → is_Some (w_data (detach h chs w) !! x)).
Proof.
  unfold detach. destruct (w_ahs w !! obj_of h) eqn:E; [|done]. case_decide; [|done].
  cbn. split_and!; [done| |]; intros x Hx; by apply lookup_insert_is_Some'; right.
Qed.

Lemma ops_safe_step w o ops :
  no_thread_objs w → ops_safe w (o :: ops) →
  ops_safe (reclaim_entry (op_free o) (op_wb o) (op_chs o) w) ops.
Proof.
  intros Hno Hs. pose proof (ops_safe_mapped _ _ _ Hno Hs) as Hmap.
  destruct (reclaim_entry_log _ _ _ _ Hmap) as [Ec _ _ _]. destruct Hs as [Hh Hnd Hm Hwb].
  set (w' := reclaim_entry _ _ _ _) in *.
  assert (∀ p, p ∈ omap (frees_obj w) ops → frees_obj w o ≠ Some p) as Hdis.
  { intros p Hp E. cbn in Hnd. rewrite E in Hnd. by apply NoDup_cons in Hnd as [? _]. }
  assert (∀ p, p ∈ omap (frees_obj w) ops → w_mem w' !! GET_MEM p = w_mem w !! GET_MEM p) as Kmem.
  { intros p Hp. specialize (Hdis p Hp). unfold w', reclaim_entry, frees_obj in *.
    destruct (w_chs w !! op_chs o) as [h|] eqn:Eh; [|done]. destruct (type (c_obj_hdr h)) eqn:Et; try done.
    - destruct (op_wb o); [|done]. by destruct (detach_keeps h (op_chs o) w) as [-> _].
    - destruct (op_free o); [|done]. cbn in Hdis |- *. rewrite lookup_delete_ne //.
      unfold GET_MEM. intros E. apply Hdis. f_equal. lia. }
  assert (∀ x, frees_obj w o ≠ Some x → is_Some (w_ahs w !! x) → is_Some (w_ahs w' !! x)) as Kahs.
  { intros x Hx Hs. unfold w', reclaim_entry, frees_obj in *.
    destruct (w_chs w !! op_chs o) as [h|] eqn:Eh; [|done]. destruct (type (c_obj_hdr h)) eqn:Et; try done.
    - destruct (op_wb o); [|done]. by apply detach_keeps.
    - destruct (op_free o); [|done]. cbn in Hx |- *. rewrite lookup_delete_ne //. intros E. apply Hx. by f_equal. }
  assert (∀ x, (∀ p, frees_obj w o = Some p → ahs_obj p ≠ x) →
               is_Some (w_data w !! x) → is_Some (w_data w' !! x)) as Kdata.
  { intros x Hx Hs. unfold w', reclaim_entry, frees_obj in *.
    destruct (w_chs w !! op_chs o) as [h|] eqn:Eh; [|done]. destruct (type (c_obj_hdr h)) eqn:Et; try done.
    - destruct (op_wb o); [|done]. by apply detach_keeps.
    - destruct (op_free o); [|done]. cbn in Hx |- *. rewrite lookup_delete_ne //.
      by apply (Hx _ eq_refl). }
  split; rewrite ?(frees_obj_log _ _ Ec) ?Ec.
  - intros o' Ho'. apply Hh. set_solver.
  - revert Hnd. cbn. destruct (frees_obj w o); [by intros [_ ?]%NoDup_cons|done].
  - intros p Hp. rewrite Kmem //. apply Hm. by apply omap_cons_incl.
  - intros o' h Ho' Eb Eh Et. destruct (Hwb o' h) as (Ha & Hd & Hp); [set_solver|done..|].
    split_and!.
    + apply Kahs; [|done]. intros E. destruct (Hp (obj_of h)) as [? _]; [|done]. cbn. rewrite E. set_solver.
    + apply Kdata; [|done]. intros p E. apply Hp. cbn. rewrite E. set_solver.
    + intros p Hin. apply Hp. by apply omap_cons_incl.
Qed.

Lemma ops_safe_entries r b es ops w :
  no_thread_objs w → ops_safe w ((Op r b <$> es) ++ ops) →
  entries_mapped r b es w ∧ ops_safe (reclaim_entries r b es w) ops.
Proof.
  revert w. induction es as [|chs es IH]; intros w Hno Hs; [done|]. cbn in Hs.
  pose proof (ops_safe_mapped _ _ _ Hno Hs) as Hm. pose proof (ops_safe_step _ _ _ Hno Hs) as Hs'.
  cbn in Hm, Hs'. destruct (IH _ (no_thread_objs_log _ _ (reclaim_entry_log _ _ _ _ Hm) Hno) Hs').
  done.
Qed.

Lemma ops_safe_head self e w ops : ops_safe w ops → ops_safe (set_head self e w) ops.
Proof. intros []. by split. Qed.

Lemma ops_safe_sets self q1 q2 l w :
  no_thread_objs w → is_Some (w_thr w !! self) → ops_safe w (ops_of q1 q2 l) →
  sets_mapped self q1 q2 l w.
Proof.
  revert w. induction l as [|x l IH]; intros w Hno [th Hth] Hs; [done|]. cbn in Hs |- *.
  intros Es. rewrite Es in Hs. destruct (ops_safe_entries _ _ _ _ _ Hno Hs) as [Hm Hs'].
  split; [done|].
  destruct (reclaim_set_next self w th q2 (ls_end x) x (writes_back q1 q2 x) Hth Hno Hm)
    as (_ & _ & _ & Hno' & Hth').
  apply IH; [done|by rewrite Hth'|]. destruct (drops q2 x); [by apply ops_safe_head|done].
Qed.

(** ** The new head *)

Fixpoint new_head (q1 q2 hd : Z) (l : list log_set) : Z :=
  match l with
  | [] => hd
  | x :: l' => if stops q1 x then hd else new_head q1 q2 (if drops q2 x then ls_end x else hd) l'
  end.

Definition with_head (e : Z) (th : mvrlu_thread_struct) : mvrlu_thread_struct :=
  th <| log ::= λ g, g <| head_cnt := e |> |>.

Lemma with_head_id th : with_head (head_cnt (log th)) th = th.
Proof. by destruct th as [???????[]??]. Qed.

Lemma reclaim_sets_result self q1 q2 l w th :
  w_thr w !! self = Some th → no_thread_objs w → sets_mapped self q1 q2 l w →
  let w' := reclaim_sets self q1 q2 l w in
  w_chs w' = w_chs w ∧ w_ws w' = w_ws w ∧
  w_thr w' !! self = Some (with_head (new_head q1 q2 (head_cnt (log th)) l) th).
Proof.
  revert w th. induction l as [|x l IH]; intros w th Hth Hno Hm; cbn in Hm |- *.
  { by rewrite with_head_id. }
  destruct (stops q1 x); [by rewrite with_head_id|]. destruct (Hm eq_refl) as [Hm1 Hm2].
  destruct (reclaim_set_next self w th q2 (ls_end x) x (writes_back q1 q2 x) Hth Hno Hm1)
    as (E1 & E2 & _ & Hno' & Hth').
  destruct (IH _ _ Hth' Hno' Hm2) as (F1 & F2 & F3). rewrite F1 F2 F3 E1 E2. split_and!; try done.
  f_equal. by destruct (drops q2 x).
Qed.

(** Clocks grow along the log, so the dropped sets are a prefix of it. *)
Definition increasing (l : list log_set) : Prop :=
  StronglySorted (λ x y, ls_clk x < ls_clk y) l ∧ ∀ x, x ∈ l → 0 ≤ ls_clk x ≤ ULONG_MAX.

Lemma increasing_cons x l :
  increasing (x :: l) →
  increasing l ∧ 0 ≤ ls_clk x ≤ ULONG_MAX ∧ ∀ y, y ∈ l → ls_clk x < ls_clk y.
Proof.
  intros [Hs Hr]. apply StronglySorted_inv in Hs as [Hs Hf].
  split_and!; [split; [done|set_solver]|apply Hr; set_solver|apply Hr; set_solver|].
  intros y Hy. rewrite Forall_forall in Hf. by apply Hf.
Qed.

Lemma stops_or_stays q1 q2 x :
  sane_clock q1 → q2 ≤ q1 → 0 ≤ ls_clk x → q2 ≤ ls_clk x + g_ordo_boundary →
  stops q1 x = true ∨ drops q2 x = false.
Proof.
  intros Hq1 Hq Hx Hge. unfold stops, drops, gte_clock, lte_clock.
  destruct (ordo_gt_clock (ls_clk x) q1) eqn:Eg.
  - left. apply gt_clock_spec in Eg; [|done]. rewrite boundary_val in Eg.
    cbn. apply negb_true_iff, Z.eqb_neq. lia.
  - right. apply gt_clock_false in Eg; [|done]. unfold sane_clock in Hq1. unfold ordo_lt_clock.
    rewrite boundary_val in Hq1, Eg, Hge |- *. rewrite wrap64_small; [lia|]. apply Z.ltb_ge. lia.
Qed.

Lemma new_head_stay q1 q2 hd l :
  (∀ x, x ∈ l → stops q1 x = true ∨ drops q2 x = false) → new_head q1 q2 hd l = hd.
Proof.
  induction l as [|x l IH]; intros H; [done|]. cbn. destruct (stops q1 x) eqn:Es; [done|].
  destruct (H x) as [?| ->]; [set_solver|congruence|]. apply IH. set_solver.
Qed.

Lemma stops_false_drops q1 q2 x :
  sane_clock q1 → 0 ≤ ls_clk x → stops q1 x = false → drops q2 x = true ↔ ls_clk x + g_ordo_boundary < q2.
Proof.
  intros Hq1 Hx. unfold stops, drops, gte_clock, lte_clock, sane_clock in *.
  destruct (ordo_gt_clock (ls_clk x) q1) eqn:Eg.
  - apply gt_clock_spec in Eg; [|done]. rewrite boundary_val in Eg. cbn.
    intros E. apply negb_false_iff, Z.eqb_eq in E. lia.
  - intros _. apply gt_clock_false in Eg; [|done]. unfold ordo_lt_clock.
    rewrite boundary_val in Hq1, Eg |- *. rewrite wrap64_small; [lia|]. apply Z.ltb_lt.
Qed.

Lemma new_head_split q1 q2 w buf self hd l tail :
  sane_clock q1 → q2 ≤ q1 → increasing l → log_sets w buf self hd l tail →
  ∃ l1 l2, l = l1 ++ l2 ∧
    (∀ x, x ∈ l1 → ls_clk x + g_ordo_boundary < q2) ∧
    (∀ x, x ∈ l2 → q2 ≤ ls_clk x + g_ordo_boundary) ∧
    log_sets w buf self (new_head q1 q2 hd l) l2 tail.
Proof.
  intros Hq1 Hq. revert hd. induction l as [|x l IH]; intros hd Hinc Hls.
  { exists [], []. split_and!; try done; set_solver. }
  destruct (increasing_cons _ _ Hinc) as (Hinc' & Hr & Hlt).
  destruct (decide (ls_clk x + g_ordo_boundary < q2)) as [Hd|Hd].
  - assert (stops q1 x = false) as Es.
    { unfold stops, gte_clock. rewrite boundary_val in Hd.
      destruct (ordo_gt_clock (ls_clk x) q1) eqn:Eg; [|done].
      apply gt_clock_spec in Eg; [|done]. rewrite boundary_val in Eg. lia. }
    inversion Hls as [|? h ? ? ? Hrep Hc Hls']; subst.
    destruct (IH (ls_end x) Hinc' Hls') as (l1 & l2 & -> & H1 & H2 & H3).
    exists (x :: l1), l2. cbn. rewrite Es.
    rewrite (proj2 (stops_false_drops q1 q2 x Hq1 ltac:(lia) Es) Hd).
    split_and!; [done| |done|done]. intros y [->|Hy]%elem_of_cons; auto.
  - exists [], (x :: l). split_and!; [done|set_solver| |].
    + intros y [->|Hy]%elem_of_cons; [lia|]. specialize (Hlt y Hy). lia.
    + rewrite new_head_stay //. intros y Hy. apply stops_or_stays; [done|done| |].
      * destruct Hinc as [_ Hb]. by apply Hb.
      * apply elem_of_cons in Hy as [->|Hy]; [lia|]. specialize (Hlt y Hy). lia.
Qed.

(** ** The whole reclamation *)

Definition locked_thread (th : mvrlu_thread_struct) : mvrlu_thread_struct :=
  th <| log ::= λ g, g <| reclaim_lock := 1 |> |>.

Definition reclaimed_thread (hd : Z) (th : mvrlu_thread_struct) : mvrlu_thread_struct :=
  th <| log ::= λ g, g <| head_cnt := hd |> <| need_reclaim := 0 |> <| reclaim_lock := 0 |> |>.

Lemma run_log_reclaim fuel w self th l :
  let q1 := qp_clk1 (log th) in
  let q2 := qp_clk2 (log th) in
  w_thr w !! self = Some th → need_reclaim (log th) ≠ 0 → reclaim_lock (log th) = 0 →
  log_sets w (buffer (log th)) self (head_cnt (log th)) l (tail_cnt (log th)) →
  no_thread_objs w → ops_safe w (ops_of q1 q2 l) → (length l < fuel)%nat →
  run (log_reclaim fuel (log_of self)) w =
  Done () (set_thr self (reclaimed_thread (new_head q1 q2 (head_cnt (log th)) l) th)
             (reclaim_sets self q1 q2 l (set_thr self (locked_thread th) w))).
Proof.
  intros q1 q2 Hth Hnr Hrl Hls Hno Hs Hf. unfold log_reclaim. xload. rewrite decide_False //.
  set (w1 := set_thr self (locked_thread th) w).
  assert (run (try_lock (log_loc reclaim_lock (log_of self))) w = Done true w1) as Hl.
  { unfold try_lock. xload. destruct (decide _); [|done].
    erewrite run_cas_hit; [|rewrite -Hrl; by apply log_get]. by erewrite log_put. }
  erewrite run_bind_done by exact Hl. cbn [negb].
  assert (w_thr w1 !! self = Some (locked_thread th)) as Hth1 by (unfold w1; cell).
  assert (no_thread_objs w1) as Hno1.
  { intros chs h Hh. destruct (Hno chs h Hh) as [Ht Hn]. split; [|done]. cbn.
    rewrite lookup_insert_ne //. intros E. rewrite -E in Ht. congruence. }
  assert (sets_mapped self q1 q2 l w1) as Hm.
  { apply ops_safe_sets; [done|by rewrite Hth1|]. destruct Hs. by split. }
  xload. xload. xload. xload. cbn [log locked_thread qp_clk1 qp_clk2 head_cnt tail_cnt field_map].
  erewrite run_bind_done.
  2:{ eapply run_reclaim_loop; [exact Hth1| |exact Hno1|exact Hm|exact Hf].
      cbn. by eapply log_sets_log; [| |exact Hls]. }
  destruct (reclaim_sets_result self q1 q2 l w1 _ Hth1 Hno1 Hm) as (_ & _ & Hth2).
  xstore. unfold unlock. xstore_last. done.
Qed.

(** C11: [log_reclaim] ends, within one step per write set, with the
    head of the log moved behind exactly the sets older than the grace period
    [qp_clk2]; the log from the new head to the tail is again a sequence of
    well-formed committed sets, and the request and the lock are cleared. *)
Theorem reclaim_drops_old_sets fuel w self th l :
  let q1 := qp_clk1 (log th) in
  let q2 := qp_clk2 (log th) in
  w_thr w !! self = Some th → need_reclaim (log th) ≠ 0 → reclaim_lock (log th) = 0 →
  log_sets w (buffer (log th)) self (head_cnt (log th)) l (tail_cnt (log th)) →
  increasing l → sane_clock q1 → q2 ≤ q1 →
  no_thread_objs w → ops_safe w (ops_of q1 q2 l) → (length l < fuel)%nat →
  ∃ w' l1 l2 hd,
    run (log_reclaim fuel (log_of self)) w = Done () w' ∧
    l = l1 ++ l2 ∧
    (∀ x, x ∈ l1 → ls_clk x + g_ordo_boundary < q2) ∧
    (∀ x, x ∈ l2 → q2 ≤ ls_clk x + g_ordo_boundary) ∧
    w_thr w' !! self = Some (reclaimed_thread hd th) ∧
    log_sets w' (buffer (log th)) self hd l2 (tail_cnt (log th)).
Proof.
  intros q1 q2 Hth Hnr Hrl Hls Hinc Hq1 Hq Hno Hs Hf.
  destruct (new_head_split q1 q2 w (buffer (log th)) self _ l _ Hq1 Hq Hinc Hls)
    as (l1 & l2 & El & H1 & H2 & H3).
  eexists _, l1, l2, (new_head q1 q2 (head_cnt (log th)) l). split; [by apply run_log_reclaim|].
  split_and!; [done..|cell|].
  set (w1 := set_thr self (locked_thread th) w).
  assert (no_thread_objs w1) as Hno1.
  { intros chs h Hh. destruct (Hno chs h Hh) as [Ht Hn]. split; [|done]. cbn.
    rewrite lookup_insert_ne //. intros E. rewrite -E in Ht. congruence. }
  assert (w_thr w1 !! self = Some (locked_thread th)) as Hth1 by (unfold w1; cell).
  destruct (reclaim_sets_result self q1 q2 l w1 _ Hth1 Hno1) as (E1 & E2 & _).
  { apply ops_safe_sets; [done|by rewrite Hth1|]. destruct Hs. by split. }
  eapply log_sets_log; [exact E1|exact E2|]. by eapply log_sets_log; [| |exact H3].
Qed.

(** ** What reclamation does to the objects *)

(** States that agree on objects, versions and contents. *)
Record obj_eq (w1 w2 : world) : Prop := ObjEq {
  oe_chs : w_chs w1 = w_chs w2;
  oe_ahs : w_ahs w1 = w_ahs w2;
  oe_data : w_data w1 = w_data w2;
}.
#[export] Instance obj_eq_equiv : Equivalence obj_eq.
Proof.
  split; [by intros w|by intros w1 w2 []|]. intros w1 w2 w3 [] []. split; congruence.
Qed.

Definition do_op (w : world) (o : op) : world := reclaim_entry (op_free o) (op_wb o) (op_chs o) w.

#[export] Instance do_op_proper : Proper (obj_eq ==> eq ==> obj_eq) do_op.
Proof.
  intros w1 w2 [E1 E2 E3] o _ <-. unfold do_op, reclaim_entry, detach, release.
  rewrite E1. destruct (w_chs w2 !! op_chs o) as [h|]; [|done].
  destruct (type (c_obj_hdr h)); try done.
  - destruct (op_wb o); [|done]. rewrite E2. destruct (w_ahs w2 !! obj_of h); [|done].
    case_decide; [|done]. split; cbn; congruence.
  - destruct (op_free o); [|done]. split; cbn; congruence.
Qed.

#[export] Instance do_ops_proper : Proper (obj_eq ==> eq ==> obj_eq) (foldl do_op).
Proof.
  intros w1 w2 Hw ops _ <-. revert w1 w2 Hw.
  induction ops as [|o ops IH]; intros w1 w2 Hw; [done|]. cbn. apply IH. by rewrite Hw.
Qed.

Lemma reclaim_entries_ops r b es w : reclaim_entries r b es w = foldl do_op w (Op r b <$> es).
Proof. revert w. induction es as [|x es IH]; intros w; [done|]. apply IH. Qed.

Lemma reclaim_sets_ops self q1 q2 l w :
  obj_eq (reclaim_sets self q1 q2 l w) (foldl do_op w (ops_of q1 q2 l)).
Proof.
  revert w. induction l as [|x l IH]; intros w; [done|]. cbn. destruct (stops q1 x); [done|].
  rewrite foldl_app -reclaim_entries_ops IH. apply do_ops_proper; [|done].
  by destruct (drops q2 x).
Qed.

Lemma do_op_chs w o : w_chs (do_op w o) = w_chs w.
Proof.
  unfold do_op, reclaim_entry, detach. repeat (case_match; try done).
Qed.

(** The object at [o], with header [a], after one operation. *)
Definition touches (w : world) (o : Z) (a : mvrlu_act_hdr_struct) (x : op) : Prop :=
  frees_obj w x = Some o ∨
  ∃ h, w_chs w !! op_chs x = Some h ∧ type (c_obj_hdr h) = TYPE_COPY ∧ op_wb x = true ∧
       obj_of h = o ∧ p_copy (a_obj_hdr a) = chs_obj (op_chs x).

Lemma act_obj_of h : p_act h = ahs_obj (obj_of h).
Proof. unfold obj_of, ahs_obj, vobj_to_ahs, obj_to_ahs. lia. Qed.

Lemma ahs_obj_inj a b : ahs_obj a = ahs_obj b → a = b.
Proof. unfold ahs_obj. lia. Qed.

Lemma do_op_frame w x o a :
  ¬ touches w o a x → w_ahs w !! o = Some a →
  w_ahs (do_op w x) !! o = Some a ∧ w_data (do_op w x) !! ahs_obj o = w_data w !! ahs_obj o.
Proof.
  intros Hn Ha. unfold do_op, reclaim_entry, touches, frees_obj in *.
  destruct (w_chs w !! op_chs x) as [h|] eqn:Eh; [|done].
  destruct (type (c_obj_hdr h)) eqn:Et; try done.
  - destruct (op_wb x) eqn:Eb; [|done]. unfold detach. destruct (w_ahs w !! obj_of h) as [a'|] eqn:Ea; [|done].
    destruct (decide (p_copy (a_obj_hdr a') = chs_obj (op_chs x))) as [E|]; [|done]. destruct (decide (obj_of h = o)) as [<-|Ho].
    + destruct Hn. right. exists h. rewrite Ha in Ea. injection Ea as ->. done.
    + cbn. rewrite !lookup_insert_ne //. rewrite act_obj_of. intros ?%ahs_obj_inj. done.
  - destruct (op_free x) eqn:Ef; [|done]. destruct (decide (obj_of h = o)) as [<-|Ho].
    + destruct Hn. by left.
    + cbn. rewrite !lookup_delete_ne //. fold (ahs_obj (obj_of h)). intros ?%ahs_obj_inj. done.
Qed.

Lemma do_op_data w x k :
  (∀ h, w_chs w !! op_chs x = Some h → ahs_obj (obj_of h) ≠ k) →
  w_data (do_op w x) !! k = w_data w !! k.
Proof.
  intros Hk. unfold do_op, reclaim_entry. destruct (w_chs w !! op_chs x) as [h|] eqn:Eh; [|done].
  specialize (Hk _ eq_refl). destruct (type (c_obj_hdr h)); try done.
  - destruct (op_wb x); [|done]. unfold detach. destruct (w_ahs w !! obj_of h); [|done].
    case_decide; [|done]. cbn. by rewrite act_obj_of lookup_insert_ne.
  - destruct (op_free x); [|done]. cbn. fold (ahs_obj (obj_of h)). by rewrite lookup_delete_ne.
Qed.

Lemma do_ops_frame ops w o a :
  (∀ x, x ∈ ops → ¬ touches w o a x) → w_ahs w !! o = Some a →
  w_ahs (foldl do_op w ops) !! o = Some a ∧
  w_data (foldl do_op w ops) !! ahs_obj o = w_data w !! ahs_obj o.
Proof.
  revert w. induction ops as [|x ops IH]; intros w Hn Ha; [done|]. cbn.
  destruct (do_op_frame w x o a) as [Ha' Hd]; [apply Hn; set_solver|done|].
  rewrite -Hd. apply IH; [|done]. intros y Hy. unfold touches, frees_obj. rewrite do_op_chs.
  apply Hn. set_solver.
Qed.

(** The contents of the object after [n] bytes of version [bs] have been
    written to it. *)
Definition overlay (n : Z) (bs old : list Z) : list Z :=
  take (Z.to_nat n) bs ++ drop (Z.to_nat n) old.

Lemma do_ops_writeback ops w chs h a bs :
  let o := obj_of h in
  w_chs w !! chs = Some h → type (c_obj_hdr h) = TYPE_COPY → chs_obj chs ≠ NULL →
  w_ahs w !! o = Some a → p_copy (a_obj_hdr a) = chs_obj chs →
  w_data w !! chs_obj chs = Some bs →
  (∀ x, x ∈ ops → frees_obj w x ≠ Some o) →
  (∀ x h', x ∈ ops → w_chs w !! op_chs x = Some h' → ahs_obj (obj_of h') ≠ chs_obj chs) →
  (∀ x, x ∈ ops → chs_obj (op_chs x) ≠ NULL) →
  (∃ f, Op f true chs ∈ ops) →
  w_ahs (foldl do_op w ops) !! o = Some (a <| a_obj_hdr ::= λ o, o <| p_copy := NULL |> |>) ∧
  w_data (foldl do_op w ops) !! p_act h =
    Some (overlay (obj_size (c_obj_hdr h)) bs (default [] (w_data w !! p_act h))).
Proof.
  intros o Hh Et Hnn Ha Ep Hbs. revert w Hh Ha Hbs.
  induction ops as [|x ops IH]; intros w Hh Ha Hbs Hfr Hout Hpos [f Hin]; [by apply not_elem_of_nil in Hin|].
  cbn [foldl].
  assert (∀ y, y ∈ ops → frees_obj (do_op w x) y ≠ Some o) as Hfr'.
  { intros y Hy. unfold frees_obj. rewrite do_op_chs. apply Hfr. set_solver. }
  destruct (decide (op_chs x = chs ∧ op_wb x = true)) as [[Ex Eb]|Hx].
  - assert (do_op w x = detach h chs w) as E.
    { unfold do_op, reclaim_entry. by rewrite Ex Hh Et Eb. }
    rewrite E. unfold detach. fold o. rewrite Ha decide_True //.
    match goal with |- context [foldl do_op ?y _] => set (w1 := y) end.
    assert (w_ahs w1 !! o = Some (a <| a_obj_hdr ::= λ o, o <| p_copy := NULL |> |>)) as Ha1
      by (unfold w1; cell).
    destruct (λ Hn, do_ops_frame ops w1 o _ Hn Ha1) as [Ha2 Hd2].
    { intros y Hy [Hy'|(h' & _ & _ & _ & _ & Ey)].
      - apply (Hfr' y Hy). rewrite E. unfold detach. fold o. by rewrite Ha decide_True.
      - apply (Hpos y); [set_solver|]. by rewrite -Ey. }
    split; [done|]. rewrite act_obj_of Hd2 -act_obj_of. unfold w1. cbn. rewrite lookup_insert_eq.
    unfold overlay. by rewrite Hbs.
  - assert (¬ touches w o a x) as Hn.
    { intros [Hf|(h' & _ & _ & Eb & _ & Ec)]; [by apply (Hfr x); [set_solver|]|].
      apply Hx. split; [|done]. rewrite Ep in Ec. unfold chs_obj in Ec. lia. }
    destruct (do_op_frame w x o a Hn Ha) as [Ha' Hd'].
    rewrite act_obj_of. fold o. rewrite -Hd'. unfold o. rewrite -act_obj_of. apply IH.
    + by rewrite do_op_chs.
    + done.
    + rewrite do_op_data //. intros h' Hh'. apply (Hout x h'); [set_solver|done].
    + done.
    + intros y h' Hy. rewrite do_op_chs. apply Hout. set_solver.
    + set_solver.
    + exists f. apply elem_of_cons in Hin as [<-|?]; [|done]. by destruct Hx.
Qed.

Lemma ops_of_elem q1 q2 l x chs :
  sane_clock q1 → increasing l → x ∈ l → chs ∈ ls_es x →
  q2 ≤ ls_clk x + g_ordo_boundary → ls_clk x + g_ordo_boundary < q1 →
  Op false true chs ∈ ops_of q1 q2 l.
Proof.
  intros Hq1 Hinc Hx Hchs H2 H1. rewrite boundary_val in H1, H2.
  assert (∀ y, 0 ≤ ls_clk y ≤ ls_clk x → stops q1 y = false) as Hns.
  { intros y Hy. unfold stops, gte_clock. destruct (ordo_gt_clock (ls_clk y) q1) eqn:Eg; [|done].
    apply gt_clock_spec in Eg; [|done]. rewrite boundary_val in Eg. lia. }
  induction l as [|y l IH]; [by apply not_elem_of_nil in Hx|].
  destruct (increasing_cons _ _ Hinc) as (Hinc' & Hr & Hlt). cbn.
  apply elem_of_cons in Hx as [->|Hx].
  - rewrite Hns; [lia|]. apply elem_of_app. left. apply list_elem_of_fmap. exists chs. split; [|done].
    assert (lte_clock (ls_clk y) q2 = false ∧ lte_clock (ls_clk y) q1 = true) as [E2 E1].
    { unfold lte_clock, ordo_lt_clock, sane_clock in *. rewrite boundary_val in Hq1 |- *.
      rewrite wrap64_small; [lia|]. split; [apply Z.ltb_ge|apply Z.ltb_lt]; lia. }
    unfold writes_back, drops. by rewrite E2 E1.
  - specialize (Hlt x Hx). rewrite Hns; [lia|]. apply elem_of_app. right. by apply IH.
Qed.

(** C12: a version in a set between the two grace periods that is
    still the newest of its object is written back by [log_reclaim] and
    detached: the object's contents become the version's, and it has no
    version left. *)
Theorem reclaim_writes_back fuel w self th l x chs h a bs :
  let q1 := qp_clk1 (log th) in
  let q2 := qp_clk2 (log th) in
  w_thr w !! self = Some th → need_reclaim (log th) ≠ 0 → reclaim_lock (log th) = 0 →
  log_sets w (buffer (log th)) self (head_cnt (log th)) l (tail_cnt (log th)) →
  increasing l → sane_clock q1 →
  no_thread_objs w → ops_safe w (ops_of q1 q2 l) → (length l < fuel)%nat →
  x ∈ l → q2 ≤ ls_clk x + g_ordo_boundary → ls_clk x + g_ordo_boundary < q1 →
  chs ∈ ls_es x → w_chs w !! chs = Some h → type (c_obj_hdr h) = TYPE_COPY →
  w_ahs w !! obj_of h = Some a → p_copy (a_obj_hdr a) = chs_obj chs →
  w_data w !! chs_obj chs = Some bs →
  (∀ c' h', w_chs w !! c' = Some h' → p_act h' ≠ chs_obj chs ∧ chs_obj c' ≠ NULL) →
  ∃ w', run (log_reclaim fuel (log_of self)) w = Done () w' ∧
    w_ahs w' !! obj_of h = Some (a <| a_obj_hdr ::= λ o, o <| p_copy := NULL |> |>) ∧
    w_data w' !! p_act h =
      Some (overlay (obj_size (c_obj_hdr h)) bs (default [] (w_data w !! p_act h))).
Proof.
  intros q1 q2 Hth Hnr Hrl Hls Hinc Hq1 Hno Hs Hf Hx H2 H1 Hchs Hh Et Ha Ep Hbs Hlog.
  pose proof (ops_of_elem q1 q2 l x chs Hq1 Hinc Hx Hchs H2 H1) as Hop.
  destruct (do_ops_writeback (ops_of q1 q2 l) w chs h a bs) as [Ra Rd]; try done.
  - by destruct (Hlog chs h Hh).
  - intros y Hy E. destruct Hs as [_ _ _ Hwb].
    destruct (Hwb _ h Hop eq_refl Hh Et) as (_ & _ & Hp). destruct (Hp (obj_of h)) as [? _]; [|done].
    apply list_elem_of_omap. by exists y.
  - intros y h' Hy Hh'. rewrite -act_obj_of. by destruct (Hlog _ _ Hh').
  - intros y Hy. destruct Hs as [Hhdr _ _ _]. destruct (Hhdr y Hy) as [h' Hh']. by destruct (Hlog _ _ Hh').
  - by exists false.
  - eexists. split; [by apply run_log_reclaim|].
    destruct (reclaim_sets_ops self q1 q2 l (set_thr self (locked_thread th) w)) as [_ Ea Ed].
    assert (obj_eq (set_thr self (locked_thread th) w) w) as Heq by done.
    destruct (do_ops_proper _ _ Heq (ops_of q1 q2 l) _ eq_refl) as [_ Ea' Ed'].
    cbn. rewrite Ea Ed Ea' Ed'. done.
Qed.
