(* ===== verification/ChainHash.v ===== *)
(** * Lists and hash tables on MV-RLU ([include/mvrlu/list.hh],
    [include/mvrlu/chainhash.hh])

    Singly linked lists whose links are protected by MV-RLU, and the hash
    table of such lists, for the instance with 64-bit keys and values.  An
    iterator is the pointer it holds; [self] is the thread's handle. *)

From S2P Require Import Prelude World OrdoClock Port Object VersionLog Qp Api.

(** ** Items *)

(** [struct item { link<item> link; const K key; V val; }]. *)
Definition off_link : nat := 0.
Definition off_key : nat := 8.
Definition off_val : nat := 16.
Definition sizeof_item : Z := 24.

Definition item_key (it : Z) : kprog Z := load_ptr it off_key.
Definition item_val (it : Z) : kprog Z := load_ptr it off_val.

(** [new item(k, v)]: [mvrlu_alloc] and the constructor. *)
Definition new_item (k v : Z) : kprog Z :=
  x ← mvrlu_alloc sizeof_item;
  store_ptr x off_link NULL;;
  store_ptr x off_key k;;
  store_ptr x off_val v;;
  mret x.

(** ** Iterators and links *)

Definition iter_make (fuel : nat) (self ptr : Z) : kprog Z := mvrlu_deref fuel self ptr.

(** [iter::operator++]. *)
Definition iter_next (fuel : nat) (self it : Z) : kprog Z :=
  n ← load_ptr it off_link;
  mvrlu_deref fuel self n.

(** [iter::try_lock]: the new pointer of the iterator, or [None] after the
    section has been aborted. *)
Definition iter_try_lock (fuel : nat) (self it : Z) : kprog (option Z) :=
  if decide (it = NULL) then mret (Some it) else
  r ← handle_try_lock self it sizeof_item;
  match r with
  | Some p => mret (Some p)
  | None => mvrlu_abort fuel self;; mret None
  end.

Definition iter_try_lock_const (fuel : nat) (self it : Z) : kprog bool :=
  if decide (it = NULL) then mret true else
  r ← handle_try_lock_const self it sizeof_item;
  if (r : bool) then mret true else mvrlu_abort fuel self;; mret false.

(** [operator==] and [operator!=] with a pointer or with the pointer of another
    iterator on the right. *)
Definition iter_eq (it rhs : Z) : kprog bool :=
  if truth rhs then mvrlu_cmp_ptrs it rhs else mret (bool_decide (it = rhs)).
Definition iter_ne (it rhs : Z) : kprog bool := b ← iter_eq it rhs; mret (negb b).

(** [link::operator=] for a pointer on the right. *)
Definition link_assign (it rhs : Z) : kprog unit := _mvrlu_assign_pointer it off_link rhs.

(** ** Lists *)

(** The constructor: the dummy item, [head_.next]. *)
Definition list_new : kprog Z :=
  x ← mvrlu_alloc sizeof_item;
  store_ptr x off_link NULL;;
  mret x.

Definition before_begin (fuel : nat) (self head : Z) : kprog Z := iter_make fuel self head.
Definition list_begin (fuel : nat) (self head : Z) : kprog Z :=
  it ← iter_make fuel self head; iter_next fuel self it.

Definition list_end : Z := NULL.
Definition list_empty (fuel : nat) (self head : Z) : kprog bool :=
  b ← list_begin fuel self head; iter_eq b list_end.

(** [for (const item& i : chain) body], where the body leaves the loop with
    [inr]. *)
Definition for_items {C A} (fuel : nat) (self head : Z) (body : Z → C → kprog (C + A)) (c : C) : kprog (C + A) :=
  i ← list_begin fuel self head;
  loop fuel (λ '(i, c),
    more ← iter_ne i list_end;
    if (more : bool) then
      r ← body i c;
      match r with
      | inl c => n ← iter_next fuel self i; mret (inl (n, c))
      | inr a => mret (inr (inr a))
      end
    else mret (inr (inl c))) (i, c).

Definition insert_after (pos next x : Z) : kprog unit :=
  link_assign x next;;
  link_assign pos x.

Definition erase_after (fuel : nat) (self pos next : Z) : kprog unit :=
  n ← iter_next fuel self next;
  link_assign pos n.

(** ** The hash table *)

Section chainhash.
(** [hash], the number of buckets, and the dummy item at the head of each
    bucket's chain. *)
Context (hash : Z → Z) (nbuckets : Z) (chain : Z → Z).

Definition bucket_of (k : Z) : Z := chain (hash k mod nbuckets).

(** The body of [insert] from [restart] on: [None] is [goto restart]. *)
Definition insert_try (fuel : nat) (self k v : Z) : kprog (option bool) :=
  mvrlu_section_enter fuel self;;
  prev ← before_begin fuel self (bucket_of k);
  cur ← iter_next fuel self prev;
  r ← loop fuel (λ '(prev, cur),
    past ← (if decide (cur = NULL) then mret true
            else c ← item_key cur; mret (k <? c));
    if (past : bool) then
      l1 ← iter_try_lock fuel self prev;
      match l1 with
      | None => mret (inr None)
      | Some prev =>
          l2 ← iter_try_lock fuel self cur;
          match l2 with
          | None => mret (inr None)
          | Some cur =>
              x ← new_item k v;
              insert_after prev cur x;;
              mret (inr (Some true))
          end
      end
    else
      c ← item_key cur;
      if c =? k then mret (inr (Some false))
      else
        n ← iter_next fuel self cur;
        mret (inl (cur, n))) (prev, cur);
  mvrlu_section_leave fuel self;;
  mret r.

Definition chainhash_insert (fuel : nat) (self k v : Z) : kprog bool :=
  loop fuel (λ _ : unit,
    r ← insert_try fuel self k v;
    match r with Some b => mret (inr b) | None => mret (inl ()) end) ().

(** [remove(k)]; [match_val] is the comparison of the value in the overload
    [remove(k, v)]. *)
Definition remove_try (fuel : nat) (self k : Z) (match_val : option Z) : kprog (option bool) :=
  mvrlu_section_enter fuel self;;
  i ← before_begin fuel self (bucket_of k);
  r ← loop fuel (λ i,
    let prev := i in
    i ← iter_next fuel self i;
    if decide (i = NULL) then mret (inr (Some false)) else
    c ← item_key i;
    hit ← (if c =? k then
             match match_val with
             | None => mret true
             | Some v => x ← item_val i; mret (x =? v)
             end
           else mret false);
    if (hit : bool) then
      l1 ← iter_try_lock fuel self prev;
      match l1 with
      | None => mret (inr None)
      | Some prev =>
          l2 ← iter_try_lock_const fuel self i;
          if (l2 : bool) then
            erase_after fuel self prev i;;
            mvrlu_free self i;;
            mret (inr (Some true))
          else mret (inr None)
      end
    else mret (inl i)) i;
  mvrlu_section_leave fuel self;;
  mret r.

Definition chainhash_remove (fuel : nat) (self k : Z) (match_val : option Z) : kprog bool :=
  loop fuel (λ _ : unit,
    r ← remove_try fuel self k match_val;
    match r with Some b => mret (inr b) | None => mret (inl ()) end) ().

(** [lookup]: the value found. *)
Definition chainhash_lookup (fuel : nat) (self k : Z) : kprog (option Z) :=
  mvrlu_section_enter fuel self;;
  r ← for_items fuel self (bucket_of k) (λ i _,
    c ← item_key i;
    if c <? k then mret (inl ())
    else if k <? c then mret (inr None)
    else v ← item_val i; mret (inr (Some v))) ();
  mvrlu_section_leave fuel self;;
  mret (match r with inl _ => None | inr v => v end).

(** [for (u64 i = start; i < nbuckets_; i++) body] over the chains, left with
    [inr]. *)
Definition for_buckets {C A} (fuel : nat) (start : Z) (body : Z → C → kprog (C + A)) (c : C) : kprog (C + A) :=
  loop fuel (λ '(i, c),
    if i <? nbuckets then
      r ← body (chain i) c;
      match r with
      | inl c => mret (inl (i + 1, c))
      | inr a => mret (inr (inr a))
      end
    else mret (inr (inl c))) (start, c).

(** [enumerate(prev, out)]: the key stored in [*out], if any.  [out] does not
    alias [prev]. *)
Definition enumerate (fuel : nat) (self : Z) (prev : option Z) : kprog (option Z) :=
  mvrlu_section_enter fuel self;;
  let start := match prev with Some p => hash p mod nbuckets | None => 0 end in
  r ← for_buckets fuel start (λ b prevbucket,
    r ← for_items (A := Empty_set) fuel self b (λ i out,
      c ← item_key i;
      let above := match prev with Some p => negb prevbucket || (p <? c) | None => true end in
      let least := match out with Some o => c <? o | None => true end in
      mret (inl (if above && least then Some c else out))) None;
    match r with
    | inl (Some c) => mret (inr c)
    | inl None => mret (inl false)
    | inr e => match (e : Empty_set) with end
    end) (match prev with Some _ => true | None => false end);
  mvrlu_section_leave fuel self;;
  mret (match r with inl _ => None | inr c => Some c end).

(** [enumerate(cb)] for a callback with the state [A]. *)
Definition enumerate_cb {A} (fuel : nat) (self : Z) (cb : Z → Z → A → kprog (bool * A)) (a : A) : kprog A :=
  mvrlu_section_enter fuel self;;
  r ← for_buckets fuel 0 (λ b a,
    for_items fuel self b (λ i a,
      v ← item_val i;
      c ← item_key i;
      '(stop, a) ← cb c v a;
      mret (if (stop : bool) then inr a else inl a)) a) a;
  mvrlu_section_leave fuel self;;
  mret (match r with inl a => a | inr a => a end).

(** [size++] for the [int] of [getSize]. *)
Definition int_incr (n : Z) : kprog Z := act (λ w, if n <? 2 ^ 31 - 1 then Next (n + 1) w else Crash).

Definition getSize (fuel : nat) (self : Z) : kprog Z :=
  mvrlu_section_enter fuel self;;
  r ← for_buckets (A := Empty_set) fuel 0 (λ b size,
    for_items fuel self b (λ i size,
      c ← item_key i;
      n ← (if negb (c =? 0) then int_incr size else mret size);
      mret (inl n)) size) 0;
  mvrlu_section_leave fuel self;;
  mret (match r with inl n => n | inr e => match (e : Empty_set) with end end).

(** The conversion of [u64] to [int]. *)
Definition getBucketSize : Z :=
  let n := wrap32 nbuckets in if n <? 2 ^ 31 then n else n - 2 ^ 32.

(** [~bucket], for the chain with the dummy item [head]. *)
Definition bucket_destroy (fuel : nat) (self head : Z) : kprog unit :=
  mvrlu_section_enter fuel self;;
  it ← list_begin fuel self head;
  loop fuel (λ it,
    more ← iter_ne it list_end;
    if (more : bool) then
      n ← iter_next fuel self it;
      mvrlu_free self it;;
      mret (inl n)
    else mret (inr ())) it;;
  d ← before_begin fuel self head;
  mvrlu_free self d;;
  mvrlu_section_leave fuel self.
End chainhash.

(** The constructor: the dummy items of [nbuckets] new chains. *)
Fixpoint chainhash_new (nbuckets : nat) : kprog (list Z) :=
  match nbuckets with
  | O => mret []
  | S n => x ← list_new; l ← chainhash_new n; mret (x :: l)
  end.

(** [delete[] buckets_]: the buckets are destroyed, the last one first. *)
Fixpoint chainhash_destroy (fuel : nat) (self : Z) (heads : list Z) : kprog unit :=
  match heads with
  | [] => mret ()
  | x :: l => chainhash_destroy fuel self l;; bucket_destroy fuel self x
  end.

(** [hash] of [include/hash.hh], for 64-bit keys. *)
Definition hash_u64 (v : Z) : Z :=
  let x := Z.lxor (Z.lxor (Z.lxor v (Z.shiftr v 32)) (Z.shiftr v 20)) (Z.shiftr v 12) in
  Z.lxor (Z.lxor x (Z.shiftr x 7)) (Z.shiftr x 4).
