(* ===== verification/Sections.v ===== *)
(** * Critical sections

    Entering, leaving and aborting a section, the parity of [run_cnt] by which
    the detection thread knows who is inside, and the distance between the
    clocks of two versions of an object. *)

From S2P Require Import Prelude World OrdoClock Port Object Cells VersionLog LogLayout LogAppend Commit Qp Api Snapshot Locking ChainHash.

(** ** Small steps *)

(** Asking the detection thread to reclaim. *)
Definition woken (w : world) : world :=
  if truth (qp_need_reclaim (w_qp w)) then w else w <| w_qp ::= λ q, q <| qp_need_reclaim := 1 |> |>.

Lemma run_wakeup w :
  run wakeup_qp_thread_for_reclaim w = Done (negb (truth (qp_need_reclaim (w_qp w)))) (woken w).
Proof.
  unfold wakeup_qp_thread_for_reclaim, woken. erewrite run_bind_done by (by apply run_load).
  unfold truth. destruct (Z.eqb_spec (qp_need_reclaim (w_qp w)) 0) as [E|E]; [|done]. cbn [negb].
  erewrite run_bind_done; [|apply run_cas_hit; by rewrite -E]. done.
Qed.

Definition above_mark (th : mvrlu_thread_struct) : bool :=
  truth (num_deref th) && (MVRLU_DEREF_MIN_ACT_OBJ <? num_act_obj th) &&
  (num_act_obj th <? MVRLU_DEREF_MARK * num_deref th).

Lemma run_deref_mark w self th :
  w_thr w !! self = Some th → run (deref_mark self) w = Done (above_mark th) w.
Proof.
  intros Hth. unfold deref_mark, above_mark. xload. destruct (truth _); [|done]. cbn [negb andb].
  xload. destruct (_ <? num_act_obj th); [|done]. cbn [negb andb]. xload. xload. done.
Qed.

Definition used (th : mvrlu_thread_struct) : Z := wrap64 (tail_cnt (log th) - head_cnt (log th)).

Lemma run_log_used w self th :
  w_thr w !! self = Some th → run (log_used (log_of self)) w = Done (used th) w.
Proof. intros Hth. unfold log_used. xload. xload. done. Qed.

Lemma run_faa32 (l : loc Z) w v n :
  lget l w = Some v → run (smp_faa32 l n) w = Done v (lset l (wrap32 (v + n)) w).
Proof. intros H. unfold smp_faa32. by rewrite run_act H. Qed.

(** ** Entering *)

Definition entered_thread (c : Z) (th : mvrlu_thread_struct) : mvrlu_thread_struct :=
  th <| run_cnt := wrap32 (run_cnt th + 1) |> <| num_act_obj := 0 |> <| num_deref := 0 |>
     <| local_clk := c |>.

(** A section of a thread with log space left starts at the current clock. *)
Lemma run_reader_lock fuel w self th c tsc :
  w_thr w !! self = Some th → need_reclaim (log th) = 0 → used th < MVRLU_LOG_HIGH_MARK →
  w_tsc w = c :: tsc →
  run (mvrlu_reader_lock fuel self) w =
  Done () (set_thr self (entered_thread c th) (w <| w_tsc := tsc |>)).
Proof.
  intros Hth Hnr Hu Htsc. unfold mvrlu_reader_lock, reader_wait_space. xload. rewrite Hnr.
  cbn [truth Z.eqb negb when]. rewrite run_bind run_ret. cbn [outcome_bind].
  rewrite run_bind. erewrite run_bind_done by (by apply run_log_used).
  rewrite (proj2 (Z.leb_gt _ _) Hu). unfold when. rewrite run_ret. cbn [outcome_bind].
  erewrite run_bind_done; [|apply run_faa32; by apply thr_get].
  erewrite thr_put by exact Hth. xstore. xstore.
  unfold get_clock_relaxed, ordo_get_clock_relaxed, ordo_get_clock.
  rewrite run_bind run_act. cbn [w_tsc set_thr field_map]. rewrite Htsc. cbn [outcome_bind].
  erewrite run_store_put; [|cell_get|].
  2:{ rewrite (thr_put local_clk self _ (entered_thread (local_clk th) th)); [cell|done]. }
  unfold set_thr. world_eq. by rewrite insert_insert_eq.
Qed.

(** ** Leaving without having written *)

Definition left_thread (th : mvrlu_thread_struct) : mvrlu_thread_struct :=
  th <| run_cnt := wrap32 (run_cnt th + 1) |>.

Lemma run_abort_clean fuel w self th :
  w_thr w !! self = Some th → need_reclaim (log th) = 0 → cur_wrt_set (log th) = NULL →
  run (mvrlu_abort fuel self) w = Done () (set_thr self (left_thread th) w).
Proof.
  intros Hth Hnr Hcur. unfold mvrlu_abort. xload. xstore. xload. cbn [log field_map].
  rewrite Hcur. cbn [truth Z.eqb negb when NULL]. rewrite run_bind run_ret. cbn [outcome_bind].
  xload. cbn [log field_map]. rewrite Hnr. done.
Qed.

Lemma run_wake_above self th w :
  run (when (above_mark th) (wakeup_qp_thread_for_reclaim;; mret ())) (set_thr self (left_thread th) w) =
  Done () (set_thr self (left_thread th) (if above_mark th then woken w else w)).
Proof.
  unfold when. destruct (above_mark th); [|done]. rewrite run_bind run_wakeup. cbn [outcome_bind].
  rewrite run_ret. f_equal. unfold woken. cbn [w_qp set_thr field_map]. by destruct (truth _).
Qed.

Lemma run_unlock_clean fuel w self th :
  w_thr w !! self = Some th → need_reclaim (log th) = 0 → is_write_detected th = 0 →
  run (mvrlu_reader_unlock fuel self) w =
  Done () (set_thr self (left_thread th) (if above_mark th then woken w else w)).
Proof.
  intros Hth Hnr Hwd. unfold mvrlu_reader_unlock. xload. xstore.
  erewrite run_bind_done by (apply (run_deref_mark _ _ (left_thread th)); cell).
  change (above_mark (left_thread th)) with (above_mark th).
  erewrite run_bind_done by apply run_wake_above.
  set (w2 := set_thr _ _ _). assert (w_thr w2 !! self = Some (left_thread th)) as Hth2 by (unfold w2; cell).
  xload. change (is_write_detected (left_thread th)) with (is_write_detected th). rewrite Hwd.
  cbn [truth Z.eqb negb]. rewrite run_bind. rewrite run_bind.
  erewrite run_load by (by apply log_get). cbn [outcome_bind].
  change (need_reclaim (log (left_thread th))) with (need_reclaim (log th)). rewrite Hnr.
  cbn [truth Z.eqb negb]. rewrite run_ret. done.
Qed.

(** ** A failed lock in the hash table *)

Lemma wrap32_add a b : wrap32 (wrap32 a + b) = wrap32 (a + b).
Proof. unfold wrap32. by rewrite Zplus_mod_idemp_l. Qed.

Lemma wrap32_odd n : Z.odd (wrap32 n) = Z.odd n.
Proof.
  unfold wrap32. rewrite {2}(Z.div_mod n 4294967296) //.
  rewrite Z.odd_add Z.odd_mul. by destruct (Z.odd (n mod _)).
Qed.

Lemma land_one_even n : Z.odd n = false → Z.land n 1 = 0.
Proof.
  intros H. change 1 with (Z.ones 1). rewrite Z.land_ones // Zmod_odd. by rewrite H.
Qed.

Lemma woken_thr w : w_thr (woken w) = w_thr w.
Proof. unfold woken. by destruct (truth _). Qed.
Lemma woken_tsc w : w_tsc (woken w) = w_tsc w.
Proof. unfold woken. by destruct (truth _). Qed.

(** When an operation of the hash table fails to lock an item, the
    item's [try_lock] aborts the section, and [goto restart] then leaves it a
    second time before it enters the next one.  [run_cnt] is then even inside
    the new section, and the detection thread does not wait for it. *)
Theorem restart_hides_section fuel w self th it p_act_ a k c tsc :
  w_thr w !! self = Some th → Z.odd (run_cnt th) = true →
  need_reclaim (log th) = 0 → cur_wrt_set (log th) = NULL → is_write_detected th = 0 →
  used th < MVRLU_LOG_HIGH_MARK → w_tsc w = c :: tsc →
  it ≠ NULL → run (get_act_obj it) w = Done p_act_ w →
  w_ahs w !! vobj_to_ahs p_act_ = Some a → p_lock a ≠ NULL →
  ver_clk w (p_copy (a_obj_hdr a)) = Some k →
  ∃ w' th' w'',
    run (r ← iter_try_lock fuel self it;
         mvrlu_section_leave fuel self;;
         mvrlu_section_enter fuel self;;
         mret r) w = Done None w' ∧
    w_thr w' !! self = Some th' ∧ local_clk th' = c ∧ Z.odd (run_cnt th') = false ∧
    run (qp_init_one self) w' = Done None w'' ∧
    (λ x, need_wait (qp_info x)) <$> w_thr w'' !! self = Some 0.
Proof.
  intros Hth Hodd Hnr Hcur Hwd Hu Htsc Hit Hact Ha Hl Hk.
  assert (run (iter_try_lock fuel self it) w = Done None (set_thr self (left_thread th) w)) as H1.
  { unfold iter_try_lock, handle_try_lock. rewrite !decide_False //. rewrite run_bind.
    assert (run (_mvrlu_try_lock self it sizeof_item) w = Done None w) as ->.
    { unfold _mvrlu_try_lock. erewrite run_bind_done by exact Hact. xload. by rewrite decide_True. }
    cbn [outcome_bind]. erewrite run_bind_done by (by apply run_abort_clean). done. }
  set (th1 := left_thread th) in *. set (w1 := set_thr self th1 w) in *.
  assert (w_thr w1 !! self = Some th1) as Hth1 by (unfold w1; cell).
  set (w2 := set_thr self (left_thread th1) (if above_mark th1 then woken w1 else w1)).
  assert (w_thr w2 !! self = Some (left_thread th1)) as Hth2 by (unfold w2; cell).
  assert (w_tsc w2 = c :: tsc) as Htsc2.
  { unfold w2. cbn. destruct (above_mark th1); [by rewrite woken_tsc|done]. }
  set (th3 := entered_thread c (left_thread th1)).
  assert (Z.odd (run_cnt th3) = false) as Hodd3.
  { change (run_cnt th3) with (wrap32 (wrap32 (wrap32 (run_cnt th + 1) + 1) + 1)).
    rewrite wrap32_odd Z.odd_add wrap32_odd Z.odd_add wrap32_odd Z.odd_add Hodd. done. }
  eexists (set_thr self th3 (w2 <| w_tsc := tsc |>)), th3, _. split_and!.
  - erewrite run_bind_done by exact H1. unfold mvrlu_section_leave, mvrlu_section_enter.
    erewrite run_bind_done by (by apply (run_unlock_clean fuel w1 self th1)).
    fold w2. erewrite run_bind_done by (by apply run_reader_lock). done.
  - cell.
  - done.
  - done.
  - unfold qp_init_one. set (w3 := set_thr self th3 _).
    assert (w_thr w3 !! self = Some th3) as Hth3 by (unfold w3; cell).
    xload. xstore. xload. xstore. done.
  - cbn [w_thr set_thr field_map]. rewrite lookup_insert_eq. cbn. f_equal.
    by apply land_one_even.
Qed.

(** ** Leaving a section that wrote *)

Lemma section_ws_thr w self th c es h s th' :
  section_ws w self th c es h s →
  log th' = log th → num_ptrs (free_ptrs th') = num_ptrs (free_ptrs th) →
  section_ws (set_thr self th' w) self th' c es h s.
Proof.
  intros [[H1 H2 H3 H4 H5] H6 H7 H8] El Ef. split; rewrite ?El ?Ef; try done.
  split; rewrite ?El; try done; [cell|]. by destruct H5.
Qed.

Lemma section_ws_qp w self th c es h s f :
  section_ws w self th c es h s → section_ws (w <| w_qp ::= f |>) self th c es h s.
Proof. intros [[H1 H2 H3 H4 []] H6 H7 H8]. by split; [split|..]. Qed.

Lemma section_ws_woken w self th c es h s :
  section_ws w self th c es h s → section_ws (woken w) self th c es h s.
Proof. unfold woken. destruct (truth _); [done|]. apply section_ws_qp. Qed.

(** The state in which [mvrlu_reader_unlock] commits. *)
Definition leaving_thread (th : mvrlu_thread_struct) : mvrlu_thread_struct :=
  left_thread th <| is_write_detected := 0 |>.
Definition leaving (self : Z) (th : mvrlu_thread_struct) (w : world) : world :=
  set_thr self (leaving_thread th) (if above_mark th then woken w else w).

(** The thread behind the commit. *)
Definition done_thread (th : mvrlu_thread_struct) : mvrlu_thread_struct := closed_thread (leaving_thread th).

Lemma run_reader_unlock fuel w self th c es h s skip new tsc :
  section_ws w self th c es h s → is_write_detected th ≠ 0 → need_reclaim (log th) = 0 →
  sane_clock (local_clk th) → w_tsc w = skip ++ new :: tsc →
  Forall (λ t, t ≤ local_clk th + 2 * g_ordo_boundary) skip →
  local_clk th + 2 * g_ordo_boundary < new → (length skip ≤ fuel)%nat →
  ∃ w1, committed (leaving self th w) self (leaving_thread th) es s new tsc w1 ∧
    w_thr w1 !! self = Some (done_thread th) ∧
    run (mvrlu_reader_unlock (S fuel) self) w =
    Done () (if MVRLU_LOG_LOW_MARK <=? used (done_thread th) then woken w1 else w1).
Proof.
  intros Hs Hwd Hnr Hsane Htsc Hskip Hnew Hf. set (w0 := if above_mark th then woken w else w).
  assert (section_ws (leaving self th w) self (leaving_thread th) c es h s) as Hs1.
  { apply section_ws_thr with th; [|done|done]. destruct (above_mark th); [by apply section_ws_woken|done]. }
  assert (w_thr w !! self = Some th) as Hth by (by destruct Hs as [[] _ _ _]).
  assert (Hgt : ∀ t, ordo_gt_clock t (wrap64 (local_clk th + ordo_boundary)) = true ↔
    local_clk th + 2 * g_ordo_boundary < t).
  { intros t. unfold ordo_boundary. pose proof (sane_add (local_clk th) 1 Hsane) as E1.
    pose proof (sane_add (local_clk th) 2 Hsane) as E2.
    rewrite Z.mul_1_l in E1. rewrite -> E1 by lia. unfold ordo_gt_clock.
    replace (local_clk th + g_ordo_boundary + g_ordo_boundary) with (local_clk th + 2 * g_ordo_boundary) by lia.
    rewrite -> E2 by lia. apply Z.ltb_lt. }
  destruct (run_log_commit fuel (leaving self th w) self (leaving_thread th) c es h s (local_clk th) skip new tsc)
    as (w1 & Hcommit & Hcm); [done| | |by apply Hgt|done|].
  { unfold leaving. cbn. destruct (above_mark th); [by rewrite woken_tsc|done]. }
  { eapply Forall_impl; [exact Hskip|]. intros t Ht. apply not_true_iff_false. rewrite Hgt. cbv beta in Ht. lia. }
  assert (w_thr w1 !! self = Some (closed_thread (leaving_thread th))) as Hth1.
  { rewrite (cm_frame _ _ _ _ _ _ _ _ Hcm). cbn. apply lookup_insert_eq. }
  set (low := MVRLU_LOG_LOW_MARK <=? used (done_thread th)).
  exists w1. split; [done|]. split; [done|].
  unfold mvrlu_reader_unlock. xload. xstore.
  erewrite run_bind_done by (apply (run_deref_mark _ _ (left_thread th)); cell).
  change (above_mark (left_thread th)) with (above_mark th).
  erewrite run_bind_done by apply run_wake_above. fold w0.
  xload. change (is_write_detected (left_thread th)) with (is_write_detected th).
  assert (truth (is_write_detected th) = true) as Ht by (unfold truth; by apply negb_true_iff, Z.eqb_neq).
  rewrite Ht. erewrite run_bind_done by apply run_ret. unfold when at 1. unfold unlock_write.
  xload. change (is_write_detected (left_thread th)) with (is_write_detected th). rewrite Ht.
  erewrite (run_bind_done _ _ _ () w1).
  2:{ unfold when. xstore. xload. exact Hcommit. }
  xload. change (need_reclaim _) with (need_reclaim (log th)). rewrite Hnr.
  erewrite run_bind_done by done. erewrite run_bind_done by (by apply run_log_used).
  change (used _) with (used (done_thread th)). fold low. unfold when. destruct low; [|done]. by rewrite run_bind run_wakeup.
Qed.

(** C7: leaving a section that has locked objects commits its write
    set at a clock later than the section's by more than twice the
    uncertainty; afterwards the thread is outside any section, with no open
    write set and nothing left to free, as the assertions at the end of
    [mvrlu_reader_unlock] say. *)
Theorem reader_unlock_commits fuel w self th c es h s skip new tsc :
  section_ws w self th c es h s → is_write_detected th ≠ 0 → need_reclaim (log th) = 0 →
  sane_clock (local_clk th) → w_tsc w = skip ++ new :: tsc →
  Forall (λ t, t ≤ local_clk th + 2 * g_ordo_boundary) skip →
  local_clk th + 2 * g_ordo_boundary < new → (length skip ≤ fuel)%nat →
  ∃ w' w1 th',
    run (mvrlu_reader_unlock (S fuel) self) w = Done () w' ∧
    committed (leaving self th w) self (leaving_thread th) es s new tsc w1 ∧
    (w' = w1 ∨ w' = woken w1) ∧
    w_thr w' !! self = Some th' ∧ run_cnt th' = wrap32 (run_cnt th + 1) ∧
    is_write_detected th' = 0 ∧ cur_wrt_set (log th') = NULL ∧ num_ptrs (free_ptrs th') = 0.
Proof.
  intros Hs Hwd Hnr Hsane Htsc Hskip Hnew Hf.
  destruct (run_reader_unlock fuel w self th c es h s skip new tsc) as (w1 & Hcm & Hth & Hr); [done..|].
  set (low := MVRLU_LOG_LOW_MARK <=? used (done_thread th)) in Hr.
  exists (if low then woken w1 else w1), w1, (done_thread th).
  split_and!; [done|done|by destruct low; [right|left]|by destruct low; rewrite ?woken_thr|done..].
Qed.

