(* ===== verification/Threads.v ===== *)
(** * The life of a thread

    What registration ([mvrlu_thread_init]), departure ([mvrlu_thread_finish])
    and the detection thread do to the thread lists and to the pool of log
    blocks, and that a round of grace period detection ends when no section
    stands in its way. *)

From S2P Require Import Prelude World OrdoClock Port ThreadList Object Cells VersionLog LogLayout Qp Api.

(** ** Registration *)

Lemma tl_inv_ext w w' tl ts :
  tl_inv w tl ts → w_tl w' !! tl = w_tl w !! tl →
  (∀ a, a ∈ tl_list tl :: (list_of <$> ts) → w_node w' !! a = w_node w !! a) → tl_inv w' tl ts.
Proof.
  intros (t & Ht & Hl & Hn & Hd) E Hnode. exists t. rewrite E. split_and!; auto.
  eapply dll_frame; [|exact Hd]. intros a Ha. unfold nxt, prv. by rewrite Hnode.
Qed.

Lemma tl_node_fresh self tl (ts : list Z) :
  self ∉ ts → list_of self ≠ tl_list tl → list_of self ∉ tl_list tl :: (list_of <$> ts).
Proof. intros H1 H2. rewrite elem_of_cons elem_of_list_of. naive_solver. Qed.

(** [mvrlu_thread_init] makes a thread with an empty log, outside
    any section, the first of the live threads.  Its log buffer is a block of
    the pool that no other thread has, or [NULL] when all blocks are lent
    out; nothing else of the pool and no other thread changes. *)
Theorem thread_init_registers c busy w self ts :
  region_fits c → pool_inv c busy w →
  tl_inv w g_live_threads ts → self ∉ ts → list_of self ≠ tl_list g_live_threads →
  ∃ w' th,
    run (mvrlu_thread_init self) w = Done () w' ∧
    tl_inv w' g_live_threads (self :: ts) ∧
    w_thr w' = <[self := th]> (w_thr w) ∧
    run_cnt th = 0 ∧ live_status th = THREAD_LIVE ∧ is_write_detected th = 0 ∧
    head_cnt (log th) = 0 ∧ tail_cnt (log th) = 0 ∧ cur_wrt_set (log th) = NULL ∧
    ((buffer (log th) = NULL ∧ length busy = 128%nat ∧ pool_inv c busy w') ∨
     (∃ b, buffer (log th) = b + offsetof_log_part ∧ b ∉ busy ∧ pool_inv c (b :: busy) w')).
Proof.
  intros Hc Hpool Htl Hself Hne. pose proof Htl as (t & Ht & _).
  set (w1 := w <| w_thr ::= <[self := zero_thread]> |>
               <| w_node ::= <[list_of self := ListNode NULL NULL]> |>).
  assert (∃ p w2, run alloc_log_mem w1 = Done p w2 ∧ w2 = w1 <| w_pool := w_pool w2 |>) as (p & w2 & Hal & Ew2).
  { unfold alloc_log_mem. rewrite run_act. destruct (w_pool w1) eqn:E; eexists _, _; (split; [done|]);
      [rewrite E|]; [rewrite -E|]; by destruct w. }
  assert (pool_inv c busy w1) as Hpool1 by exact Hpool.
  pose proof (alloc_log_mem_inv _ _ _ _ _ Hc Hpool1 Hal) as Hcase.
  set (th := zero_thread <| log ::= λ g, g <| buffer := p |> |>). set (w3 := set_thr self th w2).
  destruct (run_thread_list_add w3 g_live_threads ts self t th (ListNode NULL NULL))
    as (mt & mn & Hr & Htl' & _ & _ & _); [| |done|done| | |].
  { unfold w3. rewrite Ew2. done. }
  { eapply tl_inv_ext; [exact Htl|by unfold w3; rewrite Ew2|]. intros a Ha. unfold w3. rewrite Ew2. cbn.
    rewrite lookup_insert_ne //. intros <-. by eapply tl_node_fresh. }
  { unfold w3. cell. }
  { unfold w3. rewrite Ew2. cbn. apply lookup_insert_eq. }
  cbv zeta in Hr. eexists _, (th <| tid := cur_tid t |>). split_and!; [|exact Htl'|..]; try done.
  - unfold mvrlu_thread_init, memset_thread. rewrite run_bind run_act. cbn [outcome_bind].
    fold w1. unfold port_alloc_log_mem. erewrite run_bind_done by exact Hal.
    assert (w_thr w2 !! self = Some zero_thread) as H2 by (rewrite Ew2; cbn; apply lookup_insert_eq).
    xstore. exact Hr.
  - cbn. unfold w3. rewrite Ew2. cbn. rewrite insert_insert_eq alter_insert_eq. done.
  - destruct Hcase as [(-> & -> & _ & Hl)|(b & -> & Hb & Hnb & Hp)]; [left|right].
    + split_and!; try done.
    + exists b. split_and!; try done.
Qed.

(** ** Departure *)

(** The thread [mvrlu_thread_finish] takes off the list. *)
Definition unwaited (th : mvrlu_thread_struct) : mvrlu_thread_struct :=
  th <| qp_info ::= λ i, i <| need_wait := 0 |> |>.

Lemma run_finish_off fuel w self th ts1 ts2 :
  tl_inv w g_live_threads (ts1 ++ self :: ts2) →
  w_thr w !! self = Some th → need_reclaim (log th) = 0 →
  ∃ mt mn, let w1 := set_thr self (unwaited th) w <| w_tl := mt |> <| w_node := mn |> in
    run (mvrlu_thread_finish fuel self) w =
    run (if head_cnt (log th) =? tail_cnt (log th) then
           port_free_log_mem (buffer (log th));;
           store (log_loc buffer (log_of self)) NULL
         else
           smp_atomic_store (thr_loc live_status self) THREAD_LIVE_ZOMBIE;;
           thread_list_add g_zombie_threads self) w1 ∧
    tl_inv w1 g_live_threads (ts1 ++ ts2) ∧
    mn !! list_of self = Some (ListNode NULL NULL) ∧
    mt !! g_zombie_threads = w_tl w !! g_zombie_threads ∧
    (∀ a, a ∉ tl_list g_live_threads :: (list_of <$> ts1 ++ self :: ts2) → mn !! a = w_node w !! a).
Proof.
  intros Htl Hth Hnr. unfold mvrlu_thread_finish. xload. rewrite Hnr.
  erewrite run_bind_done by done. xstore. fold (unwaited th).
  destruct (run_thread_list_del (set_thr self (unwaited th) w) g_live_threads ts1 self ts2)
    as (mt & mn & Hr & Htl' & Hs & Ho & Hn); [exact Htl|].
  exists mt, mn. cbv zeta in Hr |- *. erewrite run_bind_done by exact Hr.
  split_and!; [|done|done|by apply Ho|done].
  assert (w_thr (set_thr self (unwaited th) w <| w_tl := mt |> <| w_node := mn |>) !! self = Some (unwaited th))
    as H1 by (cbn; apply lookup_insert_eq).
  xload. xload. change (log (unwaited th)) with (log th).
  destruct (_ =? _); [|done]. by xload.
Qed.

Lemma live_not_zombie m ts1 self ts2 zs a :
  dll m (tl_list g_live_threads) (list_of <$> ts1 ++ self :: ts2) →
  (∀ a, a ∈ tl_list g_zombie_threads :: (list_of <$> zs) →
        a ∉ tl_list g_live_threads :: (list_of <$> ts1 ++ self :: ts2)) →
  a ∈ tl_list g_live_threads :: (list_of <$> ts1 ++ ts2) →
  a ∉ tl_list g_zombie_threads :: list_of self :: (list_of <$> zs).
Proof.
  intros Hd Hdis Ha Hz. rewrite fmap_app in Ha. rewrite fmap_app fmap_cons in Hd.
  apply dll_rotate in Hd as [[Hs _]%NoDup_cons _].
  assert (a ≠ list_of self) by (intros ->; set_solver).
  apply (Hdis a); [set_solver|]. rewrite fmap_app fmap_cons. set_solver.
Qed.

(** [mvrlu_thread_finish] takes the thread off the live list.  A
    thread whose log is empty gives its block back to the pool; one that still
    has versions in its log keeps it and becomes the first of the zombie
    threads, which the detection thread reaps. *)
Theorem thread_finish_leaves fuel c b busy w self th ts1 ts2 zs :
  pool_inv c (b :: busy) w →
  tl_inv w g_live_threads (ts1 ++ self :: ts2) → tl_inv w g_zombie_threads zs →
  (∀ a, a ∈ tl_list g_zombie_threads :: (list_of <$> zs) →
        a ∉ tl_list g_live_threads :: (list_of <$> ts1 ++ self :: ts2)) →
  w_thr w !! self = Some th → need_reclaim (log th) = 0 →
  buffer (log th) = b + offsetof_log_part →
  ∃ w' th',
    run (mvrlu_thread_finish fuel self) w = Done () w' ∧
    w_thr w' = <[self := th']> (w_thr w) ∧
    tl_inv w' g_live_threads (ts1 ++ ts2) ∧
    if head_cnt (log th) =? tail_cnt (log th) then
      pool_inv c busy w' ∧ buffer (log th') = NULL ∧ tl_inv w' g_zombie_threads zs
    else
      pool_inv c (b :: busy) w' ∧ log th' = log th ∧
      live_status th' = THREAD_LIVE_ZOMBIE ∧ tl_inv w' g_zombie_threads (self :: zs).
Proof.
  intros Hp Htl Hz Hdis Hth Hnr Hb.
  destruct (run_finish_off fuel w self th ts1 ts2 Htl Hth Hnr) as (mt & mn & Hr & Htl1 & Hs & Hmt & Hmn).
  cbv zeta in Hr, Htl1. set (w1 := set_thr self (unwaited th) w <| w_tl := mt |> <| w_node := mn |>) in *.
  rewrite Hr Hb. clear Hr.
  assert (tl_inv w1 g_zombie_threads zs) as Hz1.
  { eapply tl_inv_ext; [exact Hz|exact Hmt|]. intros a Ha. by apply Hmn, Hdis. }
  assert (w_thr w1 !! self = Some (unwaited th)) as Hth1 by (cbn; apply lookup_insert_eq).
  assert (w_thr w1 = <[self := unwaited th]> (w_thr w)) as Ew1 by done.
  assert (list_of self ∈ tl_list g_live_threads :: (list_of <$> ts1 ++ self :: ts2)) as Hin by set_solver.
  assert (pool_inv c (b :: busy) w1) as Hp1 by exact Hp.
  assert (w_node w1 !! list_of self = Some (ListNode NULL NULL)) as Hs1 by exact Hs.
  clearbody w1. destruct (_ =? _).
  - destruct (free_log_mem_inv c b busy w1 Hp1) as (w2 & Hf & Hp2 & Ew2).
    assert (w_thr w2 !! self = Some (unwaited th)) as Hth2 by (by rewrite Ew2).
    eexists _, _. unfold port_free_log_mem. erewrite run_bind_done by exact Hf. split_and!.
    + xstore_last. done.
    + rewrite {1}Ew2. cbn. by rewrite Ew1 insert_insert_eq.
    + rewrite Ew2. exact Htl1.
    + exact Hp2.
    + done.
    + rewrite Ew2. exact Hz1.
  - unfold smp_atomic_store. xstore. set (th2 := unwaited th <| live_status := THREAD_LIVE_ZOMBIE |>).
    set (w2 := set_thr self th2 w1). pose proof Hz1 as (t & Ht & _).
    destruct (run_thread_list_add w2 g_zombie_threads zs self t th2 (ListNode NULL NULL))
      as (mt3 & mn3 & Hr3 & Hz3 & _ & Ho3 & Hn3); [done|done| | |cell|done|].
    { intros Hi. apply (Hdis (list_of self)); [|done]. set_solver. }
    { intros E. apply (Hdis (list_of self)); [|done]. rewrite E. set_solver. }
    cbv zeta in Hr3, Hz3. eexists _, _. split_and!; [exact Hr3| | | | | |exact Hz3].
    + cbn. by rewrite Ew1 insert_insert_eq alter_insert_eq.
    + eapply tl_inv_ext; [exact Htl1|by apply Ho3|]. intros a Ha. cbn. apply Hn3.
      destruct Htl as (? & _ & _ & _ & Hd). by eapply live_not_zombie.
    + exact Hp1.
    + done.
    + done.
Qed.

(** ** Alignment of the log *)

(** The log part of a block follows the block's eight-byte link, so
    of eight consecutive blocks of a cache-line aligned region only one has a
    cache-line aligned log: what [alloc_log_mem] returns for block [i]
    satisfies the assertion of [mvrlu_thread_init] only if [i] is 7 modulo
    8. *)
Theorem log_part_alignment c w i pool :
  region_fits c → c mod 64 = 0 → (i < 128)%nat → w_pool w = log_block_at c i :: pool →
  ∃ p w', run port_alloc_log_mem w = Done p w' ∧
    (align_ptr_to_cacheline p = p ↔ Z.of_nat i mod 8 = 7).
Proof.
  intros [H1 H2] Hc Hi Hw. eexists _, _. split.
  { unfold port_alloc_log_mem, alloc_log_mem. by rewrite run_act Hw. }
  rewrite align_ptr_id; unfold log_block_at, offsetof_log_part in *; [zlia|]. zconst.
  Z.div_mod_to_equations. lia.
Qed.

(** ** Freeing a zombie *)

(** A finished thread whose log the detection thread has emptied
    is still on the zombie list; [mvrlu_thread_free] sees the empty log and
    frees the structure there and then, so the next walk over the zombie list
    reads freed memory. *)
Theorem thread_free_leaves_dangling w self th zs fuel :
  tl_inv w g_zombie_threads (self :: zs) → w_thr w !! self = Some th →
  head_cnt (log th) = tail_cnt (log th) → is_Some (w_mem w !! GET_MEM self) →
  ∃ w', run (mvrlu_thread_free self) w = Done () w' ∧
    run (qp_reap_zombie_threads (S fuel)) w' = Fault.
Proof.
  intros (t & Ht & Hl & _ & Hd) Hth Hht [sz Hm].
  eexists. split.
  { unfold mvrlu_thread_free, smp_atomic_store. xstore. xload. xload. cbn [log field_map].
    change (head_cnt _) with (head_cnt (log th)). change (tail_cnt _) with (tail_cnt (log th)).
    rewrite Hht Z.eqb_refl. unfold when, port_free. by rewrite run_act /= Hm. }
  set (w' := _ <| w_node ::= _ |>).
  assert (nxt (w_node w') (tl_list g_zombie_threads) = Some (list_of self)) as Hn.
  { unfold w', nxt. cbn. rewrite fmap_cons in Hd. rewrite lookup_delete_ne.
    - destruct Hd as [Hnd _]. inversion Hnd. intros E. set_solver.
    - exact (dll_next _ _ _ Hd). }
  unfold qp_reap_zombie_threads. rewrite run_loop_S.
  erewrite run_bind_done by (eapply (run_lock_free w' _ t); [exact Ht|done]).
  unfold thread_list_for_each_safe.
  rewrite !run_bind. erewrite run_load by exact Hn. cbn [outcome_bind].
  rewrite run_bind. unfold load at 1. rewrite run_act.
  assert (lget (node_loc next (list_of self)) (lset (tl_loc tl_lock g_zombie_threads) true w') = None) as ->.
  { change (nxt (w_node w') (list_of self) = None). unfold w', nxt. cbn. by rewrite lookup_delete_eq. }
  done.
Qed.

(** ** Detection ends *)

(** A walk whose body changes only the thread it is at. *)
Lemma run_each_thread (P : mvrlu_thread_struct → Prop) (f : mvrlu_thread_struct → mvrlu_thread_struct)
    (body : Z → kprog (option unit)) ts w :
  NoDup ts →
  (∀ t th w1, t ∈ ts → w_thr w1 !! t = Some th → P th → run (body t) w1 = Done None (set_thr t (f th) w1)) →
  (∀ t, t ∈ ts → ∃ th, w_thr w !! t = Some th ∧ P th) →
  ∃ m, run (for_each_until ts body) w = Done None (w <| w_thr := m |>) ∧
    ∀ t, m !! t = (if decide (t ∈ ts) then f else id) <$> w_thr w !! t.
Proof.
  intros Hnd Hb. revert w. induction ts as [|t ts IH]; intros w Hall.
  - exists (w_thr w). split; [by destruct w|]. intros t.
    destruct (decide _) as [H|_]; [set_solver|]. by destruct (w_thr w !! t).
  - apply NoDup_cons in Hnd as [Ht Hnd]. destruct (Hall t) as (th & Hth & HP); [set_solver|].
    destruct (IH Hnd) with (w := set_thr t (f th) w) as (m & Hr & Hm).
    { intros t' th' w1 Hin. apply Hb. set_solver. }
    { intros t' Hin. destruct (Hall t') as (th' & Hth' & HP'); [set_solver|]. exists th'. split; [|done].
      assert (t ≠ t') by (intros ->; done). cell. }
    exists m. split.
    + cbn. erewrite run_bind_done by (eapply Hb; [set_solver|done..]). exact Hr.
    + intros t'. rewrite Hm. cbn. destruct (decide (t' = t)) as [->|Hne].
      * rewrite lookup_insert_eq Hth. destruct (decide (t ∈ ts)); [done|].
        destruct (decide _) as [|H]; [done|]. set_solver.
      * rewrite lookup_insert_ne //. by destruct (decide (t' ∈ ts)), (decide (t' ∈ t :: ts)); set_solver.
Qed.

(** The links of the list are not touched. *)
Definition same_nodes (w1 w2 : world) : Prop := w_node w2 = w_node w1.

#[export] Instance same_nodes_preorder : PreOrder same_nodes.
Proof. split; [by intros ?|]. unfold same_nodes. congruence. Qed.

Lemma run_walk_threads fuel P f (body : Z → kprog (option unit)) tl ts w :
  tl_inv w tl ts → (length ts < fuel)%nat →
  (∀ t th w1, t ∈ ts → w_thr w1 !! t = Some th → P th → run (body t) w1 = Done None (set_thr t (f th) w1)) →
  (∀ t, keeps same_nodes (body t)) →
  (∀ t, t ∈ ts → ∃ th, w_thr w !! t = Some th ∧ P th) →
  ∃ w1 w2 m,
    run (thread_list_lock tl) w = Done () w1 ∧
    run (thread_list_for_each_safe fuel tl body) w1 = Done None w2 ∧
    run (thread_list_unlock tl) w2 = Done () (tl_released tl (w <| w_thr := m |>)) ∧
    ∀ t, m !! t = (if decide (t ∈ ts) then f else id) <$> w_thr w !! t.
Proof.
  intros (t & Ht & Hl & _ & Hd) Hf Hb Hn Hall. set (w1 := lset (tl_loc tl_lock tl) true w).
  assert (w_tl w1 !! tl = Some (t <| tl_lock := true |>)) as H1.
  { unfold w1, lset. simpl. by rewrite lookup_alter_eq Ht. }
  assert (NoDup ts) as Hnd by (destruct Hd as [[_ Hnd]%NoDup_cons _]; by apply NoDup_fmap_1 in Hnd).
  destruct (run_each_thread P f body ts w1 Hnd Hb Hall) as (m & Hr & Hm).
  exists w1, (w1 <| w_thr := m |>), m. split_and!; [by eapply run_lock_free| | |exact Hm].
  { rewrite (run_for_each_safe _ _ ts) //. intros t' ? ? ? _. apply (keeps_run same_nodes), Hn. }
  erewrite run_unlock by exact H1. f_equal.
  unfold tl_released, w1. world_eq. apply map_eq. intros i.
  destruct (decide (i = tl)) as [->|]; [rewrite !lookup_alter_eq Ht|by rewrite !lookup_alter_ne].
  done.
Qed.

(** The thread after [qp_init] and after [qp_wait] have passed it. *)
Definition init_info (th : mvrlu_thread_struct) : mvrlu_thread_struct :=
  th <| qp_info := QpInfo (Z.land (run_cnt th) 1) (run_cnt th) |>.
Definition wait_info (th : mvrlu_thread_struct) : mvrlu_thread_struct :=
  th <| qp_info ::= λ i, i <| need_wait := 0 |> |>.

Lemma run_qp_init_one t th w :
  w_thr w !! t = Some th → run (qp_init_one t) w = Done None (set_thr t (init_info th) w).
Proof.
  intros Hth. unfold qp_init_one. xload. xstore. xload. xstore. cbn.
  by destruct th as [? ? ? ? ? ? [] ? ? ?].
Qed.

(** A thread that does not stand in the way of the grace period begun at
    [qp_clk_]: it is in no section, or in one that began after it. *)
Definition quiescent (qp_clk_ : Z) (th : mvrlu_thread_struct) : Prop :=
  Z.odd (run_cnt th) = false ∨ gte_clock (local_clk th) qp_clk_ = true.

Lemma land_one n : Z.land n 1 = Z.b2z (Z.odd n).
Proof. change 1 with (Z.ones 1). rewrite Z.land_ones // Zmod_odd. by destruct (Z.odd n). Qed.

Lemma run_qp_wait_one fuel q t th w :
  w_thr w !! t = Some th →
  (∃ th0, th = init_info th0 ∧ quiescent q th0) →
  run (qp_wait_one (S fuel) q t) w = Done None (set_thr t (wait_info th) w).
Proof.
  intros Hth (th0 & -> & Hq). unfold qp_wait_one. xload.
  cbn [init_info qp_info need_wait field_map]. rewrite land_one.
  destruct (Z.odd (run_cnt th0)) eqn:Eo; cbn [truth negb Z.b2z Z.eqb].
  - destruct Hq as [|Hq]; [congruence|]. apply run_loop_exit. xload. xload.
    cbn [init_info qp_info qp_run_cnt run_cnt field_map].
    destruct (decide _) as [|_]; [done|].
    erewrite run_bind_done.
    2:{ xload. change (local_clk (init_info th0)) with (local_clk th0). by rewrite Hq. }
    cbv iota. xstore. done.
  - rewrite run_ret set_thr_id //. rewrite Hth. unfold wait_info, init_info. cbn.
    by rewrite land_one Eo.
Qed.

Ltac keeps_nodes :=
  repeat first
    [ apply keeps_ret | apply keeps_bind; [|intros ?] | apply keeps_when
    | apply keeps_loop; intros ? | apply keeps_load; apply _
    | by apply keeps_store | case_decide | case_match ].

Lemma qp_init_one_nodes t : keeps same_nodes (qp_init_one t).
Proof. unfold qp_init_one. keeps_nodes. Qed.

Lemma qp_wait_one_nodes fuel q t : keeps same_nodes (qp_wait_one fuel q t).
Proof.
  unfold qp_wait_one, thread_list_has_waiter, thread_list_unlock, port_spin_unlock, smp_atomic_store.
  keeps_nodes.
Qed.

Lemma tl_inv_released w tl ts m : tl_inv w tl ts → tl_inv (tl_released tl (w <| w_thr := m |>)) tl ts.
Proof.
  intros (t & Ht & Hl & Hn & Hd). eexists. split; [cbn; by rewrite lookup_alter_eq Ht|]. done.
Qed.

(** C32: a round of detection ends, within one pass over the list, when
    every thread is outside of sections or in one that began after it.  It
    then moves the grace period clock to just below the reading it began
    with, and changes of the threads only what [qp_init] and [qp_wait]
    keep about them. *)
Theorem qp_detect_returns fuel w ts q tsc :
  tl_inv w g_live_threads ts → (length ts < fuel)%nat → w_tsc w = q :: tsc →
  (∀ t, t ∈ ts → ∃ th, w_thr w !! t = Some th ∧ quiescent q th) →
  qp_need_reclaim (w_qp w) ≠ 0 →
  ∃ w', run (qp_detect fuel) w = Done () w' ∧
    w_qp w' = (w_qp w) <| qp_clk := correct_qp_clk q |> ∧
    tl_inv w' g_live_threads ts ∧
    ∀ t, w_thr w' !! t =
      (if decide (t ∈ ts) then λ th, wait_info (init_info th) else id) <$> w_thr w !! t.
Proof.
  intros Htl Hf Htsc Hall Hnr. destruct fuel as [|fuel]; [lia|]. set (w0 := w <| w_tsc := tsc |>).
  destruct (run_walk_threads (S fuel) (quiescent q) init_info qp_init_one g_live_threads ts w0)
    as (w1 & w2 & m & Hl1 & Hr1 & Hu1 & Hm); [done|done| |apply qp_init_one_nodes|done|].
  { intros t th w1 _ Hth _. by apply run_qp_init_one. }
  set (w3 := tl_released g_live_threads (w0 <| w_thr := m |>)) in *.
  assert (tl_inv w3 g_live_threads ts) as Htl3 by (by apply tl_inv_released).
  destruct (run_walk_threads (S fuel) (λ th, ∃ th0, th = init_info th0 ∧ quiescent q th0) wait_info
    (qp_wait_one (S fuel) q) g_live_threads ts w3)
    as (w4 & w5 & m' & Hl2 & Hr2 & Hu2 & Hm'); [done|done| |apply qp_wait_one_nodes| |].
  { intros t th w4 _. apply run_qp_wait_one. }
  { intros t Ht. destruct (Hall t Ht) as (th & Hth & Hq). exists (init_info th). split; [|eauto].
    change (m !! t = Some (init_info th)). rewrite Hm. destruct (decide _); [|done].
    change (w_thr w0) with (w_thr w). by rewrite Hth. }
  eexists. split_and!.
  - unfold qp_detect, get_clock, ordo_get_clock. rewrite run_bind run_act Htsc. cbn [outcome_bind].
    fold w0. unfold qp_init. rewrite run_bind. erewrite run_bind_done by exact Hl1.
    erewrite run_bind_done by exact Hr1. rewrite Hu1. cbn [outcome_bind].
    erewrite run_bind_done by (by apply run_load).
    change (qp_need_reclaim (w_qp w3)) with (qp_need_reclaim (w_qp w)).
    assert (truth (qp_need_reclaim (w_qp w)) = true) as -> by (by apply negb_true_iff, Z.eqb_neq).
    erewrite run_bind_done by done. unfold qp_wait. erewrite run_bind_done.
    2:{ apply run_loop_exit. erewrite run_bind_done by exact Hl2. erewrite run_bind_done by exact Hr2.
        cbv beta iota. erewrite run_bind_done by exact Hu2. done. }
    by eapply run_store.
  - done.
  - apply (tl_inv_released w3 _ _ m' Htl3).
  - intros t. change (m' !! t = (if decide (t ∈ ts) then λ th, wait_info (init_info th) else id) <$> w_thr w !! t).
    rewrite Hm'. change (w_thr w3) with m. rewrite Hm. change (w_thr w0) with (w_thr w).
    by destruct (decide (t ∈ ts)), (w_thr w !! t).
Qed.
