(* ===== verification/Pointers.v ===== *)
(** * Pointers between objects

    Shared pointers always hold the address of the actual object, never of a
    copy: [_mvrlu_assign_pointer] stores what [get_act_obj] returns, and
    [mvrlu_cmp_ptrs] compares it. *)

From S2P Require Import Prelude World Port Object Cells Api.

(** ** Bytes of a pointer *)

Lemma of_le64_le64 v : of_le64 (le64 v) = wrap64 v.
Proof.
  unfold of_le64, le64, wrap64. cbn.
  change (256 ^ 0) with 1. change (256 ^ 1) with 256. change (256 ^ 2) with 65536.
  change (256 ^ 3) with 16777216. change (256 ^ 4) with 4294967296. change (256 ^ 5) with 1099511627776.
  change (256 ^ 6) with 281474976710656. change (256 ^ 7) with 72057594037927936.
  change (2 ^ 64) with 18446744073709551616. rewrite Z.div_1_r.
  Z.div_mod_to_equations. lia.
Qed.

Lemma length_le64 v : length (le64 v) = 8%nat.
Proof. reflexivity. Qed.

Lemma take_drop_inserts {A} (k bs : list A) i :
  (i + length k ≤ length bs)%nat → take (length k) (drop i (list_inserts i k bs)) = k.
Proof.
  intros Hi. apply list_eq. intros j. destruct (decide (j < length k)%nat) as [Hj|Hj].
  - rewrite lookup_take_lt // lookup_drop list_lookup_inserts; [lia..|]. f_equal. lia.
  - rewrite lookup_take_ge; [lia|]. symmetry. apply lookup_ge_None_2. lia.
Qed.

(** ** The actual object of a pointer *)

(** [obj] is a pointer to an actual object, or to a copy of it in a log. *)
Definition refers (w : world) (obj act_ : Z) : Prop :=
  if decide (obj = NULL) then act_ = NULL
  else if addr_in_log_region w (obj_to_obj_hdr obj)
  then p_act <$> w_chs w !! obj_to_chs obj = Some act_
  else act_ = obj.

Lemma run_act_of w obj act_ : refers w obj act_ → run (act_of obj) w = Done act_ w.
Proof.
  unfold refers, act_of. destruct (decide (obj = NULL)) as [->|]; [by intros ->|].
  destruct (addr_in_log_region w (obj_to_obj_hdr obj)) eqn:E.
  - destruct (w_chs w !! obj_to_chs obj) as [h|] eqn:Eh; [|done]. intros [= <-].
    by apply run_get_act_obj_copy.
  - intros ->. by apply run_get_act_obj_actual.
Qed.

(** A pointer assigned with [_mvrlu_assign_pointer] reads back as
    the actual object, also when a copy was assigned, and no other byte of
    the structure around it changes. *)
Theorem assign_pointer_reads_actual w base off obj act_ bs :
  refers w obj act_ → 0 ≤ act_ ≤ ULONG_MAX →
  w_data w !! base = Some bs → (off + 8 ≤ length bs)%nat →
  ∃ w' bs',
    run (_mvrlu_assign_pointer base off obj) w = Done () w' ∧
    run (load_ptr base off) w' = Done act_ w' ∧
    w' = w <| w_data ::= <[base := bs']> |> ∧ length bs' = length bs ∧
    ∀ i, (i < off ∨ off + 8 ≤ i)%nat → bs' !! i = bs !! i.
Proof.
  intros Hr Ha Hbs Hoff. set (bs' := list_inserts off (le64 act_) bs).
  assert (length bs' = length bs) as Hlen by apply length_inserts.
  exists (w <| w_data ::= <[base := bs']> |>), bs'. split_and!; [| |done|done|].
  - unfold _mvrlu_assign_pointer. erewrite run_bind_done by (by apply run_act_of).
    unfold store_ptr. rewrite run_act Hbs. by destruct (decide _).
  - unfold load_ptr. rewrite run_act /= lookup_insert_eq.
    destruct (decide _); [|rewrite Hlen // in n].
    rewrite -{1}(length_le64 act_) take_drop_inserts // of_le64_le64 wrap64_small //.
  - intros i Hi. destruct Hi as [Hi|Hi].
    + by rewrite list_lookup_inserts_lt.
    + by rewrite list_lookup_inserts_ge.
Qed.

(** [mvrlu_cmp_ptrs] tells whether two pointers lead to the same
    object, whichever versions of it they are. *)
Theorem cmp_ptrs_same_object w obj1 obj2 act1 act2 :
  refers w obj1 act1 → refers w obj2 act2 →
  run (mvrlu_cmp_ptrs obj1 obj2) w = Done (bool_decide (act1 = act2)) w.
Proof.
  intros H1 H2. unfold mvrlu_cmp_ptrs. erewrite run_bind_done by (by apply run_act_of).
  by erewrite run_bind_done by (by apply run_act_of).
Qed.
