(* ===== verification/Concur.v ===== *)
(** * Interleaving

    Several programs share the state; one step is one atomic action of one of
    them.  [safe] is a program logic for a single program among others, in the
    rely/guarantee style: [R] bounds what the others do between two actions,
    [G] what the program itself does.  Programs that are safe against each
    other are safe together. *)

From S2P Require Import Prelude World LogLayout.

(** ** Safety of one program *)

Section safe.
Context {S : Type} (R G : S → S → Prop).
Context (spin : Prop).   (* whether a busy-wait loop may use up its bound *)

(** From [s] on, every action of [p] is on mapped memory and within [G], and
    a result [a] satisfies [Q a] from then on, whatever the others do within
    [R]. *)
Fixpoint safe {A : Type} (p : prog S A) (Q : A → S → Prop) (s : S) : Prop :=
  ∀ s1, rtc R s s1 →
  match p with
  | Ret a => Q a s1
  | Do op k =>
      op s1 ≠ Crash ∧ ∀ b s2, op s1 = Next b s2 → G s1 s2 ∧ safe (k b) Q s2
  | Spin => spin
  end.

Lemma safe_rely {A} (p : prog S A) Q s s' : safe p Q s → rtc R s s' → safe p Q s'.
Proof. destruct p; intros H Hr s1 Hr1; apply (H s1); by trans s'. Qed.

Lemma safe_mono {A} (p : prog S A) (Q Q' : A → S → Prop) s :
  (∀ a s, Q a s → Q' a s) → safe p Q s → safe p Q' s.
Proof.
  intros HQ. revert s. induction p as [a|B op k IH|]; intros s H s1 Hr.
  - by apply HQ, H.
  - destruct (H s1 Hr) as [Hc Hn]. split; [done|]. intros b s2 E. destruct (Hn b s2 E). auto.
  - by apply (H s1).
Qed.

Lemma safe_bind {A B} (m : prog S A) (f : A → prog S B) (Q : B → S → Prop) s :
  safe m (λ a, safe (f a) Q) s → safe (m ≫= f) Q s.
Proof.
  revert s. induction m as [a|C op k IH|]; intros s H.
  - exact (H s (rtc_refl _ s)).
  - intros s1 Hr. destruct (H s1 Hr) as [Hc Hn]. split; [done|].
    intros b s2 E. destruct (Hn b s2 E) as [HG Hk]. split; [done|]. by apply IH.
  - intros s1 Hr. by apply (H s1).
Qed.

Lemma safe_ret {A} (a : A) (Q : A → S → Prop) s :
  (∀ s1, rtc R s s1 → Q a s1) → safe (mret a) Q s.
Proof. done. Qed.

Lemma safe_loop_S {C A} n (body : C → prog S (C + A)) c (Q : A → S → Prop) s :
  safe (body c) (λ r s', match r with
                         | inl c' => safe (loop n body c') Q s'
                         | inr a => ∀ s1, rtc R s' s1 → Q a s1
                         end) s →
  safe (loop (Datatypes.S n) body c) Q s.
Proof.
  intros H. apply safe_bind. eapply safe_mono; [|exact H]. cbv beta. intros [c'|a] s' Hs; [done|].
  by apply safe_ret.
Qed.

Lemma safe_act {B} (op : S → effect S B) (Q : B → S → Prop) s :
  (∀ s1, rtc R s s1 → op s1 ≠ Crash ∧ ∀ b s2, op s1 = Next b s2 →
     G s1 s2 ∧ ∀ s3, rtc R s2 s3 → Q b s3) →
  safe (act op) Q s.
Proof. done. Qed.

(** One action between assertions that the others do not disturb. *)
Definition stable (P : S → Prop) : Prop := ∀ s s', R s s' → P s → P s'.

Lemma safe_step {B} (op : S → effect S B) (P : S → Prop) (Q : B → S → Prop) s :
  stable P → (∀ b, stable (Q b)) → P s →
  (∀ s1, P s1 → op s1 ≠ Crash ∧ ∀ b s2, op s1 = Next b s2 → G s1 s2 ∧ Q b s2) →
  safe (act op) Q s.
Proof.
  intros HP HQ Hs H. apply safe_act. intros s1 Hr1.
  assert (P s1) as H1 by (induction Hr1; eauto). destruct (H s1 H1) as [Hc Hn].
  split; [done|]. intros b s2 E. destruct (Hn b s2 E) as [HG H2]. split; [done|].
  intros s3 Hr3. clear -Hr3 H2 HQ. induction Hr3; [done|]. apply IHHr3. by eapply HQ.
Qed.

Lemma safe_bind_step {B A} (op : S → effect S B) (k : B → prog S A) (P : S → Prop) (Q : B → S → Prop) Q' s :
  stable P → (∀ b, stable (Q b)) → P s →
  (∀ s1, P s1 → op s1 ≠ Crash ∧ ∀ b s2, op s1 = Next b s2 → G s1 s2 ∧ Q b s2) →
  (∀ b s1, Q b s1 → safe (k b) Q' s1) →
  safe (act op ≫= k) Q' s.
Proof.
  intros HP HQ Hs H Hk. apply safe_bind. eapply safe_mono; [|by apply (safe_step op P Q)]. exact Hk.
Qed.

Lemma safe_done {A} (a : A) (P : S → Prop) (Q : A → S → Prop) s :
  stable P → P s → (∀ s, P s → Q a s) → safe (mret a) Q s.
Proof. intros HP Hs H. apply safe_ret. intros s1 Hr. apply H. clear H. induction Hr; eauto. Qed.

Lemma safe_iterate {C} n (body : C → prog S C) (P : nat → C → S → Prop) c s :
  P O c s →
  (∀ k c s, (k < n)%nat → P k c s → safe (body c) (P (Datatypes.S k)) s) →
  (∀ c, stable (P n c)) →
  safe (iterate n body c) (P n) s.
Proof.
  intros H0 Hb Hst.
  enough (∀ m k c s, (k + m = n)%nat → P k c s → safe (iterate m body c) (P n) s) as H
    by (eapply (H n O); [lia|done]).
  induction m as [|m IH]; intros k c1 s1 Hk H1.
  - replace k with n in H1 by lia. by apply (safe_done _ (P n c1)).
  - apply safe_bind. eapply safe_mono; [|apply (Hb k); [lia|exact H1]].
    intros c2 s2 H2. apply (IH (Datatypes.S k)); [lia|exact H2].
Qed.
End safe.

Lemma safe_guar {S A} (R G G' : S → S → Prop) spin (p : prog S A) Q s :
  (∀ s s', G s s' → G' s s') → safe R G spin p Q s → safe R G' spin p Q s.
Proof.
  intros HG. revert s. induction p as [a|B op k IH|]; intros s H s1 Hr; try by apply (H s1).
  destruct (H s1 Hr) as [Hc Hn]. split; [done|]. intros b s2 E. destruct (Hn b s2 E). auto.
Qed.

(** What the others do not change. *)
Lemma rtc_stable {S} (R : S → S → Prop) (P : S → Prop) s s' :
  (∀ s s', P s → R s s' → P s') → rtc R s s' → P s → P s'.
Proof. intros H. induction 1; eauto. Qed.

(** ** Several programs *)

Section parallel.
Context {S A : Type}.

(** One action of the [i]-th program. *)
Inductive cstep : S * list (prog S A) → S * list (prog S A) → Prop :=
| cstep_do s ps i B (op : S → effect S B) (k : B → prog S A) b s' :
    ps !! i = Some (Do op k) → op s = Next b s' →
    cstep (s, ps) (s', <[i := k b]> ps).

(** A state in which some program is about to fault. *)
Definition faulty (c : S * list (prog S A)) : Prop :=
  ∃ i B (op : S → effect S B) k, c.2 !! i = Some (Do op k) ∧ op c.1 = Crash.

Context (R G : nat → S → S → Prop) (spin : Prop).
Context (HRG : ∀ i j s s', i ≠ j → G j s s' → R i s s').

(** Programs that respect each other's assumptions run together without a
    fault, and the result of each satisfies its postcondition. *)
Lemma parallel_safe (ps : list (prog S A)) (Q : nat → A → S → Prop) s :
  (∀ i p, ps !! i = Some p → safe (R i) (G i) spin p (Q i) s) →
  ∀ c, rtc cstep (s, ps) c →
    ¬ faulty c ∧ ∀ i a, c.2 !! i = Some (Ret a) → Q i a c.1.
Proof.
  intros Hs c Hc.
  assert (∀ i p, c.2 !! i = Some p → safe (R i) (G i) spin p (Q i) c.1) as Hinv.
  { revert Hs. change s with ((s, ps).1) at 1. change ps with ((s, ps).2) at 1.
    induction Hc as [c|c1 c2 c3 Hstep _ IH]; [done|]. intros Hs. apply IH. clear IH.
    destruct Hstep as [s1 qs i B op k b s2 Hi Hop]. cbn in *. intros j p.
    destruct (Hs i _ Hi s1 ltac:(constructor)) as [_ Hn]. destruct (Hn b s2 Hop) as [HG Hk].
    destruct (decide (i = j)) as [<-|Hij].
    - rewrite list_lookup_insert_eq; [by eapply lookup_lt_Some|]. by intros [= <-].
    - rewrite list_lookup_insert_ne //. intros Hj. eapply safe_rely; [by apply Hs|].
      apply rtc_once. by apply (HRG j i). }
  split.
  - intros (i & B & op & k & Hi & Hop). destruct (Hinv i _ Hi c.1 ltac:(constructor)). done.
  - intros i a Hi. by apply (Hinv i _ Hi c.1 ltac:(constructor)).
Qed.
End parallel.

(** ** A program and its environment

    [under env p] is [p] with the environment acting before each action:
    [env m] is what happens between the actions number [m - 1] and [m]. *)

Fixpoint under {S A : Type} (env : nat → S → S) (p : prog S A) : prog (nat * S) A :=
  match p with
  | Ret a => Ret a
  | Do op k =>
      Do (λ ms, match op (env ms.1 ms.2) with
                | Next b s' => Next b (Datatypes.S ms.1, s')
                | Wait => Wait
                | Crash => Crash
                end) (λ b, under env (k b))
  | Spin => Spin
  end.

Lemma under_act {S B} env (op : S → effect S B) m s :
  run (under env (act op)) (m, s) =
  match op (env m s) with Next b s' => Done b (Datatypes.S m, s') | Wait => Blocked | Crash => Fault end.
Proof. unfold act. cbn [under]. rewrite run_do. cbn. by destruct (op (env m s)). Qed.

Lemma under_bind {S A B} env (p : prog S A) (f : A → prog S B) ms :
  run (under env (p ≫= f)) ms = outcome_bind (run (under env p) ms) (λ a ms', run (under env (f a)) ms').
Proof.
  revert ms. induction p as [a|C op k IH|]; intros ms; [done| |done].
  change (Do op k ≫= f) with (Do op (λ b, k b ≫= f)). cbn [under]. rewrite !run_do.
  destruct (op (env ms.1 ms.2)); [apply IH|done..].
Qed.

Lemma under_bind_done {S A B} env (p : prog S A) (f : A → prog S B) ms a ms' :
  run (under env p) ms = Done a ms' → run (under env (p ≫= f)) ms = run (under env (f a)) ms'.
Proof. intros H. by rewrite under_bind H. Qed.

Lemma under_loop_S {S C A} env n (body : C → prog S (C + A)) c ms :
  run (under env (loop (Datatypes.S n) body c)) ms =
  outcome_bind (run (under env (body c)) ms)
    (λ r ms', match r with inl c' => run (under env (loop n body c')) ms' | inr a => Done a ms' end).
Proof.
  unfold loop at 1; fold (@loop S C A). rewrite under_bind.
  by destruct (run (under env (body c)) ms) as [[]| | |].
Qed.

Lemma under_iterate_S {S C} env n (body : C → prog S C) c ms :
  run (under env (iterate (Datatypes.S n) body c)) ms =
  outcome_bind (run (under env (body c)) ms) (λ c' ms', run (under env (iterate n body c')) ms').
Proof. unfold iterate at 1; fold (@iterate S C). apply under_bind. Qed.

(** ** Schedules *)

(** The first [n] actions of a program. *)
Fixpoint steps {S A : Type} (n : nat) (p : prog S A) (s : S) : option (prog S A * S) :=
  match n with
  | O => Some (p, s)
  | Datatypes.S n' =>
      match p with
      | Do op k => match op s with Next b s' => steps n' (k b) s' | _ => None end
      | _ => None
      end
  end.

Section schedules.
Context {S A : Type}.

Lemma steps_cstep n (p p' : prog S A) s s' ps i :
  steps n p s = Some (p', s') → ps !! i = Some p → rtc cstep (s, ps) (s', <[i := p']> ps).
Proof.
  revert p s ps. induction n as [|n IH]; intros p s ps; cbn.
  - intros [= -> ->] Hi. by rewrite list_insert_id.
  - destruct p as [a|B op k|]; [done| |done]. destruct (op s) as [b s1| |] eqn:E; [|done..].
    intros Hs Hi. eapply rtc_l; [by eapply cstep_do|].
    rewrite -(list_insert_insert_eq ps i p' (k b)). eapply IH; [done|].
    apply list_lookup_insert_eq. by eapply lookup_lt_Some.
Qed.

Lemma run_cstep (p : prog S A) a s s' ps i :
  run p s = Done a s' → ps !! i = Some p → rtc cstep (s, ps) (s', <[i := Ret a]> ps).
Proof.
  revert s ps. induction p as [a'|B op k IH|]; intros s ps; cbn; [| |done].
  - intros [= -> ->] Hi. by rewrite list_insert_id.
  - change (run (Do op k) s) with (match op s with Next b s' => run (k b) s' | Wait => Blocked | Crash => Fault end).
    destruct (op s) as [b s1| |] eqn:E; [|done..].
    intros Hs Hi. eapply rtc_l; [by eapply cstep_do|].
    rewrite -(list_insert_insert_eq ps i (Ret a) (k b)). apply (IH b); [done|].
    apply list_lookup_insert_eq. by eapply lookup_lt_Some.
Qed.

(** [p] interrupted after [n] actions by all of [q]. *)
Lemma preempt_cstep n (p p' q : prog S A) a b s s1 s2 s3 :
  steps n p s = Some (p', s1) → run q s1 = Done b s2 → run p' s2 = Done a s3 →
  rtc cstep (s, [p; q]) (s3, [Ret a; Ret b]).
Proof.
  intros H1 H2 H3. trans (s1, [p'; q]); [exact (steps_cstep n p p' s s1 [p; q] 0 H1 eq_refl)|].
  trans (s2, [p'; Ret b]); [exact (run_cstep q b s1 s2 [p'; q] 1 H2 eq_refl)|].
  exact (run_cstep p' a s2 s3 [p'; Ret b] 0 H3 eq_refl).
Qed.
End schedules.

(** ** Accesses *)

Section accesses.
Context (R G : world → world → Prop) (spin : Prop).

Lemma safe_load {V} (l : loc V) (Q : V → world → Prop) w :
  Reflexive G →
  (∀ w1, rtc R w w1 → ∃ v, lget l w1 = Some v ∧ ∀ w2, rtc R w1 w2 → Q v w2) →
  safe R G spin (load l) Q w.
Proof.
  intros HG H. apply safe_act. intros w1 Hr. destruct (H w1 Hr) as (v & -> & HQ). split; [done|].
  intros b w2 [= <- <-]. done.
Qed.

Lemma safe_store {V} (l : loc V) v (Q : () → world → Prop) w :
  (∀ w1, rtc R w w1 → is_Some (lget l w1) ∧ G w1 (lset l v w1) ∧
     ∀ w2, rtc R (lset l v w1) w2 → Q () w2) →
  safe R G spin (store l v) Q w.
Proof.
  intros H. apply safe_act. intros w1 Hr. destruct (H w1 Hr) as ([v' ->] & HG & HQ). split; [done|].
  intros b w2 [= <- <-]. done.
Qed.

Lemma safe_cas {V} `{EqDecision V} (l : loc V) old new (Q : bool → world → Prop) w :
  Reflexive G →
  (∀ w1, rtc R w w1 → ∃ v, lget l w1 = Some v ∧
     (v = old → G w1 (lset l new w1) ∧ ∀ w2, rtc R (lset l new w1) w2 → Q true w2) ∧
     (v ≠ old → ∀ w2, rtc R w1 w2 → Q false w2)) →
  safe R G spin (smp_cas l old new) Q w.
Proof.
  intros HG H. apply safe_act. intros w1 Hr. destruct (H w1 Hr) as (v & -> & H1 & H2).
  case_decide as E; (split; [done|]); intros b w2 [= <- <-]; [by apply H1|]. split; [done|]. by apply H2.
Qed.

Lemma safe_cas_v {V} `{EqDecision V} (l : loc V) old new (Q : bool * V → world → Prop) w :
  Reflexive G →
  (∀ w1, rtc R w w1 → ∃ v, lget l w1 = Some v ∧
     (v = old → G w1 (lset l new w1) ∧ ∀ w2, rtc R (lset l new w1) w2 → Q (true, v) w2) ∧
     (v ≠ old → ∀ w2, rtc R w1 w2 → Q (false, v) w2)) →
  safe R G spin (smp_cas_v l old new) Q w.
Proof.
  intros HG H. apply safe_act. intros w1 Hr. destruct (H w1 Hr) as (v & -> & H1 & H2).
  case_decide as E; (split; [done|]); intros b w2 [= <- <-]; [by apply H1|]. split; [done|]. by apply H2.
Qed.
End accesses.
