(* ===== verification/Interference.v ===== *)
(** * The algorithms of MV-RLU under interference

    Mutual exclusion of object locks, the retry loop of a commit against the
    detaching of a version by reclamation, and the grace period that
    [qp_init] and [qp_wait] establish while readers come and go. *)

From S2P Require Import Prelude World OrdoClock Port ThreadList Object Cells VersionLog LogLayout Commit Qp Concur.

(** ** Object locks *)

Definition lock_word (o : Z) (w : world) : option Z := p_lock <$> w_ahs w !! o.

(** What the owner of the copy [new] does to the lock of [o], and what it
    expects of the others. *)
Definition lock_guar (o new : Z) (w w' : world) : Prop :=
  (is_Some (lock_word o w) → is_Some (lock_word o w')) ∧
  (lock_word o w' = lock_word o w ∨
   (lock_word o w = Some NULL ∧ lock_word o w' = Some new) ∨
   (lock_word o w = Some new ∧ lock_word o w' = Some NULL)).
Definition lock_rely (o new : Z) (w w' : world) : Prop :=
  (is_Some (lock_word o w) → is_Some (lock_word o w')) ∧
  (lock_word o w = Some new ↔ lock_word o w' = Some new).

Lemma lock_guar_rely o new new' w w' :
  new ≠ NULL → new' ≠ NULL → new ≠ new' → lock_guar o new w w' → lock_rely o new' w w'.
Proof. intros H1 H2 H3 [Hs Hc]. split; [done|]. destruct Hc as [->|[[-> ->]|[-> ->]]]; naive_solver. Qed.

#[export] Instance lock_guar_refl o new : Reflexive (lock_guar o new).
Proof. intros w. split; [done|by left]. Qed.

Lemma lock_word_get o w v : lget (ahs_loc p_lock o) w = Some v ↔ lock_word o w = Some v.
Proof. done. Qed.
Lemma lock_word_set o w v : is_Some (lock_word o w) → lock_word o (lset (ahs_loc p_lock o) v w) = Some v.
Proof.
  intros [x Hx]. unfold lock_word, lset in *. cbn. rewrite lookup_alter_eq.
  by destruct (w_ahs w !! o).
Qed.

Lemma lock_rely_held o new w w' : rtc (lock_rely o new) w w' → lock_word o w = Some new → lock_word o w' = Some new.
Proof.
  intros Hr H. eapply (rtc_stable _ (λ w, lock_word o w = Some new)); [|exact Hr|exact H].
  intros s s' Hs [_ Hi]. by apply Hi.
Qed.
Lemma lock_rely_mapped o new w w' : rtc (lock_rely o new) w w' → is_Some (lock_word o w) → is_Some (lock_word o w').
Proof.
  intros Hr H. eapply (rtc_stable _ (λ w, is_Some (lock_word o w))); [|exact Hr|exact H].
  intros s s' Hs [Hm _]. by apply Hm.
Qed.

Lemma lock_word_head o w : is_Some (lock_word o w) → ∃ c, lget (ahs_hdr p_copy o) w = Some c.
Proof. unfold lock_word, lget. cbn. intros [x Hx]. destruct (w_ahs w !! o); [by eexists|done]. Qed.

Lemma safe_try_lock_obj o old new w :
  new ≠ NULL → is_Some (lock_word o w) →
  safe (lock_rely o new) (lock_guar o new) False (try_lock_obj o old new)
    (λ r w', r = true → lock_word o w' = Some new) w.
Proof.
  intros Hnew Hw. unfold try_lock_obj.
  assert (∀ w0, is_Some (lock_word o w0) → safe (lock_rely o new) (lock_guar o new) False
    (load (ahs_hdr p_copy o)) (λ _ w', is_Some (lock_word o w')) w0) as Hload.
  { intros w0 H0. apply safe_load; [apply _|]. intros w1 Hr. pose proof (lock_rely_mapped _ _ _ _ Hr H0) as H1.
    destruct (lock_word_head o w1 H1) as [c Hc]. exists c. split; [done|].
    intros w2 Hr2. by eapply lock_rely_mapped. }
  apply safe_bind. apply safe_load; [apply _|]. intros w1 Hr1.
  pose proof (lock_rely_mapped _ _ _ _ Hr1 Hw) as [l Hl]. exists l. split; [done|].
  intros w2 Hr2. pose proof (lock_rely_mapped _ _ _ _ Hr2 (mk_is_Some _ _ Hl)) as H2.
  case_decide; [by apply safe_ret|].
  apply safe_bind. eapply safe_mono; [|by apply Hload]. cbv beta. intros c w3 H3.
  case_decide; [by apply safe_ret|].
  apply safe_bind. apply safe_cas; [apply _|]. intros w4 Hr4.
  pose proof (lock_rely_mapped _ _ _ _ Hr4 H3) as [l4 Hl4]. exists l4. split; [done|]. split.
  - intros ->. pose proof (lock_word_set o w4 new (mk_is_Some _ _ Hl4)) as Hset.
    split; [split; [by rewrite Hset|right; left; done]|]. intros w5 Hr5.
    pose proof (lock_rely_held _ _ _ _ Hr5 Hset) as H5. cbn [negb].
    apply safe_bind. apply safe_load; [apply _|]. intros w6 Hr6.
    pose proof (lock_rely_held _ _ _ _ Hr6 H5) as H6.
    destruct (lock_word_head o w6 (mk_is_Some _ _ H6)) as [c6 Hc6]. exists c6. split; [done|].
    intros w7 Hr7. pose proof (lock_rely_held _ _ _ _ Hr7 H6) as H7. case_decide.
    + apply safe_bind. apply safe_store. intros w8 Hr8. pose proof (lock_rely_held _ _ _ _ Hr8 H7) as H8.
      pose proof (lock_word_set o w8 NULL (mk_is_Some _ _ H8)) as Hset8.
      split_and!; [by eexists|split; [by rewrite Hset8|right; right; done]|]. intros. by apply safe_ret.
    + apply safe_ret. intros w8 Hr8 _. by eapply lock_rely_held.
  - intros _ w5 _. by apply safe_ret.
Qed.

(** C15: any number of threads may run [try_lock_obj] on the same object
    at the same time, each with its own copy, in any interleaving of their
    accesses: no access faults, at most one of them gets the lock, and the
    lock word then is the winner's copy. *)
Theorem try_lock_obj_exclusive o (olds news : list Z) w c :
  NoDup news → NULL ∉ news → is_Some (w_ahs w !! o) →
  rtc cstep (w, zip_with (try_lock_obj o) olds news) c →
  ¬ faulty c ∧
  (∀ i, c.2 !! i = Some (Ret true) → lock_word o c.1 = news !! i) ∧
  (∀ i j, c.2 !! i = Some (Ret true) → c.2 !! j = Some (Ret true) → i = j).
Proof.
  intros Hnd Hnull Hw Hc.
  assert (is_Some (lock_word o w)) as Hw' by (unfold lock_word; by apply fmap_is_Some).
  set (other := fresh (NULL :: news)).
  assert (other ∉ NULL :: news) as Hother by apply infinite_is_fresh.
  set (new := λ i, default other (news !! i)).
  assert (∀ i n, news !! i = Some n → n ∈ news ∧ n ≠ NULL) as Hn.
  { intros i n Hi. apply list_elem_of_lookup_2 in Hi. split; [done|]. by intros ->. }
  destruct (parallel_safe (A := bool) (λ i, lock_rely o (new i))
      (λ i w w', is_Some (news !! i) ∧ lock_guar o (new i) w w') False)
    with (ps := zip_with (try_lock_obj o) olds news) (s := w) (c := c)
    (Q := λ i (r : bool) w', ∃ n, news !! i = Some n ∧ (r = true → lock_word o w' = Some n))
    as [Hf Hq]; [| |done|].
  - intros i j s s' Hij [[nj Hj] HG]. destruct (Hn j nj Hj) as [Hjin Hjn].
    unfold new in *. rewrite Hj in HG. eapply lock_guar_rely; [done| | |exact HG].
    + destruct (news !! i) as [ni|] eqn:Hi; [by eapply Hn|]. cbn. set_solver.
    + destruct (news !! i) as [ni|] eqn:Hi; cbn; [|set_solver].
      intros ->. apply Hij. by eapply NoDup_lookup.
  - intros i p Hp. apply lookup_zip_with_Some in Hp as (old & n & -> & _ & Hi).
    destruct (Hn i n Hi) as [_ Hne]. unfold new. rewrite Hi.
    eapply safe_guar; [intros; by split|]. eapply safe_mono; [|by apply safe_try_lock_obj].
    cbv beta. eauto.
  - split_and!; [done| |].
    + intros i Hi. destruct (Hq i true Hi) as (n & -> & E). by apply E.
    + intros i j Hi Hj. destruct (Hq i true Hi) as (ni & Ei & E1). destruct (Hq j true Hj) as (nj & Ej & E2).
      rewrite E1 // in E2. injection (E2 eq_refl) as ->. by eapply NoDup_lookup.
Qed.

(** ** Publishing against detaching *)

Definition head_word (o : Z) (w : world) : option Z := (λ a, p_copy (a_obj_hdr a)) <$> w_ahs w !! o.
Definition link (chs : Z) (w : world) : option Z := (λ h, p_copy (c_obj_hdr h)) <$> w_chs w !! chs.

(** While a thread holds the lock of [o], the others only detach its newest
    version; they leave the holder's entry [chs] alone, and versions stay
    readable. *)
Record push_rely (o chs : Z) (w w' : world) : Prop := PushRely {
  pr_own : w_chs w' !! chs = w_chs w !! chs;
  pr_head : head_word o w' = head_word o w ∨ head_word o w' = Some NULL;
  pr_chs : ∀ x h, w_chs w !! x = Some h → ∃ h', w_chs w' !! x = Some h' ∧ p_wrt_clk h' = p_wrt_clk h;
  pr_ws : ∀ x, is_Some (w_ws w !! x) → is_Some (w_ws w' !! x);
}.

(** The holder replaces the newest version only by its copy, and only when the
    copy is linked to the version it replaces. *)
Definition push_guar (o chs : Z) (w w' : world) : Prop :=
  head_word o w' = head_word o w ∨
  (head_word o w' = Some (chs_obj chs) ∧ link chs w = head_word o w ∧ link chs w' = link chs w).

#[export] Instance push_guar_refl o chs : Reflexive (push_guar o chs).
Proof. by left. Qed.

(** A version whose clock can be read. *)
Definition readable (p : Z) (w : world) : Prop :=
  p = NULL ∨ ∃ h, w_chs w !! vobj_to_chs p = Some h ∧ is_Some (w_ws w !! p_wrt_clk h).

(** What holds throughout the loop when the version expected is [p]. *)
Definition push_pre (o chs p : Z) (w : world) : Prop :=
  (head_word o w = Some p ∨ head_word o w = Some NULL) ∧ is_Some (w_chs w !! chs) ∧ readable p w.

Lemma push_pre_stable o chs p w w' : rtc (push_rely o chs) w w' → push_pre o chs p w → push_pre o chs p w'.
Proof.
  intros Hr. apply (rtc_stable (push_rely o chs)); [|done]. clear.
  intros w w' (Hh & Hc & Hrd) [E1 E2 E3 E4]. split_and!.
  - destruct E2 as [-> | ->]; [done|by right].
  - by rewrite E1.
  - destruct Hrd as [->|(h & Eh & Hw)]; [by left|right]. destruct (E3 _ _ Eh) as (h' & Eh' & Ew).
    exists h'. split; [done|]. rewrite Ew. by apply E4.
Qed.

Lemma link_stable o chs w w' : rtc (push_rely o chs) w w' → link chs w' = link chs w.
Proof. induction 1 as [|w1 w2 w3 [E _ _ _] _ IH]; [done|]. rewrite IH. unfold link. by rewrite E. Qed.

Section push.
Context (o chs : Z).
Local Notation R := (push_rely o chs).
Local Notation G := (push_guar o chs).

Lemma safe_read_clk p w :
  p ≠ NULL → push_pre o chs p w →
  safe R G False (get_wrt_clk (vobj_to_chs p)) (λ _ w', push_pre o chs p w' ∧ link chs w' = link chs w) w.
Proof.
  intros Hp Hpre. unfold get_wrt_clk.
  assert (∀ w1 w2, rtc R w1 w2 → push_pre o chs p w1 ∧ link chs w1 = link chs w →
    push_pre o chs p w2 ∧ link chs w2 = link chs w) as Hst.
  { intros w1 w2 Hr [H1 H2]. split; [by eapply push_pre_stable|]. by rewrite (link_stable _ _ _ _ Hr). }
  assert (∀ w1, push_pre o chs p w1 → ∃ h, w_chs w1 !! vobj_to_chs p = Some h ∧ is_Some (w_ws w1 !! p_wrt_clk h)) as Hrd.
  { intros w1 (_ & _ & [?|?]); done. }
  apply safe_bind, safe_load; [apply _|]. intros w1 Hr1.
  pose proof (Hst _ _ Hr1 (conj Hpre eq_refl)) as H1. destruct (Hrd w1 (proj1 H1)) as (h1 & Eh1 & _).
  exists (__wrt_clk h1). split; [by apply chs_get|]. intros w2 Hr2. pose proof (Hst _ _ Hr2 H1) as H2.
  case_decide; [|apply safe_ret; intros w3 Hr3; by apply (Hst w2)].
  apply safe_bind, safe_load; [apply _|]. intros w3 Hr3. pose proof (Hst _ _ Hr3 H2) as H3.
  destruct (Hrd w3 (proj1 H3)) as (h3 & Eh3 & Hws3). exists (p_wrt_clk h3).
  split; [by apply chs_get|]. intros w4 Hr4. apply safe_load; [apply _|]. intros w5 Hr5.
  assert (is_Some (w_ws w5 !! p_wrt_clk h3)) as [s Es].
  { eapply (rtc_stable R (λ w, is_Some (w_ws w !! p_wrt_clk h3))); [|by trans w4; [exact Hr4|exact Hr5]|done].
    intros ?? Hs []. auto. }
  exists (wrt_clk s). split; [by apply ws_get|]. intros w6 Hr6.
  apply (Hst w3); [|done]. by trans w4; [|trans w5].
Qed.

(** A change to the holder's own entry that keeps where its clock is found. *)
Lemma push_pre_own p w f :
  (∀ h, p_wrt_clk (f h) = p_wrt_clk h) → push_pre o chs p w →
  push_pre o chs p (w <| w_chs ::= alter f chs |>).
Proof.
  intros Hf (Hh & [hc Hc] & Hrd). split_and!; [done|cbn; by rewrite lookup_alter_eq Hc|].
  destruct Hrd as [->|(h & Eh & Hw)]; [by left|right]. cbn.
  destruct (decide (chs = vobj_to_chs p)) as [->|Hne].
  - rewrite lookup_alter_eq Eh. exists (f h). by rewrite Hf.
  - rewrite lookup_alter_ne //. by exists h.
Qed.

Definition linked (p : Z) (w : world) : Prop := push_pre o chs p w ∧ link chs w = Some p.

Lemma linked_stable p w w' : rtc R w w' → linked p w → linked p w'.
Proof.
  intros Hr [H1 H2]. split; [by eapply push_pre_stable|]. by rewrite (link_stable _ _ _ _ Hr).
Qed.

Lemma safe_link p w :
  push_pre o chs p w →
  safe R G False (store (chs_hdr p_copy chs) p) (λ _, linked p) w.
Proof.
  intros Hpre. apply safe_store. intros w1 Hr. pose proof (push_pre_stable _ _ _ _ _ Hr Hpre) as H1.
  pose proof H1 as (_ & [h Hh] & _). split_and!.
  - unfold lget. cbn. rewrite Hh. by eexists.
  - by left.
  - intros w2 Hr2. eapply linked_stable; [exact Hr2|]. split; [by apply push_pre_own|].
    unfold link, lset. cbn. by rewrite lookup_alter_eq Hh.
Qed.

Lemma safe_link_clk p v w :
  linked p w → safe R G False (store (chs_loc wrt_clk_next chs) v) (λ _, linked p) w.
Proof.
  intros Hl. apply safe_store. intros w1 Hr. pose proof (linked_stable _ _ _ Hr Hl) as [H1 H2].
  pose proof H1 as (_ & [h Hh] & _). split_and!.
  - unfold lget. cbn. rewrite Hh. by eexists.
  - by left.
  - intros w2 Hr2. eapply linked_stable; [exact Hr2|]. split; [by apply push_pre_own|].
    rewrite -H2. unfold link, lset. cbn. by rewrite lookup_alter_eq Hh.
Qed.

(** The compare-and-swap: it fails only if the version was detached. *)
Lemma safe_publish p w :
  linked p w →
  safe R G False (smp_cas_v (ahs_hdr p_copy o) p (chs_obj chs))
    (λ r w', if r.1 then link chs w' = Some p
             else r.2 = NULL ∧ p ≠ NULL ∧ push_pre o chs NULL w') w.
Proof.
  intros Hl. apply safe_cas_v; [apply _|]. intros w1 Hr. pose proof (linked_stable _ _ _ Hr Hl) as [H1 H2].
  pose proof H1 as (Hh & Hc & _).
  assert (∃ v, head_word o w1 = Some v ∧ (v = p ∨ v = NULL)) as (v & Hv & Hor) by (destruct Hh; eauto).
  exists v. split; [done|]. split.
  - intros ->. split.
    + right. split_and!; [|by rewrite H2 Hv|done].
      unfold head_word in *. unfold lset. cbn. rewrite lookup_alter_eq. by destruct (w_ahs w1 !! o).
    + intros w2 Hr2. cbn. by rewrite (link_stable _ _ _ _ Hr2).
  - intros Hne w2 Hr2. destruct Hor as [?|Hor]; [done|]. subst v. cbn. split_and!; [done|by intros ->|].
    eapply push_pre_stable; [exact Hr2|]. split_and!; [by left|done|by left].
Qed.
End push.

(** C16: while its caller holds the object's lock, the retry loop of a
    commit ends after at most two rounds, whatever reclamation does to the
    object in between; the version it replaces is always the one the new copy
    is linked to, so that no version is lost from the chain. *)
Theorem push_version_two_rounds o chs p w :
  push_pre o chs p w →
  safe (push_rely o chs) (push_guar o chs) False (push_version 2 o chs p)
    (λ _ w', link chs w' = Some p ∨ link chs w' = Some NULL) w.
Proof.
  intros Hpre.
  assert (∀ n p w (Q : () → world → Prop), push_pre o chs p w →
    (∀ w1 w2, rtc (push_rely o chs) w1 w2 → link chs w1 = Some p → Q () w2) →
    (p ≠ NULL → ∀ w1, push_pre o chs NULL w1 →
       safe (push_rely o chs) (push_guar o chs) False (push_version n o chs NULL) Q w1) →
    safe (push_rely o chs) (push_guar o chs) False (push_version (S n) o chs p) Q w) as Hround.
  { clear. intros n p w Q Hpre Hok Hretry. unfold push_version. apply safe_loop_S.
    apply safe_bind. eapply safe_mono; [|by apply safe_link]. cbv beta. intros [] w1 Hl1.
    apply safe_bind. eapply (safe_mono _ _ _ _ (λ _, linked o chs p)).
    2:{ case_decide; [by apply safe_link_clk|]. apply safe_bind.
        eapply safe_mono; [|apply safe_read_clk; [done|exact (proj1 Hl1)]].
        cbv beta. intros k w2 [H2 E2]. apply safe_link_clk. split; [done|]. rewrite E2. apply Hl1. }
    cbv beta. intros [] w2 Hl2. apply safe_bind. eapply safe_mono; [|by apply safe_publish].
    intros [ok p2] w3 Hx. destruct ok; cbn [fst snd] in Hx; apply safe_ret; intros w4 Hr4.
    - intros w5 Hr5. eapply Hok; [|exact Hx]. by trans w4.
    - destruct Hx as (-> & Hne & H3). apply Hretry; [done|]. by eapply push_pre_stable. }
  apply Hround; [done| |].
  - intros w1 w2 Hr E. left. by rewrite (link_stable _ _ _ _ Hr).
  - intros _ w1 H1. apply Hround; [done| |done].
    intros w2 w3 Hr E. right. by rewrite (link_stable _ _ _ _ Hr).
Qed.

(** ** Walking the thread list *)

Section walk.
Context (R G : world → world → Prop) (HG : Reflexive G).
Context (m : gmap Z mvrlu_list) (tl : Z) (ts : list Z).
Context (Hring : dll m (tl_list tl) (list_of <$> ts)).
Context (Hm : ∀ w w', R w w' → w_node w' = w_node w).

Lemma ring_stable w w' : rtc R w w' → w_node w = m → w_node w' = m.
Proof. intros Hr. apply (rtc_stable R (λ w, w_node w = m)); [|done]. intros s s' <- HR. by apply Hm. Qed.

Lemma safe_load_next a n (P : world → Prop) w :
  nxt m a = Some n → w_node w = m → P w → (∀ w w', rtc R w w' → P w → P w') →
  safe R G True (load (node_loc next a)) (λ v w', v = n ∧ w_node w' = m ∧ P w') w.
Proof.
  intros Hn Hw HP HPs. apply safe_load; [done|]. intros w1 Hr. exists n.
  pose proof (ring_stable _ _ Hr Hw) as H1. split; [by rewrite -H1 in Hn|].
  intros w2 Hr2. split_and!; [done|by eapply ring_stable|]. eapply HPs; [exact Hr2|]. by eapply HPs.
Qed.

(** The body handles the threads in list order: [J done] holds when those in
    [done] have been handled, [X] when the walk is left early. *)
Lemma safe_for_each {A} fuel (body : Z → kprog (option A)) (J : list Z → world → Prop)
    (X : A → world → Prop) w :
  (∀ dn w w', rtc R w w' → J dn w → J dn w') →
  (∀ a w w', rtc R w w' → X a w → X a w') →
  (∀ dn w, J dn w → w_node w = m) →
  (∀ dn t rest w, ts = dn ++ t :: rest → J dn w →
     safe R G True (body t) (λ r w', match r with None => J (dn ++ [t]) w' | Some a => X a w' end) w) →
  J [] w →
  safe R G True (thread_list_for_each_safe fuel tl body)
    (λ r w', match r with None => J ts w' | Some a => X a w' end) w.
Proof.
  intros HJ HX Hnode Hbody HJ0. set (h := tl_list tl) in *.
  assert (h ∉ list_of <$> ts) as Hh by (by destruct Hring as [[? _]%NoDup_cons _]).
  set (first := λ l : list Z, default h (head (list_of <$> l))).
  assert (∀ l1 l2, ts = l1 ++ l2 → ∃ n, nxt m (first l2) = Some n) as Hsucc.
  { intros l1 l2 E. destruct (dll_node _ _ _ (first l2) Hring) as [[n Hn] _]; [|by exists n].
    subst ts. unfold first. destruct l2; cbn; set_solver. }
  assert (∀ l1 t l2, ts = l1 ++ t :: l2 → nxt m (list_of t) = Some (first l2)) as Hnext.
  { intros l1 t l2 ->. pose proof Hring as Hd. rewrite fmap_app fmap_cons in Hd.
    apply dll_rotate in Hd. rewrite (dll_next _ _ _ Hd). unfold first. by destruct l2. }
  unfold thread_list_for_each_safe. fold h.
  apply safe_bind. eapply safe_mono.
  2:{ apply (safe_load_next h (first ts) (J [])); [|by eapply Hnode|done|by eauto].
      rewrite (dll_next _ _ _ Hring). done. }
  cbv beta. intros pos w1 (-> & Hw1 & HJ1). destruct (Hsucc [] ts eq_refl) as [n Hn].
  apply safe_bind. eapply safe_mono; [|apply (safe_load_next (first ts) n (J [])); eauto].
  cbv beta. intros n' w2 (-> & Hw2 & HJ2).
  assert (∀ fuel l2 l1 n w, ts = l1 ++ l2 → nxt m (first l2) = Some n → J l1 w →
    safe R G True (loop fuel (λ '(pos, n),
      if decide (pos = h) then mret (inr None) else
      r ← body (list_to_thread pos);
      match r with
      | Some a => mret (inr (Some a))
      | None => n' ← load (node_loc next n); mret (inl (n, n'))
      end) (first l2, n)) (λ r w', match r with None => J ts w' | Some a => X a w' end) w) as Hloop.
  2:{ by apply (Hloop fuel ts []). }
  clear w w1 w2 n fuel HJ0 Hw1 HJ1 Hn Hw2 HJ2. induction fuel as [|fuel IH]; intros l2 l1 n w El Hn HJw.
  { by intros w1 _. }
  apply safe_loop_S. destruct l2 as [|t l2].
  - unfold first at 1. cbn [head fmap list_fmap default from_option]. rewrite decide_True //.
    apply safe_ret. intros w1 Hr1 w2 Hr2. rewrite app_nil_r in El. subst l1. eauto.
  - unfold first at 1. cbn [head fmap list_fmap default from_option].
    rewrite decide_False; [intros E; apply Hh; rewrite -E El; set_solver|].
    rewrite list_to_thread_of. apply safe_bind. eapply safe_mono; [|by eapply Hbody].
    cbv beta. intros [a|] w1 H1.
    + apply safe_ret. intros w2 Hr2 w3 Hr3. eauto.
    + assert (n = first l2) as ->.
      { unfold first in Hn at 1. cbn in Hn. rewrite (Hnext l1 t l2 El) in Hn. by injection Hn. }
      assert (ts = (l1 ++ [t]) ++ l2) as El' by (by rewrite -app_assoc).
      destruct (Hsucc _ _ El') as [n' Hn'].
      apply safe_bind. eapply safe_mono; [|apply (safe_load_next (first l2) n' (J (l1 ++ [t]))); eauto].
      cbv beta. intros v w2 (-> & Hw2 & HJ2). apply safe_ret. intros w3 Hr3. eapply IH; eauto.
Qed.
End walk.

(** ** Grace periods *)

(** What readers and writers do while the set of registered threads stays the
    same: they enter and leave critical sections, each time counting up
    [run_cnt] and with ever later clocks, and may ask for the list. *)
Record reader_rely (w w' : world) : Prop := ReaderRely {
  rr_node : w_node w' = w_node w;
  rr_list : is_Some (w_tl w !! g_live_threads) → is_Some (w_tl w' !! g_live_threads);
  rr_thread : ∀ t th, w_thr w !! t = Some th →
    ∃ th', w_thr w' !! t = Some th' ∧ run_cnt th ≤ run_cnt th' ∧
           local_clk th ≤ local_clk th' ∧ qp_info th' = qp_info th;
}.

Definition any (w w' : world) : Prop := True.
#[export] Instance any_refl : Reflexive any.
Proof. done. Qed.

(** The sections counted by [r] have ended, or are younger than [q]. *)
Definition passed (r : Z → Z) (q t : Z) (w : world) : Prop :=
  ∃ th, w_thr w !! t = Some th ∧
    (Z.odd (r t) = true → r t < run_cnt th ∨ gte_clock (local_clk th) q = true).

(** What [qp_init] leaves in a thread, and [qp_wait] keeps. *)
Definition sampled (r : Z → Z) (q t : Z) (w : world) : Prop :=
  ∃ th, w_thr w !! t = Some th ∧
    r t ≤ qp_run_cnt (qp_info th) ≤ run_cnt th ∧
    (need_wait (qp_info th) = 0 → Z.odd (r t) = true →
     r t < run_cnt th ∨ gte_clock (local_clk th) q = true).

Lemma gte_clock_mono c c' q : c ≤ c' → gte_clock c q = true → gte_clock c' q = true.
Proof. unfold gte_clock, ordo_gt_clock. rewrite !Z.ltb_lt. lia. Qed.

Lemma passed_stable r q t w w' : rtc reader_rely w w' → passed r q t w → passed r q t w'.
Proof.
  intros Hr. apply (rtc_stable reader_rely (passed r q t)); [|done]. clear.
  intros w w' (th & Ht & Hp) [_ _ Hth]. destruct (Hth _ _ Ht) as (th' & Ht' & Hr & Hc & _).
  exists th'. split; [done|]. intros Ho. destruct (Hp Ho); [left; lia|right]. by eapply gte_clock_mono.
Qed.

Lemma sampled_stable r q t w w' : rtc reader_rely w w' → sampled r q t w → sampled r q t w'.
Proof.
  intros Hr. apply (rtc_stable reader_rely (sampled r q t)); [|done]. clear.
  intros w w' (th & Ht & Hb & Hp) [_ _ Hth]. destruct (Hth _ _ Ht) as (th' & Ht' & Hr & Hc & E).
  exists th'. rewrite E. split_and!; [done|lia|lia|]. intros Hn Ho.
  destruct (Hp Hn Ho); [left; lia|right]. by eapply gte_clock_mono.
Qed.

(** The waiter flag, the lock and its release leave alone whatever does not
    depend on them. *)
Section list_lock.
Context (P : world → Prop).
Context (Hst : ∀ w w', rtc reader_rely w w' → P w → P w').
Context (Hmap : ∀ w, P w → is_Some (w_tl w !! g_live_threads)).
Context (Htl : ∀ w f, P w → P (w <| w_tl ::= alter f g_live_threads |>)).
Local Notation safely := (safe reader_rely any True).

Lemma safe_store_tl {V} (get : mvrlu_thread_list → V) `{!Setter get} v w :
  P w → safely (store (tl_loc get g_live_threads) v) (λ _, P) w.
Proof.
  intros Hw. apply safe_store. intros w1 Hr. pose proof (Hst _ _ Hr Hw) as H1.
  destruct (Hmap _ H1) as [t Ht]. split_and!; [|done|].
  - unfold lget. cbn. rewrite Ht. by eexists.
  - intros w2 Hr2. eapply Hst; [exact Hr2|]. by apply Htl.
Qed.

Lemma safe_load_wait w : P w → safely (load (tl_loc thread_wait g_live_threads)) (λ _, P) w.
Proof.
  intros Hw. apply safe_load; [apply _|]. intros w1 Hr. pose proof (Hst _ _ Hr Hw) as H1.
  destruct (Hmap _ H1) as [t Ht]. exists (thread_wait t). split; [unfold lget; cbn; by rewrite Ht|].
  intros w2 Hr2. by eapply Hst.
Qed.

Lemma safe_unlock w : P w → safely (thread_list_unlock g_live_threads) (λ _, P) w.
Proof.
  intros Hw. unfold thread_list_unlock, smp_atomic_store, port_spin_unlock. apply safe_bind.
  eapply safe_mono; [|by apply safe_load_wait]. cbv beta. intros x w1 H1. apply safe_bind. unfold when.
  destruct (truth x).
  - eapply safe_mono; [|by apply safe_store_tl]. cbv beta. intros [] w2 H2. by apply safe_store_tl.
  - apply safe_ret. intros w2 Hr2. apply safe_store_tl. by eapply Hst.
Qed.

Lemma safe_lock w : P w → safely (thread_list_lock g_live_threads) (λ _, P) w.
Proof.
  intros Hw. apply safe_act. intros w1 Hr. pose proof (Hst _ _ Hr Hw) as H1.
  destruct (Hmap _ H1) as [t Ht]. rewrite Ht. split; [by case_match|]. intros [] w2.
  case_match; [done|]. intros [= <-]. split; [done|]. intros w3 Hr3. eapply Hst; [exact Hr3|]. by apply Htl.
Qed.
End list_lock.

Section grace.
Context (m : gmap Z mvrlu_list) (ts : list Z) (r : Z → Z) (q : Z).
Local Notation R := reader_rely.
Local Notation safely := (safe reader_rely any True).

(** The list is mapped and unchanged. *)
Definition frozen (w : world) : Prop :=
  w_node w = m ∧ is_Some (w_tl w !! g_live_threads).

Lemma frozen_stable w w' : rtc R w w' → frozen w → frozen w'.
Proof.
  intros Hr. apply (rtc_stable R frozen); [|done]. clear. intros w w' [H1 H2] [E1 E2 _].
  split; [by rewrite E1|by apply E2].
Qed.

Definition all_sampled (w : world) : Prop := frozen w ∧ ∀ u, u ∈ ts → sampled r q u w.
Lemma all_sampled_stable w w' : rtc R w w' → all_sampled w → all_sampled w'.
Proof. intros Hr [H1 H2]. split; [by eapply frozen_stable|]. eauto using sampled_stable. Qed.

(** An update of the bookkeeping of one thread that keeps [sampled]. *)
Lemma all_sampled_thr t w f :
  all_sampled w →
  (∀ th, w_thr w !! t = Some th → run_cnt (f th) = run_cnt th ∧ local_clk (f th) = local_clk th) →
  (t ∈ ts → sampled r q t (w <| w_thr ::= alter f t |>)) →
  all_sampled (w <| w_thr ::= alter f t |>).
Proof.
  intros [H1 H2] Hf Ht. split; [done|]. intros u Hu. destruct (decide (t = u)) as [<-|Hne]; [by apply Ht|].
  destruct (H2 u Hu) as (th & Hth & Hr). exists th. split; [|done]. cbn. by rewrite lookup_alter_ne.
Qed.

Lemma passed_thr t u w f :
  (∀ th, run_cnt (f th) = run_cnt th ∧ local_clk (f th) = local_clk th) →
  passed r q u w → passed r q u (w <| w_thr ::= alter f t |>).
Proof.
  intros Hf (th & Hth & Hp). destruct (decide (t = u)) as [<-|Hne].
  - exists (f th). cbn. rewrite lookup_alter_eq Hth. destruct (Hf th) as [-> ->]. done.
  - exists th. cbn. by rewrite lookup_alter_ne.
Qed.

Definition waited (dn : list Z) (w : world) : Prop :=
  all_sampled w ∧ ∀ u, u ∈ dn → passed r q u w.
Lemma waited_stable dn w w' : rtc R w w' → waited dn w → waited dn w'.
Proof. intros Hr [H1 H2]. split; [by eapply all_sampled_stable|]. eauto using passed_stable. Qed.

Lemma waited_thread dn t w : t ∈ ts → waited dn w → ∃ th, w_thr w !! t = Some th.
Proof. intros Ht [[_ H] _]. destruct (H t Ht) as (th & ? & _). by exists th. Qed.

Lemma waited_mapped dn w : waited dn w → is_Some (w_tl w !! g_live_threads).
Proof. by intros [[[_ ?] _] _]. Qed.
Lemma waited_tl dn w f : waited dn w → waited dn (w <| w_tl ::= alter f g_live_threads |>).
Proof.
  intros [[[H1 [t Ht]] H2] H3]. split; [|done]. split; [|done]. split; [done|].
  cbn. rewrite lookup_alter_eq Ht. by eexists.
Qed.
Lemma waited_nil w : all_sampled w → waited [] w.
Proof. intros H. split; [done|set_solver]. Qed.

(** Reading a member of a registered thread. *)
Lemma safe_load_thr {V} dn t (l : loc V) (get : mvrlu_thread_struct → V) w (Q : V → world → Prop) :
  (∀ w th, w_thr w !! t = Some th → lget l w = Some (get th)) → t ∈ ts →
  waited dn w →
  (∀ w1 th, rtc R w w1 → w_thr w1 !! t = Some th → waited dn w1 →
     ∀ w2, rtc R w1 w2 → waited dn w2 → Q (get th) w2) →
  safely (load l) Q w.
Proof.
  intros Hg Ht Hw HQ. apply safe_load; [apply _|]. intros w1 Hr. pose proof (waited_stable _ _ _ Hr Hw) as H1.
  destruct (waited_thread _ _ _ Ht H1) as [th Hth]. exists (get th). split; [by apply Hg|].
  intros w2 Hr2. eapply HQ; eauto using waited_stable.
Qed.

Lemma thread_mono w w' t th :
  rtc R w w' → w_thr w !! t = Some th →
  ∃ th', w_thr w' !! t = Some th' ∧ run_cnt th ≤ run_cnt th'.
Proof.
  intros Hr. revert th. induction Hr as [w|w1 w2 w3 [_ _ H] _ IH]; intros th Hth; [eauto with lia|].
  destruct (H _ _ Hth) as (th2 & Hth2 & Hle & _). destruct (IH _ Hth2) as (th3 & ? & ?).
  exists th3. split; [done|lia].
Qed.

(** Clearing [need_wait] of a thread that has passed. *)
Lemma safe_clear dn t w :
  t ∈ ts → waited dn w → passed r q t w →
  safely (store (qpi_loc need_wait t) 0) (λ _, waited (dn ++ [t])) w.
Proof.
  intros Ht Hw Hp. apply safe_store. intros w1 Hr.
  pose proof (waited_stable _ _ _ Hr Hw) as [H1 H2]. pose proof (passed_stable _ _ _ _ _ Hr Hp) as H3.
  destruct (waited_thread dn t w1 Ht (conj H1 H2)) as [th Hth]. split_and!; [|done|].
  - unfold lget. cbn. rewrite Hth. by eexists.
  - intros w2 Hr2. eapply waited_stable; [exact Hr2|]. unfold lset. cbn. split.
    + apply all_sampled_thr; [done|done|]. intros _. destruct H1 as [_ H1].
      destruct (H1 t Ht) as (th1 & Hth1 & Hb & _). eexists. cbn. rewrite lookup_alter_eq Hth1.
      split; [done|]. cbn. split; [done|]. intros _. destruct H3 as (th3 & Hth3 & H3).
      rewrite Hth1 in Hth3. injection Hth3 as <-. exact H3.
    + intros u [Hu|Hu]%elem_of_app; (apply passed_thr; [done|]); [by apply H2|].
      by apply list_elem_of_singleton in Hu as ->.
Qed.

Lemma safe_qp_wait_one fuel dn t w :
  t ∈ ts → waited dn w →
  safely (qp_wait_one fuel q t)
    (λ x w', match x with None => waited (dn ++ [t]) w' | Some _ => all_sampled w' end) w.
Proof.
  intros Ht Hw. unfold qp_wait_one. apply safe_bind.
  eapply (safe_load_thr dn t _ (λ th, need_wait (qp_info th))); [by intros; apply qpi_get|done|done|].
  intros w1 th1 _ Hth1 H1 w2 Hr2 H2. unfold truth. rewrite negb_involutive.
  destruct (Z.eqb_spec (need_wait (qp_info th1)) 0) as [En|En].
  { apply safe_ret. intros w3 Hr3. assert (passed r q t w1) as Hp.
    { destruct H1 as [[_ Hs] _]. destruct (Hs t Ht) as (th & Hth & _ & Hn).
      rewrite Hth1 in Hth. injection Hth as <-. exists th1. split; [done|]. by apply Hn. }
    eapply waited_stable; [exact Hr3|]. destruct H2 as [H2a H2b]. split; [done|].
    intros u [Hu|Hu]%elem_of_app; [by apply H2b|]. apply list_elem_of_singleton in Hu as ->.
    by eapply passed_stable. }
  clear w1 th1 Hth1 H1 Hr2 En w Hw. revert w2 H2. induction fuel as [|fuel IH]; intros w H; [by intros ? _|].
  apply safe_loop_S. apply safe_bind.
  eapply (safe_load_thr dn t _ (λ th, qp_run_cnt (qp_info th))); [by intros; apply qpi_get|done|done|].
  intros w1 th1 _ Hth1 H1 w2 Hr2 H2.
  assert (r t ≤ qp_run_cnt (qp_info th1) ≤ run_cnt th1) as Hb.
  { destruct H1 as [[_ Hs] _]. destruct (Hs t Ht) as (th & Hth & Hb & _).
    rewrite Hth1 in Hth. by injection Hth as <-. }
  apply safe_bind. eapply (safe_load_thr dn t _ run_cnt); [by intros; apply thr_get|done|done|].
  intros w3 th3 Hr3 Hth3 H3 w4 Hr4 H4.
  assert (run_cnt th1 ≤ run_cnt th3) as Hmono.
  { destruct (thread_mono w1 w3 t th1) as (th & Hth & ?); [by trans w2|done|]. congruence. }
  apply safe_bind. apply (safe_mono _ _ _ _ (λ b w', waited dn w' ∧ (b = true → passed r q t w'))).
  2:{ case_decide as Ene.
      - apply safe_ret. intros w5 Hr5. split; [by eapply waited_stable|]. intros _.
        eapply passed_stable; [by trans w4|]. exists th3. split; [done|]. intros _. left. lia.
      - apply safe_bind. eapply (safe_load_thr dn t _ local_clk); [by intros; apply thr_get|done|done|].
        intros w5 th5 _ Hth5 H5 w6 Hr6 H6. apply safe_ret. intros w7 Hr7.
        split; [by eapply waited_stable|]. intros Hg. eapply passed_stable; [by trans w6|].
        exists th5. split; [done|]. intros _. by right. }
  intros b w5 [H5 Hp]. destruct b.
  - apply safe_bind. eapply safe_mono; [|by apply safe_clear; [| |by apply Hp]]. cbv beta.
    intros [] w6 H6. apply safe_ret. intros w7 Hr7 w8 Hr8. eapply waited_stable; [|exact H6]. by trans w7.
  - apply safe_bind. unfold thread_list_has_waiter. apply safe_bind.
    eapply safe_mono; [|apply (safe_load_wait (waited dn)); eauto using waited_stable, waited_mapped].
    cbv beta. intros x w6 H6. apply safe_ret.
    intros w7 Hr7. pose proof (waited_stable _ _ _ Hr7 H6) as H7. destruct (truth x).
    + apply safe_bind. eapply safe_mono;
        [|apply (safe_unlock (waited dn)); eauto using waited_stable, waited_mapped, waited_tl].
      cbv beta. intros [] w8 [H8 _]. apply safe_ret. intros w9 Hr9 w10 Hr10. eapply all_sampled_stable; [|exact H8]. by trans w9.
    + apply safe_ret. intros w8 Hr8. apply IH. by eapply waited_stable.
Qed.

Context (Hring : dll m (tl_list g_live_threads) (list_of <$> ts)).

Lemma safe_qp_wait fuel w :
  all_sampled w → safely (qp_wait fuel q) (λ _ w', ∀ t, t ∈ ts → passed r q t w') w.
Proof.
  intros Hw. unfold qp_wait. revert Hw. generalize fuel at 2 3 as fuel'. intros fuel'. revert w.
  induction fuel as [|fuel IH]; intros w Hw; [by intros ? _|].
  apply safe_loop_S. apply safe_bind.
  eapply safe_mono;
    [|apply (safe_lock (waited [])); eauto using waited_stable, waited_mapped, waited_tl, waited_nil].
  cbv beta. intros [] w1 H1. apply safe_bind. eapply safe_mono.
  2:{ apply (safe_for_each R any any_refl m g_live_threads ts Hring) with (J := waited) (X := λ _, all_sampled).
      - by intros ?? [].
      - intros. by eapply waited_stable.
      - intros. by eapply all_sampled_stable.
      - by intros dn w2 [[[? _] _] _].
      - intros dn t rest w2 E H2. apply safe_qp_wait_one; [rewrite E; set_solver|done].
      - done. }
  cbv beta. intros [[]|] w2 H2.
  - apply safe_ret. intros w3 Hr3. apply IH. by eapply all_sampled_stable.
  - apply safe_bind. eapply safe_mono;
      [|apply (safe_unlock (waited ts)); eauto using waited_stable, waited_mapped, waited_tl].
    cbv beta. intros [] w3 H3. apply safe_ret. intros w4 Hr4 w5 Hr5.
    by destruct (waited_stable ts w3 w5) as [_ ?]; [trans w4|..].
Qed.

(** *** Sampling the counters *)

Definition began (dn : list Z) (w : world) : Prop :=
  frozen w ∧ (∀ u, u ∈ ts → ∃ th, w_thr w !! u = Some th ∧ r u ≤ run_cnt th) ∧
  ∀ u, u ∈ dn → sampled r q u w.

Lemma began_stable dn w w' : rtc R w w' → began dn w → began dn w'.
Proof.
  intros Hr (H1 & H2 & H3). split_and!; [by eapply frozen_stable| |eauto using sampled_stable].
  intros u Hu. destruct (H2 u Hu) as (th & Hth & ?). destruct (thread_mono _ _ _ _ Hr Hth) as (th' & ? & ?).
  exists th'. split; [done|lia].
Qed.
Lemma began_mapped dn w : began dn w → is_Some (w_tl w !! g_live_threads).
Proof. by intros [[_ ?] _]. Qed.
Lemma began_tl dn w f : began dn w → began dn (w <| w_tl ::= alter f g_live_threads |>).
Proof.
  intros ([H1 [t Ht]] & H2 & H3). split_and!; [|done|done]. split; [done|].
  cbn. rewrite lookup_alter_eq Ht. by eexists.
Qed.

(** Thread [t] has [v] as its sample. *)
Definition sample (v t : Z) (w : world) : Prop :=
  ∃ th, w_thr w !! t = Some th ∧ qp_run_cnt (qp_info th) = v ∧ r t ≤ v ≤ run_cnt th.

Lemma sample_stable v t w w' : rtc R w w' → sample v t w → sample v t w'.
Proof.
  intros Hr. apply (rtc_stable R (sample v t)); [|done]. clear.
  intros w w' (th & Ht & Ev & Hb) [_ _ Hth]. destruct (Hth _ _ Ht) as (th' & Ht' & Hr & Hc & E).
  exists th'. rewrite E. split_and!; [done|done|lia|lia].
Qed.

(** Writing the bookkeeping of a thread that has not been sampled yet. *)
Lemma began_qpi {V} (get : mvrlu_qp_info → V) `{!Setter get} dn t v w :
  t ∉ dn → began dn w → began dn (lset (qpi_loc get t) v w).
Proof.
  intros Hn (H1 & H2 & H3). unfold lset. cbn. split_and!; [done| |].
  - intros u Hu. destruct (H2 u Hu) as (th & Hth & Hle). cbn. destruct (decide (t = u)) as [<-|].
    + rewrite lookup_alter_eq Hth. by eexists.
    + rewrite lookup_alter_ne //. by exists th.
  - intros u Hu. destruct (H3 u Hu) as (th & Hth & Hb). exists th. split; [|done]. cbn.
    rewrite lookup_alter_ne //. by intros ->.
Qed.

Lemma safe_store_qpi {V} (get : mvrlu_qp_info → V) `{!Setter get} v (P : world → Prop) (Q : () → world → Prop) t w :
  (∀ w w', rtc R w w' → P w → P w') → (∀ w, P w → is_Some (w_thr w !! t)) →
  P w → (∀ w1 w2, P w1 → rtc R (lset (qpi_loc get t) v w1) w2 → Q () w2) →
  safely (store (qpi_loc get t) v) Q w.
Proof.
  intros Hst Hm Hw HQ. apply safe_store. intros w1 Hr. pose proof (Hst _ _ Hr Hw) as H1.
  destruct (Hm _ H1) as [th Hth]. split_and!; [|done|eauto]. unfold lget. cbn. rewrite Hth. by eexists.
Qed.

Lemma safe_qp_init_one dn t w :
  t ∈ ts → t ∉ dn → began dn w →
  safely (qp_init_one t) (λ x w', match x with None => began (dn ++ [t]) w' | Some _ => False end) w.
Proof.
  intros Ht Hn Hw. unfold qp_init_one.
  assert (∀ w, began dn w → is_Some (w_thr w !! t)) as Hmap.
  { intros w0 (_ & H & _). destruct (H t Ht) as (th & -> & _). by eexists. }
  apply safe_bind, safe_load; [apply _|]. intros w1 Hr1. pose proof (began_stable _ _ _ Hr1 Hw) as H1.
  pose proof H1 as (_ & Hrun & _). destruct (Hrun t Ht) as (th1 & Hth1 & Hle). clear Hrun.
  exists (run_cnt th1). split; [by apply thr_get|]. set (v := run_cnt th1) in *. intros w2 Hr2.
  apply safe_bind. apply (safe_store_qpi qp_run_cnt v (λ w, began dn w ∧ ∃ th, w_thr w !! t = Some th ∧ v ≤ run_cnt th)).
  { intros w3 w4 Hr [H3 (th & Hth & Hv)]. split; [by eapply began_stable|].
    destruct (thread_mono _ _ _ _ Hr Hth) as (th' & ? & ?). exists th'. split; [done|lia]. }
  { intros w3 [H3 _]. by apply Hmap. }
  { split; [by eapply began_stable|]. by destruct (thread_mono _ _ _ _ Hr2 Hth1) as (th' & ? & ?); exists th'. }
  intros w3 w4 [H3 (th3 & Hth3 & Hv3)] Hr4.
  assert (began dn w4 ∧ sample v t w4) as H4.
  { split; [eapply began_stable; [exact Hr4|by apply began_qpi]|].
    eapply sample_stable; [exact Hr4|]. eexists. unfold lset. cbn. rewrite lookup_alter_eq Hth3. done. }
  clear w3 th3 Hth3 Hv3 H3 Hr4.
  assert (∀ w w', rtc R w w' → began dn w ∧ sample v t w → began dn w' ∧ sample v t w') as Hst
    by (intros w3 w3' Hr [? ?]; eauto using began_stable, sample_stable).
  apply safe_bind, safe_load; [apply _|]. intros w5 Hr5. pose proof (Hst _ _ Hr5 H4) as [H5 H5'].
  pose proof H5' as (th5 & Hth5 & Ev & Hb). exists v. split; [rewrite -Ev; by apply qpi_get|].
  intros w6 Hr6. apply safe_bind.
  apply (safe_store_qpi need_wait _ (λ w, began dn w ∧ sample v t w)); [done| |eauto|].
  { intros w7 [H7 _]. by apply Hmap. }
  intros w7 w8 [H7 (th7 & Hth7 & Ev7 & Hb7)] Hr8. apply safe_ret. intros w9 Hr9.
  eapply began_stable; [by trans w8|]. pose proof (began_qpi need_wait dn t (Z.land v 1) w7 Hn H7) as (B1 & B2 & B3).
  split_and!; [done|done|]. intros u [Hu|Hu]%elem_of_app; [by apply B3|].
  apply list_elem_of_singleton in Hu as ->. eexists. unfold lset. cbn. rewrite lookup_alter_eq Hth7.
  split; [done|]. cbn. rewrite Ev7. split; [done|]. intros Hz Ho. left.
  change 1 with (Z.ones 1) in Hz. rewrite Z.land_ones // in Hz. change (2 ^ 1) with 2 in Hz.
  assert (r t ≠ v); [|lia]. intros E. rewrite E Zodd_mod Hz in Ho. done.
Qed.

Lemma safe_qp_init fuel w : began [] w → safely (qp_init fuel) (λ _, all_sampled) w.
Proof.
  intros Hw. unfold qp_init. apply safe_bind. eapply safe_mono;
    [|apply (safe_lock (began [])); eauto using began_stable, began_mapped, began_tl].
  cbv beta. intros [] w1 H1. apply safe_bind. eapply safe_mono.
  2:{ apply (safe_for_each R any any_refl m g_live_threads ts Hring) with (J := began) (X := λ _ _, False).
      - by intros ?? [].
      - intros. by eapply began_stable.
      - done.
      - by intros dn w2 [[? _] _].
      - intros dn t rest w2 E H2. apply safe_qp_init_one; [rewrite E; set_solver| |done].
        destruct Hring as [[_ Hnd]%NoDup_cons _]. rewrite E fmap_app fmap_cons in Hnd.
        apply NoDup_app in Hnd as (_ & Hd & _). intros Hin. apply (Hd (list_of t)); [|set_solver].
        by apply list_elem_of_fmap_2.
      - done. }
  cbv beta. intros [[]|] w2 H2; [done|].
  eapply safe_mono; [|apply (safe_unlock (began ts)); eauto using began_stable, began_mapped, began_tl].
  cbv beta. intros [] w3 (H3 & _ & H3'). by split.
Qed.
End grace.

(** C14: whatever readers and writers do in the meantime, when [qp_init]
    and then [qp_wait] return, every critical section that was open on a
    registered thread at the start has ended, or that thread's clock is past
    the clock [q] of the detection by more than the uncertainty. *)
Theorem grace_period_elapses fuel q ts w :
  tl_inv w g_live_threads ts → (∀ t, t ∈ ts → is_Some (w_thr w !! t)) → sane_clock q →
  safe reader_rely any True (qp_init fuel;; qp_wait fuel q)
    (λ _ w', ∀ t th, t ∈ ts → w_thr w !! t = Some th → Z.odd (run_cnt th) = true →
       ∃ th', w_thr w' !! t = Some th' ∧
         (run_cnt th < run_cnt th' ∨ q + g_ordo_boundary < local_clk th')) w.
Proof.
  intros (tl & Htl & _ & _ & Hring) Hts Hq.
  set (r := λ t, match w_thr w !! t with Some th => run_cnt th | None => 0 end).
  apply safe_bind. eapply safe_mono; [|eapply (safe_qp_init (w_node w) ts r q)]; [|done|].
  - cbv beta. intros [] w1 H1. eapply safe_mono; [|by eapply (safe_qp_wait (w_node w) ts r q)].
    cbv beta. intros [] w2 H2 t th Ht Hth Ho. destruct (H2 t Ht) as (th' & Hth' & Hp).
    exists th'. split; [done|]. unfold r in Hp. rewrite Hth in Hp. destruct (Hp Ho) as [?|Hg]; [by left|].
    right. by apply gt_clock_spec in Hg.
  - split_and!; [split; [done|by rewrite Htl]| |set_solver].
    intros t Ht. destruct (Hts t Ht) as [th Hth]. exists th. split; [done|]. unfold r. by rewrite Hth.
Qed.
