(* ===== verification/Anomalies.v ===== *)
(** * Two anomalies

    A copy is linked into its object's chain before its write set has a clock,
    and the comparison with the place holder wraps around; and a section that
    fails to lock an object can leave a filler entry in its log that its write
    set does not count. *)

From S2P Require Import Prelude World OrdoClock Port Object Cells VersionLog LogLayout LogAppend.
From S2P Require Import Commit Qp Api Snapshot.

(** ** Reading an uncommitted copy *)

(** A reader past the wrapped place holder takes the first version of an
    object whose write set has no clock yet. *)
Lemma visible_uncommitted w local q2 p l :
  ver_clk w p = Some MAX_VERSION → 265 < local → visible w local q2 (p :: l) = Some p.
Proof.
  intros Hk Hl. cbn. rewrite Hk. unfold lte_clock. rewrite lt_clock_max.
  by rewrite (proj2 (Z.ltb_lt _ _) Hl).
Qed.

(** C35: between [ws_move_lock_to_copy] and the store of [wrt_clk] in
    [log_commit], a published copy has the clock [MAX_VERSION], which
    [ordo_lt_clock] wraps around to 265: every reader whose clock is above
    that dereferences the object to the copy that is not committed yet,
    although its snapshot is older than the commit. *)
Theorem deref_sees_uncommitted fuel w self th c es h0 s :
  section_ws w self th c es h0 s → wrt_clk s = MAX_VERSION →
  ∃ w1, run (ws_move_lock_to_copy (S fuel) (log_of self) self) w = Done () w1 ∧
    ∀ chs h a l r rth,
      publishes (w := w) (th := th) (es := es) chs h a → chs_obj chs ≠ NULL → p_act h ≠ NULL →
      __wrt_clk h = MAX_VERSION → p_wrt_clk h = cur_wrt_set (log th) →
      addr_in_log_region w (obj_to_obj_hdr (p_act h)) = false →
      versions (w_chs w) (p_copy (a_obj_hdr a)) l → settled w (cur_wrt_set (log th)) es l →
      w_thr w !! r = Some rth → 265 < local_clk rth → (length l < fuel)%nat →
      run (mvrlu_deref fuel r (p_act h)) w1 = Done (chs_obj chs) (deref_counted r rth true w1).
Proof.
  intros Hs Hclk. destruct (run_ws_move fuel _ _ _ _ _ _ _ Hs) as (w1 & Hr & Hon & _ & Hmv).
  exists w1. split; [done|]. intros chs h a l r rth Hp Hn Hact Hm Hws Hout Hv Hst Hrt Hlc Hf.
  destruct Hp as (Hin & Eh & Et & Hfr & Hsz & Ha). destruct (Hmv _ Hin) as [Hh1 Ha1].
  pose proof Hon as (E1 & Hc1 & _). unfold is_copy, entry_obj in Ha1. rewrite Eh Ha Hfr /= in Hh1, Ha1.
  specialize (Ha1 (bool_decide_eq_true_2 _ Et)).
  assert (moved_act false chs h a = a <| a_obj_hdr ::= λ o, o <| p_copy := chs_obj chs |> |>) as Ema.
  { unfold moved_act. rewrite Et. by repeat case_decide. }
  assert (moved_hdr w false h = h <| c_obj_hdr ::= λ o, o <| p_copy := p_copy (a_obj_hdr a) |> |>
    <| wrt_clk_next := default 0 (ver_clk w (p_copy (a_obj_hdr a))) |>) as Emh.
  { unfold moved_hdr. rewrite Et Ha. by repeat case_decide. }
  rewrite Emh in Hh1. rewrite Ema in Ha1.
  assert (vobj_to_chs (chs_obj chs) = chs) as Ec by (unfold vobj_to_chs, obj_to_chs, chs_obj; lia).
  assert (versions (w_chs w1) (p_copy (a_obj_hdr a)) l) as Hv1.
  { clear -Hv Hst Hc1. induction Hv as [|p hp l Hp Hhp Hv IH]; [constructor|].
    econstructor; [done| |apply IH; by eapply settled_cons].
    destruct (Hst p) as (_ & Hout & _); [set_solver|]. by rewrite Hc1. }
  assert (ver_clk w1 (chs_obj chs) = Some MAX_VERSION) as Hk1.
  { unfold ver_clk. rewrite decide_False // Ec Hh1. unfold clk_of. cbn [__wrt_clk p_wrt_clk field_map]. rewrite Hm Hws E1.
    destruct (decide _) as [_|]; [|done]. cbn. destruct Hs as [[_ Hcur _ _ Hrep] _ _ _]. rewrite Hcur (wr_ws _ _ _ _ _ _ _ _ Hrep). cbn. by rewrite Hclk. }
  rewrite (run_mvrlu_deref fuel w1 r rth (p_act h) (p_act h)
    (a <| a_obj_hdr ::= λ o, o <| p_copy := chs_obj chs |> |>) (chs_obj chs :: l)).
  - by rewrite E1.
  - done.
  - apply run_get_act_obj_actual. by rewrite E1.
  - exact Ha1.
  - cbn. econstructor; [done|by rewrite Ec|]. done.
  - intros p [->|Hp]%elem_of_cons; [by rewrite Hk1|].
    destruct (Hst p Hp) as (Hpn & Hpo & hp & Ehp & Hpw & Hpk). unfold ver_clk.
    rewrite decide_False // Hc1 // Ehp. revert Hpk. unfold clk_of. by rewrite E1.
  - cbn. lia.
  - rewrite visible_uncommitted //. cbn. by rewrite bool_decide_true.
Qed.
