(* ===== verification/Examples.v ===== *)
(** * A machine to run on

    Concrete states for the statements of the other files: the kernel boots
    with a region of log blocks, two threads register, objects are allocated
    and written.  Every state is what the programs of the library make of the
    one before. *)

From S2P Require Import Prelude World OrdoClock Port ThreadList Object Cells VersionLog LogLayout.
From S2P Require Import LogAppend Commit Qp Api Snapshot Locking Reclaim ChainHash Sections Threads Pointers.
From S2P Require Import Concur Interference Anomalies.

(** The state a program leaves. *)
Definition after {A} (p : kprog A) (w : world) : world :=
  match run p w with Done _ w' => w' | _ => w end.

(** The region of log blocks and the blocks of the kernel allocator. *)
Definition log_chunks : Z := 1048576.
Definition self1 : Z := 10000.
Definition self2 : Z := 20000.
Definition obj1 : Z := 30024.
Definition obj2 : Z := 31024.
Definition obj3 : Z := 32024.

Definition bare : world :=
  World ∅ ∅ ∅ ∅ ∅ ∅ ∅ (QpThread 0 0 0) 100 0 [] 0 0 ∅
    ((λ i, 10000 + 1000 * Z.of_nat i) <$> seq 0 30)
    ((λ i, 1000 * Z.of_nat i) <$> seq 0 10)
    [9992; 19992; 29992; 30992; 31992] (λ _, 0).

(** [mvrlu_init] and two threads. *)
Definition booted : world :=
  after (mvrlu_init (Some 7);; thread_handle_new;; thread_handle_new;; mret ())
    (log_allocator log_chunks bare).

(** Two objects of 24 bytes and one of 200. *)
Definition objs : world := after (mvrlu_alloc 24;; mvrlu_alloc 24;; mvrlu_alloc 200;; mret ()) booted.


(** ** A lock that is lost

    The first thread's log is empty and close to the end of its buffer.  It
    enters a section and asks for the large object, whose copy does not fit
    before the end; the second thread takes the object in between. *)

Definition near_end : world :=
  after (mvrlu_reader_lock 5 self1;; mvrlu_reader_lock 5 self2)
    (objs <| w_thr ::= alter (λ th, th <| log ::= λ g, g <| head_cnt := 130752 |> <| tail_cnt := 130752 |> |>) self1 |>).

Definition writer : kprog (option Z * option Z) :=
  r3 ← _mvrlu_try_lock self1 obj3 200;
  r1 ← _mvrlu_try_lock self1 obj1 24;
  mvrlu_reader_unlock 5 self1;;
  mret (r3, r1).
Definition rival : kprog (option Z * option Z) :=
  r3 ← _mvrlu_try_lock self2 obj3 200;
  mret (r3, None).

(** ** Checking by evaluation *)

(** The thread structure in a state. *)
Definition thr (w : world) (self : Z) : mvrlu_thread_struct := default zero_thread (w_thr w !! self).
(** The header of an object, of a log entry, and a write set. *)
Definition ahs (w : world) (obj : Z) : mvrlu_act_hdr_struct :=
  default (ActHdr 0 (ObjHdr 0 0 TYPE_ACTUAL 0)) (w_ahs w !! vobj_to_ahs obj).
Definition chs (w : world) (a : Z) : mvrlu_cpy_hdr_struct := default zero_chs (w_chs w !! a).
Definition wset (w : world) (a : Z) : mvrlu_wrt_set := default (WrtSet 0 0 0 0) (w_ws w !! a).

Lemma map_check {A} (f : Z → A → bool) (m : gmap Z A) :
  forallb (λ '(k, v), f k v) (map_to_list m) = true → ∀ k v, m !! k = Some v → f k v = true.
Proof.
  intros H k v Hk. rewrite forallb_forall in H. apply (H (k, v)).
  by apply list_elem_of_In, elem_of_map_to_list.
Qed.

Ltac ev := vm_compute; reflexivity.
Ltac decided := apply (bool_decide_unpack _); vm_compute; exact I.

(** ** A section that writes *)

(** Both threads are inside sections; the first has locked the first object and
    written to its copy; it has committed. *)
Definition entered : world := after (mvrlu_reader_lock 5 self1;; mvrlu_reader_lock 5 self2) objs.
Definition locked : world :=
  after (r ← _mvrlu_try_lock self1 obj1 24;
         match r with Some p => store_ptr p 8 77 | None => mret () end) entered.
Definition copy1 : Z := p_lock (ahs locked obj1).
Definition commited : world := after (mvrlu_reader_unlock 5 self1) locked.

(** The second thread has begun another section after the commit. *)
Definition late : world := after (mvrlu_reader_unlock 5 self2;; mvrlu_reader_lock 5 self2) commited.

(** The open write set of the first thread and its one entry. *)
Definition th1 : mvrlu_thread_struct := thr locked self1.
Definition chs1 : Z := obj_to_chs copy1.
Definition ws1 : Z := cur_wrt_set (log th1).

(** Only evaluation looks into the states. *)
#[local] Opaque after bare booted objs near_end entered locked commited late.

Lemma chs1_obj : chs_obj chs1 = copy1.
Proof. unfold chs1, chs_obj, obj_to_chs. lia. Qed.

Lemma locked_entries :
  entries (w_chs locked) (buffer (log th1)) (hdr_size (chs locked (obj_to_chs ws1))) [chs1] (tail_cnt (log th1)).
Proof.
  replace chs1 with (buffer (log th1) + log_index (hdr_size (chs locked (obj_to_chs ws1)))) by ev.
  eapply (entries_cons _ _ _ (chs locked chs1)); [ev|by vm_compute|by vm_compute|].
  replace (_ + hdr_size (chs locked chs1)) with (tail_cnt (log th1)) by ev. constructor.
Qed.

Lemma locked_entry_ok : entry_ok locked [chs1] chs1.
Proof.
  exists (chs locked chs1). split; [ev|]. right. split; [ev|]. exists (ahs locked obj1).
  split_and!; [ev|ev| |eexists; ev]. intros H%list_elem_of_singleton. by vm_compute in H.
Qed.

Lemma locked_section :
  section_ws locked self1 th1 0 [chs1] (chs locked (obj_to_chs ws1)) (wset locked ws1).
Proof.
  split; [split| | |].
  - ev.
  - ev.
  - done.
  - ev.
  - split; [ev|ev|by vm_compute|by vm_compute|ev|ev|ev|ev|exact locked_entries].
  - by vm_compute.
  - intros x ->%list_elem_of_singleton. exact locked_entry_ok.
  - by vm_compute.
Qed.


Lemma locked_publishes : publishes (w := locked) (th := th1) (es := [chs1]) chs1 (chs locked chs1) (ahs locked obj1).
Proof. split_and!; [set_solver|ev|ev|ev|by vm_compute|ev]. Qed.

Lemma no_versions m : versions m (p_copy (a_obj_hdr (ahs locked obj1))) [].
Proof. replace (p_copy _) with NULL by ev. constructor. Qed.

Lemma commit_extends_history_witness :
  ∃ w' a', run (log_commit 5 (log_of self1) self1 10000) locked = Done () w' ∧
    w_ahs w' !! vobj_to_ahs obj1 = Some a' ∧ p_lock a' = NULL ∧
    history w' [copy1] = [(12000, default [] (w_data locked !! copy1))].
Proof.
  destruct (commit_extends_history 4 locked self1 th1 0 [chs1] _ _ 10000 [] 12000 (tl (w_tsc locked))
    locked_section) as (w' & Hr & H).
  - ev.
  - constructor.
  - ev.
  - by vm_compute.
  - cbn. lia.
  - destruct (H chs1 (chs locked chs1) (ahs locked obj1) []) as (a' & Ha & Hl & _ & Hh & _).
    + exact locked_publishes.
    + by vm_compute.
    + apply no_versions.
    + intros ? []%elem_of_nil.
    + exists w', a'. replace (obj_of (chs locked chs1)) with (vobj_to_ahs obj1) in Ha by ev.
      rewrite chs1_obj in Hh. split; [exact Hr|]. split; [exact Ha|]. split; [exact Hl|exact Hh].
Defined.

Lemma reader_unlock_commits_witness :
  ∃ w' th', run (mvrlu_reader_unlock 5 self1) locked = Done () w' ∧
    w_thr w' !! self1 = Some th' ∧ run_cnt th' = 2 ∧ cur_wrt_set (log th') = NULL.
Proof.
  destruct (reader_unlock_commits 4 locked self1 th1 0 [chs1] _ _ [] 12000 (tl (w_tsc locked))
    locked_section) as (w' & w1 & th' & Hr & _ & _ & Ht & Hc & _ & Hcur & _).
  - by vm_compute.
  - ev.
  - by vm_compute.
  - ev.
  - constructor.
  - by vm_compute.
  - cbn. lia.
  - exists w', th'. split; [exact Hr|]. split; [exact Ht|]. split; [rewrite Hc; ev|exact Hcur].
Defined.


Lemma deref_sees_uncommitted_witness :
  ∃ w1 w2, run (ws_move_lock_to_copy 5 (log_of self1) self1) locked = Done () w1 ∧
    run (mvrlu_deref 4 self2 obj1) w1 = Done copy1 w2.
Proof.
  destruct (deref_sees_uncommitted 4 locked self1 th1 0 [chs1] _ _ locked_section) as (w1 & Hr & H).
  - ev.
  - exists w1. eexists. split; [exact Hr|]. rewrite -chs1_obj.
    replace obj1 with (p_act (chs locked chs1)) by ev.
    apply (H chs1 (chs locked chs1) (ahs locked obj1) [] self2 (thr locked self2)).
    + exact locked_publishes.
    + by vm_compute.
    + by vm_compute.
    + ev.
    + ev.
    + ev.
    + apply no_versions.
    + intros ? []%elem_of_nil.
    + ev.
    + by vm_compute.
    + cbn. lia.
Defined.

(** ** Locking *)

Lemma entered_no_copies o a : w_ahs entered !! o = Some a → p_copy (a_obj_hdr a) = NULL.
Proof.
  intros H. apply Z.eqb_eq.
  apply (map_check (λ _ a, p_copy (a_obj_hdr a) =? NULL) (w_ahs entered)) with o; [ev|exact H].
Qed.

Lemma entered_room : log_room entered (thr entered self1) 24.
Proof.
  split; [by vm_compute|split; by vm_compute|by vm_compute|by vm_compute|].
  intros o a x Ha Hx. rewrite (entered_no_copies o a Ha). pose proof (log_index_range x) as Hi. split.
  - assert (0 < buffer (log (thr entered self1))) as Hb by (by vm_compute).
    change (vobj_to_chs NULL) with (-48). lia.
  - intros h Hh. assert (w_chs entered !! vobj_to_chs NULL = None) as E by ev. congruence.
Qed.


Lemma try_lock_refuses_witness :
  run (_mvrlu_try_lock self2 obj1 24) locked = Done None locked ∧
  run (_mvrlu_try_lock_const self2 obj1 24) locked = Done false locked.
Proof.
  apply (try_lock_refuses locked self2 (thr locked self2) obj1 24 obj1 (ahs locked obj1) MIN_VERSION).
  - ev.
  - ev.
  - ev.
  - ev.
  - left. by vm_compute.
Defined.

(** The second thread locks the object again after the commit at 12000. *)
Definition relocked : world := after (_mvrlu_try_lock self2 obj1 24) late.
Definition copy2 : Z := p_lock (ahs relocked obj1).

Lemma version_gap_witness : 12000 + 3 * g_ordo_boundary < 14000 ∧ ordo_cmp_clock 12000 14000 = ORDO_LESS_THAN.
Proof.
  apply (version_gap late self2 (thr late self2) obj1 24 obj1 (ahs late obj1) 12000 copy2 relocked
    5 relocked 14000 (after (new_clock 5 (local_clk (thr late self2))) relocked)).
  - ev.
  - ev.
  - ev.
  - by vm_compute.
  - ev.
  - by vm_compute.
  - by vm_compute.
  - ev.
  - ev.
Defined.

(** ** Reclamation *)

(** Two grace periods have passed, at [q2] and [q1], since the commit. *)
Definition graced (q2 q1 : Z) : world :=
  after (store (qp_loc qp_clk) q2;; qp_update_qp_clk_for_reclaim self1;;
         store (qp_loc qp_clk) q1;; qp_update_qp_clk_for_reclaim self1) commited.
#[local] Opaque graced.

(** The one write set of the first thread's log. *)
Definition set1 (w : world) : log_set := LogSet [chs1] (wset w ws1) (tail_cnt (log (thr w self1))).

Ltac one_set w :=
  let th := constr:(thr w self1) in
  let sz := constr:(hdr_size (chs w (obj_to_chs ws1))) in
  eapply (log_sets_cons _ _ _ _ (chs w (obj_to_chs ws1)) (set1 w)); [|done|constructor];
  split; [ev|ev|by vm_compute|by vm_compute|ev|ev|ev|ev|];
  replace (ls_es (set1 w)) with [buffer (log th) + log_index sz] by ev;
  replace (head_cnt (log th) + sz) with sz by ev;
  eapply (entries_cons _ _ _ (chs w chs1)); [ev|by vm_compute|by vm_compute|];
  replace (sz + hdr_size (chs w chs1)) with (ls_end (set1 w)) by ev; constructor.

Lemma old_sets : log_sets (graced 14000 15000) (buffer (log (thr (graced 14000 15000) self1))) self1
  (head_cnt (log (thr (graced 14000 15000) self1))) [set1 (graced 14000 15000)] (tail_cnt (log (thr (graced 14000 15000) self1))).
Proof. one_set (graced 14000 15000). Qed.

Lemma mid_sets : log_sets (graced 12000 13000) (buffer (log (thr (graced 12000 13000) self1))) self1
  (head_cnt (log (thr (graced 12000 13000) self1))) [set1 (graced 12000 13000)] (tail_cnt (log (thr (graced 12000 13000) self1))).
Proof. one_set (graced 12000 13000). Qed.

Lemma one_increasing w : 0 ≤ ls_clk (set1 w) ≤ ULONG_MAX → increasing [set1 w].
Proof.
  intros H. split; [constructor; constructor|]. by intros x ->%list_elem_of_singleton.
Qed.

Lemma no_thread_objs_check w :
  forallb (λ '(_, h), bool_decide (w_thr w !! obj_of h = None ∧ w_node w !! list_of (obj_of h) = None))
    (map_to_list (w_chs w)) = true → no_thread_objs w.
Proof.
  intros H chs0 h Hh. apply (bool_decide_eq_true_1 _).
  exact (map_check (λ _ h, bool_decide (w_thr w !! obj_of h = None ∧ w_node w !! list_of (obj_of h) = None))
    (w_chs w) H chs0 h Hh).
Qed.

Lemma log_apart_check w p :
  forallb (λ '(c, h), bool_decide (p_act h ≠ p ∧ chs_obj c ≠ NULL)) (map_to_list (w_chs w)) = true →
  ∀ c h, w_chs w !! c = Some h → p_act h ≠ p ∧ chs_obj c ≠ NULL.
Proof.
  intros H c h Hh. apply (bool_decide_eq_true_1 _).
  exact (map_check (λ c h, bool_decide (p_act h ≠ p ∧ chs_obj c ≠ NULL)) (w_chs w) H c h Hh).
Qed.

(** Operations that free nothing. *)
Lemma ops_safe_none w ops :
  omap (frees_obj w) ops = [] →
  (∀ o, o ∈ ops → ∃ h, w_chs w !! op_chs o = Some h ∧ is_Some (w_ahs w !! obj_of h) ∧
     is_Some (w_data w !! chs_obj (op_chs o))) →
  ops_safe w ops.
Proof.
  intros E H. split; rewrite ?E.
  - intros o Ho. destruct (H o Ho) as (h & -> & _). eauto.
  - constructor.
  - intros p []%elem_of_nil.
  - intros o h Ho _ Hh _. destruct (H o Ho) as (h' & Hh' & ? & ?). assert (h = h') as <- by congruence.
    split_and!; [done|done|]. intros p []%elem_of_nil.
Qed.

Lemma old_ops : ops_safe (graced 14000 15000) (ops_of 15000 14000 [set1 (graced 14000 15000)]).
Proof.
  replace (ops_of _ _ _) with [Op true false chs1] by ev. apply ops_safe_none; [ev|].
  intros o ->%list_elem_of_singleton. exists (chs (graced 14000 15000) chs1). split; [ev|].
  split; eexists; ev.
Qed.

Lemma mid_ops : ops_safe (graced 12000 13000) (ops_of 13000 12000 [set1 (graced 12000 13000)]).
Proof.
  replace (ops_of _ _ _) with [Op false true chs1] by ev. apply ops_safe_none; [ev|].
  intros o ->%list_elem_of_singleton. exists (chs (graced 12000 13000) chs1). split; [ev|].
  split; eexists; ev.
Qed.

Lemma reclaim_drops_old_sets_witness :
  ∃ w' hd, run (log_reclaim 5 (log_of self1)) (graced 14000 15000) = Done () w' ∧
    w_thr w' !! self1 = Some (reclaimed_thread hd (thr (graced 14000 15000) self1)) ∧
    log_sets w' (buffer (log th1)) self1 hd [] (tail_cnt (log (thr (graced 14000 15000) self1))).
Proof.
  set (w := graced 14000 15000).
  destruct (reclaim_drops_old_sets 5 w self1 (thr w self1) [set1 w])
    as (w' & l1 & l2 & hd & Hr & El & _ & H2 & Ht & Hs).
  - ev.
  - by vm_compute.
  - ev.
  - exact old_sets.
  - apply one_increasing. by vm_compute.
  - by vm_compute.
  - by vm_compute.
  - apply no_thread_objs_check. ev.
  - replace (qp_clk1 _) with 15000 by ev. replace (qp_clk2 _) with 14000 by ev. exact old_ops.
  - cbn. lia.
  - exists w', hd. split; [exact Hr|]. split; [exact Ht|].
    destruct l1 as [|x [|]]; cbn in El; [subst l2|injection El as _ <-|by destruct l2].
    + exfalso. specialize (H2 (set1 w) (list_elem_of_here _ _)). vm_compute in H2. by apply H2.
    + replace (buffer (log th1)) with (buffer (log (thr w self1))) by ev. exact Hs.
Defined.

Lemma reclaim_writes_back_witness :
  ∃ w', run (log_reclaim 5 (log_of self1)) (graced 12000 13000) = Done () w' ∧
    (λ a, p_copy (a_obj_hdr a)) <$> w_ahs w' !! vobj_to_ahs obj1 = Some NULL ∧
    w_data w' !! obj1 = w_data locked !! copy1.
Proof.
  set (w := graced 12000 13000).
  destruct (reclaim_writes_back 5 w self1 (thr w self1) [set1 w] (set1 w) chs1 (chs w chs1) (ahs w obj1)
    (default [] (w_data w !! copy1))) as (w' & Hr & Ha & Hd).
  - ev.
  - by vm_compute.
  - ev.
  - exact mid_sets.
  - apply one_increasing. by vm_compute.
  - by vm_compute.
  - apply no_thread_objs_check. ev.
  - replace (qp_clk1 _) with 13000 by ev. replace (qp_clk2 _) with 12000 by ev. exact mid_ops.
  - cbn. lia.
  - apply list_elem_of_here.
  - by vm_compute.
  - by vm_compute.
  - apply list_elem_of_here.
  - ev.
  - ev.
  - ev.
  - ev.
  - rewrite chs1_obj. ev.
  - apply log_apart_check. ev.
  - exists w'. split; [exact Hr|]. replace (obj_of (chs w chs1)) with (vobj_to_ahs obj1) in Ha by ev.
    replace (p_act (chs w chs1)) with obj1 in Hd by ev. rewrite Ha Hd. split; [reflexivity|ev].
Defined.

(** ** Leaks and races *)

(** The state after a schedule of [preempt_cstep]. *)
Definition preempted {A B} (n : nat) (p : kprog A) (q : kprog B) (w : world) : option (A * B * world) :=
  match steps n p w with
  | Some (p', w1) =>
      match run q w1 with
      | Done b w2 => match run p' w2 with Done a w3 => Some (a, b, w3) | _ => None end
      | _ => None
      end
  | None => None
  end.

Lemma preempted_cstep {A} n (p q : kprog A) w a b w' :
  preempted n p q w = Some (a, b, w') → rtc cstep (w, [p; q]) (w', [Ret a; Ret b]).
Proof.
  unfold preempted. destruct (steps n p w) as [[p' w1]|] eqn:E1; [|done].
  destruct (run q w1) as [b' w2| | |] eqn:E2; try done.
  destruct (run p' w2) as [a' w3| | |] eqn:E3; try done.
  intros [= -> -> ->]. by eapply preempt_cstep.
Qed.

Definition leaked : world := match preempted 6 writer rival near_end with Some (_, _, w) => w | None => near_end end.


(** Two threads race for the first object; the first one is interrupted between
    its look at the lock and its compare-and-swap. *)
Definition raced : world :=
  match preempted 1 (try_lock_obj (vobj_to_ahs obj1) NULL 1) (try_lock_obj (vobj_to_ahs obj1) NULL 2) objs
  with Some (_, _, w) => w | None => objs end.
#[local] Opaque leaked raced.

Lemma try_lock_obj_exclusive_witness :
  ¬ faulty (A := bool) (raced, [Ret false; Ret true]) ∧ lock_word (vobj_to_ahs obj1) raced = Some 2.
Proof.
  destruct (try_lock_obj_exclusive (vobj_to_ahs obj1) [NULL; NULL] [1; 2] objs (raced, [Ret false; Ret true]))
    as (Hf & Hl & _).
  - apply (bool_decide_unpack _). exact I.
  - apply (bool_decide_unpack _). exact I.
  - eexists. ev.
  - apply (preempted_cstep 1). ev.
  - split; [exact Hf|]. exact (Hl 1%nat eq_refl).
Defined.

Lemma push_version_two_rounds_witness :
  safe (push_rely (vobj_to_ahs obj1) chs1) (push_guar (vobj_to_ahs obj1) chs1) False
    (push_version 2 (vobj_to_ahs obj1) chs1 NULL)
    (λ _ w', link chs1 w' = Some NULL ∨ link chs1 w' = Some NULL) locked.
Proof.
  apply (push_version_two_rounds (vobj_to_ahs obj1) chs1 NULL locked).
  split; [left; ev|]. split; [eexists; ev|]. left. reflexivity.
Defined.

(** ** Thread lists *)

Lemma booted_live w :
  (∃ t, w_tl w !! g_live_threads = Some t ∧ tl_lock t = false ∧ num t = 2) →
  nxt (w_node w) (tl_list g_live_threads) = Some (list_of self2) →
  nxt (w_node w) (list_of self2) = Some (list_of self1) →
  nxt (w_node w) (list_of self1) = Some (tl_list g_live_threads) →
  prv (w_node w) (tl_list g_live_threads) = Some (list_of self1) →
  prv (w_node w) (list_of self1) = Some (list_of self2) →
  prv (w_node w) (list_of self2) = Some (tl_list g_live_threads) →
  tl_inv w g_live_threads [self2; self1].
Proof.
  intros (t & Ht & Hl & Hn) H1 H2 H3 H4 H5 H6. exists t. split_and!; [done|done|by rewrite Hn|].
  split; [apply (bool_decide_unpack _); exact I|]. cbn. by rewrite H1 H2 H3 H4 H5 H6.
Qed.

Lemma entered_live : tl_inv entered g_live_threads [self2; self1].
Proof. apply booted_live; [eexists; split; [ev|split; ev]|ev..]. Qed.

Lemma live_threads w t : is_Some (w_thr w !! self1) → is_Some (w_thr w !! self2) →
  t ∈ [self2; self1] → is_Some (w_thr w !! t).
Proof. intros H1 H2 Ht. apply elem_of_cons in Ht as [->|Ht%list_elem_of_singleton]; [done|by subst]. Qed.

Lemma grace_period_elapses_witness :
  safe reader_rely any True (qp_init 5;; qp_wait 5 12000)
    (λ _ w', ∀ t th, t ∈ [self2; self1] → w_thr entered !! t = Some th → Z.odd (run_cnt th) = true →
       ∃ th', w_thr w' !! t = Some th' ∧
         (run_cnt th < run_cnt th' ∨ 12000 + g_ordo_boundary < local_clk th')) entered.
Proof.
  apply (grace_period_elapses 5 12000 [self2; self1] entered).
  - exact entered_live.
  - intros t. apply live_threads; eexists; ev.
  - by vm_compute.
Defined.

(** The first thread meets an object the second has locked. *)
Definition contended : world := after (_mvrlu_try_lock self2 obj1 24) entered.
#[local] Opaque contended.

Lemma restart_hides_section_witness :
  ∃ w' th', run (r ← iter_try_lock 5 self1 obj1; mvrlu_section_leave 5 self1;; mvrlu_section_enter 5 self1;; mret r)
      contended = Done None w' ∧
    w_thr w' !! self1 = Some th' ∧ Z.odd (run_cnt th') = false.
Proof.
  destruct (restart_hides_section 5 contended self1 (thr contended self1) obj1 obj1 (ahs contended obj1) MIN_VERSION
    12000 (tl (w_tsc contended))) as (w' & th' & w'' & Hr & Ht & _ & Ho & _).
  - ev.
  - ev.
  - ev.
  - ev.
  - ev.
  - by vm_compute.
  - ev.
  - done.
  - ev.
  - ev.
  - by vm_compute.
  - ev.
  - exists w', th'. split; [exact Hr|]. split; [exact Ht|exact Ho].
Defined.

Lemma list_rotate_left_ring_witness :
  ∃ m', run (mvrlu_list_rotate_left (tl_list g_live_threads)) entered = Done () (entered <| w_node := m' |>) ∧
    dll m' (tl_list g_live_threads) [list_of self1; list_of self2] ∧
    (∀ a, a ∉ [tl_list g_live_threads; list_of self2; list_of self1] → m' !! a = w_node entered !! a).
Proof.
  apply (list_rotate_left_ring entered (tl_list g_live_threads) [list_of self2; list_of self1]).
  destruct entered_live as (t & _ & _ & _ & Hd). exact Hd.
Defined.

Lemma qp_detect_returns_witness :
  ∃ w', run (qp_detect 5) (after wakeup_qp_thread_for_reclaim objs) = Done () w' ∧
    qp_clk (w_qp w') = 10000 - g_ordo_boundary.
Proof.
  destruct (qp_detect_returns 5 (after wakeup_qp_thread_for_reclaim objs) [self2; self1] 10000
    (tl (w_tsc objs))) as (w' & Hr & Hq & _).
  - apply booted_live; [eexists; split; [ev|split; ev]|ev..].
  - cbn. lia.
  - ev.
  - intros t Ht. exists (thr (after wakeup_qp_thread_for_reclaim objs) t).
    apply elem_of_cons in Ht as [->|Ht%list_elem_of_singleton]; [|subst t]; (split; [ev|left; ev]).
  - by vm_compute.
  - exists w'. split; [exact Hr|]. rewrite Hq. ev.
Defined.

(** *** Log blocks and registration *)

Definition started : world := after (mvrlu_init (Some 7)) (log_allocator log_chunks bare).
Definition block1 : Z := log_block_at log_chunks 127.
Definition block2 : Z := log_block_at log_chunks 126.
#[local] Opaque started.

Lemma region_fits_chunks : region_fits log_chunks.
Proof. by vm_compute. Qed.

Lemma pool_blocks_exclusive_witness :
  NoDup [block2; block1] ∧ (∃ w', run (free_log_mem (block1 + offsetof_log_part)) (after alloc_log_mem
    (after alloc_log_mem (log_allocator log_chunks bare))) = Done () w').
Proof.
  destruct (pool_blocks_exclusive log_chunks [block2; block1]
    (after alloc_log_mem (after alloc_log_mem (log_allocator log_chunks bare)))) as (Hnd & _ & _ & Hf & _).
  - exact region_fits_chunks.
  - replace [block2; block1] with
      [cast_to_block (block2 + offsetof_log_part); cast_to_block (block1 + offsetof_log_part)] by ev.
    apply (pool_alloc log_chunks _ (after alloc_log_mem (log_allocator log_chunks bare))); [|ev|by vm_compute].
    apply (pool_alloc log_chunks _ (log_allocator log_chunks bare)); [apply pool_boot|ev|by vm_compute].
  - split; [exact Hnd|]. apply Hf. right. left.
Defined.

Lemma started_pool : pool_inv log_chunks [] started.
Proof.
  split; [ev|]. split; [ev|]. rewrite app_nil_r.
  replace (w_pool started) with (reverse (region_blocks log_chunks)) by ev. apply reverse_Permutation.
Qed.

Lemma booted_pool : pool_inv log_chunks [block1; block2] booted.
Proof.
  split; [ev|]. split; [ev|]. rewrite -(reverse_Permutation (region_blocks log_chunks)).
  replace (reverse (region_blocks log_chunks)) with ([block1; block2] ++ w_pool booted) by ev.
  apply Permutation_app_comm.
Qed.

Lemma empty_list w tl :
  (∃ t, w_tl w !! tl = Some t ∧ tl_lock t = false ∧ num t = 0) →
  nxt (w_node w) (tl_list tl) = Some (tl_list tl) → prv (w_node w) (tl_list tl) = Some (tl_list tl) →
  tl_inv w tl [].
Proof.
  intros (t & Ht & Hl & Hn) H1 H2. exists t. split_and!; [done|done|by rewrite Hn|].
  split; [apply NoDup_singleton|]. cbn. by rewrite H1 H2.
Qed.

Lemma thread_init_registers_witness :
  ∃ w', run (mvrlu_thread_init self1) started = Done () w' ∧ tl_inv w' g_live_threads [self1].
Proof.
  destruct (thread_init_registers log_chunks [] started self1 []) as (w' & th & Hr & Htl & _).
  - exact region_fits_chunks.
  - exact started_pool.
  - apply empty_list; [eexists; split; [ev|split; ev]|ev..].
  - apply not_elem_of_nil.
  - by vm_compute.
  - exists w'. split; [exact Hr|exact Htl].
Defined.

Lemma thread_finish_leaves_witness :
  ∃ w', run (mvrlu_thread_finish 5 self1) booted = Done () w' ∧
    tl_inv w' g_live_threads [self2] ∧ pool_inv log_chunks [block2] w'.
Proof.
  destruct (thread_finish_leaves 5 log_chunks block1 [block2] booted self1 (thr booted self1) [self2] [] [])
    as (w' & th' & Hr & _ & Htl & Hp).
  - exact booted_pool.
  - apply booted_live; [eexists; split; [ev|split; ev]|ev..].
  - apply empty_list; [eexists; split; [ev|split; ev]|ev..].
  - intros a ->%list_elem_of_singleton. apply (bool_decide_unpack _). vm_compute. exact I.
  - ev.
  - ev.
  - ev.
  - exists w'. split; [exact Hr|]. split; [exact Htl|].
    replace (head_cnt (log (thr booted self1)) =? tail_cnt (log (thr booted self1))) with true in Hp by ev.
    exact (proj1 Hp).
Defined.

Lemma log_part_alignment_witness :
  ∃ p w', run port_alloc_log_mem (after alloc_log_mem (log_allocator log_chunks bare)) = Done p w' ∧
    align_ptr_to_cacheline p ≠ p.
Proof.
  destruct (log_part_alignment log_chunks (after alloc_log_mem (log_allocator log_chunks bare)) 126
    (tl (w_pool (after alloc_log_mem (log_allocator log_chunks bare))))) as (p & w' & Hr & Ha).
  - exact region_fits_chunks.
  - ev.
  - lia.
  - ev.
  - exists p, w'. split; [exact Hr|]. rewrite Ha. by vm_compute.
Defined.

(** The first thread finishes with a version in its log; the detection thread
    empties the log. *)
Definition reaped : world :=
  after (mvrlu_thread_finish 5 self1;;
         store (qp_loc qp_clk) 14000;; qp_reap_zombie_threads 5;;
         store (qp_loc qp_clk) 15000;; qp_reap_zombie_threads 5) commited.
#[local] Opaque reaped.

Lemma thread_free_leaves_dangling_witness :
  ∃ w', run (mvrlu_thread_free self1) reaped = Done () w' ∧ run (qp_reap_zombie_threads 5) w' = Fault.
Proof.
  apply (thread_free_leaves_dangling reaped self1 (thr reaped self1) [] 4).
  - eexists. split; [ev|]. split; [ev|]. split; [ev|].
    split; [apply (bool_decide_unpack _); exact I|]. split; [ev|]. split; [ev|]. split; [ev|]. split; [ev|exact I].
  - ev.
  - ev.
  - eexists. ev.
Defined.

(** ** Pointers, entries, clocks *)

(** A pointer to the copy is stored into the copy. *)
Lemma assign_pointer_reads_actual_witness :
  ∃ w', run (_mvrlu_assign_pointer copy1 0 copy1) locked = Done () w' ∧
    run (load_ptr copy1 0) w' = Done obj1 w'.
Proof.
  destruct (assign_pointer_reads_actual locked copy1 0 copy1 obj1 (default [] (w_data locked !! copy1)))
    as (w' & bs' & Hr & Hl & _).
  - ev.
  - by vm_compute.
  - ev.
  - apply (bool_decide_unpack _). vm_compute. exact I.
  - exists w'. split; [exact Hr|exact Hl].
Defined.

Lemma cmp_ptrs_same_object_witness : run (mvrlu_cmp_ptrs copy1 obj1) locked = Done true locked.
Proof. apply (cmp_ptrs_same_object locked copy1 obj1 obj1 obj1); ev. Defined.

Lemma log_alloc_places_entry_witness :
  ∃ w' pos b, run (log_alloc (log_of self1) 300 false) near_end = Done (buffer (log th1) + log_index pos, b) w' ∧
    130752 ≤ pos.
Proof.
  destruct (log_alloc_places_entry near_end self1 (thr near_end self1) 300)
    as (w' & pos & b & h & Hr & _ & _ & Hp & _).
  - ev.
  - by vm_compute.
  - ev.
  - by vm_compute.
  - exists w', pos, b. replace (buffer (log th1)) with (buffer (log (thr near_end self1))) by ev.
    split; [exact Hr|]. replace 130752 with (tail_cnt (log (thr near_end self1))) by ev. exact Hp.
Defined.

(** A log filled to the middle, and an object larger than the rest. *)
Definition half_full : world :=
  objs <| w_thr ::= alter (λ th, th <| log ::= λ g, g <| head_cnt := 65472 |> <| tail_cnt := 65472 |> |>) self1 |>.

Lemma bogus_entry_cut_witness :
  ∃ w' pos b hb, run (log_alloc (log_of self1) 70000 false) half_full =
      Done (buffer (log (thr half_full self1)) + log_index pos, b) w' ∧
    w_chs w' !! (buffer (log (thr half_full self1)) + log_index (tail_cnt (log (thr half_full self1)))) = Some hb ∧
    type (c_obj_hdr hb) = TYPE_BOGUS ∧ tail_cnt (log (thr half_full self1)) + hdr_size hb < pos.
Proof.
  apply (bogus_entry_cut half_full self1 (thr half_full self1) 70000); [ev|by vm_compute|by vm_compute|ev|by vm_compute].
Defined.

Lemma new_clock_first_past_witness :
  run (new_clock 5 10000) (bare <| w_tsc := [10100; 10500; 10600; 11000] |>) =
  Done 10600 (bare <| w_tsc := [10100; 10500; 10600; 11000] |> <| w_tsc := [11000] |>).
Proof.
  apply (new_clock_first_past 5 (bare <| w_tsc := [10100; 10500; 10600; 11000] |>) 10000 [10100; 10500] 10600 [11000]).
  - by vm_compute.
  - reflexivity.
  - repeat constructor; by vm_compute.
  - by vm_compute.
  - by vm_compute.
  - cbn. lia.
Defined.
