(* ===== verification/Crc16.v ===== *)
(** * Checksums of the journal

    The table-driven CRC-16 of [kernel/crc16.cc] and [include/crc16.hh], its
    bit-at-a-time form, and the division of polynomials over GF(2) that both
    compute: width 16, polynomial x^16 + x^15 + x^2 + 1, least significant
    bit of every byte first. *)

From S2P Require Import Prelude.

(** ** The code *)

Definition crc16_table : list Z :=
  [0x0000; 0xC0C1; 0xC181; 0x0140; 0xC301; 0x03C0; 0x0280; 0xC241;
   0xC601; 0x06C0; 0x0780; 0xC741; 0x0500; 0xC5C1; 0xC481; 0x0440;
   0xCC01; 0x0CC0; 0x0D80; 0xCD41; 0x0F00; 0xCFC1; 0xCE81; 0x0E40;
   0x0A00; 0xCAC1; 0xCB81; 0x0B40; 0xC901; 0x09C0; 0x0880; 0xC841;
   0xD801; 0x18C0; 0x1980; 0xD941; 0x1B00; 0xDBC1; 0xDA81; 0x1A40;
   0x1E00; 0xDEC1; 0xDF81; 0x1F40; 0xDD01; 0x1DC0; 0x1C80; 0xDC41;
   0x1400; 0xD4C1; 0xD581; 0x1540; 0xD701; 0x17C0; 0x1680; 0xD641;
   0xD201; 0x12C0; 0x1380; 0xD341; 0x1100; 0xD1C1; 0xD081; 0x1040;
   0xF001; 0x30C0; 0x3180; 0xF141; 0x3300; 0xF3C1; 0xF281; 0x3240;
   0x3600; 0xF6C1; 0xF781; 0x3740; 0xF501; 0x35C0; 0x3480; 0xF441;
   0x3C00; 0xFCC1; 0xFD81; 0x3D40; 0xFF01; 0x3FC0; 0x3E80; 0xFE41;
   0xFA01; 0x3AC0; 0x3B80; 0xFB41; 0x3900; 0xF9C1; 0xF881; 0x3840;
   0x2800; 0xE8C1; 0xE981; 0x2940; 0xEB01; 0x2BC0; 0x2A80; 0xEA41;
   0xEE01; 0x2EC0; 0x2F80; 0xEF41; 0x2D00; 0xEDC1; 0xEC81; 0x2C40;
   0xE401; 0x24C0; 0x2580; 0xE541; 0x2700; 0xE7C1; 0xE681; 0x2640;
   0x2200; 0xE2C1; 0xE381; 0x2340; 0xE101; 0x21C0; 0x2080; 0xE041;
   0xA001; 0x60C0; 0x6180; 0xA141; 0x6300; 0xA3C1; 0xA281; 0x6240;
   0x6600; 0xA6C1; 0xA781; 0x6740; 0xA501; 0x65C0; 0x6480; 0xA441;
   0x6C00; 0xACC1; 0xAD81; 0x6D40; 0xAF01; 0x6FC0; 0x6E80; 0xAE41;
   0xAA01; 0x6AC0; 0x6B80; 0xAB41; 0x6900; 0xA9C1; 0xA881; 0x6840;
   0x7800; 0xB8C1; 0xB981; 0x7940; 0xBB01; 0x7BC0; 0x7A80; 0xBA41;
   0xBE01; 0x7EC0; 0x7F80; 0xBF41; 0x7D00; 0xBDC1; 0xBC81; 0x7C40;
   0xB401; 0x74C0; 0x7580; 0xB541; 0x7700; 0xB7C1; 0xB681; 0x7640;
   0x7200; 0xB2C1; 0xB381; 0x7340; 0xB101; 0x71C0; 0x7080; 0xB041;
   0x5000; 0x90C1; 0x9181; 0x5140; 0x9301; 0x53C0; 0x5280; 0x9241;
   0x9601; 0x56C0; 0x5780; 0x9741; 0x5500; 0x95C1; 0x9481; 0x5440;
   0x9C01; 0x5CC0; 0x5D80; 0x9D41; 0x5F00; 0x9FC1; 0x9E81; 0x5E40;
   0x5A00; 0x9AC1; 0x9B81; 0x5B40; 0x9901; 0x59C0; 0x5880; 0x9841;
   0x8801; 0x48C0; 0x4980; 0x8941; 0x4B00; 0x8BC1; 0x8A81; 0x4A40;
   0x4E00; 0x8EC1; 0x8F81; 0x4F40; 0x8D01; 0x4DC0; 0x4C80; 0x8C41;
   0x4400; 0x84C1; 0x8581; 0x4540; 0x8701; 0x47C0; 0x4680; 0x8641;
   0x8201; 0x42C0; 0x4380; 0x8341; 0x4100; 0x81C1; 0x8081; 0x4040].

(** [(crc >> 8) ^ crc16_table[(crc ^ data) & 0xff]] *)
Definition crc16_byte (crc data : Z) : Z :=
  Z.lxor (Z.shiftr crc 8)
    (nth (Z.to_nat (Z.land (Z.lxor crc data) 0xff)) crc16_table 0).

(** [while (len--) crc = crc16_byte(crc, *buffer++)]: [None] is a read past
    the end of the buffer. *)
Fixpoint crc16 (crc : Z) (buffer : list Z) (len : nat) : option Z :=
  match len with
  | O => Some crc
  | S len' =>
      match buffer with
      | [] => None
      | data :: buffer' => crc16 (crc16_byte crc data) buffer' len'
      end
  end.

(** ** The specification: polynomials over GF(2)

    A polynomial is the integer whose bits are its coefficients.  A message is
    a list of bits, the highest coefficient first. *)

(** x^16 + x^15 + x^2 + 1. *)
Definition crc_poly : Z := 0x18005.

(** Horner's rule: the polynomial with coefficients [l], and its product with
    [p] when [l] are the coefficients of a quotient. *)
Definition poly_times (p : Z) (l : list bool) : Z :=
  fold_left (λ (a : Z) (b : bool), Z.lxor (Z.shiftl a 1) (if b then p else 0)) l 0.
Definition poly_of (l : list bool) : Z := poly_times 1 l.

(** The bits of a byte, in the order the CRC takes them. *)
Definition byte_bits (x : Z) : list bool :=
  Z.testbit x <$> [0; 1; 2; 3; 4; 5; 6; 7].
Definition message_bits (buffer : list Z) : list bool :=
  concat (byte_bits <$> buffer).

(** A 16-bit register read from the other end. *)
Definition reflect16 (x : Z) : Z :=
  poly_of (Z.testbit x <$> [0; 1; 2; 3; 4; 5; 6; 7; 8; 9; 10; 11; 12; 13; 14; 15]).

(** ** One bit at a time *)

(** One bit enters the register at its low end; 0xA001 is the polynomial
    without its leading term, read from the other end. *)
Definition crc_bit (crc : Z) (b : bool) : Z :=
  Z.lxor (Z.shiftr crc 1) (if xorb (Z.testbit crc 0) b then 0xA001 else 0).

(** The same step on the reflected register, as long division does it. *)
Definition div_bit (r : Z) (b : bool) : Z :=
  Z.lxor (Z.shiftl r 1)
    (Z.lxor (Z.shiftl (Z.b2z b) 16) (if xorb (Z.testbit r 15) b then crc_poly else 0)).

(** Equality of sums over GF(2), bit by bit. *)
Ltac xor_solve :=
  apply Z.bits_inj'; intros ? ?; rewrite ?Z.lxor_spec ?Z.bits_0;
  repeat match goal with |- context [Z.testbit ?x ?i] => destruct (Z.testbit x i) end;
  reflexivity.

Lemma crc_bit_lxor x y b c :
  crc_bit (Z.lxor x y) (xorb b c) = Z.lxor (crc_bit x b) (crc_bit y c).
Proof.
  unfold crc_bit. rewrite Z.lxor_spec Z.shiftr_lxor.
  destruct (Z.testbit x 0), (Z.testbit y 0), b, c; simpl xorb; cbv iota; xor_solve.
Qed.

Lemma crc_bit_even y : crc_bit (Z.shiftl y 1) false = y.
Proof.
  unfold crc_bit. rewrite Z.shiftl_spec_low; [lia|]. simpl xorb. cbv iota.
  rewrite Z.lxor_0_r Z.shiftr_shiftl_l // Z.shiftl_0_r //.
Qed.

(** A message bit has the same effect as that bit of the register. *)
Lemma crc_bit_data x d :
  crc_bit (Z.lxor x d) false = Z.lxor (crc_bit x (Z.testbit d 0)) (Z.shiftr d 1).
Proof.
  unfold crc_bit. rewrite Z.lxor_spec Z.shiftr_lxor xorb_false_r. xor_solve.
Qed.

Definition zero_bits (n : nat) (x : Z) : Z := Nat.iter n (λ y, crc_bit y false) x.

Lemma zeros_lxor n x y : zero_bits n (Z.lxor x y) = Z.lxor (zero_bits n x) (zero_bits n y).
Proof.
  induction n as [|n IH]; [done|]. simpl. rewrite IH.
  apply (crc_bit_lxor _ _ false false).
Qed.

Lemma zeros_shiftl n y : zero_bits n (Z.shiftl y (Z.of_nat n)) = y.
Proof.
  revert y. induction n as [|n IH]; intros y; [by rewrite Z.shiftl_0_r|].
  rewrite Nat2Z.inj_succ -Z.add_1_l -Z.shiftl_shiftl //. simpl. by rewrite IH crc_bit_even.
Qed.

Lemma crc_bits_zeros (k : nat) x d :
  fold_left crc_bit ((λ i, Z.testbit d (Z.of_nat i)) <$> seq 0 k) x
  = Z.lxor (zero_bits k (Z.lxor x d)) (Z.shiftr d (Z.of_nat k)).
Proof.
  induction k as [|k IH].
  { rewrite Z.shiftr_0_r /=. xor_solve. }
  rewrite seq_S fmap_app fold_left_app IH Nat2Z.inj_succ. simpl fold_left.
  set (w := zero_bits k (Z.lxor x d)). change (zero_bits (S k) (Z.lxor x d)) with (crc_bit w false).
  rewrite -Z.add_1_r -Z.shiftr_shiftr //. set (e := Z.shiftr d (Z.of_nat k)).
  assert (Z.testbit d (Z.of_nat k) = Z.testbit e 0) as ->.
  { unfold e. rewrite Z.shiftr_spec //. }
  assert (w = Z.lxor (Z.lxor w e) e) as Hw by xor_solve.
  rewrite [in RHS]Hw crc_bit_data. xor_solve.
Qed.

(** The table holds the effect of eight steps on every byte. *)
Lemma crc16_table_zeros i :
  0 ≤ i < 256 → nth (Z.to_nat i) crc16_table 0 = zero_bits 8 i.
Proof.
  intros Hi.
  assert (forallb (λ n, nth n crc16_table 0 =? zero_bits 8 (Z.of_nat n)) (seq 0 256) = true) as H
    by (vm_compute; reflexivity).
  rewrite forallb_forall in H. specialize (H (Z.to_nat i)).
  rewrite Z2Nat.id in H; [lia|]. apply Z.eqb_eq, H, in_seq. lia.
Qed.

Lemma crc16_byte_bits crc data :
  0 ≤ data < 256 → crc16_byte crc data = fold_left crc_bit (byte_bits data) crc.
Proof.
  intros Hd. change (byte_bits data) with ((λ i, Z.testbit data (Z.of_nat i)) <$> seq 0 8).
  rewrite crc_bits_zeros. set (z := Z.lxor crc data).
  assert (Z.shiftr data 8 = 0) as E.
  { rewrite Z.shiftr_div_pow2 //. by apply Z.div_small. }
  rewrite E Z.lxor_0_r /crc16_byte crc16_table_zeros -/z.
  { change 0xff with (Z.ones 8). rewrite Z.land_ones //. by apply Z.mod_pos_bound. }
  assert (z = Z.lxor (Z.land z 0xff) (Z.shiftl (Z.shiftr z 8) 8)) as Hz.
  { apply Z.bits_inj'. intros i Hi. change 0xff with (Z.ones 8).
    rewrite Z.lxor_spec Z.land_spec Z.shiftl_spec //.
    destruct (Z.lt_ge_cases i 8).
    - rewrite Z.ones_spec_low; [lia|]. rewrite (Z.testbit_neg_r _ (i - 8)); [lia|].
      by rewrite andb_true_r xorb_false_r.
    - rewrite Z.ones_spec_high; [lia|]. rewrite Z.shiftr_spec; [lia|].
      rewrite andb_false_r. simpl. f_equal. lia. }
  rewrite {2}Hz zeros_lxor (zeros_shiftl 8) Z.lxor_comm. f_equal.
  unfold z. by rewrite Z.shiftr_lxor E Z.lxor_0_r.
Qed.

(** ** The register as a remainder *)

Lemma poly_times_snoc p l b :
  poly_times p (l ++ [b]) = Z.lxor (Z.shiftl (poly_times p l) 1) (if b then p else 0).
Proof. unfold poly_times. by rewrite fold_left_app. Qed.

(** Coefficients of a message, counted from its end. *)
Lemma poly_of_testbit l i :
  0 ≤ i →
  Z.testbit (poly_of l) i
  = (i <? Z.of_nat (length l)) && nth (length l - 1 - Z.to_nat i) l false.
Proof.
  revert i. induction l as [|b l IH] using rev_ind; intros i Hi.
  { change (poly_of []) with 0. rewrite Z.bits_0. destruct (Z.ltb_spec i (Z.of_nat (length (@nil bool)))) as [Hl|]; [simpl in Hl; lia|done]. }
  unfold poly_of. rewrite poly_times_snoc -/(poly_of l) Z.lxor_spec Z.shiftl_spec // length_app /=.
  destruct (decide (i = 0)) as [->|Hne].
  - rewrite Z.testbit_neg_r // xorb_false_l.
    destruct (Z.ltb_spec 0 (Z.of_nat (length l + 1))); [|lia].
    rewrite app_nth2; [lia|]. replace (_ - _)%nat with O by lia. by destruct b.
  - rewrite IH; [lia|].
    assert (Z.testbit (if b then 1 else 0) i = false) as ->.
    { destruct b; [|by rewrite Z.bits_0]. destruct i as [|i|]; try lia. by destruct i. }
    rewrite xorb_false_r.
    destruct (Z.ltb_spec (i - 1) (Z.of_nat (length l))),
      (Z.ltb_spec i (Z.of_nat (length l + 1))); simpl; try (lia || done).
    rewrite app_nth1; [lia|]. f_equal. lia.
Qed.

Lemma reflect16_testbit x i :
  0 ≤ i → Z.testbit (reflect16 x) i = (i <? 16) && Z.testbit x (15 - i).
Proof.
  intros Hi. unfold reflect16. rewrite poly_of_testbit // length_fmap.
  change (Z.of_nat (length [0; 1; 2; 3; 4; 5; 6; 7; 8; 9; 10; 11; 12; 13; 14; 15])) with 16.
  destruct (Z.ltb_spec i 16); [|done]. rewrite !andb_true_l.
  assert (i = 0 ∨ i = 1 ∨ i = 2 ∨ i = 3 ∨ i = 4 ∨ i = 5 ∨ i = 6 ∨ i = 7 ∨ i = 8 ∨ i = 9 ∨
    i = 10 ∨ i = 11 ∨ i = 12 ∨ i = 13 ∨ i = 14 ∨ i = 15) as Hc by lia.
  by repeat destruct Hc as [->|Hc]; [..|subst i].
Qed.

Lemma reflect16_lxor x y : reflect16 (Z.lxor x y) = Z.lxor (reflect16 x) (reflect16 y).
Proof.
  apply Z.bits_inj'. intros i Hi. rewrite Z.lxor_spec !reflect16_testbit // Z.lxor_spec.
  by destruct (i <? 16).
Qed.

Lemma reflect16_range x : 0 ≤ reflect16 x < 65536.
Proof.
  assert (reflect16 x = Z.land (reflect16 x) (Z.ones 16)) as ->.
  { apply Z.bits_inj'. intros i Hi. rewrite Z.land_spec reflect16_testbit //.
    rewrite Z.testbit_ones_nonneg //. by destruct (i <? 16), (Z.testbit _ _). }
  rewrite Z.land_ones //. by apply Z.mod_pos_bound.
Qed.

Lemma reflect16_shiftr x :
  0 ≤ x < 65536 →
  reflect16 (Z.shiftr x 1)
  = Z.lxor (Z.shiftl (reflect16 x) 1) (Z.shiftl (Z.b2z (Z.testbit (reflect16 x) 15)) 16).
Proof.
  intros Hx. apply Z.bits_inj'. intros i Hi.
  rewrite Z.lxor_spec Z.shiftl_spec // Z.shiftl_spec // (reflect16_testbit _ i) //.
  assert (Z.testbit x 16 = false) as Hx16.
  { apply (Z.bits_above_log2 x 16); [lia|].
    destruct (decide (x = 0)) as [->|]; [done|]. apply Z.log2_lt_pow2; lia. }
  destruct (Z.ltb_spec i 16); rewrite ?andb_true_l ?andb_false_l.
  - rewrite (Z.testbit_neg_r _ (i - 16)); [lia|]. rewrite xorb_false_r Z.shiftr_spec; [lia|].
    destruct (decide (i = 0)) as [->|]; [done|].
    rewrite reflect16_testbit; [lia|]. destruct (Z.ltb_spec (i - 1) 16); [|lia].
    rewrite andb_true_l. f_equal. lia.
  - rewrite (reflect16_testbit x 15) // andb_true_l (reflect16_testbit x (i - 1)); [lia|].
    destruct (decide (i = 16)) as [->|].
    + change (16 - 1 <? 16) with true. change (15 - (16 - 1)) with 0. change (15 - 15) with 0.
      by destruct (Z.testbit x 0).
    + destruct (Z.ltb_spec (i - 1) 16); [lia|]. rewrite andb_false_l xorb_false_l.
      destruct (Z.testbit x (15 - 15)); [|by rewrite Z.bits_0].
      symmetry. apply (Z.bits_above_log2 1); simpl; lia.
Qed.

#[local] Opaque reflect16.

Lemma reflect16_crc_bit c b :
  0 ≤ c < 65536 → reflect16 (crc_bit c b) = div_bit (reflect16 c) b.
Proof.
  intros Hc. unfold crc_bit, div_bit. rewrite reflect16_lxor reflect16_shiftr // Z.lxor_assoc.
  f_equal. assert (Z.testbit (reflect16 c) 15 = Z.testbit c 0) as ->
    by rewrite reflect16_testbit //.
  by destruct (Z.testbit c 0), b.
Qed.

Lemma crc_bit_range c b : 0 ≤ c < 65536 → 0 ≤ crc_bit c b < 65536.
Proof.
  intros Hc. unfold crc_bit.
  assert (0 ≤ Z.shiftr c 1 < 2 ^ 16) as [H1 H2].
  { rewrite Z.shiftr_div_pow2 //. change (2 ^ 1) with 2. split; [apply Z.div_pos; lia|].
    apply Z.div_lt_upper_bound; lia. }
  set (f := if xorb (Z.testbit c 0) b then 0xA001 else 0).
  assert (0 ≤ f < 2 ^ 16) as [H3 H4] by (unfold f; destruct (xorb _ _); lia).
  split; [by apply Z.lxor_nonneg; split|].
  destruct (decide (Z.lxor (Z.shiftr c 1) f = 0)) as [->|Hne]; [lia|].
  apply (Z.log2_lt_pow2 _ 16).
  { assert (0 ≤ Z.lxor (Z.shiftr c 1) f) by (by apply Z.lxor_nonneg; split). lia. }
  eapply Z.le_lt_trans; [by apply Z.log2_lxor|]. apply Z.max_lub_lt.
  - destruct (decide (Z.shiftr c 1 = 0)) as [->|]; [done|]. apply Z.log2_lt_pow2; lia.
  - destruct (decide (f = 0)) as [->|]; [done|]. apply Z.log2_lt_pow2; lia.
Qed.

Lemma crc_bits_range l c :
  0 ≤ c < 65536 → 0 ≤ fold_left crc_bit l c < 65536.
Proof.
  revert c. induction l as [|b l IH]; intros c Hc; [exact Hc|].
  apply (IH (crc_bit c b)), crc_bit_range, Hc.
Qed.

Lemma fold_left_cons {A B} (f : A → B → A) x l a :
  fold_left f (x :: l) a = fold_left f l (f a x).
Proof. reflexivity. Qed.

Lemma crc_bits_reflect l c :
  0 ≤ c < 65536 →
  reflect16 (fold_left crc_bit l c) = fold_left div_bit l (reflect16 c).
Proof.
  revert c. induction l as [|b l IH]; intros c Hc; [reflexivity|].
  rewrite !fold_left_cons -(reflect16_crc_bit _ _ Hc). apply (IH (crc_bit c b)), crc_bit_range, Hc.
Qed.

(** Long division: the feedback bits are the quotient. *)
Lemma div_bits_remainder l r :
  ∃ q, length q = length l ∧
    Z.lxor (Z.lxor (Z.shiftl r (Z.of_nat (length l))) (Z.shiftl (poly_of l) 16))
      (fold_left div_bit l r) = poly_times crc_poly q.
Proof.
  induction l as [|b l (q & Hq & IH)] using rev_ind.
  { exists []. split; [done|]. rewrite Z.shiftl_0_r /=. xor_solve. }
  rewrite fold_left_app. simpl fold_left. set (r' := fold_left div_bit l r) in *.
  exists (q ++ [xorb (Z.testbit r' 15) b]). rewrite !length_app Hq. split; [done|].
  unfold poly_of. rewrite !poly_times_snoc -/(poly_of l) -IH /div_bit.
  rewrite Nat2Z.inj_add -Z.shiftl_shiftl; [lia|]. change (Z.of_nat (length [b])) with 1.
  rewrite !Z.shiftl_lxor (Z.shiftl_shiftl (poly_of l) 1) // (Z.shiftl_shiftl (poly_of l) 16) //.
  change (if b then 1 else 0) with (Z.b2z b). change (1 + 16) with (16 + 1). xor_solve.
Qed.

Lemma crc16_bits buffer crc :
  Forall (λ x, 0 ≤ x < 256) buffer →
  crc16 crc buffer (length buffer) = Some (fold_left crc_bit (message_bits buffer) crc).
Proof.
  intros H. revert crc. induction H as [|x l Hx Hl IH]; intros crc; [done|].
  cbn [crc16 length]. rewrite IH (crc16_byte_bits _ _ Hx).
  change (message_bits (x :: l)) with (byte_bits x ++ message_bits l). by rewrite fold_left_app.
Qed.

Lemma length_message_bits buffer : length (message_bits buffer) = (8 * length buffer)%nat.
Proof.
  induction buffer as [|x l IH]; [done|].
  change (message_bits (x :: l)) with (byte_bits x ++ message_bits l).
  rewrite length_app IH. simpl. lia.
Qed.

(** C39: the table-driven CRC-16 is division of polynomials: for every buffer
    of bytes and every previous value the code returns a value, and that value
    (reflected) is the remainder, of degree less than 16, of the message times
    x^16 plus the previous value times x^(8 n), divided by
    x^16 + x^15 + x^2 + 1. *)
Theorem crc16_is_remainder (crc : Z) (buffer : list Z) :
  0 ≤ crc < 65536 →
  Forall (λ x, 0 ≤ x < 256) buffer →
  ∃ c q,
    crc16 crc buffer (length buffer) = Some c ∧
    0 ≤ c < 65536 ∧ 0 ≤ reflect16 c < 65536 ∧
    length q = (8 * length buffer)%nat ∧
    Z.lxor (Z.lxor (Z.shiftl (reflect16 crc) (8 * Z.of_nat (length buffer)))
                   (Z.shiftl (poly_of (message_bits buffer)) 16))
           (reflect16 c)
    = poly_times crc_poly q.
Proof.
  intros Hc Hb. pose proof (crc_bits_range (message_bits buffer) crc Hc) as H1.
  pose proof (crc_bits_reflect (message_bits buffer) crc Hc) as H2.
  destruct (div_bits_remainder (message_bits buffer) (reflect16 crc)) as (q & Hq & HE).
  rewrite length_message_bits in Hq HE.
  exists (fold_left crc_bit (message_bits buffer) crc), q.
  split_and!; try apply reflect16_range; auto using crc16_bits; try lia.
  rewrite H2 -HE. do 3 f_equal. lia.
Qed.

#[local] Transparent reflect16.

(** The checksum of the customary test string. *)
Lemma crc16_is_remainder_witness :
  crc16 0 [49; 50; 51; 52; 53; 54; 55; 56; 57] 9 = Some 0xBB3D ∧
  ∃ q, Z.lxor (Z.lxor (Z.shiftl (reflect16 0) 72)
         (Z.shiftl (poly_of (message_bits [49; 50; 51; 52; 53; 54; 55; 56; 57])) 16))
         (reflect16 0xBB3D) = poly_times crc_poly q.
Proof.
  destruct (crc16_is_remainder 0 [49; 50; 51; 52; 53; 54; 55; 56; 57])
    as (c & q & Hc & _ & _ & _ & HE); [lia|repeat constructor; lia|].
  assert (crc16 0 [49; 50; 51; 52; 53; 54; 55; 56; 57] 9 = Some 0xBB3D) as E by reflexivity.
  split; [exact E|]. exists q. rewrite -HE. f_equal. f_equal.
  change (length _) with 9%nat in Hc. congruence.
Defined.
