(* ===== verification/TimeMath.v ===== *)
(** * Calendar arithmetic

    Broken-down time of [lib/timemath.c], shared by the kernel's clock
    ([kernel/rtc.cc]) and the user library: seconds since the epoch to year,
    month and day and back.  [time_t] is C's [int]; an [int] expression that
    overflows has no result ([None]).  The civil calendar it is compared with
    counts the days of years and months. *)

From S2P Require Import Prelude.

(** ** The code *)

(** [struct tm] *)
Record tm := Tm {
  tm_sec : Z; tm_min : Z; tm_hour : Z; tm_mday : Z; tm_mon : Z;
  tm_year : Z; tm_wday : Z; tm_yday : Z; tm_isdst : Z }.
#[export] Instance tm_settable : Settable tm :=
  λ x, Tm (tm_sec x) (tm_min x) (tm_hour x) (tm_mday x) (tm_mon x)
          (tm_year x) (tm_wday x) (tm_yday x) (tm_isdst x).

Definition INT_MIN : Z := -2147483648.
Definition INT_MAX : Z := 2147483647.

(** The value of an [int] expression, when there is one. *)
Definition int (x : Z) : option Z :=
  if (INT_MIN <=? x) && (x <=? INT_MAX) then Some x else None.

(** Conversion of a 64-bit unsigned value to [int]. *)
Definition to_int (x : Z) : Z :=
  let y := wrap32 x in if y <=? INT_MAX then y else y - 4294967296.

(** Local time zone in seconds west of UTC. *)
Definition TZ_SECS : Z := 4 * 60 * 60.

Definition isleap (year : Z) : bool :=
  (Z.rem year 400 =? 0) && negb (Z.rem year 100 =? 0) && (Z.rem year 4 =? 0).

Definition month_offset_nonleap : list Z :=
  [0;31;59;90;120;151;181;212;243;273;304;334;365].
Definition month_offset_leap : list Z :=
  [0;31;60;91;121;152;182;213;244;274;305;335;366].

Definition month_offset (x : tm) (month : nat) : Z :=
  nth month (if isleap (tm_year x + 1900) then month_offset_leap else month_offset_nonleap) 0.

(** The loop over the months from [month] on, [n] of them left. *)
Fixpoint find_month (x : tm) (month n : nat) : tm * bool :=
  match n with
  | O => (x, false)
  | S n' =>
      if tm_yday x <? month_offset x (month + 1)
      then (x <| tm_mon := Z.of_nat month |>
              <| tm_mday := tm_yday x - month_offset x month + 1 |>, true)
      else find_month x (month + 1) n'
  end.

Definition yday_to_mon_and_mday (x : tm) : tm * bool := find_month x 0 12.

Definition get_yday (x : tm) : option Z :=
  if (tm_mon x <? 0) || (12 <=? tm_mon x) then Some (-1)
  else d ← int (tm_mday x - 1); int (month_offset x (Z.to_nat (tm_mon x)) + d).

Definition gmtime_r (timep : Z) (result : tm) : tm :=
  let x := result in
  let sec := wrap64 (timep + 11644473600) in
  let x := x <| tm_wday := to_int ((sec / 86400 + 1) mod 7) |> in
  let qcent := sec / 12622780800 in
  let sec := sec mod 12622780800 in
  let cent := sec / 3155673600 in
  let cent := if 3 <? cent then 3 else cent in
  let sec := wrap64 (sec - cent * 3155673600) in
  let quad := sec / 126230400 in
  let quad := if 24 <? quad then 24 else quad in
  let sec := wrap64 (sec - quad * 126230400) in
  let years := sec / 31536000 in
  let years := if 3 <? years then 3 else years in
  let sec := wrap64 (sec - years * 31536000) in
  let x := x <| tm_year := to_int (wrap64 (1601 - 1900 + qcent * 400 + cent * 100 + quad * 4 + years)) |> in
  let x := x <| tm_yday := to_int (sec / 86400) |> in
  let sec := sec mod 86400 in
  let x := (yday_to_mon_and_mday x).1 in
  let x := x <| tm_hour := to_int (sec / 3600) |> in
  let sec := sec mod 3600 in
  let x := x <| tm_min := to_int (sec / 60) |> in
  let sec := sec mod 60 in
  let x := x <| tm_sec := to_int sec |> in
  x <| tm_isdst := -1 |>.

Definition localtime_r (timep : Z) (result : tm) : option tm :=
  t ← int (timep - TZ_SECS); Some (gmtime_r t result).

(** The sum is taken from left to right, as the C expression is; [/] on
    [int] rounds towards zero. *)
Definition mktime (x : tm) : option (Z * tm) :=
  yday ← get_yday x;
  if yday =? -1 then Some (-1, x)
  else
    mins ← int (tm_min x * 60); res ← int (tm_sec x + mins);
    hours ← int (tm_hour x * 3600); res ← int (res + hours);
    days ← int (yday * 86400); res ← int (res + days);
    y70 ← int (tm_year x - 70); yrs ← int (y70 * 31536000); res ← int (res + yrs);
    y69 ← int (tm_year x - 69); fours ← int (Z.quot y69 4 * 86400); res ← int (res + fours);
    y1 ← int (tm_year x - 1); hundreds ← int (Z.quot y1 100 * 86400); res ← int (res - hundreds);
    y299 ← int (tm_year x + 299); fourhs ← int (Z.quot y299 400 * 86400); res ← int (res + fourhs);
    res ← int (res + TZ_SECS);
    x' ← localtime_r res x;
    Some (res, x').

(** ** The civil calendar *)

Definition leap_year (y : Z) : bool :=
  (y mod 4 =? 0) && (negb (y mod 100 =? 0) || (y mod 400 =? 0)).

(** Days from the first of January 1601 to the first of January of [y]. *)
Definition days_before_year (y : Z) : Z :=
  365 * (y - 1601) + (y - 1601) / 4 - (y - 1601) / 100 + (y - 1601) / 400.

Definition month_lengths (leap : bool) : list Z :=
  [31; if leap then 29 else 28; 31; 30; 31; 30; 31; 31; 30; 31; 30; 31].

(** Month and day, both as [struct tm] counts them, of a day of the year. *)
Fixpoint date_in (mon : Z) (lengths : list Z) (day : Z) : option (Z * Z) :=
  match lengths with
  | [] => None
  | len :: lengths' =>
      if day <? len then Some (mon, day + 1) else date_in (mon + 1) lengths' (day - len)
  end.
Definition calendar_date (leap : bool) (yday : Z) : option (Z * Z) :=
  date_in 0 (month_lengths leap) yday.

(** ** Lemmas *)

(** Linear arithmetic with quotients and remainders. *)
Ltac dlia := unfold INT_MAX, INT_MIN, ULONG_MAX in *; Z.to_euclidean_division_equations; lia.

(** The leap year test never succeeds: a multiple of 400 is one of 100. *)
Lemma isleap_false y : isleap y = false.
Proof.
  unfold isleap. destruct (Z.eqb_spec (Z.rem y 400) 0) as [H|]; [|done].
  destruct (Z.eqb_spec (Z.rem y 100) 0) as [|Hn]; [done|]. exfalso. apply Hn.
  apply Z.rem_divide; [done|]. apply Z.rem_divide in H; [|done].
  by apply (Z.divide_trans _ 400); [exists 4|].
Qed.

Lemma to_int_small x : 0 ≤ x ≤ INT_MAX → to_int x = x.
Proof.
  unfold to_int, INT_MAX. intros. rewrite wrap32_small; [lia|].
  destruct (Z.leb_spec x 2147483647); lia.
Qed.

Lemma to_int_year x : -1000 ≤ x ≤ 1000 → to_int (wrap64 x) = x.
Proof.
  unfold to_int, wrap64, wrap32, INT_MAX. intros.
  destruct (Z.lt_ge_cases x 0).
  - rewrite -(Z.mod_unique_pos x 18446744073709551616 (-1) (x + 18446744073709551616)); [lia|lia|].
    rewrite -(Z.mod_unique_pos _ 4294967296 4294967295 (x + 4294967296)); [lia|lia|].
    destruct (Z.leb_spec (x + 4294967296) 2147483647); lia.
  - rewrite !Z.mod_small; try lia. destruct (Z.leb_spec x 2147483647); lia.
Qed.

Lemma int_ok x : INT_MIN ≤ x ≤ INT_MAX → int x = Some x.
Proof.
  unfold int. intros. destruct (Z.leb_spec INT_MIN x), (Z.leb_spec x INT_MAX); done || lia.
Qed.

Lemma min_div n m k :
  0 ≤ n → 0 ≤ m → 0 < k →
  0 ≤ Z.min n (m / k) ≤ n ∧ Z.min n (m / k) * k ≤ m ∧
  (m < (Z.min n (m / k) + 1) * k ∨ Z.min n (m / k) = n).
Proof.
  intros Hn Hm Hk. pose proof (Z.div_pos m k Hm Hk).
  pose proof (Z.mul_div_le m k Hk). pose proof (Z.mul_succ_div_gt m k Hk).
  destruct (Z.min_spec n (m / k)) as [[? ->]|[? ->]]; nia.
Qed.

(** The decomposition of seconds since 1601 into cycles of 400, 100, 4 and 1
    years, with the last of each cycle one day longer. *)
Lemma split_years s q c d y r :
  0 ≤ s →
  q = s / 12622780800 →
  c = Z.min 3 (s mod 12622780800 / 3155673600) →
  d = Z.min 24 ((s mod 12622780800 - c * 3155673600) / 126230400) →
  y = Z.min 3 ((s mod 12622780800 - c * 3155673600 - d * 126230400) / 31536000) →
  r = s mod 12622780800 - c * 3155673600 - d * 126230400 - y * 31536000 →
  0 ≤ c ≤ 3 ∧ 0 ≤ d ≤ 24 ∧ 0 ≤ y ≤ 3 ∧ 0 ≤ r ∧
  s = q * 12622780800 + c * 3155673600 + d * 126230400 + y * 31536000 + r ∧
  r < 31622400 ∧ (r < 31536000 ∨ (y = 3 ∧ (d < 24 ∨ c = 3))).
Proof.
  intros Hs -> Hc Hd Hy ->. pose proof (Z.mod_pos_bound s 12622780800 eq_refl).
  pose proof (Z.div_mod s 12622780800). set (m := s mod 12622780800) in *.
  destruct (min_div 3 m 3155673600) as (? & ? & ?); [lia..|]. rewrite -Hc in H1 H2 H3.
  destruct (min_div 24 (m - c * 3155673600) 126230400) as (? & ? & ?); [lia..|].
  rewrite -Hd in H4 H5 H6.
  destruct (min_div 3 (m - c * 3155673600 - d * 126230400) 31536000) as (? & ? & ?); [lia..|].
  rewrite -Hy in H7 H8 H9. clear Hc Hd Hy. clearbody m. lia.
Qed.

Lemma split_calendar q c d y :
  0 ≤ c ≤ 3 → 0 ≤ d ≤ 24 → 0 ≤ y ≤ 3 →
  days_before_year (1601 + q * 400 + c * 100 + d * 4 + y)
  = 146097 * q + 36524 * c + 1461 * d + 365 * y ∧
  (y = 3 ∧ (d < 24 ∨ c = 3) → leap_year (1601 + q * 400 + c * 100 + d * 4 + y) = true).
Proof.
  intros Hc Hd Hy. split.
  - unfold days_before_year.
    replace (1601 + q * 400 + c * 100 + d * 4 + y - 1601) with (q * 400 + c * 100 + d * 4 + y) by lia.
    rewrite -(Z.div_unique_pos _ 4 (q * 100 + c * 25 + d) y); [lia|lia|].
    rewrite -(Z.div_unique_pos _ 100 (q * 4 + c) (d * 4 + y)); [lia|lia|].
    rewrite -(Z.div_unique_pos _ 400 q (c * 100 + d * 4 + y)); [lia|lia|]. lia.
  - intros [-> Hl]. unfold leap_year. set (Y := 1601 + q * 400 + c * 100 + d * 4 + 3).
    assert (Y mod 4 = 0) as -> by (apply Z.mod_divide; [done|]; exists (401 + q * 100 + c * 25 + d); lia).
    destruct (Z.lt_ge_cases d 24).
    + rewrite -(Z.mod_unique_pos Y 100 (16 + q * 4 + c) (4 * (d + 1))); [lia|lia|].
      destruct (Z.eqb_spec (4 * (d + 1)) 0); [lia|done].
    + assert (Y mod 400 = 0) as -> by (apply Z.mod_divide; [done|]; exists (q + 5); lia).
      by rewrite orb_true_r.
Qed.

(** What [gmtime_r] has computed when it looks for the month. *)
Definition with_day (result : tm) (wday year yday : Z) : tm :=
  result <| tm_wday := wday |> <| tm_year := year |> <| tm_yday := yday |>.
Definition with_clock (x : tm) (hour min sec : Z) : tm :=
  x <| tm_hour := hour |> <| tm_min := min |> <| tm_sec := sec |> <| tm_isdst := -1 |>.

Definition year_length (y : Z) : Z := if leap_year y then 366 else 365.

Lemma gmtime_r_split t :
  INT_MIN ≤ t ≤ INT_MAX →
  ∃ Y yday hour min sec,
    (∀ result, gmtime_r t result
    = with_clock (yday_to_mon_and_mday
        (with_day result ((days_before_year Y + yday + 1) mod 7) (Y - 1900) yday)).1 hour min sec) ∧
    t + 11644473600 = 86400 * (days_before_year Y + yday) + 3600 * hour + 60 * min + sec ∧
    0 ≤ yday < year_length Y ∧ 0 ≤ hour < 24 ∧ 0 ≤ min < 60 ∧ 0 ≤ sec < 60 ∧ 1601 ≤ Y ≤ 2100.
Proof.
  unfold INT_MIN, INT_MAX. intros Ht. unfold gmtime_r. cbv zeta.
  rewrite (wrap64_small (t + _)); [unfold ULONG_MAX; lia|]. set (s := t + 11644473600).
  assert (9496989952 ≤ s ≤ 13791957247) as Hs by lia.
  destruct (split_years s _ _ _ _ _ ltac:(lia) eq_refl eq_refl eq_refl eq_refl eq_refl)
    as (Hc & Hd & Hy & Hr & Hsum & Hlt & Hleap).
  assert (∀ a b, (if a <? b then a else b) = Z.min a b) as Hmin
    by (intros a b; destruct (Z.ltb_spec a b); lia).
  rewrite !Hmin.
  set (c := Z.min 3 (s mod 12622780800 / 3155673600)) in *.
  rewrite (wrap64_small (s mod 12622780800 - c * _)); [unfold ULONG_MAX; lia|].
  set (d := Z.min 24 ((s mod 12622780800 - c * 3155673600) / 126230400)) in *.
  rewrite (wrap64_small (_ - d * _)); [unfold ULONG_MAX; lia|].
  set (y := Z.min 3 ((s mod 12622780800 - c * 3155673600 - d * 126230400) / 31536000)) in *.
  rewrite (wrap64_small (_ - y * _)); [unfold ULONG_MAX; lia|].
  set (r := s mod 12622780800 - c * 3155673600 - d * 126230400 - y * 31536000) in *.
  set (q := s / 12622780800) in *.
  assert (0 ≤ q ≤ 1) as Hq by (unfold q; lia).
  set (Y := 1601 + q * 400 + c * 100 + d * 4 + y).
  destruct (split_calendar q c d y Hc Hd Hy) as [Hdays Hly]. fold Y in Hdays, Hly.
  clearbody q c d y r.
  assert (0 ≤ r mod 86400 < 86400 ∧ r = 86400 * (r / 86400) + r mod 86400) as [Hm Er] by dlia.
  assert (0 ≤ r / 86400 < 366) as Hyd by dlia.
  set (m := r mod 86400) in *. set (yd := r / 86400) in *. clearbody m yd.
  exists Y, yd, (m / 3600), (m mod 3600 / 60), (m mod 3600 mod 60).
  split_and!; try dlia.
  - intros result. rewrite to_int_year; [lia|]. rewrite !to_int_small; try dlia.
    unfold with_clock, with_day. do 5 f_equal.
    replace (1601 - 1900 + q * 400 + c * 100 + d * 4 + y) with (Y - 1900) by (unfold Y; lia).
    replace (days_before_year Y + yd) with (s / 86400); [done|].
    symmetry. apply (Z.div_unique_pos _ _ _ m); lia.
  - unfold year_length. destruct (leap_year Y); [lia|]. destruct Hleap as [?|H]; [lia|].
    specialize (Hly H). done.
Qed.

(** A property of the days of a year, day by day. *)
Lemma all_days (P : Z → bool) n :
  forallb (λ i, P (Z.of_nat i)) (seq 0 n) = true → ∀ d, 0 ≤ d < Z.of_nat n → P d = true.
Proof.
  intros H d Hd. rewrite forallb_forall in H. rewrite -(Z2Nat.id d); [lia|].
  apply H, in_seq. lia.
Qed.

(** The search for the month depends on the day of the year only. *)
Fixpoint month_day (yday : Z) (month n : nat) : option (Z * Z) :=
  match n with
  | O => None
  | S n' =>
      if yday <? nth (month + 1) month_offset_nonleap 0
      then Some (Z.of_nat month, yday - nth month month_offset_nonleap 0 + 1)
      else month_day yday (month + 1) n'
  end.

Lemma find_month_day x month n :
  find_month x month n
  = match month_day (tm_yday x) month n with
    | Some (m, d) => (x <| tm_mon := m |> <| tm_mday := d |>, true)
    | None => (x, false)
    end.
Proof.
  revert month. induction n as [|n IH]; intros month; [done|]. cbn [find_month month_day].
  unfold month_offset. rewrite isleap_false. by destruct (tm_yday x <? _).
Qed.

Definition day_ok (y : Z) : bool :=
  bool_decide (month_day y 0 12 = calendar_date false y) &&
  bool_decide (calendar_date true (if y <? 59 then y else y + 1) = calendar_date false y) &&
  match month_day y 0 12 with
  | Some (m, d) => (0 <=? m) && (m <? 12) && (1 <=? d) && (d <=? 31) &&
      (nth (Z.to_nat m) month_offset_nonleap 0 + (d - 1) =? y)
  | None => false
  end.

Lemma month_day_calendar yday :
  0 ≤ yday < 365 →
  month_day yday 0 12 = calendar_date false yday ∧
  calendar_date true (if yday <? 59 then yday else yday + 1) = calendar_date false yday ∧
  ∃ m d, month_day yday 0 12 = Some (m, d) ∧ 0 ≤ m < 12 ∧ 1 ≤ d ≤ 31 ∧
    nth (Z.to_nat m) month_offset_nonleap 0 + (d - 1) = yday.
Proof.
  intros Hd.
  assert (day_ok yday = true) as H.
  { apply (all_days day_ok 365); [vm_compute; reflexivity|exact Hd]. }
  apply andb_prop in H as [[H1 H2]%andb_prop H3].
  split; [exact (bool_decide_eq_true_1 _ H1)|]. split; [exact (bool_decide_eq_true_1 _ H2)|].
  destruct (month_day yday 0 12) as [[m d]|]; [|done]. exists m, d. split; [done|]. lia.
Qed.

Lemma month_day_none yday : 365 ≤ yday → month_day yday 0 12 = None.
Proof.
  intros H. cbn [month_day]. simpl nth.
  by repeat match goal with |- context [?x <? ?y] => destruct (Z.ltb_spec x y); [lia|] end.
Qed.

(** Year, day of the year and time of day of a [struct tm], as seconds since
    1601 in the civil calendar. *)
Definition calendar_seconds (x : tm) : Z :=
  86400 * (days_before_year (tm_year x + 1900) + tm_yday x)
  + 3600 * tm_hour x + 60 * tm_min x + tm_sec x.

Definition tm_date (x : tm) : option (Z * Z) := Some (tm_mon x, tm_mday x).

(** What [gmtime_r] computes, for every 32-bit time: the year, the day of
    the year and the time of day are those of the civil calendar, and the day
    of the week too.  Month and day are those of the civil calendar in common
    years; in leap years they are from the 29th of February on those of the
    following day, and on the last day of the year the fields keep what they
    held before the call. *)
Theorem gmtime_r_calendar (t : Z) (result : tm) :
  INT_MIN ≤ t ≤ INT_MAX →
  let r := gmtime_r t result in
  let leap := leap_year (tm_year r + 1900) in
  calendar_seconds r = t + 11644473600 ∧
  0 ≤ tm_yday r < year_length (tm_year r + 1900) ∧
  0 ≤ tm_hour r < 24 ∧ 0 ≤ tm_min r < 60 ∧ 0 ≤ tm_sec r < 60 ∧
  tm_wday r = (days_before_year (tm_year r + 1900) + tm_yday r + 1) mod 7 ∧
  (leap = false → tm_date r = calendar_date false (tm_yday r)) ∧
  (leap = true →
     (tm_yday r < 59 → tm_date r = calendar_date true (tm_yday r)) ∧
     (59 ≤ tm_yday r < 365 → tm_date r = calendar_date true (tm_yday r + 1)) ∧
     (tm_yday r = 365 → tm_date r = tm_date result)).
Proof.
  intros Ht. destruct (gmtime_r_split t Ht)
    as (Y & yday & h & m & s & HE & Hsum & Hyd & Hh & Hm & Hs & _).
  cbv zeta. rewrite HE. unfold yday_to_mon_and_mday. rewrite find_month_day.
  change (tm_yday (with_day _ _ _ yday)) with yday.
  destruct (Z.lt_ge_cases yday 365) as [Hlt|Hge].
  - destruct (month_day_calendar yday) as (H1 & H2 & mm & dd & H3 & _); [lia|].
    rewrite H3. cbn -[days_before_year leap_year year_length calendar_date].
    unfold calendar_seconds. cbn -[days_before_year leap_year year_length calendar_date].
    replace (Y - 1900 + 1900) with Y by lia. split_and!; try (lia || done).
    + intros _. unfold tm_date. cbn -[calendar_date]. congruence.
    + intros _. destruct (Z.ltb_spec yday 59); unfold tm_date; cbn -[calendar_date];
        split_and!; intros; try lia; congruence.
  - rewrite month_day_none; [lia|]. cbn -[days_before_year leap_year year_length calendar_date].
    unfold calendar_seconds. cbn -[days_before_year leap_year year_length calendar_date].
    replace (Y - 1900 + 1900) with Y by lia. split_and!; try (lia || done).
    + intros Hl. unfold year_length in Hyd. rewrite Hl in Hyd. lia.
    + intros _. split_and!; intros; (lia || done).
Qed.

(** The sum of [mktime] for a day after the epoch, in terms of the calendar. *)
Lemma mktime_sum Y :
  1970 ≤ Y ≤ 2100 →
  86400 * days_before_year Y - 11644473600
  = (Y - 1970) * 31536000 + (Z.quot (Y - 1969) 4) * 86400 - (Z.quot (Y - 1901) 100) * 86400
    + (Z.quot (Y - 1601) 400) * 86400.
Proof.
  intros HY. rewrite !Z.quot_div_nonneg; try lia. unfold days_before_year.
  set (k := Y - 1601).
  replace (Y - 1969) with (k + (-92) * 4) by lia. replace (Y - 1901) with (k + (-3) * 100) by lia.
  rewrite !Z.div_add //. lia.
Qed.

Lemma epoch_years u Y yday rest :
  0 ≤ u ≤ INT_MAX → u + 11644473600 = 86400 * (days_before_year Y + yday) + rest →
  0 ≤ rest < 86400 → 0 ≤ yday < 365 → 1601 ≤ Y ≤ 2100 → 1970 ≤ Y ≤ 2038.
Proof.
  unfold days_before_year. intros Hu HE Hr Hyd HY.
  assert (134774 ≤ 365 * (Y - 1601) + (Y - 1601) / 4 - (Y - 1601) / 100 + (Y - 1601) / 400 + yday
    ≤ 159629) as H by dlia. clear - H Hyd HY. split.
  - destruct (Z.le_gt_cases 1970 Y); [done|]. exfalso. dlia.
  - destruct (Z.le_gt_cases Y 2038); [done|]. exfalso. dlia.
Qed.

(** The result of [gmtime_r] before the last day of a leap year, spelt out. *)
Lemma gmtime_r_fields t :
  0 ≤ t ≤ INT_MAX →
  ∃ Y yday mon mday hour min sec wday,
    (∀ result, gmtime_r t result =
       if yday <? 365 then Tm sec min hour mday mon (Y - 1900) wday yday (-1)
       else Tm sec min hour (tm_mday result) (tm_mon result) (Y - 1900) wday yday (-1)) ∧
    0 ≤ yday ∧ 0 ≤ mon < 12 ∧ 1 ≤ mday ≤ 31 ∧ 0 ≤ hour < 24 ∧ 0 ≤ min < 60 ∧ 0 ≤ sec < 60 ∧
    (yday < 365 → nth (Z.to_nat mon) month_offset_nonleap 0 + (mday - 1) = yday ∧
       1970 ≤ Y ≤ 2038 ∧
       t = 86400 * days_before_year Y - 11644473600 + 86400 * yday + 3600 * hour + 60 * min + sec).
Proof.
  intros Ht. destruct (gmtime_r_split t) as (Y & yday & h & m & s & HE & Hsum & Hyd & Hh & Hm & Hs & HY);
    [dlia|].
  destruct (Z.ltb_spec yday 365) as [Hlt|Hge].
  - destruct (month_day_calendar yday) as (_ & _ & mm & dd & H3 & ? & ? & Hoff); [lia|].
    exists Y, yday, mm, dd, h, m, s, ((days_before_year Y + yday + 1) mod 7).
    split_and!; try lia.
    + intros result. rewrite HE. unfold yday_to_mon_and_mday. rewrite find_month_day.
      change (tm_yday (with_day _ _ _ yday)) with yday. rewrite H3.
      destruct (Z.ltb_spec yday 365); [reflexivity|lia].
    + intros _. split; [done|]. split; [|lia].
      apply (epoch_years t Y yday (3600 * h + 60 * m + s)); lia.
  - exists Y, yday, 0, 1, h, m, s, ((days_before_year Y + yday + 1) mod 7).
    split_and!; try lia.
    intros result. rewrite HE. unfold yday_to_mon_and_mday. rewrite find_month_day.
    change (tm_yday (with_day _ _ _ yday)) with yday. rewrite month_day_none //.
    destruct (Z.ltb_spec yday 365); [lia|reflexivity].
Qed.

Lemma int_bind {A} x (f : Z → option A) : INT_MIN ≤ x ≤ INT_MAX → (int x ≫= f) = f x.
Proof. intros H. by rewrite int_ok. Qed.

(** The corrections for leap years of [mktime] between the epoch and 2038. *)
Lemma leap_terms Y :
  1970 ≤ Y ≤ 2038 →
  0 ≤ Z.quot (Y - 1901) 100 ≤ Z.quot (Y - 1969) 4 ∧ Z.quot (Y - 1969) 4 ≤ 17 ∧
  Z.quot (Y - 1901) 100 = Z.quot (Y - 1601) 400 ∧ Z.quot (Y - 1901) 100 ≤ 1.
Proof. intros HY. rewrite !Z.quot_div_nonneg; try lia. dlia. Qed.

(** C40: broken-down local time and back: [mktime] of what [localtime_r] gives
    for a time after the epoch returns that time, without overflow, and leaves
    the broken-down time as it is, except on the last day of a leap year. *)
Theorem mktime_localtime_r (t : Z) (result x : tm) :
  TZ_SECS ≤ t ≤ INT_MAX →
  localtime_r t result = Some x →
  tm_yday x < 365 →
  mktime x = Some (t, x).
Proof.
  unfold localtime_r. intros Ht Hx Hyd. unfold TZ_SECS in *. change (4 * 60 * 60) with 14400 in *.
  rewrite int_ok in Hx; [dlia|]. injection Hx as <-.
  destruct (gmtime_r_fields (t - 14400)) as
    (Y & yday & mon & mday & h & m & s & wd & HE & H0 & Hmon & Hmday & Hh & Hm & Hs & Hl); [dlia|].
  rewrite HE in Hyd |- *. destruct (Z.ltb_spec yday 365) as [Hlt|Hge]; [|simpl in Hyd; lia].
  destruct (Hl Hlt) as (Hoff & HY & Hsum). rewrite mktime_sum in Hsum; [lia|].
  unfold mktime, get_yday, TZ_SECS. change (4 * 60 * 60) with 14400. cbn [tm_sec tm_min tm_hour tm_mday tm_mon tm_year tm_wday tm_yday tm_isdst].
  destruct (Z.ltb_spec mon 0), (Z.leb_spec 12 mon); try lia. cbn [orb].
  unfold month_offset. rewrite isleap_false int_bind; [dlia|].
  rewrite Hoff int_bind; [dlia|]. destruct (Z.eqb_spec yday (-1)); [lia|].
  replace (Y - 1900 - 70) with (Y - 1970) by lia. replace (Y - 1900 - 69) with (Y - 1969) by lia.
  replace (Y - 1900 - 1) with (Y - 1901) by lia. replace (Y - 1900 + 299) with (Y - 1601) by lia.
  destruct (leap_terms Y HY) as (? & ? & ? & ?).
  unfold INT_MIN, INT_MAX in *.
  do 6 (rewrite int_bind; [unfold INT_MIN, INT_MAX; lia|]).
  do 6 (rewrite int_bind; [unfold INT_MIN, INT_MAX; lia|]).
  do 7 (rewrite int_bind; [unfold INT_MIN, INT_MAX; lia|]).
  match goal with |- context [localtime_r ?res _] => replace res with t by lia end.
  unfold localtime_r, TZ_SECS. change (4 * 60 * 60) with 14400.
  rewrite int_bind; [dlia|]. rewrite HE. destruct (Z.ltb_spec yday 365); [done|lia].
Qed.

(** ** Concrete times *)

Definition epoch_tm : tm := Tm 0 0 0 1 0 70 4 0 0.

(** The 29th of February 2024 is reported as the first of March. *)
Lemma gmtime_r_calendar_witness :
  INT_MIN ≤ 1709164800 ≤ INT_MAX ∧
  tm_date (gmtime_r 1709164800 epoch_tm) = calendar_date true 60 ∧
  calendar_date true 59 = Some (1, 29) ∧ calendar_date true 60 = Some (2, 1).
Proof.
  assert (INT_MIN ≤ 1709164800 ≤ INT_MAX) as H by (unfold INT_MIN, INT_MAX; lia).
  split; [exact H|]. split; [|split; reflexivity].
  destruct (gmtime_r_calendar 1709164800 epoch_tm H) as (_ & _ & _ & _ & _ & _ & _ & Hleap).
  destruct Hleap as (_ & Hd & _); [vm_compute; reflexivity|]. apply Hd. vm_compute. split; [discriminate|reflexivity].
Defined.

Lemma mktime_localtime_r_witness :
  localtime_r 1700000000 epoch_tm = Some (Tm 20 13 18 14 10 123 2 317 (-1)) ∧
  mktime (Tm 20 13 18 14 10 123 2 317 (-1)) = Some (1700000000, Tm 20 13 18 14 10 123 2 317 (-1)).
Proof.
  assert (localtime_r 1700000000 epoch_tm = Some (Tm 20 13 18 14 10 123 2 317 (-1))) as H
    by (vm_compute; reflexivity).
  split; [exact H|]. apply (mktime_localtime_r 1700000000 epoch_tm); [unfold TZ_SECS, INT_MAX; lia|exact H|].
  simpl. lia.
Defined.

(** Midnight of the first of March 2024, as the clock of the kernel asks for
    it, is given the time of the day before. *)
Example mktime_after_leap_day :
  option_map fst (mktime (Tm 0 0 0 1 2 124 0 0 0)) = Some (1709164800 + TZ_SECS) ∧
  86400 * (days_before_year 2024 + 60) - 11644473600 = 1709164800 + 86400.
Proof. split; vm_compute; reflexivity. Qed.
