(* ===== verification/CString.v ===== *)
(** * Strings and memory blocks

    The byte and string routines of [lib/string.c] and the character classes
    of [lib/ctype.c].  Memory maps addresses to bytes; an access to an address
    that is not mapped is a fault.  Loops that run up to a terminating zero
    take a bound. *)

From S2P Require Import Prelude.

Definition mem : Type := gmap Z Z.

(** ** Accesses *)

Definition ldb (p : Z) : prog mem Z :=
  act (λ m, match m !! p with Some b => Next b m | None => Crash end).
Definition stb (p b : Z) : prog mem unit :=
  act (λ m, match m !! p with
            | Some _ => Next () (<[p := b mod 256]> m) | None => Crash end).

(** A value of the signed type [char]. *)
Definition schar (b : Z) : Z := if b <? 128 then b else b - 256.

(** A unit of [w] bytes is read as a whole before it is written. *)
Fixpoint ldn (w : nat) (p : Z) : prog mem (list Z) :=
  match w with
  | O => mret []
  | S w' => b ← ldb p; l ← ldn w' (p + 1); mret (b :: l)
  end.
Fixpoint stn (p : Z) (l : list Z) : prog mem unit :=
  match l with
  | [] => mret ()
  | b :: l' => stb p b;; stn (p + 1) l'
  end.

(** [rep stosb] and [rep movs]: [step] is negative when the direction flag is
    set. *)
Fixpoint rep_stosb (p data : Z) (cnt : nat) : prog mem unit :=
  match cnt with
  | O => mret ()
  | S cnt' => stb p data;; rep_stosb (p + 1) data cnt'
  end.
Fixpoint rep_movs (w : nat) (step d s : Z) (cnt : nat) : prog mem unit :=
  match cnt with
  | O => mret ()
  | S cnt' => l ← ldn w s; stn d l;; rep_movs w step (d + step) (s + step) cnt'
  end.

(** ** Character classes *)

Definition isupper (c : Z) : Z := of_bool ((65 <=? c) && (c <=? 90)).
Definition islower (c : Z) : Z := of_bool ((97 <=? c) && (c <=? 122)).
Definition isdigit (c : Z) : Z := of_bool ((48 <=? c) && (c <=? 57)).
Definition isalpha (c : Z) : Z := of_bool (truth (isupper c) || truth (islower c)).
Definition isalnum (c : Z) : Z := of_bool (truth (isalpha c) || truth (isdigit c)).
Definition tolower (c : Z) : Z := if truth (isupper c) then c + 97 - 65 else c.
Definition toupper (c : Z) : Z := if truth (islower c) then c + 65 - 97 else c.

(** ** Blocks of memory *)

Definition memset (dst c n : Z) : prog mem Z :=
  rep_stosb dst c (Z.to_nat n);; mret dst.

Fixpoint memcmp_loop (p1 p2 : Z) (n : nat) : prog mem Z :=
  match n with
  | O => mret 0
  | S n' =>
      a ← ldb p1; b ← ldb p2;
      if negb (a =? b) then mret (a - b) else memcmp_loop (p1 + 1) (p2 + 1) n'
  end.
Definition memcmp (s1 s2 n : Z) : prog mem Z := memcmp_loop s1 s2 (Z.to_nat n).

Definition memmove (dst src n : Z) : prog mem Z :=
  let s := src in
  let d := dst in
  (if (s <? d) && (d <? s + n)
   then
     let s := s + n in
     let d := d + n in
     if (s mod 4 =? 0) && (d mod 4 =? 0) && (n mod 4 =? 0)
     then rep_movs 4 (-4) (d - 4) (s - 4) (Z.to_nat (n / 4))
     else rep_movs 1 (-1) (d - 1) (s - 1) (Z.to_nat n)
   else
     if (s mod 4 =? 0) && (d mod 4 =? 0) && (n mod 4 =? 0)
     then rep_movs 4 4 d s (Z.to_nat (n / 4))
     else rep_movs 1 1 d s (Z.to_nat n));;
  mret dst.

Definition memcpy (dst src n : Z) : prog mem Z := memmove dst src n.
Definition mempcpy (dst src n : Z) : prog mem Z := r ← memmove dst src n; mret (r + n).

Fixpoint memchr_loop (s c : Z) (n : nat) : prog mem Z :=
  match n with
  | O => mret NULL
  | S n' => b ← ldb s; if b =? c then mret s else memchr_loop (s + 1) c n'
  end.
Definition memchr (s c n : Z) : prog mem Z := memchr_loop s c (Z.to_nat n).

(** ** Strings *)

Definition index (fuel : nat) (s c : Z) : prog mem Z :=
  loop fuel (λ p, b ← ldb p;
    if b =? c then mret (inr p) else if b =? 0 then mret (inr NULL) else mret (inl (p + 1))) s.

Fixpoint strncmp_loop (p q : Z) (n : nat) : prog mem Z :=
  match n with
  | O => mret 0
  | S n' =>
      a ← ldb p;
      if a =? 0 then b ← ldb q; mret (a - b)
      else b ← ldb q; if a =? b then strncmp_loop (p + 1) (q + 1) n' else mret (a - b)
  end.
Definition strncmp (p q n : Z) : prog mem Z := strncmp_loop p q (Z.to_nat n).

(** [while (n > 0 && ( *s++ = *t++) != 0) n--;]: the pointer and the count
    left. *)
Fixpoint strncpy_loop (s t : Z) (n : nat) : prog mem (Z * nat) :=
  match n with
  | O => mret (s, O)
  | S n' =>
      c ← ldb t; stb s c;;
      if negb (c =? 0) then strncpy_loop (s + 1) (t + 1) n' else mret (s + 1, n)
  end.
Definition strncpy (s t n : Z) : prog mem Z :=
  r ← strncpy_loop s t (Z.to_nat n);
  when (0 <? Z.of_nat r.2) (stb r.1 0);;
  mret s.

(** [while (--n > 0 && ( *s++ = *t++) != 0);] with [n] already decremented. *)
Fixpoint safestrcpy_loop (s t : Z) (n : nat) : prog mem Z :=
  match n with
  | O => mret s
  | S n' =>
      c ← ldb t; stb s c;;
      if negb (c =? 0) then safestrcpy_loop (s + 1) (t + 1) n' else mret (s + 1)
  end.
Definition safestrcpy (s t n : Z) : prog mem Z :=
  if n <=? 0 then mret s
  else p ← safestrcpy_loop s t (Z.to_nat (n - 1)); stb p 0;; mret s.

Definition strcpy (fuel : nat) (s t : Z) : prog mem Z :=
  loop fuel (λ st : Z * Z, c ← ldb st.2; stb st.1 c;;
    if negb (c =? 0) then mret (inl (st.1 + 1, st.2 + 1)) else mret (inr ())) (s, t);;
  mret s.

Definition strchr (fuel : nat) (s c : Z) : prog mem Z :=
  loop fuel (λ p, b ← ldb p;
    if b =? 0 then mret (inr NULL)
    else if schar b =? c then mret (inr p) else mret (inl (p + 1))) s.

Definition strrchr (fuel : nat) (s c : Z) : prog mem Z :=
  loop fuel (λ sp : Z * Z, b ← ldb sp.1;
    if b =? 0 then mret (inr sp.2)
    else mret (inl (sp.1 + 1, if schar b =? c then sp.1 else sp.2))) (s, NULL).

Definition strlen (fuel : nat) (s : Z) : prog mem Z :=
  loop fuel (λ n, b ← ldb (s + n);
    if negb (b =? 0) then mret (inl (n + 1)) else mret (inr n)) 0.

Definition strcmp (fuel : nat) (p q : Z) : prog mem Z :=
  loop fuel (λ pq : Z * Z, a ← ldb pq.1;
    if a =? 0 then b ← ldb pq.2; mret (inr (a - b))
    else b ← ldb pq.2;
      if a =? b then mret (inl (pq.1 + 1, pq.2 + 1)) else mret (inr (a - b))) (p, q).

(** The inner loop of [strstr]: the two pointers where it stops. *)
Definition strstr_match (fuel : nat) (p1 p2 : Z) : prog mem (Z * Z) :=
  loop fuel (λ pp : Z * Z, a ← ldb pp.1;
    if a =? 0 then mret (inr pp)
    else b ← ldb pp.2;
      if b =? 0 then mret (inr pp)
      else if a =? b then mret (inl (pp.1 + 1, pp.2 + 1)) else mret (inr pp)) (p1, p2).
Definition strstr (fuel : nat) (str needle : Z) : prog mem Z :=
  b ← ldb needle;
  if b =? 0 then mret str
  else loop fuel (λ p1, a ← ldb p1;
    if a =? 0 then mret (inr NULL)
    else
      pp ← strstr_match fuel p1 needle;
      b ← ldb pp.2;
      if b =? 0 then mret (inr p1) else mret (inl (p1 + 1))) str.

Definition strcasecmp (fuel : nat) (p q : Z) : prog mem Z :=
  loop fuel (λ pq : Z * Z, a ← ldb pq.1;
    if a =? 0 then b ← ldb pq.2; mret (inr (tolower a - tolower b))
    else b ← ldb pq.2;
      if tolower a =? tolower b then mret (inl (pq.1 + 1, pq.2 + 1))
      else mret (inr (tolower a - tolower b))) (p, q).

(** ** Running accesses *)

(** Every mapped address holds a byte. *)
Definition mem_ok (m : mem) : Prop := ∀ a b, m !! a = Some b → 0 ≤ b < 256.

(** [w] bytes at [p] are mapped. *)
Definition mapped (m : mem) (p w : Z) : Prop := ∀ a, p ≤ a < p + w → is_Some (m !! a).

(** [w] bytes at [s] of the memory before are at [d] afterwards, and nothing
    else has changed. *)
Definition copied (d s w : Z) (m m' : mem) : Prop :=
  ∀ a, m' !! a = if decide (d ≤ a < d + w) then m !! (s + (a - d)) else m !! a.

Lemma run_ldb m p b : m !! p = Some b → run (ldb p) m = Done b m.
Proof. intros H. unfold ldb. by rewrite run_act H. Qed.

Lemma run_stb m p b :
  is_Some (m !! p) → run (stb p b) m = Done () (<[p := b mod 256]> m).
Proof. intros [x H]. unfold stb. by rewrite run_act H. Qed.

Lemma run_ldn w m p :
  mapped m p (Z.of_nat w) →
  ∃ l, run (ldn w p) m = Done l m ∧ length l = w ∧
    ∀ i, (i < w)%nat → m !! (p + Z.of_nat i) = l !! i.
Proof.
  revert p. induction w as [|w IH]; intros p Hm.
  { exists []. split_and!; [done|done|lia]. }
  destruct (Hm p) as [b Hb]; [lia|].
  destruct (IH (p + 1)) as (l & Hr & Hl & Hlk). { intros a Ha. apply Hm. lia. }
  exists (b :: l). cbn [ldn]. rewrite (run_bind_done _ _ _ _ _ (run_ldb _ _ _ Hb)).
  rewrite (run_bind_done _ _ _ _ _ Hr) run_ret. split_and!; [done|by simpl; f_equal|].
  intros [|i] Hi; [by rewrite Z.add_0_r|]. simpl. rewrite -Hlk; [lia|]. f_equal. lia.
Qed.

Lemma run_stn l m p :
  mapped m p (Z.of_nat (length l)) → Forall (λ b, 0 ≤ b < 256) l →
  ∃ m', run (stn p l) m = Done () m' ∧
    ∀ a, m' !! a = if decide (p ≤ a < p + Z.of_nat (length l)) then l !! Z.to_nat (a - p) else m !! a.
Proof.
  revert p m. induction l as [|b l IH]; intros p m Hm Hb.
  { exists m. split; [done|]. intros a. simpl. case_decide; [lia|done]. }
  apply Forall_cons in Hb as [Hb Hl]. cbn [stn]. simpl in Hm.
  erewrite run_bind_done; [|apply run_stb, Hm; lia]. rewrite Z.mod_small //.
  destruct (IH (p + 1) (<[p := b]> m)) as (m' & Hr & Hlk); [|done|].
  { intros a Ha. rewrite lookup_insert_ne; [lia|]. apply Hm. lia. }
  exists m'. split; [done|]. intros a. rewrite Hlk. simpl length.
  destruct (decide (a = p)) as [->|Hne].
  - destruct (decide (p + 1 ≤ p < _)); [lia|]. rewrite lookup_insert_eq. case_decide; [|lia].
    by rewrite Z.sub_diag.
  - rewrite lookup_insert_ne //. repeat case_decide; try lia; [|done].
    replace (Z.to_nat (a - p)) with (S (Z.to_nat (a - (p + 1)))) by lia. done.
Qed.

Lemma copied_mapped d s w m m' p k :
  copied d s w m m' → mapped m s w → mapped m p k → mapped m' p k.
Proof.
  intros Hc Hs Hp a Ha. rewrite Hc. case_decide; [apply Hs; lia|by apply Hp].
Qed.

Lemma copied_ok d s w m m' : copied d s w m m' → mem_ok m → mem_ok m'.
Proof. intros Hc Hm a b. rewrite Hc. case_decide; apply Hm. Qed.

(** One unit of a string instruction. *)
Lemma run_unit w m d s :
  mem_ok m → mapped m s (Z.of_nat w) → mapped m d (Z.of_nat w) →
  ∃ m', run (l ← ldn w s; stn d l) m = Done () m' ∧ copied d s (Z.of_nat w) m m'.
Proof.
  intros Hok Hs Hd. destruct (run_ldn w m s Hs) as (l & Hr & Hlen & Hlk).
  rewrite (run_bind_done _ _ _ _ _ Hr). destruct (run_stn l m d) as (m' & Hr' & Hlk').
  { by rewrite Hlen. }
  { apply Forall_lookup. intros i x Hx. apply (Hok (s + Z.of_nat i)). rewrite Hlk; [|exact Hx].
    rewrite -Hlen. by eapply lookup_lt_Some. }
  exists m'. split; [done|]. intros a. rewrite Hlk' Hlen. case_decide; [|done].
  rewrite -Hlk; [lia|]. f_equal. lia.
Qed.

Lemma run_rep_movs_S w step d s n m m1 :
  run (l ← ldn w s; stn d l) m = Done () m1 →
  run (rep_movs w step d s (S n)) m = run (rep_movs w step (d + step) (s + step) n) m1.
Proof.
  cbn [rep_movs]. intros H. apply run_bind_inv in H as (l & m2 & H1 & H2).
  rewrite (run_bind_done _ _ _ _ _ H1). by rewrite (run_bind_done _ _ _ _ _ H2).
Qed.

(** Forward copying, when the destination is not inside of the source. *)
Lemma run_rep_movs_up w n m d s :
  mem_ok m → mapped m s (Z.of_nat w * Z.of_nat n) → mapped m d (Z.of_nat w * Z.of_nat n) →
  (d ≤ s ∨ s + Z.of_nat w * Z.of_nat n ≤ d) →
  ∃ m', run (rep_movs w (Z.of_nat w) d s n) m = Done () m' ∧
    copied d s (Z.of_nat w * Z.of_nat n) m m'.
Proof.
  revert m d s. induction n as [|n IH]; intros m d s Hok Hs Hd Hdir.
  { exists m. split; [done|]. intros a. case_decide; [lia|done]. }
  destruct (run_unit w m d s) as (m1 & Hr & Hc); [done|intros a Ha; apply Hs; nia|intros a Ha; apply Hd; nia|].
  assert (mapped m s (Z.of_nat w)) as Hs' by (intros a Ha; apply Hs; nia).
  rewrite (run_rep_movs_S _ _ _ _ _ _ _ Hr).
  destruct (IH m1 (d + Z.of_nat w) (s + Z.of_nat w)) as (m' & Hr' & Hc').
  - by eapply copied_ok.
  - eapply copied_mapped; [done..|]. intros a Ha. apply Hs. nia.
  - eapply copied_mapped; [done..|]. intros a Ha. apply Hd. nia.
  - nia.
  - exists m'. split; [done|]. intros a. rewrite Hc'.
    destruct (decide (d + Z.of_nat w ≤ a < _)).
    + rewrite Hc. rewrite decide_False; [nia|]. rewrite decide_True; [nia|]. f_equal. lia.
    + rewrite Hc. repeat case_decide; done || nia.
Qed.

(** Backward copying, when the destination is behind the source. *)
Lemma run_rep_movs_down w n m d s :
  mem_ok m → mapped m s (Z.of_nat w * Z.of_nat n) → mapped m d (Z.of_nat w * Z.of_nat n) →
  s ≤ d →
  ∃ m', run (rep_movs w (- Z.of_nat w) (d + Z.of_nat w * Z.of_nat n - Z.of_nat w)
               (s + Z.of_nat w * Z.of_nat n - Z.of_nat w) n) m = Done () m' ∧
    copied d s (Z.of_nat w * Z.of_nat n) m m'.
Proof.
  revert m. induction n as [|n IH]; intros m Hok Hs Hd Hdir.
  { exists m. split; [done|]. intros a. case_decide; [lia|done]. }
  set (d1 := d + Z.of_nat w * Z.of_nat (S n) - Z.of_nat w).
  set (s1 := s + Z.of_nat w * Z.of_nat (S n) - Z.of_nat w).
  assert (mapped m s1 (Z.of_nat w)) as Hs' by (intros a Ha; apply Hs; nia).
  destruct (run_unit w m d1 s1) as (m1 & Hr & Hc); [done|done|intros a Ha; apply Hd; nia|].
  rewrite (run_rep_movs_S _ _ _ _ _ _ _ Hr).
  replace (d1 + - Z.of_nat w) with (d + Z.of_nat w * Z.of_nat n - Z.of_nat w) by nia.
  replace (s1 + - Z.of_nat w) with (s + Z.of_nat w * Z.of_nat n - Z.of_nat w) by nia.
  destruct (IH m1) as (m' & Hr' & Hc'); [by eapply copied_ok| | |done|].
  - eapply copied_mapped; [done..|]. intros a Ha. apply Hs. nia.
  - eapply copied_mapped; [done..|]. intros a Ha. apply Hd. nia.
  - exists m'. split; [done|]. intros a. rewrite Hc'.
    destruct (decide (d ≤ a < d + Z.of_nat w * Z.of_nat n)).
    + rewrite Hc. rewrite decide_False; [nia|]. rewrite decide_True; [nia|done].
    + rewrite Hc. repeat case_decide; try nia; [f_equal; nia|done].
Qed.

(** [memmove] copies as if through a buffer of its own: whatever the
    overlap of source and destination, and whether or not the copy is done in
    words, the destination holds what the source held before and all other
    bytes are unchanged. *)
Theorem memmove_copies (m : mem) (dst src n : Z) :
  mem_ok m → 0 ≤ n → mapped m src n → mapped m dst n →
  ∃ m', run (memmove dst src n) m = Done dst m' ∧ copied dst src n m m'.
Proof.
  intros Hok Hn Hs Hd.
  assert (∀ p : prog mem unit, (∃ m', run p m = Done () m' ∧ copied dst src n m m') →
    ∃ m', run (p;; mret dst) m = Done dst m' ∧ copied dst src n m m') as Hfin.
  { intros p (m' & Hr & Hc). exists m'. by rewrite (run_bind_done _ _ _ _ _ Hr). }
  apply Hfin. clear Hfin.
  assert (∀ w, Z.of_nat w * Z.of_nat (Z.to_nat (n / Z.of_nat w)) = n → (0 < w)%nat →
    src < dst → ∃ m', run (rep_movs w (- Z.of_nat w) (dst + n - Z.of_nat w) (src + n - Z.of_nat w)
      (Z.to_nat (n / Z.of_nat w))) m = Done () m' ∧ copied dst src n m m') as Hdown.
  { intros w Hw H0 Hlt. pose proof (run_rep_movs_down w (Z.to_nat (n / Z.of_nat w)) m dst src) as H.
    rewrite Hw in H. apply H; auto. lia. }
  assert (∀ w, Z.of_nat w * Z.of_nat (Z.to_nat (n / Z.of_nat w)) = n → (0 < w)%nat →
    dst ≤ src ∨ src + n ≤ dst → ∃ m', run (rep_movs w (Z.of_nat w) dst src
      (Z.to_nat (n / Z.of_nat w))) m = Done () m' ∧ copied dst src n m m') as Hup.
  { intros w Hw H0 Hlt. pose proof (run_rep_movs_up w (Z.to_nat (n / Z.of_nat w)) m dst src) as H.
    rewrite Hw in H. by apply H. }
  assert (Z.of_nat 1 * Z.of_nat (Z.to_nat (n / Z.of_nat 1)) = n) as H1.
  { change (Z.of_nat 1) with 1. rewrite Z.div_1_r. lia. }
  assert (n mod 4 = 0 → Z.of_nat 4 * Z.of_nat (Z.to_nat (n / Z.of_nat 4)) = n) as H4.
  { intros E. change (Z.of_nat 4) with 4. pose proof (Z.div_mod n 4).
    pose proof (Z.div_pos n 4). lia. }
  replace (Z.to_nat n) with (Z.to_nat (n / Z.of_nat 1)) by (by rewrite Z.div_1_r).
  destruct (Z.ltb_spec src dst), (Z.ltb_spec dst (src + n)); cbn [andb]; cbv zeta;
    (destruct (_ && _ && (n mod 4 =? 0)) eqn:E;
      [apply andb_prop in E as [_ E%Z.eqb_eq]|]).
  all: first [apply (Hdown 4%nat); [auto|lia..] | apply (Hdown 1%nat); [auto|lia..]
    | apply (Hup 4%nat); [auto|lia..] | apply (Hup 1%nat); [auto|lia..]].
Qed.

(** ** Copying strings *)

(** [l] is written at [p] and nothing else changes. *)
Definition stored (p : Z) (l : list Z) (m m' : mem) : Prop :=
  ∀ a, m' !! a = if decide (p ≤ a < p + Z.of_nat (length l)) then l !! Z.to_nat (a - p) else m !! a.

(** The bytes [l] are at [p]. *)
Definition bytes_at (m : mem) (p : Z) (l : list Z) : Prop :=
  ∀ i b, l !! i = Some b → m !! (p + Z.of_nat i) = Some b.

(** A string: bytes other than zero, and a zero. *)
Definition cstr (m : mem) (p : Z) (l : list Z) : Prop :=
  bytes_at m p (l ++ [0]) ∧ Forall (λ b, 0 < b < 256) l.

Lemma bytes_at_cons m p b l :
  bytes_at m p (b :: l) ↔ m !! p = Some b ∧ bytes_at m (p + 1) l.
Proof.
  split.
  - intros H. split.
    + rewrite -(Z.add_0_r p). by apply (H O).
    + intros i x Hx. replace (p + 1 + Z.of_nat i) with (p + Z.of_nat (S i)) by lia. by apply H.
  - intros [H1 H2] [|i] x Hx.
    + rewrite Z.add_0_r. by injection Hx as <-.
    + replace (p + Z.of_nat (S i)) with (p + 1 + Z.of_nat i) by lia. by apply H2.
Qed.

Lemma cstr_cons m p b l : cstr m p (b :: l) ↔ m !! p = Some b ∧ 0 < b < 256 ∧ cstr m (p + 1) l.
Proof.
  unfold cstr. rewrite Forall_cons. change ((b :: l) ++ [0]) with (b :: (l ++ [0])).
  rewrite bytes_at_cons. tauto.
Qed.
Lemma cstr_nil m p : cstr m p [] ↔ m !! p = Some 0.
Proof.
  unfold cstr. simpl. rewrite bytes_at_cons. split; [tauto|]. intros. split_and!; auto.
  intros i x Hx. done.
Qed.

Lemma stored_cons p b l m m' : stored (p + 1) l (<[p := b]> m) m' → stored p (b :: l) m m'.
Proof.
  intros H a. rewrite H. simpl length. destruct (decide (a = p)) as [->|Hne].
  - destruct (decide (p + 1 ≤ p < _)); [lia|]. rewrite lookup_insert_eq. case_decide; [|lia].
    by rewrite Z.sub_diag.
  - rewrite lookup_insert_ne //. repeat case_decide; try lia; [|done].
    by replace (Z.to_nat (a - p)) with (S (Z.to_nat (a - (p + 1)))) by lia.
Qed.

(** Two ranges of addresses have none in common. *)
Definition apart (p n q k : Z) : Prop := p + n ≤ q ∨ q + k ≤ p.

Lemma cstr_insert m p l q b :
  (q < p ∨ p + Z.of_nat (length l) < q) → cstr m p l → cstr (<[q := b]> m) p l.
Proof.
  intros Hq [H1 H2]. split; [|done]. intros i x Hx. rewrite lookup_insert_ne; [|by apply H1].
  apply lookup_lt_Some in Hx. rewrite length_app in Hx. simpl in Hx. lia.
Qed.

(** What the copying loops write, and where they stop. *)
Lemma run_strncpy_loop n m s t l :
  cstr m t l → mapped m s (Z.of_nat n) →
  apart s (Z.of_nat n) t (Z.of_nat (length l) + 1) →
  let w := take n (l ++ [0]) in
  ∃ m', run (strncpy_loop s t n) m
        = Done (s + Z.of_nat (length w), if decide (n ≤ length l)%nat then O else (n - length l)%nat) m' ∧
    stored s w m m'.
Proof.
  revert m s t l. induction n as [|n IH]; intros m s t l Ht Hs Hap; cbv zeta.
  { exists m. rewrite /= Z.add_0_r. split; [done|]. intros a. case_decide; [simpl in *; lia|done]. }
  cbn [strncpy_loop]. destruct l as [|b l].
  - apply cstr_nil in Ht. rewrite (run_bind_done _ _ _ _ _ (run_ldb _ _ _ Ht)).
    erewrite run_bind_done; [|apply run_stb, Hs; lia].
    exists (<[s := 0]> m). simpl. rewrite take_nil. simpl. split; [done|].
    apply stored_cons. intros a. simpl. case_decide; [lia|done].
  - apply cstr_cons in Ht as (Hb & Hrange & Ht).
    rewrite (run_bind_done _ _ _ _ _ (run_ldb _ _ _ Hb)).
    erewrite run_bind_done; [|apply run_stb, Hs; lia]. rewrite Z.mod_small; [lia|].
    destruct (Z.eqb_spec b 0); [lia|]. simpl negb. cbv iota. simpl length in Hap.
    unfold apart in Hap.
    destruct (IH (<[s := b]> m) (s + 1) (t + 1) l) as (m' & Hr & Hst).
    + apply cstr_insert; [lia|done].
    + intros a Ha. rewrite lookup_insert_ne; [lia|]. apply Hs. lia.
    + unfold apart. lia.
    + exists m'. rewrite Hr. simpl. split; [|by apply stored_cons].
      do 2 f_equal; [lia|]. repeat case_decide; lia || done.
Qed.

Lemma run_safestrcpy_loop n m s t r m' :
  run (strncpy_loop s t n) m = Done r m' → run (safestrcpy_loop s t n) m = Done r.1 m'.
Proof.
  revert m s t. induction n as [|n IH]; intros m s t H; [by injection H as <- <-|].
  cbn [strncpy_loop safestrcpy_loop] in *.
  apply run_bind_inv in H as (c & m1 & H1 & H). rewrite (run_bind_done _ _ _ _ _ H1).
  apply run_bind_inv in H as (u & m2 & H2 & H). rewrite (run_bind_done _ _ _ _ _ H2).
  destruct (negb (c =? 0)); [by apply IH|]. by injection H as <- <-.
Qed.

Lemma stored_bytes p l m m' : stored p l m m' → bytes_at m' p l.
Proof.
  intros H i b Hb. rewrite H. pose proof (lookup_lt_Some _ _ _ Hb).
  case_decide; [|lia]. rewrite -Hb. f_equal. lia.
Qed.

Lemma take_snoc_0 n (l : list Z) :
  take n (l ++ [0]) = if decide (n ≤ length l)%nat then take n l else l ++ [0].
Proof.
  case_decide; [by rewrite take_app_le|]. apply take_ge. rewrite length_app. simpl. lia.
Qed.

(** [safestrcpy] keeps within its buffer: for a buffer of [n > 0] bytes
    and a source string of any length it writes to no other byte, and leaves
    in the buffer the string of the first [n - 1] bytes of the source at most,
    with its terminating zero. *)
Theorem safestrcpy_fits (m : mem) (s t n : Z) (l : list Z) :
  cstr m t l → 0 < n → mapped m s n → apart s n t (Z.of_nat (length l) + 1) →
  ∃ m', run (safestrcpy s t n) m = Done s m' ∧
    cstr m' s (take (Z.to_nat (n - 1)) l) ∧
    ∀ a, ¬ (s ≤ a < s + n) → m' !! a = m !! a.
Proof.
  intros Ht Hn Hs Hap. unfold safestrcpy. destruct (Z.leb_spec n 0); [lia|].
  destruct (run_strncpy_loop (Z.to_nat (n - 1)) m s t l Ht) as (m1 & Hr & Hst).
  { intros a Ha. apply Hs. lia. }
  { unfold apart in *. lia. }
  rewrite (run_bind_done _ _ _ _ _ (run_safestrcpy_loop _ _ _ _ _ _ Hr)). simpl fst. clear Hr.
  pose proof (length_take (l ++ [0]) (Z.to_nat (n - 1))) as Hlen.
  pose proof (take_snoc_0 (Z.to_nat (n - 1)) l) as Ew.
  set (w := take (Z.to_nat (n - 1)) (l ++ [0])) in *. clearbody w.
  erewrite run_bind_done; [|apply run_stb].
  2:{ rewrite Hst. destruct (decide (s ≤ _ < _)); [lia|]. apply Hs. lia. }
  eexists. split; [reflexivity|]. split.
  - split; [|apply Forall_take, Ht]. intros i b Hi.
    pose proof (stored_bytes _ _ _ _ Hst) as Hw. case_decide; subst w.
    + rewrite length_take_le in Hlen |- *; [lia..|]. rewrite lookup_app in Hi.
      destruct (take (Z.to_nat (n - 1)) l !! i) as [x|] eqn:E.
      * injection Hi as ->. pose proof (lookup_lt_Some _ _ _ E) as Hlt. rewrite length_take in Hlt.
        rewrite lookup_insert_ne; [lia|]. by apply Hw.
      * apply lookup_ge_None in E. rewrite length_take_le in E Hi; [lia..|].
        destruct (i - Z.to_nat (n - 1))%nat eqn:Ei; [|done]. injection Hi as <-.
        replace i with (Z.to_nat (n - 1)) by lia. by rewrite lookup_insert_eq.
    + rewrite take_ge in Hi; [lia|]. rewrite lookup_insert_ne; [|by apply Hw].
      apply lookup_lt_Some in Hi. lia.
  - intros a Ha. rewrite lookup_insert_ne; [lia|]. rewrite Hst. destruct (decide (s ≤ a < _)); [lia|done].
Qed.

(** [strncpy] writes past its buffer: when the source has exactly
    [n - 1] bytes, the zero is copied into the last byte of the buffer of [n]
    bytes and a second one is written to the byte behind it, which is a fault
    when that byte is not mapped. *)
Theorem strncpy_overruns (m : mem) (s t n : Z) (l : list Z) :
  cstr m t l → Z.of_nat (length l) = n - 1 → mapped m s n → apart s n t n →
  (is_Some (m !! (s + n)) →
     ∃ m', run (strncpy s t n) m = Done s m' ∧ bytes_at m' s (l ++ [0]) ∧ m' !! (s + n) = Some 0) ∧
  (m !! (s + n) = None → run (strncpy s t n) m = Fault).
Proof.
  intros Ht Hlen Hs Hap. unfold strncpy.
  destruct (run_strncpy_loop (Z.to_nat n) m s t l Ht) as (m1 & Hr & Hst).
  { intros a Ha. apply Hs. lia. }
  { unfold apart in *. lia. }
  rewrite take_snoc_0 in Hr Hst. destruct (decide (Z.to_nat n ≤ length l)%nat); [lia|].
  assert (s + Z.of_nat (length (l ++ [0])) = s + n) as E by (rewrite length_app /=; lia).
  rewrite E in Hr. rewrite (run_bind_done _ _ _ _ _ Hr). simpl fst. simpl snd.
  destruct (Z.ltb_spec 0 (Z.of_nat (Z.to_nat n - length l))); [|lia]. unfold when.
  assert (m1 !! (s + n) = m !! (s + n)) as Hn by (rewrite Hst; case_decide; [lia|done]).
  split.
  - intros Hsome. erewrite run_bind_done; [|apply run_stb; by rewrite Hn].
    eexists. split; [reflexivity|]. split; [|by rewrite lookup_insert_eq].
    intros i b Hi. pose proof (lookup_lt_Some _ _ _ Hi). rewrite lookup_insert_ne; [lia|].
    by apply (stored_bytes _ _ _ _ Hst).
  - intros Hnone. rewrite run_bind /stb run_act Hn Hnone. done.
Qed.

(** ** Searching *)

Lemma run_strstr_match fuel m p q l k :
  cstr m p l → cstr m q k → (length l < fuel)%nat →
  ∃ p' q' b, run (strstr_match fuel p q) m = Done (p', q') m ∧ m !! q' = Some b ∧
    (b = 0 ↔ k `prefix_of` l).
Proof.
  unfold strstr_match. revert fuel p q k. induction l as [|a l IH]; intros [|fuel] p q k Hp Hq Hf;
    simpl in Hf; try lia.
  - apply cstr_nil in Hp. destruct k as [|b k].
    + apply cstr_nil in Hq. exists p, q, 0. split_and!; [|done|].
      * apply run_loop_exit. by rewrite (run_bind_done _ _ _ _ _ (run_ldb _ _ _ Hp)).
      * split; [|done]. intros _. apply prefix_nil.
    + apply cstr_cons in Hq as (Hb & Hrange & Hq). exists p, q, b. split_and!; [|done|].
      * apply run_loop_exit. by rewrite (run_bind_done _ _ _ _ _ (run_ldb _ _ _ Hp)).
      * split; [lia|]. intros H. by apply prefix_nil_not in H.
  - apply cstr_cons in Hp as (Ha & Hrange & Hp). destruct k as [|b k].
    + apply cstr_nil in Hq. exists p, q, 0. split_and!; [|done|].
      * apply run_loop_exit. simpl fst. simpl snd.
        rewrite (run_bind_done _ _ _ _ _ (run_ldb _ _ _ Ha)). destruct (Z.eqb_spec a 0); [lia|].
        by rewrite (run_bind_done _ _ _ _ _ (run_ldb _ _ _ Hq)).
      * split; [|done]. intros _. apply prefix_nil.
    + apply cstr_cons in Hq as (Hb & Hrange' & Hq). destruct (decide (a = b)) as [->|Hne].
      * destruct (IH fuel (p + 1) (q + 1) k Hp Hq) as (p' & q' & c & Hr & Hc & Hiff); [lia|].
        exists p', q', c. split_and!; [|done|].
        { rewrite -Hr. apply run_loop_again. simpl fst. simpl snd.
          rewrite (run_bind_done _ _ _ _ _ (run_ldb _ _ _ Ha)). destruct (Z.eqb_spec b 0); [lia|].
          rewrite (run_bind_done _ _ _ _ _ (run_ldb _ _ _ Hb)). destruct (Z.eqb_spec b 0); [lia|].
          by rewrite Z.eqb_refl. }
        { rewrite Hiff. split; [apply prefix_cons|]. apply prefix_cons_inv_2. }
      * exists p, q, b. split_and!; [|done|].
        { apply run_loop_exit. simpl fst. simpl snd.
          rewrite (run_bind_done _ _ _ _ _ (run_ldb _ _ _ Ha)). destruct (Z.eqb_spec a 0); [lia|].
          rewrite (run_bind_done _ _ _ _ _ (run_ldb _ _ _ Hb)). destruct (Z.eqb_spec b 0); [lia|].
          by destruct (Z.eqb_spec a b). }
        { split; [lia|]. intros H%prefix_cons_inv_1. by subst. }
Qed.

(** Position [i] of [l] is the first one where [k] begins. *)
Definition first_match (k l : list Z) (i : nat) : Prop :=
  k `prefix_of` drop i l ∧ ∀ j, (j < i)%nat → ¬ k `prefix_of` drop j l.

Lemma first_match_cons a l k i :
  ¬ k `prefix_of` a :: l → first_match k l i → first_match k (a :: l) (S i).
Proof.
  intros Hn [H1 H2]. split; [done|]. intros [|j] Hj; [done|]. apply H2. lia.
Qed.

Lemma run_strstr_loop fuel' fuel m p q l k :
  cstr m p l → cstr m q k → k ≠ [] → (length l < fuel)%nat → (length l < fuel')%nat →
  let r := run (loop fuel (λ p1, a ← ldb p1;
    if a =? 0 then mret (inr NULL)
    else
      pp ← strstr_match fuel' p1 q;
      b ← ldb pp.2;
      if b =? 0 then mret (inr p1) else mret (inl (p1 + 1))) p) m in
  (∃ i, first_match k l i ∧ r = Done (p + Z.of_nat i) m) ∨
  ((∀ j, ¬ k `prefix_of` drop j l) ∧ r = Done NULL m).
Proof.
  intros Hp Hq Hk. revert fuel p Hp. induction l as [|a l IH]; intros [|fuel] p Hp Hf Hf';
    simpl in Hf; try lia; cbv zeta.
  - right. split.
    + intros j. rewrite drop_nil. destruct k; [done|]. by apply prefix_nil_not.
    + apply run_loop_exit. apply cstr_nil in Hp.
      by rewrite (run_bind_done _ _ _ _ _ (run_ldb _ _ _ Hp)).
  - destruct (run_strstr_match fuel' m p q (a :: l) k Hp Hq Hf') as (p' & q' & b & Hr & Hb & Hiff).
    apply cstr_cons in Hp as (Ha & Hrange & Hp). simpl in Hf'.
    destruct (decide (b = 0)) as [->|Hb0].
    + left. exists O. split; [split; [by apply Hiff|lia]|]. rewrite Z.add_0_r.
      apply run_loop_exit. rewrite (run_bind_done _ _ _ _ _ (run_ldb _ _ _ Ha)).
      destruct (Z.eqb_spec a 0); [lia|]. rewrite (run_bind_done _ _ _ _ _ Hr).
      by rewrite (run_bind_done _ _ _ _ _ (run_ldb _ _ _ Hb)).
    + assert (¬ k `prefix_of` a :: l) as Hn by naive_solver.
      erewrite run_loop_again.
      2:{ rewrite (run_bind_done _ _ _ _ _ (run_ldb _ _ _ Ha)).
          destruct (Z.eqb_spec a 0); [lia|]. rewrite (run_bind_done _ _ _ _ _ Hr).
          rewrite (run_bind_done _ _ _ _ _ (run_ldb _ _ _ Hb)).
          destruct (Z.eqb_spec b 0); [lia|]. apply run_ret. }
      destruct (IH fuel (p + 1) Hp) as [(i & Hi & ->)|[Hall ->]]; [lia|lia| |].
      * left. exists (S i). split; [by apply first_match_cons|]. f_equal. lia.
      * right. split; [|done]. intros [|j]; [done|]. apply Hall.
Qed.

(** [strstr] finds the first occurrence: for terminated strings and a
    bound greater than the length of the searched one it ends, without
    changing memory, with a pointer to the first position where the needle
    begins, or with [NULL] when there is none. *)
Theorem strstr_first (m : mem) (fuel : nat) (str needle : Z) (l k : list Z) :
  cstr m str l → cstr m needle k → (length l < fuel)%nat →
  (∃ i, first_match k l i ∧ run (strstr fuel str needle) m = Done (str + Z.of_nat i) m) ∨
  ((∀ j, ¬ k `prefix_of` drop j l) ∧ run (strstr fuel str needle) m = Done NULL m).
Proof.
  intros Hl Hk Hf. unfold strstr. destruct k as [|b k].
  - apply cstr_nil in Hk. left. exists O. split; [split; [apply prefix_nil|lia]|].
    by rewrite (run_bind_done _ _ _ _ _ (run_ldb _ _ _ Hk)) Z.add_0_r.
  - pose proof Hk as (Hb & Hrange & _)%cstr_cons.
    rewrite (run_bind_done _ _ _ _ _ (run_ldb _ _ _ Hb)). destruct (Z.eqb_spec b 0); [lia|].
    by apply run_strstr_loop.
Qed.

(** ** A concrete memory *)

(** 64 bytes that hold two strings, the bytes after them all 7. *)
Definition text : list Z :=
  [97; 98; 97; 98; 99; 0; 7; 7; 97; 98; 99; 0] ++ replicate 20 7.
Definition text_mem : mem := list_to_map (imap (λ i b, (1000 + Z.of_nat i, b)) text).

Lemma text_mem_ok : mem_ok text_mem.
Proof.
  assert (map_Forall (λ _ b, 0 ≤ b < 256) text_mem) as H by (apply (bool_decide_unpack _); vm_compute; exact I).
  exact H.
Qed.

Lemma text_mapped p n : 1000 ≤ p → p + n ≤ 1032 → mapped text_mem p n.
Proof.
  intros Hp Hn a Ha.
  assert (forallb (λ i, bool_decide (is_Some (text_mem !! (1000 + Z.of_nat i)))) (seq 0 32) = true) as H
    by (vm_compute; reflexivity).
  rewrite forallb_forall in H. specialize (H (Z.to_nat (a - 1000))).
  replace (1000 + Z.of_nat (Z.to_nat (a - 1000))) with a in H by lia.
  assert (In (Z.to_nat (a - 1000)) (seq 0 32)) as Hin by (apply in_seq; lia).
  specialize (H Hin). by apply bool_decide_eq_true_1 in H.
Qed.

Definition cstr_check (m : mem) (p : Z) (l : list Z) : bool :=
  forallb (λ i, bool_decide (m !! (p + Z.of_nat i) = (l ++ [0]) !! i)) (seq 0 (S (length l))) &&
  forallb (λ b, (0 <? b) && (b <? 256)) l.

Lemma cstr_check_ok m p l : cstr_check m p l = true → cstr m p l.
Proof.
  intros [H1 H2]%andb_prop. split.
  - intros i b Hb. rewrite forallb_forall in H1. pose proof (lookup_lt_Some _ _ _ Hb) as Hi.
    rewrite length_app in Hi. simpl in Hi. rewrite -Hb.
    assert (In i (seq 0 (S (length l)))) as Hin by (apply in_seq; lia).
    specialize (H1 i Hin). by apply bool_decide_eq_true_1 in H1.
  - apply Forall_forall. intros b Hb%list_elem_of_In. rewrite forallb_forall in H2.
    specialize (H2 b Hb). lia.
Qed.

(** An overlapping copy to the right, in words and in bytes. *)
Lemma memmove_copies_witness :
  (∃ m', run (memmove 1004 1000 8) text_mem = Done 1004 m' ∧ copied 1004 1000 8 text_mem m') ∧
  (∃ m', run (memmove 1003 1000 9) text_mem = Done 1003 m' ∧ copied 1003 1000 9 text_mem m').
Proof.
  split; (apply memmove_copies; [exact text_mem_ok|lia|apply text_mapped; lia..]).
Defined.

Lemma safestrcpy_fits_witness :
  ∃ m', run (safestrcpy 1016 1000 3) text_mem = Done 1016 m' ∧ cstr m' 1016 [97; 98].
Proof.
  destruct (safestrcpy_fits text_mem 1016 1000 3 [97; 98; 97; 98; 99]) as (m' & H1 & H2 & _).
  - apply cstr_check_ok. vm_compute. reflexivity.
  - lia.
  - apply text_mapped; lia.
  - unfold apart. simpl. lia.
  - exists m'. split; [exact H1|exact H2].
Defined.

(** A buffer of six bytes takes a string of five, and the byte behind it is
    lost. *)
Lemma strncpy_overruns_witness :
  text_mem !! 1022 = Some 7 ∧
  ∃ m', run (strncpy 1016 1000 6) text_mem = Done 1016 m' ∧ m' !! 1022 = Some 0.
Proof.
  split; [vm_compute; reflexivity|].
  destruct (strncpy_overruns text_mem 1016 1000 6 [97; 98; 97; 98; 99]) as [H _].
  - apply cstr_check_ok. vm_compute. reflexivity.
  - reflexivity.
  - apply text_mapped; lia.
  - unfold apart. lia.
  - destruct H as (m' & H1 & _ & H2); [apply (text_mapped 1022 1); lia|].
    exists m'. split; [exact H1|exact H2].
Defined.

Lemma strstr_first_witness :
  run (strstr 6 1000 1008) text_mem = Done 1002 text_mem ∧
  (∃ i, first_match [97; 98; 99] [97; 98; 97; 98; 99] i ∧
     run (strstr 6 1000 1008) text_mem = Done (1000 + Z.of_nat i) text_mem).
Proof.
  assert (run (strstr 6 1000 1008) text_mem = Done 1002 text_mem) as E by (vm_compute; reflexivity).
  split; [exact E|].
  destruct (strstr_first text_mem 6 1000 1008 [97; 98; 97; 98; 99] [97; 98; 99]) as [H|[_ H]].
  - apply cstr_check_ok. vm_compute. reflexivity.
  - apply cstr_check_ok. vm_compute. reflexivity.
  - simpl. lia.
  - exact H.
  - rewrite H in E. discriminate E.
Defined.
