(* ===== verification/Ilist.v ===== *)
(** * Intrusive lists

    The intrusive containers of [libutil/include/ilist.hh]: singly linked
    lists, singly linked queues with a tail pointer, and doubly linked lists.
    An element is the address of its link; the head of a list is a link too,
    at the address [container_from_member] makes of it.  The operations are
    compared with operations on sequences of elements. *)

From S2P Require Import Prelude.

(** ** Walks along links

    [walk f a l]: following [f] from [a] visits [l]. *)

Fixpoint walk (f : Z → option Z) (a : Z) (l : list Z) : Prop :=
  match l with
  | [] => True
  | b :: l' => f a = Some b ∧ walk f b l'
  end.

(** The last element visited. *)
Definition end_of (a : Z) (l : list Z) : Z := List.last l a.

Lemma end_of_cons a b l : end_of a (b :: l) = end_of b l.
Proof.
  unfold end_of. revert a b. induction l as [|c l IH]; intros a b; [done|].
  change (List.last (b :: c :: l) a) with (List.last (c :: l) a). by rewrite !IH.
Qed.

Lemma end_of_snoc a l b : end_of a (l ++ [b]) = b.
Proof. apply last_last. Qed.

Lemma end_of_app a l1 l2 : end_of a (l1 ++ l2) = end_of (end_of a l1) l2.
Proof.
  revert a. induction l1 as [|b l1 IH]; intros a; [done|]. simpl app. rewrite !end_of_cons. apply IH.
Qed.

Lemma end_of_in a l : end_of a l ∈ a :: l.
Proof.
  revert a. induction l as [|b l IH]; intros a; [apply list_elem_of_here|].
  rewrite end_of_cons. right. apply IH.
Qed.

Lemma walk_app f a l1 l2 : walk f a (l1 ++ l2) ↔ walk f a l1 ∧ walk f (end_of a l1) l2.
Proof.
  revert a. induction l1 as [|b l1 IH]; intros a; [unfold end_of; simpl; tauto|].
  rewrite end_of_cons. simpl. rewrite IH. tauto.
Qed.

(** Only the links of the elements before the last one matter. *)
Lemma walk_frame f g a l :
  (∀ x, x ∈ removelast (a :: l) → f x = g x) → walk f a l → walk g a l.
Proof.
  revert a. induction l as [|b l IH]; intros a H; [done|]. intros [H1 H2].
  change (removelast (a :: b :: l)) with (a :: removelast (b :: l)) in H. split.
  - rewrite -H1. symmetry. apply H, list_elem_of_here.
  - apply IH; [|done]. intros x Hx. apply H. by right.
Qed.

Lemma removelast_in (l : list Z) x : x ∈ removelast l → x ∈ l.
Proof.
  induction l as [|a [|b l] IH]; simpl; [done|intros []%elem_of_nil|].
  intros [->|H]%elem_of_cons; [left|]. right. by apply IH.
Qed.

Lemma removelast_nodup a l x : NoDup (a :: l) → x ∈ removelast (a :: l) → x ≠ end_of a l.
Proof.
  revert a. induction l as [|b l IH]; intros a Hnd; [intros []%elem_of_nil|].
  apply NoDup_cons in Hnd as [Ha Hnd]. rewrite end_of_cons.
  change (removelast (a :: b :: l)) with (a :: removelast (b :: l)).
  intros [->|H]%elem_of_cons; [|by apply IH].
  intros ->. apply Ha, end_of_in.
Qed.

(** An element is put between two others. *)
Lemma walk_insert f g a l1 q l2 x :
  NoDup (a :: l1) → x ∉ a :: l1 → x ∉ removelast (q :: l2) → end_of a l1 ∉ removelast (q :: l2) →
  (∀ y, y ≠ x → y ≠ end_of a l1 → g y = f y) →
  g (end_of a l1) = Some x → g x = Some q →
  walk f a (l1 ++ q :: l2) → walk g a (l1 ++ x :: q :: l2).
Proof.
  intros Hnd Hx1 Hx2 Hp Hfr Hg1 Hg2 [H1 [H2 H3]]%walk_app. apply walk_app. split; [|cbn [walk]; split_and!; [done|done|]].
  - eapply walk_frame; [|exact H1]. intros y Hy. symmetry. apply Hfr.
    + intros ->. by apply Hx1, removelast_in.
    + by apply removelast_nodup.
  - eapply walk_frame; [|exact H3]. intros y Hy. symmetry. apply Hfr; intros ->; contradiction.
Qed.

(** A stretch of elements is taken out. *)
Lemma walk_erase f g a l1 mid q l2 :
  NoDup (a :: l1) → end_of a l1 ∉ removelast (q :: l2) →
  (∀ y, y ≠ end_of a l1 → g y = f y) → g (end_of a l1) = Some q →
  walk f a (l1 ++ mid ++ q :: l2) → walk g a (l1 ++ q :: l2).
Proof.
  intros Hnd Hp Hfr Hg [H1 [H2 [H3 H4]]%walk_app]%walk_app.
  apply walk_app. split; [|split; [done|]].
  - eapply walk_frame; [|exact H1]. intros y Hy. symmetry. apply Hfr. by apply removelast_nodup.
  - eapply walk_frame; [|exact H4]. intros y Hy. symmetry. apply Hfr. intros ->. contradiction.
Qed.

Lemma snoc_form (l : list Z) d :
  ∃ r, l ++ [d] = hd d l :: r ∧ removelast (hd d l :: r) = l.
Proof.
  destruct l as [|y l]; [by exists []|]. exists (l ++ [d]). split; [done|].
  change (hd d (y :: l) :: l ++ [d]) with ((y :: l) ++ [d]). apply removelast_last.
Qed.

(** ** Singly linked lists and queues *)

Module Islist.

(** [next] of every link, and [last] of every queue. *)
Record slinks := SLinks { next : gmap Z Z; last : gmap Z Z }.
#[export] Instance slinks_settable : Settable slinks := λ x, SLinks (next x) (last x).

Definition get_next (p : Z) : prog slinks Z :=
  act (λ m, match next m !! p with Some n => Next n m | None => Crash end).
Definition set_next (p n : Z) : prog slinks unit :=
  act (λ m, match next m !! p with
            | Some _ => Next () (m <| next ::= <[p := n]> |>) | None => Crash end).
Definition get_last (q : Z) : prog slinks Z :=
  act (λ m, match last m !! q with Some n => Next n m | None => Crash end).
Definition set_last (q n : Z) : prog slinks unit :=
  act (λ m, match last m !! q with
            | Some _ => Next () (m <| last ::= <[q := n]> |>) | None => Crash end).

(** [islist], its head at [h]. *)

Definition islist_before_begin (h : Z) : Z := h.
Definition islist_begin (h : Z) : prog slinks Z := get_next h.
Definition islist_empty (h : Z) : prog slinks bool := n ← get_next h; mret (n =? NULL).
Definition islist_front (h : Z) : prog slinks Z := get_next h.
Definition islist_push_front (h x : Z) : prog slinks unit :=
  n ← get_next h; set_next x n;; set_next h x.
Definition islist_pop_front (h : Z) : prog slinks unit :=
  n ← get_next h; n' ← get_next n; set_next h n'.
Definition islist_insert_after (pos x : Z) : prog slinks Z :=
  n ← get_next pos; set_next x n;; set_next pos x;; get_next pos.
Definition islist_erase_after (pos : Z) : prog slinks Z :=
  n ← get_next pos; n' ← get_next n; set_next pos n';; get_next pos.
Definition islist_erase_after_range (pos last : Z) : prog slinks Z :=
  set_next pos last;; mret last.
Definition islist_clear (h : Z) : prog slinks unit := set_next h NULL.

(** Splicing looks for the last element of [x] to attach the rest of this list
    to it. *)
Definition islist_splice_after (fuel : nat) (pos x : Z) : prog slinks unit :=
  n ← get_next pos;
  when (truth n)
    (xit ← islist_begin x;
     loop fuel (λ xit,
       if xit =? NULL then mret (inr ())
       else n ← get_next xit;
         if n =? NULL then n' ← get_next pos; set_next xit n';; mret (inr ())
         else mret (inl n)) xit);;
  first ← get_next x; set_next pos first;; set_next x NULL.

(** The list that is returned has its head at [nl]. *)
Definition islist_cut_after (pos nl : Z) : prog slinks unit :=
  nfirst ← get_next pos; set_next pos NULL;; set_next nl nfirst.

(** Move assignment from the list at [o]. *)
Definition islist_assign (h o : Z) : prog slinks unit :=
  n ← get_next o; set_next h n;; set_next o NULL.

(** [isqueue]: the same with a pointer to the last element. *)

Definition q_before_end (q : Z) : prog slinks Z :=
  e ← islist_empty q; if e : bool then mret (islist_before_begin q) else get_last q.
Definition q_back (q : Z) : prog slinks Z := get_last q.
Definition q_push_front (q x : Z) : prog slinks unit :=
  e ← islist_empty q; when e (set_last q x);; islist_push_front q x.
Definition q_insert_after (q pos x : Z) : prog slinks Z :=
  n ← get_next pos; when (negb (truth n)) (set_last q x);; islist_insert_after pos x.
Definition q_push_back (q x : Z) : prog slinks unit :=
  pos ← q_before_end q; q_insert_after q pos x;; mret ().
Definition q_pop_front (q : Z) : prog slinks unit :=
  islist_pop_front q;; e ← islist_empty q; when e (set_last q NULL).
Definition q_erase_after (q pos : Z) : prog slinks Z :=
  it ← islist_erase_after pos;
  e ← islist_empty q;
  (if e : bool then set_last q NULL
   else n ← get_next pos; when (negb (truth n)) (set_last q pos));;
  mret it.

(** The parameter [last] hides the member of the same name: the assignments at
    the end of the function are to the parameter. *)
Definition q_erase_after_range (q pos last : Z) : prog slinks Z :=
  it ← islist_erase_after_range pos last;
  e ← islist_empty q;
  _ ← (if e : bool then mret NULL
       else n ← get_next pos; mret (if truth n then last else pos));
  mret it.
Definition q_clear (q : Z) : prog slinks unit := islist_clear q;; set_last q NULL.
Definition q_cut_after (q pos nq : Z) : prog slinks unit :=
  set_next nq NULL;; set_last nq NULL;;
  l ← get_last q; set_last nq l;;
  islist_cut_after pos nq;;
  e ← islist_empty q;
  if e : bool then set_last q NULL else set_last q pos.
Definition q_assign (q o : Z) : prog slinks unit :=
  n ← get_next o; set_next q n;; l ← get_last o; set_last q l;;
  set_next o NULL;; set_last o NULL.

(** *** Queues as sequences *)

Definition nxt (m : slinks) (a : Z) : option Z := next m !! a.

(** The list with its head at [h] holds the elements [l]. *)
Definition slist (m : slinks) (h : Z) (l : list Z) : Prop :=
  NoDup (h :: l) ∧ NULL ∉ h :: l ∧ walk (nxt m) h (l ++ [NULL]).

Definition last_of (l : list Z) : Z := end_of NULL l.

Definition squeue (m : slinks) (q : Z) (l : list Z) : Prop :=
  slist m q l ∧ last m !! q = Some (last_of l).

Lemma run_get_next m p n : nxt m p = Some n → run (get_next p) m = Done n m.
Proof. intros H. unfold get_next. by rewrite run_act -/(nxt m p) H. Qed.
Lemma run_set_next m p n :
  is_Some (nxt m p) → run (set_next p n) m = Done () (m <| next ::= <[p := n]> |>).
Proof. intros [x H]. unfold set_next. by rewrite run_act -/(nxt m p) H. Qed.
Lemma run_get_last m p n : last m !! p = Some n → run (get_last p) m = Done n m.
Proof. intros H. unfold get_last. by rewrite run_act H. Qed.
Lemma run_set_last m p n :
  is_Some (last m !! p) → run (set_last p n) m = Done () (m <| last ::= <[p := n]> |>).
Proof. intros [x H]. unfold set_last. by rewrite run_act H. Qed.

Lemma nxt_set m p n a :
  nxt (m <| next ::= <[p := n]> |>) a = if decide (a = p) then Some n else nxt m a.
Proof.
  unfold nxt. cbn. case_decide; [subst; apply lookup_insert_eq|by apply lookup_insert_ne].
Qed.

(** The link of an element, and what it points to. *)
Lemma slist_next m h l1 l2 :
  slist m h (l1 ++ l2) → nxt m (end_of h l1) = Some (hd NULL l2).
Proof.
  intros (_ & _ & H). rewrite -app_assoc in H. apply walk_app in H as [_ H].
  destruct l2; [apply H|apply H].
Qed.

Lemma slist_parts m h l1 l2 :
  slist m h (l1 ++ l2) →
  NoDup (h :: l1) ∧ end_of h l1 ∉ l2 ∧ end_of h l1 ≠ NULL ∧ NULL ∉ l2.
Proof.
  intros (Hnd & Hnull & _). rewrite app_comm_cons in Hnd, Hnull.
  apply NoDup_app in Hnd as (Hnd & Hd & _). pose proof (end_of_in h l1) as He.
  split_and!; [done|by apply Hd| |]; [|intros ?; apply Hnull, elem_of_app; by right].
  intros E. apply Hnull, elem_of_app. left. by rewrite -E.
Qed.

(** [insert_after] at any position. *)
Lemma run_insert_after m h l1 l2 x :
  slist m h (l1 ++ l2) → x ∉ h :: l1 ++ l2 → x ≠ NULL → is_Some (nxt m x) →
  ∃ m', run (islist_insert_after (end_of h l1) x) m = Done x m' ∧
    slist m' h (l1 ++ x :: l2) ∧ last m' = last m ∧
    ∀ a, a ≠ x → a ≠ end_of h l1 → nxt m' a = nxt m a.
Proof.
  intros Hl Hx Hx0 Hsx. pose proof (slist_next _ _ _ _ Hl) as Hn.
  pose proof (slist_parts _ _ _ _ Hl) as (Hnd & Hd & He0 & Hnull).
  assert (x ≠ end_of h l1) as Hne.
  { intros ->. apply Hx. rewrite app_comm_cons elem_of_app. left. apply end_of_in. }
  unfold islist_insert_after. rewrite (run_bind_done _ _ _ _ _ (run_get_next _ _ _ Hn)).
  rewrite (run_bind_done _ _ _ _ _ (run_set_next _ _ _ Hsx)).
  erewrite run_bind_done; [|apply run_set_next]. 2:{ rewrite nxt_set. case_decide; [done|]. by rewrite Hn. }
  set (m' := _ <| next ::= _ |>). exists m'.
  assert (∀ a, nxt m' a = if decide (a = end_of h l1) then Some x
    else if decide (a = x) then Some (hd NULL l2) else nxt m a) as Hm'.
  { intros a. unfold m'. by rewrite !nxt_set. }
  split_and!; [|split_and!| |].
  - apply run_get_next. rewrite Hm'. by case_decide.
  - destruct Hl as (Hnd' & _ & _). rewrite app_comm_cons. rewrite -Permutation_middle.
    apply NoDup_cons. split; [done|]. exact Hnd'.
  - destruct Hl as (_ & Hnull' & _). rewrite app_comm_cons -Permutation_middle.
    intros [?|?]%elem_of_cons; [congruence|done].
  - destruct Hl as (_ & _ & Hw). destruct (snoc_form l2 NULL) as (r & E & Er).
    rewrite -app_assoc E in Hw.
    replace ((l1 ++ x :: l2) ++ [NULL]) with (l1 ++ x :: hd NULL l2 :: r)
      by (rewrite -app_assoc /= E //).
    eapply walk_insert; [done| | | | | | |exact Hw].
    + intros ?. apply Hx. rewrite app_comm_cons elem_of_app. by left.
    + rewrite Er. intros ?. apply Hx. rewrite app_comm_cons elem_of_app. by right.
    + by rewrite Er.
    + intros y Hy1 Hy2. rewrite Hm'. by repeat case_decide.
    + rewrite Hm'. by case_decide.
    + rewrite Hm'. case_decide; [done|]. case_decide; [|done]. done.
  - done.
  - intros a Ha1 Ha2. rewrite Hm'. by repeat case_decide.
Qed.

(** A stretch behind a position is unlinked. *)
Lemma run_unlink m h l1 mid l2 :
  slist m h (l1 ++ mid ++ l2) →
  ∃ m', run (set_next (end_of h l1) (hd NULL l2)) m = Done () m' ∧
    slist m' h (l1 ++ l2) ∧ last m' = last m ∧ (∀ a, a ≠ end_of h l1 → nxt m' a = nxt m a) ∧
    nxt m' (end_of h l1) = Some (hd NULL l2).
Proof.
  intros Hl. pose proof (slist_next _ _ _ _ Hl) as Hn.
  pose proof (slist_parts _ _ _ _ Hl) as (Hnd & Hd & He0 & Hnull).
  rewrite run_set_next; [by rewrite Hn|]. eexists. split; [done|].
  set (m' := _ <| next ::= _ |>). split_and!; [|done| |].
  - split_and!.
    + destruct Hl as (Hnd' & _ & _). rewrite !app_comm_cons in Hnd' |- *.
      apply NoDup_app in Hnd' as (? & Hdis & (_ & _ & ?)%NoDup_app). apply NoDup_app.
      split_and!; [done| |done]. intros y Hy Hy2. apply (Hdis y Hy), elem_of_app. by right.
    + destruct Hl as (_ & Hnull' & _). rewrite !app_comm_cons in Hnull' |- *. set_solver.
    + destruct Hl as (_ & _ & Hw). destruct (snoc_form l2 NULL) as (r & E & Er).
      rewrite -!app_assoc E in Hw. rewrite -app_assoc E. eapply walk_erase; [done| | | |exact Hw].
      * rewrite Er. set_solver.
      * intros y Hy. unfold m'. rewrite nxt_set. by case_decide.
      * unfold m'. rewrite nxt_set. case_decide; done.
  - intros a Ha. unfold m'. rewrite nxt_set. by case_decide.
  - unfold m'. rewrite nxt_set. by case_decide.
Qed.
Lemma hd_null_iff m h l1 l2 : slist m h (l1 ++ l2) → hd NULL l2 = NULL ↔ l2 = [].
Proof.
  intros Hl. destruct (slist_parts _ _ _ _ Hl) as (_ & _ & _ & Hn). destruct l2 as [|y l2]; [done|].
  simpl. split; [|done]. intros ->. set_solver.
Qed.

Lemma run_empty m h l : slist m h l → run (islist_empty h) m = Done (bool_decide (l = [])) m.
Proof.
  intros Hl. unfold islist_empty. pose proof (slist_next m h [] l Hl) as Hn.
  rewrite (run_bind_done _ _ _ _ _ (run_get_next _ _ _ Hn)) run_ret. f_equal.
  pose proof (hd_null_iff m h [] l Hl) as Hiff.
  destruct (Z.eqb_spec (hd NULL l) NULL); symmetry;
    [apply bool_decide_eq_true_2|apply bool_decide_eq_false_2]; tauto.
Qed.

Lemma run_push_front m p x r m' :
  run (islist_insert_after p x) m = Done r m' → run (islist_push_front p x) m = Done () m'.
Proof.
  unfold islist_insert_after, islist_push_front. intros H.
  apply run_bind_inv in H as (n & m1 & H1 & H). rewrite (run_bind_done _ _ _ _ _ H1).
  apply run_bind_inv in H as (u & m2 & H2 & H). rewrite (run_bind_done _ _ _ _ _ H2).
  apply run_bind_inv in H as ([] & m3 & H3 & H). rewrite H3. f_equal.
  unfold get_next in H. rewrite run_act in H. destruct (next m3 !! p); [by injection H|done].
Qed.

Lemma last_of_end q l : l ≠ [] → last_of l = end_of q l.
Proof. destruct l as [|y l]; [done|]. intros _. unfold last_of. by rewrite !end_of_cons. Qed.

Lemma last_of_app l1 l2 : l2 ≠ [] → last_of (l1 ++ l2) = last_of l2.
Proof.
  intros H. destruct (exists_last H) as (r & x & ->). unfold last_of.
  by rewrite app_assoc !end_of_snoc.
Qed.

Lemma slist_last m h l f : slist m h l → slist (m <| last ::= f |>) h l.
Proof. done. Qed.

Lemma run_q_insert_after m q l1 l2 x :
  squeue m q (l1 ++ l2) → x ∉ q :: l1 ++ l2 → x ≠ NULL → is_Some (nxt m x) →
  ∃ m', run (q_insert_after q (end_of q l1) x) m = Done x m' ∧ squeue m' q (l1 ++ x :: l2).
Proof.
  intros [Hl Hlast] Hx Hx0 Hsx. unfold q_insert_after.
  rewrite (run_bind_done _ _ _ _ _ (run_get_next _ _ _ (slist_next _ _ _ _ Hl))).
  pose proof (hd_null_iff _ _ _ _ Hl) as Hiff. unfold truth. rewrite negb_involutive.
  destruct (Z.eqb_spec (hd NULL l2) 0) as [E|E]; unfold when.
  - apply Hiff in E as ->. erewrite run_bind_done; [|by apply run_set_last; rewrite Hlast].
    destruct (run_insert_after (m <| last ::= <[q := x]> |>) q l1 [] x) as (m' & Hr & Hl' & Hlast' & _); auto.
    exists m'. split; [done|]. split; [done|]. rewrite Hlast' /= lookup_insert_eq.
    unfold last_of. by rewrite end_of_snoc.
  - rewrite (run_bind_done _ _ _ _ _ (run_ret _ _)).
    destruct (run_insert_after m q l1 l2 x) as (m' & Hr & Hl' & Hlast' & _); auto.
    exists m'. split; [done|]. split; [done|]. rewrite Hlast' Hlast. f_equal.
    assert (l2 ≠ []) by (intros ->; done).
    rewrite !last_of_app //. change (x :: l2) with ([x] ++ l2). by rewrite last_of_app.
Qed.

Lemma run_q_before_end m q l : squeue m q l → run (q_before_end q) m = Done (end_of q l) m.
Proof.
  intros [Hl Hlast]. unfold q_before_end. rewrite (run_bind_done _ _ _ _ _ (run_empty _ _ _ Hl)).
  case_bool_decide as E; [by subst l|]. rewrite (run_get_last _ _ _ Hlast). by rewrite -(last_of_end q).
Qed.

Lemma run_q_push_front m q l x :
  squeue m q l → x ∉ q :: l → x ≠ NULL → is_Some (nxt m x) →
  ∃ m', run (q_push_front q x) m = Done () m' ∧ squeue m' q (x :: l).
Proof.
  intros [Hl Hlast] Hx Hx0 Hsx. unfold q_push_front.
  rewrite (run_bind_done _ _ _ _ _ (run_empty _ _ _ Hl)). case_bool_decide as E; unfold when.
  - erewrite run_bind_done; [|by apply run_set_last; rewrite Hlast].
    destruct (run_insert_after (m <| last ::= <[q := x]> |>) q [] l x) as (m' & Hr & Hl' & Hlast' & _); auto.
    exists m'. split; [by eapply run_push_front|]. split; [done|].
    rewrite Hlast' /= lookup_insert_eq. by subst l.
  - rewrite (run_bind_done _ _ _ _ _ (run_ret _ _)).
    destruct (run_insert_after m q [] l x) as (m' & Hr & Hl' & Hlast' & _); auto.
    exists m'. split; [by eapply run_push_front|]. split; [done|]. rewrite Hlast' Hlast. f_equal.
    change (x :: l) with ([x] ++ l). by rewrite last_of_app.
Qed.

Lemma run_erase_after m h l1 y l2 :
  slist m h (l1 ++ y :: l2) →
  ∃ m', run (islist_erase_after (end_of h l1)) m = Done (hd NULL l2) m' ∧
    slist m' h (l1 ++ l2) ∧ last m' = last m ∧ nxt m' (end_of h l1) = Some (hd NULL l2).
Proof.
  intros Hl. unfold islist_erase_after.
  rewrite (run_bind_done _ _ _ _ _ (run_get_next _ _ _ (slist_next _ _ _ _ Hl))).
  assert (nxt m y = Some (hd NULL l2)) as Hy.
  { rewrite -(end_of_snoc h l1 y). apply slist_next. by rewrite -app_assoc. }
  cbn [hd]. rewrite (run_bind_done _ _ _ _ _ (run_get_next _ _ _ Hy)).
  destruct (run_unlink m h l1 [y] l2 Hl) as (m' & Hr & Hl' & Hlast & _ & Hn).
  exists m'. rewrite (run_bind_done _ _ _ _ _ Hr). split_and!; auto. by apply run_get_next.
Qed.

Lemma run_q_erase_after m q l1 y l2 :
  squeue m q (l1 ++ y :: l2) →
  ∃ m', run (q_erase_after q (end_of q l1)) m = Done (hd NULL l2) m' ∧ squeue m' q (l1 ++ l2).
Proof.
  intros [Hl Hlast]. unfold q_erase_after.
  destruct (run_erase_after _ _ _ _ _ Hl) as (m' & Hr & Hl' & Hlast' & Hn).
  rewrite (run_bind_done _ _ _ _ _ Hr) (run_bind_done _ _ _ _ _ (run_empty _ _ _ Hl')).
  assert (∀ v, run (set_last q v) m' = Done () (m' <| last ::= <[q := v]> |>)) as Hset
    by (intros v; apply run_set_last; by rewrite Hlast' Hlast).
  case_bool_decide as E.
  - rewrite (run_bind_done _ _ _ _ _ (Hset _)) run_ret. eexists. split; [done|].
    split; [done|]. cbn. by rewrite lookup_insert_eq E.
  - rewrite run_bind (run_bind_done _ _ _ _ _ (run_get_next _ _ _ Hn)).
    pose proof (hd_null_iff _ _ _ _ Hl') as Hiff. unfold truth. rewrite negb_involutive.
    destruct (Z.eqb_spec (hd NULL l2) 0) as [E2|E2]; unfold when.
    + rewrite Hset. cbn [outcome_bind]. rewrite run_ret. apply Hiff in E2 as ->.
      rewrite app_nil_r in E Hl' |- *. eexists. split; [done|]. split; [done|]. cbn.
      rewrite lookup_insert_eq. by rewrite (last_of_end q).
    + cbn [outcome_bind]. rewrite run_ret. exists m'. split; [done|]. split; [done|].
      rewrite Hlast' Hlast. f_equal. assert (l2 ≠ []) by (intros ->; done).
      rewrite !last_of_app //. change (y :: l2) with ([y] ++ l2). by rewrite last_of_app.
Qed.

Lemma run_q_pop_front m q y l :
  squeue m q (y :: l) → ∃ m', run (q_pop_front q) m = Done () m' ∧ squeue m' q l.
Proof.
  intros [Hl Hlast]. unfold q_pop_front, islist_pop_front. rewrite run_bind.
  rewrite (run_bind_done _ _ _ _ _ (run_get_next _ _ _ (slist_next m q [] (y :: l) Hl))).
  rewrite (run_bind_done _ _ _ _ _ (run_get_next _ _ _ (slist_next m q [y] l Hl))).
  destruct (run_unlink m q [] [y] l Hl) as (m' & Hr & Hl' & Hlast' & _ & _).
  change (end_of q []) with q in Hr. rewrite Hr. cbn [outcome_bind].
  rewrite (run_bind_done _ _ _ _ _ (run_empty _ _ _ Hl')). case_bool_decide as E; unfold when.
  - rewrite run_set_last; [by rewrite Hlast' Hlast|]. eexists. split; [done|].
    split; [done|]. cbn. rewrite lookup_insert_eq. by simpl in E; subst l.
  - rewrite run_ret. exists m'. split; [done|]. split; [done|]. rewrite Hlast' Hlast.
    change (y :: l) with ([y] ++ l). by rewrite last_of_app.
Qed.

(** Splicing in an empty list cuts off the rest of this one: nothing is
    attached to the elements of [x], which has none, and the position then
    points to the first element of [x]. *)
Lemma splice_empty_truncates m h l1 l2 x fuel :
  slist m h (l1 ++ l2) → slist m x [] → x ∉ h :: l1 → (0 < fuel)%nat →
  ∃ m', run (islist_splice_after fuel (end_of h l1) x) m = Done () m' ∧ slist m' h l1.
Proof.
  intros Hl Hx Hxl Hf. unfold islist_splice_after. pose proof (slist_next _ _ _ _ Hl) as Hn.
  pose proof (slist_next m x [] [] Hx) as Hnx. change (end_of x []) with x in Hnx. cbn [hd] in Hnx.
  rewrite (run_bind_done _ _ _ _ _ (run_get_next _ _ _ Hn)).
  erewrite run_bind_done.
  2:{ unfold when. instantiate (1 := m). instantiate (1 := ()).
      destruct (truth (hd NULL l2)); [|done]. unfold islist_begin.
      rewrite (run_bind_done _ _ _ _ _ (run_get_next _ _ _ Hnx)).
      destruct fuel; [lia|]. by apply run_loop_exit. }
  rewrite (run_bind_done _ _ _ _ _ (run_get_next _ _ _ Hnx)).
  rewrite -(app_nil_r l2) in Hl. destruct (run_unlink m h l1 l2 [] Hl) as (m1 & Hr & Hl1 & _ & Hfr & _).
  rewrite app_nil_r in Hl1. cbn [hd] in Hr. rewrite (run_bind_done _ _ _ _ _ Hr).
  assert (x ≠ end_of h l1) as Hne by (intros ->; apply Hxl, end_of_in).
  rewrite run_set_next; [rewrite Hfr // Hnx //|]. eexists. split; [done|].
  destruct Hl1 as (? & ? & Hw). split_and!; [done..|]. eapply walk_frame; [|exact Hw].
  intros a Ha. change (h :: l1 ++ [NULL]) with ((h :: l1) ++ [NULL]) in Ha.
  rewrite removelast_last in Ha. rewrite nxt_set. case_decide; [by subst|done].
Qed.

(** The queue operations keep the links and the tail pointer in step with
    the sequence of elements: appending at either end, inserting behind and
    erasing behind any element, taking the first one and asking for the first,
    the last and for emptiness do what they do to the sequence. *)
Theorem isqueue_refines (m : slinks) (q : Z) (l : list Z) :
  squeue m q l →
  run (islist_empty q) m = Done (bool_decide (l = [])) m ∧
  run (islist_front q) m = Done (hd NULL l) m ∧
  run (q_back q) m = Done (last_of l) m ∧
  (∀ x, x ∉ q :: l → x ≠ NULL → is_Some (nxt m x) →
     (∃ m', run (q_push_front q x) m = Done () m' ∧ squeue m' q (x :: l)) ∧
     (∃ m', run (q_push_back q x) m = Done () m' ∧ squeue m' q (l ++ [x])) ∧
     (∀ l1 l2, l = l1 ++ l2 →
        ∃ m', run (q_insert_after q (end_of q l1) x) m = Done x m' ∧ squeue m' q (l1 ++ x :: l2))) ∧
  (∀ y l', l = y :: l' → ∃ m', run (q_pop_front q) m = Done () m' ∧ squeue m' q l') ∧
  (∀ l1 y l2, l = l1 ++ y :: l2 →
     ∃ m', run (q_erase_after q (end_of q l1)) m = Done (hd NULL l2) m' ∧ squeue m' q (l1 ++ l2)).
Proof.
  intros Hq. pose proof Hq as [Hl Hlast]. split_and!.
  - by apply run_empty.
  - apply run_get_next, (slist_next m q [] l Hl).
  - by apply run_get_last.
  - intros x Hx Hx0 Hsx. split_and!.
    + by apply run_q_push_front.
    + destruct (run_q_insert_after m q l [] x) as (m' & Hr & Hq'); rewrite ?app_nil_r //.
      exists m'. split; [|done]. unfold q_push_back.
      rewrite (run_bind_done _ _ _ _ _ (run_q_before_end _ _ _ Hq)).
      by rewrite (run_bind_done _ _ _ _ _ Hr).
    + intros l1 l2 ->. by apply run_q_insert_after.
  - intros y l' ->. by eapply run_q_pop_front.
  - intros l1 y l2 ->. by eapply run_q_erase_after.
Qed.

(** Erasing the rest of a queue leaves its tail pointer behind: the
    elements after [pos] are gone, but the pointer to the last element still
    points to one of them, and the next element appended to the queue is not
    in it. *)
Theorem erase_range_loses_append (m : slinks) (q : Z) (l1 : list Z) (y : Z) (l2 : list Z) (x : Z) :
  squeue m q (l1 ++ y :: l2) → l1 ≠ [] →
  x ∉ q :: l1 ++ y :: l2 → x ≠ NULL → is_Some (nxt m x) →
  ∃ m1 m2,
    run (q_erase_after_range q (end_of q l1) NULL) m = Done NULL m1 ∧
    slist m1 q l1 ∧ last m1 !! q = Some (end_of y l2) ∧
    run (q_push_back q x) m1 = Done () m2 ∧
    slist m2 q l1.
Proof.
  intros [Hl Hlast] Hne Hx Hx0 Hsx. pose proof Hl as Hl0. rewrite -(app_nil_r (y :: l2)) in Hl.
  pose proof (slist_next _ _ _ _ Hl0) as Hn. cbn [hd] in Hn.
  destruct (run_unlink m q l1 (y :: l2) [] Hl) as (m1 & Hr & Hl1 & Hlast1 & Hfr & Hn1).
  rewrite app_nil_r in Hl1. cbn [hd] in Hn1.
  set (z := end_of y l2).
  assert (z ∈ y :: l2) as Hz by apply end_of_in.
  assert (last m1 !! q = Some z) as Hlz.
  { rewrite Hlast1 Hlast last_of_app //. unfold last_of. by rewrite end_of_cons. }
  destruct (slist_parts _ _ _ _ Hl0) as (Hnd1 & Hend & _ & Hnull).
  assert (nxt m1 z = Some NULL) as Hnz.
  { rewrite Hfr; [intros E; apply Hend; by rewrite -E|].
    assert (z = end_of q (l1 ++ y :: l2)) as ->.
    { by rewrite end_of_app end_of_cons. }
    apply (slist_next m q (l1 ++ y :: l2) []). by rewrite app_nil_r. }
  assert (z ∉ q :: l1) as Hz1.
  { destruct Hl0 as (Hnd & _). rewrite app_comm_cons in Hnd. apply NoDup_app in Hnd as (_ & Hd & _).
    intros H. by apply (Hd z). }
  assert (x ∉ q :: l1) as Hx1 by (intros ?; apply Hx; set_solver).
  assert (x ≠ z) as Hxz by (intros ->; apply Hx; set_solver).
  assert (is_Some (nxt m1 x)) as Hsx1.
  { rewrite Hfr; [|done]. intros ->. apply Hx1, end_of_in. }
  pose proof (run_empty _ _ _ Hl1) as He. rewrite bool_decide_eq_false_2 // in He.
  eexists m1, _. split_and!; [|done|done| |].
  - unfold q_erase_after_range, islist_erase_after_range. rewrite run_bind.
    rewrite (run_bind_done _ _ _ _ _ Hr) run_ret. cbn [outcome_bind].
    rewrite (run_bind_done _ _ _ _ _ He). rewrite run_bind.
    by rewrite (run_bind_done _ _ _ _ _ (run_get_next _ _ _ Hn1)).
  - unfold q_push_back, q_before_end. rewrite run_bind (run_bind_done _ _ _ _ _ He).
    rewrite (run_get_last _ _ _ Hlz). cbn [outcome_bind]. unfold q_insert_after. rewrite run_bind.
    rewrite (run_bind_done _ _ _ _ _ (run_get_next _ _ _ Hnz)). unfold when. cbn [truth negb NULL Z.eqb].
    erewrite run_bind_done; [|by apply run_set_last; rewrite Hlz]. unfold islist_insert_after.
    erewrite run_bind_done; [|apply run_get_next; exact Hnz].
    erewrite run_bind_done; [|apply run_set_next; exact Hsx1].
    erewrite run_bind_done; [|apply run_set_next; rewrite nxt_set; case_decide; [done|]; by exists NULL].
    erewrite run_get_next; [|rewrite nxt_set; by case_decide]. reflexivity.
  - destruct Hl1 as (? & ? & Hw). split_and!; [done..|]. eapply walk_frame; [|exact Hw].
    intros a Ha. change (q :: l1 ++ [NULL]) with ((q :: l1) ++ [NULL]) in Ha.
    rewrite removelast_last in Ha. rewrite !nxt_set. cbn. repeat case_decide; subst; try done.
Qed.

End Islist.

(** ** Doubly linked lists *)

Module Ilist.

(** [ilink] *)
Record ilink := ILink { prev : Z; next : Z }.
#[export] Instance ilink_settable : Settable ilink := λ x, ILink (prev x) (next x).

Definition links : Type := gmap Z ilink.

Definition get (p : Z) : prog links ilink :=
  act (λ m, match m !! p with Some k => Next k m | None => Crash end).
Definition upd (p : Z) (f : ilink → ilink) : prog links unit :=
  act (λ m, match m !! p with Some k => Next () (<[p := f k]> m) | None => Crash end).
Definition link_prev (p x : Z) : prog links unit := upd p (λ k, k <| prev := x |>).
Definition link_next (p x : Z) : prog links unit := upd p (λ k, k <| next := x |>).

Definition ilist_clear (h : Z) : prog links unit := link_next h h;; link_prev h h.
Definition ilist_begin (h : Z) : prog links Z := k ← get h; mret (next k).
Definition ilist_end (h : Z) : Z := h.
Definition ilist_empty (h : Z) : prog links bool := k ← get h; mret (next k =? h).
Definition ilist_front (h : Z) : prog links Z := k ← get h; mret (next k).
Definition ilist_back (h : Z) : prog links Z := k ← get h; mret (prev k).

(** [insert] puts [x] before [pos] and returns the position behind [pos]. *)
Definition ilist_insert (pos x : Z) : prog links Z :=
  link_next x pos;;
  k ← get pos; link_prev x (prev k);;
  k ← get pos; link_next (prev k) x;;
  link_prev pos x;;
  k ← get pos; mret (next k).
Definition ilist_erase (pos : Z) : prog links Z :=
  k ← get pos; link_prev (next k) (prev k);;
  k ← get pos; link_next (prev k) (next k);;
  k ← get pos; mret (next k).
Definition ilist_erase_range (pos last : Z) : prog links Z :=
  k ← get pos; link_next (prev k) last;;
  k ← get pos; link_prev last (prev k);;
  mret last.

Definition ilist_push_front (h x : Z) : prog links unit := pos ← ilist_begin h; ilist_insert pos x;; mret ().
Definition ilist_pop_front (h : Z) : prog links unit := pos ← ilist_begin h; ilist_erase pos;; mret ().
Definition ilist_push_back (h x : Z) : prog links unit := ilist_insert (ilist_end h) x;; mret ().
Definition ilist_pop_back (h : Z) : prog links unit := k ← get h; ilist_erase (prev k);; mret ().

(** Move assignment: the first and the last element of the list at [o], both
    found before either is changed, are pointed to this head before the head is
    copied. *)
Definition ilist_assign (h o : Z) : prog links unit :=
  k ← get o; link_next (prev k) h;; link_prev (next k) h;;
  k ← get o; upd h (λ _, k);;
  ilist_clear o.

(** *** Lists as rings *)

Definition nx (m : links) (a : Z) : option Z := next <$> m !! a.
Definition pv (m : links) (a : Z) : option Z := prev <$> m !! a.

(** Following [f] from the head visits [l] and comes back. *)
Definition ring (f : Z → option Z) (h : Z) (l : list Z) : Prop := walk f h (l ++ [h]).

(** The list with its head at [h] holds the elements [l]. *)
Definition ilist (m : links) (h : Z) (l : list Z) : Prop :=
  NoDup (h :: l) ∧ ring (nx m) h l ∧ ring (pv m) h (reverse l).

Lemma ring_step f h l1 l2 : ring f h (l1 ++ l2) → f (end_of h l1) = Some (hd h l2).
Proof.
  unfold ring. rewrite -app_assoc. intros [_ H]%walk_app. destruct l2; apply H.
Qed.

Lemma end_of_reverse h l : end_of h (reverse l) = hd h l.
Proof. destruct l as [|y l]; [done|]. rewrite reverse_cons. apply end_of_snoc. Qed.
Lemma hd_reverse h l : hd h (reverse l) = end_of h l.
Proof. by rewrite -end_of_reverse reverse_involutive. Qed.

Lemma ring_insert f g h l1 l2 x :
  NoDup (h :: l1 ++ l2) → x ∉ h :: l1 ++ l2 →
  (∀ y, y ≠ x → y ≠ end_of h l1 → g y = f y) →
  g (end_of h l1) = Some x → g x = Some (hd h l2) →
  ring f h (l1 ++ l2) → ring g h (l1 ++ x :: l2).
Proof.
  intros Hnd Hx Hfr Hg1 Hg2 Hw. unfold ring in *. destruct (snoc_form l2 h) as (r & E & Er).
  rewrite -app_assoc E in Hw. rewrite -app_assoc /= E.
  rewrite app_comm_cons in Hnd, Hx. apply NoDup_app in Hnd as (Hnd & Hd & _).
  eapply walk_insert; [done| | | |done|done|done|exact Hw]; rewrite ?Er.
  - set_solver.
  - set_solver.
  - apply Hd, end_of_in.
Qed.

Lemma ring_erase f g h l1 mid l2 :
  NoDup (h :: l1 ++ mid ++ l2) →
  (∀ y, y ≠ end_of h l1 → g y = f y) → g (end_of h l1) = Some (hd h l2) →
  ring f h (l1 ++ mid ++ l2) → ring g h (l1 ++ l2).
Proof.
  intros Hnd Hfr Hg Hw. unfold ring in *. destruct (snoc_form l2 h) as (r & E & Er).
  rewrite -!app_assoc E in Hw. rewrite -app_assoc E.
  rewrite app_comm_cons in Hnd. apply NoDup_app in Hnd as (Hnd & Hd & _).
  eapply walk_erase; [done| |done|done|exact Hw]. rewrite Er. intros H.
  apply (Hd (end_of h l1) (end_of_in _ _)). set_solver.
Qed.

(** The elements of one list under another head. *)
Lemma ring_move f g h o l :
  NoDup l → (∀ a, a ∈ l → a ≠ end_of o l → g a = f a) →
  g h = Some (hd h l) → (l ≠ [] → g (end_of o l) = Some h) →
  ring f o l → ring g h l.
Proof.
  intros Hnd Hfr Hh He Hw. unfold ring in *. destruct l as [|y l]; [done|].
  rewrite end_of_cons in Hfr, He. cbn [app walk] in *. split; [done|]. destruct Hw as [_ Hw].
  apply walk_app in Hw as [Hw _]. apply walk_app. split; [|split; [by apply He|done]].
  eapply walk_frame; [|exact Hw]. intros a Ha. symmetry. apply Hfr; [by apply removelast_in|].
  by apply removelast_nodup.
Qed.

Lemma ilist_next m h l1 l2 : ilist m h (l1 ++ l2) → nx m (end_of h l1) = Some (hd h l2).
Proof. intros (_ & H & _). by apply ring_step. Qed.
Lemma ilist_prev m h l1 l2 : ilist m h (l1 ++ l2) → pv m (hd h l2) = Some (end_of h l1).
Proof.
  intros (_ & _ & H). rewrite reverse_app in H. apply ring_step in H.
  by rewrite end_of_reverse hd_reverse in H.
Qed.

Lemma nx_pv m a n : nx m a = Some n → ∃ p, m !! a = Some (ILink p n).
Proof. unfold nx. destruct (m !! a) as [[p n']|]; [|done]. intros [= ->]. by exists p. Qed.

Lemma run_get m a p n : nx m a = Some n → pv m a = Some p → run (get a) m = Done (ILink p n) m.
Proof.
  unfold nx, pv, get. rewrite run_act. destruct (m !! a) as [[p' n']|]; [|done].
  by intros [= ->] [= ->].
Qed.

Lemma run_ilink_next m a x :
  is_Some (m !! a) → ∃ m', run (link_next a x) m = Done () m' ∧
    (∀ b, nx m' b = if decide (b = a) then Some x else nx m b) ∧ (∀ b, pv m' b = pv m b).
Proof.
  intros [[p n] H]. unfold link_next, upd. rewrite run_act H. eexists. split; [done|].
  unfold nx, pv. split; intros b; destruct (decide (b = a)) as [->|];
    rewrite ?lookup_insert_eq ?(lookup_insert_ne _ a b) // ?H //.
Qed.
Lemma run_ilink_prev m a x :
  is_Some (m !! a) → ∃ m', run (link_prev a x) m = Done () m' ∧
    (∀ b, pv m' b = if decide (b = a) then Some x else pv m b) ∧ (∀ b, nx m' b = nx m b).
Proof.
  intros [[p n] H]. unfold link_prev, upd. rewrite run_act H. eexists. split; [done|].
  unfold nx, pv. split; intros b; destruct (decide (b = a)) as [->|];
    rewrite ?lookup_insert_eq ?(lookup_insert_ne _ a b) // ?H //.
Qed.

Lemma nx_mapped m a : is_Some (m !! a) ↔ is_Some (nx m a).
Proof. unfold nx. by rewrite fmap_is_Some. Qed.
Lemma pv_mapped m a : is_Some (m !! a) ↔ is_Some (pv m a).
Proof. unfold pv. by rewrite fmap_is_Some. Qed.

(** One store, with what is known of the links before and after. *)
Ltac store_next m a x m' Hr Hn Hp :=
  destruct (run_ilink_next m a x) as (m' & Hr & Hn & Hp);
  [|rewrite (run_bind_done _ _ _ _ _ Hr)].
Ltac store_prev m a x m' Hr Hp Hn :=
  destruct (run_ilink_prev m a x) as (m' & Hr & Hp & Hn);
  [|rewrite (run_bind_done _ _ _ _ _ Hr)].

Lemma run_insert m h l1 l2 x :
  ilist m h (l1 ++ l2) → x ∉ h :: l1 ++ l2 → is_Some (m !! x) →
  ∃ m' r, run (ilist_insert (hd h l2) x) m = Done r m' ∧ ilist m' h (l1 ++ x :: l2) ∧
    ∀ a, a ∉ h :: l1 ++ x :: l2 → nx m' a = nx m a ∧ pv m' a = pv m a.
Proof.
  intros Hl Hx Hmx. pose proof (ilist_next _ _ _ _ Hl) as Hn. pose proof (ilist_prev _ _ _ _ Hl) as Hp.
  set (p := end_of h l1) in *. set (q := hd h l2) in *.
  assert (p ∈ h :: l1 ++ l2) as Hpin.
  { rewrite app_comm_cons elem_of_app. left. apply end_of_in. }
  assert (q ∈ h :: l1 ++ l2) as Hqin by (unfold q; destruct l2; set_solver).
  assert (x ≠ p ∧ x ≠ q) as [Hxp Hxq] by (split; intros ->; contradiction).
  assert (∃ qn, nx m q = Some qn) as [qn Hqn].
  { apply nx_mapped, pv_mapped. by rewrite Hp. }
  unfold ilist_insert.
  store_next m x q m1 Hr1 Hn1 Hp1; [done|].
  rewrite (run_bind_done _ _ _ _ _ (run_get m1 q p qn ltac:(rewrite Hn1; by case_decide)
    ltac:(by rewrite Hp1))).
  store_prev m1 x p m2 Hr2 Hp2 Hn2. { apply nx_mapped. rewrite Hn1. by case_decide. }
  assert (nx m2 q = Some qn ∧ pv m2 q = Some p) as [Hq2 Hq2'].
  { rewrite Hn2 Hn1 Hp2 Hp1. by repeat case_decide. }
  rewrite (run_bind_done _ _ _ _ _ (run_get m2 q p qn Hq2 Hq2')).
  store_next m2 p x m3 Hr3 Hn3 Hp3.
  { apply nx_mapped. rewrite Hn2 Hn1. case_decide; [done|]. by rewrite Hn. }
  store_prev m3 q x m4 Hr4 Hp4 Hn4. { apply pv_mapped. rewrite Hp3. by rewrite Hq2'. }
  assert (∀ a, nx m4 a = if decide (a = p) then Some x else if decide (a = x) then Some q else nx m a) as HN.
  { intros a. by rewrite Hn4 Hn3 Hn2 Hn1. }
  assert (∀ a, pv m4 a = if decide (a = q) then Some x else if decide (a = x) then Some p else pv m a) as HP.
  { intros a. by rewrite Hp4 Hp3 Hp2 Hp1. }
  assert (∃ r, nx m4 q = Some r) as [r Hr].
  { rewrite HN. repeat case_decide; eauto. }
  exists m4, r. split_and!; [|split_and!|].
  - rewrite (run_bind_done _ _ _ _ _ (run_get m4 q x r Hr ltac:(rewrite HP; by case_decide))). done.
  - destruct Hl as (Hnd & _ & _). rewrite app_comm_cons -Permutation_middle. by apply NoDup_cons.
  - destruct Hl as (Hnd & Hw & _). eapply (ring_insert (nx m)); auto.
    + intros y Hy1 Hy2. rewrite HN. by repeat case_decide.
    + rewrite HN. by case_decide.
    + rewrite HN. by repeat case_decide.
  - destruct Hl as (Hnd & _ & Hw). rewrite reverse_app reverse_cons -app_assoc /=.
    rewrite reverse_app in Hw. assert (h :: l1 ++ l2 ≡ₚ h :: reverse l2 ++ reverse l1) as Hperm.
    { by rewrite !reverse_Permutation Permutation_app_comm. }
    rewrite Hperm in Hnd, Hx. eapply (ring_insert (pv m)); rewrite ?end_of_reverse ?hd_reverse; auto.
    + intros y Hy1 Hy2. rewrite HP. by repeat case_decide.
    + rewrite HP. by case_decide.
    + rewrite HP. by repeat case_decide.
  - intros a Ha. rewrite app_comm_cons -Permutation_middle not_elem_of_cons in Ha.
    destruct Ha as [Hax Ha]. assert (a ≠ p ∧ a ≠ q) as [? ?] by (split; intros ->; contradiction).
    rewrite HN HP. by repeat case_decide.
Qed.

Lemma run_erase m h l1 y l2 :
  ilist m h (l1 ++ y :: l2) →
  ∃ m', run (ilist_erase y) m = Done (hd h l2) m' ∧ ilist m' h (l1 ++ l2) ∧
    ∀ a, a ∉ h :: l1 ++ l2 → nx m' a = nx m a ∧ pv m' a = pv m a.
Proof.
  intros Hl. pose proof (ilist_next m h (l1 ++ [y]) l2) as Hn. rewrite -app_assoc end_of_snoc in Hn.
  specialize (Hn Hl). pose proof (ilist_prev _ _ _ _ Hl) as Hp. cbn [hd] in Hp.
  pose proof (ilist_prev m h (l1 ++ [y]) l2) as Hpq. rewrite -app_assoc end_of_snoc in Hpq.
  specialize (Hpq Hl). pose proof (ilist_next _ _ _ _ Hl) as Hnp. cbn [hd] in Hnp.
  set (p := end_of h l1) in *. set (q := hd h l2) in *.
  assert (y ≠ p ∧ y ≠ q) as [Hyp Hyq].
  { destruct Hl as (Hnd & _). rewrite app_comm_cons in Hnd. apply NoDup_app in Hnd as (_ & Hd & Hnd2).
    apply NoDup_cons in Hnd2 as [Hy2 _]. split.
    - intros ->. apply (Hd p); [apply end_of_in|left].
    - intros E. unfold q in E. destruct l2 as [|z l2]; simpl in E; [|set_solver].
      apply (Hd h); [left|]. rewrite E. left. }
  unfold ilist_erase. rewrite (run_bind_done _ _ _ _ _ (run_get m y p q Hn Hp)).
  store_prev m q p m1 Hr1 Hp1 Hn1. { apply pv_mapped. by rewrite Hpq. }
  rewrite (run_bind_done _ _ _ _ _ (run_get m1 y p q ltac:(by rewrite Hn1)
    ltac:(rewrite Hp1; by case_decide))).
  store_next m1 p q m2 Hr2 Hn2 Hp2. { apply nx_mapped. rewrite Hn1. by rewrite Hnp. }
  rewrite (run_bind_done _ _ _ _ _ (run_get m2 y p q ltac:(rewrite Hn2 Hn1; by case_decide)
    ltac:(rewrite Hp2 Hp1; by case_decide))).
  assert (∀ a, nx m2 a = if decide (a = p) then Some q else nx m a) as HN.
  { intros a. by rewrite Hn2 Hn1. }
  assert (∀ a, pv m2 a = if decide (a = q) then Some p else pv m a) as HP.
  { intros a. by rewrite Hp2 Hp1. }
  exists m2. split_and!; [done|split_and!|].
  - destruct Hl as (Hnd & _). rewrite app_comm_cons -Permutation_middle in Hnd. by apply NoDup_cons in Hnd as [_ ?].
  - destruct Hl as (Hnd & Hw & _). eapply (ring_erase (nx m) _ _ _ [y]); [done| | |done].
    + intros a Ha. rewrite HN. by case_decide.
    + rewrite HN. by case_decide.
  - destruct Hl as (Hnd & _ & Hw). rewrite reverse_app. rewrite reverse_app reverse_cons -app_assoc in Hw.
    eapply (ring_erase (pv m) _ _ _ [y]); [| | |exact Hw]; rewrite ?end_of_reverse ?hd_reverse.
    + assert (h :: reverse l2 ++ [y] ++ reverse l1 ≡ₚ h :: l1 ++ y :: l2) as ->; [|done].
      rewrite !reverse_Permutation (Permutation_app_comm l1). simpl. by rewrite -Permutation_middle.
    + intros a Ha. rewrite HP. by case_decide.
    + rewrite HP. by case_decide.
  - intros a Ha. assert (a ≠ p ∧ a ≠ q) as [? ?].
    { split; intros ->; apply Ha.
      - rewrite app_comm_cons elem_of_app. left. apply end_of_in.
      - unfold q. destruct l2; set_solver. }
    rewrite HN HP. by repeat case_decide.
Qed.

Lemma run_erase_range m h l1 mid l2 :
  ilist m h (l1 ++ mid ++ l2) → mid ≠ [] →
  ∃ m', run (ilist_erase_range (hd h mid) (hd h l2)) m = Done (hd h l2) m' ∧ ilist m' h (l1 ++ l2).
Proof.
  intros Hl Hmid. pose proof (ilist_prev _ _ _ _ Hl) as Hp.
  pose proof (ilist_next _ _ _ _ Hl) as Hnp.
  pose proof (ilist_prev m h (l1 ++ mid) l2) as Hpq. rewrite -app_assoc in Hpq. specialize (Hpq Hl).
  assert (hd h (mid ++ l2) = hd h mid) as E by by destruct mid. rewrite E in Hp Hnp.
  set (p := end_of h l1) in *. set (q := hd h l2) in *. set (y := hd h mid) in *.
  destruct (proj1 (nx_mapped m y)) as [ny Hny]; [apply pv_mapped; by rewrite Hp|].
  unfold ilist_erase_range. rewrite (run_bind_done _ _ _ _ _ (run_get m y p ny Hny Hp)).
  store_next m p q m1 Hr1 Hn1 Hp1. { apply nx_mapped. by rewrite Hnp. }
  destruct (proj1 (nx_mapped m1 y)) as [ny1 Hny1]; [apply pv_mapped; by rewrite Hp1 Hp|].
  rewrite (run_bind_done _ _ _ _ _ (run_get m1 y p ny1 Hny1 ltac:(by rewrite Hp1))).
  store_prev m1 q p m2 Hr2 Hp2 Hn2. { apply pv_mapped. rewrite Hp1. by rewrite Hpq. }
  rewrite run_ret.
  assert (∀ a, nx m2 a = if decide (a = p) then Some q else nx m a) as HN.
  { intros a. by rewrite Hn2 Hn1. }
  assert (∀ a, pv m2 a = if decide (a = q) then Some p else pv m a) as HP.
  { intros a. by rewrite Hp2 Hp1. }
  exists m2. split_and!; [done|split_and!].
  - destruct Hl as (Hnd & _). apply NoDup_cons in Hnd as [Hh Hnd]. apply NoDup_cons. split; [set_solver|].
    apply NoDup_app in Hnd as (? & Hd & (_ & _ & ?)%NoDup_app). apply NoDup_app. split_and!; set_solver.
  - destruct Hl as (Hnd & Hw & _). eapply (ring_erase (nx m) _ _ _ mid); [done| | |done].
    + intros a Ha. rewrite HN. by case_decide.
    + rewrite HN. by case_decide.
  - destruct Hl as (Hnd & _ & Hw). rewrite reverse_app. rewrite !reverse_app -app_assoc in Hw.
    eapply (ring_erase (pv m) _ _ _ (reverse mid)); [| | |exact Hw]; rewrite ?end_of_reverse ?hd_reverse.
    + assert (h :: reverse l2 ++ reverse mid ++ reverse l1 ≡ₚ h :: l1 ++ mid ++ l2) as ->; [|done].
      rewrite !reverse_Permutation (Permutation_app_comm l1 (mid ++ l2)) (Permutation_app_comm mid l2) -app_assoc.
      done.
    + intros a Ha. rewrite HP. by case_decide.
    + rewrite HP. by case_decide.
Qed.

Lemma run_clear m h :
  is_Some (m !! h) → ∃ m', run (ilist_clear h) m = Done () m' ∧ ilist m' h [] ∧
    (∀ a, a ≠ h → nx m' a = nx m a ∧ pv m' a = pv m a).
Proof.
  intros Hm. unfold ilist_clear. store_next m h h m1 Hr1 Hn1 Hp1; [done|].
  destruct (run_ilink_prev m1 h h) as (m2 & -> & Hp2 & Hn2).
  { apply nx_mapped. rewrite Hn1. by case_decide. }
  exists m2. split_and!; [done|split_and!|].
  - apply NoDup_singleton.
  - split; [|done]. rewrite Hn2 Hn1. by case_decide.
  - split; [|done]. rewrite Hp2. by case_decide.
  - intros a Ha. rewrite Hn2 Hn1 Hp2 Hp1. by repeat case_decide.
Qed.

Lemma run_assign m h o l :
  ilist m o l → h ∉ o :: l → is_Some (m !! h) →
  ∃ m', run (ilist_assign h o) m = Done () m' ∧ ilist m' h l ∧ ilist m' o [].
Proof.
  intros Hl Hh Hmh. pose proof (ilist_next m o [] l Hl) as Hn. pose proof (ilist_prev m o [] l Hl) as Hp0.
  change (end_of o []) with o in Hn, Hp0.
  pose proof (ilist_prev m o l []) as Hp. rewrite app_nil_r in Hp. specialize (Hp Hl). cbn [hd] in Hp.
  pose proof (ilist_next m o l []) as Hne. rewrite app_nil_r in Hne. specialize (Hne Hl). cbn [hd] in Hne.
  set (z := end_of o l) in *. set (y := hd o l) in *.
  unfold ilist_assign. rewrite (run_bind_done _ _ _ _ _ (run_get m o z y Hn Hp)).
  store_next m z h m1 Hr1 Hn1 Hp1. { apply nx_mapped. by rewrite Hne. }
  store_prev m1 y h m2 Hr2 Hp2 Hn2. { apply pv_mapped. rewrite Hp1. by rewrite Hp0. }
  set (n' := if decide (o = z) then h else y). set (p' := if decide (o = y) then h else z).
  assert (nx m2 o = Some n' ∧ pv m2 o = Some p') as [Hn2o Hp2o].
  { rewrite Hn2 Hn1 Hp2 Hp1 Hn Hp. unfold n', p'. by repeat case_decide. }
  rewrite (run_bind_done _ _ _ _ _ (run_get m2 o p' n' Hn2o Hp2o)).
  assert (is_Some (m2 !! h)) as [k Hk].
  { apply nx_mapped. rewrite Hn2 Hn1. case_decide; [done|]. by apply nx_mapped. }
  set (m3 := <[h := ILink p' n']> m2).
  assert (run (upd h (λ _, ILink p' n')) m2 = Done () m3) as Hr3.
  { unfold upd. by rewrite run_act Hk. }
  rewrite (run_bind_done _ _ _ _ _ Hr3).
  assert (h ≠ o) as Hho by set_solver.
  destruct (run_clear m3 o) as (m4 & Hr4 & Hl4 & Hfr).
  { unfold m3. rewrite lookup_insert_ne //. apply nx_mapped. by rewrite Hn2o. }
  exists m4. split_and!; [done| |done].
  assert (∀ a, a ≠ o → nx m4 a = if decide (a = h) then Some n' else if decide (a = z) then Some h else nx m a) as HN.
  { intros a Ha. rewrite (proj1 (Hfr a Ha)) /nx /m3. case_decide; [subst; by rewrite lookup_insert_eq|].
    rewrite lookup_insert_ne // -/(nx m2 a) Hn2 Hn1. done. }
  assert (∀ a, a ≠ o → pv m4 a = if decide (a = h) then Some p' else if decide (a = y) then Some h else pv m a) as HP.
  { intros a Ha. rewrite (proj2 (Hfr a Ha)) /pv /m3. case_decide; [subst; by rewrite lookup_insert_eq|].
    rewrite lookup_insert_ne // -/(pv m2 a) Hp2 Hp1. done. }
  assert (l ≠ [] → z ∈ l ∧ y ∈ l) as Hzy.
  { intros Hne0. split; [unfold z; destruct l as [|b l]; [done|]; rewrite end_of_cons; apply end_of_in|].
    unfold y. destruct l; [done|]. left. }
  destruct Hl as (Hnd & Hw & Hw'). apply NoDup_cons in Hnd as [Ho Hnd].
  assert (∀ a, a ∈ l → a ≠ o ∧ a ≠ h) as Hin.
  { intros a Ha. split; intros ->; [done|]. apply Hh. by right. }
  split_and!; [apply NoDup_cons; split; [|done]; intros H; by destruct (Hin h H)| |].
  - eapply (ring_move (nx m) _ _ o); [done| | | |exact Hw].
    + intros a Ha Haz. destruct (Hin a Ha). rewrite HN //. by repeat case_decide.
    + rewrite HN //. case_decide; [|done]. f_equal. unfold n'. destruct l as [|b l]; [by case_decide|].
      simpl. case_decide as Eo; [|done]. exfalso. apply Ho. destruct Hzy as [Hz _]; [done|].
      by rewrite -Eo in Hz.
    + intros Hne0. destruct (Hzy Hne0) as [Hz _]. destruct (Hin z Hz). rewrite HN //.
      by repeat case_decide.
  - eapply (ring_move (pv m) _ _ o); [by rewrite reverse_Permutation| | | |exact Hw'].
    + intros a Ha Haz. rewrite end_of_reverse in Haz. rewrite elem_of_reverse in Ha.
      destruct (Hin a Ha). rewrite HP //. by repeat case_decide.
    + rewrite HP //. case_decide; [|done]. f_equal. rewrite hd_reverse. unfold p'.
      destruct l as [|b l]; [by case_decide|]. rewrite end_of_cons.
      case_decide as Eo; [|by unfold z; rewrite end_of_cons].
      exfalso. apply Ho. destruct Hzy as [_ Hy]; [done|]. by rewrite -Eo in Hy.
    + intros Hne0. rewrite end_of_reverse. assert (l ≠ []) as Hl0 by (intros ->; done).
      destruct (Hzy Hl0) as [_ Hy]. destruct (Hin y Hy). rewrite HP //. by repeat case_decide.
Qed.

(** The doubly linked list implements a sequence: emptiness and both
    ends are read off the sequence, and insertion before any position, removal
    of any element or stretch of elements, pushing and popping at both ends
    and moving the whole list to another head change the links the way they
    change the sequence. *)
Theorem ilist_refines (m : links) (h : Z) (l : list Z) :
  ilist m h l →
  run (ilist_empty h) m = Done (bool_decide (l = [])) m ∧
  run (ilist_front h) m = Done (hd h l) m ∧ run (ilist_back h) m = Done (end_of h l) m ∧
  (∀ x, x ∉ h :: l → is_Some (m !! x) →
     (∃ m', run (ilist_push_front h x) m = Done () m' ∧ ilist m' h (x :: l)) ∧
     (∃ m', run (ilist_push_back h x) m = Done () m' ∧ ilist m' h (l ++ [x])) ∧
     (∀ l1 l2, l = l1 ++ l2 →
        ∃ m' r, run (ilist_insert (hd h l2) x) m = Done r m' ∧ ilist m' h (l1 ++ x :: l2))) ∧
  (∀ y l', l = y :: l' → ∃ m', run (ilist_pop_front h) m = Done () m' ∧ ilist m' h l') ∧
  (∀ y l', l = l' ++ [y] → ∃ m', run (ilist_pop_back h) m = Done () m' ∧ ilist m' h l') ∧
  (∀ l1 y l2, l = l1 ++ y :: l2 →
     ∃ m', run (ilist_erase y) m = Done (hd h l2) m' ∧ ilist m' h (l1 ++ l2)) ∧
  (∀ l1 mid l2, l = l1 ++ mid ++ l2 → mid ≠ [] →
     ∃ m', run (ilist_erase_range (hd h mid) (hd h l2)) m = Done (hd h l2) m' ∧ ilist m' h (l1 ++ l2)) ∧
  (∀ h', h' ∉ h :: l → is_Some (m !! h') →
     ∃ m', run (ilist_assign h' h) m = Done () m' ∧ ilist m' h' l ∧ ilist m' h []).
Proof.
  intros Hl. pose proof (ilist_next m h [] l Hl) as Hn. change (end_of h []) with h in Hn.
  pose proof (ilist_prev m h l []) as Hp. rewrite app_nil_r in Hp. specialize (Hp Hl). cbn [hd] in Hp.
  pose proof (run_get _ _ _ _ Hn Hp) as Hg.
  assert (run (ilist_begin h) m = Done (hd h l) m) as Hb by by rewrite /ilist_begin (run_bind_done _ _ _ _ _ Hg).
  split_and!.
  - unfold ilist_empty. rewrite (run_bind_done _ _ _ _ _ Hg) run_ret. f_equal. destruct l as [|y l].
    + cbn. by rewrite Z.eqb_refl.
    + cbn. destruct Hl as (Hnd & _). apply NoDup_cons in Hnd as [Hh _].
      destruct (Z.eqb_spec y h); [set_solver|done].
  - exact Hb.
  - unfold ilist_back. by rewrite (run_bind_done _ _ _ _ _ Hg).
  - intros x Hx Hmx. split_and!.
    + destruct (run_insert m h [] l x) as (m' & r & Hr & Hl' & _); auto. exists m'. split; [|done].
      unfold ilist_push_front. rewrite (run_bind_done _ _ _ _ _ Hb). by rewrite (run_bind_done _ _ _ _ _ Hr).
    + destruct (run_insert m h l [] x) as (m' & r & Hr & Hl' & _); rewrite ?app_nil_r //.
      exists m'. split; [|done]. unfold ilist_push_back, ilist_end. by rewrite (run_bind_done _ _ _ _ _ Hr).
    + intros l1 l2 ->. destruct (run_insert m h l1 l2 x) as (m' & r & Hr & Hl' & _); eauto.
  - intros y l' ->. destruct (run_erase m h [] y l' Hl) as (m' & Hr & Hl' & _). exists m'. split; [|done].
    unfold ilist_pop_front. rewrite (run_bind_done _ _ _ _ _ Hb). by rewrite (run_bind_done _ _ _ _ _ Hr).
  - intros y l' ->. destruct (run_erase m h l' y [] Hl) as (m' & Hr & Hl' & _). rewrite app_nil_r in Hl'.
    exists m'. split; [|done]. unfold ilist_pop_back. rewrite (run_bind_done _ _ _ _ _ Hg).
    cbn [prev]. rewrite end_of_snoc. by rewrite (run_bind_done _ _ _ _ _ Hr).
  - intros l1 y l2 ->. destruct (run_erase m h l1 y l2 Hl) as (m' & Hr & Hl' & _). eauto.
  - intros l1 mid l2 -> Hmid. by apply run_erase_range.
  - intros h' Hh' Hm'. by apply run_assign.
Qed.
End Ilist.

(** ** Concrete lists *)

(** A queue at 100 with three elements, and a link that is on no list. *)
Definition queue3 : Islist.slinks :=
  Islist.SLinks (list_to_map [(100, 200); (200, 300); (300, 400); (400, 0); (500, 0)])
                (list_to_map [(100, 400)]).

Lemma queue3_ok : Islist.squeue queue3 100 [200; 300; 400].
Proof.
  split; [|vm_compute; reflexivity]. split; [apply (bool_decide_unpack _); vm_compute; exact I|].
  split; [apply (bool_decide_unpack _); vm_compute; exact I|]. repeat split; vm_compute; reflexivity.
Qed.

Lemma isqueue_refines_witness :
  Islist.squeue queue3 100 [200; 300; 400] ∧
  ∃ m', run (Islist.q_push_back 100 500) queue3 = Done () m' ∧
    Islist.squeue m' 100 [200; 300; 400; 500].
Proof.
  split; [exact queue3_ok|].
  destruct (Islist.isqueue_refines queue3 100 [200; 300; 400] queue3_ok) as (_ & _ & _ & H & _).
  apply (H 500); [apply (bool_decide_unpack _); vm_compute; exact I|discriminate|].
  exists 0. vm_compute. reflexivity.
Defined.

Lemma erase_range_loses_append_witness :
  ∃ m1 m2,
    run (Islist.q_erase_after_range 100 200 NULL) queue3 = Done NULL m1 ∧
    run (Islist.q_push_back 100 500) m1 = Done () m2 ∧ Islist.slist m2 100 [200].
Proof.
  destruct (Islist.erase_range_loses_append queue3 100 [200] 300 [400] 500) as (m1 & m2 & H1 & _ & _ & H2 & H3).
  - exact queue3_ok.
  - discriminate.
  - apply (bool_decide_unpack _). vm_compute. exact I.
  - discriminate.
  - exists 0. vm_compute. reflexivity.
  - exists m1, m2. split; [exact H1|]. split; [exact H2|exact H3].
Defined.

(** A doubly linked list at 100 with two elements. *)
Definition list2 : Ilist.links :=
  list_to_map [(100, Ilist.ILink 300 200); (200, Ilist.ILink 100 300); (300, Ilist.ILink 200 100);
               (400, Ilist.ILink 0 0)].

Lemma list2_ok : Ilist.ilist list2 100 [200; 300].
Proof.
  split; [apply (bool_decide_unpack _); vm_compute; exact I|]. split; repeat split; vm_compute; reflexivity.
Qed.

Lemma ilist_refines_witness :
  Ilist.ilist list2 100 [200; 300] ∧
  ∃ m', run (Ilist.ilist_erase 200) list2 = Done 300 m' ∧ Ilist.ilist m' 100 [300].
Proof.
  split; [exact list2_ok|].
  destruct (Ilist.ilist_refines list2 100 [200; 300] list2_ok) as (_ & _ & _ & _ & _ & _ & H & _).
  exact (H [] 200 [300] eq_refl).
Defined.
