(* ===== verification/Buddy.v ===== *)
(** * The buddy allocator of physical memory

    [kernel/buddy.cc] and [include/buddy.hh]: blocks of 4096 bytes times a
    power of two up to 2^16, one list of free blocks and one bitmap of pairs
    for each order.  The bitmaps are arrays of bytes; a list of free blocks is
    the sequence of their addresses, whose operations are those the links of
    [Ilist] implement.  A failed assertion, an access outside of a bitmap and
    the removal of a block that is not on a list have no result ([None]).  The
    kernel is built with debugging bitmaps ([BUDDY_DEBUG]) and one allocator
    for every CPU ([KALLOC_BUDDY_PER_CPU]), so that [free_order] does not
    consult them. *)

From S2P Require Import Prelude.

(** ** The code *)

Definition MIN_SIZE : Z := 4096.
Definition MAX_ORDER : nat := 16.
(** [MIN_SIZE << order] *)
Definition order_size (order : nat) : Z := Z.shiftl MIN_SIZE (Z.of_nat order).
Definition MAX_SIZE : Z := order_size MAX_ORDER.

(** [order_head], with the arrays its two pointers point to. *)
Record order_head := OrderHead {
  blocks : list Z;
  bitmap_at : Z; bitmap : list Z;
  debug_at : Z; debug : list Z }.
#[export] Instance order_head_settable : Settable order_head :=
  λ x, OrderHead (blocks x) (bitmap_at x) (bitmap x) (debug_at x) (debug x).

Record buddy := Buddy {
  base : Z; limit : Z;
  free_bytes : Z; lowest_free_bytes : Z; bitmap_bytes : Z; waste_bytes : Z;
  orders : list order_head;
  highest_avail_order : nat }.
#[export] Instance buddy_settable : Settable buddy :=
  λ x, Buddy (base x) (limit x) (free_bytes x) (lowest_free_bytes x) (bitmap_bytes x)
             (waste_bytes x) (orders x) (highest_avail_order x).

(** [orders[order].blocks] *)
Definition blk (b : buddy) (order : nat) : list Z :=
  match orders b !! order with Some h => blocks h | None => [] end.
Definition set_blk (b : buddy) (order : nat) (l : list Z) : buddy :=
  b <| orders ::= alter (λ h, h <| blocks := l |>) order |>.

(** [assert(c)] *)
Definition assert_ (c : bool) : option unit := if c then Some () else None.

(** [erase(iterator_to(x))] *)
Definition erase_block (x : Z) (l : list Z) : option (list Z) :=
  if decide (x ∈ l) then Some (filter (λ y, y ≠ x) l) else None.

(** The bit of the pair of buddies that [ptr] is one of. *)
Definition pair_bit (b : buddy) (ptr : Z) (order : nat) : Z :=
  Z.shiftr ((ptr - base b) / MIN_SIZE) (Z.of_nat order + 1).
Definition bit_mask (bit : Z) : Z := Z.shiftl 1 (bit mod 8).

(** The new value of the bit, and the allocator. *)
Definition flip_bit (b : buddy) (ptr : Z) (order : nat) : option (bool * buddy) :=
  let bit := pair_bit b ptr order in
  let mask := bit_mask bit in
  h ← orders b !! order;
  x ← bitmap h !! Z.to_nat (bit / 8);
  let x' := Z.lxor x mask in
  Some (truth (Z.land x' mask),
        b <| orders ::= alter (λ h, h <| bitmap ::= <[Z.to_nat (bit / 8) := x']> |>) order |>).

Definition is_allocated (b : buddy) (ptr : Z) (order : nat) : option bool :=
  let bit := pair_bit b ptr order in
  let mask := bit_mask bit in
  let parent := Z.ldiff ptr (order_size order) in
  h ← orders b !! order;
  d ← debug h !! Z.to_nat (bit / 8);
  let dbg := truth (Z.land d mask) in
  if ptr =? parent then Some dbg
  else x ← bitmap h !! Z.to_nat (bit / 8); Some (xorb dbg (truth (Z.land x mask))).

Definition mark_allocated (b : buddy) (ptr : Z) (order : nat) (allocated : bool) : option buddy :=
  if (order =? MAX_ORDER)%nat then Some b
  else
    let parent := Z.ldiff ptr (order_size order) in
    if negb (ptr =? parent) then Some b
    else
      let bit := pair_bit b ptr order in
      let mask := bit_mask bit in
      h ← orders b !! order;
      d ← debug h !! Z.to_nat (bit / 8);
      let d' := if allocated then Z.lor d mask else Z.ldiff d mask in
      Some (b <| orders ::= alter (λ h, h <| debug ::= <[Z.to_nat (bit / 8) := d']> |>) order |>).

(** [for (int i = order - 1; i >= 0; i--)]: the highest order below that has a
    free block, or 0. *)
Fixpoint highest_below (b : buddy) (order : nat) : nat :=
  match order with
  | O => O
  | S i => match blk b i with [] => highest_below b i | _ => i end
  end.

(** The recursion ends at [MAX_ORDER]: [fuel] counts the orders left. *)
Fixpoint alloc_order_rec (fuel : nat) (b : buddy) (order : nat) : option (Z * buddy) :=
  match fuel with
  | O => None
  | S fuel' =>
      if (highest_avail_order b <? order)%nat then Some (NULL, b)
      else
        match blk b order with
        | block :: rest =>
            let b := set_blk b order rest in
            b ← (if (order <? MAX_ORDER)%nat then
                   '(state, b) ← flip_bit b block order;
                   assert_ (negb state);; mark_allocated b block order true
                 else Some b);
            assert_ ((base b <=? block) && (block <? limit b));;
            let b :=
              if (order =? highest_avail_order b)%nat && bool_decide (blk b order = [])
              then b <| highest_avail_order := highest_below b order |> else b in
            Some (block, b)
        | [] =>
            if (order =? MAX_ORDER)%nat then Some (NULL, b)
            else
              '(parent, b) ← alloc_order_rec fuel' b (order + 1);
              if parent =? NULL then Some (NULL, b)
              else
                let second_half := parent + order_size order in
                let b := set_blk b order (second_half :: blk b order) in
                let b := if (highest_avail_order b <? order)%nat
                         then b <| highest_avail_order := order |> else b in
                '(state, b) ← flip_bit b parent order;
                assert_ state;;
                b ← mark_allocated b parent order true;
                assert_ ((base b <=? parent) && (parent <? limit b));;
                Some (parent, b)
        end
  end.
Definition alloc_order (b : buddy) (order : nat) : option (Z * buddy) :=
  alloc_order_rec (S MAX_ORDER) b order.

Fixpoint free_order_rec (fuel : nat) (b : buddy) (ptr : Z) (order : nat) : option buddy :=
  match fuel with
  | O => None
  | S fuel' =>
      assert_ ((base b <=? ptr) && (ptr <? limit b));;
      b ← mark_allocated b ptr order false;
      '(merge, b) ← (if (order <? MAX_ORDER)%nat
                     then '(state, b) ← flip_bit b ptr order; Some (negb state, b)
                     else Some (false, b));
      if merge : bool then
        let other := Z.lxor ptr (order_size order) in
        l ← erase_block other (blk b order);
        let b := set_blk b order l in
        let parent := Z.ldiff ptr (order_size order) in
        free_order_rec fuel' b parent (order + 1)
      else
        let b := set_blk b order (ptr :: blk b order) in
        Some (if (highest_avail_order b <? order)%nat
              then b <| highest_avail_order := order |> else b)
  end.
Definition free_order (b : buddy) (ptr : Z) (order : nat) : option buddy :=
  free_order_rec (S MAX_ORDER) b ptr order.

(** [__builtin_ctz] *)
Fixpoint pos_ctz (p : positive) : nat :=
  match p with xO p' => S (pos_ctz p') | _ => O end.
Definition ctz (x : Z) : nat := match x with Zpos p => pos_ctz p | _ => O end.

(** Sizes that are too small, too large or no power of two panic. *)
Definition size_to_order (size : Z) : option nat :=
  if size <? MIN_SIZE then None
  else if MAX_SIZE <? size then None
  else
    let log2 := ctz size in
    if negb (size =? Z.shiftl 1 (Z.of_nat log2)) then None
    else Some (log2 - ctz MIN_SIZE)%nat.

Definition alloc_nothrow (b : buddy) (size : Z) : option (Z * buddy) :=
  order ← size_to_order size;
  '(ptr, b) ← alloc_order b order;
  if negb (ptr =? NULL) then
    let b := b <| free_bytes ::= λ n, wrap64 (n - size) |> in
    let b := if free_bytes b <? lowest_free_bytes b
             then b <| lowest_free_bytes := free_bytes b |> else b in
    Some (ptr, b)
  else Some (ptr, b).

(** [alloc]: [inr] is the exception [bad_alloc]. *)
Definition alloc (b : buddy) (size : Z) : option ((Z + unit) * buddy) :=
  '(ptr, b) ← alloc_nothrow b size;
  Some (if ptr =? NULL then inr () else inl ptr, b).

Definition free (b : buddy) (ptr size : Z) : option buddy :=
  let b := b <| free_bytes ::= λ n, wrap64 (n + size) |> in
  order ← size_to_order size;
  free_order b ptr order.

Definition empty (b : buddy) : bool :=
  forallb (λ h, bool_decide (blocks h = [])) (orders b).
Definition get_base (b : buddy) : Z := base b.
Definition get_limit (b : buddy) : Z := limit b.
Definition contains (b : buddy) (ptr : Z) : bool := (get_base b <=? ptr) && (ptr <? get_limit b).
Definition get_free_bytes (b : buddy) : Z := free_bytes b.

Record stats := Stats {
  st_metadata_bytes : Z; st_waste_bytes : Z; st_free : Z; st_lowest_free : Z; st_nfree : list Z }.

(** The loop over the orders from [order] on, [n] of them left: the counts of
    free blocks and the bytes they add up to. *)
Fixpoint count_free (b : buddy) (order n : nat) (total : Z) : list Z * Z :=
  match n with
  | O => ([], total)
  | S n' =>
      let nfree := Z.of_nat (length (blk b order)) in
      let '(l, t) := count_free b (order + 1) n' (wrap64 (total + nfree * order_size order)) in
      (nfree :: l, t)
  end.
Definition get_stats (b : buddy) : option stats :=
  let '(nfree, total) := count_free b 0 (S MAX_ORDER) 0 in
  assert_ (total =? get_free_bytes b);;
  Some (Stats (bitmap_bytes b) (waste_bytes b) total (lowest_free_bytes b) nfree).

(** *** Construction *)

Definition zeros (n : Z) : list Z := replicate (Z.to_nat n) 0.
Definition set_order (b : buddy) (i : nat) (f : order_head → order_head) : buddy :=
  b <| orders ::= alter f i |>.

(** The bitmaps of the orders from [i] on are carved off the free space at
    [cur]; [None] is the early return for lack of room. *)
Fixpoint carve_bitmaps (b : buddy) (cur free_end nBlocks : Z) (i n : nat) : buddy * option Z :=
  match n with
  | O => (b, Some cur)
  | S n' =>
      let bitmapSize := (nBlocks + 7) / 8 in
      let b := set_order b i (λ h, h <| bitmap_at := cur |>) in
      if free_end <=? cur + bitmapSize then (b, None)
      else
        let b := set_order b i (λ h, h <| bitmap := zeros bitmapSize |>) in
        let cur := cur + bitmapSize in
        let b := set_order b i (λ h, h <| debug_at := cur |>) in
        if free_end <=? cur + bitmapSize then (b, None)
        else
          let b := set_order b i (λ h, h <| debug := zeros bitmapSize |>) in
          let cur := cur + bitmapSize in
          carve_bitmaps b cur free_end (nBlocks / 2) (i + 1) n'
  end.

(** The pages from [block] to [block_end] are freed, whole blocks of the
    highest order at once. *)
Fixpoint free_pages (fuel : nat) (b : buddy) (block block_end : Z) : option buddy :=
  if block <? block_end then
    match fuel with
    | O => None
    | S fuel' =>
        if (Z.land block (MAX_SIZE - 1) =? 0) && (block + MAX_SIZE <=? block_end)
        then b ← free_order b block MAX_ORDER; free_pages fuel' b (block + MAX_SIZE) block_end
        else b ← free_order b block 0; free_pages fuel' b (block + MIN_SIZE) block_end
    end
  else Some b.

(** The constructor, on the object [b] whose lists are empty and whose other
    members have no value yet. *)
Definition buddy_allocator (fuel : nat) (b : buddy) (base_ len track_base track_len : Z)
    : option buddy :=
  let '(track_base, track_len) :=
    if (track_base =? NULL) && (track_len =? 0) then (base_, len) else (track_base, track_len) in
  let free_base := base_ in
  let free_end := wrap64 (base_ + len) in
  let track_end := wrap64 (track_base + track_len) in
  assert_ ((track_base <=? base_) && (free_end <=? track_end));;
  let track_base := Z.ldiff track_base (MAX_SIZE - 1) in
  let track_end := Z.ldiff (wrap64 (track_end + MAX_SIZE - 1)) (MAX_SIZE - 1) in
  let track_len := wrap64 (track_end - track_base) in
  let nBlocks := track_len / MIN_SIZE in
  match carve_bitmaps b base_ free_end nBlocks 0 MAX_ORDER with
  | (b, None) => Some b
  | (b, Some cur) =>
      let b := set_order b MAX_ORDER (λ h, h <| bitmap_at := NULL |> <| debug_at := NULL |>) in
      let b := b <| base := track_base |> <| limit := track_end |> in
      let block_base := Z.ldiff (wrap64 (cur + MIN_SIZE - 1)) (MIN_SIZE - 1) in
      let block_end := Z.ldiff free_end (MIN_SIZE - 1) in
      let b := b <| highest_avail_order := O |> in
      b ← free_pages fuel b block_base block_end;
      let b := b <| free_bytes := wrap64 (block_end - block_base) |> in
      let b := b <| lowest_free_bytes := free_bytes b |> in
      let b := b <| bitmap_bytes := wrap64 (cur - free_base) |> in
      Some (b <| waste_bytes := wrap64 (block_base - cur) |>)
  end.
