(* ===== verification/BuddyView.v ===== *)
(** * Buddies, abstractly

    The arithmetic of buddies and what the free lists and pair bits of an
    allocator mean, apart from how they are stored: free blocks are aligned
    and disjoint, a pair bit is set when exactly one of the two buddies is on
    the free list of their order, and never are both. *)

From S2P Require Import Prelude Buddy.

(** ** Sizes and buddies *)

Lemma order_size_pow o : order_size o = 2 ^ (12 + Z.of_nat o).
Proof.
  unfold order_size, MIN_SIZE. rewrite Z.shiftl_mul_pow2; [lia|].
  change 4096 with (2 ^ 12). by rewrite -Z.pow_add_r; [lia..|].
Qed.

Lemma order_size_pos o : 0 < order_size o.
Proof. rewrite order_size_pow. apply Z.pow_pos_nonneg; lia. Qed.

Lemma order_size_S o : order_size (o + 1) = 2 * order_size o.
Proof.
  rewrite !order_size_pow Nat2Z.inj_add. rewrite (Z.add_assoc 12) Z.pow_add_r; lia.
Qed.

Lemma order_size_mono o p : (o ≤ p)%nat → (order_size o | order_size p).
Proof.
  intros H. exists (2 ^ (Z.of_nat p - Z.of_nat o)). rewrite !order_size_pow -Z.pow_add_r; [lia..|].
  f_equal. lia.
Qed.

Lemma order_size_le o p : (o ≤ p)%nat → order_size o ≤ order_size p.
Proof. intros H. rewrite !order_size_pow. apply Z.pow_le_mono_r; lia. Qed.

Definition aligned (a : Z) (o : nat) : Prop := a mod order_size o = 0.

Lemma aligned_divide a o : aligned a o ↔ (order_size o | a).
Proof. unfold aligned. apply Z.mod_divide. pose proof (order_size_pos o). lia. Qed.

Lemma aligned_le a o p : (o ≤ p)%nat → aligned a p → aligned a o.
Proof. rewrite !aligned_divide. intros H1 H2. eapply Z.divide_trans; [by apply order_size_mono|done]. Qed.

Lemma aligned_add a b o : aligned a o → aligned b o → aligned (a + b) o.
Proof. rewrite !aligned_divide. apply Z.divide_add_r. Qed.
Lemma aligned_sub a b o : aligned a o → aligned b o → aligned (a - b) o.
Proof. rewrite !aligned_divide. apply Z.divide_sub_r. Qed.
Lemma aligned_size o p : (o ≤ p)%nat → aligned (order_size p) o.
Proof. intros H. apply aligned_divide. by apply order_size_mono. Qed.

(** The two blocks of a pair: the first one is aligned to their parent. *)
Definition parent (a : Z) (o : nat) : Z := a - a mod order_size (o + 1).

Lemma parent_cases a o :
  aligned a o →
  aligned (parent a o) (o + 1) ∧ (a = parent a o ∨ a = parent a o + order_size o).
Proof.
  intros Ha%aligned_divide. destruct Ha as [j ->]. unfold parent.
  pose proof (order_size_pos o) as Hs. split.
  - apply aligned_divide. exists (j * order_size o / order_size (o + 1)).
    pose proof (order_size_pos (o + 1)).
    pose proof (Z.div_mod (j * order_size o) (order_size (o + 1)) ltac:(lia)). lia.
  - rewrite order_size_S Z.mul_mod_distr_r; [lia|lia|].
    assert (j mod 2 = 0 ∨ j mod 2 = 1) as [-> | ->] by (pose proof (Z.mod_pos_bound j 2 eq_refl); lia); lia.
Qed.

Lemma parent_unique a o par :
  aligned par (o + 1) → par ≤ a < par + order_size (o + 1) → parent a o = par.
Proof.
  intros [j ->]%aligned_divide Ha. unfold parent.
  rewrite -(Z.mod_unique_pos a (order_size (o + 1)) j (a - j * order_size (o + 1))); lia.
Qed.

(** Masking and flipping the bit of the order, as the code does. *)
Lemma ldiff_parent a o : aligned a o → Z.ldiff a (order_size o) = parent a o.
Proof.
  intros [j ->]%aligned_divide. unfold parent.
  rewrite order_size_S Z.mul_mod_distr_r; [pose proof (order_size_pos o); lia..|].
  rewrite order_size_pow. set (n := 12 + Z.of_nat o).
  assert (Z.ldiff (j * 2 ^ n) (2 ^ n) = Z.shiftl (Z.ldiff j (Z.ones 1)) n) as ->.
  { rewrite Z.shiftl_ldiff !Z.shiftl_mul_pow2; [lia..|]. by rewrite Z.mul_1_l. }
  rewrite Z.ldiff_ones_r // !Z.shiftl_mul_pow2; [lia..|]. rewrite Z.shiftr_div_pow2 //.
  change (2 ^ 1) with 2. pose proof (Z.div_mod j 2 ltac:(done)). nia.
Qed.

Lemma lxor_buddy a o :
  aligned a o →
  Z.lxor a (order_size o) = if a =? parent a o then a + order_size o else parent a o.
Proof.
  intros Ha. pose proof (order_size_pos o) as Hs.
  assert (∀ c, aligned c (o + 1) → Z.lxor c (order_size o) = c + order_size o) as Heven.
  { intros c [j ->]%aligned_divide. symmetry. apply Z.add_nocarry_lxor.
    rewrite order_size_S order_size_pow. set (n := 12 + Z.of_nat o).
    replace (j * (2 * 2 ^ n)) with ((j * 2) * 2 ^ n) by lia.
    assert (Z.land (j * 2 * 2 ^ n) (2 ^ n) = Z.shiftl (Z.land (j * 2) (Z.ones 1)) n) as ->.
    { rewrite Z.shiftl_land !Z.shiftl_mul_pow2; [lia..|]. by rewrite Z.mul_1_l. }
    rewrite Z.land_ones // Z.mod_mul // Z.shiftl_0_l //. }
  destruct (parent_cases a o Ha) as [Hp [E|E]].
  - rewrite -E Z.eqb_refl. apply Heven. by rewrite E.
  - destruct (Z.eqb_spec a (parent a o)); [lia|]. rewrite {1}E -(Heven _ Hp).
    by rewrite Z.lxor_assoc Z.lxor_nilpotent Z.lxor_0_r.
Qed.

(** ** Free lists and pair bits *)

Section view.
Context (base limit : Z).

(** The pair of buddies of order [o] whose parent is at [par] has the bit with
    this index. *)
Definition pair_index (o : nat) (a : Z) : Z := (a - base) / order_size (o + 1).

(** A block the allocator can track. *)
Definition block_ok (o : nat) (a : Z) : Prop :=
  (o ≤ MAX_ORDER)%nat ∧ 0 < a ∧ base ≤ a ∧ a + order_size o ≤ limit ∧ aligned a o.

Definition overlap (a n c k : Z) : Prop := a < c + k ∧ c < a + n.

(** [B]: the free list of every order; [T]: the bits. *)
Record wf (B : nat → list Z) (T : nat → Z → bool) : Prop := Wf {
  wf_base : aligned base MAX_ORDER;
  wf_limit : aligned limit MAX_ORDER;
  wf_blocks : ∀ o a, a ∈ B o → block_ok o a;
  wf_nodup : ∀ o, NoDup (B o);
  wf_disjoint : ∀ o a p c, a ∈ B o → c ∈ B p →
    overlap a (order_size o) c (order_size p) → o = p ∧ a = c;
  wf_bits : ∀ o par, (o < MAX_ORDER)%nat → aligned par (o + 1) → base ≤ par < limit →
    T o (pair_index o par)
    = xorb (bool_decide (par ∈ B o)) (bool_decide (par + order_size o ∈ B o));
  wf_merged : ∀ o par, (o < MAX_ORDER)%nat → aligned par (o + 1) →
    ¬ (par ∈ B o ∧ par + order_size o ∈ B o) }.

(** The address [x] is in a free block. *)
Definition covered (B : nat → list Z) (x : Z) : Prop :=
  ∃ o a, a ∈ B o ∧ a ≤ x < a + order_size o.

Definition uncovered (B : nat → list Z) (a n : Z) : Prop :=
  ∀ x, a ≤ x < a + n → ¬ covered B x.

(** The bytes in free blocks. *)
Definition total (B : nat → list Z) : Z :=
  foldr (λ o t, Z.of_nat (length (B o)) * order_size o + t) 0 (seq 0 (S MAX_ORDER)).

(** [B'] is [B] with the block [a] more on the list of order [o]. *)
Definition adds (o : nat) (a : Z) (B B' : nat → list Z) : Prop :=
  B' o ≡ₚ a :: B o ∧ ∀ p, p ≠ o → B' p = B p.

(** [T'] is [T] with the bit of the pair of [a] flipped, if there is one. *)
Definition flips (o : nat) (a : Z) (T T' : nat → Z → bool) : Prop :=
  ∀ p k, 0 ≤ k → T' p k = if decide (p = o ∧ k = pair_index o a ∧ (o < MAX_ORDER)%nat)
                          then negb (T p k) else T p k.

Lemma adds_elem o a B B' p c :
  adds o a B B' → c ∈ B' p ↔ (p = o ∧ c = a) ∨ c ∈ B p.
Proof.
  intros [H1 H2]. destruct (decide (p = o)) as [->|Hne].
  - rewrite H1 elem_of_cons. naive_solver.
  - rewrite H2 //. naive_solver.
Qed.

Lemma adds_covered o a B B' x :
  adds o a B B' → covered B' x ↔ covered B x ∨ a ≤ x < a + order_size o.
Proof.
  intros H. unfold covered. split.
  - intros (p & c & Hc & Hx). apply (adds_elem _ _ _ _ _ _ H) in Hc as [[-> ->]|Hc]; [by right|].
    left. eauto.
  - intros [(p & c & Hc & Hx)|Hx].
    + exists p, c. split; [|done]. apply (adds_elem _ _ _ _ _ _ H). by right.
    + exists o, a. split; [|done]. apply (adds_elem _ _ _ _ _ _ H). by left.
Qed.

Lemma foldr_change (f g : nat → Z) (l : list nat) (o : nat) (d : Z) :
  NoDup l → o ∈ l → f o = g o + d → (∀ p, p ≠ o → f p = g p) →
  foldr (λ p t, f p + t) 0 l = foldr (λ p t, g p + t) 0 l + d.
Proof.
  intros Hnd Hin Ho Hp. induction l as [|p l IH]; [by apply elem_of_nil in Hin|].
  apply NoDup_cons in Hnd as [Hnp Hnd]. simpl. destruct (decide (p = o)) as [->|Hne].
  - assert (foldr (λ p t, f p + t) 0 l = foldr (λ p t, g p + t) 0 l) as ->; [|lia].
    clear IH Hin Hnd. induction l as [|q l IH]; [done|]. simpl.
    apply not_elem_of_cons in Hnp as [? ?]. by rewrite IH // Hp.
  - apply elem_of_cons in Hin as [->|Hin]; [done|]. rewrite IH // Hp //. lia.
Qed.

Lemma adds_total o a B B' :
  (o ≤ MAX_ORDER)%nat → adds o a B B' → total B' = total B + order_size o.
Proof.
  intros Ho [H1 H2]. unfold total.
  apply (foldr_change (λ p, Z.of_nat (length (B' p)) * order_size p)
                      (λ p, Z.of_nat (length (B p)) * order_size p) _ o).
  - apply NoDup_seq.
  - apply elem_of_seq. lia.
  - rewrite H1. simpl. lia.
  - intros p Hp. by rewrite H2.
Qed.

(** A block and its buddy have the same bit, and no other pair has it. *)
Lemma pair_index_parent o a :
  (o < MAX_ORDER)%nat → aligned base MAX_ORDER → aligned a o →
  pair_index o a = pair_index o (parent a o).
Proof.
  intros Ho Hb Ha. destruct (parent_cases a o Ha) as [Hp [<-|E]]; [done|].
  assert (aligned (parent a o - base) (o + 1)) as [j Hj]%aligned_divide.
  { apply aligned_sub; [done|]. eapply aligned_le; [|done]. unfold MAX_ORDER in *. lia. }
  pose proof (order_size_pos o). unfold pair_index. rewrite {1}E.
  replace (parent a o + order_size o - base) with (order_size o + j * order_size (o + 1)) by lia.
  rewrite Hj !Z.div_add ?Z.div_mul; try (rewrite order_size_S; lia).
  rewrite Z.div_small; [rewrite order_size_S; lia|]. lia.
Qed.

Lemma pair_index_inj o par par' :
  (o < MAX_ORDER)%nat → aligned base MAX_ORDER → aligned par (o + 1) → aligned par' (o + 1) →
  pair_index o par = pair_index o par' → par = par'.
Proof.
  intros Ho Hb H1 H2. assert (aligned base (o + 1)) as Hb1.
  { eapply aligned_le; [|done]. unfold MAX_ORDER in *. lia. }
  pose proof (order_size_pos (o + 1)).
  assert (aligned (par - base) (o + 1)) as [j Hj]%aligned_divide by by apply aligned_sub.
  assert (aligned (par' - base) (o + 1)) as [j' Hj']%aligned_divide by by apply aligned_sub.
  unfold pair_index. rewrite Hj Hj' !Z.div_mul; lia.
Qed.

Lemma pair_index_range o a :
  (o < MAX_ORDER)%nat → aligned base MAX_ORDER → aligned limit MAX_ORDER → base ≤ a < limit →
  0 ≤ pair_index o a < (limit - base) / order_size (o + 1).
Proof.
  intros Ho Hb Hl Ha. pose proof (order_size_pos (o + 1)). unfold pair_index.
  assert (aligned (limit - base) (o + 1)) as [j Hj]%aligned_divide.
  { apply aligned_sub; (eapply aligned_le; [|eassumption]); unfold MAX_ORDER in *; lia. }
  split; [apply Z.div_pos; lia|]. rewrite Hj Z.div_mul; [lia|].
  apply Z.div_lt_upper_bound; lia.
Qed.

(** The other block of the pair. *)
Definition buddy_of (a : Z) (o : nat) : Z :=
  if a =? parent a o then a + order_size o else parent a o.

Lemma buddy_cases a o :
  aligned a o →
  (a = parent a o ∧ buddy_of a o = parent a o + order_size o) ∨
  (a = parent a o + order_size o ∧ buddy_of a o = parent a o).
Proof.
  intros Ha. pose proof (order_size_pos o). unfold buddy_of.
  destruct (parent_cases a o Ha) as [_ [E|E]].
  - left. by rewrite -E Z.eqb_refl.
  - right. destruct (Z.eqb_spec a (parent a o)); [lia|done].
Qed.

(** Membership of the two blocks of a pair, with and without one more. *)
Lemma adds_pair o a B B' par :
  adds o a B B' → a ∉ B o → aligned a o → aligned par (o + 1) →
  xorb (bool_decide (par ∈ B' o)) (bool_decide (par + order_size o ∈ B' o))
  = if decide (par = parent a o)
    then negb (xorb (bool_decide (par ∈ B o)) (bool_decide (par + order_size o ∈ B o)))
    else xorb (bool_decide (par ∈ B o)) (bool_decide (par + order_size o ∈ B o)).
Proof.
  intros Hadd Hnin Ha Hpar. pose proof (order_size_pos o) as Hs.
  assert (∀ c, bool_decide (c ∈ B' o) = bool_decide (c = a) || bool_decide (c ∈ B o)) as Hel.
  { intros c. pose proof (adds_elem _ _ _ _ o c Hadd) as Hc. repeat case_bool_decide; naive_solver. }
  rewrite !Hel. clear Hel. rewrite -(bool_decide_eq_false (a ∈ B o)) in Hnin.
  destruct (parent_cases a o Ha) as [_ Hcase]. destruct (decide (par = parent a o)) as [E|E].
  - destruct Hcase as [Hc|Hc].
    + rewrite (bool_decide_eq_true_2 (par = a)); [lia|].
      rewrite (bool_decide_eq_false_2 (par + _ = a)); [lia|].
      replace par with a by lia. rewrite Hnin. by destruct (bool_decide _).
    + rewrite (bool_decide_eq_false_2 (par = a)); [lia|].
      rewrite (bool_decide_eq_true_2 (par + _ = a)); [lia|].
      replace (par + order_size o) with a by lia. rewrite Hnin. by destruct (bool_decide (par ∈ B o)).
  - assert (par ≠ a ∧ par + order_size o ≠ a) as [H1 H2].
    { split; intros <-; apply E; symmetry; apply parent_unique; try done; rewrite order_size_S; lia. }
    by rewrite !(bool_decide_eq_false_2 (_ = a)).
Qed.

Lemma flips_pair o a T T' p par B :
  wf B T → flips o a T T' → aligned a o →
  (p < MAX_ORDER)%nat → aligned par (p + 1) → base ≤ par < limit →
  T' p (pair_index p par)
  = if decide (p = o ∧ par = parent a o) then negb (T p (pair_index p par)) else T p (pair_index p par).
Proof.
  intros [Hb Hl _ _ _ _ _] Hf Ha Hp Hpar Hr. rewrite Hf.
  { by apply pair_index_range. }
  destruct (decide (p = o)) as [->|Hne]; [|rewrite !decide_False; naive_solver].
  rewrite (pair_index_parent o a) //.
  destruct (decide (par = parent a o)) as [->|Hpne].
  - rewrite decide_True //. by rewrite decide_True.
  - rewrite decide_False; [intros (_ & E & _)|by rewrite decide_False; naive_solver].
    apply Hpne. apply (pair_index_inj o); try done. by apply parent_cases.
Qed.

(** A block that is not covered, and whose buddy is not free, joins its list. *)
Lemma wf_add o a B T B' T' :
  wf B T → block_ok o a → uncovered B a (order_size o) →
  ((o < MAX_ORDER)%nat → buddy_of a o ∉ B o) →
  adds o a B B' → flips o a T T' → wf B' T'.
Proof.
  intros Hwf Hok Hunc Hbud Hadd Hf. pose proof Hok as (Ho & Hpos & Hbase & Hlim & Ha).
  assert (a ∉ B o) as Hnin.
  { intros H. apply (Hunc a); [pose proof (order_size_pos o); lia|]. exists o, a.
    pose proof (order_size_pos o). split; [done|lia]. }
  assert (∀ p c, c ∈ B p → ¬ overlap a (order_size o) c (order_size p)) as Hnov.
  { intros p c Hc [H1 H2]. pose proof (order_size_pos o). pose proof (order_size_pos p).
    apply (Hunc (Z.max a c)); [lia|]. exists p, c. split; [done|lia]. }
  split.
  - apply Hwf.
  - apply Hwf.
  - intros p c [[-> ->]|Hc]%(adds_elem _ _ _ _ _ _ Hadd); [done|]. by eapply wf_blocks.
  - intros p. destruct (decide (p = o)) as [->|Hne].
    + destruct Hadd as [-> _]. apply NoDup_cons. split; [done|]. by eapply wf_nodup.
    + destruct Hadd as [_ Hadd]. rewrite Hadd //. by eapply wf_nodup.
  - intros p c p' c' Hc Hc' Hov.
    apply (adds_elem _ _ _ _ _ _ Hadd) in Hc as [[-> ->]|Hc];
      apply (adds_elem _ _ _ _ _ _ Hadd) in Hc' as [[-> ->]|Hc']; [done| | |].
    + by apply Hnov in Hov.
    + destruct (Hnov p c Hc). destruct Hov. by split.
    + by eapply wf_disjoint.
  - intros p par Hp Hpar Hr. rewrite (flips_pair o a T T' p par B) // (wf_bits _ _ Hwf) //.
    destruct (decide (p = o)) as [->|Hne].
    + rewrite (adds_pair o a B B') //. destruct (decide (par = parent a o)) as [->|].
      * by rewrite decide_True.
      * by rewrite decide_False; [naive_solver|].
    + rewrite decide_False; [naive_solver|]. destruct Hadd as [_ Hadd]. by rewrite Hadd.
  - intros p par Hp Hpar [H1 H2]. destruct (decide (p = o)) as [->|Hne].
    + specialize (Hbud Hp). pose proof (order_size_pos o) as Hs.
      apply (adds_elem _ _ _ _ _ _ Hadd) in H1, H2.
      assert (∀ c, c = a → par ≤ c < par + order_size (o + 1) → parent a o = par) as Hpu.
      { intros c -> Hc. by apply parent_unique. }
      rewrite order_size_S in Hpu.
      destruct H1 as [[_ E1]|H1], H2 as [[_ E2]|H2].
      * lia.
      * specialize (Hpu par E1 ltac:(lia)). destruct (buddy_cases a o Ha) as [[? E]|[? E]]; [|lia].
        apply Hbud. by rewrite E Hpu.
      * specialize (Hpu _ E2 ltac:(lia)). destruct (buddy_cases a o Ha) as [[? E]|[? E]]; [lia|].
        apply Hbud. by rewrite E Hpu.
      * by apply (wf_merged _ _ Hwf o par).
    + destruct Hadd as [_ Hadd]. rewrite Hadd // in H1 H2. by apply (wf_merged _ _ Hwf p par).
Qed.

(** A block leaves its list. *)
Lemma wf_remove o a B T B' T' :
  wf B' T' → adds o a B B' → flips o a T' T → wf B T ∧ uncovered B a (order_size o) ∧ block_ok o a.
Proof.
  intros Hwf Hadd Hf.
  assert (a ∈ B' o) as Hin by (apply (adds_elem _ _ _ _ _ _ Hadd); by left).
  pose proof (wf_blocks _ _ Hwf _ _ Hin) as Hok. pose proof Hok as (Ho & Hpos & Hbase & Hlim & Ha).
  assert (a ∉ B o) as Hnin.
  { pose proof (wf_nodup _ _ Hwf o) as Hnd. destruct Hadd as [H1 _]. rewrite H1 in Hnd.
    by apply NoDup_cons in Hnd as [? _]. }
  assert (∀ p c, c ∈ B p → c ∈ B' p) as Hsub.
  { intros p c Hc. apply (adds_elem _ _ _ _ _ _ Hadd). by right. }
  split_and!; [split| |done].
  - apply Hwf.
  - apply Hwf.
  - intros p c Hc. by eapply wf_blocks, Hsub.
  - intros p. pose proof (wf_nodup _ _ Hwf p) as Hnd. destruct (decide (p = o)) as [->|Hne].
    + destruct Hadd as [H1 _]. rewrite H1 in Hnd. by apply NoDup_cons in Hnd as [_ ?].
    + destruct Hadd as [_ Hadd]. by rewrite -Hadd.
  - intros p c p' c' Hc Hc'. by apply (wf_disjoint _ _ Hwf); apply Hsub.
  - intros p par Hp Hpar Hr. rewrite (flips_pair o a T' T p par B') // (wf_bits _ _ Hwf) //.
    destruct (decide (p = o)) as [->|Hne].
    + rewrite (adds_pair o a B B') //. destruct (decide (par = parent a o)) as [->|].
      * rewrite decide_True //. by rewrite negb_involutive.
      * by rewrite decide_False; [naive_solver|].
    + rewrite decide_False; [naive_solver|]. destruct Hadd as [_ Hadd]. by rewrite Hadd.
  - intros p par Hp Hpar [H1 H2]. apply (wf_merged _ _ Hwf p par); auto.
  - intros x Hx (p & c & Hc & Hcx). assert (o = p ∧ a = c) as [<- <-]; [|done].
    apply (wf_disjoint _ _ Hwf); auto. unfold overlap. lia.
Qed.
End view.

#[global] Arguments total : simpl never.
#[global] Arguments order_size : simpl never.
