(* ===== verification/BuddyInv.v ===== *)
(** * Correctness of the buddy allocator

    The invariant of the allocator of [Buddy], that its operations keep it and
    never fail an assertion, what they do to the set of free addresses, and
    that construction establishes it. *)

From S2P Require Import Prelude Buddy BuddyView.

Lemma bind_some {A B} (x : A) (f : A → option B) : (Some x ≫= f) = f x.
Proof. reflexivity. Qed.

(** ** Bitmaps *)

(** Bit [k] of the bitmap of an order. *)
Definition bit (b : buddy) (o : nat) (k : Z) : bool :=
  match orders b !! o with
  | Some h => Z.testbit (nth (Z.to_nat (k / 8)) (bitmap h) 0) (k mod 8)
  | None => false
  end.

(** The sizes of the two bitmaps of an order. *)
Definition shape (b : buddy) (o : nat) : option (nat * nat) :=
  (λ h, (length (bitmap h), length (debug h))) <$> orders b !! o.

(** Everything but the lists, the bits and [highest_avail_order] is the same. *)
Definition same (b b' : buddy) : Prop :=
  base b' = base b ∧ limit b' = limit b ∧ free_bytes b' = free_bytes b ∧
  lowest_free_bytes b' = lowest_free_bytes b ∧ bitmap_bytes b' = bitmap_bytes b ∧
  waste_bytes b' = waste_bytes b ∧ ∀ o, shape b' o = shape b o.

#[export] Instance same_preorder : PreOrder same.
Proof.
  split; [done|]. intros a b c (H1 & H2 & H3 & H4 & H5 & H6 & H7) (G1 & G2 & G3 & G4 & G5 & G6 & G7).
  split_and!; congruence.
Qed.

(** Every order has its list, and bitmaps for all its pairs. *)
Definition maps_ok (b : buddy) : Prop :=
  ∀ o, (o ≤ MAX_ORDER)%nat → ∃ n d, shape b o = Some (n, d) ∧
    ((o < MAX_ORDER)%nat →
       (limit b - base b) / order_size (o + 1) ≤ 8 * Z.of_nat n ∧
       (limit b - base b) / order_size (o + 1) ≤ 8 * Z.of_nat d).

Lemma same_maps_ok b b' : same b b' → maps_ok b → maps_ok b'.
Proof.
  intros (H1 & H2 & _ & _ & _ & _ & H7) H o Ho. rewrite H1 H2 H7. by apply H.
Qed.

(** The mask of a bit. *)
Lemma truth_land_mask x j : 0 ≤ j → truth (Z.land x (Z.shiftl 1 j)) = Z.testbit x j.
Proof.
  intros Hj. rewrite Z.shiftl_1_l. unfold truth.
  destruct (Z.testbit x j) eqn:E.
  - destruct (Z.eqb_spec (Z.land x (2 ^ j)) 0) as [H|]; [|done].
    assert (Z.testbit (Z.land x (2 ^ j)) j = true) as Hb
      by (rewrite Z.land_spec E Z.pow2_bits_true //).
    by rewrite H Z.bits_0 in Hb.
  - assert (Z.land x (2 ^ j) = 0) as ->; [|done]. apply Z.bits_inj'. intros i Hi.
    rewrite Z.land_spec Z.pow2_bits_eqb // Z.bits_0.
    destruct (Z.eqb_spec j i) as [<-|]; [by rewrite E|by rewrite andb_false_r].
Qed.

Lemma lxor_mask_testbit x j i :
  0 ≤ j → Z.testbit (Z.lxor x (Z.shiftl 1 j)) i = xorb (Z.testbit x i) (j =? i).
Proof. intros Hj. by rewrite Z.shiftl_1_l Z.lxor_spec Z.pow2_bits_eqb. Qed.

Lemma pair_bit_index b ptr o :
  base b ≤ ptr → pair_bit b ptr o = pair_index (base b) o ptr.
Proof.
  intros H. unfold pair_bit, pair_index. rewrite Z.shiftr_div_pow2; [lia|].
  rewrite Z.div_div; [done|apply Z.pow_pos_nonneg; lia|]. f_equal.
  rewrite order_size_pow. unfold MIN_SIZE. change 4096 with (2 ^ 12).
  rewrite -Z.pow_add_r; [lia..|]. f_equal. lia.
Qed.

(** ** The primitives *)

Lemma flip_bit_spec b ptr o :
  maps_ok b → (o < MAX_ORDER)%nat → aligned (base b) MAX_ORDER → aligned (limit b) MAX_ORDER →
  base b ≤ ptr < limit b →
  ∃ b', flip_bit b ptr o = Some (negb (bit b o (pair_index (base b) o ptr)), b') ∧
    same b b' ∧ highest_avail_order b' = highest_avail_order b ∧
    (∀ p, blk b' p = blk b p) ∧ flips (base b) o ptr (bit b) (bit b').
Proof.
  intros Hm Ho Hb Hl Hp. pose proof (pair_index_range _ _ o ptr Ho Hb Hl Hp) as Hk.
  destruct (Hm o ltac:(lia)) as (n & d & Hsh & Hroom). destruct (Hroom Ho) as [Hn _].
  unfold shape in Hsh. destruct (orders b !! o) as [h|] eqn:Eh; [|done]. injection Hsh as <- <-.
  unfold flip_bit. rewrite pair_bit_index; [lia|]. set (k := pair_index (base b) o ptr) in *.
  assert (0 ≤ k mod 8 < 8) as Hk8 by by apply Z.mod_pos_bound.
  assert (0 ≤ k / 8) as Hkd by (apply Z.div_pos; lia).
  assert (Z.to_nat (k / 8) < length (bitmap h))%nat as Hlt.
  { assert (k / 8 < Z.of_nat (length (bitmap h))); [|lia]. apply Z.div_lt_upper_bound; lia. }
  destruct (lookup_lt_is_Some_2 (bitmap h) (Z.to_nat (k / 8)) Hlt) as [x Hx].
  rewrite Eh bind_some Hx bind_some.
  unfold bit_mask. set (x' := Z.lxor x (Z.shiftl 1 (k mod 8))).
  eexists. split; [|split_and!].
  - f_equal. f_equal. unfold bit. rewrite Eh (nth_lookup_Some _ _ _ _ Hx) truth_land_mask; [lia|].
    unfold x'. rewrite lxor_mask_testbit; [lia|]. rewrite Z.eqb_refl. by destruct (Z.testbit _ _).
  - split_and!; try done. intros p. unfold shape. cbn. destruct (decide (p = o)) as [->|].
    + rewrite list_lookup_alter_eq Eh /= length_insert. done.
    + by rewrite list_lookup_alter_ne.
  - done.
  - intros p. unfold blk. cbn. destruct (decide (p = o)) as [->|].
    + by rewrite list_lookup_alter_eq Eh.
    + by rewrite list_lookup_alter_ne.
  - intros p j Hj. unfold bit. cbn. destruct (decide (p = o)) as [->|Hne].
    2:{ rewrite list_lookup_alter_ne //. rewrite decide_False; naive_solver. }
    rewrite list_lookup_alter_eq Eh /=. destruct (decide (j / 8 = k / 8)) as [E8|E8].
    + rewrite E8 (nth_lookup_Some _ _ _ x'); [by rewrite list_lookup_insert_eq|].
      rewrite (nth_lookup_Some _ _ _ _ Hx). unfold x'. rewrite lxor_mask_testbit; [lia|].
      destruct (Z.eqb_spec (k mod 8) (j mod 8)) as [Em|Em].
      * rewrite decide_True; [|by destruct (Z.testbit _ _)]. split_and!; [done| |done].
        pose proof (Z.div_mod j 8 ltac:(done)). pose proof (Z.div_mod k 8 ltac:(done)).
        change (j = k). lia.
      * rewrite decide_False; [naive_solver|]. by rewrite xorb_false_r.
    + rewrite decide_False; [naive_solver|]. f_equal.
      assert (Z.to_nat (k / 8) ≠ Z.to_nat (j / 8)) as Hne.
      { assert (0 ≤ j / 8) by (apply Z.div_pos; lia). lia. }
      rewrite !nth_lookup. by rewrite list_lookup_insert_ne.
Qed.

(** Two allocators with the same lists and bits. *)
Definition same_view (b b' : buddy) : Prop :=
  (∀ p, blk b' p = blk b p) ∧ (∀ p k, bit b' p k = bit b p k).

Lemma mark_allocated_spec b ptr o v :
  maps_ok b → (o ≤ MAX_ORDER)%nat → aligned (base b) MAX_ORDER → aligned (limit b) MAX_ORDER →
  base b ≤ ptr < limit b →
  ∃ b', mark_allocated b ptr o v = Some b' ∧ same b b' ∧
    highest_avail_order b' = highest_avail_order b ∧ same_view b b'.
Proof.
  intros Hm Ho Hb Hl Hp. unfold mark_allocated.
  destruct (Nat.eqb_spec o MAX_ORDER) as [|Hne]; [by exists b|].
  destruct (ptr =? Z.ldiff ptr (order_size o)); [|by exists b]. cbn [negb].
  pose proof (pair_index_range _ _ o ptr ltac:(lia) Hb Hl Hp) as Hk.
  destruct (Hm o Ho) as (n & d & Hsh & Hroom). destruct Hroom as [_ Hn]; [lia|].
  unfold shape in Hsh. destruct (orders b !! o) as [h|] eqn:Eh; [|done]. injection Hsh as <- <-.
  rewrite pair_bit_index; [lia|]. set (k := pair_index (base b) o ptr) in *.
  assert (Z.to_nat (k / 8) < length (debug h))%nat as Hlt.
  { assert (k / 8 < Z.of_nat (length (debug h))); [apply Z.div_lt_upper_bound; lia|].
    assert (0 ≤ k / 8) by (apply Z.div_pos; lia). lia. }
  destruct (lookup_lt_is_Some_2 (debug h) (Z.to_nat (k / 8)) Hlt) as [x Hx].
  rewrite bind_some Hx bind_some. eexists. split; [done|]. split_and!; [|done|split].
  - split_and!; try done. intros p. unfold shape. cbn. destruct (decide (p = o)) as [->|].
    + by rewrite list_lookup_alter_eq Eh /= length_insert.
    + by rewrite list_lookup_alter_ne.
  - intros p. unfold blk. cbn. destruct (decide (p = o)) as [->|].
    + by rewrite list_lookup_alter_eq Eh.
    + by rewrite list_lookup_alter_ne.
  - intros p j. unfold bit. cbn. destruct (decide (p = o)) as [->|].
    + by rewrite list_lookup_alter_eq Eh.
    + by rewrite list_lookup_alter_ne.
Qed.

Lemma set_blk_spec b o l :
  maps_ok b → (o ≤ MAX_ORDER)%nat →
  same b (set_blk b o l) ∧ highest_avail_order (set_blk b o l) = highest_avail_order b ∧
  (∀ p, blk (set_blk b o l) p = if decide (p = o) then l else blk b p) ∧
  (∀ p k, bit (set_blk b o l) p k = bit b p k).
Proof.
  intros Hm Ho. destruct (Hm o Ho) as (n & d & Hsh & _). unfold shape in Hsh.
  destruct (orders b !! o) as [h|] eqn:Eh; [|done]. unfold set_blk. split_and!; [split_and!| | |]; try done.
  - intros p. unfold shape. cbn. destruct (decide (p = o)) as [->|].
    + by rewrite list_lookup_alter_eq Eh.
    + by rewrite list_lookup_alter_ne.
  - intros p. unfold blk. cbn. case_decide as E; [subst p|].
    + by rewrite list_lookup_alter_eq Eh.
    + by rewrite list_lookup_alter_ne.
  - intros p k. unfold bit. cbn. destruct (decide (p = o)) as [->|].
    + by rewrite list_lookup_alter_eq Eh.
    + by rewrite list_lookup_alter_ne.
Qed.

(** ** The invariant *)

Definition wf_buddy (b : buddy) : Prop := wf (base b) (limit b) (blk b) (bit b).

(** No free block is above [highest_avail_order]. *)
Definition below_top (b : buddy) : Prop :=
  (highest_avail_order b ≤ MAX_ORDER)%nat ∧
  ∀ o, blk b o ≠ [] → (o ≤ highest_avail_order b)%nat.

(** [highest_avail_order] is reached, or is at most [o]. *)
Definition top (b : buddy) (o : nat) : Prop :=
  blk b (highest_avail_order b) ≠ [] ∨ (highest_avail_order b ≤ o)%nat.

Definition inv0 (b : buddy) : Prop := wf_buddy b ∧ maps_ok b ∧ below_top b.
Definition inv (b : buddy) : Prop := inv0 b ∧ top b 0.

Lemma wf_ext base limit B T B' T' :
  (∀ p, B' p = B p) → (∀ p k, 0 ≤ k → T' p k = T p k) →
  wf base limit B T → wf base limit B' T'.
Proof.
  intros HB HT [H1 H2 H3 H4 H5 H6 H7]. split; auto.
  - intros o a. rewrite HB. apply H3.
  - intros o. rewrite HB. apply H4.
  - intros o a p c. rewrite !HB. apply H5.
  - intros o par Ho Ha Hr. rewrite HB HT; [by apply pair_index_range with limit|]. by apply H6.
  - intros o par Ho Ha. rewrite HB. by apply H7.
Qed.

Lemma same_view_wf b b' : same b b' → same_view b b' → wf_buddy b → wf_buddy b'.
Proof.
  intros (E1 & E2 & _) [H1 H2]. unfold wf_buddy. rewrite E1 E2. apply wf_ext; auto.
Qed.

(** A flip after a change of the lists, seen from before it. *)
Lemma flips_ext base o a T T' T1 :
  (∀ p k, T1 p k = T p k) → flips base o a T1 T' → flips base o a T T'.
Proof. intros HE Hf p k Hk. by rewrite Hf // HE. Qed.

Lemma flips_none base a T : flips base MAX_ORDER a T T.
Proof. intros p k _. rewrite decide_False //. lia. Qed.

Lemma blk_covered b b' :
  (∀ p, blk b' p = blk b p) →
  (∀ x, covered (blk b') x ↔ covered (blk b) x) ∧ total (blk b') = total (blk b).
Proof.
  intros H. split.
  - intros x. unfold covered. by setoid_rewrite H.
  - unfold total. cbn. by rewrite !H.
Qed.

Lemma highest_below_spec b o :
  (highest_below b o ≤ o)%nat ∧ (∀ p, (p < o)%nat → blk b p ≠ [] → (p ≤ highest_below b o)%nat) ∧
  (blk b (highest_below b o) ≠ [] ∨ highest_below b o = O).
Proof.
  induction o as [|o (IH1 & IH2 & IH3)]; [split_and!; [done|lia|by right]|]. cbn [highest_below].
  destruct (blk b o) as [|x l] eqn:E.
  - split_and!; [lia| |done]. intros p Hp Hne. destruct (decide (p = o)) as [->|]; [done|]. apply IH2; [lia|done].
  - split_and!; [lia|lia|]. left. by rewrite E.
Qed.

(** ** Allocation *)

(** The block [a] of order [o] is taken out of the free memory of [b]. *)
Definition took (o : nat) (a : Z) (b b' : buddy) : Prop :=
  inv b' ∧ same b b' ∧ block_ok (base b) (limit b) o a ∧ uncovered (blk b') a (order_size o) ∧
  (∀ x, covered (blk b) x ↔ covered (blk b') x ∨ a ≤ x < a + order_size o) ∧
  total (blk b) = total (blk b') + order_size o.

Lemma block_in_range b o a :
  block_ok (base b) (limit b) o a → base b ≤ a < limit b ∧ ((base b <=? a) && (a <? limit b)) = true.
Proof.
  intros (_ & _ & ? & ? & _). pose proof (order_size_pos o). split; [lia|].
  destruct (Z.leb_spec (base b) a), (Z.ltb_spec a (limit b)); done || lia.
Qed.

Lemma free_pair_bit b o a :
  wf_buddy b → (o < MAX_ORDER)%nat → a ∈ blk b o → bit b o (pair_index (base b) o a) = true.
Proof.
  intros Hwf Ho Ha. pose proof (wf_blocks _ _ _ _ Hwf _ _ Ha) as (_ & _ & Hb & Hl & Hal).
  rewrite (pair_index_parent _ o a Ho (wf_base _ _ _ _ Hwf) Hal).
  destruct (parent_cases a o Hal) as [Hpar Hcase]. pose proof (order_size_pos o).
  assert (base b ≤ parent a o) as Hge.
  { destruct Hcase as [E|E]; [lia|].
    assert (aligned (base b) (o + 1)) as [j Hj]%aligned_divide.
    { eapply aligned_le; [|apply (wf_base _ _ _ _ Hwf)]. unfold MAX_ORDER in *. lia. }
    apply aligned_divide in Hpar as [i Hi]. rewrite order_size_S in Hi Hj.
    assert (j ≤ i) by (destruct (Z.le_gt_cases j i); [done|nia]). nia. }
  rewrite (wf_bits _ _ _ _ Hwf) //; [lia|].
  pose proof (wf_merged _ _ _ _ Hwf o (parent a o) Ho Hpar) as Hm.
  destruct Hcase as [E|E].
  - rewrite (bool_decide_eq_true_2 (parent a o ∈ _)); [by rewrite -E|].
    rewrite bool_decide_eq_false_2 //. intros ?. apply Hm. by rewrite -{1}E.
  - rewrite (bool_decide_eq_true_2 (parent a o + _ ∈ _)); [by rewrite -E|].
    rewrite bool_decide_eq_false_2 //. intros ?. apply Hm. by rewrite -E.
Qed.

(** Removing the first block of a list, with its bit. *)
Lemma take_first b o a rest :
  inv b → (o ≤ MAX_ORDER)%nat → blk b o = a :: rest →
  ∃ b', (let b := set_blk b o rest in
         if (o <? MAX_ORDER)%nat then
           '(state, b) ← flip_bit b a o; assert_ (negb state);; mark_allocated b a o true
         else Some b) = Some b' ∧
    same b b' ∧ highest_avail_order b' = highest_avail_order b ∧ maps_ok b' ∧
    adds o a (blk b') (blk b) ∧ flips (base b) o a (bit b) (bit b').
Proof.
  intros [(Hwf & Hm & _) _] Ho E. cbv zeta.
  assert (a ∈ blk b o) as Hin by (rewrite E; left).
  pose proof (wf_blocks _ _ _ _ Hwf _ _ Hin) as Hok.
  destruct (block_in_range _ _ _ Hok) as [Hr _].
  destruct (set_blk_spec b o rest Hm Ho) as (Hs1 & Hh1 & Hb1 & Ht1).
  set (b1 := set_blk b o rest) in *. pose proof (same_maps_ok _ _ Hs1 Hm) as Hm1.
  pose proof Hs1 as (Eb & El & _).
  assert (∀ b3, (∀ p, blk b3 p = blk b1 p) → adds o a (blk b3) (blk b)) as Hadds.
  { intros b3 H. split.
    - rewrite H Hb1 E. by case_decide.
    - intros p Hp. rewrite H Hb1. by case_decide. }
  destruct (Nat.ltb_spec o MAX_ORDER) as [Hlt|Hge].
  - destruct (flip_bit_spec b1 a o Hm1 Hlt) as (b2 & Hf & Hs2 & Hh2 & Hb2 & Hfl);
      [rewrite ?Eb ?El; by try apply Hwf..|].
    rewrite Hf bind_some. rewrite Ht1 Eb free_pair_bit //. cbn [negb assert_]. rewrite bind_some.
    destruct (mark_allocated_spec b2 a o true) as (b3 & Hr3 & Hs3 & Hh3 & Hb3 & Ht3).
    + by eapply same_maps_ok.
    + lia.
    + destruct Hs2 as (-> & _). rewrite Eb. apply Hwf.
    + destruct Hs2 as (_ & -> & _). rewrite El. apply Hwf.
    + destruct Hs2 as (-> & -> & _). by rewrite Eb El.
    + exists b3. split; [done|]. assert (same b b3) as Hs by by etrans; [|etrans].
      split_and!; [done|congruence|by eapply same_maps_ok| |].
      * apply Hadds. intros p. by rewrite Hb3 Hb2.
      * rewrite Eb in Hfl. intros p k Hk. rewrite Ht3 (Hfl p k Hk) Ht1. done.
  - exists b1. split_and!; try done; [by apply Hadds|].
    assert (o = MAX_ORDER) as -> by lia. intros p k _. rewrite Ht1 decide_False //. lia.
Qed.

Lemma alloc_take b o a rest :
  inv b → (o ≤ MAX_ORDER)%nat → blk b o = a :: rest →
  ∃ b', (let b := set_blk b o rest in
         b ← (if (o <? MAX_ORDER)%nat then
                '(state, b) ← flip_bit b a o; assert_ (negb state);; mark_allocated b a o true
              else Some b);
         assert_ ((base b <=? a) && (a <? limit b));;
         let b := if (o =? highest_avail_order b)%nat && bool_decide (blk b o = [])
                  then b <| highest_avail_order := highest_below b o |> else b in
         Some (a, b)) = Some (a, b') ∧ took o a b b'.
Proof.
  intros Hinv Ho E.
  destruct (take_first b o a rest Hinv Ho E) as (b1 & Hr & Hs & Hh & Hm & Hadd & Hfl).
  cbv zeta in *. rewrite Hr bind_some. pose proof Hs as (Eb & El & _).
  destruct Hinv as [(Hwf & _ & Hbt1 & Hbt2) Htop].
  destruct (wf_remove _ _ o a (blk b1) (bit b1) (blk b) (bit b) Hwf Hadd Hfl) as (Hwf1 & Hunc & Hok).
  destruct (block_in_range _ _ _ Hok) as [_ Hr']. rewrite Eb El Hr' bind_some. clear Hr'.
  set (b2 := if _ && _ then _ else b1).
  assert (∀ p, blk b2 p = blk b1 p) as Hb2 by (intros p; unfold b2; destruct (_ && _); reflexivity).
  assert (∀ p k, bit b2 p k = bit b1 p k) as Ht2 by (intros p k; unfold b2; destruct (_ && _); reflexivity).
  assert (same b b2) as Hs2 by (unfold b2; destruct (_ && _); exact Hs).
  exists b2. split; [done|]. destruct (blk_covered b1 b2 Hb2) as [Hcov Htot].
  split_and!; [|done|done| | |].
  - split; [split_and!|].
    + destruct Hs2 as (Eb2 & El2 & _). unfold wf_buddy. rewrite Eb2 El2. eapply wf_ext; [exact Hb2|intros; apply Ht2|exact Hwf1].
    + unfold b2. destruct (_ && _); exact Hm.
    + unfold below_top. setoid_rewrite Hb2. unfold b2.
      destruct (Nat.eqb_spec o (highest_avail_order b1)) as [Eo|Eo]; cbn [andb].
      * case_bool_decide as Enil; cbn.
        { destruct (highest_below_spec b1 o) as (H1 & H2 & _). split; [lia|]. intros p Hp.
          apply H2; [|done]. assert (p ≠ o) by congruence. destruct Hadd as [_ Hadd].
          rewrite -Hadd // in Hp. specialize (Hbt2 p Hp). lia. }
        { rewrite Hh. split; [done|]. intros p Hp. apply Hbt2. intros Ep. apply Hp.
          destruct Hadd as [_ Hadd]. destruct (decide (p = o)) as [->|]; [congruence|by rewrite -Hadd]. }
      * rewrite Hh. split; [done|]. intros p Hp. apply Hbt2. intros Ep. apply Hp.
        destruct Hadd as [_ Hadd]. destruct (decide (p = o)) as [->|]; [congruence|by rewrite -Hadd].
    + unfold top. rewrite Hb2. unfold b2.
      destruct (Nat.eqb_spec o (highest_avail_order b1)) as [Eo|Eo]; cbn [andb].
      * case_bool_decide as Enil; cbn; [|left; by rewrite -Eo].
        destruct (highest_below_spec b1 o) as (_ & _ & [H|H]); [by left|right; lia].
      * rewrite Hh in Eo |- *. destruct Hadd as [_ Hadd]. destruct Htop as [Ht|Ht]; [left|by right].
        by rewrite -Hadd; [congruence|].
  - intros x Hx Hc. apply (Hunc x Hx). by apply Hcov.
  - intros x. rewrite Hcov. by apply adds_covered.
  - rewrite Htot. by apply adds_total with a.
Qed.

(** [highest_avail_order] after a block of order [o] was put on its list. *)
Lemma push_top b b' o :
  below_top b → top b o → (o ≤ MAX_ORDER)%nat →
  (∀ p, p ≠ o → blk b' p = blk b p) → blk b' o ≠ [] →
  highest_avail_order b' = Nat.max (highest_avail_order b) o →
  below_top b' ∧ top b' 0.
Proof.
  intros [H1 H2] Ht Ho Hfr Hne Hh. split; [split|].
  - rewrite Hh. lia.
  - intros p Hp. rewrite Hh. destruct (decide (p = o)) as [->|Hpo]; [lia|].
    rewrite Hfr // in Hp. specialize (H2 p Hp). lia.
  - left. rewrite Hh. destruct (Nat.max_spec (highest_avail_order b) o) as [[? ->]|[? ->]]; [done|].
    destruct (decide (highest_avail_order b = o)) as [->|Hno]; [done|].
    rewrite Hfr //. destruct Ht; [done|lia].
Qed.

Lemma top_mono b o o' : (o ≤ o')%nat → top b o → top b o'.
Proof. intros H [?|?]; [by left|right; lia]. Qed.

(** A block and its halves. *)
Lemma halves_ok base limit o par :
  (o < MAX_ORDER)%nat → block_ok base limit (o + 1) par →
  block_ok base limit o par ∧ block_ok base limit o (par + order_size o) ∧
  parent (par + order_size o) o = par ∧ parent par o = par ∧ buddy_of (par + order_size o) o = par.
Proof.
  intros Ho (H1 & H2 & H3 & H4 & H5). pose proof (order_size_pos o) as Hs. rewrite order_size_S in H4.
  assert (aligned par o) as Ha by (eapply aligned_le; [|exact H5]; lia).
  assert (parent (par + order_size o) o = par) as Hp.
  { apply parent_unique; [done|]. rewrite order_size_S. lia. }
  split_and!; [split_and!; try done; lia|split_and!; try lia|done| |].
  - apply aligned_add; [done|]. by apply aligned_size.
  - apply parent_unique; [done|]. rewrite order_size_S. lia.
  - unfold buddy_of. rewrite Hp. destruct (Z.eqb_spec (par + order_size o) par); [lia|done].
Qed.

Lemma uncovered_bit b o par :
  wf_buddy b → (o < MAX_ORDER)%nat → block_ok (base b) (limit b) (o + 1) par →
  uncovered (blk b) par (order_size (o + 1)) →
  bit b o (pair_index (base b) o par) = false ∧ par ∉ blk b o ∧ par + order_size o ∉ blk b o.
Proof.
  intros Hwf Ho Hok Hunc. pose proof (order_size_pos o) as Hs.
  pose proof Hok as (_ & _ & H3 & H4 & H5). rewrite order_size_S in H4.
  assert (par ∉ blk b o ∧ par + order_size o ∉ blk b o) as [Hn1 Hn2].
  { split; intros H.
    - apply (Hunc par); [rewrite order_size_S; lia|]. exists o, par. split; [done|lia].
    - apply (Hunc (par + order_size o)); [rewrite order_size_S; lia|]. eexists o, _. split; [done|lia]. }
  split_and!; try done. rewrite (wf_bits _ _ _ _ Hwf) //; [lia|]. by rewrite !bool_decide_eq_false_2.
Qed.

(** The second half of a block of the next order goes to the free list. *)
Lemma alloc_split b b1 o par :
  (o < MAX_ORDER)%nat → took (o + 1) par b b1 →
  ∃ b', (let second_half := par + order_size o in
         let b := set_blk b1 o (second_half :: blk b1 o) in
         let b := if (highest_avail_order b <? o)%nat then b <| highest_avail_order := o |> else b in
         '(state, b) ← flip_bit b par o;
         assert_ state;;
         b ← mark_allocated b par o true;
         assert_ ((base b <=? par) && (par <? limit b));;
         Some (par, b)) = Some (par, b') ∧ took o par b b'.
Proof.
  intros Ho (Hinv & Hs & Hok & Hunc & Hcov & Htot). pose proof Hs as (Eb & El & _).
  destruct Hinv as [(Hwf & Hm & Hbt1 & Hbt2) Htop].
  destruct (halves_ok _ _ o par Ho Hok) as (Hok1 & Hok2 & Hp2 & Hp1 & Hbud).
  assert (block_ok (base b1) (limit b1) (o + 1) par) as Hok' by by rewrite Eb El.
  destruct (uncovered_bit b1 o par Hwf Ho Hok' Hunc) as (Hbit & Hn1 & Hn2).
  destruct (set_blk_spec b1 o (par + order_size o :: blk b1 o) Hm ltac:(lia)) as (Hs2 & Hh2 & Hb2 & Ht2).
  cbv zeta. set (b2 := set_blk b1 o _) in *.
  set (b3 := if (highest_avail_order b2 <? o)%nat then _ else b2).
  assert (∀ p, blk b3 p = blk b2 p) as Hb3 by (intros p; unfold b3; destruct (_ <? _)%nat; reflexivity).
  assert (∀ p k, bit b3 p k = bit b2 p k) as Ht3 by (intros p k; unfold b3; destruct (_ <? _)%nat; reflexivity).
  assert (same b2 b3) as Hs3 by (unfold b3; destruct (_ <? _)%nat; done).
  assert (same b1 b3) as Hs13 by (etrans; [exact Hs2|exact Hs3]).
  pose proof Hs13 as (Eb3 & El3 & _). pose proof (same_maps_ok _ _ Hs13 Hm) as Hm3.
  destruct (block_in_range b1 o par) as [Hr Hr']; [by rewrite Eb El|].
  destruct (flip_bit_spec b3 par o Hm3 Ho) as (b4 & Hf & Hs4 & Hh4 & Hb4 & Hfl);
    [rewrite ?Eb3 ?El3; first [apply Hwf|done]..|].
  rewrite Hf bind_some Ht3 Ht2 Eb3 Hbit. cbn [negb assert_]. rewrite bind_some.
  pose proof Hs4 as (Eb4 & El4 & _).
  destruct (mark_allocated_spec b4 par o true) as (b5 & Hr5 & Hs5 & Hh5 & Hb5 & Ht5);
    [by eapply same_maps_ok|lia|rewrite ?Eb4 ?El4 ?Eb3 ?El3; first [apply Hwf|done]..|].
  rewrite Hr5 bind_some. pose proof Hs5 as (Eb5 & El5 & _).
  rewrite Eb5 El5 Eb4 El4 Eb3 El3 Hr' bind_some. clear Hr'.
  assert (same b1 b5) as Hs15 by (etrans; [exact Hs13|]; etrans; [exact Hs4|exact Hs5]).
  assert (adds o (par + order_size o) (blk b1) (blk b5)) as Hadd.
  { split.
    - rewrite Hb5 Hb4 Hb3 Hb2. by case_decide.
    - intros p Hp. rewrite Hb5 Hb4 Hb3 Hb2. by case_decide. }
  assert (flips (base b1) o (par + order_size o) (bit b1) (bit b5)) as Hfl5.
  { rewrite Eb3 in Hfl. intros p k Hk. rewrite Ht5 (Hfl p k Hk) Ht3 Ht2.
    rewrite (pair_index_parent _ o (par + order_size o)); [exact Ho|apply Hwf|apply Hok2|]. by rewrite Hp2. }
  assert (below_top b5 ∧ top b5 0) as Hpt.
  { apply (push_top b1 b5 o); [done|by eapply top_mono, Htop; lia|lia|apply Hadd| |].
    - rewrite Hb5 Hb4 Hb3 Hb2. by case_decide.
    - rewrite Hh5 Hh4. unfold b3. rewrite Hh2. destruct (Nat.ltb_spec (highest_avail_order b1) o); cbn; lia. }
  exists b5. split; [done|]. split_and!.
  - split; [split_and!|].
    + unfold wf_buddy. destruct Hs15 as (-> & -> & _).
      eapply (wf_add _ _ o (par + order_size o)); [exact Hwf|by rewrite Eb El| | |done|done].
      * intros x Hx. apply Hunc. rewrite order_size_S. pose proof (order_size_pos o). lia.
      * intros _. by rewrite Hbud.
    + by eapply same_maps_ok.
    + by apply Hpt.
    + by apply Hpt.
  - etrans; [exact Hs|exact Hs15].
  - done.
  - intros x Hx Hc. apply (adds_covered _ _ _ _ _ Hadd) in Hc as [Hc|Hc]; [|lia].
    apply (Hunc x); [rewrite order_size_S; pose proof (order_size_pos o); lia|done].
  - intros x. rewrite Hcov (adds_covered _ _ _ _ _ Hadd) order_size_S. pose proof (order_size_pos o).
    intuition lia.
  - pose proof (adds_total o _ _ _ ltac:(lia) Hadd) as Htot5. rewrite order_size_S in Htot. lia.
Qed.

Lemma alloc_order_rec_spec fuel b o :
  inv b → (o ≤ MAX_ORDER)%nat → (MAX_ORDER - o < fuel)%nat →
  (alloc_order_rec fuel b o = Some (NULL, b) ∧ ∀ p, (o ≤ p)%nat → blk b p = []) ∨
  (∃ a b' p, alloc_order_rec fuel b o = Some (a, b') ∧ took o a b b' ∧
     (o ≤ p)%nat ∧ blk b p ≠ []).
Proof.
  revert o. induction fuel as [|fuel IH]; intros o Hinv Ho Hf; [lia|]. cbn [alloc_order_rec].
  pose proof Hinv as [(_ & _ & Hbt1 & Hbt2) _].
  destruct (Nat.ltb_spec (highest_avail_order b) o) as [Hlt|Hge].
  { left. split; [done|]. intros p Hp. destruct (blk b p) eqn:E; [done|].
    assert (p ≤ highest_avail_order b)%nat by (apply Hbt2; by rewrite E). lia. }
  destruct (blk b o) as [|a rest] eqn:E.
  - destruct (Nat.eqb_spec o MAX_ORDER) as [->|Hne].
    { left. split; [done|]. intros p Hp. destruct (blk b p) eqn:E'; [done|].
      assert (p ≤ highest_avail_order b)%nat by (apply Hbt2; by rewrite E').
      assert (p = MAX_ORDER) as -> by lia. congruence. }
    destruct (IH (o + 1)%nat Hinv ltac:(lia) ltac:(lia)) as [[-> Hnone]|(a & b1 & p & -> & Htook & Hp & Hpne)].
    + left. rewrite bind_some. split; [done|]. intros p Hp.
      destruct (decide (p = o)) as [->|]; [done|]. apply Hnone. lia.
    + right. rewrite bind_some. pose proof Htook as (_ & _ & (_ & Hpos & _) & _).
      destruct (Z.eqb_spec a NULL) as [->|_]; [by unfold NULL in Hpos|].
      destruct (alloc_split b b1 o a ltac:(lia) Htook) as (b' & HE & Htook').
      exists a, b', p. split_and!; [exact HE|done|lia|done].
  - right. destruct (alloc_take b o a rest Hinv Ho E) as (b' & HE & Htook).
    exists a, b', o. split_and!; [exact HE|done|lia|by rewrite E].
Qed.

Lemma alloc_order_spec b o :
  inv b → (o ≤ MAX_ORDER)%nat →
  (alloc_order b o = Some (NULL, b) ∧ ∀ p, (o ≤ p)%nat → blk b p = []) ∨
  (∃ a b' p, alloc_order b o = Some (a, b') ∧ took o a b b' ∧ (o ≤ p)%nat ∧ blk b p ≠ []).
Proof. intros. apply alloc_order_rec_spec; [done|done|unfold MAX_ORDER; lia]. Qed.

(** ** Release *)

(** The block [a] of order [o] is added to the free memory of [b]. *)
Definition gave (o : nat) (a : Z) (b b' : buddy) : Prop :=
  inv b' ∧ same b b' ∧
  (∀ x, covered (blk b') x ↔ covered (blk b) x ∨ a ≤ x < a + order_size o) ∧
  total (blk b') = total (blk b) + order_size o.

(** The buddy of a block that is not free is free if and only if the bit of
    the pair is set. *)
Lemma lone_bit b o a :
  wf_buddy b → (o < MAX_ORDER)%nat → block_ok (base b) (limit b) o a → a ∉ blk b o →
  bit b o (pair_index (base b) o a) = bool_decide (buddy_of a o ∈ blk b o).
Proof.
  intros Hwf Ho (_ & _ & H3 & H4 & Ha) Hnin. pose proof (order_size_pos o).
  rewrite (pair_index_parent _ o a Ho (wf_base _ _ _ _ Hwf) Ha).
  destruct (parent_cases a o Ha) as [Hpar _].
  assert (aligned (base b) (o + 1)) as [j Hj]%aligned_divide.
  { eapply aligned_le; [|apply (wf_base _ _ _ _ Hwf)]. unfold MAX_ORDER in *. lia. }
  assert (base b ≤ parent a o) as Hge.
  { pose proof Hpar as [i Hi]%aligned_divide. rewrite order_size_S in Hi Hj.
    destruct (buddy_cases a o Ha) as [[E _]|[E _]]; [lia|].
    assert (j ≤ i) by (destruct (Z.le_gt_cases j i); [done|nia]). nia. }
  rewrite (wf_bits _ _ _ _ Hwf) //. { destruct (buddy_cases a o Ha) as [[E _]|[E _]]; lia. }
  destruct (buddy_cases a o Ha) as [[E1 E2]|[E1 E2]]; rewrite E2.
  - by rewrite (bool_decide_eq_false_2 (parent a o ∈ _)); [rewrite -E1|].
  - rewrite (bool_decide_eq_false_2 (parent a o + _ ∈ _)); [by rewrite -E1|]. by rewrite xorb_false_r.
Qed.

Lemma uncovered_notin b o a : uncovered (blk b) a (order_size o) → a ∉ blk b o.
Proof.
  intros H Hin. pose proof (order_size_pos o). apply (H a); [lia|]. exists o, a. split; [done|lia].
Qed.

Lemma filter_notin (x : Z) (l : list Z) : x ∉ l → filter (λ y, y ≠ x) l = l.
Proof.
  induction l as [|y l IH]; [done|]. intros [Hy Hl]%not_elem_of_cons.
  by rewrite filter_cons_True // IH.
Qed.

Lemma erase_block_spec x l :
  NoDup l → x ∈ l → ∃ l', erase_block x l = Some l' ∧ l ≡ₚ x :: l'.
Proof.
  intros Hnd Hx. unfold erase_block. rewrite decide_True //. eexists. split; [done|].
  induction l as [|y l IH]; [by apply elem_of_nil in Hx|]. apply NoDup_cons in Hnd as [Hy Hnd].
  destruct (decide (y = x)) as [->|Hne].
  - rewrite filter_cons_False; [naive_solver|]. by rewrite filter_notin.
  - rewrite filter_cons_True //. apply elem_of_cons in Hx as [->|Hx]; [done|].
    rewrite {1}(IH Hnd Hx). apply Permutation_swap.
Qed.

(** The last step: the block goes on its list. *)
Lemma free_push b b2 a o :
  inv0 b → top b o → block_ok (base b) (limit b) o a → uncovered (blk b) a (order_size o) →
  ((o < MAX_ORDER)%nat → buddy_of a o ∉ blk b o) →
  same b b2 → highest_avail_order b2 = highest_avail_order b → (∀ p, blk b2 p = blk b p) →
  flips (base b) o a (bit b) (bit b2) →
  gave o a b (let b3 := set_blk b2 o (a :: blk b2 o) in
              if (highest_avail_order b3 <? o)%nat then b3 <| highest_avail_order := o |> else b3).
Proof.
  intros (Hwf & Hm & Hbt) Htop Hok Hunc Hlone Hs2 Hh2 Hb2 Hfl. pose proof Hok as (Ho & _).
  pose proof (same_maps_ok _ _ Hs2 Hm) as Hm2.
  destruct (set_blk_spec b2 o (a :: blk b2 o) Hm2 Ho) as (Hs3 & Hh3 & Hb3 & Ht3).
  cbv zeta. set (b3 := set_blk b2 o _) in *. set (b4 := if (_ <? _)%nat then _ else b3).
  assert (∀ p, blk b4 p = blk b3 p) as Hb4 by (intros p; unfold b4; destruct (_ <? _)%nat; reflexivity).
  assert (∀ p k, bit b4 p k = bit b3 p k) as Ht4 by (intros p k; unfold b4; destruct (_ <? _)%nat; reflexivity).
  assert (same b b4) as Hs4.
  { etrans; [exact Hs2|]. etrans; [exact Hs3|]. unfold b4. destruct (_ <? _)%nat; done. }
  assert (adds o a (blk b) (blk b4)) as Hadd.
  { split; [|intros p Hp]; rewrite Hb4 Hb3 ?Hb2; by case_decide. }
  assert (below_top b4 ∧ top b4 0) as Hpt.
  { apply (push_top b b4 o); [done|done|done|apply Hadd| |].
    - rewrite Hb4 Hb3. by case_decide.
    - unfold b4. rewrite Hh3 Hh2. destruct (Nat.ltb_spec (highest_avail_order b) o); cbn; lia. }
  split_and!; [|done|intros x; by apply adds_covered|by apply (adds_total o a)].
  split; [split_and!|apply Hpt].
  - unfold wf_buddy. pose proof Hs4 as (-> & -> & _).
    eapply (wf_add _ _ o a); [exact Hwf|done|done|done|done|].
    intros p k Hk. by rewrite Ht4 Ht3 (Hfl p k Hk).
  - by eapply same_maps_ok.
  - apply Hpt.
Qed.

(** Merging: the free buddy leaves its list, and the two are one block. *)
Lemma free_merge b b2 a o :
  inv0 b → top b o → (o < MAX_ORDER)%nat →
  block_ok (base b) (limit b) o a → uncovered (blk b) a (order_size o) → buddy_of a o ∈ blk b o →
  same b b2 → highest_avail_order b2 = highest_avail_order b → (∀ p, blk b2 p = blk b p) →
  flips (base b) o a (bit b) (bit b2) →
  ∃ l, erase_block (Z.lxor a (order_size o)) (blk b2 o) = Some l ∧
    let b3 := set_blk b2 o l in
    inv0 b3 ∧ top b3 (o + 1) ∧ same b b3 ∧
    block_ok (base b3) (limit b3) (o + 1) (Z.ldiff a (order_size o)) ∧
    uncovered (blk b3) (Z.ldiff a (order_size o)) (order_size (o + 1)) ∧
    ∀ b', gave (o + 1) (Z.ldiff a (order_size o)) b3 b' → gave o a b b'.
Proof.
  intros (Hwf & Hm & Hbt1 & Hbt2) Htop Ho Hok Hunc Hbud Hs2 Hh2 Hb2 Hfl.
  pose proof Hok as (_ & Hpos & Hbase & Hlim & Ha). pose proof (order_size_pos o) as Hsz.
  rewrite lxor_buddy // ldiff_parent // -/(buddy_of a o) Hb2.
  destruct (erase_block_spec (buddy_of a o) (blk b o)) as (l & -> & Hperm); [apply Hwf|done|].
  exists l. split; [done|]. cbv zeta.
  pose proof (same_maps_ok _ _ Hs2 Hm) as Hm2.
  destruct (set_blk_spec b2 o l Hm2 ltac:(lia)) as (Hs3 & Hh3 & Hb3 & Ht3).
  set (b3 := set_blk b2 o l) in *. assert (same b b3) as Hs by (by etrans).
  assert (adds o (buddy_of a o) (blk b3) (blk b)) as Hadd.
  { split; [|intros p Hp]; rewrite Hb3 ?Hb2; by case_decide. }
  pose proof (wf_blocks _ _ _ _ Hwf _ _ Hbud) as Hokb.
  destruct (parent_cases a o Ha) as [Hpar _].
  assert (parent (buddy_of a o) o = parent a o) as Hpb.
  { apply parent_unique; [done|]. rewrite order_size_S.
    destruct (buddy_cases a o Ha) as [[? ->]|[? ->]]; lia. }
  assert (flips (base b) o (buddy_of a o) (bit b) (bit b3)) as Hfl3.
  { intros p k Hk. rewrite Ht3 (Hfl p k Hk).
    rewrite (pair_index_parent _ o a) //; [apply Hwf|].
    rewrite (pair_index_parent _ o (buddy_of a o)) //; [apply Hwf|apply Hokb|]. by rewrite Hpb. }
  destruct (wf_remove _ _ o (buddy_of a o) (blk b3) (bit b3) (blk b) (bit b) Hwf Hadd Hfl3)
    as (Hwf3 & Hunc3 & _).
  assert (∀ x, parent a o ≤ x < parent a o + order_size (o + 1) ↔
    (a ≤ x < a + order_size o ∨ buddy_of a o ≤ x < buddy_of a o + order_size o)) as Hhalves.
  { intros x. rewrite order_size_S. destruct (buddy_cases a o Ha) as [[? ->]|[? ->]]; lia. }
  pose proof Hs as (Eb & El & _). split_and!; [split_and!|..].
  - unfold wf_buddy. by rewrite Eb El.
  - by eapply same_maps_ok.
  - rewrite /below_top Hh3 Hh2. split; [done|]. intros p Hp. apply Hbt2. intros Ep. apply Hp.
    destruct Hadd as [H1 H2]. destruct (decide (p = o)) as [->|]; [|by rewrite -H2].
    rewrite Ep in H1. by apply Permutation_nil_cons in H1.
  - rewrite /top Hh3 Hh2. destruct Htop as [Ht|Ht]; [|right; lia].
    destruct (decide (highest_avail_order b = o)) as [->|Hne]; [right; lia|]. left.
    destruct Hadd as [_ H2]. by rewrite -H2.
  - done.
  - rewrite Eb El. destruct Hokb as (_ & ? & ? & ? & _). rewrite /block_ok order_size_S.
    destruct (buddy_cases a o Ha) as [[? E]|[? E]]; rewrite E in H H0 H1; split_and!; try lia; done.
  - intros x Hx Hc. apply Hhalves in Hx as [Hx|Hx]; [|by apply (Hunc3 x)].
    apply (Hunc x Hx). apply (adds_covered _ _ _ _ _ Hadd). by left.
  - intros b' (Hinv' & Hs' & Hcov' & Htot'). split_and!; [done|by etrans| |].
    + intros x. rewrite Hcov' Hhalves (adds_covered _ _ _ _ x Hadd). tauto.
    + rewrite Htot' (adds_total o _ _ _ ltac:(lia) Hadd) order_size_S. lia.
Qed.

Lemma free_order_rec_spec fuel b a o :
  inv0 b → top b o → block_ok (base b) (limit b) o a → uncovered (blk b) a (order_size o) →
  (MAX_ORDER - o < fuel)%nat →
  ∃ b', free_order_rec fuel b a o = Some b' ∧ gave o a b b'.
Proof.
  revert b a o. induction fuel as [|fuel IH]; intros b a o Hinv Htop Hok Hunc Hf; [lia|].
  cbn [free_order_rec]. pose proof Hinv as (Hwf & Hm & _). pose proof Hok as (Ho & _ & _ & _ & Ha).
  destruct (block_in_range _ _ _ Hok) as [Hr ->]. cbn [assert_]. rewrite bind_some.
  destruct (mark_allocated_spec b a o false) as (b1 & -> & Hs1 & Hh1 & Hb1 & Ht1);
    [done|done|apply Hwf|apply Hwf|done|].
  rewrite bind_some. pose proof Hs1 as (Eb & El & _).
  destruct (Nat.ltb_spec o MAX_ORDER) as [Hlt|Hge].
  - destruct (flip_bit_spec b1 a o) as (b2 & -> & Hs2 & Hh2 & Hb2 & Hfl);
      [by eapply same_maps_ok|done|rewrite ?Eb ?El; first [apply Hwf|done]..|].
    rewrite bind_some bind_some negb_involutive Ht1 Eb (lone_bit b o a) //; [by apply uncovered_notin|].
    assert (same b b2) as Hs by (by etrans).
    assert (flips (base b) o a (bit b) (bit b2)) as Hfl'.
    { rewrite Eb in Hfl. eapply flips_ext; [|exact Hfl]. done. }
    assert (∀ p, blk b2 p = blk b p) as Hblk by (intros p; by rewrite Hb2 Hb1).
    case_bool_decide as Hbud.
    + destruct (free_merge b b2 a o Hinv Htop Hlt Hok Hunc Hbud Hs ltac:(congruence) Hblk Hfl')
        as (l & -> & Hinv3 & Htop3 & Hs3 & Hok3 & Hunc3 & Hgave). rewrite bind_some.
      destruct (IH _ _ _ Hinv3 Htop3 Hok3 Hunc3) as (b' & -> & Hg); [lia|]. eauto.
    + eexists. split; [done|]. apply free_push; try done. congruence.
  - rewrite bind_some. eexists. split; [done|]. apply free_push; try done.
    + lia.
    + assert (o = MAX_ORDER) as -> by lia. intros p k Hk. rewrite Ht1 decide_False //. lia.
Qed.

Lemma free_order_spec b a o :
  inv b → block_ok (base b) (limit b) o a → uncovered (blk b) a (order_size o) →
  ∃ b', free_order b a o = Some b' ∧ gave o a b b'.
Proof.
  intros [Hinv Htop] Hok Hunc. apply free_order_rec_spec; try done.
  - eapply top_mono; [|done]. lia.
  - unfold MAX_ORDER. lia.
Qed.
