(* ===== verification/BuddyMem.v ===== *)
(** * The buddy allocator over its lifetime

    The operations of the allocator by size, construction over a region of
    memory, and every history of allocations and releases. *)

From S2P Require Import Prelude Buddy BuddyView BuddyInv.

(** ** Sizes *)

Lemma ctz_order_size o : (o ≤ MAX_ORDER)%nat → ctz (order_size o) = (12 + o)%nat.
Proof.
  intros Ho. assert (forallb (λ o, ctz (order_size o) =? 12 + o)%nat (seq 0 17) = true) as H
    by (vm_compute; reflexivity).
  rewrite forallb_forall in H. apply Nat.eqb_eq, H, in_seq. unfold MAX_ORDER in Ho. lia.
Qed.

(** Exactly the sizes of blocks have an order. *)
Lemma size_to_order_spec size :
  match size_to_order size with
  | Some o => (o ≤ MAX_ORDER)%nat ∧ size = order_size o
  | None => ∀ o, (o ≤ MAX_ORDER)%nat → size ≠ order_size o
  end.
Proof.
  unfold size_to_order.
  assert (∀ o, (o ≤ MAX_ORDER)%nat → MIN_SIZE ≤ order_size o ≤ MAX_SIZE) as Hr.
  { intros o Ho. split; [apply (order_size_le 0 o)|apply order_size_le]; lia. }
  destruct (Z.ltb_spec size MIN_SIZE). { intros o Ho ->. specialize (Hr o Ho). lia. }
  destruct (Z.ltb_spec MAX_SIZE size). { intros o Ho ->. specialize (Hr o Ho). lia. }
  destruct (Z.eqb_spec size (Z.shiftl 1 (Z.of_nat (ctz size)))) as [E|E]; cbn [negb].
  - rewrite Z.shiftl_1_l in E. change (ctz MIN_SIZE) with 12%nat.
    assert (12 ≤ Z.of_nat (ctz size)) as H1.
    { apply (Z.pow_le_mono_r_iff 2); [lia..|]. by rewrite -E. }
    assert (Z.of_nat (ctz size) ≤ 28) as H2.
    { apply (Z.pow_le_mono_r_iff 2); [lia..|]. by rewrite -E. }
    split; [unfold MAX_ORDER; lia|]. rewrite order_size_pow {1}E. f_equal. lia.
  - intros o Ho ->. apply E. rewrite ctz_order_size // Z.shiftl_1_l order_size_pow. f_equal. lia.
Qed.

Lemma size_to_order_size o : (o ≤ MAX_ORDER)%nat → size_to_order (order_size o) = Some o.
Proof.
  intros Ho. pose proof (size_to_order_spec (order_size o)) as H.
  destruct (size_to_order (order_size o)) as [p|]; [|by destruct (H o Ho)].
  destruct H as [_ E]. rewrite !order_size_pow in E. apply Z.pow_inj_r in E; [|lia..].
  f_equal. lia.
Qed.

(** ** The invariant with the count of free bytes *)

Definition ok (b : buddy) : Prop := inv b ∧ free_bytes b = wrap64 (total (blk b)).

Lemma wrap64_sub x y : wrap64 (wrap64 x - y) = wrap64 (x - y).
Proof. unfold wrap64. by rewrite Zminus_mod_idemp_l. Qed.
Lemma wrap64_add x y : wrap64 (wrap64 x + y) = wrap64 (x + y).
Proof. unfold wrap64. by rewrite Zplus_mod_idemp_l. Qed.

(** What [inv] depends on. *)
Lemma inv_fields b b' :
  orders b' = orders b → base b' = base b → limit b' = limit b →
  highest_avail_order b' = highest_avail_order b → inv b → inv b'.
Proof.
  intros E1 E2 E3 E4. unfold inv, inv0, wf_buddy, maps_ok, below_top, top.
  assert (blk b' = blk b) as -> by (unfold blk; by rewrite E1).
  assert (bit b' = bit b) as -> by (unfold bit; by rewrite E1).
  assert (shape b' = shape b) as -> by (unfold shape; by rewrite E1).
  by rewrite E2 E3 E4.
Qed.

(** A request for a size, on every branch. *)
Lemma alloc_nothrow_spec b o :
  ok b → (o ≤ MAX_ORDER)%nat →
  (alloc_nothrow b (order_size o) = Some (NULL, b) ∧ ∀ p, (o ≤ p)%nat → blk b p = []) ∨
  (∃ a b' p, alloc_nothrow b (order_size o) = Some (a, b') ∧ ok b' ∧
     base b' = base b ∧ limit b' = limit b ∧
     block_ok (base b) (limit b) o a ∧ uncovered (blk b') a (order_size o) ∧
     (∀ x, covered (blk b) x ↔ covered (blk b') x ∨ a ≤ x < a + order_size o) ∧
     lowest_free_bytes b' ≤ free_bytes b' ∧
     (o ≤ p)%nat ∧ blk b p ≠ []).
Proof.
  intros [Hinv Hfree] Ho. unfold alloc_nothrow. rewrite size_to_order_size // bind_some.
  destruct (alloc_order_spec b o Hinv Ho) as [[-> H]|(a & b1 & p & -> & Htook & Hp & Hpne)]; [by left|].
  right. rewrite bind_some. destruct Htook as (Hinv1 & (Eb & El & Ef & Elow & _) & Hok & Hunc & Hcov & Htot).
  destruct (Z.eqb_spec a NULL) as [->|_]; [destruct Hok as (_ & Hpos & _); by unfold NULL in Hpos|].
  cbn [negb]. set (b2 := b1 <| free_bytes ::= _ |>). set (b3 := if _ <? _ then _ else b2).
  assert (orders b3 = orders b1 ∧ base b3 = base b1 ∧ limit b3 = limit b1 ∧
    highest_avail_order b3 = highest_avail_order b1 ∧ free_bytes b3 = free_bytes b2 ∧
    lowest_free_bytes b3 ≤ free_bytes b3) as (E1 & E2 & E3 & E4 & E5 & E6).
  { unfold b3. destruct (Z.ltb_spec (free_bytes b2) (lowest_free_bytes b2)); cbn; split_and!; try done; cbn in *; lia. }
  assert (blk b3 = blk b1) as Hblk by (unfold blk; by rewrite E1).
  exists a, b3, p. rewrite Hblk. split_and!; try done; try congruence.
  - split; [by eapply inv_fields|]. rewrite E5 Hblk. unfold b2. cbn. rewrite Ef Hfree Htot wrap64_sub.
    f_equal. lia.
Qed.

Lemma free_spec b a o :
  ok b → block_ok (base b) (limit b) o a → uncovered (blk b) a (order_size o) →
  ∃ b', free b a (order_size o) = Some b' ∧ ok b' ∧ base b' = base b ∧ limit b' = limit b ∧
    ∀ x, covered (blk b') x ↔ covered (blk b) x ∨ a ≤ x < a + order_size o.
Proof.
  intros [Hinv Hfree] Hok Hunc. unfold free. cbv zeta. pose proof Hok as (Ho & _).
  rewrite size_to_order_size // bind_some. set (b1 := b <| free_bytes ::= _ |>).
  destruct (free_order_spec b1 a o) as (b' & -> & Hinv' & (Eb & El & Ef & _) & Hcov & Htot).
  - by eapply inv_fields.
  - done.
  - done.
  - exists b'. split_and!; try done. split; [done|]. rewrite Ef Htot. cbn.
    rewrite Hfree wrap64_add. done.
Qed.

(** [get_stats] finds the count it asserts. *)
Lemma count_free_spec b o n t :
  (count_free b o n (wrap64 t)).2
  = wrap64 (t + foldr (λ p s, Z.of_nat (length (blk b p)) * order_size p + s) 0 (seq o n)).
Proof.
  revert o t. induction n as [|n IH]; intros o t; [simpl; by rewrite Z.add_0_r|].
  cbn [count_free seq foldr]. rewrite wrap64_add.
  destruct (count_free b (o + 1) n _) as [l s] eqn:E. cbn.
  specialize (IH (o + 1)%nat (t + Z.of_nat (length (blk b o)) * order_size o)). rewrite E in IH.
  cbn in IH. rewrite IH Nat.add_1_r. f_equal. lia.
Qed.

Lemma get_stats_spec b : ok b → ∃ s, get_stats b = Some s ∧ st_free s = free_bytes b.
Proof.
  intros [_ Hfree]. unfold get_stats.
  pose proof (count_free_spec b 0 (S MAX_ORDER) 0) as H. change (wrap64 0) with 0 in H.
  destruct (count_free b 0 (S MAX_ORDER) 0) as [l t]. cbn [snd] in H.
  rewrite Z.add_0_l -/(total (blk b)) -Hfree in H. unfold get_free_bytes. rewrite H Z.eqb_refl.
  cbn [assert_]. rewrite bind_some. eauto.
Qed.

(** ** Construction *)

(** An object under construction: lists for all orders, all of them empty. *)
Definition raw (b : buddy) : Prop :=
  length (orders b) = S MAX_ORDER ∧ ∀ o, blk b o = [].

(** The bytes the bitmaps of the orders from [i] on take, for a tracked region
    of [len] bytes. *)
Fixpoint bitmaps_size (nBlocks : Z) (n : nat) : Z :=
  match n with
  | O => 0
  | S n' => 2 * ((nBlocks + 7) / 8) + bitmaps_size (nBlocks / 2) n'
  end.

Lemma bitmaps_size_nonneg nB n : 0 ≤ nB → 0 ≤ bitmaps_size nB n.
Proof.
  revert nB. induction n as [|n IH]; intros nB H; [done|]. cbn [bitmaps_size].
  assert (0 ≤ (nB + 7) / 8) by (apply Z.div_pos; lia).
  assert (0 ≤ nB / 2) by (apply Z.div_pos; lia). specialize (IH (nB / 2)). lia.
Qed.

(** An order whose bitmaps are cleared and have room for [n] bits. *)
Definition cleared (b : buddy) (o : nat) (n : Z) : Prop :=
  ∃ h, orders b !! o = Some h ∧ bitmap h = zeros ((n + 7) / 8) ∧ debug h = zeros ((n + 7) / 8).

Lemma set_order_lookup b i f o :
  orders (set_order b i f) !! o = if decide (o = i) then f <$> orders b !! o else orders b !! o.
Proof.
  unfold set_order. cbn. case_decide as E; [subst; by rewrite list_lookup_alter_eq|].
  by rewrite list_lookup_alter_ne.
Qed.

Lemma carve_bitmaps_spec b cur free_end nB i n :
  0 ≤ nB → raw b → (i + n ≤ MAX_ORDER)%nat → cur + bitmaps_size nB n < free_end →
  ∃ b', carve_bitmaps b cur free_end nB i n = (b', Some (cur + bitmaps_size nB n)) ∧ raw b' ∧
    (∀ j, (j < n)%nat → cleared b' (i + j) (nB / 2 ^ Z.of_nat j)) ∧
    (∀ o, (o < i)%nat → orders b' !! o = orders b !! o).
Proof.
  revert b cur nB i. induction n as [|n IH]; intros b cur nB i HnB Hraw Hi Hroom.
  { exists b. split_and!; try done; [by rewrite Z.add_0_r|lia]. }
  cbn [carve_bitmaps bitmaps_size] in *. set (s := (nB + 7) / 8) in *.
  assert (0 ≤ s) by (apply Z.div_pos; lia). assert (0 ≤ nB / 2) by (apply Z.div_pos; lia).
  pose proof (bitmaps_size_nonneg (nB / 2) n ltac:(lia)).
  destruct (Z.leb_spec free_end (cur + s)); [lia|].
  destruct (Z.leb_spec free_end (cur + s + s)); [lia|].
  set (b1 := set_order _ i (λ h, h <| debug := zeros s |>)).
  assert (∀ o, orders b1 !! o = if decide (o = i)
    then (λ h, OrderHead (blocks h) cur (zeros s) (cur + s) (zeros s)) <$> orders b !! o
    else orders b !! o) as Hb1.
  { intros o. unfold b1. rewrite !set_order_lookup. case_decide; [|done]. by destruct (orders b !! o). }
  assert (raw b1) as Hraw1.
  { destruct Hraw as [Hl Hbl]. split.
    - unfold b1, set_order. cbn. by rewrite !length_alter.
    - intros o. specialize (Hbl o). unfold blk in *. rewrite Hb1. case_decide; [|done].
      by destruct (orders b !! o). }
  destruct (IH b1 (cur + s + s) (nB / 2) (i + 1)%nat) as (b' & -> & Hraw' & Hcl & Hfr); [lia|done|lia|lia|].
  exists b'. split_and!; [f_equal; f_equal; lia|done| |].
  - intros [|j] Hj.
    + rewrite Nat.add_0_r Z.pow_0_r Z.div_1_r. destruct Hraw as [Hl _].
      destruct (lookup_lt_is_Some_2 (orders b) i) as [h Hh]; [rewrite Hl; unfold MAX_ORDER in *; lia|].
      unfold cleared. rewrite Hfr; [lia|]. rewrite Hb1 Hh. case_decide; [|done]. eexists. split; [done|done].
    + replace (i + S j)%nat with (i + 1 + j)%nat by lia. specialize (Hcl j ltac:(lia)).
      rewrite Z.div_div // in Hcl; [apply Z.pow_pos_nonneg; lia|].
      by rewrite Nat2Z.inj_succ Z.pow_succ_r; [lia|].
  - intros o Ho. rewrite Hfr; [lia|]. rewrite Hb1. case_decide; [lia|done].
Qed.

Lemma bit_cleared b o n k : cleared b o n → bit b o k = false.
Proof.
  intros (h & Hh & Hb & _). unfold bit. rewrite Hh Hb. unfold zeros. rewrite nth_lookup.
  destruct (replicate _ 0 !! _) eqn:E; [apply lookup_replicate in E as [-> _]|]; apply Z.bits_0.
Qed.

(** Freeing the pages of a range one after the other. *)
Lemma free_pages_spec fuel b block block_base block_end :
  inv b → block_base ≤ block ≤ block_end →
  aligned block 0 → aligned block_end 0 → 0 < block → base b ≤ block → block_end ≤ limit b →
  (∀ x, covered (blk b) x ↔ block_base ≤ x < block) → total (blk b) = block - block_base →
  block_end - block ≤ Z.of_nat fuel * MIN_SIZE →
  ∃ b', free_pages fuel b block block_end = Some b' ∧ inv b' ∧ same b b' ∧
    (∀ x, covered (blk b') x ↔ block_base ≤ x < block_end) ∧ total (blk b') = block_end - block_base.
Proof.
  revert b block. induction fuel as [|fuel IH]; intros b block Hinv Hrange Hal Hale Hpos Hb Hl Hcov Htot Hfuel;
    cbn [free_pages]; destruct (Z.ltb_spec block block_end) as [Hlt|Hge].
  { unfold MIN_SIZE in Hfuel. lia. }
  { assert (block = block_end) as -> by lia. exists b. split_and!; done. }
  2:{ assert (block = block_end) as -> by lia. exists b. split_and!; done. }
  assert (∀ o, (o ≤ MAX_ORDER)%nat → aligned block o → block + order_size o ≤ block_end →
    ∃ b1, free_order b block o = Some b1 ∧
      ∃ b', free_pages fuel b1 (block + order_size o) block_end = Some b' ∧ inv b' ∧ same b b' ∧
        (∀ x, covered (blk b') x ↔ block_base ≤ x < block_end) ∧ total (blk b') = block_end - block_base) as Hstep.
  { intros o Ho Ha Hfit. pose proof (order_size_le 0 o ltac:(lia)) as Hsz.
    change (order_size 0) with MIN_SIZE in Hsz.
    destruct (free_order_spec b block o Hinv) as (b1 & Hr & Hinv1 & Hs1 & Hcov1 & Htot1).
    { split_and!; try done; lia. }
    { intros x Hx Hc. apply Hcov in Hc. lia. }
    pose proof Hs1 as (Eb & El & _). exists b1. split; [done|].
    destruct (IH b1 (block + order_size o)) as (b' & Hr' & Hinv' & Hs' & Hc' & Ht'); try done.
    - unfold MIN_SIZE in *. lia.
    - apply aligned_add; [done|]. apply aligned_size. lia.
    - unfold MIN_SIZE in *. lia.
    - rewrite Eb. unfold MIN_SIZE in *. lia.
    - by rewrite El.
    - intros x. rewrite Hcov1 Hcov. unfold MIN_SIZE in *. lia.
    - lia.
    - lia.
    - exists b'. split_and!; try done. by etrans. }
  destruct ((Z.land block (MAX_SIZE - 1) =? 0) && (block + MAX_SIZE <=? block_end)) eqn:E.
  - apply andb_prop in E as [E1%Z.eqb_eq E2%Z.leb_le].
    destruct (Hstep MAX_ORDER) as (b1 & -> & Hrest); [done| |done|exact Hrest].
    unfold aligned. change (MAX_SIZE - 1) with (Z.ones 28) in E1. by rewrite Z.land_ones in E1.
  - destruct (Hstep 0%nat) as (b1 & -> & Hrest); [lia|done| |exact Hrest].
    apply aligned_divide in Hal as [i Hi], Hale as [j Hj]. change (order_size 0) with 4096 in *. nia.
Qed.

Lemma ldiff_round x k : 0 ≤ k → Z.ldiff x (2 ^ k - 1) = x - x mod 2 ^ k.
Proof.
  intros Hk. rewrite -land_lnot_ones // -Z.ldiff_land. by rewrite Z.ones_equiv Z.sub_1_r.
Qed.

Definition round_down (x n : Z) : Z := x - x mod n.
Definition round_up (x n : Z) : Z := round_down (x + n - 1) n.

Lemma round_down_bounds x n : 0 < n → round_down x n ≤ x < round_down x n + n ∧ (n | round_down x n).
Proof.
  intros Hn. unfold round_down. pose proof (Z.mod_pos_bound x n Hn). split; [lia|].
  exists (x / n). pose proof (Z.div_mod x n ltac:(lia)). lia.
Qed.
Lemma round_up_bounds x n : 0 < n → x ≤ round_up x n < x + n ∧ (n | round_up x n).
Proof.
  intros Hn. unfold round_up. destruct (round_down_bounds (x + n - 1) n Hn) as [? ?]. split; [lia|done].
Qed.

Lemma blk_orders b b' : orders b' = orders b → blk b' = blk b.
Proof. unfold blk. by intros ->. Qed.

(** The freshly cleared allocator satisfies the invariant. *)
Lemma inv_cleared b :
  raw b → aligned (base b) MAX_ORDER → aligned (limit b) MAX_ORDER → base b ≤ limit b →
  highest_avail_order b = O →
  (∀ o, (o < MAX_ORDER)%nat → cleared b o ((limit b - base b) / order_size o)) → inv b.
Proof.
  intros [Hlen Hblk] Hb Hl Hle Hh Hcl. split; [split_and!|].
  - split.
    + done.
    + done.
    + intros o a. rewrite Hblk. intros H%elem_of_nil. done.
    + intros o. rewrite Hblk. constructor.
    + intros o a p c. rewrite Hblk. intros H%elem_of_nil. done.
    + intros o par Ho _ _. rewrite (bit_cleared b o _ _ (Hcl o Ho)) Hblk.
      by rewrite !bool_decide_eq_false_2; [intros []%elem_of_nil..|].
    + intros o par _ _. rewrite Hblk. intros [[]%elem_of_nil _].
  - intros o Ho. destruct (decide (o < MAX_ORDER)%nat) as [Hlt|Hge].
    + destruct (Hcl o Hlt) as (h & Hh' & Hbm & Hdb). unfold shape. rewrite Hh' /=.
      eexists _, _. split; [done|]. intros _. rewrite Hbm Hdb /zeros length_replicate.
      set (n := (limit b - base b) / order_size o).
      pose proof (order_size_pos o).
      assert (0 ≤ n) by (apply Z.div_pos; lia).
      assert ((limit b - base b) / order_size (o + 1) ≤ n) as Hn.
      { apply Z.div_le_compat_l; [lia|]. rewrite order_size_S. lia. }
      assert (n ≤ 8 * ((n + 7) / 8)).
      { pose proof (Z.div_mod (n + 7) 8 ltac:(done)). pose proof (Z.mod_pos_bound (n + 7) 8 eq_refl). lia. }
      assert (0 ≤ (n + 7) / 8) by (apply Z.div_pos; lia). rewrite Z2Nat.id; lia.
    + destruct (lookup_lt_is_Some_2 (orders b) o) as [h Hh']; [rewrite Hlen; lia|].
      unfold shape. rewrite Hh' /=. eexists _, _. split; [done|]. lia.
  - rewrite /below_top Hh. split; [lia|]. intros o. by rewrite Hblk.
  - right. lia.
Qed.

(** The allocator when its bitmaps are in place. *)
Definition prepared (b : buddy) (low high : Z) : buddy :=
  (set_order b MAX_ORDER (λ h, h <| bitmap_at := NULL |> <| debug_at := NULL |>))
    <| base := low |> <| limit := high |> <| highest_avail_order := O |>.

Lemma prepared_inv b low high :
  raw b → (MAX_SIZE | low) → (MAX_SIZE | high) → low ≤ high →
  (∀ j, (j < MAX_ORDER)%nat → cleared b (0 + j) ((high - low) / MIN_SIZE / 2 ^ Z.of_nat j)) →
  raw (prepared b low high) ∧ inv (prepared b low high).
Proof.
  intros [Hl1 Hb1] Hlow Hhigh Hle Hcl. set (b2 := prepared b low high).
  assert (orders b2 = alter (λ h, h <| bitmap_at := NULL |> <| debug_at := NULL |>) MAX_ORDER (orders b))
    as Ho2 by reflexivity.
  assert (raw b2) as Hraw2.
  { split; [by rewrite Ho2 length_alter|]. intros o. rewrite -(Hb1 o). unfold blk. rewrite Ho2.
    destruct (decide (o = MAX_ORDER)) as [->|]; [|by rewrite list_lookup_alter_ne].
    rewrite list_lookup_alter_eq. by destruct (orders b !! MAX_ORDER). }
  split; [done|]. apply inv_cleared; [done|by apply aligned_divide|by apply aligned_divide|done|done|].
  change (limit b2) with high. change (base b2) with low. intros o Ho.
  specialize (Hcl o Ho). rewrite Nat.add_0_l Z.div_div // in Hcl; [apply Z.pow_pos_nonneg; lia|].
  assert (MIN_SIZE * 2 ^ Z.of_nat o = order_size o) as ES.
  { rewrite order_size_pow Z.pow_add_r; [lia..|done]. }
  rewrite ES in Hcl. unfold cleared. rewrite Ho2 list_lookup_alter_ne; [lia|]. exact Hcl.
Qed.

Lemma buddy_allocator_spec (fuel : nat) (b0 : buddy) (base_ len track_base track_len : Z) :
  raw b0 →
  track_base ≠ NULL → 0 ≤ track_base ≤ base_ → 0 < base_ → 0 ≤ len ≤ Z.of_nat fuel * MIN_SIZE →
  base_ + len ≤ track_base + track_len → track_base + track_len + MAX_SIZE ≤ 2 ^ 64 →
  let low := round_down track_base MAX_SIZE in
  let high := round_up (track_base + track_len) MAX_SIZE in
  let bitmaps := bitmaps_size ((high - low) / MIN_SIZE) MAX_ORDER in
  bitmaps + 2 * MIN_SIZE ≤ len →
  ∃ b, buddy_allocator fuel b0 base_ len track_base track_len = Some b ∧ ok b ∧
    base b = low ∧ limit b = high ∧ bitmap_bytes b = bitmaps ∧
    get_free_bytes b = round_down (base_ + len) MIN_SIZE - round_up (base_ + bitmaps) MIN_SIZE ∧
    ∀ x, covered (blk b) x ↔ round_up (base_ + bitmaps) MIN_SIZE ≤ x < round_down (base_ + len) MIN_SIZE.
Proof.
  intros Hraw Htb0 Htb Hbase Hlen Hfit H64 low high bitmaps Hroom.
  assert (MAX_SIZE = 268435456) as EM by reflexivity. assert (MIN_SIZE = 4096) as Em by reflexivity.
  destruct (round_down_bounds track_base MAX_SIZE eq_refl) as [Hlow Hlowd]. fold low in Hlow, Hlowd.
  destruct (round_up_bounds (track_base + track_len) MAX_SIZE eq_refl) as [Hhigh Hhighd]. fold high in Hhigh, Hhighd.
  assert (0 ≤ low) as Hlow0. { destruct Hlowd as [j Hj]. nia. }
  unfold buddy_allocator. destruct (Z.eqb_spec track_base NULL); [done|]. cbn [andb].
  rewrite !(wrap64_small (base_ + len)); [unfold ULONG_MAX; lia|].
  rewrite !(wrap64_small (track_base + track_len)); [unfold ULONG_MAX; lia|].
  destruct (Z.leb_spec track_base base_); [|lia].
  destruct (Z.leb_spec (base_ + len) (track_base + track_len)); [|lia]. cbn [andb assert_]. rewrite bind_some.
  rewrite (wrap64_small (track_base + track_len + MAX_SIZE - 1)); [unfold ULONG_MAX; lia|].
  assert (∀ x, Z.ldiff x (MAX_SIZE - 1) = round_down x MAX_SIZE) as HrM.
  { intros x. by apply (ldiff_round x 28). }
  assert (∀ x, Z.ldiff x (MIN_SIZE - 1) = round_down x MIN_SIZE) as Hrm.
  { intros x. by apply (ldiff_round x 12). }
  rewrite !HrM !Hrm -/low -/(round_up (track_base + track_len) MAX_SIZE) -/high.
  rewrite (wrap64_small (high - low)); [unfold ULONG_MAX; lia|].
  assert (0 ≤ (high - low) / MIN_SIZE) as HnB by (apply Z.div_pos; lia).
  assert (base_ + bitmaps_size ((high - low) / MIN_SIZE) MAX_ORDER < base_ + len) as Hr
    by (unfold bitmaps in Hroom; lia).
  destruct (carve_bitmaps_spec b0 base_ (base_ + len) ((high - low) / MIN_SIZE) 0 MAX_ORDER HnB Hraw
    ltac:(done) Hr) as (b1 & -> & Hraw1 & Hcl & _). fold bitmaps.
  pose proof (bitmaps_size_nonneg _ MAX_ORDER HnB) as Hbm0. fold bitmaps in Hbm0.
  rewrite (wrap64_small (base_ + bitmaps + MIN_SIZE - 1)); [unfold ULONG_MAX; lia|].
  rewrite !Hrm -/(round_up (base_ + bitmaps) MIN_SIZE).
  destruct (round_up_bounds (base_ + bitmaps) MIN_SIZE eq_refl) as [Hbb Hbbd].
  destruct (round_down_bounds (base_ + len) MIN_SIZE eq_refl) as [Hbe Hbed].
  set (bb := round_up (base_ + bitmaps) MIN_SIZE) in *. set (be := round_down (base_ + len) MIN_SIZE) in *.
  set (b2 := _ <| highest_avail_order := O |>).
  destruct (prepared_inv b1 low high Hraw1 Hlowd Hhighd ltac:(lia) Hcl) as [Hraw2 Hinv2].
  change (prepared b1 low high) with b2 in Hraw2, Hinv2.
  destruct Hraw2 as [_ Hb2].
  destruct (free_pages_spec fuel b2 bb bb be Hinv2) as (b3 & -> & Hinv3 & Hs3 & Hcov3 & Htot3).
  - lia.
  - by apply aligned_divide.
  - by apply aligned_divide.
  - lia.
  - change (base b2) with low. lia.
  - change (limit b2) with high. lia.
  - intros x. split; [|lia]. intros (o & a & Ha & _). rewrite Hb2 in Ha. by apply elem_of_nil in Ha.
  - unfold total. cbn. rewrite !Hb2. cbn. lia.
  - lia.
  - rewrite bind_some. pose proof Hs3 as (Eb & El & _). eexists. split; [done|].
    split_and!; [split| | | | |].
    + by eapply inv_fields.
    + change (wrap64 (be - bb) = wrap64 (total (blk b3))). by rewrite Htot3.
    + exact Eb.
    + exact El.
    + change (wrap64 (base_ + bitmaps - base_) = bitmaps). rewrite wrap64_small; [unfold ULONG_MAX; lia|]. lia.
    + change (wrap64 (be - bb) = be - bb). apply wrap64_small. unfold ULONG_MAX; lia.
    + intros x. rewrite -Hcov3. done.
Qed.

(** The constructor turns a region of memory into an allocator: when the
    region holds the bitmaps and two pages more, it returns, no assertion
    fails, the invariant of the allocator holds, the free memory is exactly the
    whole pages of the region behind the bitmaps, [get_free_bytes] is their
    size, and the first request for a page is answered with one of them. *)
Theorem buddy_construct (fuel : nat) (b0 : buddy) (base_ len track_base track_len : Z) :
  raw b0 →
  track_base ≠ NULL → 0 ≤ track_base ≤ base_ → 0 < base_ → 0 ≤ len ≤ Z.of_nat fuel * MIN_SIZE →
  base_ + len ≤ track_base + track_len → track_base + track_len + MAX_SIZE ≤ 2 ^ 64 →
  let low := round_down track_base MAX_SIZE in
  let high := round_up (track_base + track_len) MAX_SIZE in
  let bitmaps := bitmaps_size ((high - low) / MIN_SIZE) MAX_ORDER in
  bitmaps + 2 * MIN_SIZE ≤ len →
  ∃ b, buddy_allocator fuel b0 base_ len track_base track_len = Some b ∧ ok b ∧
    base b = low ∧ limit b = high ∧ bitmap_bytes b = bitmaps ∧
    get_free_bytes b = round_down (base_ + len) MIN_SIZE - round_up (base_ + bitmaps) MIN_SIZE ∧
    (∀ x, covered (blk b) x ↔ round_up (base_ + bitmaps) MIN_SIZE ≤ x < round_down (base_ + len) MIN_SIZE) ∧
    ∃ a b', alloc b MIN_SIZE = Some (inl a, b') ∧
      round_up (base_ + bitmaps) MIN_SIZE ≤ a < round_down (base_ + len) MIN_SIZE.
Proof.
  intros Hraw Htb0 Htb Hbase Hlen Hfit H64 low high bitmaps Hroom.
  destruct (buddy_allocator_spec fuel b0 base_ len track_base track_len) as
    (b & HE & Hok & Hb & Hl & Hbm & Hfree & Hcov); try done.
  exists b. do 6 (split; [done|]). split; [exact Hcov|].
  destruct (round_up_bounds (base_ + bitmaps) MIN_SIZE eq_refl) as [Hbb _].
  destruct (round_down_bounds (base_ + len) MIN_SIZE eq_refl) as [Hbe _].
  change MIN_SIZE with (order_size 0) at 1. unfold alloc.
  destruct (alloc_nothrow_spec b 0 Hok ltac:(lia)) as
    [[_ Hnone]|(a & b' & p & -> & _ & _ & _ & (_ & Hpos & _) & _ & Hc & _)].
  - assert (covered (blk b) (round_up (base_ + bitmaps) MIN_SIZE)) as (o & a & Ha & _).
    { apply Hcov. subst low high bitmaps. lia. }
    rewrite (Hnone o ltac:(lia)) in Ha. by apply elem_of_nil in Ha.
  - exists a, b'. rewrite bind_some. destruct (Z.eqb_spec a NULL) as [->|_]; [by unfold NULL in Hpos|].
    split; [done|]. apply Hcov, Hc. right. pose proof (order_size_pos 0). lia.
Qed.

(** ** Histories *)

(** The allocator and the blocks its clients hold, with their orders. *)
Record heap := Heap { allocator : buddy; live : list (Z * nat) }.

Inductive heap_step : heap → heap → Prop :=
| step_alloc b l o a b' :
    (o ≤ MAX_ORDER)%nat → alloc_nothrow b (order_size o) = Some (a, b') → a ≠ NULL →
    heap_step (Heap b l) (Heap b' ((a, o) :: l))
| step_exhausted b l o b' :
    (o ≤ MAX_ORDER)%nat → alloc_nothrow b (order_size o) = Some (NULL, b') →
    heap_step (Heap b l) (Heap b' l)
| step_free b l1 a o l2 b' :
    free b a (order_size o) = Some b' →
    heap_step (Heap b (l1 ++ (a, o) :: l2)) (Heap b' (l1 ++ l2)).

(** The address [x] is in a live block. *)
Definition owned (l : list (Z * nat)) (x : Z) : Prop :=
  ∃ a o, (a, o) ∈ l ∧ a ≤ x < a + order_size o.

(** No address is in two live blocks. *)
Fixpoint exclusive (l : list (Z * nat)) : Prop :=
  match l with
  | [] => True
  | (a, o) :: l' => (∀ x, a ≤ x < a + order_size o → ¬ owned l' x) ∧ exclusive l'
  end.

(** The live blocks are blocks of the allocator, apart from each other and from
    the free memory, and both together are all the memory [M]. *)
Record heap_inv (M : Z → Prop) (h : heap) : Prop := HeapInv {
  hi_ok : ok (allocator h);
  hi_blocks : ∀ a o, (a, o) ∈ live h → block_ok (base (allocator h)) (limit (allocator h)) o a;
  hi_apart : ∀ x, owned (live h) x → ¬ covered (blk (allocator h)) x;
  hi_exclusive : exclusive (live h);
  hi_all : ∀ x, M x ↔ covered (blk (allocator h)) x ∨ owned (live h) x }.

Lemma owned_cons a o l x : owned ((a, o) :: l) x ↔ a ≤ x < a + order_size o ∨ owned l x.
Proof.
  unfold owned. split.
  - intros (c & p & [[= <- <-]|Hin]%elem_of_cons & Hx); [by left|]. right. eauto.
  - intros [Hx|(c & p & Hin & Hx)]; [exists a, o|exists c, p]; (split; [|done]); [left|by right].
Qed.

Lemma owned_perm l l' x : l ≡ₚ l' → owned l x ↔ owned l' x.
Proof. intros H. unfold owned. by setoid_rewrite H. Qed.

Lemma exclusive_middle a o l1 l2 :
  exclusive (l1 ++ (a, o) :: l2) ↔
  (∀ x, a ≤ x < a + order_size o → ¬ owned (l1 ++ l2) x) ∧ exclusive (l1 ++ l2).
Proof.
  induction l1 as [|[c p] l1 IH]; [done|]. cbn [app exclusive]. rewrite IH.
  setoid_rewrite owned_cons. setoid_rewrite (owned_perm (l1 ++ (a, o) :: l2) ((a, o) :: l1 ++ l2));
    [|by rewrite -Permutation_middle]. setoid_rewrite owned_cons. naive_solver.
Qed.

(** One step keeps the invariant. *)
Lemma heap_step_inv M h h' : heap_inv M h → heap_step h h' → heap_inv M h'.
Proof.
  intros [H1 H2 H3 H4 H5] Hstep. destruct Hstep as [b l o a b' Ho Hr Ha|b l o b' Ho Hr|b l1 a o l2 b' Hr]; cbn in *.
  - destruct (alloc_nothrow_spec b o H1 Ho) as
      [[HE _]|(a' & b1 & p & HE & Hok & Eb & El & Hblk & Hunc & Hcov & _)]; [congruence|].
    rewrite Hr in HE. injection HE as <- <-. split; cbn.
    + done.
    + intros c p' [[= -> ->]|Hin]%elem_of_cons; rewrite Eb El; [done|by apply H2].
    + intros x [Hx|Hx]%owned_cons Hc; [by apply (Hunc x)|]. apply (H3 x Hx), Hcov. by left.
    + split; [|done]. intros x Hx Ho'. apply (H3 x Ho'), Hcov. by right.
    + intros x. rewrite H5 Hcov owned_cons. tauto.
  - destruct (alloc_nothrow_spec b o H1 Ho) as [[HE _]|(a' & b1 & p & HE & _ & _ & _ & Hblk & _)].
    + rewrite Hr in HE. injection HE as <-. by split.
    + rewrite Hr in HE. injection HE as <- <-. destruct Hblk as (_ & Hpos & _). by unfold NULL in Hpos.
  - assert (block_ok (base b) (limit b) o a) as Hblk by (apply H2; set_solver).
    assert (uncovered (blk b) a (order_size o)) as Hunc.
    { intros x Hx. apply H3. exists a, o. split; [set_solver|done]. }
    destruct (free_spec b a o H1 Hblk Hunc) as (b1 & HE & Hok & Eb & El & Hcov).
    rewrite Hr in HE. injection HE as <-. apply exclusive_middle in H4 as [Hx4 H4].
    assert (∀ x, owned (l1 ++ (a, o) :: l2) x ↔ a ≤ x < a + order_size o ∨ owned (l1 ++ l2) x) as Hown.
    { intros x. rewrite -owned_cons. apply owned_perm. by rewrite -Permutation_middle. }
    split; cbn.
    + done.
    + intros c p Hin. rewrite Eb El. apply H2. set_solver.
    + intros x Hx [Hc|Hc]%Hcov; [|by apply (Hx4 x)]. apply (H3 x); [|done]. apply Hown. by right.
    + done.
    + intros x. rewrite H5 Hcov Hown. tauto.
Qed.

(** C25: over every history of allocations and releases of blocks in use, the
    allocator keeps its invariant: blocks in use are aligned to their size and
    inside of the tracked region, no two of them and no block in use and free
    memory overlap, and no memory is lost.  In each state it reaches, no
    assertion fails: a request of any legal size is answered, every block in
    use can be released, and the statistics can be taken. *)
Theorem buddy_histories (b0 : buddy) (h : heap) :
  ok b0 → rtc heap_step (Heap b0 []) h →
  heap_inv (covered (blk b0)) h ∧
  (∀ o, (o ≤ MAX_ORDER)%nat → is_Some (alloc_nothrow (allocator h) (order_size o))) ∧
  (∀ a o, (a, o) ∈ live h → is_Some (free (allocator h) a (order_size o))) ∧
  is_Some (get_stats (allocator h)).
Proof.
  intros Hok Hsteps.
  assert (heap_inv (covered (blk b0)) h) as Hinv.
  { assert (heap_inv (covered (blk b0)) (Heap b0 [])) as H0.
    { split; cbn; [done| | |done|].
      - intros a o H%elem_of_nil. done.
      - intros x (a & o & H%elem_of_nil & _). done.
      - intros x. split; [by left|]. intros [?|(a & o & H%elem_of_nil & _)]; done. }
    remember (Heap b0 []) as h0 eqn:E. clear E. induction Hsteps as [|h0 h1 h2 Hs _ IH]; [done|].
    apply IH. by eapply heap_step_inv. }
  split; [done|]. destruct Hinv as [H1 H2 H3 _ _]. split_and!.
  - intros o Ho. destruct (alloc_nothrow_spec _ o H1 Ho) as [[-> _]|(? & ? & ? & -> & _)]; eauto.
  - intros a o Hin. destruct (free_spec (allocator h) a o H1) as (b' & -> & _); eauto.
    intros x Hx. apply H3. by exists a, o.
  - destruct (get_stats_spec _ H1) as (s & -> & _). eauto.
Qed.


(** ** A concrete region *)

(** 128 KiB at 1 MiB, all of it tracked. *)
Definition raw_buddy : buddy := Buddy 0 0 0 0 0 0 (replicate 17 (OrderHead [] 0 [] 0 [])) 0.

Lemma raw_buddy_raw : raw raw_buddy.
Proof. split; [done|]. intros o. do 17 (destruct o as [|o]; [done|]). done. Qed.

Definition demo_buddy : option buddy := buddy_allocator 32 raw_buddy 0x100000 0x20000 0x100000 0x20000.

Lemma demo_region :
  bitmaps_size ((round_up (0x100000 + 0x20000) MAX_SIZE - round_down 0x100000 MAX_SIZE) / MIN_SIZE) MAX_ORDER
    + 2 * MIN_SIZE ≤ 0x20000.
Proof. apply (bool_decide_unpack _). vm_compute. exact I. Qed.

(** Two pages are taken and the first one is released. *)
Definition demo_run (ob : option buddy) : option (buddy * (Z * buddy) * (Z * buddy) * buddy) :=
  b0 ← ob;
  r1 ← alloc_nothrow b0 MIN_SIZE;
  r2 ← alloc_nothrow r1.2 MIN_SIZE;
  b3 ← free r2.2 r1.1 MIN_SIZE;
  Some (b0, r1, r2, b3).

Lemma demo_run_returns :
  match demo_run demo_buddy with
  | Some (_, (a1, _), (a2, _), _) => a1 = 1085440 ∧ a2 = 1089536
  | None => False
  end.
Proof. vm_compute. split; reflexivity. Qed.

Lemma demo_bounds :
  0x100000 ≠ NULL ∧ 0 ≤ 0x100000 ≤ 0x100000 ∧ 0 < 0x100000 ∧ 0 ≤ 0x20000 ≤ Z.of_nat 32 * MIN_SIZE ∧
  0x100000 + 0x20000 ≤ 0x100000 + 0x20000 ∧ 0x100000 + 0x20000 + MAX_SIZE ≤ 2 ^ 64.
Proof. apply (bool_decide_unpack _). vm_compute. exact I. Qed.

Lemma demo_buddy_ok : ∃ b, demo_buddy = Some b ∧ ok b.
Proof.
  destruct demo_bounds as (H1 & H2 & H3 & H4 & H5 & H6).
  destruct (buddy_allocator_spec 32 raw_buddy _ _ _ _ raw_buddy_raw H1 H2 H3 H4 H5 H6 demo_region) as (b & H & Hok & _).
  exists b. split; [exact H|exact Hok].
Qed.

Lemma buddy_construct_witness :
  ∃ b, demo_buddy = Some b ∧ ok b ∧ ∃ a b', alloc b MIN_SIZE = Some (inl a, b').
Proof.
  destruct demo_bounds as (H1 & H2 & H3 & H4 & H5 & H6).
  destruct (buddy_construct 32 raw_buddy _ _ _ _ raw_buddy_raw H1 H2 H3 H4 H5 H6 demo_region)
    as (b & H & Hok & _ & _ & _ & _ & _ & a & b' & Ha & _).
  exists b. split; [exact H|]. split; [exact Hok|]. exists a, b'. exact Ha.
Defined.

Opaque demo_buddy.


Lemma demo_run_steps b0 r1 r2 b3 :
  demo_run (Some b0) = Some (b0, r1, r2, b3) → r1.1 ≠ NULL → r2.1 ≠ NULL →
  rtc heap_step (Heap b0 []) (Heap b3 [(r2.1, O)]).
Proof.
  unfold demo_run. rewrite bind_some. intros H Ha1 Ha2.
  destruct (alloc_nothrow b0 MIN_SIZE) as [r1'|] eqn:H1; [rewrite bind_some in H|done].
  destruct (alloc_nothrow r1'.2 MIN_SIZE) as [r2'|] eqn:H2; [rewrite bind_some in H|done].
  destruct (free r2'.2 r1'.1 MIN_SIZE) as [b3'|] eqn:H3; [rewrite bind_some in H|done].
  injection H as -> -> ->. destruct r1 as [a1 b1], r2 as [a2 b2]. cbn in *.
  eapply rtc_l; [eapply (step_alloc _ _ 0); [lia|exact H1|done]|].
  eapply rtc_l; [eapply (step_alloc _ _ 0); [lia|exact H2|done]|].
  eapply rtc_l; [eapply (step_free _ [(a2, O)] a1 0 []); exact H3|]. apply rtc_refl.
Qed.

Lemma buddy_histories_witness :
  ∃ b0 a b3, demo_buddy = Some b0 ∧ heap_inv (covered (blk b0)) (Heap b3 [(a, O)]) ∧
    is_Some (free b3 a (order_size 0)).
Proof.
  pose proof demo_run_returns as Hrun. destruct demo_buddy_ok as (b0 & Hb0 & Hok). rewrite Hb0 in Hrun.
  destruct (demo_run (Some b0)) as [[[[b0' [a1 b1]] [a2 b2]] b3]|] eqn:E; [|destruct Hrun].
  assert (b0' = b0) as ->.
  { unfold demo_run in E. rewrite bind_some in E. repeat (apply bind_Some in E as (? & _ & E)). congruence. }
  assert (rtc heap_step (Heap b0 []) (Heap b3 [(a2, O)])) as Hsteps.
  { apply (demo_run_steps _ _ _ _ E); destruct Hrun as [-> ->]; done. }
  destruct (buddy_histories b0 (Heap b3 [(a2, O)]) Hok Hsteps) as (Hinv & _ & Hfree & _).
  exists b0, a2, b3. split; [exact Hb0|]. split; [exact Hinv|]. apply (Hfree a2 O). by left.
Defined.
