(* ===== verification/HashView.v ===== *)
(** * What a reader sees in a hash table

    A section reads the chains of a hash table as they were at the section's
    clock.  [chain_at] is the abstract view of a chain, made of the histories
    of its items; the reading operations of [chainhash.hh] are functions of
    that view. *)

From Stdlib Require Import Sorted.
From S2P Require Import Prelude World OrdoClock Port Object Cells VersionLog LogLayout LogAppend Commit Qp Api Snapshot Locking ChainHash Sections.

(** ** Views of objects *)

(** The object at [obj] had the contents [bs] at the clock of the section of
    [th]; its history is no longer than [fuel]. *)
Definition object_at (fuel : nat) (w : world) (th : mvrlu_thread_struct) (obj : Z) (bs : list Z) : Prop :=
  obj ≠ NULL ∧ addr_in_log_region w (obj_to_obj_hdr obj) = false ∧
  ∃ a l, w_ahs w !! vobj_to_ahs obj = Some a ∧ versions (w_chs w) (p_copy (a_obj_hdr a)) l ∧
    (∀ p, p ∈ l → is_Some (ver_clk w p)) ∧
    written_back w obj (local_clk th) (qp_clk2 (log th)) l ∧ (length l ≤ fuel)%nat ∧
    bs = snap (default [] (w_data w !! obj)) (history w l) (local_clk th).

(** The word [off] bytes into the contents. *)
Definition word (bs : list Z) (off : nat) : Z := of_le64 (take 8 (drop off bs)).

(** Contents that hold an item; in a log older bytes may follow. *)
Definition item_bytes (bs : list Z) : Prop := (Z.to_nat sizeof_item ≤ length bs)%nat.

Lemma item_off bs off : item_bytes bs → (off ≤ off_val)%nat → (off + 8 ≤ length bs)%nat.
Proof. unfold item_bytes, sizeof_item, off_val. lia. Qed.

Lemma item_bytes_nonempty bs : item_bytes bs → bs ≠ [].
Proof. intros H ->. unfold item_bytes, sizeof_item in H. cbn in H. lia. Qed.

(** An item with its key and its value, and the rest of the chain behind it. *)
Inductive chain_at (fuel : nat) (w : world) (th : mvrlu_thread_struct) : Z → list (Z * Z) → Prop :=
| chain_at_nil : chain_at fuel w th NULL []
| chain_at_cons obj bs l :
    object_at fuel w th obj bs → item_bytes bs →
    chain_at fuel w th (word bs off_link) l →
    chain_at fuel w th obj ((word bs off_key, word bs off_val) :: l).

(** The items of the chain behind the dummy item [head]. *)
Definition items_at (fuel : nat) (w : world) (th : mvrlu_thread_struct) (head : Z) (its : list (Z * Z)) : Prop :=
  ∃ bs, object_at fuel w th head bs ∧ item_bytes bs ∧
    chain_at fuel w th (word bs off_link) its.

Lemma versions_not_null m p l q : versions m p l → q ∈ l → q ≠ NULL.
Proof. induction 1; [by intros ?%elem_of_nil|]. intros [->|?]%elem_of_cons; auto. Qed.

Lemma visible_elem_of w local q2 l p : visible w local q2 l = Some p → p ∈ l.
Proof.
  induction l as [|q l IH]; [done|]. cbn. destruct (ver_clk w q); [|done].
  destruct (lte_clock _ local); [intros [= ->]; by left|]. destruct (lte_clock _ q2); [done|].
  intros ?%IH. by right.
Qed.

Lemma visible_ext w1 w2 local q2 l :
  w_chs w1 = w_chs w2 → w_ws w1 = w_ws w2 → visible w1 local q2 l = visible w2 local q2 l.
Proof.
  intros E1 E2. induction l as [|p l IH]; [done|]. cbn. unfold ver_clk, clk_of, next_clk. by rewrite E1 E2 IH.
Qed.

(** ** Reading in a section *)

(** The thread with other statistics. *)
Definition tallied (n : Z * Z) (th : mvrlu_thread_struct) : mvrlu_thread_struct :=
  th <| num_act_obj := n.1 |> <| num_deref := n.2 |>.

Section reading.
Context (fuel : nat) (w : world) (self : Z) (th : mvrlu_thread_struct) (tsc : list Z).

(** The state while the section reads: the clock has been read and the
    statistics have changed. *)
Definition reading (n : Z * Z) : world := set_thr self (tallied n th) (w <| w_tsc := tsc |>).

Lemma reading_thr n : w_thr (reading n) !! self = Some (tallied n th).
Proof. apply lookup_insert_eq. Qed.

Lemma run_deref_at n obj bs :
  object_at fuel w th obj bs → bs ≠ [] →
  ∃ p n', run (mvrlu_deref fuel self obj) (reading n) = Done p (reading n') ∧ p ≠ NULL ∧
    w_data w !! p = Some bs.
Proof.
  intros (Ho & Hreg & a & l & Ha & Hv & Hk & Hwb & Hf & ->) Hbs.
  pose proof (visible_snap w obj _ _ l Hk Hwb) as Hs.
  pose proof (run_mvrlu_deref fuel (reading n) self (tallied n th) obj obj a l (reading_thr n) Ho
    (run_get_act_obj_actual (reading n) obj Hreg) Ha Hv Hk Hf) as Hr.
  rewrite (visible_ext (reading n) w) // in Hr.
  change (visible w _ _ l) with (visible w (local_clk th) (qp_clk2 (log th)) l) in Hr.
  destruct n as [na nd].
  exists (default obj (visible w (local_clk th) (qp_clk2 (log th)) l)),
    (if bool_decide (p_copy (a_obj_hdr a) ≠ NULL) then (na + 1, nd + 1) else (na + 1, nd)).
  split; [|split].
  - rewrite Hr. f_equal. unfold deref_counted, reading. rewrite set_thr_thr. f_equal. by destruct (bool_decide _).
  - destruct (visible _ _ _ l) as [p|] eqn:E; [|done]. cbn.
    by eapply versions_not_null, visible_elem_of.
  - rewrite -Hs in Hbs |- *. destruct (w_data w !! _); [reflexivity|done].
Qed.

Lemma run_iter_make n obj bs :
  object_at fuel w th obj bs → bs ≠ [] →
  ∃ p n', run (iter_make fuel self obj) (reading n) = Done p (reading n') ∧ p ≠ NULL ∧
    w_data w !! p = Some bs.
Proof. apply run_deref_at. Qed.

Lemma run_word n p bs off :
  w_data w !! p = Some bs → (off + 8 ≤ length bs)%nat →
  run (load_ptr p off) (reading n) = Done (word bs off) (reading n).
Proof.
  intros Hp Hl. unfold load_ptr. rewrite run_act. change (w_data (reading n)) with (w_data w).
  rewrite Hp. by rewrite decide_True.
Qed.

(** An iterator at a chain: [NULL] at its end, or a pointer to the version the
    section sees of its first item. *)
Inductive at_chain : Z → list (Z * Z) → Prop :=
| at_end : at_chain NULL []
| at_item p bs l :
    p ≠ NULL → w_data w !! p = Some bs → item_bytes bs →
    chain_at fuel w th (word bs off_link) l →
    at_chain p ((word bs off_key, word bs off_val) :: l).

Lemma run_deref_chain_at n obj l :
  chain_at fuel w th obj l →
  ∃ p n', run (mvrlu_deref fuel self obj) (reading n) = Done p (reading n') ∧ at_chain p l.
Proof.
  destruct 1 as [|obj bs l Ho Hl Hc].
  - exists NULL, n. split; [done|constructor].
  - destruct (run_deref_at n obj bs Ho (item_bytes_nonempty bs Hl)) as (p & n' & Hr & Hp & Hd).
    exists p, n'. split; [done|]. by econstructor.
Qed.

Lemma run_iter_next n p k v l :
  at_chain p ((k, v) :: l) →
  ∃ p' n', run (iter_next fuel self p) (reading n) = Done p' (reading n') ∧ at_chain p' l.
Proof.
  inversion 1 as [|p0 bs l0 Hp Hd Hl Hc]; subst.
  destruct (run_deref_chain_at n _ _ Hc) as (p' & n' & Hr & Hat). exists p', n'. split; [|done].
  unfold iter_next. erewrite run_bind_done; [exact Hr|]. apply run_word; [done|]. apply item_off; [done|]. unfold off_link, off_key, off_val. lia.
Qed.

Lemma run_item_key n p k v l :
  at_chain p ((k, v) :: l) → run (item_key p) (reading n) = Done k (reading n).
Proof. inversion 1 as [|p0 bs l0 Hp Hd Hl Hc]; subst. apply run_word; [done|]. apply item_off; [done|]. unfold off_link, off_key, off_val. lia. Qed.

Lemma run_item_val n p k v l :
  at_chain p ((k, v) :: l) → run (item_val p) (reading n) = Done v (reading n).
Proof. inversion 1 as [|p0 bs l0 Hp Hd Hl Hc]; subst. apply run_word; [done|]. apply item_off; [done|]. unfold off_link, off_key, off_val. lia. Qed.

Lemma run_iter_ne n p l :
  at_chain p l → run (iter_ne p list_end) (reading n) = Done (negb (bool_decide (l = []))) (reading n).
Proof.
  intros H. unfold iter_ne, iter_eq, list_end. cbn [truth Z.eqb negb NULL].
  rewrite run_bind run_ret. cbn [outcome_bind]. rewrite run_ret. do 2 f_equal.
  inversion H; subst; [done|]. by rewrite !bool_decide_false.
Qed.

Lemma run_list_begin n head its :
  items_at fuel w th head its →
  ∃ p n', run (list_begin fuel self head) (reading n) = Done p (reading n') ∧ at_chain p its.
Proof.
  intros (bs & Ho & Hl & Hc). destruct (run_deref_at n head bs Ho (item_bytes_nonempty bs Hl)) as (p & n1 & Hr & Hp & Hd).
  destruct (run_iter_next n1 p (word bs off_key) (word bs off_val) its) as (p' & n2 & Hr2 & Hat); [by econstructor|].
  exists p', n2. split; [|done]. unfold list_begin, iter_make. by rewrite (run_bind_done _ _ _ _ _ Hr).
Qed.
(** ** Loops over a chain and over the table *)

Fixpoint scan {X C A : Type} (g : X → C → C + A) (l : list X) (c : C) : C + A :=
  match l with
  | [] => inl c
  | x :: l' => match g x c with inl c' => scan g l' c' | inr a => inr a end
  end.

(** A loop whose body does [g] for each item, as long as [P] holds. *)
Lemma run_for_items {C A} (body : Z → C → kprog (C + A)) (g : Z * Z → C → C + A) (P : C → list (Z * Z) → Prop)
    n head its c :
  (∀ n i k v l c, at_chain i ((k, v) :: l) → P c ((k, v) :: l) →
     run (body i c) (reading n) = Done (g (k, v) c) (reading n)) →
  (∀ x l c c', P c (x :: l) → g x c = inl c' → P c' l) →
  items_at fuel w th head its → P c its → (length its < fuel)%nat →
  ∃ n', run (for_items fuel self head body c) (reading n) = Done (scan g its c) (reading n').
Proof.
  intros Hbody HP Hits HPc Hf. unfold for_items.
  destruct (run_list_begin n head its Hits) as (p & n1 & Hr & Hat). rewrite (run_bind_done _ _ _ _ _ Hr).
  clear Hr Hits n. revert p c n1 Hat HPc. generalize dependent its.
  generalize fuel at 1 2 as m. intros m its. revert m.
  induction its as [|[k v] its IH]; intros m Hf p c n Hat HPc; destruct m as [|m]; try (cbn in Hf; lia).
  - exists n. apply run_loop_exit. by rewrite (run_bind_done _ _ _ _ _ (run_iter_ne n p [] Hat)).
  - cbn [scan]. pose proof (Hbody n p k v its c Hat HPc) as Hb.
    destruct (g (k, v) c) as [c'|a] eqn:Eg.
    + destruct (run_iter_next n p k v its Hat) as (p' & n' & Hn & Hat').
      destruct (IH m ltac:(cbn in Hf; lia) p' c' n' Hat' (HP _ _ _ _ HPc Eg)) as (n2 & Hr).
      exists n2. erewrite run_loop_again; [exact Hr|].
      rewrite (run_bind_done _ _ _ _ _ (run_iter_ne n p _ Hat)). cbn [negb bool_decide].
      rewrite (run_bind_done _ _ _ _ _ Hb). by rewrite (run_bind_done _ _ _ _ _ Hn).
    + exists n. apply run_loop_exit. rewrite (run_bind_done _ _ _ _ _ (run_iter_ne n p _ Hat)).
      by rewrite (run_bind_done _ _ _ _ _ Hb).
Qed.
(** The chains of the table [T], by bucket. *)
Definition table_at (nbuckets : Z) (chain : Z → Z) (T : list (list (Z * Z))) : Prop :=
  Z.of_nat (length T) = nbuckets ∧
  ∀ i its, T !! i = Some its → items_at fuel w th (chain (Z.of_nat i)) its ∧ (length its < fuel)%nat.

Lemma run_for_buckets {C A} nbuckets chain (T : list (list (Z * Z))) (body : Z → C → kprog (C + A))
    (h : list (Z * Z) → C → C + A) (P : C → list (list (Z * Z)) → Prop) n start c :
  table_at nbuckets chain T → (length T < fuel)%nat →
  (∀ n head its l c, items_at fuel w th head its → (length its < fuel)%nat → P c (its :: l) →
     ∃ n', run (body head c) (reading n) = Done (h its c) (reading n')) →
  (∀ x l c c', P c (x :: l) → h x c = inl c' → P c' l) →
  P c (drop start T) →
  ∃ n', run (for_buckets nbuckets chain fuel (Z.of_nat start) body c) (reading n) =
        Done (scan h (drop start T) c) (reading n').
Proof.
  intros [HT Hits] Hf Hbody HP HPc. unfold for_buckets.
  assert (length (drop start T) < fuel)%nat as Hm by (rewrite length_drop; lia). clear Hf. revert Hm.
  generalize fuel at 1 2 as m. intros m. remember (drop start T) as D eqn:ED. revert m start ED n c HPc.
  induction D as [|its D IH]; intros m start ED n c HPc Hm; destruct m as [|m]; try (cbn in Hm; lia).
  - exists n. apply run_loop_exit. assert (length T ≤ start)%nat.
    { apply (f_equal length) in ED. rewrite length_drop in ED. cbn in ED. lia. }
    destruct (Z.ltb_spec (Z.of_nat start) nbuckets); [lia|done].
  - assert (T !! start = Some its) as Hlk. { by rewrite -(Nat.add_0_r start) -lookup_drop -ED. }
    assert (start < length T)%nat as Hlt by by eapply lookup_lt_Some.
    destruct (Hits _ _ Hlk) as [Hi Hl]. destruct (Hbody n _ _ D c Hi Hl HPc) as (n1 & Hb).
    destruct (Z.ltb_spec (Z.of_nat start) nbuckets) as [Hs|]; [|lia]. cbn [scan].
    destruct (h its c) as [c'|a] eqn:Eh.
    + destruct (IH m (S start)) with (n := n1) (c := c') as (n2 & Hr).
      * rewrite (drop_S _ _ _ Hlk) in ED. by injection ED.
      * by eapply HP.
      * cbn in Hm. lia.
      * exists n2. erewrite run_loop_again; [exact Hr|]. rewrite (proj2 (Z.ltb_lt _ _) Hs).
        rewrite (run_bind_done _ _ _ _ _ Hb) run_ret. do 3 f_equal. lia.
    + exists n1. apply run_loop_exit. rewrite (proj2 (Z.ltb_lt _ _) Hs).
      by rewrite (run_bind_done _ _ _ _ _ Hb).
Qed.
End reading.

(** ** Sections that only read *)

(** The thread [self] is outside of any section, has room in its log and
    nothing left to reclaim, and the next clock is [c]. *)
Record can_read (w : world) (self : Z) (th : mvrlu_thread_struct) (c : Z) (tsc : list Z) : Prop := CanRead {
  cr_thr : w_thr w !! self = Some th;
  cr_need : need_reclaim (log th) = 0;
  cr_room : used th < MVRLU_LOG_HIGH_MARK;
  cr_write : is_write_detected th = 0;
  cr_tsc : w_tsc w = c :: tsc }.

(** The world behind the section: the clock has been read, the thread's section
    counter has advanced by two, and the detector may have been woken. *)
Definition has_read (w : world) (self : Z) (th : mvrlu_thread_struct) (c : Z) (tsc : list Z) (w' : world) : Prop :=
  ∃ n wake, w' = set_thr self (left_thread (tallied n (entered_thread c th)))
                   (if wake : bool then woken (w <| w_tsc := tsc |>) else w <| w_tsc := tsc |>).

Lemma run_read_section {A B} fuel w self th c tsc (body : kprog A) (f : A → B) r n :
  can_read w self th c tsc →
  run body (reading w self (entered_thread c th) tsc (0, 0)) =
    Done r (reading w self (entered_thread c th) tsc n) →
  ∃ w', run (mvrlu_section_enter fuel self;; x ← body; mvrlu_section_leave fuel self;; mret (f x)) w =
        Done (f r) w' ∧ has_read w self th c tsc w'.
Proof.
  intros [Hth Hneed Hroom Hwd Htsc] Hb.
  assert (run (mvrlu_section_enter fuel self) w = Done () (reading w self (entered_thread c th) tsc (0, 0))) as He.
  { unfold mvrlu_section_enter. by rewrite (run_reader_lock fuel w self th c tsc Hth Hneed Hroom Htsc). }
  set (th' := tallied n (entered_thread c th)).
  pose proof (run_unlock_clean fuel (reading w self (entered_thread c th) tsc n) self th'
    (reading_thr _ _ _ _ _) Hneed Hwd) as Hu.
  eexists. split.
  - rewrite (run_bind_done _ _ _ _ _ He) (run_bind_done _ _ _ _ _ Hb).
    unfold mvrlu_section_leave. rewrite (run_bind_done _ _ _ _ _ Hu). by rewrite run_ret.
  - exists n, (above_mark th'). unfold reading. destruct (above_mark th').
    + unfold woken. change (w_qp (set_thr _ _ _)) with (w_qp w). change (w_qp (w <| w_tsc := tsc |>)) with (w_qp w).
      destruct (truth _); [by rewrite set_thr_thr|]. unfold set_thr. world_eq. by rewrite insert_insert_eq.
    + by rewrite set_thr_thr.
Qed.

(** ** Lookup *)

(** The keys ascend, as [insert] keeps them. *)
Definition sorted (its : list (Z * Z)) : Prop := StronglySorted Z.lt its.*1.

Definition lookup_item (k : Z) (x : Z * Z) (_ : unit) : unit + option Z :=
  if x.1 <? k then inl () else if k <? x.1 then inr None else inr (Some x.2).

Lemma scan_lookup k its :
  sorted its →
  match scan (lookup_item k) its () with inl _ => None | inr v => v end = (list_to_map its : gmap Z Z) !! k.
Proof.
  unfold sorted. induction its as [|[c v] its IH]; intros Hs; [done|].
  cbn in Hs. apply StronglySorted_inv in Hs as [Hs Hall]. cbn [scan lookup_item fst snd list_to_map foldr].
  change (foldr _ ∅ its) with (list_to_map its : gmap Z Z). unfold lookup_item; cbn [fst snd].
  destruct (Z.ltb_spec c k) as [?|Hk]; [rewrite lookup_insert_ne; [lia|by apply IH]|].
  destruct (Z.ltb_spec k c) as [Hkc|?].
  - symmetry. rewrite lookup_insert_ne; [lia|]. apply not_elem_of_list_to_map_1.
    intros Hin. rewrite Forall_forall in Hall. specialize (Hall _ Hin). lia.
  - assert (c = k) as -> by lia. by rewrite lookup_insert_eq.
Qed.

Lemma run_lookup hash nbuckets chain fuel w self th c tsc k its :
  can_read w self th c tsc →
  items_at fuel w (entered_thread c th) (chain (hash k mod nbuckets)) its →
  sorted its → (length its < fuel)%nat →
  ∃ w', run (chainhash_lookup hash nbuckets chain fuel self k) w = Done ((list_to_map its : gmap Z Z) !! k) w' ∧
    has_read w self th c tsc w'.
Proof.
  intros Hcan Hits Hs Hf. rewrite -(scan_lookup k its Hs).
  destruct (run_for_items fuel w self (entered_thread c th) tsc (λ i _,
    c ← item_key i;
    if c <? k then mret (inl ()) else if k <? c then mret (inr None) else v ← item_val i; mret (inr (Some v)))
    (lookup_item k) (λ _ _, True) (0, 0) (bucket_of hash nbuckets chain k) its ()) as (n & Hr); [|done|exact Hits|done|exact Hf|].
  - intros n i c' v l [] Hat _. rewrite (run_bind_done _ _ _ _ _ (run_item_key _ _ _ _ _ _ _ _ _ _ Hat)).
    unfold lookup_item. cbn [fst snd]. destruct (c' <? k); [done|]. destruct (k <? c'); [done|].
    by rewrite (run_bind_done _ _ _ _ _ (run_item_val _ _ _ _ _ _ _ _ _ _ Hat)).
  - exact (run_read_section fuel w self th c tsc _ (λ r, match r with inl _ => None | inr v => v end) _ n Hcan Hr).
Qed.


(** ** Enumeration *)

(** What the inner loop of [enumerate] does with an item. *)
Definition next_item (above : Z → bool) (x : Z * Z) (out : option Z) : option Z + Empty_set :=
  inl (if above x.1 && match out with Some o => x.1 <? o | None => true end then Some x.1 else out).

(** In ascending order the least key is the first one. *)
Lemma scan_next above its :
  sorted its → scan (next_item above) its None = inl (head (List.filter above its.*1)).
Proof.
  intros Hs.
  assert (∀ o its, Forall (Z.lt o) its.*1 → scan (next_item above) its (Some o) = inl (Some o)) as Hsome.
  { clear. intros o its. induction its as [|[c v] its IH]; [done|]. cbn. intros [Ho Hall]%Forall_cons.
    rewrite (proj2 (Z.ltb_ge c o)); [lia|]. rewrite andb_false_r. by apply IH. }
  unfold sorted in Hs. induction its as [|[c v] its IH]; [done|].
  cbn in Hs. apply StronglySorted_inv in Hs as [Hs Hall]. cbn. rewrite andb_true_r.
  destruct (above c) eqn:E; [by apply Hsome|by apply IH].
Qed.

Definition above_prev (prev : option Z) (prevbucket : bool) (c : Z) : bool :=
  match prev with Some p => negb prevbucket || (p <? c) | None => true end.

(** What the outer loop does with a chain. *)
Definition next_bucket (prev : option Z) (its : list (Z * Z)) (prevbucket : bool) : bool + Z :=
  match head (List.filter (above_prev prev prevbucket) its.*1) with Some c => inr c | None => inl false end.

Lemma scan_buckets prev T :
  match scan (next_bucket prev) T false with inl _ => None | inr c => Some c end = head (concat T).*1.
Proof.
  assert (∀ l : list Z, List.filter (above_prev prev false) l = l) as Hall.
  { intros l. induction l as [|c l IH]; [done|]. cbn. rewrite IH. by destruct prev. }
  induction T as [|its T IH]; [done|]. cbn. unfold next_bucket at 1. rewrite Hall fmap_app.
  by destruct its as [|[c v] its].
Qed.

(** Behind a key of an ascending chain, the larger keys are those that follow. *)
Lemma filter_behind p v its1 its2 :
  sorted (its1 ++ (p, v) :: its2) →
  List.filter (above_prev (Some p) true) (its1 ++ (p, v) :: its2).*1 = its2.*1.
Proof.
  unfold sorted. induction its1 as [|[q u] its1 IH]; cbn; intros [Hs Hall]%StronglySorted_inv.
  - rewrite Z.ltb_irrefl. clear Hs. induction its2 as [|[q u] its2 IH]; [done|]. cbn in *.
    apply Forall_cons in Hall as [Hq Hall]. by rewrite (proj2 (Z.ltb_lt _ _) Hq) IH.
  - rewrite fmap_app in Hall. apply Forall_app in Hall as [_ Hall]. apply Forall_cons in Hall as [Hq _]. cbn in Hq.
    rewrite (proj2 (Z.ltb_ge p q)); [lia|]. by apply IH.
Qed.

Lemma run_enumerate hash nbuckets chain fuel w self th c tsc T prev start :
  can_read w self th c tsc →
  table_at fuel w (entered_thread c th) nbuckets chain T → (length T < fuel)%nat → Forall sorted T →
  match prev with Some p => hash p mod nbuckets | None => 0 end = Z.of_nat start →
  ∃ w', run (enumerate hash nbuckets chain fuel self prev) w =
        Done (match scan (next_bucket prev) (drop start T) (bool_decide (is_Some prev)) with
              | inl _ => None | inr c => Some c end) w' ∧
    has_read w self th c tsc w'.
Proof.
  intros Hcan HT Hf Hs Hstart. unfold enumerate. rewrite Hstart.
  destruct (run_for_buckets fuel w self (entered_thread c th) tsc nbuckets chain T (λ b prevbucket,
    r ← for_items (A := Empty_set) fuel self b (λ i out,
      c ← item_key i;
      let above := match prev with Some p => negb prevbucket || (p <? c) | None => true end in
      let least := match out with Some o => c <? o | None => true end in
      mret (inl (if above && least then Some c else out))) None;
    match r with
    | inl (Some c) => mret (inr c)
    | inl None => mret (inl false)
    | inr e => match (e : Empty_set) with end
    end) (next_bucket prev) (λ _ l, Forall sorted l) (0, 0) start (bool_decide (is_Some prev)) HT Hf)
    as (n & Hr).
  - intros n head its l pb Hi Hl [Hsort _]%Forall_cons.
    destruct (run_for_items fuel w self (entered_thread c th) tsc (A := Empty_set) (λ i out,
      c ← item_key i;
      let above := match prev with Some p => negb pb || (p <? c) | None => true end in
      let least := match out with Some o => c <? o | None => true end in
      mret (inl (if above && least then Some c else out))) (next_item (above_prev prev pb))
      (λ _ _, True) n head its None) as (n' & Hr); [|done|exact Hi|done|exact Hl|].
    + intros n0 i k v l0 out Hat _.
      by rewrite (run_bind_done _ _ _ _ _ (run_item_key _ _ _ _ _ _ _ _ _ _ Hat)).
    + exists n'. rewrite (run_bind_done _ _ _ _ _ Hr) scan_next //. unfold next_bucket.
      by destruct (List.head _).
  - intros x l pb pb' Hl _. by apply Forall_cons in Hl as [_ Hl].
  - by apply Forall_drop.
  - replace (match prev with Some _ => true | None => false end) with (bool_decide (is_Some prev))
      by by destruct prev.
    exact (run_read_section fuel w self th c tsc _ (λ r, match r with inl _ => None | inr c => Some c end) _ n Hcan Hr).
Qed.

(** [enumerate(prev, out)] walks the snapshot at the section's clock in
    the order of the table: without [prev] it finds the first key, and with a
    key of the table the key behind it, in its chain or in the next one that
    is not empty; it returns false behind the last key. *)
Theorem enumerate_next hash nbuckets chain fuel w self th c tsc T :
  can_read w self th c tsc →
  table_at fuel w (entered_thread c th) nbuckets chain T → (length T < fuel)%nat → Forall sorted T →
  (∃ w', run (enumerate hash nbuckets chain fuel self None) w = Done (head (concat T).*1) w' ∧
     has_read w self th c tsc w') ∧
  (∀ p v T1 its1 its2 T2,
     T = T1 ++ (its1 ++ (p, v) :: its2) :: T2 → hash p mod nbuckets = Z.of_nat (length T1) →
     ∃ w', run (enumerate hash nbuckets chain fuel self (Some p)) w = Done (head (its2 ++ concat T2).*1) w' ∧
       has_read w self th c tsc w').
Proof.
  intros Hcan HT Hf Hs. split.
  - destruct (run_enumerate hash nbuckets chain fuel w self th c tsc T None O Hcan HT Hf Hs eq_refl) as (w' & Hr & Hw).
    exists w'. split; [|done]. by rewrite -(scan_buckets None T).
  - intros p v T1 its1 its2 T2 -> Hp.
    destruct (run_enumerate hash nbuckets chain fuel w self th c tsc _ (Some p) (length T1) Hcan HT Hf Hs Hp)
      as (w' & Hr & Hw).
    exists w'. split; [|done]. rewrite Hr drop_app_length. f_equal. cbn [scan bool_decide].
    apply Forall_app in Hs as [_ [Hs _]%Forall_cons]. unfold next_bucket at 1.
    rewrite (filter_behind p v its1 its2 Hs) fmap_app. destruct its2 as [|[q u] its2]; [|done].
    by rewrite -(scan_buckets (Some p) T2).
Qed.

(** ** Counting and visiting *)

Lemma scan_concat {X C A} (g : X → C → C + A) T c : scan (scan g) T c = scan g (concat T) c.
Proof.
  revert c. induction T as [|l T IH]; intros c; [done|]. cbn.
  revert c. induction l as [|x l IHl]; intros c; [apply IH|]. cbn. by destruct (g x c).
Qed.

(** The items counted, for keys other than 0. *)
Definition count_item (x : Z * Z) (n : Z) : Z + Empty_set := inl (if negb (x.1 =? 0) then n + 1 else n).

Lemma scan_count l n :
  scan count_item l n = inl (n + Z.of_nat (length (List.filter (λ x, negb (x.1 =? 0)) l))).
Proof.
  revert n. induction l as [|x l IH]; intros n; cbn; [f_equal; lia|]. rewrite IH.
  destruct (negb _); cbn; f_equal; lia.
Qed.

(** [getSize] counts the items of the snapshot at the section's clock
    whose key is not 0. *)
Theorem getSize_counts nbuckets chain fuel w self th c tsc T :
  can_read w self th c tsc →
  table_at fuel w (entered_thread c th) nbuckets chain T → (length T < fuel)%nat →
  Z.of_nat (length (concat T)) < 2 ^ 31 →
  ∃ w', run (getSize nbuckets chain fuel self) w =
        Done (Z.of_nat (length (List.filter (λ x, negb (x.1 =? 0)) (concat T)))) w' ∧
    has_read w self th c tsc w'.
Proof.
  intros Hcan HT Hf Hsmall.
  set (P := λ (n : Z) (l : list (Z * Z)), n + Z.of_nat (length l) < 2 ^ 31).
  destruct (run_for_buckets fuel w self (entered_thread c th) tsc nbuckets chain T (λ b size,
    for_items fuel self b (λ i size,
      c ← item_key i;
      n ← (if negb (c =? 0) then int_incr size else mret size);
      mret (inl n)) size) (scan count_item) (λ n T, P n (concat T)) (0, 0) O 0 HT Hf)
    as (n & Hr).
  - intros n head its l size Hi Hl HP.
    eapply (run_for_items fuel w self (entered_thread c th) tsc (A := Empty_set) _ count_item P);
      [|intros x l' m m' Hm [= <-]; unfold P in *; cbn in Hm; destruct (negb _); lia|exact Hi| |exact Hl].
    + intros n0 i k v l0 m Hat Hm. rewrite (run_bind_done _ _ _ _ _ (run_item_key _ _ _ _ _ _ _ _ _ _ Hat)).
      unfold count_item. cbn [fst]. destruct (negb (k =? 0)); [|done].
      unfold int_incr. rewrite run_bind run_act. unfold P in Hm. cbn in Hm.
      rewrite (proj2 (Z.ltb_lt m _)); [lia|done].
    + unfold P in *. rewrite length_concat in HP. cbn in HP. lia.
  - intros its l m m' HP Hm. rewrite scan_count in Hm. injection Hm as <-. unfold P in *. cbn in HP.
    rewrite length_app in HP. pose proof (List.filter_length_le (λ x : Z * Z, negb (x.1 =? 0)) its). lia.
  - done.
  - rewrite scan_concat scan_count in Hr.
    exact (run_read_section fuel w self th c tsc _ (λ r, match r with inl n => n | inr e => match (e : Empty_set) with end end) _ n Hcan Hr).
Qed.
