(* ===== verification/Rlu.v ===== *)
(** * RLU ([lib/rlu.c], [include/rlu.h], [include/rlu.hh])

    The read-log-update library MV-RLU is compared with, in the configuration
    of the tree: fine-grained locks, no ORDO time stamps, no time measurement.
    An object has at most one copy, in the write set of the thread that holds
    its lock; a commit waits for older readers and writes the copies back.

    Members that only the owning thread writes are updated in one action. *)

From S2P Require Import Prelude.

(** ** Constants *)

Definition RLU_TYPE_FINE_GRAINED : Z := 1.
Definition RLU_TYPE_COARSE_GRAINED : Z := 2.
Definition RLU_TYPE : Z := RLU_TYPE_FINE_GRAINED.
Definition RLU_NUM_WS : Z := 1.
Definition RLU_MAX_THREADS : Z := 450.
Definition RLU_MAX_WRITE_SETS : Z := 200.
Definition RLU_MAX_FREE_NODES : Z := 100000.
Definition RLU_MAX_WRITE_SET_BUFFER_SIZE : Z := 100000.
Definition RLU_MAX_NESTED_WRITER_LOCKS : Z := 20.
Definition RLU_MAX_WRITER_LOCKS : Z := 20000.

Definition RLU_MAX_VERSION : Z := 2 ^ 63 - 2.
Definition LOCK_ID (th_id : Z) : Z := th_id + 1.
Definition WS_INDEX (ws_counter : Z) : Z := Z.rem ws_counter RLU_MAX_WRITE_SETS.
Definition PTR_ID_OBJ_COPY : Z := 0x12341234.
Definition Q_ITERS_LIMIT : Z := 100000000.

Definition ALIGN_OBJ_SIZE (obj_size : Z) : Z :=
  if truth (Z.land obj_size 7) then obj_size + (8 - Z.land obj_size 7) else obj_size.

(** [OBJ_HEADER_SIZE] and [WS_OBJ_HEADER_SIZE]. *)
Definition OBJ_HEADER_SIZE : Z := 8.
Definition WS_OBJ_HEADER_SIZE : Z := 32.

(** The conversion of [unsigned long] to [long]. *)
Definition to_long (x : Z) : Z := let x := wrap64 x in if x <? 2 ^ 63 then x else x - 2 ^ 64.

(** ** Data *)

Record rlu_ws_obj_header := WsObjHeader {
  p_obj_actual : Z; ws_obj_size : Z; ws_run_counter : Z; ws_thread_id : Z }.
#[export] Instance rlu_ws_obj_header_settable : Settable rlu_ws_obj_header :=
  λ x, WsObjHeader (p_obj_actual x) (ws_obj_size x) (ws_run_counter x) (ws_thread_id x).

(** A write set; what its buffer holds is in the memory below. *)
Record obj_list := ObjList {
  wl_size : Z; wl_ids : gmap Z Z;       (* writer_locks *)
  num_of_objs : Z;                      (* unsigned int *)
  p_cur : Z }.
#[export] Instance obj_list_settable : Settable obj_list :=
  λ x, ObjList (wl_size x) (wl_ids x) (num_of_objs x) (p_cur x).

Record wait_entry := WaitEntry { is_wait : Z; q_run_counter : Z }.
#[export] Instance wait_entry_settable : Settable wait_entry := λ x, WaitEntry (is_wait x) (q_run_counter x).

Record rlu_thread_data := RluThread {
  uniq_id : Z;
  is_check_locks : Z; is_write_detected : Z; is_steal : Z;
  r_type : Z; max_write_sets : Z;
  run_counter : Z;                      (* unsigned long *)
  local_version : Z; local_commit_version : Z;
  is_no_quiescence : Z; is_sync : Z;
  writer_version : Z;
  q_threads : gmap Z wait_entry;
  ws_head_counter : Z; ws_wb_counter : Z; ws_tail_counter : Z;
  ws_cur_id : Z;
  obj_write_set : gmap Z obj_list;
  free_nodes_size : Z; free_nodes : gmap Z Z }.
#[export] Instance rlu_thread_data_settable : Settable rlu_thread_data :=
  λ x, RluThread (uniq_id x) (is_check_locks x) (is_write_detected x) (is_steal x) (r_type x)
    (max_write_sets x) (run_counter x) (local_version x) (local_commit_version x) (is_no_quiescence x)
    (is_sync x) (writer_version x) (q_threads x) (ws_head_counter x) (ws_wb_counter x)
    (ws_tail_counter x) (ws_cur_id x) (obj_write_set x) (free_nodes_size x) (free_nodes x).

(** The memory of the library: headers and contents of objects and copies by
    the address of the object or copy, headers in write sets by their own
    address, threads by address, the globals, and the blocks of [port_alloc_x]
    with the addresses it is going to return.  [r_asserts] counts the failed
    assertions, which are only printed. *)
Record rlu_world := RluWorld {
  r_copy : gmap Z Z;                    (* rlu_obj_header_t::p_obj_copy *)
  r_wsh : gmap Z rlu_ws_obj_header;
  r_data : gmap Z (list Z);
  r_thr : gmap Z rlu_thread_data;
  g_rlu_type : Z; g_rlu_max_write_sets : Z;
  g_rlu_cur_threads : Z;
  g_rlu_threads : gmap Z Z;
  g_rlu_writer_locks : gmap Z Z;
  g_rlu_writer_version : Z; g_rlu_commit_version : Z;
  r_kmem : list Z; r_mem : gmap Z Z;
  r_asserts : nat }.
#[export] Instance rlu_world_settable : Settable rlu_world :=
  λ x, RluWorld (r_copy x) (r_wsh x) (r_data x) (r_thr x) (g_rlu_type x) (g_rlu_max_write_sets x)
    (g_rlu_cur_threads x) (g_rlu_threads x) (g_rlu_writer_locks x) (g_rlu_writer_version x)
    (g_rlu_commit_version x) (r_kmem x) (r_mem x) (r_asserts x).

Notation rprog := (prog rlu_world).

(** [&self->obj_write_set[ws_id].buffer[0]], from the layout of
    [rlu_thread_data_t] and [obj_list_t]. *)
Definition sizeof_obj_list : Z := 100184.
Definition buffer_of (self ws_id : Z) : Z := self + 7816 + ws_id * sizeof_obj_list + 184.

(** ** Accesses *)

Definition rd {A} (f : rlu_world → A) : rprog A := act (λ r, Next (f r) r).
Definition wr (f : rlu_world → rlu_world) : rprog unit := act (λ r, Next () (f r)).

(** A member of a thread. *)
Definition th_get {V} (get : rlu_thread_data → V) (self : Z) : rprog V :=
  act (λ r, match r_thr r !! self with Some t => Next (get t) r | None => Crash end).
Definition th_upd (self : Z) (f : rlu_thread_data → rlu_thread_data) : rprog unit :=
  act (λ r, match r_thr r !! self with
            | Some t => Next () (r <| r_thr ::= <[self := f t]> |>)
            | None => Crash
            end).

(** A member of [self->obj_write_set[ws_id]]. *)
Definition wset_get {V} (get : obj_list → V) (self ws_id : Z) : rprog V :=
  act (λ r, match r_thr r !! self with
            | Some t => match obj_write_set t !! ws_id with Some o => Next (get o) r | None => Crash end
            | None => Crash
            end).
Definition wset_upd (self ws_id : Z) (f : obj_list → obj_list) : rprog unit :=
  act (λ r, match r_thr r !! self with
            | Some t =>
                match obj_write_set t !! ws_id with
                | Some o => Next () (r <| r_thr ::= <[self := t <| obj_write_set ::= <[ws_id := f o]> |> ]> |>)
                | None => Crash
                end
            | None => Crash
            end).

(** Memory at an address. *)
Definition at_ {V} (M : rlu_world → gmap Z V) (a : Z) : rprog V :=
  act (λ r, match M r !! a with Some v => Next v r | None => Crash end).

(** [GET_COPY], [GET_ACTUAL] and the header of a copy in its write set. *)
Definition GET_COPY (p_obj : Z) : rprog Z := at_ r_copy p_obj.
Definition PTR_GET_WS_HEADER (p_obj_copy : Z) : Z := p_obj_copy - (OBJ_HEADER_SIZE + WS_OBJ_HEADER_SIZE).
Definition ws_h {V} (get : rlu_ws_obj_header → V) (p_obj_copy : Z) : rprog V :=
  h ← at_ r_wsh (PTR_GET_WS_HEADER p_obj_copy); mret (get h).
Definition GET_ACTUAL (p_obj_copy : Z) : rprog Z := ws_h p_obj_actual p_obj_copy.
Definition GET_THREAD_ID (p_obj : Z) : rprog Z := c ← GET_COPY p_obj; ws_h ws_thread_id c.

Definition PTR_IS_LOCKED (p_obj_copy : Z) : bool := truth p_obj_copy.
Definition PTR_IS_COPY (p_obj_copy : Z) : bool := p_obj_copy =? PTR_ID_OBJ_COPY.

Definition FORCE_ACTUAL (p_obj : Z) : rprog Z :=
  c ← GET_COPY p_obj; if PTR_IS_COPY c then GET_ACTUAL p_obj else mret p_obj.

(** [TRY_CAS_PTR_OBJ_COPY] and [UNLOCK]. *)
Definition TRY_CAS_PTR_OBJ_COPY (p_obj new : Z) : rprog bool :=
  act (λ r, match r_copy r !! p_obj with
            | Some c => if c =? 0 then Next true (r <| r_copy ::= <[p_obj := new]> |>) else Next false r
            | None => Crash
            end).
Definition UNLOCK (p_obj : Z) : rprog unit :=
  act (λ r, match r_copy r !! p_obj with
            | Some _ => Next () (r <| r_copy ::= <[p_obj := NULL]> |>)
            | None => Crash
            end).

(** [RLU_ASSERT] prints and goes on. *)
Definition RLU_ASSERT (cond : rprog bool) : rprog unit :=
  b ← cond; when (negb b) (wr (λ r, r <| r_asserts ::= S |>)).

(** [malloc] and [free]: [port_alloc_x] and [port_free]. *)
Definition rlu_malloc (size : Z) : rprog Z :=
  act (λ r, match r_kmem r with
            | mem :: rest =>
                Next (mem + 8) (r <| r_kmem := rest |> <| r_mem ::= <[mem := wrap64 (size + 8)]> |>)
            | [] => Wait
            end).
Definition rlu_mfree (ptr : Z) : rprog unit :=
  act (λ r, match r_mem r !! (ptr - 8) with
            | Some _ => Next () (r <| r_mem ::= delete (ptr - 8) |> <| r_copy ::= delete (ptr + OBJ_HEADER_SIZE) |>
                                   <| r_data ::= delete (ptr + OBJ_HEADER_SIZE) |>)
            | None => Crash
            end).

(** ** Writer locks *)

Definition rlu_reset_writer_locks (self ws_id : Z) : rprog unit := wset_upd self ws_id (λ o, o <| wl_size := 0 |>).

(** [writer_locks.ids[i]]; an access behind the array is a fault. *)
Definition wl_id (self ws_id i : Z) : rprog Z :=
  if (0 <=? i) && (i <? RLU_MAX_NESTED_WRITER_LOCKS)
  then ids ← wset_get wl_ids self ws_id; mret (default 0 (ids !! i)) else act (λ _, Crash).
Definition set_wl_id (self ws_id i id : Z) : rprog unit :=
  if (0 <=? i) && (i <? RLU_MAX_NESTED_WRITER_LOCKS)
  then wset_upd self ws_id (λ o, o <| wl_ids ::= <[i := id]> |>) else act (λ _, Crash).

Definition rlu_add_writer_lock (self writer_lock_id : Z) : rprog unit :=
  ws ← th_get ws_cur_id self;
  n_locks ← wset_get wl_size self ws;
  iterate (Z.to_nat n_locks) (λ i,
    RLU_ASSERT (x ← wl_id self ws i; mret (negb (x =? writer_lock_id)));;
    mret (i + 1)) 0;;
  set_wl_id self ws n_locks writer_lock_id;;
  wset_upd self ws (λ o, o <| wl_size ::= Z.add 1 |>);;
  RLU_ASSERT (n ← wset_get wl_size self ws; mret (n <? RLU_MAX_NESTED_WRITER_LOCKS)).

(** [g_rlu_writer_locks[writer_lock_id]]. *)
Definition writer_lock_word (writer_lock_id : Z) (r : rlu_world) : option Z :=
  if (0 <=? writer_lock_id) && (writer_lock_id <? RLU_MAX_WRITER_LOCKS)
  then Some (default 0 (g_rlu_writer_locks r !! writer_lock_id)) else None.
Definition get_writer_lock (id : Z) : rprog Z :=
  act (λ r, match writer_lock_word id r with Some v => Next v r | None => Crash end).
Definition set_writer_lock (id v : Z) : rprog unit :=
  act (λ r, match writer_lock_word id r with
            | Some _ => Next () (r <| g_rlu_writer_locks ::= <[id := v]> |>)
            | None => Crash
            end).
Definition cas_writer_lock (id new : Z) : rprog Z :=
  act (λ r, match writer_lock_word id r with
            | Some v => Next v (if v =? 0 then r <| g_rlu_writer_locks ::= <[id := new]> |> else r)
            | None => Crash
            end).

Definition rlu_try_acquire_writer_lock (self writer_lock_id : Z) : rprog bool :=
  cur_lock ← get_writer_lock writer_lock_id;
  if cur_lock =? 0 then
    id ← th_get uniq_id self;
    old ← cas_writer_lock writer_lock_id (LOCK_ID id);
    mret (old =? 0)
  else mret false.

Definition rlu_release_writer_lock (self writer_lock_id : Z) : rprog unit :=
  RLU_ASSERT (v ← get_writer_lock writer_lock_id; id ← th_get uniq_id self; mret (v =? LOCK_ID id));;
  set_writer_lock writer_lock_id 0.

Definition rlu_release_writer_locks (self ws_id : Z) : rprog unit :=
  n ← wset_get wl_size self ws_id;
  iterate (Z.to_nat n) (λ i,
    id ← wl_id self ws_id i;
    rlu_release_writer_lock self id;;
    mret (i + 1)) 0;;
  mret ().

(** ** Write sets *)

Definition rlu_reset (self : Z) : rprog unit :=
  th_upd self (λ t, t <| is_write_detected := 0 |> <| is_steal := 1 |> <| is_check_locks := 1 |>).

Definition rlu_reset_write_set (self ws_counter : Z) : rprog unit :=
  let ws_id := WS_INDEX ws_counter in
  wset_upd self ws_id (λ o, o <| num_of_objs := 0 |> <| p_cur := buffer_of self ws_id |>);;
  rlu_reset_writer_locks self ws_id.

(** A write of [n] bytes at [p] into the buffer of a write set; one behind the
    buffer is a fault. *)
Definition in_buffer (self ws_id p n : Z) (f : rlu_world → rlu_world) : rprog unit :=
  act (λ r, if (buffer_of self ws_id <=? p) && (p + n <=? buffer_of self ws_id + RLU_MAX_WRITE_SET_BUFFER_SIZE)
            then Next () (f r) else Crash).

Definition rlu_add_ws_obj_header_to_write_set (self p_obj obj_size : Z) : rprog Z :=
  ws ← th_get ws_cur_id self;
  p ← wset_get p_cur self ws;
  rc ← th_get run_counter self;
  id ← th_get uniq_id self;
  in_buffer self ws p WS_OBJ_HEADER_SIZE (λ r, r <| r_wsh ::= <[p := WsObjHeader p_obj obj_size rc id]> |>);;
  let p := p + WS_OBJ_HEADER_SIZE in
  in_buffer self ws p OBJ_HEADER_SIZE (λ r, r <| r_copy ::= <[p + OBJ_HEADER_SIZE := PTR_ID_OBJ_COPY]> |>);;
  let p := p + OBJ_HEADER_SIZE in
  wset_upd self ws (λ o, o <| p_cur := p |>);;
  mret p.

(** The first [n] bytes of the object or copy at [p]. *)
Definition rlu_bytes (p n : Z) : rprog (list Z) :=
  act (λ r, match r_data r !! p with
            | Some bs => if n <=? Z.of_nat (length bs) then Next (take (Z.to_nat n) bs) r else Crash
            | None => Crash
            end).

Definition rlu_add_obj_copy_to_write_set (self p_obj obj_size : Z) : rprog unit :=
  ws ← th_get ws_cur_id self;
  p ← wset_get p_cur self ws;
  bs ← rlu_bytes p_obj obj_size;
  in_buffer self ws p obj_size (λ r, r <| r_data ::= <[p := bs]> |>);;
  let p := p + ALIGN_OBJ_SIZE obj_size in
  wset_upd self ws (λ o, o <| p_cur := p |> <| num_of_objs ::= λ n, wrap32 (n + 1) |>);;
  RLU_ASSERT (mret (p - buffer_of self ws <? RLU_MAX_WRITE_SET_BUFFER_SIZE)).

(** [memcpy] of a copy over its object. *)
Definition rlu_copy_back (p_obj_actual p_obj_copy obj_size : Z) : rprog unit :=
  bs ← rlu_bytes p_obj_copy obj_size;
  act (λ r, match r_data r !! p_obj_actual with
            | Some old =>
                if obj_size <=? Z.of_nat (length old)
                then Next () (r <| r_data ::= <[p_obj_actual := bs ++ drop (Z.to_nat obj_size) old]> |>)
                else Crash
            | None => Crash
            end).

Definition rlu_writeback_write_set (self ws_counter : Z) : rprog unit :=
  let ws_id := WS_INDEX ws_counter in
  n ← wset_get num_of_objs self ws_id;
  p ← iterate (Z.to_nat n) (λ p,
    h ← at_ r_wsh p;
    let p_obj_actual := p_obj_actual h in
    let obj_size := ws_obj_size h in
    let p := p + WS_OBJ_HEADER_SIZE in
    RLU_ASSERT (c ← GET_COPY (p + OBJ_HEADER_SIZE); mret (c =? PTR_ID_OBJ_COPY));;
    let p := p + OBJ_HEADER_SIZE in
    rlu_copy_back p_obj_actual p obj_size;;
    let p := p + ALIGN_OBJ_SIZE obj_size in
    RLU_ASSERT (i ← GET_THREAD_ID p_obj_actual; id ← th_get uniq_id self; mret (i =? id));;
    UNLOCK p_obj_actual;;
    mret p) (buffer_of self ws_id);
  RLU_ASSERT (c ← wset_get p_cur self ws_id; mret (p =? c)).

(** [for (c = from; c < to; c++) body(c)] *)
Definition for_counter (from to : Z) (body : Z → rprog unit) : rprog unit :=
  iterate (Z.to_nat (to - from)) (λ c, body c;; mret (c + 1)) from;; mret ().

Definition rlu_writeback_write_sets_and_unlock (self : Z) : rprog Z :=
  head ← th_get ws_head_counter self;
  wb ← th_get ws_wb_counter self;
  for_counter head wb (rlu_reset_write_set self);;
  th_upd self (λ t, t <| ws_head_counter := ws_wb_counter t |>);;
  tail ← th_get ws_tail_counter self;
  for_counter wb tail (rlu_writeback_write_set self);;
  th_upd self (λ t, t <| ws_wb_counter := ws_tail_counter t |>);;
  mret (Z.max 0 (tail - wb)).

(** The conversion of [long] to [int]. *)
Definition long_to_int (x : Z) : Z := let x := wrap32 x in if x <? 2 ^ 31 then x else x - 2 ^ 32.

(** The parameter [ws_counter] is an [int]. *)
Definition rlu_unlock_objs (self ws_counter : Z) : rprog unit :=
  let ws_id := WS_INDEX (long_to_int ws_counter) in
  n ← wset_get num_of_objs self ws_id;
  iterate (Z.to_nat n) (λ p,
    h ← at_ r_wsh p;
    let p_obj_actual := p_obj_actual h in
    let p := p + WS_OBJ_HEADER_SIZE in
    RLU_ASSERT (c ← GET_COPY (p + OBJ_HEADER_SIZE); mret (c =? PTR_ID_OBJ_COPY));;
    let p := p + OBJ_HEADER_SIZE in
    RLU_ASSERT (c ← GET_COPY p_obj_actual; mret (c =? p));;
    let p := p + ALIGN_OBJ_SIZE (ws_obj_size h) in
    UNLOCK p_obj_actual;;
    mret p) (buffer_of self ws_id);;
  mret ().

(** ** Sections and synchronization *)

Definition rlu_assert_in_section (self : Z) : rprog unit :=
  RLU_ASSERT (rc ← th_get run_counter self; mret (Z.odd rc)).

Definition rlu_register_thread (self : Z) : rprog unit :=
  RLU_ASSERT (rc ← th_get run_counter self; mret (negb (Z.odd rc)));;
  th_upd self (λ t, t <| run_counter ::= λ n, wrap64 (n + 1) |>);;
  v ← rd g_rlu_writer_version;
  th_upd self (λ t, t <| local_version := to_long v |>);;
  c ← rd g_rlu_commit_version;
  th_upd self (λ t, t <| local_commit_version := to_long c |>).

Definition rlu_unregister_thread (self : Z) : rprog unit :=
  RLU_ASSERT (rc ← th_get run_counter self; mret (Z.odd rc));;
  th_upd self (λ t, t <| run_counter ::= λ n, wrap64 (n + 1) |>).

(** [self->free_nodes[i]]. *)
Definition free_node (self i : Z) : rprog Z :=
  act (λ r, match r_thr r !! self with
            | Some t => match free_nodes t !! i with Some p => Next p r | None => Crash end
            | None => Crash
            end).

Definition rlu_process_free (self : Z) : rprog unit :=
  n ← th_get free_nodes_size self;
  iterate (Z.to_nat n) (λ i,
    p_obj ← free_node self i;
    RLU_ASSERT (c ← GET_COPY p_obj; mret (negb (PTR_IS_LOCKED c)));;
    rlu_mfree (p_obj - OBJ_HEADER_SIZE);;
    mret (i + 1)) 0;;
  th_upd self (λ t, t <| free_nodes_size := 0 |>).

(** [self->q_threads[th_id]], an array of [RLU_MAX_THREADS] entries that are
    zero at first. *)
Definition q_entry (t : rlu_thread_data) (th_id : Z) : wait_entry :=
  default (WaitEntry 0 0) (q_threads t !! th_id).
Definition q_upd (self th_id : Z) (f : wait_entry → wait_entry) : rprog unit :=
  if (0 <=? th_id) && (th_id <? RLU_MAX_THREADS)
  then th_upd self (λ t, t <| q_threads ::= <[th_id := f (q_entry t th_id)]> |>) else act (λ _, Crash).

Definition rlu_init_quiescence (fuel : nat) (self : Z) : rprog unit :=
  loop fuel (λ th_id,
    n ← rd g_rlu_cur_threads;
    if th_id <? n then
      q_upd self th_id (λ e, e <| is_wait := 0 |>);;
      id ← th_get uniq_id self;
      if th_id =? id then mret (inl (th_id + 1)) else
      p ← rd (λ r, default NULL (g_rlu_threads r !! th_id));
      if p =? NULL then mret (inl (th_id + 1)) else
      rc ← th_get run_counter p;
      q_upd self th_id (λ e, e <| q_run_counter := rc |>);;
      when (Z.odd rc) (q_upd self th_id (λ e, e <| is_wait := 1 |>));;
      mret (inl (th_id + 1))
    else mret (inr ())) 0.

(** The inner loop of [rlu_wait_for_quiescence]: the number of iterations. *)
Definition rlu_wait_thread (fuel : nat) (self th_id version_limit iters : Z) : rprog Z :=
  loop fuel (λ iters,
    e ← th_get (λ t, q_entry t th_id) self;
    if truth (is_wait e) then
      let iters := iters + 1 in
      p ← rd (λ r, default NULL (g_rlu_threads r !! th_id));
      rc ← th_get run_counter p;
      if negb (q_run_counter e =? rc) then
        q_upd self th_id (λ e, e <| is_wait := 0 |>);; mret (inr iters)
      else
        older ← (if truth version_limit then v ← th_get local_version p; mret (wrap64 v <? version_limit)
                 else mret true);
        if (older : bool) then mret (inl (if Q_ITERS_LIMIT <? iters then 0 else iters))
        else q_upd self th_id (λ e, e <| is_wait := 0 |>);; mret (inr iters)
    else mret (inr iters)) iters.

Definition rlu_wait_for_quiescence (fuel : nat) (self version_limit : Z) : rprog Z :=
  cur_threads ← rd g_rlu_cur_threads;
  '(_, iters) ← iterate (Z.to_nat cur_threads) (λ '(th_id, iters),
    iters ← rlu_wait_thread fuel self th_id version_limit iters;
    mret (th_id + 1, iters)) (0, 0);
  mret iters.

Definition rlu_synchronize (fuel : nat) (self : Z) : rprog unit :=
  q ← th_get is_no_quiescence self;
  if truth q then mret () else
  rlu_init_quiescence fuel self;;
  v ← th_get writer_version self;
  rlu_wait_for_quiescence fuel self (wrap64 v);;
  mret ().

Definition rlu_sync_and_writeback (fuel : nat) (self : Z) : rprog unit :=
  RLU_ASSERT (rc ← th_get run_counter self; mret (negb (Z.odd rc)));;
  tail ← th_get ws_tail_counter self;
  head ← th_get ws_head_counter self;
  if tail =? head then mret () else
  wb ← th_get ws_wb_counter self;
  let ws_num := tail - wb in
  g ← rd g_rlu_writer_version;
  th_upd self (λ t, t <| writer_version := to_long (g + 1) |>);;
  wr (λ r, r <| g_rlu_writer_version ::= λ n, wrap64 (n + 1) |>);;
  rlu_synchronize fuel self;;
  ws_wb_num ← rlu_writeback_write_sets_and_unlock self;
  RLU_ASSERT (mret (ws_num =? ws_wb_num));;
  th_upd self (λ t, t <| writer_version := RLU_MAX_VERSION |>);;
  wr (λ r, r <| g_rlu_commit_version ::= λ n, wrap64 (n + 1) |>);;
  s ← th_get is_sync self;
  when (truth s) (th_upd self (λ t, t <| is_sync := 0 |>));;
  rlu_process_free self.

Definition rlu_send_sync_request (other_th_id : Z) : rprog unit :=
  p ← rd (λ r, default NULL (g_rlu_threads r !! other_th_id));
  s ← th_get is_sync p;
  th_upd p (λ t, t <| is_sync := s + 1 |>).

Definition rlu_commit_write_set (fuel : nat) (self : Z) : rprog unit :=
  th_upd self (λ t, t <| ws_tail_counter ::= Z.add 1 |>);;
  th_upd self (λ t, t <| ws_cur_id := WS_INDEX (ws_tail_counter t) |>);;
  tail ← th_get ws_tail_counter self;
  head ← th_get ws_head_counter self;
  wb ← th_get ws_wb_counter self;
  max ← th_get max_write_sets self;
  when ((WS_INDEX tail =? WS_INDEX head) || (max <=? tail - wb)) (rlu_sync_and_writeback fuel self);;
  RLU_ASSERT (t ← th_get ws_tail_counter self; h ← th_get ws_head_counter self; mret (h <? t));;
  RLU_ASSERT (t ← th_get ws_tail_counter self; h ← th_get ws_head_counter self;
              mret (negb (WS_INDEX t =? WS_INDEX h))).

(** ** The interface *)

Definition rlu_init_args (type ws : Z) : rprog unit :=
  wr (λ r, r <| g_rlu_writer_version := 0 |> <| g_rlu_commit_version := 0 |>);;
  when (type =? RLU_TYPE_COARSE_GRAINED)
    (wr (λ r, r <| g_rlu_type := RLU_TYPE_COARSE_GRAINED |> <| g_rlu_max_write_sets := 1 |>));;
  when (type =? RLU_TYPE_FINE_GRAINED)
    (wr (λ r, r <| g_rlu_type := RLU_TYPE_FINE_GRAINED |> <| g_rlu_max_write_sets := ws |>));;
  RLU_ASSERT (mret (2 <=? RLU_MAX_WRITE_SETS));;
  RLU_ASSERT (mret (1 <=? ws));;
  RLU_ASSERT (mret (ws * 2 <=? RLU_MAX_WRITE_SETS)).
Definition rlu_init : rprog unit := rlu_init_args RLU_TYPE RLU_NUM_WS.
Definition rlu_finish : rprog unit := mret ().

(** What [memset] makes of the structure. *)
Definition zero_rlu_thread : rlu_thread_data :=
  RluThread 0 0 0 0 0 0 0 0 0 0 0 0 ∅ 0 0 0 0
    (list_to_map ((λ i, (Z.of_nat i, ObjList 0 ∅ 0 0)) <$> seq 0 (Z.to_nat RLU_MAX_WRITE_SETS))) 0 ∅.

(** [self] is the address of the memory for the structure. *)
Definition rlu_thread_init (self : Z) : rprog unit :=
  wr (λ r, r <| r_thr ::= <[self := zero_rlu_thread]> |>);;
  ty ← rd g_rlu_type;
  th_upd self (λ t, t <| r_type := ty |>);;
  ms ← rd g_rlu_max_write_sets;
  th_upd self (λ t, t <| max_write_sets := ms |>);;
  id ← act (λ r, Next (g_rlu_cur_threads r) (r <| g_rlu_cur_threads ::= Z.add 1 |>));
  th_upd self (λ t, t <| uniq_id := id |>);;
  th_upd self (λ t, t <| local_version := 0 |>);;
  th_upd self (λ t, t <| writer_version := RLU_MAX_VERSION |>);;
  for_counter 0 RLU_MAX_WRITE_SETS (rlu_reset_write_set self);;
  act (λ r, if id <? RLU_MAX_THREADS then Next () (r <| g_rlu_threads ::= <[id := self]> |>) else Crash).

Definition rlu_thread_finish (fuel : nat) (self : Z) : rprog unit :=
  rlu_sync_and_writeback fuel self;;
  rlu_sync_and_writeback fuel self.

(** The contents of a new object are undefined: [fill]. *)
Definition rlu_alloc (obj_size : Z) (fill : list Z) : rprog Z :=
  ptr ← rlu_malloc (OBJ_HEADER_SIZE + obj_size);
  if ptr =? NULL then mret NULL else
  wr (λ r, r <| r_copy ::= <[ptr + OBJ_HEADER_SIZE := NULL]> |>
             <| r_data ::= <[ptr + OBJ_HEADER_SIZE := take (Z.to_nat obj_size) fill]> |>);;
  mret (ptr + OBJ_HEADER_SIZE).

Definition rlu_free (self p_obj : Z) : rprog unit :=
  if p_obj =? NULL then mret () else
  if self =? NULL then rlu_mfree (p_obj - OBJ_HEADER_SIZE) else
  rlu_assert_in_section self;;
  p_obj ← FORCE_ACTUAL p_obj;
  n ← th_get free_nodes_size self;
  (if (0 <=? n) && (n <? RLU_MAX_FREE_NODES)
   then th_upd self (λ t, t <| free_nodes ::= <[n := p_obj]> |>) else act (λ _, Crash));;
  th_upd self (λ t, t <| free_nodes_size ::= Z.add 1 |>);;
  RLU_ASSERT (n ← th_get free_nodes_size self; mret (n <? RLU_MAX_FREE_NODES)).

Definition rlu_sync_checkpoint (fuel : nat) (self : Z) : rprog unit :=
  s ← th_get is_sync self;
  if truth s then rlu_sync_and_writeback fuel self else mret ().

Definition rlu_reader_lock (fuel : nat) (self : Z) : rprog unit :=
  rlu_sync_checkpoint fuel self;;
  rlu_reset self;;
  rlu_register_thread self;;
  th_upd self (λ t, t <| is_steal := if local_version t - local_commit_version t =? 0 then 0 else 1 |>);;
  th_upd self (λ t, t <| is_check_locks :=
    if (local_version t - local_commit_version t =? 0) && (ws_tail_counter t - ws_wb_counter t =? 0)
    then 0 else 1 |>).

Definition rlu_try_writer_lock (self writer_lock_id : Z) : rprog bool :=
  RLU_ASSERT (ty ← th_get r_type self; mret (ty =? RLU_TYPE_COARSE_GRAINED));;
  ok ← rlu_try_acquire_writer_lock self writer_lock_id;
  if (ok : bool) then rlu_add_writer_lock self writer_lock_id;; mret true else mret false.

Definition rlu_reader_unlock (fuel : nat) (self : Z) : rprog unit :=
  rlu_unregister_thread self;;
  wd ← th_get is_write_detected self;
  (if truth wd then
     th_upd self (λ t, t <| is_write_detected := 0 |>);;
     rlu_commit_write_set fuel self;;
     tail ← th_get ws_tail_counter self;
     rlu_release_writer_locks self (WS_INDEX (tail - 1))
   else
     cur ← th_get ws_cur_id self;
     rlu_release_writer_locks self cur;;
     rlu_reset_writer_locks self cur);;
  rlu_sync_checkpoint fuel self.

Definition rlu_deref_slow_path (self p_obj : Z) : rprog Z :=
  if p_obj =? NULL then mret p_obj else
  p_obj_copy ← GET_COPY p_obj;
  if negb (PTR_IS_LOCKED p_obj_copy) then mret p_obj else
  if PTR_IS_COPY p_obj_copy then mret p_obj else
  th_id ← ws_h ws_thread_id p_obj_copy;
  id ← th_get uniq_id self;
  if th_id =? id then mret p_obj_copy else
  steal ← th_get is_steal self;
  if truth steal then
    p ← rd (λ r, default NULL (g_rlu_threads r !! th_id));
    wv ← th_get writer_version p;
    lv ← th_get local_version self;
    if wv <=? lv then mret p_obj_copy else mret p_obj
  else mret p_obj.

(** [thread_handle::deref_ptr], the macro [RLU_DEREF_INTERNAL] of [rlu.h]. *)
Definition deref_ptr (self p_obj : Z) : rprog Z :=
  c ← th_get is_check_locks self;
  if c =? 0 then mret p_obj else
  free ← (if negb (p_obj =? NULL) then c ← GET_COPY p_obj; mret (negb (PTR_IS_LOCKED c)) else mret false);
  if (free : bool) then mret p_obj else rlu_deref_slow_path self p_obj.

(** [rlu_try_lock]: the new value of [*p_p_obj], or [None] for 0. *)
Definition rlu_try_lock (self p_obj obj_size : Z) : rprog (option Z) :=
  RLU_ASSERT (mret (negb (p_obj =? NULL)));;
  p_obj_copy ← GET_COPY p_obj;
  '(p_obj, p_obj_copy) ← (if PTR_IS_COPY p_obj_copy then
                            a ← GET_ACTUAL p_obj; c ← GET_COPY a; mret (a, c)
                          else mret (p_obj, p_obj_copy));
  if PTR_IS_LOCKED p_obj_copy then
    th_id ← ws_h ws_thread_id p_obj_copy;
    id ← th_get uniq_id self;
    if th_id =? id then
      rc ← th_get run_counter self;
      wrc ← ws_h ws_run_counter p_obj_copy;
      if rc =? wrc then mret (Some p_obj_copy)
      else
        s ← th_get is_sync self;
        th_upd self (λ t, t <| is_sync := s + 1 |>);;
        mret None
    else
      rlu_send_sync_request th_id;;
      s ← th_get is_sync self;
      th_upd self (λ t, t <| is_sync := s + 1 |>);;
      mret None
  else
    wd ← th_get is_write_detected self;
    when (wd =? 0) (th_upd self (λ t, t <| is_write_detected := 1 |> <| is_check_locks := 1 |>));;
    p_obj_copy ← rlu_add_ws_obj_header_to_write_set self p_obj obj_size;
    ok ← TRY_CAS_PTR_OBJ_COPY p_obj p_obj_copy;
    if (ok : bool) then
      rlu_add_obj_copy_to_write_set self p_obj obj_size;;
      RLU_ASSERT (c ← GET_COPY p_obj; mret (c =? p_obj_copy));;
      mret (Some p_obj_copy)
    else mret None.

(** [rlu_lock]: [*p_p_obj] behind the call. *)
Definition rlu_lock (self p_obj obj_size : Z) : rprog Z :=
  RLU_ASSERT (ty ← th_get r_type self; mret (ty =? RLU_TYPE_COARSE_GRAINED));;
  r ← rlu_try_lock self p_obj obj_size;
  RLU_ASSERT (mret (bool_decide (is_Some r)));;
  mret (default p_obj r).

Definition rlu_abort (fuel : nat) (self : Z) : rprog unit :=
  rlu_unregister_thread self;;
  wd ← th_get is_write_detected self;
  cur ← th_get ws_cur_id self;
  (if truth wd then
     th_upd self (λ t, t <| is_write_detected := 0 |>);;
     tail ← th_get ws_tail_counter self;
     rlu_unlock_objs self tail;;
     rlu_release_writer_locks self cur;;
     rlu_reset_write_set self tail
   else
     rlu_release_writer_locks self cur;;
     rlu_reset_writer_locks self cur);;
  rlu_sync_checkpoint fuel self.

Definition rlu_act_of (p_obj : Z) : rprog Z := if negb (p_obj =? NULL) then FORCE_ACTUAL p_obj else mret p_obj.

Definition rlu_cmp_ptrs (p_obj_1 p_obj_2 : Z) : rprog bool :=
  o1 ← rlu_act_of p_obj_1;
  o2 ← rlu_act_of p_obj_2;
  mret (o1 =? o2).

(** [*p_ptr = p_obj] for a pointer in a structure: the value stored. *)
Definition rlu_assign_pointer (store : Z → rprog unit) (p_obj : Z) : rprog unit :=
  o ← rlu_act_of p_obj; store o.

(** ** The C++ handle *)

Definition rlu_handle_try_lock (self p_obj obj_size : Z) : rprog (option Z) :=
  if p_obj =? NULL then mret (Some p_obj) else rlu_try_lock self p_obj obj_size.
Definition rlu_handle_try_lock_const (self p_obj obj_size : Z) : rprog bool :=
  if p_obj =? NULL then mret true else r ← rlu_try_lock self p_obj obj_size; mret (bool_decide (is_Some r)).

(** The destructor: the structure is given back, the entry in [g_rlu_threads]
    stays. *)
Definition rlu_handle_delete (fuel : nat) (self : Z) : rprog unit :=
  rlu_thread_finish fuel self;;
  wr (λ r, r <| r_thr ::= delete self |>).
