(* ===== verification/RluSets.v ===== *)
(** * Write sets of RLU

    The copies a section makes lie one behind another in the buffer of its
    write set.  Taking a lock appends a copy, an abort unlocks the objects, and
    a write-back copies the copies over the objects and unlocks them. *)

From S2P Require Import Prelude Rlu.

(** ** Running the accesses *)

Definition put_thr (self : Z) (t : rlu_thread_data) (r : rlu_world) : rlu_world :=
  r <| r_thr ::= <[self := t]> |>.

(** Bring two states that should be equal to record form. *)
Ltac rlu_eq := cbn; cbv beta delta [field_map]; cbn; f_equal.

Lemma put_thr_thr self t t' r : put_thr self t (put_thr self t' r) = put_thr self t r.
Proof. unfold put_thr. rlu_eq. apply insert_insert_eq. Qed.
Lemma put_thr_copy self t r f : (put_thr self t r) <| r_copy ::= f |> = put_thr self t (r <| r_copy ::= f |>).
Proof. done. Qed.
Lemma put_thr_wsh self t r f : (put_thr self t r) <| r_wsh ::= f |> = put_thr self t (r <| r_wsh ::= f |>).
Proof. done. Qed.
Lemma put_thr_data self t r f : (put_thr self t r) <| r_data ::= f |> = put_thr self t (r <| r_data ::= f |>).
Proof. done. Qed.
Lemma put_thr_lookup self t r : r_thr (put_thr self t r) !! self = Some t.
Proof. apply lookup_insert_eq. Qed.
Lemma put_thr_id self t r : r_thr r !! self = Some t → put_thr self t r = r.
Proof. intros H. destruct r. unfold put_thr. rlu_eq. by apply insert_id. Qed.

Section accesses.
Context (r : rlu_world) (self : Z) (t : rlu_thread_data) (Ht : r_thr r !! self = Some t).

Lemma run_th_get {V} (get : rlu_thread_data → V) : run (th_get get self) r = Done (get t) r.
Proof. unfold th_get. by rewrite run_act Ht. Qed.
Lemma run_th_upd f : run (th_upd self f) r = Done () (put_thr self (f t) r).
Proof. unfold th_upd. by rewrite run_act Ht. Qed.
Lemma run_ws_get {V} (get : obj_list → V) ws o :
  obj_write_set t !! ws = Some o → run (wset_get get self ws) r = Done (get o) r.
Proof. intros Ho. unfold wset_get. by rewrite run_act Ht Ho. Qed.
Lemma run_ws_upd f ws o :
  obj_write_set t !! ws = Some o →
  run (wset_upd self ws f) r = Done () (put_thr self (t <| obj_write_set ::= <[ws := f o]> |>) r).
Proof. intros Ho. unfold wset_upd. by rewrite run_act Ht Ho. Qed.
End accesses.

Lemma run_at {V} (M : rlu_world → gmap Z V) a r v : M r !! a = Some v → run (at_ M a) r = Done v r.
Proof. intros H. unfold at_. by rewrite run_act H. Qed.
Lemma run_rd {A} (f : rlu_world → A) r : run (rd f) r = Done (f r) r.
Proof. done. Qed.
Lemma run_wr f r : run (wr f) r = Done () (f r).
Proof. done. Qed.

Lemma run_get_copy p r c : r_copy r !! p = Some c → run (GET_COPY p) r = Done c r.
Proof. apply run_at. Qed.
Lemma run_ws_h {V} (get : rlu_ws_obj_header → V) b r h :
  r_wsh r !! b = Some h → run (ws_h get (b + 40)) r = Done (get h) r.
Proof.
  intros H. unfold ws_h. erewrite run_bind_done; [done|]. apply run_at.
  by replace (PTR_GET_WS_HEADER (b + 40)) with b
    by (unfold PTR_GET_WS_HEADER, OBJ_HEADER_SIZE, WS_OBJ_HEADER_SIZE; lia).
Qed.
Lemma run_unlock_obj p r c : r_copy r !! p = Some c → run (UNLOCK p) r = Done () (r <| r_copy ::= <[p := NULL]> |>).
Proof. intros H. unfold UNLOCK. by rewrite run_act H. Qed.

(** An assertion that holds does nothing. *)
Lemma run_assert c r : run c r = Done true r → run (RLU_ASSERT c) r = Done () r.
Proof. intros H. unfold RLU_ASSERT. by rewrite (run_bind_done _ _ _ _ _ H). Qed.

Lemma run_rlu_bytes p n r bs :
  r_data r !! p = Some bs → n ≤ Z.of_nat (length bs) → run (rlu_bytes p n) r = Done (take (Z.to_nat n) bs) r.
Proof. intros H Hn. unfold rlu_bytes. rewrite run_act H. by rewrite (proj2 (Z.leb_le _ _) Hn). Qed.

(** Steps through a program by the lemma that fits the next access. *)
Ltac rsolve :=
  first [ eassumption | apply put_thr_lookup | reflexivity ].
Ltac rget := erewrite run_bind_done; [|eapply run_th_get; rsolve].
Ltac rupd := erewrite run_bind_done; [|eapply run_th_upd; rsolve].

(** ** Entries of a write set *)

(** The header at [b] in a write set of thread [id], the copy behind it with
    the contents [new], and the lock of the object [obj]. *)
Record entry_at (r : rlu_world) (id : Z) (e : Z * Z * list Z) : Prop := EntryAt {
  ea_hdr : ∃ rc, r_wsh r !! e.1.1 = Some (WsObjHeader e.1.2 (Z.of_nat (length e.2)) rc id);
  ea_mark : r_copy r !! (e.1.1 + 40) = Some PTR_ID_OBJ_COPY;
  ea_lock : r_copy r !! e.1.2 = Some (e.1.1 + 40);
  ea_new : r_data r !! (e.1.1 + 40) = Some e.2;
  ea_old : ∃ old, r_data r !! e.1.2 = Some old ∧ (length e.2 ≤ length old)%nat;
  ea_addr : e.1.1 + 40 ≠ PTR_ID_OBJ_COPY ∧ e.1.1 + 40 ≠ NULL }.

Definition next_entry (b : Z) (new : list Z) : Z := b + 40 + ALIGN_OBJ_SIZE (Z.of_nat (length new)).

(** The entries for the objects and contents [es], from [b] on, and the address
    behind them. *)
Fixpoint laid (b : Z) (es : list (Z * list Z)) : list (Z * Z * list Z) :=
  match es with
  | [] => []
  | (o, new) :: es' => (b, o, new) :: laid (next_entry b new) es'
  end.
Fixpoint laid_end (b : Z) (es : list (Z * list Z)) : Z :=
  match es with
  | [] => b
  | (o, new) :: es' => laid_end (next_entry b new) es'
  end.

Lemma align_obj_size n : 0 ≤ n → n ≤ ALIGN_OBJ_SIZE n < n + 8 ∧ (8 | ALIGN_OBJ_SIZE n).
Proof.
  intros Hn. unfold ALIGN_OBJ_SIZE, truth.
  change 7 with (Z.ones 3). rewrite !Z.land_ones; [lia|]. change (2 ^ 3) with 8.
  pose proof (Z.div_mod n 8 ltac:(lia)). pose proof (Z.mod_pos_bound n 8 eq_refl).
  destruct (Z.eqb_spec (n mod 8) 0) as [E|E]; cbn [negb]; (split; [lia|]).
  - exists (n / 8). lia.
  - exists (n / 8 + 1). lia.
Qed.

Lemma next_entry_gt b new : b + 40 ≤ next_entry b new.
Proof. unfold next_entry. pose proof (align_obj_size (Z.of_nat (length new)) ltac:(lia)). lia. Qed.

Lemma laid_ge b es e : e ∈ laid b es → b ≤ e.1.1.
Proof.
  revert b. induction es as [|[o new] es IH]; intros b; [by intros ?%elem_of_nil|].
  intros [->|H]%elem_of_cons; [done|]. apply IH in H. pose proof (next_entry_gt b new). lia.
Qed.

Lemma laid_app b es1 es2 : laid b (es1 ++ es2) = laid b es1 ++ laid (laid_end b es1) es2.
Proof. revert b. induction es1 as [|[o new] es1 IH]; intros b; [done|]. cbn. by rewrite IH. Qed.
Lemma laid_end_app b es1 es2 : laid_end b (es1 ++ es2) = laid_end (laid_end b es1) es2.
Proof. revert b. induction es1 as [|[o new] es1 IH]; intros b; [done|]. cbn. by rewrite IH. Qed.

(** ** Writing back *)

(** The effect of writing back one copy: the object gets its contents and is
    unlocked. *)
Definition wb_entry (e : Z * list Z) (r : rlu_world) : rlu_world :=
  r <| r_data ::= alter (λ old, e.2 ++ drop (length e.2) old) e.1 |> <| r_copy ::= <[e.1 := NULL]> |>.
Definition wb_all (es : list (Z * list Z)) (r : rlu_world) : rlu_world := foldl (λ r e, wb_entry e r) r es.

Lemma wb_entry_keeps r id id' e e' :
  entry_at r id e → entry_at r id' e' → e'.1.1 ≠ e.1.1 → entry_at (wb_entry (e.1.2, e.2) r) id' e'.
Proof.
  intros [H1 H2 H3 H4 H5 H6] [K1 K2 K3 K4 K5 K6] Hb.
  assert (e.1.2 ≠ e'.1.2) as Ho. { intros E. rewrite E K3 in H3. injection H3. lia. }
  assert (e.1.2 ≠ e'.1.1 + 40) as Hc. { intros E. rewrite E K2 in H3. by injection H3 as E'; destruct H6. }
  split; cbn; try done.
  - by rewrite lookup_insert_ne.
  - by rewrite lookup_insert_ne.
  - by rewrite lookup_alter_ne.
  - by rewrite lookup_alter_ne.
Qed.

Lemma alter_id_insert {A} (f : A → A) (m : gmap Z A) i x : m !! i = Some x → alter f i m = <[i := f x]> m.
Proof.
  intros H. apply map_eq. intros j. destruct (decide (i = j)) as [<-|].
  - by rewrite lookup_alter_eq lookup_insert_eq H.
  - by rewrite lookup_alter_ne // lookup_insert_ne.
Qed.

(** The body of the loop of [rlu_writeback_write_set]. *)
Definition wb_body (self p : Z) : rprog Z :=
  h ← at_ r_wsh p;
  let p_obj_actual := p_obj_actual h in
  let obj_size := ws_obj_size h in
  let p := p + WS_OBJ_HEADER_SIZE in
  RLU_ASSERT (c ← GET_COPY (p + OBJ_HEADER_SIZE); mret (c =? PTR_ID_OBJ_COPY));;
  let p := p + OBJ_HEADER_SIZE in
  rlu_copy_back p_obj_actual p obj_size;;
  let p := p + ALIGN_OBJ_SIZE obj_size in
  RLU_ASSERT (i ← GET_THREAD_ID p_obj_actual; id ← th_get uniq_id self; mret (i =? id));;
  UNLOCK p_obj_actual;;
  mret p.

Lemma run_wb_body r self t b o new :
  r_thr r !! self = Some t → entry_at r (uniq_id t) (b, o, new) →
  run (wb_body self b) r = Done (next_entry b new) (wb_entry (o, new) r).
Proof.
  intros Ht [[rc Hh] Hm Hl Hn (old & Ho & Hlen) Ha]. cbn in *. unfold wb_body.
  rewrite (run_bind_done _ _ _ _ _ (run_at r_wsh b r _ Hh)). cbv zeta. cbn [p_obj_actual ws_obj_size].
  unfold WS_OBJ_HEADER_SIZE, OBJ_HEADER_SIZE. rewrite -!(Z.add_assoc b). change (32 + 8) with 40.
  erewrite run_bind_done.
  2:{ apply run_assert. by rewrite (run_bind_done _ _ _ _ _ (run_get_copy _ _ _ Hm)). }
  unfold rlu_copy_back. rewrite run_bind.
  erewrite (run_bind_done (rlu_bytes _ _)); [|by apply run_rlu_bytes].
  rewrite run_act Ho Nat2Z.id (proj2 (Z.leb_le _ _)); [lia|]. cbn [outcome_bind].
  rewrite take_ge //. erewrite run_bind_done.
  2:{ apply run_assert. unfold GET_THREAD_ID. rewrite run_bind.
      erewrite run_bind_done; [|by apply run_get_copy]. erewrite run_ws_h; [|exact Hh]. cbn [outcome_bind ws_thread_id].
      erewrite run_bind_done; [|by eapply run_th_get]. by rewrite Z.eqb_refl. }
  erewrite run_bind_done; [|by eapply run_unlock_obj]. rewrite run_ret. f_equal; [unfold next_entry; lia|].
  unfold wb_entry. rlu_eq. by rewrite (alter_id_insert _ _ _ old Ho).
Qed.

Lemma run_wb_loop r self t b es :
  r_thr r !! self = Some t → Forall (entry_at r (uniq_id t)) (laid b es) →
  run (iterate (length es) (wb_body self) b) r = Done (laid_end b es) (wb_all es r).
Proof.
  revert r b. induction es as [|[o new] es IH]; intros r b Ht Hes; [done|].
  cbn [laid] in Hes. apply Forall_cons in Hes as [He Hes]. cbn [length]. rewrite run_iterate_S.
  rewrite (run_wb_body r self t b o new Ht He). cbn [outcome_bind laid_end wb_all foldl].
  apply IH; [done|]. apply Forall_forall. intros e' Hin.
  apply (wb_entry_keeps r (uniq_id t) _ (b, o, new)); [done| |].
  - rewrite Forall_forall in Hes. by apply Hes.
  - apply laid_ge in Hin. pose proof (next_entry_gt b new). cbn. lia.
Qed.

Lemma wb_all_keeps r id id' b es e' :
  Forall (entry_at r id) (laid b es) → entry_at r id' e' → (∀ e, e ∈ laid b es → e'.1.1 ≠ e.1.1) →
  entry_at (wb_all es r) id' e'.
Proof.
  revert r b. induction es as [|[o new] es IH]; intros r b Hes He' Hd; [done|].
  cbn [laid] in Hes, Hd. apply Forall_cons in Hes as [He Hes]. cbn [wb_all foldl].
  apply (IH _ (next_entry b new)).
  - apply Forall_forall. intros e Hin. apply (wb_entry_keeps r id _ (b, o, new)); [done| |].
    + rewrite Forall_forall in Hes. by apply Hes.
    + apply laid_ge in Hin. pose proof (next_entry_gt b new). cbn. lia.
  - apply (wb_entry_keeps r id _ (b, o, new)); [done..|]. apply (Hd (b, o, new)). set_solver.
  - intros e Hin. apply Hd. by right.
Qed.

Lemma wb_all_app es1 es2 r : wb_all (es1 ++ es2) r = wb_all es2 (wb_all es1 r).
Proof. apply foldl_app. Qed.
Lemma wb_all_thr es r : r_thr (wb_all es r) = r_thr r.
Proof. revert r. induction es as [|e es IH]; intros r; [done|]. exact (IH (wb_entry e r)). Qed.

(** The write set number [c] of the thread [t] at [self] holds the copies [es],
    and no writer locks, as in the fine-grained mode. *)
Record set_at (r : rlu_world) (self : Z) (t : rlu_thread_data) (c : Z) (es : list (Z * list Z)) : Prop := SetAt {
  sa_set : ∃ ids, obj_write_set t !! WS_INDEX c =
             Some (ObjList 0 ids (Z.of_nat (length es)) (laid_end (buffer_of self (WS_INDEX c)) es));
  sa_fits : laid_end (buffer_of self (WS_INDEX c)) es ≤
             buffer_of self (WS_INDEX c) + RLU_MAX_WRITE_SET_BUFFER_SIZE;
  sa_entries : Forall (entry_at r (uniq_id t)) (laid (buffer_of self (WS_INDEX c)) es) }.

Lemma run_writeback_write_set r self t c es :
  r_thr r !! self = Some t → set_at r self t c es →
  run (rlu_writeback_write_set self c) r = Done () (wb_all es r).
Proof.
  intros Ht [(ids & Ho) _ Hes]. unfold rlu_writeback_write_set. cbv zeta.
  erewrite run_bind_done; [|by eapply run_ws_get]. cbn [num_of_objs]. rewrite Nat2Z.id.
  erewrite run_bind_done; [|by apply (run_wb_loop r self t)].
  apply run_assert. erewrite run_bind_done; [|eapply run_ws_get; [by rewrite wb_all_thr|exact Ho]].
  cbn [p_cur]. by rewrite run_ret Z.eqb_refl.
Qed.

Lemma laid_in b es e : e ∈ laid b es → b ≤ e.1.1 < laid_end b es.
Proof.
  intros H. split; [by eapply laid_ge|]. revert b H. induction es as [|[o new] es IH]; intros b; [by intros ?%elem_of_nil|].
  assert (∀ b es, b ≤ laid_end b es) as Hle.
  { clear. intros b es. revert b. induction es as [|[o new] es IH]; intros b; cbn; [lia|].
    pose proof (next_entry_gt b new). specialize (IH (next_entry b new)). lia. }
  cbn. intros [->|H]%elem_of_cons; [|by apply IH]. cbn.
  pose proof (next_entry_gt b new). specialize (Hle (next_entry b new) es). lia.
Qed.

(** Entries of different write sets of a thread lie at different addresses. *)
Lemma sets_apart r self t c c' es es' e e' :
  set_at r self t c es → set_at r self t c' es' → WS_INDEX c ≠ WS_INDEX c' →
  e ∈ laid (buffer_of self (WS_INDEX c)) es → e' ∈ laid (buffer_of self (WS_INDEX c')) es' → e'.1.1 ≠ e.1.1.
Proof.
  intros [_ H1 _] [_ H2 _] Hne He%laid_in He'%laid_in. unfold buffer_of, sizeof_obj_list, RLU_MAX_WRITE_SET_BUFFER_SIZE in *. lia.
Qed.

Lemma WS_INDEX_mod c : 0 ≤ c → WS_INDEX c = c mod 200.
Proof. intros Hc. unfold WS_INDEX, RLU_MAX_WRITE_SETS. apply Z.rem_mod_nonneg; lia. Qed.

Lemma WS_INDEX_ne c c' : 0 ≤ c → c < c' < c + 200 → WS_INDEX c ≠ WS_INDEX c'.
Proof.
  intros Hc Hlt. rewrite !WS_INDEX_mod; [lia..|]. intros E.
  pose proof (Z.div_mod c 200 ltac:(lia)). pose proof (Z.div_mod c' 200 ltac:(lia)).
  pose proof (Z.mod_pos_bound c 200 eq_refl). pose proof (Z.mod_pos_bound c' 200 eq_refl). nia.
Qed.

(** The write sets from number [c] on. *)
Definition sets_at (r : rlu_world) (self : Z) (t : rlu_thread_data) (c : Z) (sets : list (list (Z * list Z))) : Prop :=
  ∀ i es, sets !! i = Some es → set_at r self t (c + Z.of_nat i) es.

Lemma run_writeback_sets r self t c sets :
  r_thr r !! self = Some t → 0 ≤ c → Z.of_nat (length sets) ≤ 200 → sets_at r self t c sets →
  run (for_counter c (c + Z.of_nat (length sets)) (rlu_writeback_write_set self)) r = Done () (wb_all (concat sets) r).
Proof.
  intros Ht Hc Hlen Hs. unfold for_counter. replace (Z.to_nat _) with (length sets) by lia.
  erewrite run_bind_done; [by rewrite run_ret|]. instantiate (1 := c + Z.of_nat (length sets)).
  revert r c Ht Hc Hlen Hs. induction sets as [|es sets IH]; intros r c Ht Hc Hlen Hs.
  - rewrite run_iterate_O. f_equal. cbn. lia.
  - cbn [length]. rewrite run_iterate_S. pose proof (Hs O es eq_refl) as He. rewrite Z.add_0_r in He.
    erewrite run_bind_done; [|by eapply run_writeback_write_set]. rewrite run_ret. cbn [outcome_bind concat].
    rewrite wb_all_app IH; [by rewrite wb_all_thr|lia|cbn in Hlen; lia| |f_equal; lia].
    intros i es' Hi. replace (c + 1 + Z.of_nat i) with (c + Z.of_nat (S i)) by lia.
    pose proof (Hs (S i) es' Hi) as He'. pose proof He' as [H1 H2 H3]. split; [done..|].
    rewrite Forall_forall in H3. apply Forall_forall. intros e' Hin'.
    eapply (wb_all_keeps r (uniq_id t)); [by destruct He|by apply H3|].
    intros e Hin. eapply sets_apart; [exact He|exact He'| |done|done].
    apply WS_INDEX_ne; [lia|]. apply lookup_lt_Some in Hi. cbn in Hlen. lia.
Qed.

(** ** Taking a lock *)

Lemma laid_end_length b es : b + 40 * Z.of_nat (length es) ≤ laid_end b es.
Proof.
  revert b. induction es as [|[o new] es IH]; intros b; cbn [laid_end length]; [lia|].
  pose proof (next_entry_gt b new). specialize (IH (next_entry b new)). lia.
Qed.

(** The state after the copy of [obj] with the contents [new] has been put into
    the current write set, at [p]. *)
Definition copy_added (p obj : Z) (new : list Z) (rc id : Z) (r : rlu_world) : rlu_world :=
  r <| r_wsh ::= <[p := WsObjHeader obj (Z.of_nat (length new)) rc id]> |>
    <| r_copy ::= λ m, <[obj := p + 40]> (<[p + 40 := PTR_ID_OBJ_COPY]> m) |>
    <| r_data ::= <[p + 40 := new]> |>.

Lemma copy_added_keeps p obj new rc id r id' e :
  entry_at r id' e → r_copy r !! obj = Some NULL → e.1.1 < p → e.1.2 ≠ p + 40 →
  entry_at (copy_added p obj new rc id r) id' e.
Proof.
  intros [H1 H2 H3 H4 H5 H6] Hobj Hp Ho.
  assert (obj ≠ e.1.2) as H7. { intros ->. rewrite H3 in Hobj. injection Hobj. tauto. }
  assert (obj ≠ e.1.1 + 40) as H8. { intros ->. by rewrite H2 in Hobj. }
  split; cbn; [..|done].
  - rewrite lookup_insert_ne; [lia|done].
  - rewrite lookup_insert_ne // lookup_insert_ne; [lia|done].
  - rewrite lookup_insert_ne // lookup_insert_ne //.
  - rewrite lookup_insert_ne; [lia|done].
  - rewrite lookup_insert_ne //.
Qed.

Lemma copy_added_entry p obj new rc id r old :
  obj ≠ p + 40 → r_data r !! obj = Some old → (length new ≤ length old)%nat →
  p + 40 ≠ PTR_ID_OBJ_COPY → p + 40 ≠ NULL → entry_at (copy_added p obj new rc id r) id (p, obj, new).
Proof.
  intros Ho Hold Hlen Ha Hn. split; cbn; [..|done].
  - exists rc. by rewrite lookup_insert_eq.
  - by rewrite lookup_insert_ne // lookup_insert_eq.
  - by rewrite lookup_insert_eq.
  - by rewrite lookup_insert_eq.
  - exists old. by rewrite lookup_insert_ne.
Qed.

(** The thread is in a section, and its open write set holds [es]. *)
Record in_section (r : rlu_world) (self : Z) (t : rlu_thread_data) (es : list (Z * list Z)) : Prop := InSection {
  is_thr : r_thr r !! self = Some t;
  is_odd : Z.odd (run_counter t) = true;
  is_cur : ws_cur_id t = WS_INDEX (ws_tail_counter t);
  is_set : set_at r self t (ws_tail_counter t) es;
  is_wd : es ≠ [] → truth (is_write_detected t) = true }.

Definition wrote (t : rlu_thread_data) : rlu_thread_data :=
  if is_write_detected t =? 0 then t <| is_write_detected := 1 |> <| is_check_locks := 1 |> else t.

(** There is room for one more copy, and its address is no object's. *)
Definition has_room (self : Z) (t : rlu_thread_data) (es : list (Z * list Z)) (obj size : Z) : Prop :=
  let buf := buffer_of self (WS_INDEX (ws_tail_counter t)) in
  let p := laid_end buf es in
  p + 40 + ALIGN_OBJ_SIZE size < buf + RLU_MAX_WRITE_SET_BUFFER_SIZE ∧ p + 40 ∉ obj :: es.*1 ∧
  p + 40 ≠ PTR_ID_OBJ_COPY ∧ p + 40 ≠ NULL.

Lemma run_in_buffer self ws p n f r :
  buffer_of self ws ≤ p → p + n ≤ buffer_of self ws + RLU_MAX_WRITE_SET_BUFFER_SIZE →
  run (in_buffer self ws p n f) r = Done () (f r).
Proof.
  intros H1 H2. unfold in_buffer. rewrite run_act. by rewrite (proj2 (Z.leb_le _ _) H1) (proj2 (Z.leb_le _ _) H2).
Qed.

(** The current write set with its next free address and number of objects
    changed. *)
Definition set_cur (ws p n : Z) (t : rlu_thread_data) : rlu_thread_data :=
  t <| obj_write_set ::= alter (λ o, o <| p_cur := p |> <| num_of_objs := n |>) ws |>.

Section locking.
Context (r : rlu_world) (self : Z) (t : rlu_thread_data) (ws : Z) (o : obj_list).
Context (Ht : r_thr r !! self = Some t) (Hws : ws_cur_id t = ws) (Ho : obj_write_set t !! ws = Some o).
Context (Hlo : buffer_of self ws ≤ p_cur o).

Lemma run_add_ws_obj_header obj size :
  p_cur o + 40 ≤ buffer_of self ws + RLU_MAX_WRITE_SET_BUFFER_SIZE →
  run (rlu_add_ws_obj_header_to_write_set self obj size) r =
  Done (p_cur o + 40)
    (put_thr self (set_cur ws (p_cur o + 40) (num_of_objs o) t)
      (r <| r_wsh ::= <[p_cur o := WsObjHeader obj size (run_counter t) (uniq_id t)]> |>
         <| r_copy ::= <[p_cur o + 40 := PTR_ID_OBJ_COPY]> |>)).
Proof.
  intros Hhi. unfold rlu_add_ws_obj_header_to_write_set. rget. rewrite Hws.
  erewrite run_bind_done; [|by eapply run_ws_get]. rget. rget.
  erewrite run_bind_done; [|apply run_in_buffer; unfold WS_OBJ_HEADER_SIZE; lia]. cbv zeta.
  erewrite run_bind_done; [|apply run_in_buffer; unfold WS_OBJ_HEADER_SIZE, OBJ_HEADER_SIZE; lia].
  unfold WS_OBJ_HEADER_SIZE, OBJ_HEADER_SIZE. rewrite -!(Z.add_assoc (p_cur o)). change (32 + 8) with 40.
  erewrite run_bind_done; [|eapply run_ws_upd; [exact Ht|exact Ho]]. rewrite run_ret. f_equal.
  unfold put_thr, set_cur. rlu_eq. f_equal. rlu_eq. rewrite (alter_id_insert _ _ _ o Ho). by destruct o.
Qed.

Lemma run_add_obj_copy obj size bs :
  r_data r !! obj = Some bs → 0 ≤ size ≤ Z.of_nat (length bs) →
  p_cur o + ALIGN_OBJ_SIZE size < buffer_of self ws + RLU_MAX_WRITE_SET_BUFFER_SIZE →
  0 ≤ num_of_objs o < 100000 →
  run (rlu_add_obj_copy_to_write_set self obj size) r =
  Done ()
    (put_thr self (set_cur ws (p_cur o + ALIGN_OBJ_SIZE size) (num_of_objs o + 1) t)
      (r <| r_data ::= <[p_cur o := take (Z.to_nat size) bs]> |>)).
Proof.
  intros Hbs Hsz Hhi Hn. unfold rlu_add_obj_copy_to_write_set. rget. rewrite Hws.
  erewrite run_bind_done; [|by eapply run_ws_get].
  erewrite run_bind_done; [|apply run_rlu_bytes; [exact Hbs|lia]].
  pose proof (align_obj_size size ltac:(lia)).
  erewrite run_bind_done; [|apply run_in_buffer; lia]. cbv zeta.
  erewrite run_bind_done; [|eapply run_ws_upd; [exact Ht|exact Ho]].
  rewrite run_assert; [rewrite run_ret (proj2 (Z.ltb_lt _ _)); [lia|done]|]. f_equal.
  unfold put_thr, set_cur. rlu_eq. f_equal. rlu_eq. rewrite (alter_id_insert _ _ _ o Ho). f_equal.
  destruct o. cbn in *. rlu_eq. apply wrap32_small. lia.
Qed.
End locking.

(** The open write set and the thread after the lock has been taken. *)
Definition locked_thread (self obj size : Z) (es : list (Z * list Z)) (t : rlu_thread_data) : rlu_thread_data :=
  let ws := WS_INDEX (ws_tail_counter t) in
  set_cur ws (laid_end (buffer_of self ws) es + 40 + ALIGN_OBJ_SIZE size) (Z.of_nat (length es) + 1) (wrote t).

Lemma entry_at_thr r self t id e : entry_at r id e → entry_at (put_thr self t r) id e.
Proof. intros []. by split. Qed.

Lemma laid_obj b es e : e ∈ laid b es → e.1.2 ∈ es.*1.
Proof.
  revert b. induction es as [|[o new] es IH]; intros b; [by intros ?%elem_of_nil|].
  intros [->|H]%elem_of_cons; [by left|]. right. by eapply IH.
Qed.

Lemma set_cur_cur ws a b a' b' t : set_cur ws a b (set_cur ws a' b' t) = set_cur ws a b t.
Proof.
  unfold set_cur. destruct t. rlu_eq. apply map_eq. intros i. destruct (decide (ws = i)) as [<-|].
  - rewrite !lookup_alter_eq. by destruct (_ !! ws) as [[]|].
  - by rewrite !lookup_alter_ne.
Qed.

(** The section with one more copy. *)
Lemma locked_in_section r self t es obj new old :
  in_section r self t es → r_copy r !! obj = Some NULL → r_data r !! obj = Some old →
  (length new ≤ length old)%nat → has_room self t es obj (Z.of_nat (length new)) →
  in_section (put_thr self (locked_thread self obj (Z.of_nat (length new)) es t)
      (copy_added (laid_end (buffer_of self (WS_INDEX (ws_tail_counter t))) es) obj new (run_counter t) (uniq_id t) r))
    self (locked_thread self obj (Z.of_nat (length new)) es t) (es ++ [(obj, new)]).
Proof.
  intros [Ht Hodd Hcur [(ids & Hset) Hfits Hents] Hwd] Hfree Hold Hlen (Hroom & Hfresh & Hid & Hnull).
  set (ws := WS_INDEX (ws_tail_counter t)) in *. set (p := laid_end (buffer_of self ws) es) in *.
  apply not_elem_of_cons in Hfresh as [Hfo Hfes]. set (t' := locked_thread _ _ _ _ _).
  assert (run_counter t' = run_counter t ∧ ws_cur_id t' = ws_cur_id t ∧ ws_tail_counter t' = ws_tail_counter t ∧
    uniq_id t' = uniq_id t ∧ truth (is_write_detected t') = true ∧
    obj_write_set (wrote t) = obj_write_set t) as (E1 & E2 & E3 & E4 & E5 & E6).
  { unfold t', locked_thread, set_cur, wrote. destruct (is_write_detected t =? 0) eqn:E; split_and!; try done.
    cbn. unfold truth. by rewrite E. }
  split; rewrite ?E1 ?E2 ?E3 //; [apply put_thr_lookup|]. fold ws. split; rewrite ?E3; fold ws.
  - exists ids. unfold t', locked_thread, set_cur. fold ws. fold p. cbn. rewrite lookup_alter_eq E6 Hset. cbn.
    rewrite length_app laid_end_app. fold p. cbn. unfold next_entry. f_equal. cbv beta delta [field_map]. cbn. f_equal. lia.
  - rewrite laid_end_app. fold p. cbn. unfold next_entry. lia.
  - rewrite laid_app E4. fold p. apply Forall_app. split.
    + apply Forall_forall. intros e He. apply entry_at_thr, copy_added_keeps; [|done|by destruct (laid_in _ _ _ He)|].
      * rewrite Forall_forall in Hents. by apply Hents.
      * intros Eo. apply Hfes. rewrite -Eo. by eapply laid_obj.
    + apply Forall_singleton. apply entry_at_thr. by eapply copy_added_entry.
Qed.

Lemma run_try_lock_free r self t es obj size old :
  in_section r self t es → obj ≠ NULL → r_copy r !! obj = Some NULL →
  r_data r !! obj = Some old → 0 ≤ size ≤ Z.of_nat (length old) → has_room self t es obj size →
  let p := laid_end (buffer_of self (WS_INDEX (ws_tail_counter t))) es in
  run (rlu_try_lock self obj size) r =
  Done (Some (p + 40)) (put_thr self (locked_thread self obj size es t)
    (copy_added p obj (take (Z.to_nat size) old) (run_counter t) (uniq_id t) r)).
Proof.
  intros [Ht Hodd Hcur [(ids & Hset) Hfits Hents] Hwd] Hobj Hfree Hold Hsz (Hroom & Hfresh & Hid & Hnull) p.
  set (ws := WS_INDEX (ws_tail_counter t)) in *. fold p in Hroom, Hfresh, Hid, Hnull, Hset, Hfits.
  unfold rlu_try_lock. erewrite run_bind_done.
  2:{ apply run_assert. rewrite run_ret. by rewrite (proj2 (Z.eqb_neq obj NULL) Hobj). }
  erewrite run_bind_done; [|by apply run_get_copy]. change (PTR_IS_COPY NULL) with false.
  cbv iota. rewrite run_bind run_ret. cbn [outcome_bind]. change (PTR_IS_LOCKED NULL) with false. cbv iota.
  rget.
  assert (run (when (is_write_detected t =? 0) (th_upd self (λ t, t <| is_write_detected := 1 |> <| is_check_locks := 1 |>))) r
    = Done () (put_thr self (wrote t) r)) as Hw.
  { unfold when, wrote. destruct (is_write_detected t =? 0); [exact (run_th_upd _ _ _ Ht _)|]. rewrite run_ret.
    by rewrite put_thr_id. }
  rewrite (run_bind_done _ _ _ _ _ Hw). clear Hw.
  assert (obj_write_set (wrote t) = obj_write_set t ∧ ws_cur_id (wrote t) = ws_cur_id t ∧
          run_counter (wrote t) = run_counter t ∧ uniq_id (wrote t) = uniq_id t) as (Ews & Ecur & Erc & Eid)
    by (unfold wrote; by destruct (_ =? 0)).
  pose proof (laid_end_length (buffer_of self ws) es) as Hlen. fold p in Hlen.
  pose proof (align_obj_size size ltac:(lia)).
  set (o := ObjList 0 ids (Z.of_nat (length es)) p) in Hset.
  erewrite run_bind_done.
  2:{ eapply (run_add_ws_obj_header _ self (wrote t) ws o); [apply put_thr_lookup|by rewrite Ecur|by rewrite Ews| |]; cbn; lia. }
  rewrite Erc Eid. cbn [p_cur o num_of_objs]. erewrite run_bind_done.
  2:{ unfold TRY_CAS_PTR_OBJ_COPY. rewrite run_act. cbn [r_copy put_thr field_map].
      rewrite lookup_insert_ne; [set_solver|]. rewrite Hfree. reflexivity. }
  cbv iota. erewrite run_bind_done.
  2:{ eapply (run_add_obj_copy _ self (set_cur ws (p + 40) (Z.of_nat (length es)) (wrote t)) ws
        (ObjList 0 ids (Z.of_nat (length es)) (p + 40))).
      - apply put_thr_lookup.
      - exact (eq_trans Ecur Hcur).
      - cbn. by rewrite lookup_alter_eq Ews Hset.
      - cbn. lia.
      - exact Hold.
      - done.
      - cbn. lia.
      - cbn. unfold RLU_MAX_WRITE_SET_BUFFER_SIZE in *. lia. }
  cbn [p_cur num_of_objs]. erewrite run_bind_done.
  2:{ apply run_assert. erewrite run_bind_done; [|apply run_get_copy; cbn; by rewrite lookup_insert_eq].
      by rewrite run_ret Z.eqb_refl. }
  rewrite run_ret. f_equal. rewrite set_cur_cur. unfold copy_added, locked_thread.
  rewrite length_take. replace (Z.of_nat (Z.to_nat size `min` length old)) with size by lia.
  fold ws. fold p. generalize (set_cur ws (p + 40 + ALIGN_OBJ_SIZE size) (Z.of_nat (length es) + 1) (wrote t)).
  generalize (set_cur ws (p + 40) (Z.of_nat (length es)) (wrote t)). generalize (wrote t). generalize (take (Z.to_nat size) old).
  generalize (p + 40). generalize (WsObjHeader obj size (run_counter t) (uniq_id t)). clear.
  intros h q new t1 t2 t3. by rewrite !(put_thr_copy, put_thr_wsh, put_thr_data, put_thr_thr).
Qed.

(** C20: in a section, [rlu_try_lock] on a free object succeeds: it returns a
    copy with the contents of the object, at the end of the open write set,
    that holds the object's lock; the object and every other copy stay, and no
    assertion fails. *)
Theorem rlu_try_lock_takes_copy r self t es obj size old :
  in_section r self t es → obj ≠ NULL → r_copy r !! obj = Some NULL →
  r_data r !! obj = Some old → 0 ≤ size ≤ Z.of_nat (length old) → has_room self t es obj size →
  ∃ p t' r', run (rlu_try_lock self obj size) r = Done (Some p) r' ∧
    in_section r' self t' (es ++ [(obj, take (Z.to_nat size) old)]) ∧
    r_copy r' !! obj = Some p ∧ r_data r' = <[p := take (Z.to_nat size) old]> (r_data r) ∧
    (∀ q, q ≠ obj → q ≠ p → r_copy r' !! q = r_copy r !! q) ∧ r_asserts r' = r_asserts r.
Proof.
  intros Hs Hobj Hfree Hold Hsz Hroom. pose proof (run_try_lock_free _ _ _ _ _ _ _ Hs Hobj Hfree Hold Hsz Hroom) as Hr.
  assert (Z.of_nat (length (take (Z.to_nat size) old)) = size) as Elen by (rewrite length_take; lia).
  pose proof (locked_in_section r self t es obj (take (Z.to_nat size) old) old Hs Hfree Hold) as Hin.
  rewrite Elen in Hin. eexists _, _, _. split; [exact Hr|].
  split; [apply Hin; [rewrite length_take; lia|done]|]. split_and!; cbn; [by rewrite lookup_insert_eq|done| |done].
  intros q H1 H2. by rewrite !lookup_insert_ne.
Qed.

(** ** Aborting *)

(** The objects of [es] unlocked. *)
Definition unlock_all (es : list (Z * list Z)) (r : rlu_world) : rlu_world :=
  foldl (λ r e, r <| r_copy ::= <[e.1 := NULL]> |>) r es.

Lemma unlock_keeps r id id' e e' :
  entry_at r id e → entry_at r id' e' → e'.1.1 ≠ e.1.1 → entry_at (r <| r_copy ::= <[e.1.2 := NULL]> |>) id' e'.
Proof.
  intros He He' Hb. destruct (wb_entry_keeps r id id' e e' He He' Hb) as [_ K2 K3 _ _ _].
  destruct He' as [H1 H2 H3 H4 H5 H6]. by split.
Qed.

Definition unlock_body (p : Z) : rprog Z :=
  h ← at_ r_wsh p;
  let p_obj_actual := p_obj_actual h in
  let p := p + WS_OBJ_HEADER_SIZE in
  RLU_ASSERT (c ← GET_COPY (p + OBJ_HEADER_SIZE); mret (c =? PTR_ID_OBJ_COPY));;
  let p := p + OBJ_HEADER_SIZE in
  RLU_ASSERT (c ← GET_COPY p_obj_actual; mret (c =? p));;
  let p := p + ALIGN_OBJ_SIZE (ws_obj_size h) in
  UNLOCK p_obj_actual;;
  mret p.

Lemma run_unlock_body r id b o new :
  entry_at r id (b, o, new) →
  run (unlock_body b) r = Done (next_entry b new) (r <| r_copy ::= <[o := NULL]> |>).
Proof.
  intros [[rc Hh] Hm Hl Hn _ _]. cbn in *. unfold unlock_body.
  rewrite (run_bind_done _ _ _ _ _ (run_at r_wsh b r _ Hh)). cbv zeta. cbn [p_obj_actual ws_obj_size].
  unfold WS_OBJ_HEADER_SIZE, OBJ_HEADER_SIZE. rewrite -!(Z.add_assoc b). change (32 + 8) with 40.
  erewrite run_bind_done.
  2:{ apply run_assert. by rewrite (run_bind_done _ _ _ _ _ (run_get_copy _ _ _ Hm)). }
  erewrite run_bind_done.
  2:{ apply run_assert. rewrite (run_bind_done _ _ _ _ _ (run_get_copy _ _ _ Hl)). by rewrite run_ret Z.eqb_refl. }
  erewrite run_bind_done; [|by eapply run_unlock_obj]. rewrite run_ret. f_equal. unfold next_entry. lia.
Qed.

Lemma run_unlock_loop r id b es :
  Forall (entry_at r id) (laid b es) →
  run (iterate (length es) unlock_body b) r = Done (laid_end b es) (unlock_all es r).
Proof.
  revert r b. induction es as [|[o new] es IH]; intros r b Hes; [done|].
  cbn [laid] in Hes. apply Forall_cons in Hes as [He Hes]. cbn [length]. rewrite run_iterate_S.
  rewrite (run_unlock_body r id b o new He). cbn [outcome_bind laid_end unlock_all foldl].
  apply IH. apply Forall_forall. intros e' Hin.
  apply (unlock_keeps r id _ (b, o, new)); [done| |].
  - rewrite Forall_forall in Hes. by apply Hes.
  - apply laid_ge in Hin. pose proof (next_entry_gt b new). cbn. lia.
Qed.

Lemma run_unlock_objs r self t c es :
  r_thr r !! self = Some t → 0 ≤ c < 2 ^ 31 → set_at r self t c es →
  run (rlu_unlock_objs self c) r = Done () (unlock_all es r).
Proof.
  intros Ht Hc [(ids & Ho) _ Hes]. unfold rlu_unlock_objs. cbv zeta.
  assert (long_to_int c = c) as ->.
  { unfold long_to_int. rewrite wrap32_small; [lia|]. by rewrite (proj2 (Z.ltb_lt _ _) (proj2 Hc)). }
  erewrite run_bind_done; [|by eapply run_ws_get]. cbn [num_of_objs]. rewrite Nat2Z.id.
  by erewrite run_bind_done; [|eapply run_unlock_loop].
Qed.

Lemma unlock_all_thr es r : r_thr (unlock_all es r) = r_thr r.
Proof. revert r. induction es as [|e es IH]; intros r; [done|]. exact (IH (r <| r_copy ::= <[e.1 := NULL]> |>)). Qed.
Lemma unlock_all_frame es r :
  r_data (unlock_all es r) = r_data r ∧ r_asserts (unlock_all es r) = r_asserts r ∧
  (∀ o, o ∉ es.*1 → r_copy (unlock_all es r) !! o = r_copy r !! o) ∧
  (∀ o, o ∈ es.*1 → r_copy (unlock_all es r) !! o = Some NULL).
Proof.
  revert r. induction es as [|[o new] es IH]; intros r; [split_and!; try done; by intros ? ?%elem_of_nil|].
  destruct (IH (r <| r_copy ::= <[o := NULL]> |>)) as (H1 & H2 & H3 & H4). cbn [unlock_all foldl fst].
  split_and!; [exact H1|exact H2| |].
  - intros q [Hq Hqs]%not_elem_of_cons. rewrite (H3 q Hqs). cbn. by rewrite lookup_insert_ne.
  - intros q Hq. destruct (decide (q ∈ es.*1)) as [Hin|Hout]; [by apply H4|].
    rewrite (H3 q Hout). apply elem_of_cons in Hq as [->|?]; [|done]. cbn. by rewrite lookup_insert_eq.
Qed.

(** The write set [ws] emptied. *)
Definition reset_set (self ws : Z) (t : rlu_thread_data) : rlu_thread_data :=
  t <| obj_write_set ::= alter (λ o, ObjList 0 (wl_ids o) 0 (buffer_of self ws)) ws |>.

Lemma run_reset_write_set r self t c o :
  r_thr r !! self = Some t → obj_write_set t !! WS_INDEX c = Some o →
  run (rlu_reset_write_set self c) r = Done () (put_thr self (reset_set self (WS_INDEX c) t) r).
Proof.
  intros Ht Ho. unfold rlu_reset_write_set, rlu_reset_writer_locks. cbv zeta.
  erewrite run_bind_done; [|by eapply run_ws_upd].
  erewrite run_ws_upd; [|apply put_thr_lookup|apply lookup_insert_eq]. rewrite put_thr_thr. do 2 f_equal.
  unfold reset_set. destruct t. cbn in *. rlu_eq. rewrite insert_insert_eq (alter_id_insert _ _ _ o Ho). by destruct o.
Qed.

Lemma set_at_thr r self t t' c es :
  obj_write_set t' = obj_write_set t → uniq_id t' = uniq_id t →
  set_at r self t c es → set_at (put_thr self t' r) self t' c es.
Proof.
  intros E1 E2 [H1 H2 H3]. split; [by rewrite E1|done|]. rewrite E2. eapply Forall_impl; [exact H3|].
  intros e He. by apply entry_at_thr.
Qed.

Lemma run_release_none r self t ws o :
  r_thr r !! self = Some t → obj_write_set t !! ws = Some o → wl_size o = 0 →
  run (rlu_release_writer_locks self ws) r = Done () r.
Proof.
  intros Ht Ho Hn. unfold rlu_release_writer_locks. erewrite run_bind_done; [|by eapply run_ws_get].
  by rewrite Hn.
Qed.

Lemma run_unregister r self t :
  r_thr r !! self = Some t → Z.odd (run_counter t) = true →
  run (rlu_unregister_thread self) r =
  Done () (put_thr self (t <| run_counter ::= λ n, wrap64 (n + 1) |>) r).
Proof.
  intros Ht Hodd. unfold rlu_unregister_thread. erewrite run_bind_done.
  2:{ apply run_assert. rget. by rewrite run_ret Hodd. }
  exact (run_th_upd _ _ _ Ht _).
Qed.

Lemma odd_next n : Z.odd (wrap64 (n + 1)) = negb (Z.odd n).
Proof.
  unfold wrap64. rewrite -Z.negb_even -(Z.negb_even n).
  pose proof (Z.div_mod (n + 1) 18446744073709551616 ltac:(lia)) as E.
  replace ((n + 1) mod 18446744073709551616) with (n + 1 + 2 * (- 9223372036854775808 * ((n + 1) / 18446744073709551616))) by lia.
  rewrite Z.even_add_mul_2 Z.even_add. by destruct (Z.even n).
Qed.

(** A checkpoint outside of any section that has nothing to write back. *)
Lemma run_checkpoint_idle fuel r self t :
  r_thr r !! self = Some t → Z.odd (run_counter t) = false →
  is_sync t = 0 ∨ ws_tail_counter t = ws_head_counter t →
  run (rlu_sync_checkpoint fuel self) r = Done () r.
Proof.
  intros Ht Hev H. unfold rlu_sync_checkpoint. rget. destruct (truth (is_sync t)) eqn:E; [|done].
  destruct H as [H|H]; [by rewrite H in E|]. unfold rlu_sync_and_writeback. erewrite run_bind_done.
  2:{ apply run_assert. rget. by rewrite run_ret Hev. }
  rget. rget. by rewrite H Z.eqb_refl.
Qed.

