(* ===== verification/RluCommit.v ===== *)
(** * Commits of RLU

    A commit raises the global version, waits for the readers that are older,
    writes the copies of its write sets back, and empties the write sets of the
    commit before. *)

From S2P Require Import Prelude Rlu RluSets.

(** ** Waiting for nobody *)

(** No other thread is in a section. *)
Definition quiet (r : rlu_world) (t : rlu_thread_data) : Prop :=
  ∀ id p, 0 ≤ id < g_rlu_cur_threads r → id ≠ uniq_id t → g_rlu_threads r !! id = Some p → p ≠ NULL →
  ∃ t', r_thr r !! p = Some t' ∧ Z.odd (run_counter t') = false.

Definition no_wait (n : Z) (q : gmap Z wait_entry) : Prop :=
  ∀ i, 0 ≤ i < n → is_wait (default (WaitEntry 0 0) (q !! i)) = 0.

Lemma run_q_upd r self t id f :
  r_thr r !! self = Some t → 0 ≤ id < RLU_MAX_THREADS →
  run (q_upd self id f) r = Done () (put_thr self (t <| q_threads ::= <[id := f (q_entry t id)]> |>) r).
Proof.
  intros Ht Hid. unfold q_upd. rewrite (proj2 (Z.leb_le 0 id)); [lia|]. rewrite (proj2 (Z.ltb_lt id _)); [lia|].
  exact (run_th_upd _ _ _ Ht _).
Qed.

(** The thread with another table of waiting entries. *)
Definition with_q (q : gmap Z wait_entry) (t : rlu_thread_data) : rlu_thread_data := t <| q_threads := q |>.

Lemma with_q_upd t q id f :
  (with_q q t) <| q_threads ::= <[id := f (q_entry (with_q q t) id)]> |> =
  with_q (<[id := f (default (WaitEntry 0 0) (q !! id))]> q) t.
Proof. done. Qed.

Lemma no_wait_insert n q e : no_wait n q → is_wait e = 0 → 0 ≤ n → no_wait (n + 1) (<[n := e]> q).
Proof.
  intros Hq He Hn i Hi. destruct (decide (i = n)) as [->|]; [by rewrite lookup_insert_eq|].
  rewrite lookup_insert_ne //. apply Hq. lia.
Qed.

(** One round of the loop of [rlu_init_quiescence]. *)
Lemma run_init_q_round r self t q id :
  quiet r t → r_thr r !! self = Some t → Z.odd (run_counter t) = false →
  0 ≤ id < g_rlu_cur_threads r → g_rlu_cur_threads r ≤ RLU_MAX_THREADS → no_wait id q →
  ∃ q', no_wait (id + 1) q' ∧
  run (n ← rd g_rlu_cur_threads;
    if id <? n then
      q_upd self id (λ e, e <| is_wait := 0 |>);;
      i ← th_get uniq_id self;
      if id =? i then mret (inl (id + 1)) else
      p ← rd (λ r, default NULL (g_rlu_threads r !! id));
      if p =? NULL then mret (inl (id + 1)) else
      rc ← th_get run_counter p;
      q_upd self id (λ e, e <| q_run_counter := rc |>);;
      when (Z.odd rc) (q_upd self id (λ e, e <| is_wait := 1 |>));;
      mret (inl (id + 1))
    else mret (inr ())) (put_thr self (with_q q t) r) = Done (inl (id + 1)) (put_thr self (with_q q' t) r).
Proof.
  intros Hquiet Ht Hev Hid Hmax Hq. rewrite run_bind run_rd. cbn [outcome_bind].
  change (g_rlu_cur_threads (put_thr self (with_q q t) r)) with (g_rlu_cur_threads r).
  rewrite (proj2 (Z.ltb_lt _ _) (proj2 Hid)).
  erewrite run_bind_done; [|apply run_q_upd; [apply put_thr_lookup|lia]]. rewrite put_thr_thr with_q_upd.
  set (q1 := <[id := _]> q). assert (no_wait (id + 1) q1) as Hq1 by (apply no_wait_insert; [done|done|lia]).
  rget. change (uniq_id (with_q q1 t)) with (uniq_id t).
  destruct (Z.eqb_spec id (uniq_id t)) as [|Hne]; [by exists q1|].
  rewrite run_bind run_rd. cbn [outcome_bind].
  change (g_rlu_threads (put_thr self (with_q q1 t) r)) with (g_rlu_threads r).
  destruct (Z.eqb_spec (default NULL (g_rlu_threads r !! id)) NULL) as [|Hp]; [by exists q1|].
  destruct (g_rlu_threads r !! id) as [p|] eqn:Eg; [|done]. cbn [default] in *.
  destruct (Hquiet id p Hid Hne Eg Hp) as (t' & Ht' & Hodd).
  assert (∃ t'', r_thr (put_thr self (with_q q1 t) r) !! p = Some t'' ∧ Z.odd (run_counter t'') = false) as (t'' & Ht'' & Hodd'').
  { destruct (decide (p = self)) as [->|]; [exists (with_q q1 t); by rewrite put_thr_lookup|].
    exists t'. cbn. by rewrite lookup_insert_ne. }
  erewrite run_bind_done; [|by eapply run_th_get].
  erewrite run_bind_done; [|apply run_q_upd; [apply put_thr_lookup|lia]]. rewrite put_thr_thr with_q_upd.
  rewrite Hodd''. unfold when. rewrite run_bind run_ret. cbn [outcome_bind]. rewrite run_ret.
  eexists. split; [|done]. intros i Hi. destruct (decide (i = id)) as [->|].
  - rewrite lookup_insert_eq. cbn. apply Hq1. lia.
  - rewrite lookup_insert_ne //. apply Hq1. lia.
Qed.

Lemma run_init_quiescence fuel r self t :
  quiet r t → r_thr r !! self = Some t → Z.odd (run_counter t) = false →
  0 ≤ g_rlu_cur_threads r ≤ RLU_MAX_THREADS → (Z.to_nat (g_rlu_cur_threads r) < fuel)%nat →
  ∃ q, run (rlu_init_quiescence fuel self) r = Done () (put_thr self (with_q q t) r) ∧
    no_wait (g_rlu_cur_threads r) q.
Proof.
  intros Hquiet Ht Hev Hmax Hf.
  assert (∀ k fuel id q, k = Z.to_nat (g_rlu_cur_threads r - id) → 0 ≤ id ≤ g_rlu_cur_threads r → (k < fuel)%nat → no_wait id q →
    ∃ q', run (loop fuel (λ th_id,
    n ← rd g_rlu_cur_threads;
    if th_id <? n then
      q_upd self th_id (λ e, e <| is_wait := 0 |>);;
      id ← th_get uniq_id self;
      if th_id =? id then mret (inl (th_id + 1)) else
      p ← rd (λ r, default NULL (g_rlu_threads r !! th_id));
      if p =? NULL then mret (inl (th_id + 1)) else
      rc ← th_get run_counter p;
      q_upd self th_id (λ e, e <| q_run_counter := rc |>);;
      when (Z.odd rc) (q_upd self th_id (λ e, e <| is_wait := 1 |>));;
      mret (inl (th_id + 1))
    else mret (inr ())) id) (put_thr self (with_q q t) r) = Done () (put_thr self (with_q q' t) r) ∧
    no_wait (g_rlu_cur_threads r) q') as Hloop.
  { clear Hf. intros k. induction k as [|k IH]; intros f id q Hk Hid Hlt Hq; (destruct f as [|f]; [lia|]).
    - exists q. assert (id = g_rlu_cur_threads r) as -> by lia. split; [|done]. apply run_loop_exit.
      rewrite run_bind run_rd. cbn [outcome_bind].
      change (g_rlu_cur_threads (put_thr self (with_q q t) r)) with (g_rlu_cur_threads r). by rewrite Z.ltb_irrefl.
    - destruct (run_init_q_round r self t q id) as (q1 & Hq1 & Hr); [done..|lia|lia|done|].
      destruct (IH f (id + 1) q1) as (q2 & Hr2 & Hq2); [lia|lia|lia|done|].
      exists q2. split; [|done]. by erewrite run_loop_again. }
  destruct (Hloop _ fuel 0 (q_threads t) eq_refl) as (q' & Hr & Hq'); [lia|rewrite Z.sub_0_r; lia|intros i; lia|].
  exists q'. split; [|done]. unfold rlu_init_quiescence.
  replace r with (put_thr self (with_q (q_threads t) t) r) at 1; [exact Hr|]. apply put_thr_id. rewrite Ht. by destruct t.
Qed.

Lemma run_wait_for_nobody fuel r self t limit :
  r_thr r !! self = Some t → no_wait (g_rlu_cur_threads r) (q_threads t) → (0 < fuel)%nat →
  run (rlu_wait_for_quiescence fuel self limit) r = Done 0 r.
Proof.
  intros Ht Hq Hf. unfold rlu_wait_for_quiescence. rewrite run_bind run_rd. cbn [outcome_bind].
  assert (∀ k id, 0 ≤ id → (Z.to_nat id + k)%nat = Z.to_nat (g_rlu_cur_threads r) →
    run (iterate k (λ '(th_id, iters),
      iters ← rlu_wait_thread fuel self th_id limit iters;
      mret (th_id + 1, iters)) (id, 0)) r = Done (id + Z.of_nat k, 0) r) as Hloop.
  { intros k. induction k as [|k IH]; intros id Hid Hk.
    - rewrite run_iterate_O. do 2 f_equal. lia.
    - rewrite run_iterate_S. erewrite run_bind_done.
      2:{ unfold rlu_wait_thread. destruct fuel as [|fuel]; [lia|]. apply run_loop_exit. rget. unfold q_entry.
          rewrite (Hq id); [lia|]. done. }
      rewrite run_ret. cbn [outcome_bind]. rewrite IH; [lia|lia|]. do 2 f_equal. lia. }
  destruct (Z.le_gt_cases 0 (g_rlu_cur_threads r)).
  - by erewrite run_bind_done; [|apply Hloop; lia].
  - replace (Z.to_nat (g_rlu_cur_threads r)) with O by lia. by rewrite run_bind run_iterate_O.
Qed.

(** ** Emptying write sets *)

Definition all_sets (t : rlu_thread_data) : Prop :=
  ∀ i, 0 ≤ i < RLU_MAX_WRITE_SETS → is_Some (obj_write_set t !! i).

(** The [n] write sets from number [c] on emptied. *)
Fixpoint resets (self c : Z) (n : nat) (t : rlu_thread_data) : rlu_thread_data :=
  match n with
  | O => t
  | S n' => resets self (c + 1) n' (reset_set self (WS_INDEX c) t)
  end.

Lemma WS_INDEX_range c : 0 ≤ c → 0 ≤ WS_INDEX c < RLU_MAX_WRITE_SETS.
Proof. intros Hc. rewrite WS_INDEX_mod //. apply Z.mod_pos_bound. done. Qed.

Lemma all_sets_reset self i t : all_sets t → all_sets (reset_set self i t).
Proof.
  intros H j Hj. unfold reset_set. cbn. destruct (decide (i = j)) as [<-|].
  - rewrite lookup_alter_eq. destruct (H i Hj) as [o ->]. by eexists.
  - rewrite lookup_alter_ne //. by apply H.
Qed.

Lemma run_resets r self t c n :
  r_thr r !! self = Some t → 0 ≤ c → all_sets t →
  run (for_counter c (c + Z.of_nat n) (rlu_reset_write_set self)) r = Done () (put_thr self (resets self c n t) r).
Proof.
  intros Ht Hc Hall. unfold for_counter. replace (Z.to_nat _) with n by lia.
  erewrite run_bind_done; [by rewrite run_ret|]. instantiate (1 := c + Z.of_nat n).
  revert r t c Ht Hc Hall. induction n as [|n IH]; intros r t c Ht Hc Hall.
  - rewrite run_iterate_O. cbn. rewrite put_thr_id //. f_equal. lia.
  - rewrite run_iterate_S. destruct (Hall _ (WS_INDEX_range c Hc)) as [o Ho].
    erewrite run_bind_done; [|by eapply run_reset_write_set]. rewrite run_ret. cbn [outcome_bind resets].
    rewrite (IH _ (reset_set self (WS_INDEX c) t)); [apply put_thr_lookup|lia|by apply all_sets_reset|].
    rewrite put_thr_thr. f_equal. lia.
Qed.

(** Only the write sets change. *)
Lemma resets_eq self c n t : resets self c n t = t <| obj_write_set := obj_write_set (resets self c n t) |>.
Proof.
  revert c t. induction n as [|n IH]; intros c t; [by destruct t|]. cbn [resets]. rewrite {1}IH. by destruct t.
Qed.

Lemma resets_ext self c n t t' :
  obj_write_set t = obj_write_set t' → obj_write_set (resets self c n t) = obj_write_set (resets self c n t').
Proof.
  revert c t t'. induction n as [|n IH]; intros c t t' E; [done|]. cbn [resets]. apply IH. unfold reset_set. cbn. by rewrite E.
Qed.

Lemma resets_other self c n t i :
  (∀ k, c ≤ k < c + Z.of_nat n → WS_INDEX k ≠ i) → obj_write_set (resets self c n t) !! i = obj_write_set t !! i.
Proof.
  revert c t. induction n as [|n IH]; intros c t H; [done|]. cbn [resets]. rewrite IH; [intros k Hk; apply H; lia|].
  unfold reset_set. cbn. rewrite lookup_alter_ne //. apply H. lia.
Qed.

Lemma resets_empty self c n t k :
  0 ≤ c → c ≤ k < c + Z.of_nat n → Z.of_nat n ≤ 200 → all_sets t →
  ∃ ids, obj_write_set (resets self c n t) !! WS_INDEX k = Some (ObjList 0 ids 0 (buffer_of self (WS_INDEX k))).
Proof.
  revert c t. induction n as [|n IH]; intros c t Hc Hk Hn Hall; [lia|]. cbn [resets].
  destruct (decide (k = c)) as [->|].
  - rewrite resets_other; [intros j Hj; apply not_eq_sym, WS_INDEX_ne; lia|].
    destruct (Hall _ (WS_INDEX_range c Hc)) as [o Ho]. exists (wl_ids o). unfold reset_set. cbn.
    by rewrite lookup_alter_eq Ho.
  - apply IH; [lia..|]. by apply all_sets_reset.
Qed.

(** ** Freeing *)

Definition freed_obj (p : Z) (r : rlu_world) : rlu_world :=
  r <| r_mem ::= delete (p - 16) |> <| r_copy ::= delete p |> <| r_data ::= delete p |>.
Definition freed_all (fs : list Z) (r : rlu_world) : rlu_world := foldl (λ r p, freed_obj p r) r fs.

(** The objects [fs] handed to [rlu_free] are blocks of [port_alloc_x], each
    once, and unlocked. *)
Definition freeable (r : rlu_world) (fs : list Z) : Prop :=
  NoDup fs ∧ ∀ p, p ∈ fs → r_copy r !! p = Some NULL ∧ is_Some (r_mem r !! (p - 16)).

Definition free_list (t : rlu_thread_data) (fs : list Z) : Prop :=
  free_nodes_size t = Z.of_nat (length fs) ∧ ∀ i p, fs !! i = Some p → free_nodes t !! Z.of_nat i = Some p.

Lemma freed_all_thr fs r : r_thr (freed_all fs r) = r_thr r.
Proof. revert r. induction fs as [|p fs IH]; intros r; [done|]. exact (IH (freed_obj p r)). Qed.

Lemma run_process_free r self t fs :
  r_thr r !! self = Some t → free_list t fs → freeable r fs →
  run (rlu_process_free self) r = Done () (put_thr self (t <| free_nodes_size := 0 |>) (freed_all fs r)).
Proof.
  intros Ht [Hn Hfs] Hfree. unfold rlu_process_free. rget. rewrite Hn Nat2Z.id.
  assert (∀ l i r, r_thr r !! self = Some t → (∀ k p, l !! k = Some p → free_nodes t !! (i + Z.of_nat k) = Some p) →
    freeable r l →
    run (iterate (length l) (λ i,
      p_obj ← free_node self i;
      RLU_ASSERT (c ← GET_COPY p_obj; mret (negb (PTR_IS_LOCKED c)));;
      rlu_mfree (p_obj - OBJ_HEADER_SIZE);;
      mret (i + 1)) i) r = Done (i + Z.of_nat (length l)) (freed_all l r)) as Hloop.
  { clear. intros l. induction l as [|p l IH]; intros i r Ht Hl [Hnd Hin].
    - rewrite run_iterate_O. f_equal. cbn. lia.
    - cbn [length]. rewrite run_iterate_S. pose proof (Hl O p eq_refl) as Hp. rewrite Z.add_0_r in Hp.
      destruct (Hin p) as [Hc [sz Hm]]; [by left|]. apply NoDup_cons in Hnd as [Hp' Hnd].
      erewrite run_bind_done; [|unfold free_node; rewrite run_act Ht Hp; reflexivity].
      erewrite run_bind_done; [|apply run_assert; by rewrite (run_bind_done _ _ _ _ _ (run_get_copy _ _ _ Hc))].
      unfold rlu_mfree, OBJ_HEADER_SIZE. rewrite run_bind run_act.
      replace (p - 8 - 8) with (p - 16) by lia. rewrite Hm. cbn [outcome_bind]. rewrite run_ret. cbn [outcome_bind].
      replace (p - 8 + 8) with p by lia. change (r <| r_mem ::= _ |> <| r_copy ::= _ |> <| r_data ::= _ |>) with (freed_obj p r).
      rewrite IH; [done| | |f_equal; lia].
      + intros k q Hk. replace (i + 1 + Z.of_nat k) with (i + Z.of_nat (S k)) by lia. by apply Hl.
      + split; [done|]. intros q Hq. destruct (Hin q) as [Hcq Hmq]; [by right|].
        assert (q ≠ p) by (by intros ->). cbn. split; [by rewrite lookup_delete_ne|]. rewrite lookup_delete_ne; [lia|done]. }
  erewrite run_bind_done; [|by apply (Hloop fs 0 r)]. apply run_th_upd. by rewrite freed_all_thr.
Qed.

(** ** Write-back *)

Lemma put_thr_wb es self t r : wb_all es (put_thr self t r) = put_thr self t (wb_all es r).
Proof. revert r. induction es as [|e es IH]; intros r; [done|]. exact (IH (wb_entry e r)). Qed.

(** The counters of the write sets. *)
Definition counters_ok (t : rlu_thread_data) : Prop :=
  0 ≤ ws_head_counter t ∧ ws_head_counter t ≤ ws_wb_counter t ≤ ws_tail_counter t ∧
  ws_tail_counter t - ws_head_counter t ≤ RLU_MAX_WRITE_SETS.

(** The write sets of the commit before emptied, those written back kept. *)
Definition written_thread (self : Z) (t : rlu_thread_data) : rlu_thread_data :=
  t <| obj_write_set := obj_write_set (resets self (ws_head_counter t)
         (Z.to_nat (ws_wb_counter t - ws_head_counter t)) t) |>
    <| ws_head_counter := ws_wb_counter t |> <| ws_wb_counter := ws_tail_counter t |>.

Lemma run_writeback_and_unlock r self t sets :
  r_thr r !! self = Some t → counters_ok t → all_sets t → sets_at r self t (ws_wb_counter t) sets →
  Z.of_nat (length sets) = ws_tail_counter t - ws_wb_counter t →
  run (rlu_writeback_write_sets_and_unlock self) r =
  Done (ws_tail_counter t - ws_wb_counter t) (put_thr self (written_thread self t) (wb_all (concat sets) r)).
Proof.
  intros Ht (H0 & H1 & H2) Hall Hsets Hlen. unfold rlu_writeback_write_sets_and_unlock, RLU_MAX_WRITE_SETS in *.
  rget. rget.
  set (n := Z.to_nat (ws_wb_counter t - ws_head_counter t)).
  pose proof (run_resets r self t (ws_head_counter t) n Ht H0 Hall) as Hr.
  replace (ws_head_counter t + Z.of_nat n) with (ws_wb_counter t) in Hr by lia.
  rewrite (run_bind_done _ _ _ _ _ Hr). rewrite resets_eq.
  set (t1 := t <| obj_write_set := _ |>). rupd. rewrite put_thr_thr. set (t2 := t1 <| ws_head_counter := _ |>).
  rget. change (ws_tail_counter t2) with (ws_tail_counter t).
  erewrite run_bind_done.
  2:{ replace (ws_tail_counter t) with (ws_wb_counter t + Z.of_nat (length sets)) by lia.
      apply (run_writeback_sets _ self t2); [apply put_thr_lookup|lia|lia|].
      intros i es Hi. destruct (Hsets i es Hi) as [(ids & K1) K2 K3]. apply lookup_lt_Some in Hi. split.
      - exists ids. change (obj_write_set t2) with (obj_write_set (resets self (ws_head_counter t) n t)).
        rewrite resets_other //. intros k Hk. apply WS_INDEX_ne; lia.
      - done.
      - eapply Forall_impl; [exact K3|]. intros e He. by apply entry_at_thr. }
  rewrite put_thr_wb. rupd. rewrite put_thr_thr run_ret. rewrite Z.max_r; [lia|]. done.
Qed.

(** ** Synchronization *)

Lemma quiet_put r self t t' :
  quiet r t → r_thr r !! self = Some t → run_counter t' = run_counter t → uniq_id t' = uniq_id t →
  quiet (put_thr self t' r) t'.
Proof.
  intros Hq Ht Hrc Hid id p H1 H2 H3 H4. rewrite Hid in H2. destruct (Hq id p H1 H2 H3 H4) as (u & Hu & Hodd).
  destruct (decide (p = self)) as [->|]; [|exists u; cbn; by rewrite lookup_insert_ne].
  exists t'. rewrite put_thr_lookup. split; [done|]. rewrite Ht in Hu. injection Hu as <-. by rewrite Hrc.
Qed.

(** The versions after a commit. *)
Definition bump (r : rlu_world) : rlu_world :=
  r <| g_rlu_writer_version ::= λ n, wrap64 (n + 1) |> <| g_rlu_commit_version ::= λ n, wrap64 (n + 1) |>.

Lemma wb_commit es r f :
  (wb_all es r) <| g_rlu_commit_version ::= f |> = wb_all es (r <| g_rlu_commit_version ::= f |>).
Proof. revert r. induction es as [|e es IH]; intros r; [done|]. exact (IH (wb_entry e r)). Qed.

Definition synced_thread (self : Z) (q : gmap Z wait_entry) (t : rlu_thread_data) : rlu_thread_data :=
  (written_thread self t) <| q_threads := q |> <| writer_version := RLU_MAX_VERSION |> <| is_sync := 0 |>
    <| free_nodes_size := 0 |>.

(** What a commit needs of the thread: it is outside of any section and has
    something to write back, its write sets from the last write-back on are
    [sets], and the objects to be freed are [fs]. *)
Record can_commit (r : rlu_world) (self : Z) (t : rlu_thread_data) (sets : list (list (Z * list Z))) (fs : list Z)
    : Prop := CanCommit {
  cc_thr : r_thr r !! self = Some t;
  cc_even : Z.odd (run_counter t) = false;
  cc_counters : counters_ok t;
  cc_some : ws_head_counter t < ws_tail_counter t;
  cc_all : all_sets t;
  cc_sets : sets_at r self t (ws_wb_counter t) sets;
  cc_len : Z.of_nat (length sets) = ws_tail_counter t - ws_wb_counter t;
  cc_free : free_list t fs;
  cc_freeable : freeable (wb_all (concat sets) r) fs;
  cc_quiet : quiet r t;
  cc_threads : 0 ≤ g_rlu_cur_threads r ≤ RLU_MAX_THREADS;
  cc_wait : is_no_quiescence t = 0 }.

Lemma freed_put fs self t r : freed_all fs (put_thr self t r) = put_thr self t (freed_all fs r).
Proof. revert r. induction fs as [|p fs IH]; intros r; [done|]. exact (IH (freed_obj p r)). Qed.

Lemma freeable_bump es self t r fs :
  freeable (wb_all es r) fs → freeable (put_thr self t (wb_all es (bump r))) fs.
Proof.
  assert (∀ r, r_copy (wb_all es (bump r)) = r_copy (wb_all es r) ∧ r_mem (wb_all es (bump r)) = r_mem (wb_all es r)) as H.
  { clear. induction es as [|e es IH]; intros r; [done|]. exact (IH (wb_entry e r)). }
  intros [Hnd Hin]. split; [done|]. destruct (H r) as [E1 E2]. cbn. by rewrite E1 E2.
Qed.

Lemma run_sync_and_writeback fuel r self t sets fs :
  can_commit r self t sets fs → (Z.to_nat (g_rlu_cur_threads r) < fuel)%nat →
  ∃ q, run (rlu_sync_and_writeback fuel self) r =
       Done () (put_thr self (synced_thread self q t) (freed_all fs (wb_all (concat sets) (bump r)))).
Proof.
  intros [Ht Hev Hcnt Hsome Hall Hsets Hlen Hfl Hfree Hquiet Hthr Hnq] Hf. unfold rlu_sync_and_writeback.
  erewrite run_bind_done.
  2:{ apply run_assert. rget. by rewrite run_ret Hev. }
  rget. rget. rewrite (proj2 (Z.eqb_neq _ _)); [lia|]. rget. cbv zeta.
  rewrite run_bind run_rd. cbn [outcome_bind]. rupd.
  set (t1 := t <| writer_version := to_long (g_rlu_writer_version r + 1) |>).
  rewrite run_bind run_wr. cbn [outcome_bind].
  set (r1 := r <| g_rlu_writer_version ::= λ n, wrap64 (n + 1) |>).
  change (field_map _ (put_thr self t1 r)) with (put_thr self t1 r1).
  assert (quiet (put_thr self t1 r1) t1) as Hquiet1 by by apply (quiet_put r1 self t).
  destruct (run_init_quiescence fuel (put_thr self t1 r1) self t1 Hquiet1 (put_thr_lookup _ _ _) Hev Hthr Hf)
    as (q & Hinit & Hwait).
  rewrite put_thr_thr in Hinit. set (t2 := with_q q t1) in Hinit. exists q.
  erewrite run_bind_done.
  2:{ unfold rlu_synchronize. rget. change (is_no_quiescence t1) with (is_no_quiescence t). rewrite Hnq. cbn [truth Z.eqb negb].
      rewrite (run_bind_done _ _ _ _ _ Hinit). rget. erewrite run_bind_done; [by rewrite run_ret|].
      apply (run_wait_for_nobody _ _ self t2); [apply put_thr_lookup|done|lia]. }
  assert (sets_at (put_thr self t2 r1) self t2 (ws_wb_counter t2) sets) as Hsets2.
  { intros i es Hi. apply (set_at_thr r1 self t); [done..|]. destruct (Hsets i es Hi) as [K1 K2 K3]. split; [done..|].
    eapply Forall_impl; [exact K3|]. intros e []. by split. }
  pose proof (run_writeback_and_unlock _ self t2 sets (put_thr_lookup _ _ _) Hcnt Hall Hsets2 Hlen) as Hwb.
  rewrite (run_bind_done _ _ _ _ _ Hwb). rewrite put_thr_wb put_thr_thr.
  erewrite run_bind_done; [|apply run_assert; by rewrite run_ret Z.eqb_refl].
  rupd. rewrite put_thr_thr. set (t3 := (written_thread self t2) <| writer_version := RLU_MAX_VERSION |>).
  rewrite run_bind run_wr. cbn [outcome_bind].
  set (r3 := wb_all (concat sets) (bump r)).
  assert ((put_thr self t3 (wb_all (concat sets) r1)) <| g_rlu_commit_version ::= λ n, wrap64 (n + 1) |> = put_thr self t3 r3) as ->.
  { change (put_thr self t3 ((wb_all (concat sets) r1) <| g_rlu_commit_version ::= λ n, wrap64 (n + 1) |>) = put_thr self t3 r3).
    by rewrite wb_commit. }
  rget. erewrite run_bind_done.
  2:{ instantiate (1 := put_thr self (t3 <| is_sync := 0 |>) r3). instantiate (1 := ()).
      unfold when. destruct (truth (is_sync t3)) eqn:Es.
      - rewrite (run_th_upd _ _ _ (put_thr_lookup _ _ _)). by rewrite put_thr_thr.
      - rewrite run_ret. do 2 f_equal. unfold truth in Es. apply negb_false_iff, Z.eqb_eq in Es.
        destruct t3. cbn in *. by subst. }
  erewrite run_process_free; [|apply put_thr_lookup|done|].
  - rewrite freed_put put_thr_thr. do 2 f_equal. unfold synced_thread, t3, written_thread.
    by rewrite (resets_ext self _ _ t2 t eq_refl).
  - by apply freeable_bump.
Qed.

(** ** What is written back *)

(** The entries of consecutive write sets. *)
Fixpoint laid_sets (self c : Z) (sets : list (list (Z * list Z))) : list (Z * Z * list Z) :=
  match sets with
  | [] => []
  | es :: sets' => laid (buffer_of self (WS_INDEX c)) es ++ laid_sets self (c + 1) sets'
  end.

Lemma laid_objs b es : (λ e : Z * Z * list Z, (e.1.2, e.2)) <$> laid b es = es.
Proof. revert b. induction es as [|[o new] es IH]; intros b; [done|]. cbn. by rewrite IH. Qed.
Lemma laid_sets_objs self c sets : (λ e : Z * Z * list Z, (e.1.2, e.2)) <$> laid_sets self c sets = concat sets.
Proof. revert c. induction sets as [|es sets IH]; intros c; [done|]. cbn. by rewrite fmap_app laid_objs IH. Qed.

Lemma laid_bases b es : NoDup ((λ e : Z * Z * list Z, e.1.1) <$> laid b es).
Proof.
  revert b. induction es as [|[o new] es IH]; intros b; [constructor|]. cbn. apply NoDup_cons. split; [|apply IH].
  intros (e & E & He)%list_elem_of_fmap. apply laid_ge in He. pose proof (next_entry_gt b new). lia.
Qed.

Lemma laid_sets_in self c sets e :
  e ∈ laid_sets self c sets →
  ∃ i es, sets !! i = Some es ∧ e ∈ laid (buffer_of self (WS_INDEX (c + Z.of_nat i))) es.
Proof.
  revert c. induction sets as [|es sets IH]; intros c; [by intros ?%elem_of_nil|]. cbn.
  intros [H|H]%elem_of_app.
  - exists O, es. by rewrite Z.add_0_r.
  - destruct (IH _ H) as (i & es' & Hi & He). exists (S i), es'.
    by replace (c + Z.of_nat (S i)) with (c + 1 + Z.of_nat i) by lia.
Qed.

Lemma laid_sets_bases r self t c sets :
  0 ≤ c → Z.of_nat (length sets) ≤ 200 → sets_at r self t c sets →
  NoDup ((λ e : Z * Z * list Z, e.1.1) <$> laid_sets self c sets).
Proof.
  revert c. induction sets as [|es sets IH]; intros c Hc Hlen Hs; [constructor|]. cbn. rewrite fmap_app. apply NoDup_app.
  assert (sets_at r self t (c + 1) sets) as Hs'.
  { intros i es' Hi. replace (c + 1 + Z.of_nat i) with (c + Z.of_nat (S i)) by lia. by apply Hs. }
  split; [apply laid_bases|]. split; [|apply IH; [lia|cbn in Hlen; lia|done]].
  intros b (e & -> & He)%list_elem_of_fmap (e' & E & He')%list_elem_of_fmap.
  destruct (laid_sets_in _ _ _ _ He') as (i & es' & Hi & Hin). revert E. apply not_eq_sym.
  pose proof (Hs O es eq_refl) as H1. rewrite Z.add_0_r in H1.
  eapply sets_apart; [exact H1|exact (Hs' i es' Hi)| |exact He|exact Hin].
  apply lookup_lt_Some in Hi. cbn in Hlen. apply WS_INDEX_ne; lia.
Qed.

(** Every entry is one of a write set. *)
Lemma laid_sets_entries r self t c sets :
  sets_at r self t c sets → Forall (entry_at r (uniq_id t)) (laid_sets self c sets).
Proof.
  intros Hs. apply Forall_forall. intros e He. destruct (laid_sets_in _ _ _ _ He) as (i & es & Hi & Hin).
  destruct (Hs i es Hi) as [_ _ H]. rewrite Forall_forall in H. by apply H.
Qed.

(** No object is locked twice. *)
Lemma sets_objects r self t c sets :
  0 ≤ c → Z.of_nat (length sets) ≤ 200 → sets_at r self t c sets → NoDup (concat sets).*1.
Proof.
  intros Hc Hlen Hs. pose proof (laid_sets_bases r self t c sets Hc Hlen Hs) as Hb.
  pose proof (laid_sets_entries r self t c sets Hs) as He.
  rewrite -(laid_sets_objs self c sets) -list_fmap_compose.
  apply (NoDup_fmap_1 (λ o, default 0 (r_copy r !! o) - 40)). rewrite -list_fmap_compose.
  erewrite list_fmap_ext; [exact Hb|]. intros i e Hi. cbn. rewrite Forall_forall in He.
  destruct (He e) as [_ _ -> _ _ _]; [by eapply list_elem_of_lookup_2|]. cbn. lia.
Qed.

Lemma wb_all_data es r :
  NoDup es.*1 →
  (∀ o new, (o, new) ∈ es → r_data (wb_all es r) !! o = (λ old, new ++ drop (length new) old) <$> r_data r !! o ∧
     r_copy (wb_all es r) !! o = Some NULL) ∧
  (∀ o, o ∉ es.*1 → r_data (wb_all es r) !! o = r_data r !! o ∧ r_copy (wb_all es r) !! o = r_copy r !! o).
Proof.
  revert r. induction es as [|[o new] es IH]; intros r Hnd; [split; [by intros ?? ?%elem_of_nil|done]|].
  cbn in Hnd. apply NoDup_cons in Hnd as [Hn Hnd]. destruct (IH (wb_entry (o, new) r) Hnd) as [H1 H2].
  cbn [wb_all foldl]. split.
  - intros q m [[= -> ->]|Hin]%elem_of_cons.
    + destruct (H2 o Hn) as [E1 E2]. split; [etrans; [exact E1|]|etrans; [exact E2|]]; cbn.
      * by rewrite lookup_alter_eq.
      * by rewrite lookup_insert_eq.
    + destruct (H1 q m Hin) as [E1 E2]. split; [|exact E2]. etrans; [exact E1|]. cbn. rewrite lookup_alter_ne //.
      intros ->. apply Hn. by apply (list_elem_of_fmap_2 fst) in Hin.
  - intros q [Hq Hqs]%not_elem_of_cons. destruct (H2 q Hqs) as [E1 E2].
    split; [etrans; [exact E1|]|etrans; [exact E2|]]; cbn.
    + by rewrite lookup_alter_ne.
    + by rewrite lookup_insert_ne.
Qed.

Lemma freed_all_data fs r :
  (∀ o, o ∉ fs → r_data (freed_all fs r) !! o = r_data r !! o ∧ r_copy (freed_all fs r) !! o = r_copy r !! o) ∧
  (∀ o, o ∈ fs → r_data (freed_all fs r) !! o = None).
Proof.
  revert r. induction fs as [|p fs IH]; intros r; [split; [done|by intros ? ?%elem_of_nil]|].
  destruct (IH (freed_obj p r)) as [H1 H2]. split.
  - intros o [Ho Hos]%not_elem_of_cons. destruct (H1 o Hos) as [E1 E2].
    split; [etrans; [exact E1|]|etrans; [exact E2|]]; cbn; by rewrite lookup_delete_ne.
  - intros o Hin. destruct (decide (o ∈ fs)) as [|Hout]; [by apply H2|].
    apply elem_of_cons in Hin as [->|]; [|done]. destruct (H1 p Hout) as [E1 _]. etrans; [exact E1|]. cbn.
    by rewrite lookup_delete_eq.
Qed.

Lemma freed_wb_frame fs es r :
  r_asserts (freed_all fs (wb_all es r)) = r_asserts r ∧
  g_rlu_writer_version (freed_all fs (wb_all es r)) = g_rlu_writer_version r ∧
  g_rlu_commit_version (freed_all fs (wb_all es r)) = g_rlu_commit_version r.
Proof.
  assert (∀ r, r_asserts (wb_all es r) = r_asserts r ∧ g_rlu_writer_version (wb_all es r) = g_rlu_writer_version r ∧
    g_rlu_commit_version (wb_all es r) = g_rlu_commit_version r) as H.
  { clear. induction es as [|e es IH]; intros r; [done|]. exact (IH (wb_entry e r)). }
  revert r H. generalize (wb_all es). intros f r H. destruct (H r) as (<- & <- & <-). generalize (f r). clear.
  induction fs as [|p fs IH]; intros r; [done|]. exact (IH (freed_obj p r)).
Qed.

(** The thread as it enters the commit. *)
Definition leaving (t : rlu_thread_data) : rlu_thread_data :=
  t <| run_counter ::= λ n, wrap64 (n + 1) |> <| is_write_detected := 0 |>
    <| ws_tail_counter ::= Z.add 1 |> <| ws_cur_id := WS_INDEX (1 + ws_tail_counter t) |>.

(** The section with the copies [es] can be committed together with the
    deferred write sets [sets], now: as many are open as the thread may defer. *)
Record commits (r : rlu_world) (self : Z) (t : rlu_thread_data) (sets : list (list (Z * list Z)))
    (es : list (Z * list Z)) (fs : list Z) : Prop := Commits {
  co_section : in_section r self t es;
  co_wrote : truth (is_write_detected t) = true;
  co_head : 0 ≤ ws_head_counter t ≤ ws_wb_counter t;
  co_len : ws_tail_counter t = ws_wb_counter t + Z.of_nat (length sets);
  co_room : ws_tail_counter t - ws_head_counter t < RLU_MAX_WRITE_SETS;
  co_few : Z.of_nat (length sets) + 1 < RLU_MAX_WRITE_SETS;
  co_due : max_write_sets t ≤ Z.of_nat (length sets) + 1;
  co_all : all_sets t;
  co_sets : sets_at r self t (ws_wb_counter t) sets;
  co_free : free_list t fs;
  co_freeable : freeable (wb_all (concat sets ++ es) r) fs;
  co_quiet : quiet r t;
  co_threads : 0 ≤ g_rlu_cur_threads r ≤ RLU_MAX_THREADS;
  co_wait : is_no_quiescence t = 0 }.

Lemma commits_sets r self t sets es fs :
  commits r self t sets es fs → sets_at r self t (ws_wb_counter t) (sets ++ [es]).
Proof.
  intros [[_ _ _ Hset _] _ _ Hlen _ _ _ _ Hsets _ _ _ _ _] i es' Hi.
  apply lookup_app_Some in Hi as [Hi|[Hl Hi]]; [by apply Hsets|].
  apply list_lookup_singleton_Some in Hi as [Ei <-].
  replace (ws_wb_counter t + Z.of_nat i) with (ws_tail_counter t) by lia. done.
Qed.

Lemma commits_can r self t sets es fs :
  commits r self t sets es fs → can_commit (put_thr self (leaving t) r) self (leaving t) (sets ++ [es]) fs.
Proof.
  intros Hc. pose proof (commits_sets _ _ _ _ _ _ Hc) as Hs.
  destruct Hc as [[Ht Hodd Hcur Hset Hwd] Hw Hhead Hlen Hroom Hfew Hdue Hall Hsets Hfl Hfree Hq Hthr Hnq].
  unfold RLU_MAX_WRITE_SETS in *. split; try done.
  - apply put_thr_lookup.
  - change (Z.odd (wrap64 (run_counter t + 1)) = false). by rewrite odd_next Hodd.
  - unfold counters_ok, RLU_MAX_WRITE_SETS. cbn. lia.
  - cbn. lia.
  - intros i es' Hi. by apply (set_at_thr r self t), Hs.
  - rewrite length_app. cbn. lia.
  - rewrite put_thr_wb concat_app. cbn. by rewrite app_nil_r.
  - intros id p H1 H2 H3 H4. destruct (Hq id p H1 H2 H3 H4) as (u & Hu & Hodd').
    destruct (decide (p = self)) as [->|]; [rewrite Ht in Hu; injection Hu as <-; by rewrite Hodd in Hodd'|].
    exists u. cbn. by rewrite lookup_insert_ne.
Qed.

Lemma run_commit_write_set fuel r self t sets es fs :
  commits r self t sets es fs → (Z.to_nat (g_rlu_cur_threads r) < fuel)%nat →
  ∃ q, run (rlu_commit_write_set fuel self)
         (put_thr self (t <| run_counter ::= λ n, wrap64 (n + 1) |> <| is_write_detected := 0 |>) r) =
       Done () (put_thr self (synced_thread self q (leaving t)) (freed_all fs (wb_all (concat sets ++ es) (bump r)))).
Proof.
  intros Hc Hf. destruct (run_sync_and_writeback fuel _ _ _ _ _ (commits_can _ _ _ _ _ _ Hc) Hf) as (q & Hsync).
  assert (concat (sets ++ [es]) = concat sets ++ es) as Ec by (rewrite concat_app; cbn; by rewrite app_nil_r).
  change (bump (put_thr self (leaving t) r)) with (put_thr self (leaving t) (bump r)) in Hsync.
  rewrite put_thr_wb freed_put put_thr_thr Ec in Hsync. exists q.
  destruct Hc as [[Ht Hodd Hcur Hset Hwd] Hw Hhead Hlen Hroom Hfew Hdue Hall Hsets Hfl Hfree Hq Hthr Hnq].
  unfold RLU_MAX_WRITE_SETS in *. unfold rlu_commit_write_set. rupd. rupd. rewrite !put_thr_thr.
  change (field_map _ (field_map _ _)) with (leaving t). rget. rget. rget. rget.
  erewrite run_bind_done.
  2:{ unfold when. rewrite (proj2 (Z.leb_le _ _)); [cbn; lia|]. rewrite orb_true_r. exact Hsync. }
  set (t' := synced_thread self q (leaving t)).
  erewrite run_bind_done.
  2:{ apply run_assert. rget. rget. rewrite run_ret. do 2 f_equal. apply Z.ltb_lt.
      change (ws_wb_counter t < 1 + ws_tail_counter t). lia. }
  rewrite run_assert //. rget. rget. rewrite run_ret. do 2 f_equal. apply negb_true_iff, Z.eqb_neq.
  change (WS_INDEX (1 + ws_tail_counter t) ≠ WS_INDEX (ws_wb_counter t)). apply not_eq_sym, WS_INDEX_ne; lia.
Qed.

(** The write set of the section keeps its (empty) list of writer locks. *)
Lemma synced_own_set r self t sets es fs q :
  commits r self t sets es fs →
  obj_write_set (synced_thread self q (leaving t)) !! WS_INDEX (ws_tail_counter t) =
  obj_write_set t !! WS_INDEX (ws_tail_counter t).
Proof.
  intros [[Ht Hodd Hcur Hset Hwd] Hw Hhead Hlen Hroom Hfew Hdue Hall Hsets Hfl Hfree Hq Hthr Hnq].
  unfold RLU_MAX_WRITE_SETS in *. unfold synced_thread, written_thread. cbn [obj_write_set].
  change (obj_write_set (field_map _ _)) with
    (obj_write_set (resets self (ws_head_counter t) (Z.to_nat (ws_wb_counter t - ws_head_counter t)) (leaving t))).
  rewrite resets_other; [|done]. intros k Hk. apply WS_INDEX_ne; lia.
Qed.

(** C17: leaving a section that wrote, when the write sets a thread may defer
    are full and no other thread is in a section, commits: it returns, every
    object locked in the deferred write sets or in this one holds the contents
    of its copy and is unlocked, the objects handed to [rlu_free] are freed,
    all others keep their contents and locks, both global versions advance,
    the thread is outside of any section with nothing left to write back, and
    no assertion fails. *)
Theorem rlu_commit_writes_back fuel r self t sets es fs :
  commits r self t sets es fs → (Z.to_nat (g_rlu_cur_threads r) < fuel)%nat →
  ∃ t' r', run (rlu_reader_unlock fuel self) r = Done () r' ∧ r_thr r' !! self = Some t' ∧
    Z.odd (run_counter t') = false ∧ is_write_detected t' = 0 ∧ writer_version t' = RLU_MAX_VERSION ∧
    ws_tail_counter t' = 1 + ws_tail_counter t ∧ ws_wb_counter t' = ws_tail_counter t' ∧
    ws_head_counter t' = ws_wb_counter t ∧ free_nodes_size t' = 0 ∧
    (∀ o new, (o, new) ∈ concat sets ++ es → o ∉ fs →
       r_data r' !! o = (λ old, new ++ drop (length new) old) <$> r_data r !! o ∧ r_copy r' !! o = Some NULL) ∧
    (∀ o, o ∉ (concat sets ++ es).*1 → o ∉ fs → r_data r' !! o = r_data r !! o ∧ r_copy r' !! o = r_copy r !! o) ∧
    (∀ o, o ∈ fs → r_data r' !! o = None) ∧
    g_rlu_writer_version r' = wrap64 (g_rlu_writer_version r + 1) ∧
    g_rlu_commit_version r' = wrap64 (g_rlu_commit_version r + 1) ∧ r_asserts r' = r_asserts r.
Proof.
  intros Hc Hf. destruct (run_commit_write_set fuel _ _ _ _ _ _ Hc Hf) as (q & Hcommit).
  pose proof (synced_own_set _ _ _ _ _ _ q Hc) as Hown. pose proof (commits_sets _ _ _ _ _ _ Hc) as Hs.
  set (t' := synced_thread self q (leaving t)) in *.
  set (r' := put_thr self t' (freed_all fs (wb_all (concat sets ++ es) (bump r)))) in *.
  assert (NoDup (concat sets ++ es).*1) as Hnd.
  { destruct Hc. unfold RLU_MAX_WRITE_SETS in *. replace (concat sets ++ es) with (concat (sets ++ [es])).
    - eapply sets_objects; [|rewrite length_app; cbn; lia|exact Hs]. lia.
    - rewrite concat_app. cbn. by rewrite app_nil_r. }
  destruct Hc as [[Ht Hodd Hcur [(ids & Hset) _ _] Hwd] Hw Hhead Hlen Hroom Hfew Hdue Hall Hsets Hfl Hfree Hq Hthr Hnq].
  assert (Z.odd (run_counter t') = false) as Hev.
  { change (Z.odd (wrap64 (run_counter t + 1)) = false). by rewrite odd_next Hodd. }
  exists t', r'. split.
  { unfold rlu_reader_unlock. rewrite (run_bind_done _ _ _ _ _ (run_unregister r self t Ht Hodd)). rget.
    change (is_write_detected (field_map _ t)) with (is_write_detected t). rewrite Hw. rewrite run_bind. rupd.
    rewrite put_thr_thr (run_bind_done _ _ _ _ _ Hcommit). rget.
    change (ws_tail_counter t' - 1) with (1 + ws_tail_counter t - 1).
    replace (1 + ws_tail_counter t - 1) with (ws_tail_counter t) by lia.
    erewrite run_release_none; [|apply put_thr_lookup|by rewrite Hown|done]. cbn [outcome_bind].
    apply (run_checkpoint_idle fuel _ self t' (put_thr_lookup _ _ _) Hev). by left. }
  destruct (freed_wb_frame fs (concat sets ++ es) (bump r)) as (F1 & F2 & F3).
  destruct (freed_all_data fs (wb_all (concat sets ++ es) (bump r))) as [G1 G2].
  destruct (wb_all_data (concat sets ++ es) (bump r) Hnd) as [W1 W2].
  split_and!; try done; [apply put_thr_lookup| |].
  - intros o new Hin Ho. destruct (G1 o Ho) as [E1 E2]. destruct (W1 o new Hin) as [E3 E4].
    split; [exact (eq_trans E1 E3)|exact (eq_trans E2 E4)].
  - intros o Hout Ho. destruct (G1 o Ho) as [E1 E2]. destruct (W2 o Hout) as [E3 E4].
    split; [exact (eq_trans E1 E3)|exact (eq_trans E2 E4)].
Qed.
