(* ===== verification/RluView.v ===== *)
(** * What readers of RLU see

    A reader sees an object or the copy of a thread that commits, by comparing
    versions.  Writing back is invisible to the readers that see the copies,
    and it only happens when the others have left: the grace period is shown
    for the wait of a commit among threads that come and go. *)

From S2P Require Import Prelude Rlu RluSets RluCommit Concur.

(** ** Dereferencing *)

(** The object or copy the reader [t] uses for the object at [o]. *)
Definition rlu_target (r : rlu_world) (t : rlu_thread_data) (o : Z) : Z :=
  match r_copy r !! o with
  | Some c =>
      if (is_check_locks t =? 0) || negb (PTR_IS_LOCKED c) || PTR_IS_COPY c then o
      else match r_wsh r !! (c - 40) with
           | Some h =>
               if ws_thread_id h =? uniq_id t then c
               else match g_rlu_threads r !! ws_thread_id h ≫= λ p, r_thr r !! p with
                    | Some u => if truth (is_steal t) && (writer_version u <=? local_version t) then c else o
                    | None => o
                    end
           | None => o
           end
  | None => o
  end.

(** The lock of [o] is a copy in a write set of a registered thread, if any. *)
Definition lock_ok (r : rlu_world) (o : Z) : Prop :=
  ∃ c, r_copy r !! o = Some c ∧
  (PTR_IS_LOCKED c = true → PTR_IS_COPY c = false →
   ∃ h p u, r_wsh r !! (c - 40) = Some h ∧ g_rlu_threads r !! ws_thread_id h = Some p ∧ r_thr r !! p = Some u ∧
     r_copy r !! c = Some PTR_ID_OBJ_COPY).

(** [deref_ptr] returns what [rlu_target] says, and changes nothing: the
    object if it is free or the reader is sure that no commit is under way,
    the reader's own copy, the copy of a thread that commits at a version the
    reader has seen, and the object itself before that. *)
Theorem deref_ptr_target r self t o :
  r_thr r !! self = Some t → o ≠ NULL → lock_ok r o →
  run (deref_ptr self o) r = Done (rlu_target r t o) r.
Proof.
  intros Ht Ho (c & Hc & Hlock). unfold deref_ptr, rlu_target. rewrite Hc. rget.
  destruct (is_check_locks t =? 0); [done|]. cbn [orb].
  rewrite (proj2 (Z.eqb_neq o NULL) Ho). cbn [negb]. rewrite run_bind.
  rewrite (run_bind_done _ _ _ _ _ (run_get_copy _ _ _ Hc)) run_ret. cbn [outcome_bind].
  destruct (PTR_IS_LOCKED c) eqn:El; [|done]. cbn [negb orb]. unfold rlu_deref_slow_path.
  rewrite (proj2 (Z.eqb_neq o NULL) Ho) (run_bind_done _ _ _ _ _ (run_get_copy _ _ _ Hc)) El. cbn [negb].
  destruct (PTR_IS_COPY c) eqn:Ec; [done|]. destruct (Hlock eq_refl eq_refl) as (h & p & u & Hh & Hp & Hu & _).
  pose proof (run_ws_h ws_thread_id (c - 40) r h Hh) as Hid. replace (c - 40 + 40) with c in Hid by lia.
  rewrite Hh Hp (run_bind_done _ _ _ _ _ Hid). cbn [option_bind mbind]. rget.
  destruct (ws_thread_id h =? uniq_id t); [done|]. rget.
  change (Some p ≫= λ p, r_thr r !! p) with (r_thr r !! p). rewrite Hu.
  destruct (truth (is_steal t)); [|done]. cbn [andb]. rewrite run_bind run_rd. cbn [outcome_bind]. rewrite Hp.
  cbn [default]. erewrite run_bind_done; [|by eapply run_th_get]. rget. by destruct (_ <=? _).
Qed.

(** The contents the reader gets. *)
Definition seen (r : rlu_world) (t : rlu_thread_data) (o : Z) : option (list Z) := r_data r !! rlu_target r t o.

(** ** Writing back is invisible *)

(** The thread [t] at [self] is about to write the copies of [sets] back. *)
Record writing_back (r : rlu_world) (self : Z) (t : rlu_thread_data) (sets : list (list (Z * list Z))) : Prop := WritingBack {
  wb_thr : r_thr r !! self = Some t;
  wb_registered : g_rlu_threads r !! uniq_id t = Some self;
  wb_counters : counters_ok t;
  wb_sets : all_sets t;
  wb_at : sets_at r self t (ws_wb_counter t) sets;
  wb_len : Z.of_nat (length sets) = ws_tail_counter t - ws_wb_counter t }.

(** A reader of another thread that looks at locks and at versions. *)
Definition looks (t u : rlu_thread_data) : Prop :=
  uniq_id u ≠ uniq_id t ∧ is_check_locks u ≠ 0 ∧ truth (is_steal u) = true.

Section writing.
Context (r : rlu_world) (self : Z) (t : rlu_thread_data) (sets : list (list (Z * list Z))).
Context (Hwb : writing_back r self t sets).

Lemma written_entry o new :
  (o, new) ∈ concat sets → ∃ b, entry_at r (uniq_id t) (b, o, new).
Proof.
  intros Hin. destruct Hwb as [_ _ _ _ Hs _]. pose proof (laid_sets_entries _ _ _ _ _ Hs) as He.
  rewrite -(laid_sets_objs self (ws_wb_counter t)) in Hin. apply list_elem_of_fmap in Hin as ([[b o'] new'] & [= -> ->] & Hin).
  exists b. rewrite Forall_forall in He. by apply (He (b, o', new')).
Qed.

Lemma target_written u o new :
  looks t u → (o, new) ∈ concat sets →
  (writer_version t ≤ local_version u → seen r u o = Some new) ∧
  (local_version u < writer_version t → seen r u o = r_data r !! o).
Proof.
  intros (Hid & Hchk & Hst) Hin. destruct (written_entry o new Hin) as (b & [[rc Hh] Hm Hl Hn Hold [Ha Hnull]]). cbn in *.
  destruct Hwb as [Ht Hreg _ _ _ _].
  assert (rlu_target r u o = if writer_version t <=? local_version u then b + 40 else o) as E.
  { unfold rlu_target. rewrite Hl (proj2 (Z.eqb_neq _ _) Hchk). unfold PTR_IS_LOCKED, PTR_IS_COPY, truth.
    rewrite (proj2 (Z.eqb_neq _ _) Hnull) (proj2 (Z.eqb_neq _ _) Ha). cbn [negb orb].
    replace (b + 40 - 40) with b by lia. rewrite Hh. cbn [ws_thread_id].
    rewrite (proj2 (Z.eqb_neq (uniq_id t) (uniq_id u))); [lia|]. rewrite Hreg.
    change (Some self ≫= λ p, r_thr r !! p) with (r_thr r !! self). rewrite Ht. unfold truth in Hst. by rewrite Hst. }
  unfold seen. rewrite E. split; intros H.
  - by rewrite (proj2 (Z.leb_le _ _) H).
  - by rewrite (proj2 (Z.leb_gt _ _) H).
Qed.
End writing.

Lemma wb_all_wsh es r : r_wsh (wb_all es r) = r_wsh r ∧ g_rlu_threads (wb_all es r) = g_rlu_threads r.
Proof. revert r. induction es as [|e es IH]; intros r; [done|]. exact (IH (wb_entry e r)). Qed.


(** ** The grace period *)

(** An action from states with the stable property [P] to states with the
    stable property [Q b]. *)
Lemma safe_stable {S B} (R G : S → S → Prop) spin (P : S → Prop) (Q : B → S → Prop) (op : S → effect S B) s :
  (∀ s s', R s s' → P s → P s') → (∀ b s s', R s s' → Q b s → Q b s') → P s →
  (∀ s1, P s1 → match op s1 with Next b s2 => G s1 s2 ∧ Q b s2 | Wait => True | Crash => False end) →
  safe R G spin (act op) Q s.
Proof.
  intros HP HQ Hs Hop. apply safe_act. intros s1 Hr1.
  assert (P s1) as H1. { eapply (rtc_stable R P); [|exact Hr1|exact Hs]. intros x y Hx HR. by eapply HP. }
  specialize (Hop s1 H1). destruct (op s1) as [b s2| |]; [|split; [done|by intros ? ?]|done].
  split; [done|]. intros b' s2' [= <- <-]. destruct Hop as [HG HQb]. split; [done|]. intros s3 Hr3.
  eapply (rtc_stable R (Q b)); [|exact Hr3|exact HQb]. intros x y Hx HR. by eapply HQ.
Qed.

Section grace.
(** The thread [self] with the number [id] commits at the version [limit];
    [past i p rc]: when it started to wait, the thread number [i] at [p] was in
    the section with the run counter [rc]. *)
Context (self id limit n0 : Z) (past : Z → Z → Z → Prop).
Context (Hlimit : 0 < limit < 2 ^ 63).
Context (Hpast : ∀ i p rc, past i p rc → 0 ≤ i < n0 ∧ i ≠ id ∧ p ≠ self ∧ p ≠ NULL ∧ Z.odd rc = true).

(** What the other threads do: they do not touch the table of waiting entries,
    threads are added and not removed, and run counters and versions grow. *)
Definition rlu_rely (s s' : rlu_world) : Prop :=
  g_rlu_cur_threads s ≤ g_rlu_cur_threads s' ≤ RLU_MAX_THREADS ∧
  (∀ i p, g_rlu_threads s !! i = Some p → g_rlu_threads s' !! i = Some p) ∧
  (∀ i p, g_rlu_threads s' !! i = Some p → g_rlu_threads s !! i = Some p ∨ is_Some (r_thr s' !! p)) ∧
  ∀ p t, r_thr s !! p = Some t → ∃ t', r_thr s' !! p = Some t' ∧
    run_counter t ≤ run_counter t' ∧ local_version t ≤ local_version t' ∧
    (p = self → q_threads t' = q_threads t ∧ uniq_id t' = uniq_id t ∧ writer_version t' = writer_version t ∧
       is_no_quiescence t' = is_no_quiescence t).
(** What the waiting thread does: it changes its table. *)
Definition rlu_guar (s s' : rlu_world) : Prop :=
  s' = s ∨ ∃ t q, r_thr s !! self = Some t ∧ s' = put_thr self (with_q q t) s.

(** The thread at [p] has left the section [rc], or its version is not older
    than the commit. *)
Definition passed (p rc : Z) (s : rlu_world) : Prop :=
  ∃ u, r_thr s !! p = Some u ∧ (rc < run_counter u ∨ limit ≤ local_version u).

(** The thread number [i] is registered, and has left the section or is noted
    in the table. *)
Definition there (i p rc : Z) (s : rlu_world) : Prop :=
  g_rlu_threads s !! i = Some p ∧ ∃ u, r_thr s !! p = Some u ∧ rc ≤ run_counter u ∧ 0 ≤ local_version u.
Definition noted (i p rc : Z) (s : rlu_world) : Prop :=
  there i p rc s ∧
  ((∃ u, r_thr s !! p = Some u ∧ rc < run_counter u) ∨
   (∃ t, r_thr s !! self = Some t ∧ truth (is_wait (q_entry t i)) = true ∧ q_run_counter (q_entry t i) = rc)).

Lemma rlu_passed_stable p rc s s' : rlu_rely s s' → passed p rc s → passed p rc s'.
Proof.
  intros (_ & _ & _ & H) (u & Hu & Hc). destruct (H p u Hu) as (u' & Hu' & H1 & H2 & _). exists u'. split; [done|].
  destruct Hc; [left|right]; lia.
Qed.
Lemma there_stable i p rc s s' : rlu_rely s s' → there i p rc s → there i p rc s'.
Proof.
  intros (_ & Hg & _ & H) (Hi & u & Hu & Hc & Hv). split; [by apply Hg|]. destruct (H p u Hu) as (u' & Hu' & H1 & H2 & _).
  exists u'. split; [done|lia].
Qed.
Lemma noted_stable i p rc s s' : rlu_rely s s' → noted i p rc s → noted i p rc s'.
Proof.
  intros Hr [Hth Hc]. split; [by eapply there_stable|]. destruct Hr as (_ & _ & _ & H).
  destruct Hc as [(u & Hu & Hlt)|(t & Ht & Hw & Hrc)].
  - destruct (H p u Hu) as (u' & Hu' & H1 & _). left. exists u'. split; [done|lia].
  - destruct (H self t Ht) as (t' & Ht' & _ & _ & Hq). destruct (Hq eq_refl) as (Eq & _). right. exists t'.
    unfold q_entry in *. by rewrite Eq.
Qed.

(** What holds all the time: the waiting thread is there, all registered
    threads exist, and only registered threads are waited for. *)
Definition base_ok (s : rlu_world) : Prop :=
  n0 ≤ g_rlu_cur_threads s ≤ RLU_MAX_THREADS ∧
  (∀ i p, g_rlu_threads s !! i = Some p → p ≠ NULL → is_Some (r_thr s !! p)) ∧
  ∃ t, r_thr s !! self = Some t ∧ uniq_id t = id ∧ writer_version t = limit ∧ is_no_quiescence t = 0 ∧
    ∀ i, truth (is_wait (q_entry t i)) = true → ∃ p, g_rlu_threads s !! i = Some p ∧ p ≠ NULL.

Lemma base_stable s s' : rlu_rely s s' → base_ok s → base_ok s'.
Proof.
  intros (Hn & Hg & Hg' & H) (Hn0 & Hreg & t & Ht & Hid & Hv & Hnq & Hw). split; [lia|]. split.
  - intros i p Hi Hp. destruct (Hg' i p Hi) as [Hi'|]; [|done]. destruct (Hreg i p Hi' Hp) as [u Hu].
    destruct (H p u Hu) as (u' & -> & _). eauto.
  - destruct (H self t Ht) as (t' & Ht' & _ & _ & Hq). destruct (Hq eq_refl) as (Eq & Eid & Ev & En).
    exists t'. split_and!; [done|congruence..|]. intros i Hi. unfold q_entry in *. rewrite Eq in Hi.
    destruct (Hw i Hi) as (p & Hp & Hnull). eauto.
Qed.

(** While the table is filled, up to [k], and while it is worked off, from [k]
    on. *)
Definition filling (k : Z) (s : rlu_world) : Prop :=
  base_ok s ∧ ∀ i p rc, past i p rc → there i p rc s ∧ (i < k → noted i p rc s).
Definition waiting (k : Z) (s : rlu_world) : Prop :=
  base_ok s ∧ ∀ i p rc, past i p rc → (i < k → passed p rc s) ∧ (k ≤ i → noted i p rc s).

Lemma filling_stable k s s' : rlu_rely s s' → filling k s → filling k s'.
Proof.
  intros Hr [Hb Hp]. split; [by eapply base_stable|]. intros i p rc Hi. destruct (Hp i p rc Hi) as [H1 H2].
  split; [by eapply there_stable|]. intros Hk. by eapply noted_stable; eauto.
Qed.
Lemma waiting_stable k s s' : rlu_rely s s' → waiting k s → waiting k s'.
Proof.
  intros Hr [Hb Hp]. split; [by eapply base_stable|]. intros i p rc Hi. destruct (Hp i p rc Hi) as [H1 H2].
  split; intros Hk; [by eapply rlu_passed_stable; eauto|by eapply noted_stable; eauto].
Qed.

(** A change of the entry [k] of the table. *)
Definition entry_set (k : Z) (e : wait_entry) (t : rlu_thread_data) (s : rlu_world) : rlu_world :=
  put_thr self (with_q (<[k := e]> (q_threads t)) t) s.

Lemma entry_set_q k e t i :
  q_entry (with_q (<[k := e]> (q_threads t)) t) i = if decide (k = i) then e else q_entry t i.
Proof.
  unfold q_entry. cbn. case_decide as E; [subst; by rewrite lookup_insert_eq|by rewrite lookup_insert_ne].
Qed.
Lemma entry_set_other k e t s p : p ≠ self → r_thr (entry_set k e t s) !! p = r_thr s !! p.
Proof. intros Hp. cbn. by rewrite lookup_insert_ne. Qed.

Lemma entry_set_base k e t s :
  base_ok s → r_thr s !! self = Some t →
  (truth (is_wait e) = true → ∃ p, g_rlu_threads s !! k = Some p ∧ p ≠ NULL) → base_ok (entry_set k e t s).
Proof.
  intros (Hn0 & Hreg & t' & Ht & Hid & Hv & Hnq & Hw) Ht' He. rewrite Ht in Ht'. injection Ht' as ->.
  split; [done|]. split.
  - intros i p Hi Hp. destruct (decide (p = self)) as [->|]; [by eexists; apply put_thr_lookup|].
    rewrite entry_set_other //. by eapply Hreg.
  - eexists. split; [apply put_thr_lookup|]. split_and!; [done..|]. intros i. rewrite entry_set_q.
    case_decide as E; [subst; apply He|apply Hw].
Qed.
Lemma entry_set_there k e t s i p rc : p ≠ self → there i p rc s → there i p rc (entry_set k e t s).
Proof. intros Hp [Hi Hu]. split; [done|]. by rewrite entry_set_other. Qed.
Lemma entry_set_passed k e t s p rc : p ≠ self → passed p rc s → passed p rc (entry_set k e t s).
Proof. intros Hp Hu. unfold passed. by rewrite entry_set_other. Qed.
Lemma entry_set_noted k e t s i p rc :
  r_thr s !! self = Some t → p ≠ self → i ≠ k → noted i p rc s → noted i p rc (entry_set k e t s).
Proof.
  intros Ht Hp Hi [Hth Hc]. split; [by apply entry_set_there|]. destruct Hc as [Hl|(t' & Ht' & Hw & Hrc)].
  - left. by rewrite entry_set_other.
  - right. rewrite Ht in Ht'. injection Ht' as <-. eexists. split; [apply put_thr_lookup|]. rewrite entry_set_q.
    by rewrite decide_False.
Qed.

Notation safely := (safe rlu_rely rlu_guar True).

(** The accesses of the two loops, from a stable property to another. *)
Section accesses.
Context {B : Type} (P : rlu_world → Prop) (Q : B → rlu_world → Prop) (s : rlu_world).
Context (HP : ∀ s s', rlu_rely s s' → P s → P s') (HQ : ∀ b s s', rlu_rely s s' → Q b s → Q b s').
Context (Hs : P s).

Lemma safe_rd (f : rlu_world → B) : (∀ s, P s → Q (f s) s) → safely (rd f) Q s.
Proof. intros H. apply (safe_stable _ _ _ P); [done..|]. intros s1 H1. split; [by left|by apply H]. Qed.

Lemma safe_th_get (get : rlu_thread_data → B) p :
  (∀ s, P s → ∃ t, r_thr s !! p = Some t ∧ Q (get t) s) → safely (th_get get p) Q s.
Proof.
  intros H. apply (safe_stable _ _ _ P); [done..|]. intros s1 H1. destruct (H s1 H1) as (t & -> & HQ1).
  split; [by left|done].
Qed.
End accesses.

Lemma safe_q_upd (P Q : rlu_world → Prop) s k f :
  (∀ s s', rlu_rely s s' → P s → P s') → (∀ s s', rlu_rely s s' → Q s → Q s') → P s → 0 ≤ k < RLU_MAX_THREADS →
  (∀ s, P s → ∃ t, r_thr s !! self = Some t ∧ Q (entry_set k (f (q_entry t k)) t s)) →
  safely (q_upd self k f) (λ _, Q) s.
Proof.
  intros HP HQ Hs Hk H. unfold q_upd.
  rewrite (proj2 (Z.leb_le 0 k)); [lia|]. rewrite (proj2 (Z.ltb_lt k _)); [lia|]. cbn [andb].
  apply (safe_stable _ _ _ P); [done|done|done|].
  intros s1 H1. destruct (H s1 H1) as (t & Ht & HQ1). rewrite Ht. split; [|exact HQ1].
  right. exists t, (<[k := f (q_entry t k)]> (q_threads t)). split; [done|]. done.
Qed.

(** ** Filling the table *)

Lemma filling_set k e t s :
  filling k s → r_thr s !! self = Some t →
  (truth (is_wait e) = true → ∃ p, g_rlu_threads s !! k = Some p ∧ p ≠ NULL) → filling k (entry_set k e t s).
Proof.
  intros [Hb Hp] Ht He. split; [by apply entry_set_base|]. intros i p rc Hi. destruct (Hp i p rc Hi) as [H1 H2].
  destruct (Hpast i p rc Hi) as (_ & _ & Hself & _). split; [by apply entry_set_there|].
  intros Hk. apply entry_set_noted; [done|done|lia|auto].
Qed.

(** The thread [k] is registered at [p], and its run counter was [rc]. *)
Definition read_rc (k p rc : Z) (s : rlu_world) : Prop :=
  filling k s ∧ g_rlu_threads s !! k = Some p ∧ p ≠ NULL ∧
  ∀ p' rc0, past k p' rc0 → p' = p ∧ rc0 ≤ rc ∧ ∃ u, r_thr s !! p = Some u ∧ rc ≤ run_counter u.
Definition stored_rc (k p rc : Z) (s : rlu_world) : Prop :=
  read_rc k p rc s ∧ ∃ t, r_thr s !! self = Some t ∧ q_run_counter (q_entry t k) = rc.

Lemma read_rc_stable k p rc s s' : rlu_rely s s' → read_rc k p rc s → read_rc k p rc s'.
Proof.
  intros Hr (Hf & Hg & Hn & H). split; [by eapply filling_stable|]. destruct Hr as (_ & Hg' & _ & Ht).
  split; [by apply Hg'|]. split; [done|]. intros p' rc0 Hp. destruct (H p' rc0 Hp) as (-> & Hle & u & Hu & Hrc).
  split; [done|]. split; [done|]. destruct (Ht p u Hu) as (u' & Hu' & H1 & _). exists u'. split; [done|lia].
Qed.
Lemma stored_rc_stable k p rc s s' : rlu_rely s s' → stored_rc k p rc s → stored_rc k p rc s'.
Proof.
  intros Hr [Hf (t & Ht & Hq)]. split; [by eapply read_rc_stable|]. destruct Hr as (_ & _ & _ & H).
  destruct (H self t Ht) as (t' & Ht' & _ & _ & Hs). destruct (Hs eq_refl) as (Eq & _). exists t'.
  unfold q_entry in *. by rewrite Eq.
Qed.

Lemma read_rc_set k p rc e t s :
  read_rc k p rc s → r_thr s !! self = Some t → read_rc k p rc (entry_set k e t s).
Proof.
  intros (Hf & Hg & Hn & H) Ht. split; [by apply filling_set; eauto|]. split; [done|]. split; [done|].
  intros p' rc0 Hp. destruct (H p' rc0 Hp) as (-> & Hle & Hu). destruct (Hpast _ _ _ Hp) as (_ & _ & Hself & _).
  by rewrite entry_set_other.
Qed.

(** The thread [k] is noted, or need not be. *)
Lemma filling_next k s :
  filling k s → (∀ p rc, past k p rc → noted k p rc s) → filling (k + 1) s.
Proof.
  intros [Hb Hp] Hk. split; [done|]. intros i p rc Hi. destruct (Hp i p rc Hi) as [H1 H2]. split; [done|].
  intros Hlt. destruct (decide (i = k)) as [->|]; [by apply Hk|]. apply H2. lia.
Qed.

Lemma stored_even k p rc s : stored_rc k p rc s → Z.odd rc = false → filling (k + 1) s.
Proof.
  intros [(Hf & Hg & Hn & H) _] Hev. apply filling_next; [done|]. intros p' rc0 Hp.
  destruct (H p' rc0 Hp) as (-> & Hle & u & Hu & Hrc). destruct (Hpast _ _ _ Hp) as (_ & _ & _ & _ & Hodd).
  destruct Hf as [_ Hf]. split; [exact (proj1 (Hf _ _ _ Hp))|]. left. exists u. split; [done|].
  assert (rc0 ≠ rc) by congruence. lia.
Qed.

Lemma stored_odd k p rc t s :
  stored_rc k p rc s → r_thr s !! self = Some t →
  filling (k + 1) (entry_set k ((q_entry t k) <| is_wait := 1 |>) t s).
Proof.
  intros [Hr (t' & Ht' & Hq)] Ht. rewrite Ht in Ht'. injection Ht' as <-.
  pose proof (read_rc_set k p rc ((q_entry t k) <| is_wait := 1 |>) t s Hr Ht) as (Hf & Hg & Hn & H).
  apply filling_next; [done|]. intros p' rc0 Hp. destruct (H p' rc0 Hp) as (-> & Hle & u & Hu & Hrc).
  destruct Hf as [_ Hf]. split; [exact (proj1 (Hf _ _ _ Hp))|]. destruct (decide (rc0 = rc)) as [->|].
  - right. eexists. split; [apply put_thr_lookup|]. rewrite entry_set_q decide_True //.
  - left. exists u. split; [done|lia].
Qed.

Lemma safe_ret_stable {B} (P : rlu_world → Prop) (b : B) (Q : B → rlu_world → Prop) s :
  (∀ s s', rlu_rely s s' → P s → P s') → P s → (∀ s, P s → Q b s) → safely (mret b) Q s.
Proof.
  intros HP Hs H. apply safe_ret. intros s1 Hr. apply H. eapply (rtc_stable rlu_rely P); [|exact Hr|exact Hs].
  intros x y Hx HR. by eapply HP.
Qed.

(** One round of [rlu_init_quiescence]. *)
Lemma safe_init_round k s :
  0 ≤ k → filling k s →
  safely (n ← rd g_rlu_cur_threads;
    if k <? n then
      q_upd self k (λ e, e <| is_wait := 0 |>);;
      i ← th_get uniq_id self;
      if k =? i then mret (inl (k + 1)) else
      p ← rd (λ r, default NULL (g_rlu_threads r !! k));
      if p =? NULL then mret (inl (k + 1)) else
      rc ← th_get run_counter p;
      q_upd self k (λ e, e <| q_run_counter := rc |>);;
      when (Z.odd rc) (q_upd self k (λ e, e <| is_wait := 1 |>));;
      mret (inl (k + 1))
    else mret (inr ()))
    (λ r s', match r with inl k' => k' = k + 1 ∧ filling (k + 1) s' | inr _ => n0 ≤ k ∧ filling k s' end) s.
Proof.
  intros Hk Hf. apply safe_bind.
  eapply safe_mono; [|apply (safe_rd (filling k) (λ n s, n0 ≤ n ≤ RLU_MAX_THREADS ∧ filling k s)); [apply filling_stable| |done|]].
  2:{ intros n s1 s2 Hr [? ?]. split; [done|]. by eapply filling_stable. }
  2:{ intros s1 H1. split; [by destruct H1 as [[? _] _]|done]. }
  cbv beta. intros n s1 [Hn H1]. destruct (Z.ltb_spec k n) as [Hkn|Hkn].
  2:{ apply (safe_ret_stable (filling k)); [apply filling_stable|done|]. intros s2 H2. split; [lia|done]. }
  assert (0 ≤ k < RLU_MAX_THREADS) as Hkr by lia.
  apply safe_bind. eapply safe_mono; [|apply (safe_q_upd (filling k) (filling k)); [apply filling_stable..|done|done|]].
  2:{ intros s2 H2. pose proof H2 as [(_ & _ & t & Ht & _) _]. exists t. split; [done|]. by apply filling_set. }
  cbv beta. intros [] s2 H2.
  apply safe_bind. eapply safe_mono; [|apply (safe_th_get (filling k) (λ i s, i = id ∧ filling k s)); [apply filling_stable| |done|]].
  2:{ intros i s3 s4 Hr [? ?]. split; [done|]. by eapply filling_stable. }
  2:{ intros s3 H3. pose proof H3 as [(_ & _ & t & Ht & Hid & _) _]. by exists t. }
  cbv beta. intros i s3 [-> H3]. destruct (Z.eqb_spec k id) as [->|Hkid].
  { apply (safe_ret_stable (filling id)); [apply filling_stable|done|]. intros s4 H4. split; [done|].
    apply filling_next; [done|]. intros p rc Hp. by destruct (Hpast _ _ _ Hp) as (_ & ? & _). }
  apply safe_bind. eapply safe_mono.
  2:{ apply (safe_rd (filling k) (λ p s, filling k s ∧ (p = NULL → filling (k + 1) s) ∧
        (p ≠ NULL → g_rlu_threads s !! k = Some p))); [apply filling_stable| |done|].
      - intros p s4 s5 Hr (? & H4 & H5). split; [by eapply filling_stable|]. split.
        + intros Hp. eapply filling_stable; [done|auto].
        + intros Hp. destruct Hr as (_ & Hg & _). auto.
      - intros s4 H4. split; [done|]. split.
        + intros Hp. apply filling_next; [done|]. intros p rc Hpa. destruct H4 as [_ H4].
          destruct (H4 _ _ _ Hpa) as [[Hg _] _]. rewrite Hg in Hp. cbn in Hp.
          by destruct (Hpast _ _ _ Hpa) as (_ & _ & _ & ? & _).
        + intros Hp. by destruct (g_rlu_threads s4 !! k). }
  cbv beta. intros p s4 (H4 & Hnull & Hreg). destruct (Z.eqb_spec p NULL) as [Hp|Hp].
  { apply (safe_ret_stable (filling (k + 1))); [apply filling_stable|auto|]. done. }
  apply safe_bind. eapply safe_mono.
  2:{ apply (safe_th_get (λ s, filling k s ∧ g_rlu_threads s !! k = Some p) (λ rc, read_rc k p rc)).
      - intros s5 s6 Hr [? Hg]. split; [by eapply filling_stable|]. destruct Hr as (_ & Hg' & _). auto.
      - intros rc. apply read_rc_stable.
      - auto.
      - intros s5 [H5 Hg]. pose proof H5 as [(_ & Hall & _) Hth]. destruct (Hall k p Hg Hp) as [u Hu]. exists u.
        split; [done|]. split; [done|]. split; [done|]. split; [done|]. intros p' rc0 Hpa.
        destruct (Hth _ _ _ Hpa) as [(Hg' & u' & Hu' & Hle & _) _]. rewrite Hg in Hg'. injection Hg' as <-.
        rewrite Hu in Hu'. injection Hu' as <-. split; [done|]. split; [done|]. by exists u. }
  cbv beta. intros rc s5 H5.
  apply safe_bind. eapply safe_mono; [|apply (safe_q_upd (read_rc k p rc) (stored_rc k p rc)); [apply read_rc_stable|apply stored_rc_stable|done|done|]].
  2:{ intros s6 H6. pose proof H6 as [[(_ & _ & t & Ht & _) _] _]. exists t. split; [done|]. split; [by apply read_rc_set|].
      eexists. split; [apply put_thr_lookup|]. by rewrite entry_set_q decide_True. }
  cbv beta. intros [] s6 H6. apply safe_bind.
  eapply (safe_mono _ _ _ _ (λ _, filling (k + 1))).
  { intros [] s7 H7. apply (safe_ret_stable (filling (k + 1))); [apply filling_stable|done|]. done. }
  unfold when. destruct (Z.odd rc) eqn:Eo.
  - apply (safe_q_upd (stored_rc k p rc)); [apply stored_rc_stable|apply filling_stable|done|done|].
    intros s7 H7. pose proof H7 as [[[(_ & _ & t & Ht & _) _] _] _]. exists t. split; [done|]. by eapply stored_odd.
  - apply (safe_ret_stable (stored_rc k p rc)); [apply stored_rc_stable|done|]. intros s7 H7. by eapply stored_even.
Qed.

Lemma safe_init_quiescence fuel k s :
  0 ≤ k → filling k s →
  safely (loop fuel (λ th_id,
    n ← rd g_rlu_cur_threads;
    if th_id <? n then
      q_upd self th_id (λ e, e <| is_wait := 0 |>);;
      id ← th_get uniq_id self;
      if th_id =? id then mret (inl (th_id + 1)) else
      p ← rd (λ r, default NULL (g_rlu_threads r !! th_id));
      if p =? NULL then mret (inl (th_id + 1)) else
      rc ← th_get run_counter p;
      q_upd self th_id (λ e, e <| q_run_counter := rc |>);;
      when (Z.odd rc) (q_upd self th_id (λ e, e <| is_wait := 1 |>));;
      mret (inl (th_id + 1))
    else mret (inr ())) k) (λ _, waiting 0) s.
Proof.
  revert k s. induction fuel as [|fuel IH]; intros k s Hk Hf; [by intros s1 _|].
  apply safe_loop_S. eapply safe_mono; [|by apply safe_init_round]. cbv beta. intros [k'|[]] s1.
  - intros [-> H1]. apply IH; [lia|done].
  - intros [Hn H1] s2 Hr.
    assert (filling k s2) as [Hb Hp].
    { eapply (rtc_stable rlu_rely (filling k)); [|exact Hr|exact H1]. intros x y Hx HR. by eapply filling_stable. }
    split; [done|]. intros i p rc Hi. destruct (Hpast _ _ _ Hi) as (Hin & _). destruct (Hp _ _ _ Hi) as [_ H]. split; [lia|].
    intros _. apply H. lia.
Qed.

(** ** Working the table off *)

Lemma waiting_set k e t s :
  waiting (k + 1) s → r_thr s !! self = Some t → truth (is_wait e) = false → waiting (k + 1) (entry_set k e t s).
Proof.
  intros [Hb Hp] Ht He. split; [apply entry_set_base; [done|done|by rewrite He]|].
  intros i p rc Hi. destruct (Hp i p rc Hi) as [H1 H2]. destruct (Hpast i p rc Hi) as (_ & _ & Hself & _).
  split; intros Hk; [by apply entry_set_passed; auto|]. apply entry_set_noted; [done|done|lia|auto].
Qed.

Lemma waiting_next k s :
  waiting k s → (∀ p rc, past k p rc → passed p rc s) → waiting (k + 1) s.
Proof.
  intros [Hb Hp] Hk. split; [done|]. intros i p rc Hi. destruct (Hp i p rc Hi) as [H1 H2]. split; [|intros; apply H2; lia].
  intros Hlt. destruct (decide (i = k)) as [->|]; [by apply Hk|]. apply H1. lia.
Qed.

(** The entry [e] of the table has been read. *)
Definition read_entry (k : Z) (e : wait_entry) (s : rlu_world) : Prop :=
  waiting k s ∧ (truth (is_wait e) = false → waiting (k + 1) s) ∧
  (truth (is_wait e) = true → ∃ p, g_rlu_threads s !! k = Some p ∧ p ≠ NULL) ∧
  ∀ p rc, past k p rc → (∃ u, r_thr s !! p = Some u ∧ rc < run_counter u) ∨ q_run_counter e = rc.

Lemma read_entry_stable k e s s' : rlu_rely s s' → read_entry k e s → read_entry k e s'.
Proof.
  intros Hr (H1 & H2 & H3 & H4). split; [by eapply waiting_stable|]. split; [|split].
  - intros He. eapply waiting_stable; [done|auto].
  - intros He. destruct (H3 He) as (p & Hp & Hn). exists p. destruct Hr as (_ & Hg & _). auto.
  - intros p rc Hp. destruct (H4 p rc Hp) as [(u & Hu & Hlt)|]; [left|by right].
    destruct Hr as (_ & _ & _ & Ht). destruct (Ht p u Hu) as (u' & Hu' & Hle & _). exists u'. split; [done|lia].
Qed.

Lemma waiting_read k t s :
  waiting k s → r_thr s !! self = Some t → read_entry k (q_entry t k) s.
Proof.
  intros [Hb Hp] Ht. pose proof Hb as (_ & _ & t' & Ht' & _ & _ & _ & Hw). rewrite Ht in Ht'. injection Ht' as <-.
  split; [done|]. split; [|split].
  - intros He. apply waiting_next; [done|]. intros p rc Hpa. destruct (Hp _ _ _ Hpa) as [_ Hn].
    destruct (Hn ltac:(lia)) as [_ [(u & Hu & Hlt)|(t' & Ht' & Hw' & _)]]; [exists u; auto|].
    rewrite Ht in Ht'. injection Ht' as <-. congruence.
  - apply Hw.
  - intros p rc Hpa. destruct (Hp _ _ _ Hpa) as [_ Hn].
    destruct (Hn ltac:(lia)) as [_ [Hl|(t' & Ht' & _ & Hq)]]; [by left|right].
    rewrite Ht in Ht'. by injection Ht' as <-.
Qed.

(** The run counter or the version of the thread shows that it has passed. *)
Lemma read_entry_rc k e p u s :
  read_entry k e s → g_rlu_threads s !! k = Some p → r_thr s !! p = Some u →
  q_run_counter e ≠ run_counter u → waiting (k + 1) s.
Proof.
  intros (Hw & _ & _ & H4) Hg Hu Hne. apply waiting_next; [done|]. intros p' rc Hpa. destruct Hw as [_ Hp].
  destruct (Hp _ _ _ Hpa) as [_ Hn]. destruct (Hn ltac:(lia)) as [(Hg' & u' & Hu' & Hle & _) _].
  rewrite Hg in Hg'. injection Hg' as <-. rewrite Hu in Hu'. injection Hu' as <-. exists u. split; [done|]. left.
  destruct (H4 _ _ Hpa) as [(u' & Hu' & Hlt)|Hq]; [rewrite Hu in Hu'; by injection Hu' as <-|]. lia.
Qed.
Lemma read_entry_version k e p u s :
  read_entry k e s → g_rlu_threads s !! k = Some p → r_thr s !! p = Some u →
  limit ≤ wrap64 (local_version u) → waiting (k + 1) s.
Proof.
  intros (Hw & _ & _ & H4) Hg Hu Hv. apply waiting_next; [done|]. intros p' rc Hpa. destruct Hw as [_ Hp].
  destruct (Hp _ _ _ Hpa) as [_ Hn]. destruct (Hn ltac:(lia)) as [(Hg' & u' & Hu' & Hle & Hv0) _].
  rewrite Hg in Hg'. injection Hg' as <-. rewrite Hu in Hu'. injection Hu' as <-. exists u. split; [done|]. right.
  unfold wrap64 in Hv. pose proof (Z.mod_le (local_version u) 18446744073709551616 Hv0 ltac:(lia)). lia.
Qed.

(** Leaving the loop: the entry is cleared. *)
Lemma rlu_safe_clear k {B} (b : B) s :
  0 ≤ k < RLU_MAX_THREADS → waiting (k + 1) s →
  safely (q_upd self k (λ e, e <| is_wait := 0 |>);; mret b) (λ b' s', b' = b ∧ waiting (k + 1) s') s.
Proof.
  intros Hk Hw. apply safe_bind.
  eapply safe_mono; [|apply (safe_q_upd (waiting (k + 1)) (waiting (k + 1))); [apply waiting_stable..|done|done|]].
  2:{ intros s1 H1. pose proof H1 as [(_ & _ & t & Ht & _) _]. exists t. split; [done|]. by apply waiting_set. }
  cbv beta. intros [] s1 H1. by apply (safe_ret_stable (waiting (k + 1))); [apply waiting_stable|..].
Qed.

Definition at_p (k p : Z) (e : wait_entry) (s : rlu_world) : Prop :=
  read_entry k e s ∧ g_rlu_threads s !! k = Some p ∧ p ≠ NULL.
Lemma at_p_stable k p e s s' : rlu_rely s s' → at_p k p e s → at_p k p e s'.
Proof.
  intros Hr (? & Hg & ?). split; [by eapply read_entry_stable|]. destruct Hr as (_ & Hg' & _). auto.
Qed.
Lemma at_p_thread k p e s : at_p k p e s → ∃ u, r_thr s !! p = Some u.
Proof. intros (([(_ & Hreg & _) _] & _) & Hg & Hn). exact (Hreg k p Hg Hn). Qed.

Lemma safe_wait_thread fuel k iters s :
  0 ≤ k < RLU_MAX_THREADS → waiting k s →
  safely (rlu_wait_thread fuel self k limit iters) (λ _, waiting (k + 1)) s.
Proof.
  intros Hk. unfold rlu_wait_thread. revert iters s. induction fuel as [|fuel IH]; intros iters s Hw; [by intros s1 _|].
  assert (∀ (b : Z) s1, waiting (k + 1) s1 → ∀ s2, rtc rlu_rely s1 s2 → waiting (k + 1) s2) as Hend.
  { intros _ s1 H1 s2 Hr. eapply (rtc_stable rlu_rely (waiting (k + 1))); [|exact Hr|exact H1]. intros x y Hx HR. by eapply waiting_stable. }
  apply safe_loop_S, safe_bind.
  eapply safe_mono; [|apply (safe_th_get (waiting k) (read_entry k)); [apply waiting_stable|intros e; apply read_entry_stable|done|]].
  2:{ intros s1 H1. pose proof H1 as [(_ & _ & t & Ht & _) _]. exists t. split; [done|]. by apply waiting_read. }
  cbv beta. intros e s1 H1. destruct (truth (is_wait e)) eqn:Ee.
  2:{ apply (safe_ret_stable (read_entry k e)); [apply read_entry_stable|done|]. intros s2 (_ & H2 & _). by apply Hend, H2. }
  apply safe_bind. eapply safe_mono; [|apply (safe_rd (read_entry k e) (λ p, at_p k p e)); [apply read_entry_stable|intros p; apply at_p_stable|done|]].
  2:{ intros s2 H2. pose proof H2 as (_ & _ & H3 & _). destruct (H3 Ee) as (p & Hp & Hn). rewrite Hp. by split. }
  cbv beta. intros p s2 H2. apply safe_bind.
  eapply safe_mono.
  2:{ apply (safe_th_get (at_p k p e) (λ rc s, at_p k p e s ∧ (q_run_counter e ≠ rc → waiting (k + 1) s))); [apply at_p_stable| |done|].
      - intros rc s3 s4 Hr [? H3]. split; [by eapply at_p_stable|]. intros Hne. eapply waiting_stable; [done|auto].
      - intros s3 H3. destruct (at_p_thread _ _ _ _ H3) as [u Hu]. exists u. split; [done|]. split; [done|].
        intros Hne. destruct H3 as (H3 & Hg & _). by eapply read_entry_rc. }
  cbv beta. intros rc s3 [H3 Hrc]. destruct (Z.eqb_spec (q_run_counter e) rc) as [Erc|Erc]; cbn [negb].
  2:{ eapply safe_mono; [|by apply rlu_safe_clear; [|apply Hrc]]. cbv beta. intros b s4 [-> H4]. by apply Hend. }
  unfold truth at 1. rewrite (proj2 (Z.eqb_neq limit 0)); [lia|]. cbn [negb]. apply safe_bind, safe_bind.
  eapply safe_mono.
  2:{ apply (safe_th_get (at_p k p e) (λ v s, at_p k p e s ∧ (limit ≤ wrap64 v → waiting (k + 1) s))); [apply at_p_stable| |done|].
      - intros v s4 s5 Hr [? H4]. split; [by eapply at_p_stable|]. intros Hne. eapply waiting_stable; [done|auto].
      - intros s4 H4. destruct (at_p_thread _ _ _ _ H4) as [u Hu]. exists u. split; [done|]. split; [done|].
        intros Hne. destruct H4 as (H4 & Hg & _). by eapply read_entry_version. }
  cbv beta. intros v s4 [H4 Hv].
  apply (safe_ret_stable (λ s, at_p k p e s ∧ (limit ≤ wrap64 v → waiting (k + 1) s))); [|done|].
  { intros s5 s6 Hr [? H5]. split; [by eapply at_p_stable|]. intros Hne. eapply waiting_stable; [done|auto]. }
  intros s5 [H5 Hv5]. destruct (Z.ltb_spec (wrap64 v) limit) as [Hlt|Hge].
  - apply (safe_ret_stable (at_p k p e)); [apply at_p_stable|done|]. intros s6 ((H6 & _) & _). by apply IH.
  - eapply safe_mono; [|by apply rlu_safe_clear; [|apply Hv5]]. cbv beta. intros b s6 [-> H6]. by apply Hend.
Qed.

Lemma safe_wait_for_quiescence fuel s :
  waiting 0 s → safely (rlu_wait_for_quiescence fuel self limit) (λ _ s', ∀ i p rc, past i p rc → passed p rc s') s.
Proof.
  intros Hw. unfold rlu_wait_for_quiescence. apply safe_bind.
  eapply safe_mono; [|apply (safe_rd (waiting 0) (λ n s, n0 ≤ n ≤ RLU_MAX_THREADS ∧ waiting 0 s)); [apply waiting_stable| |done|]].
  2:{ intros n s1 s2 Hr [? ?]. split; [done|]. by eapply waiting_stable. }
  2:{ intros s1 H1. split; [by destruct H1 as [[? _] _]|done]. }
  cbv beta. intros n s1 [Hn H1]. apply safe_bind.
  assert (∀ m k iters s, 0 ≤ k → k + Z.of_nat m ≤ RLU_MAX_THREADS → waiting k s →
    safely (iterate m (λ '(th_id, iters),
      iters ← rlu_wait_thread fuel self th_id limit iters;
      mret (th_id + 1, iters)) (k, iters)) (λ _, waiting (k + Z.of_nat m)) s) as Hloop.
  { clear s s1 Hw H1. intros m. induction m as [|m IH]; intros k iters s Hk Hm Hw.
    - apply (safe_ret_stable (waiting k)); [apply waiting_stable|done|]. intros s1 H1. by replace (k + Z.of_nat 0) with k by lia.
    - change (iterate (S m) ?f ?c) with (f c ≫= iterate m f). cbv beta iota. apply safe_bind, safe_bind.
      eapply safe_mono; [|apply safe_wait_thread; [lia|exact Hw]]. cbv beta. intros it s1 H1.
      apply (safe_ret_stable (waiting (k + 1))); [apply waiting_stable|done|]. intros s2 H2.
      eapply safe_mono; [|apply (IH (k + 1)); [lia|lia|exact H2]]. cbv beta. intros _ s3 H3.
      by replace (k + Z.of_nat (S m)) with (k + 1 + Z.of_nat m) by lia. }
  eapply safe_mono; [|apply (Hloop (Z.to_nat n) 0 0 s1); [lia| |done]].
  2:{ destruct (Z.le_gt_cases 0 n); [lia|]. unfold RLU_MAX_THREADS. lia. }
  cbv beta. intros [k it] s2 H2.
  apply (safe_ret_stable (waiting (0 + Z.of_nat (Z.to_nat n)))); [apply waiting_stable|done|].
  intros s3 [_ H3] i p rc Hi. destruct (Hpast _ _ _ Hi) as (Hin & _). destruct (H3 _ _ _ Hi) as [H _]. apply H. lia.
Qed.
End grace.

