(* ===== verification/RluThreads.v ===== *)
(** * Threads of RLU

    Registration, and what becomes of the other threads when the handle of a
    registered thread is destroyed. *)

From S2P Require Import Prelude Rlu RluSets RluCommit.

(** ** The registration of threads *)

Definition registry (r : rlu_world) : Z * gmap Z Z := (g_rlu_cur_threads r, g_rlu_threads r).
Definition same_registry (r r' : rlu_world) : Prop := registry r' = registry r.
#[export] Instance same_registry_preorder : PreOrder same_registry.
Proof. unfold same_registry. split; [done|]. intros x y z -> ->. done. Qed.

(** The accesses keep it. *)

Ltac keep_act := apply keeps_act; intros r b r'; repeat (case_match; try done); by intros [= <- <-].

Lemma registry_th_get {V} (get : rlu_thread_data → V) p : keeps same_registry (th_get get p).
Proof. keep_act. Qed.
Lemma registry_th_upd p g : keeps same_registry (th_upd p g).
Proof. keep_act. Qed.
Lemma registry_ws_get {V} (get : obj_list → V) p ws : keeps same_registry (wset_get get p ws).
Proof. keep_act. Qed.
Lemma registry_ws_upd p ws g : keeps same_registry (wset_upd p ws g).
Proof. keep_act. Qed.
Lemma registry_at {V} (M : rlu_world → gmap Z V) a : keeps same_registry (at_ M a).
Proof. keep_act. Qed.
Lemma registry_rd {V} (g : rlu_world → V) : keeps same_registry (rd g).
Proof. keep_act. Qed.
Lemma registry_wr g : (∀ r, registry (g r) = registry r) → keeps same_registry (wr g).
Proof. intros H. apply keeps_act. intros r b r' [= <- <-]. apply H. Qed.

Ltac keep :=
  repeat first
    [ progress intros
    | apply keeps_ret | apply keeps_bind | apply keeps_when | apply keeps_iterate | apply keeps_loop
    | apply registry_th_get | apply registry_th_upd | apply registry_ws_get | apply registry_ws_upd | apply registry_at | apply registry_rd
    | (apply registry_wr; intros; reflexivity)
    | case_match ].

Lemma registry_sync fuel self : keeps same_registry (rlu_sync_and_writeback fuel self).
Proof.
  unfold rlu_sync_and_writeback, rlu_synchronize, rlu_init_quiescence, rlu_wait_for_quiescence, rlu_wait_thread.
  unfold rlu_writeback_write_sets_and_unlock, for_counter, rlu_reset_write_set, rlu_reset_writer_locks.
  unfold rlu_writeback_write_set, rlu_process_free, q_upd.
  keep. all: unfold rlu_bytes, UNLOCK, free_node, rlu_mfree; keep_act.
Qed.

(** ** Destroying a handle *)

(** The body of the loop of [rlu_init_quiescence]. *)
Definition init_q_body (self th_id : Z) : rprog (Z + unit) :=
  n ← rd g_rlu_cur_threads;
  if th_id <? n then
    q_upd self th_id (λ e, e <| is_wait := 0 |>);;
    id ← th_get uniq_id self;
    if th_id =? id then mret (inl (th_id + 1)) else
    p ← rd (λ r, default NULL (g_rlu_threads r !! th_id));
    if p =? NULL then mret (inl (th_id + 1)) else
    rc ← th_get run_counter p;
    q_upd self th_id (λ e, e <| q_run_counter := rc |>);;
    when (Z.odd rc) (q_upd self th_id (λ e, e <| is_wait := 1 |>));;
    mret (inl (th_id + 1))
  else mret (inr ()).

(** A round changes the table of the thread, or faults; it faults if the
    structure of the registered thread is gone. *)
Lemma init_q_round_cases r self t q k :
  0 ≤ k < g_rlu_cur_threads r → g_rlu_cur_threads r ≤ RLU_MAX_THREADS →
  (run (init_q_body self k) (put_thr self (with_q q t) r) = Fault ∨
   ∃ q', run (init_q_body self k) (put_thr self (with_q q t) r) = Done (inl (k + 1)) (put_thr self (with_q q' t) r)) ∧
  (∀ p, k ≠ uniq_id t → g_rlu_threads r !! k = Some p → p ≠ NULL → p ≠ self → r_thr r !! p = None →
   run (init_q_body self k) (put_thr self (with_q q t) r) = Fault).
Proof.
  intros Hk Hmax. unfold init_q_body. rewrite run_bind run_rd. cbn [outcome_bind].
  change (g_rlu_cur_threads (put_thr self (with_q q t) r)) with (g_rlu_cur_threads r).
  rewrite (proj2 (Z.ltb_lt _ _) (proj2 Hk)).
  erewrite run_bind_done; [|apply run_q_upd; [apply put_thr_lookup|lia]]. rewrite put_thr_thr with_q_upd.
  set (q1 := <[k := _]> q). rget. change (uniq_id (with_q q1 t)) with (uniq_id t).
  destruct (Z.eqb_spec k (uniq_id t)) as [Hid|Hid]; [split; [right; by exists q1|done]|].
  rewrite run_bind run_rd. cbn [outcome_bind].
  change (g_rlu_threads (put_thr self (with_q q1 t) r)) with (g_rlu_threads r).
  destruct (Z.eqb_spec (default NULL (g_rlu_threads r !! k)) NULL) as [Hp|Hp].
  { split; [right; by exists q1|]. intros p _ Hg Hn. by rewrite Hg in Hp. }
  destruct (g_rlu_threads r !! k) as [p|]; [|done]. change (default NULL (Some p)) with p in *.
  rewrite run_bind. destruct (r_thr (put_thr self (with_q q1 t) r) !! p) as [u|] eqn:Hu.
  2:{ assert (run (th_get run_counter p) (put_thr self (with_q q1 t) r) = Fault) as -> by (unfold th_get; by rewrite run_act Hu).
      split; [by left|done]. }
  rewrite (run_th_get _ _ _ Hu). cbn [outcome_bind]. split.
  - right. erewrite run_bind_done; [|apply run_q_upd; [apply put_thr_lookup|lia]]. rewrite put_thr_thr with_q_upd.
    unfold when. destruct (Z.odd (run_counter u)).
    + erewrite run_bind_done; [|apply run_q_upd; [apply put_thr_lookup|lia]]. rewrite put_thr_thr with_q_upd. by eexists.
    + rewrite run_bind run_ret. by eexists.
  - intros p' _ [= <-] _ Hself Hgone. cbn in Hu. by rewrite lookup_insert_ne // Hgone in Hu.
Qed.

(** [rlu_init_quiescence] faults on a registered thread whose structure is
    gone. *)
Lemma init_quiescence_faults fuel r self t i p :
  r_thr r !! self = Some t → 0 ≤ i < g_rlu_cur_threads r → g_rlu_cur_threads r ≤ RLU_MAX_THREADS → i ≠ uniq_id t →
  g_rlu_threads r !! i = Some p → p ≠ NULL → p ≠ self → r_thr r !! p = None → (Z.to_nat i < fuel)%nat →
  run (rlu_init_quiescence fuel self) r = Fault.
Proof.
  intros Ht Hi Hmax Hne Hg Hp Hself Hgone Hf.
  assert (∀ m f k q, m = Z.to_nat (i - k) → 0 ≤ k ≤ i → (m < f)%nat →
    run (loop f (init_q_body self) k) (put_thr self (with_q q t) r) = Fault) as Hloop.
  { clear Hf. intros m. induction m as [|m IH]; intros f k q Hm Hk Hf; (destruct f as [|f]; [lia|]); rewrite run_loop_S.
    all: destruct (init_q_round_cases r self t q k ltac:(lia) Hmax) as [Hc Hgo].
    - assert (k = i) as -> by lia. by rewrite (Hgo p).
    - destruct Hc as [->|(q' & ->)]; [done|]. cbn [outcome_bind]. apply IH; lia. }
  specialize (Hloop _ fuel 0 (q_threads t) eq_refl ltac:(lia) ltac:(rewrite Z.sub_0_r; lia)).
  rewrite put_thr_id in Hloop; [|exact Hloop]. rewrite Ht. by destruct t.
Qed.

(** Destroying the handle of a thread frees its structure but leaves it
    registered: the next commit of any other thread that has something to
    write back reads the freed structure. *)
Theorem rlu_deleted_thread_faults fuel fuel' r r1 a b i tb :
  g_rlu_threads r !! i = Some a → a ≠ NULL → 0 ≤ i < g_rlu_cur_threads r → g_rlu_cur_threads r ≤ RLU_MAX_THREADS →
  run (rlu_handle_delete fuel a) r = Done () r1 →
  r_thr r1 !! b = Some tb → uniq_id tb ≠ i → Z.odd (run_counter tb) = false → is_no_quiescence tb = 0 →
  ws_head_counter tb ≠ ws_tail_counter tb → (Z.to_nat i < fuel')%nat →
  run (rlu_sync_and_writeback fuel' b) r1 = Fault.
Proof.
  intros Hg Ha Hi Hmax Hdel Hb Hid Hev Hnq Hws Hf.
  unfold rlu_handle_delete, rlu_thread_finish in Hdel.
  apply run_bind_inv in Hdel as ([] & r2 & Hfin & Hdel). apply run_bind_inv in Hfin as ([] & r3 & Hf1 & Hf2).
  rewrite run_wr in Hdel. injection Hdel as <-.
  pose proof (eq_trans (keeps_run _ _ _ _ _ (registry_sync _ _) Hf2) (keeps_run _ _ _ _ _ (registry_sync _ _) Hf1)) as Ek. injection Ek as Ecur Eg.
  assert (b ≠ a) as Hba. { intros ->. cbn in Hb. by rewrite lookup_delete_eq in Hb. }
  set (r1 := r2 <| r_thr ::= delete a |>) in *.
  unfold rlu_sync_and_writeback. erewrite run_bind_done.
  2:{ apply run_assert. rget. by rewrite run_ret Hev. }
  rget. rget. rewrite (proj2 (Z.eqb_neq _ _)); [lia|]. rget. cbv zeta. rewrite run_bind run_rd. cbn [outcome_bind].
  rupd. set (tb1 := tb <| writer_version := to_long (g_rlu_writer_version r1 + 1) |>). rewrite run_bind run_wr. cbn [outcome_bind].
  rewrite run_bind. unfold rlu_synchronize. rewrite run_bind.
  erewrite run_th_get; [|apply put_thr_lookup]. cbn [outcome_bind].
  change (is_no_quiescence tb1) with (is_no_quiescence tb). rewrite Hnq. cbn [truth Z.eqb negb]. rewrite run_bind.
  erewrite (init_quiescence_faults fuel' _ b tb1 i a); [done|apply put_thr_lookup|..]; try done.
  - cbn. by rewrite Ecur.
  - cbn. by rewrite Ecur.
  - cbn. by rewrite Eg.
  - cbn. by rewrite lookup_insert_ne // lookup_delete_eq.
Qed.
