(* ===== verification/RluExamples.v ===== *)
(** * RLU at work

    Concrete states for the statements on RLU: two threads register and an
    object is allocated; the first thread locks it, writes to the copy, and
    commits or aborts. *)

From S2P Require Import Prelude Rlu RluSets RluCommit RluView RluThreads Concur.

(** The state a program leaves. *)
Definition rafter {A} (p : rprog A) (r : rlu_world) : rlu_world :=
  match run p r with Done _ r' => r' | _ => r end.

Definition th1 : Z := 0x40000000.
Definition th2 : Z := 0x50000000.
Definition robj : Z := 0x10010.

Definition rbare : rlu_world := RluWorld ∅ ∅ ∅ ∅ 0 0 0 ∅ ∅ 0 0 [0x10000; 0x20000] ∅ 0.

(** [rlu_init], two threads, an object of 16 bytes. *)
Definition rbooted : rlu_world :=
  rafter (rlu_init;; rlu_thread_init th1;; rlu_thread_init th2;; rlu_alloc 16 (replicate 16 1);; mret ()) rbare.
(** The first thread enters a section and locks the object; it writes. *)
Definition rentered : rlu_world :=
  rafter (rlu_reader_lock 5 th1) rbooted.
Definition rlocked : rlu_world :=
  rafter (rlu_try_lock th1 robj 16) rentered.
Definition rcopy : Z := buffer_of th1 0 + 40.
Definition rwrote : rlu_world :=
  rlocked <| r_data ::= <[rcopy := replicate 16 2]> |>.

Definition rthr (r : rlu_world) (self : Z) : rlu_thread_data := default zero_rlu_thread (r_thr r !! self).

Lemma rthr_eq r p : bool_decide (is_Some (r_thr r !! p)) = true → r_thr r !! p = Some (rthr r p).
Proof. intros [t Ht]%bool_decide_eq_true_1. unfold rthr. by rewrite Ht. Qed.

Ltac rev := first [apply rthr_eq; vm_compute; reflexivity | match goal with |- _ = ?y => vm_cast_no_check (eq_refl y) end].
Ltac rdec := apply (bool_decide_unpack _); vm_compute; exact I.

Lemma rbooted_registered :
  g_rlu_cur_threads rbooted = 2 ∧ g_rlu_threads rbooted = list_to_map [(0, th1); (1, th2)] ∧
  r_copy rbooted !! robj = Some NULL ∧ r_asserts rbooted = O.
Proof. split_and!; rev. Qed.

Lemma all_sets_check t :
  forallb (λ i, bool_decide (is_Some (obj_write_set t !! Z.of_nat i))) (seq 0 200) = true → all_sets t.
Proof.
  intros H i Hi. rewrite forallb_forall in H. specialize (H (Z.to_nat i)).
  rewrite Z2Nat.id in H; [lia|]. eapply bool_decide_eq_true_1, H, in_seq. unfold RLU_MAX_WRITE_SETS in Hi. lia.
Qed.

(** ** Taking the lock *)

Lemma rentered_in_section : in_section rentered th1 (rthr rentered th1) [].
Proof.
  split; [rev|rev|rev| |done]. split; [|rdec|constructor].
  exists ∅. rev.
Qed.

Lemma rlu_try_lock_takes_copy_witness :
  ∃ p t' r', run (rlu_try_lock th1 robj 16) rentered = Done (Some p) r' ∧
    in_section r' th1 t' [(robj, replicate 16 1)] ∧ r_copy r' !! robj = Some p.
Proof.
  destruct (rlu_try_lock_takes_copy rentered th1 (rthr rentered th1) [] robj 16 (replicate 16 1))
    as (p & t' & r' & Hr & Hs & Hc & _).
  - exact rentered_in_section.
  - rdec.
  - rev.
  - rev.
  - rdec.
  - split_and!; rdec.
  - exists p, t', r'. split; [exact Hr|]. split; [exact Hs|exact Hc].
Defined.

(** ** Abort and commit *)

Lemma rwrote_entry : entry_at rwrote 0 (buffer_of th1 0, robj, replicate 16 2).
Proof.
  split; [exists 1; rev|rev|rev|rev| |split; rdec].
  exists (replicate 16 1). split; [rev|cbn; lia].
Qed.

Lemma rwrote_in_section : in_section rwrote th1 (rthr rwrote th1) [(robj, replicate 16 2)].
Proof.
  split; [rev|rev|rev| |intros _; rev]. split; [exists ∅; rev|rdec|].
  apply Forall_singleton. exact rwrote_entry.
Qed.


Lemma rwrote_quiet : quiet rwrote (rthr rwrote th1).
Proof.
  intros id p Hid Hne Hg Hp. assert (id = 1) as ->.
  { change (0 ≤ id < 2) in Hid. change (id ≠ 0) in Hne. lia. }
  change (Some th2 = Some p) in Hg. injection Hg as <-. exists (rthr rwrote th2). split; rev.
Qed.

Lemma rwrote_commits : commits rwrote th1 (rthr rwrote th1) [] [(robj, replicate 16 2)] [].
Proof.
  split; try rev; try rdec.
  - exact rwrote_in_section.
  - apply all_sets_check. rev.
  - intros i es Hi. by rewrite lookup_nil in Hi.
  - split; [rev|]. intros i p Hi. by rewrite lookup_nil in Hi.
  - split; [constructor|]. intros p Hp. by apply elem_of_nil in Hp.
  - exact rwrote_quiet.
Qed.

Lemma rlu_commit_writes_back_witness :
  ∃ t' r', run (rlu_reader_unlock 5 th1) rwrote = Done () r' ∧ r_thr r' !! th1 = Some t' ∧
    Z.odd (run_counter t') = false ∧ r_data r' !! robj = Some (replicate 16 2) ∧ r_copy r' !! robj = Some NULL.
Proof.
  destruct (rlu_commit_writes_back 5 rwrote th1 (rthr rwrote th1) [] [(robj, replicate 16 2)] [])
    as (t' & r' & Hr & Ht & Ho & _ & _ & _ & _ & _ & _ & Hd & _).
  - exact rwrote_commits.
  - rdec.
  - destruct (Hd robj (replicate 16 2)) as [E1 E2]; [by left|by intros ?%elem_of_nil|].
    exists t', r'. split; [exact Hr|]. split; [exact Ht|]. split; [exact Ho|]. split; [|exact E2].
    rewrite E1. rev.
Defined.

(** ** Reading while the first thread commits *)

(** The first thread has left its section and raised the version; then the
    second enters one. *)
Definition rcommitting : rlu_world :=
  rafter (rlu_unregister_thread th1;;
          th_upd th1 (λ t, t <| is_write_detected := 0 |> <| ws_tail_counter := 1 |> <| ws_cur_id := 1 |>);;
          g ← rd g_rlu_writer_version;
          th_upd th1 (λ t, t <| writer_version := to_long (g + 1) |>);;
          wr (λ r, r <| g_rlu_writer_version ::= λ n, wrap64 (n + 1) |>);;
          rlu_reader_lock 5 th2) rwrote.

Lemma rcommitting_lock : lock_ok rcommitting robj.
Proof.
  exists rcopy. split; [rev|]. intros _ _. exists (WsObjHeader robj 16 1 0), th1, (rthr rcommitting th1).
  split_and!; rev.
Qed.

Lemma deref_ptr_target_witness :
  run (deref_ptr th2 robj) rcommitting = Done rcopy rcommitting ∧ r_data rcommitting !! rcopy = Some (replicate 16 2).
Proof.
  split; [|rev].
  rewrite (deref_ptr_target rcommitting th2 (rthr rcommitting th2) robj).
  - rev.
  - rdec.
  - exact rcommitting_lock.
  - assert (rlu_target rcommitting (rthr rcommitting th2) robj = rcopy) as -> by rev. reflexivity.
Defined.

Lemma rcommitting_writing_back : writing_back rcommitting th1 (rthr rcommitting th1) [[(robj, replicate 16 2)]].
Proof.
  split; [rev|rev|split_and!; rdec|apply all_sets_check; rev| |rev].
  intros [|i] es Hi; [injection Hi as <-|apply lookup_lt_Some in Hi; cbn in Hi; lia].
  split; [exists ∅; rev|rdec|]. apply Forall_singleton.
  split; [exists 1; rev|rev|rev|rev| |split; rdec]. exists (replicate 16 1). split; [rev|cbn; lia].
Qed.


Lemma rcommitting_threads : g_rlu_threads rcommitting = <[0 := th1]> (<[1 := th2]> ∅).
Proof. rev. Qed.


(** ** A handle that is gone *)

Definition rdone : rlu_world :=
  rafter (rlu_reader_unlock 5 th1) rwrote.

Lemma rlu_deleted_thread_faults_witness :
  ∃ r1, run (rlu_handle_delete 5 th2) rdone = Done () r1 ∧ run (rlu_sync_and_writeback 5 th1) r1 = Fault.
Proof.
  exists (rafter (rlu_handle_delete 5 th2) rdone). split; [rev|].
  apply (rlu_deleted_thread_faults 5 5 rdone _ th2 th1 1 (rthr (rafter (rlu_handle_delete 5 th2) rdone) th1)).
  - rev.
  - rdec.
  - rdec.
  - rdec.
  - rev.
  - rev.
  - rdec.
  - rev.
  - rev.
  - rdec.
  - rdec.
Defined.
