(* ===== verification/HashExamples.v ===== *)
(** * A hash table to read

    A table of one bucket with two items, for the statements on the reading
    operations. *)

From S2P Require Import Prelude World OrdoClock Port ThreadList Object Cells VersionLog LogLayout.
From S2P Require Import LogAppend Commit Qp Api Snapshot Locking Reclaim ChainHash Sections Threads Pointers.
From S2P Require Import Concur Interference Anomalies Examples HashView.

(** The first object is the dummy item, the others hold the keys 5 and 9. *)
Definition hobj3 : Z := 33024.
Definition with_items : world :=
  after (mvrlu_alloc 24;;
         store_ptr obj1 off_link obj2;;
         store_ptr obj2 off_link hobj3;; store_ptr obj2 off_key 5;; store_ptr obj2 off_val 7;;
         store_ptr hobj3 off_link NULL;; store_ptr hobj3 off_key 9;; store_ptr hobj3 off_val 70)
    (objs <| w_kmem := [32992] |>).
Definition clock1 : Z := hd 0 (w_tsc with_items).
#[local] Opaque with_items.

(** An object without versions is seen as it is. *)
Lemma object_alone fuel w th obj a :
  obj ≠ NULL → addr_in_log_region w (obj_to_obj_hdr obj) = false →
  w_ahs w !! vobj_to_ahs obj = Some a → p_copy (a_obj_hdr a) = NULL →
  object_at fuel w th obj (default [] (w_data w !! obj)).
Proof.
  intros Ho Hr Ha Hc. split; [done|]. split; [done|]. exists a, []. rewrite Hc.
  split_and!; [done|constructor|by intros ? ?%elem_of_nil|done|cbn; lia|done].
Qed.

Lemma with_items_at fuel th : items_at fuel with_items th obj1 [(5, 7); (9, 70)].
Proof.
  assert (∀ obj, obj ∈ [obj1; obj2; hobj3] → object_at fuel with_items th obj (default [] (w_data with_items !! obj))) as H.
  { intros obj Hin. apply (object_alone _ _ _ _ (ahs with_items obj)).
    all: repeat (apply elem_of_cons in Hin as [->|Hin]; [ev || decided|]); by apply elem_of_nil in Hin. }
  exists (default [] (w_data with_items !! obj1)). split; [apply H; by left|]. split; [ev|].
  assert (chain_at fuel with_items th hobj3 [(9, 70)]) as H3.
  { refine (chain_at_cons _ _ _ hobj3 (default [] (w_data with_items !! hobj3)) [] _ _ _); [apply H; set_solver|ev|].
    assert (word (default [] (w_data with_items !! hobj3)) off_link = NULL) as -> by ev. constructor. }
  assert (word (default [] (w_data with_items !! obj1)) off_link = obj2) as -> by ev.
  refine (chain_at_cons _ _ _ obj2 (default [] (w_data with_items !! obj2)) [(9, 70)] _ _ _); [apply H; set_solver|ev|].
  assert (word (default [] (w_data with_items !! obj2)) off_link = hobj3) as -> by ev. exact H3.
Qed.

Lemma with_items_can_read : can_read with_items self1 (thr with_items self1) clock1 (tl (w_tsc with_items)).
Proof. split; [ev|ev|ev|ev|ev]. Qed.

Lemma sorted2 : sorted [(5, 7); (9, 70)].
Proof. repeat constructor. Qed.


Lemma with_items_table th : table_at 5 with_items th 1 (λ _, obj1) [[(5, 7); (9, 70)]].
Proof.
  split; [done|]. intros [|i] its Hi; [injection Hi as <-|apply lookup_lt_Some in Hi; cbn in Hi; lia].
  split; [apply with_items_at|cbn; lia].
Qed.

Lemma enumerate_next_witness :
  (∃ w', run (enumerate hash_u64 1 (λ _, obj1) 5 self1 None) with_items = Done (Some 5) w') ∧
  (∃ w', run (enumerate hash_u64 1 (λ _, obj1) 5 self1 (Some 5)) with_items = Done (Some 9) w') ∧
  (∃ w', run (enumerate hash_u64 1 (λ _, obj1) 5 self1 (Some 9)) with_items = Done None w').
Proof.
  destruct (enumerate_next hash_u64 1 (λ _, obj1) 5 with_items self1 _ _ _ _ with_items_can_read (with_items_table _)
    ltac:(cbn; lia) (Forall_cons_2 _ _ _ sorted2 (Forall_nil_2 _))) as [(w1 & H1 & _) Hn].
  destruct (Hn 5 7 [] [] [(9, 70)] [] eq_refl eq_refl) as (w2 & H2 & _).
  destruct (Hn 9 70 [] [(5, 7)] [] [] eq_refl eq_refl) as (w3 & H3 & _).
  split; [exists w1; exact H1|]. split; [exists w2; exact H2|exists w3; exact H3].
Defined.

Lemma getSize_counts_witness : ∃ w', run (getSize 1 (λ _, obj1) 5 self1) with_items = Done 2 w'.
Proof.
  destruct (getSize_counts 1 (λ _, obj1) 5 with_items self1 _ _ _ _ with_items_can_read (with_items_table _)
    ltac:(cbn; lia) ltac:(cbn; lia)) as (w' & Hr & _). exists w'. exact Hr.
Defined.
