(* ===== verification/Urcu.v ===== *)
(** * User-level RCU ([lib/urcu.c], [include/urcu.h])

    Every registered thread has a counter, [time], which is even while the
    thread is in a read section: entering adds one to the odd counter, leaving
    sets its lowest bit.  [urcu_synchronize] samples all counters and waits
    for each even one to change.

    The state holds the globals, the variables of every thread and the heap.
    The table of nodes and the arrays of samples are arrays on the heap whose
    cells are undefined until they are written. *)

From S2P Require Import Prelude Concur.

(** ** Data *)

Definition URCU_MAX_FREE_PTRS : Z := 1000.
Definition MAX_SPIN_LOCKS : Z := 10000.
Definition sizeof_rcu_node : Z := 8200.

Record rcu_node := RcuNode { time : Z; f_size : Z; free_ptrs : gmap Z Z }.
#[export] Instance rcu_node_settable : Settable rcu_node := λ x, RcuNode (time x) (f_size x) (free_ptrs x).

(** What [malloc] returned memory for: an array of words, a node, or an object
    of the program. *)
Inductive block :=
| Words (cap : Z) (cells : gmap Z Z)
| Node (n : rcu_node)
| Object.

(** The [__thread] variables. *)
Record urcu_local := UrcuLocal { times : Z; my_i : Z }.

Record urcu_world := UrcuWorld {
  threads : Z;
  urcu_table : Z;
  urcu_spin : gmap Z bool;         (* the locks that have been initialised: held or not *)
  u_heap : gmap Z block;
  u_local : gmap Z urcu_local;     (* by thread *)
  u_malloc : list Z;               (* what [malloc] returns next *)
}.
#[export] Instance urcu_world_settable : Settable urcu_world := λ x,
  UrcuWorld (threads x) (urcu_table x) (urcu_spin x) (u_heap x) (u_local x) (u_malloc x).

Notation uprog := (prog urcu_world).

(** ** Accesses *)

Definition u_rd {A} (f : urcu_world → A) : uprog A := act (λ u, Next (f u) u).
Definition u_wr (f : urcu_world → urcu_world) : uprog unit := act (λ u, Next () (f u)).

(** [a[k]] and [a[k] = v]. *)
Definition word (a k : Z) : uprog Z :=
  act (λ u, match u_heap u !! a with
            | Some (Words cap cells) => match cells !! k with Some v => Next v u | None => Crash end
            | _ => Crash
            end).
Definition set_word (a k v : Z) : uprog unit :=
  act (λ u, match u_heap u !! a with
            | Some (Words cap cells) =>
                if (0 <=? k) && (k <? cap)
                then Next () (u <| u_heap ::= <[a := Words cap (<[k := v]> cells)]> |>) else Crash
            | _ => Crash
            end).

(** A member of a node, and an update of one in one action. *)
Definition node_get {V} (get : rcu_node → V) (p : Z) : uprog V :=
  act (λ u, match u_heap u !! p with Some (Node n) => Next (get n) u | _ => Crash end).
Definition node_upd (p : Z) (f : rcu_node → rcu_node) : uprog unit :=
  act (λ u, match u_heap u !! p with
            | Some (Node n) => Next () (u <| u_heap ::= <[p := Node (f n)]> |>)
            | _ => Crash
            end).

(** A variable of the thread [self]. *)
Definition local (u : urcu_world) (self : Z) : urcu_local := default (UrcuLocal NULL 0) (u_local u !! self).

(** [malloc], and [free] of what it returned. *)
Definition u_alloc (b : block) : uprog Z :=
  act (λ u, match u_malloc u with
            | a :: rest =>
                Next a (let u := u <| u_malloc := rest |> in
                        if a =? NULL then u else u <| u_heap ::= <[a := b]> |>)
            | [] => Wait
            end).
Definition u_free (p : Z) : uprog unit :=
  act (λ u, if p =? NULL then Next () u
            else match u_heap u !! p with
                 | Some _ => Next () (u <| u_heap ::= delete p |>)
                 | None => Crash
                 end).

(** [assert] ends the program. *)
Definition u_assert (b : bool) : uprog unit := if b then mret () else act (λ _, Crash).

(** The [long] of 64 bits. *)
Definition to_slong (x : Z) : Z := let x := wrap64 x in if x <? 2 ^ 63 then x else x - 2 ^ 64.

(** ** Operations *)

(** [pthread_spin_init], [pthread_spin_lock] and [pthread_spin_unlock] on
    [urcu_spin[k]]. *)
Definition spin_init (k : Z) : uprog unit :=
  if (0 <=? k) && (k <? MAX_SPIN_LOCKS) then u_wr (λ u, u <| urcu_spin ::= <[k := false]> |>) else act (λ _, Crash).
Definition spin_lock (k : Z) : uprog unit :=
  act (λ u, match urcu_spin u !! k with
            | Some false => Next () (u <| urcu_spin ::= <[k := true]> |>)
            | Some true => Wait
            | None => Crash
            end).
Definition spin_unlock (k : Z) : uprog unit :=
  act (λ u, match urcu_spin u !! k with
            | Some _ => Next () (u <| urcu_spin ::= <[k := false]> |>)
            | None => Crash
            end).

(** The members of a node are undefined until [time] and [f_size] are set; a
    node whose pointers nobody has stored yet is not read. *)
Definition urcu_init (num_threads : Z) : uprog unit :=
  result ← u_alloc (Words (sizeof_rcu_node * num_threads / 8) ∅);
  u_wr (λ u, u <| threads := num_threads |>);;
  iterate (Z.to_nat num_threads) (λ i,
    new ← u_alloc (Node (RcuNode 0 0 ∅));
    node_upd new (λ n, n <| time := 1 |>);;
    node_upd new (λ n, n <| f_size := 0 |>);;
    set_word result i new;;
    mret (i + 1)) 0;;
  u_wr (λ u, u <| urcu_table := result |>);;
  iterate (Z.to_nat MAX_SPIN_LOCKS) (λ i, spin_init i;; mret (i + 1)) 0;;
  mret ().

(** [exit] is an action after which nothing happens. *)
Definition urcu_register (self id : Z) : uprog unit :=
  n ← u_rd threads;
  a ← u_alloc (Words n ∅);
  u_wr (λ u, u <| u_local ::= <[self := UrcuLocal a id]> |>);;
  if a =? NULL then act (λ _, Wait) else mret ().

Definition urcu_unregister (self : Z) : uprog unit :=
  a ← u_rd (λ u, times (local u self)); u_free a.

(** [urcu_table[k]] *)
Definition table_at (k : Z) : uprog Z := t ← u_rd urcu_table; word t k.

Definition urcu_reader_lock (self : Z) : uprog unit :=
  i ← u_rd (λ u, my_i (local u self));
  p ← table_at i;
  u_assert (negb (p =? NULL));;
  p ← table_at i;
  node_upd p (λ n, n <| time ::= λ t, to_slong (t + 1) |>).

(** [btsl] without a [lock] prefix: a load and a store. *)
Definition set_bit0 (p : Z) : uprog unit :=
  t ← node_get time p; node_upd p (λ n, n <| time := Z.lor t 1 |>).

Definition urcu_reader_unlock (self : Z) : uprog unit :=
  i ← u_rd (λ u, my_i (local u self));
  p ← table_at i;
  u_assert (negb (p =? NULL));;
  p ← table_at i;
  set_bit0 p.

Definition urcu_writer_lock (lock_id : Z) : uprog unit := spin_lock lock_id.
Definition urcu_writer_unlock (lock_id : Z) : uprog unit := spin_unlock lock_id.

(** The first loop: [times[i] = urcu_table[i]->time]. *)
Definition urcu_sample (self i : Z) : uprog Z :=
  p ← table_at i;
  t ← node_get time p;
  a ← u_rd (λ u, times (local u self));
  set_word a i t;;
  mret (i + 1).

(** The inner loop for the thread number [i], which compares as [unsigned long]. *)
Definition urcu_wait (fuel : nat) (self i : Z) : uprog unit :=
  loop fuel (λ _,
    p ← table_at i;
    t ← node_get time p;
    if Z.odd t then mret (inr ()) else
    a ← u_rd (λ u, times (local u self));
    v ← word a i;
    mret (if wrap64 v <? wrap64 t then inr () else inl ())) ().

Definition urcu_wait_one (fuel : nat) (self i : Z) : uprog Z :=
  a ← u_rd (λ u, times (local u self));
  v ← word a i;
  if Z.odd v then mret (i + 1) else
  urcu_wait fuel self i;;
  mret (i + 1).

(** [threads] is set before the first thread registers: it is read once for
    each loop. *)
Definition urcu_synchronize (fuel : nat) (self : Z) : uprog unit :=
  n ← u_rd threads;
  iterate (Z.to_nat n) (urcu_sample self) 0;;
  n ← u_rd threads;
  iterate (Z.to_nat n) (urcu_wait_one fuel self) 0;;
  mret ().

(** [urcu_table[i]->free_ptrs[k]] *)
Definition free_ptr (p k : Z) : uprog Z :=
  act (λ u, match u_heap u !! p with
            | Some (Node n) => match free_ptrs n !! k with Some v => Next v u | None => Crash end
            | _ => Crash
            end).
Definition set_free_ptr (p k v : Z) : uprog unit :=
  if (0 <=? k) && (k <? URCU_MAX_FREE_PTRS) then node_upd p (λ n, n <| free_ptrs ::= <[k := v]> |>)
  else act (λ _, Crash).

(** The thread's own node is found again for every access. *)
Definition my_node (self : Z) : uprog Z := i ← u_rd (λ u, my_i (local u self)); table_at i.

Definition urcu_free (fuel : nat) (self ptr : Z) : uprog unit :=
  p ← my_node self;
  n ← node_get f_size p;
  set_free_ptr p n ptr;;
  p ← my_node self;
  node_upd p (λ n, n <| f_size ::= λ k, k + 1 |>);;
  p ← my_node self;
  n ← node_get f_size p;
  when (n =? URCU_MAX_FREE_PTRS) (
    urcu_synchronize fuel self;;
    p ← my_node self;
    n ← node_get f_size p;
    iterate (Z.to_nat n) (λ k,
      p ← my_node self;
      q ← free_ptr p k;
      u_free q;;
      mret (k + 1)) 0;;
    p ← my_node self;
    node_upd p (λ n, n <| f_size := 0 |>)).
