(* ===== verification/UrcuGrace.v ===== *)
(** * Grace periods of user-level RCU

    Whatever readers do, [urcu_synchronize] returns only after every read
    section that was open at its start has ended; and it does return if no
    section lasts for ever. *)

From S2P Require Import Prelude Concur Urcu.

(** A counter that moved on from a section. *)
Definition left (t t' : Z) : Prop := Z.even t = true → t < t'.

Lemma left_odd t t' : t ≤ t' → Z.odd t' = true → left t t'.
Proof.
  intros Hle Ho He. destruct (decide (t = t')) as [<-|]; [|lia].
  rewrite -Z.negb_even He in Ho. done.
Qed.

(** The operations of a reader: a sequence of entries ([true]) and exits. *)
Definition urcu_op (self : Z) (enter : bool) : uprog unit :=
  if enter then urcu_reader_lock self else urcu_reader_unlock self.
Definition urcu_reader (self : Z) (ops : list bool) : uprog unit :=
  fold_each ops (λ b _, urcu_op self b) ().

(** ** Accesses among others *)

Section accesses.
Context (R G : urcu_world → urcu_world → Prop) (spin : Prop) (HG : ∀ u, G u u).

(** A read, with what is known of its result. *)
Lemma safe_look {B A} (op : urcu_world → effect urcu_world B) (k : B → uprog A) (P : urcu_world → Prop)
    (φ : B → urcu_world → Prop) Q u :
  stable R P → (∀ b, stable R (φ b)) → P u →
  (∀ u, P u → ∃ b, op u = Next b u ∧ φ b u) →
  (∀ b u, P u → φ b u → safe R G spin (k b) Q u) →
  safe R G spin (act op ≫= k) Q u.
Proof.
  intros HP Hφ Hu Hop Hk. apply (safe_bind_step _ _ _ _ _ P (λ b u, P u ∧ φ b u)); [done| |done| |].
  - intros b u1 u2 HR [? ?]. split; [by eapply HP|by eapply Hφ].
  - intros u1 H1. destruct (Hop u1 H1) as (b & -> & Hb). split; [done|]. intros b' u2 [= <- <-]. auto.
  - intros b u1 [? ?]. auto.
Qed.

Lemma stable_const (φ : Prop) : stable R (λ _, φ).
Proof. by intros ???. Qed.

Context (tbl cap : Z) (cells : gmap Z Z).

(** [urcu_table[i]] of a table that stays. *)
Lemma safe_table_at {A} i p (k : Z → uprog A) (P : urcu_world → Prop) Q u :
  stable R P → P u → (∀ u, P u → urcu_table u = tbl ∧ u_heap u !! tbl = Some (Words cap cells)) →
  cells !! i = Some p → (∀ u, P u → safe R G spin (k p) Q u) →
  safe R G spin (table_at i ≫= k) Q u.
Proof.
  intros HP Hu Ht Hi Hk. unfold table_at. apply safe_bind. eapply (safe_look _ _ P (λ b _, b = tbl)); [done|by intros ? ? ?|done| |].
  { intros u1 H1. exists (urcu_table u1). split; [done|]. by apply Ht. }
  cbv beta. intros b u1 H1 ->. eapply safe_mono; [|eapply (safe_step _ _ _ _ P (λ b u, P u ∧ b = p))]; [|done| |done|].
  - cbv beta. intros b u2 [H2 ->]. auto.
  - intros b u2 u3 HR [? ?]. split; [by eapply HP|done].
  - intros u2 H2. destruct (Ht u2 H2) as [_ E]. rewrite E Hi. split; [done|]. intros b u3 [= <- <-]. auto.
Qed.
End accesses.

Section grace.
(** The table at [tbl], with the nodes of all threads; the thread [self], whose
    samples are at [a]; the counters at the start. *)
Context (tbl a self cap : Z) (cells : gmap Z Z) (nodes : list Z) (t0 : list Z).
Context (Hcells : ∀ i p, nodes !! i = Some p → cells !! Z.of_nat i = Some p).
Context (Hdup : NoDup (tbl :: a :: nodes)).

Definition node_time (u : urcu_world) (i : nat) (t : Z) : Prop :=
  ∃ p n, nodes !! i = Some p ∧ u_heap u !! p = Some (Node n) ∧ time n = t.

(** What all threads rely on: the table, and the variables of threads. *)
Definition same_table (u u' : urcu_world) : Prop :=
  threads u' = threads u ∧ urcu_table u' = urcu_table u ∧ u_local u' = u_local u ∧
  u_heap u' !! tbl = u_heap u !! tbl.

(** The others leave the samples alone, and counters grow. *)
Definition sync_rely (u u' : urcu_world) : Prop :=
  same_table u u' ∧ u_heap u' !! a = u_heap u !! a ∧
  ∀ i t, node_time u i t → ∃ t', node_time u' i t' ∧ t ≤ t' ∧ (t < 2 ^ 63 → t' < 2 ^ 63).
Definition sync_guar (u u' : urcu_world) : Prop :=
  same_table u u' ∧ ∀ p, p ≠ a → u_heap u' !! p = u_heap u !! p.

(** The thread with the node [p] changes only this node, and its counter
    grows. *)
Definition reader_rely (p : Z) (u u' : urcu_world) : Prop :=
  same_table u u' ∧ u_heap u' !! p = u_heap u !! p.
Definition reader_guar (p : Z) (u u' : urcu_world) : Prop :=
  same_table u u' ∧ (∀ q, q ≠ p → u_heap u' !! q = u_heap u !! q) ∧
  ∀ n, u_heap u !! p = Some (Node n) → ∃ n', u_heap u' !! p = Some (Node n') ∧ time n ≤ time n' ∧ (time n < 2 ^ 63 → time n' < 2 ^ 63).

Definition base_ok (u : urcu_world) : Prop :=
  threads u = Z.of_nat (length nodes) ∧ urcu_table u = tbl ∧ u_heap u !! tbl = Some (Words cap cells) ∧
  times (local u self) = a.

(** The counters have only grown since the start; the first [k] samples are
    taken. *)
Definition sampled (k : nat) (u : urcu_world) : Prop :=
  base_ok u ∧ (∀ i v, t0 !! i = Some v → 0 ≤ v ∧ ∃ t, node_time u i t ∧ v ≤ t < 2 ^ 63) ∧
  ∃ smp, u_heap u !! a = Some (Words (Z.of_nat (length nodes)) smp) ∧
    ∀ i v, (i < k)%nat → t0 !! i = Some v → ∃ x t, smp !! Z.of_nat i = Some x ∧ node_time u i t ∧ v ≤ x ≤ t.
Definition waited (k : nat) (u : urcu_world) : Prop :=
  sampled (length nodes) u ∧ ∀ i v, (i < k)%nat → t0 !! i = Some v → ∃ t, node_time u i t ∧ left v t.

Lemma node_time_det u i t t' : node_time u i t → node_time u i t' → t = t'.
Proof. intros (p & n & H1 & H2 & <-) (p' & n' & H1' & H2' & <-). congruence. Qed.

Lemma urcu_base_stable : stable sync_rely base_ok.
Proof.
  intros u u' ((Ht & Htb & Hl & Hh) & _) (H1 & H2 & H3 & H4). unfold base_ok, local in *. by rewrite Ht Htb Hl Hh.
Qed.

Lemma urcu_sampled_stable k : stable sync_rely (sampled k).
Proof.
  intros u u' HR (Hb & Hgrow & smp & Ha & Hs). pose proof HR as (_ & Ea & Hn). split; [by eapply urcu_base_stable|].
  split.
  - intros i v Hv. destruct (Hgrow i v Hv) as (H0 & t & Ht & Hle). split; [done|].
    destruct (Hn i t Ht) as (t' & ? & ? & ?). exists t'. split; [done|lia].
  - exists smp. rewrite Ea. split; [done|]. intros i v Hi Hv. destruct (Hs i v Hi Hv) as (x & t & Hx & Ht & Hle).
    destruct (Hn i t Ht) as (t' & ? & ? & ?). exists x, t'. split_and!; try done; lia.
Qed.

Lemma urcu_waited_stable k : stable sync_rely (waited k).
Proof.
  intros u u' HR (Hs & Hw). split; [by eapply urcu_sampled_stable|]. intros i v Hi Hv.
  destruct (Hw i v Hi Hv) as (t & Ht & Hl). pose proof HR as (_ & _ & Hn).
  destruct (Hn i t Ht) as (t' & ? & ? & ?). exists t'. split; [done|]. intros He. specialize (Hl He). lia.
Qed.

(** ** The waiting thread *)

Notation safely := (safe sync_rely sync_guar True).

Lemma sync_guar_refl u : sync_guar u u.
Proof. done. Qed.

Lemma base_table u : base_ok u → urcu_table u = tbl ∧ u_heap u !! tbl = Some (Words cap cells).
Proof. by intros (_ & ? & ? & _). Qed.

Lemma sampled_table k u : sampled k u → urcu_table u = tbl ∧ u_heap u !! tbl = Some (Words cap cells).
Proof. intros [? _]. by apply base_table. Qed.

Context (Hlen : length t0 = length nodes).

Lemma t0_lookup i : (i < length nodes)%nat → ∃ v p, t0 !! i = Some v ∧ nodes !! i = Some p.
Proof.
  intros Hi. destruct (lookup_lt_is_Some_2 t0 i) as [v Hv]; [lia|]. destruct (lookup_lt_is_Some_2 nodes i) as [p Hp]; [lia|].
  eauto.
Qed.

(** A sample of the counter number [k] is stored. *)
Lemma sample_stored k v x u smp :
  (k < length nodes)%nat → t0 !! k = Some v → sampled k u → v ≤ x → (∃ t, node_time u k t ∧ x ≤ t) →
  u_heap u !! a = Some (Words (Z.of_nat (length nodes)) smp) →
  let u' := u <| u_heap ::= <[a := Words (Z.of_nat (length nodes)) (<[Z.of_nat k := x]> smp)]> |> in
  sync_guar u u' ∧ sampled (S k) u'.
Proof.
  intros Hk Hv (Hb & Hgrow & smp' & Ha' & Hs) Hx (t & Ht & Hxt) Ha u'. rewrite Ha in Ha'. injection Ha' as <-.
  assert (∀ p, p ≠ a → u_heap u' !! p = u_heap u !! p) as Ho by (intros p Hp; by apply lookup_insert_ne).
  assert (tbl ≠ a) as Hta by (apply NoDup_cons in Hdup as [? _]; set_solver).
  assert (∀ i t, node_time u i t → node_time u' i t) as Hn.
  { intros i t' (p & n & Hp & Hpn & <-). exists p, n. split_and!; [done| |done]. rewrite Ho //.
    intros ->. apply NoDup_cons in Hdup as [_ [Hd _]%NoDup_cons]. by apply list_elem_of_lookup_2 in Hp. }
  split; [split; [split_and!; [done..|by apply Ho]|done]|]. split; [|split].
  - destruct Hb as (? & ? & ? & ?). split_and!; try done. by rewrite Ho.
  - intros i w Hw. destruct (Hgrow i w Hw) as (? & t' & ? & ?). split; [done|]. exists t'. auto.
  - exists (<[Z.of_nat k := x]> smp). split; [apply lookup_insert_eq|]. intros i w Hi Hw.
    destruct (decide (i = k)) as [->|].
    + rewrite Hv in Hw. injection Hw as <-. exists x, t. rewrite lookup_insert_eq. auto.
    + destruct (Hs i w ltac:(lia) Hw) as (y & t' & ? & ? & ?). exists y, t'. rewrite lookup_insert_ne; [lia|]. auto.
Qed.

Lemma safe_sample k u :
  (k < length nodes)%nat → sampled k u →
  safely (urcu_sample self (Z.of_nat k)) (λ c u, c = Z.of_nat (S k) ∧ sampled (S k) u) u.
Proof.
  intros Hk Hu. destruct (t0_lookup k Hk) as (v & p & Hv & Hp). unfold urcu_sample.
  eapply (safe_table_at _ _ _ sync_guar_refl tbl cap cells _ p _ (sampled k)); eauto using urcu_sampled_stable, sampled_table.
  clear u Hu. intros u Hu. set (φ := λ x u, v ≤ x ∧ ∃ t, node_time u k t ∧ x ≤ t).
  assert (∀ x, stable sync_rely (φ x)) as Hφ.
  { intros x u1 u2 (_ & _ & Hn) (? & t & Ht & ?). split; [done|]. destruct (Hn k t Ht) as (t' & ? & ? & ?). exists t'. split; [done|lia]. }
  eapply (safe_look _ _ _ sync_guar_refl _ _ (sampled k) φ); [apply urcu_sampled_stable|done|done| |].
  { intros u1 (_ & Hgrow & _). destruct (Hgrow k v Hv) as (_ & t & Ht & Hle). pose proof Ht as (p' & n & Hp' & Hn & <-).
    rewrite Hp in Hp'. injection Hp' as <-. exists (time n). rewrite Hn. split; [done|]. split; [lia|]. exists (time n). split; [done|lia]. }
  clear u Hu. intros x u Hu Hx.
  eapply (safe_look _ _ _ sync_guar_refl _ _ (λ u, sampled k u ∧ φ x u) (λ b _, b = a)).
  { intros u1 u2 HR [? ?]. split; [by eapply urcu_sampled_stable|by eapply Hφ]. }
  { by intros ???. }
  { done. }
  { intros u1 [((_ & _ & _ & Ha) & _) _]. eauto. }
  clear u Hu Hx. intros ? u Hu ->.
  eapply (safe_bind_step _ _ _ _ _ (λ u, sampled k u ∧ φ x u) (λ _, sampled (S k))).
  { intros u1 u2 HR [? ?]. split; [by eapply urcu_sampled_stable|by eapply Hφ]. }
  { intros _. apply urcu_sampled_stable. }
  { done. }
  { intros u1 [H1 Hx]. pose proof H1 as (_ & _ & smp & Ha & _). rewrite Ha.
    replace ((0 <=? Z.of_nat k) && (Z.of_nat k <? Z.of_nat (length nodes))) with true by lia.
    split; [done|]. intros b u2 [= <- <-]. destruct Hx. by eapply sample_stored. }
  intros _ u1 H1. eapply safe_done; [apply (urcu_sampled_stable (S k))|done|]. intros u2 H2. split; [lia|done].
Qed.

(** The counter number [k] has been read as [t]. *)
Definition seen_time (k : nat) (v t : Z) (u : urcu_world) : Prop := v ≤ t < 2 ^ 63 ∧ ∃ t', node_time u k t' ∧ t ≤ t'.

Lemma seen_time_stable k v t : stable sync_rely (seen_time k v t).
Proof.
  intros u1 u2 (_ & _ & Hn) (? & t' & Ht & ?). split; [done|]. destruct (Hn k t' Ht) as (t2 & ? & ? & ?).
  exists t2. split; [done|lia].
Qed.

Lemma seen_left k v t u : seen_time k v t u → left v t → ∃ t', node_time u k t' ∧ left v t'.
Proof. intros (? & t' & ? & ?) Hl. exists t'. split; [done|]. intros He. specialize (Hl He). lia. Qed.

Lemma waited_read k v p u :
  waited k u → t0 !! k = Some v → nodes !! k = Some p → ∃ n, u_heap u !! p = Some (Node n) ∧ seen_time k v (time n) u.
Proof.
  intros ((_ & Hgrow & _) & _) Hv Hp. destruct (Hgrow k v Hv) as (_ & t & Ht & Hle).
  pose proof Ht as (p' & n & Hp' & Hn & <-). rewrite Hp in Hp'. injection Hp' as <-. exists n. split; [done|].
  split; [done|]. exists (time n). split; [done|lia].
Qed.

Lemma waited_sample k v u :
  (k < length nodes)%nat → waited k u → t0 !! k = Some v →
  ∃ c smp x, u_heap u !! a = Some (Words c smp) ∧ smp !! Z.of_nat k = Some x ∧ 0 ≤ v ≤ x ∧ seen_time k v x u.
Proof.
  intros Hk ((_ & Hgrow & smp & Ha & Hs) & _) Hv. destruct (Hs k v Hk Hv) as (x & t & Hx & Ht & Hle).
  destruct (Hgrow k v Hv) as (H0 & t1 & Ht1 & Hlt). rewrite (node_time_det _ _ _ _ Ht1 Ht) in Hlt.
  exists (Z.of_nat (length nodes)), smp, x. split_and!; try done; [lia|].
  split; [lia|]. exists t. split; [done|lia].
Qed.

Lemma waited_next k u :
  (k < length nodes)%nat → waited k u → (∀ v, t0 !! k = Some v → ∃ t, node_time u k t ∧ left v t) → waited (S k) u.
Proof.
  intros Hk [Hs Hw] Hn. split; [done|]. intros i v Hi Hv. destruct (decide (i = k)) as [->|]; [by apply Hn|].
  apply Hw; [lia|done].
Qed.

Lemma waited_table k u : waited k u → urcu_table u = tbl ∧ u_heap u !! tbl = Some (Words cap cells).
Proof. intros [? _]. by eapply sampled_table. Qed.

Lemma waited_times k u : waited k u → times (local u self) = a.
Proof. by intros [((_ & _ & _ & ?) & _) _]. Qed.

(** A round of the inner loop. *)
Lemma safe_wait_round k v p u :
  (k < length nodes)%nat → t0 !! k = Some v → nodes !! k = Some p → waited k u →
  safely (p ← table_at (Z.of_nat k);
          t ← node_get time p;
          if Z.odd t then mret (inr ()) else
          a ← u_rd (λ u, times (local u self));
          x ← word a (Z.of_nat k);
          mret (if wrap64 x <? wrap64 t then inr () else inl ()))
    (λ r u, match r with inl _ => waited k u | inr _ => waited (S k) u end) u.
Proof.
  intros Hk Hv Hp Hu. eapply (safe_table_at _ _ _ sync_guar_refl tbl cap cells _ p _ (waited k));
    eauto using urcu_waited_stable, waited_table.
  clear u Hu. intros u Hu.
  eapply (safe_look _ _ _ sync_guar_refl _ _ (waited k) (seen_time k v)); [apply urcu_waited_stable|apply seen_time_stable|done| |].
  { intros u1 H1. destruct (waited_read k v p u1 H1 Hv Hp) as (n & Hn & ?). exists (time n). by rewrite Hn. }
  clear u Hu. intros t u Hu Ht. pose proof (proj1 Ht) as Hvt.
  set (P := λ u, waited k u ∧ seen_time k v t u).
  assert (stable sync_rely P) as HP.
  { intros u1 u2 HR [? ?]. split; [by eapply urcu_waited_stable|by eapply seen_time_stable]. }
  assert (∀ u, P u → left v t → waited (S k) u) as Hend.
  { intros u1 [H1 H2] Hl. apply waited_next; [done..|]. intros v' Hv'. rewrite Hv in Hv'. injection Hv' as <-.
    by eapply seen_left. }
  destruct (Z.odd t) eqn:Ho.
  { eapply (safe_done _ _ _ _ P); [done|done|]. intros u1 H1. apply Hend; [done|]. apply left_odd; [lia|done]. }
  eapply (safe_look _ _ _ sync_guar_refl _ _ P (λ b _, b = a)); [done|apply (λ b, stable_const _ _)|done| |].
  { intros u1 [H1 _]. eexists. split; [done|]. by apply waited_times in H1. }
  cbv beta. clear u Hu Ht. intros ? u Hu ->.
  eapply (safe_look _ _ _ sync_guar_refl _ _ P (λ x _, 0 ≤ v ≤ x ∧ x < 2 ^ 63)); [done|apply (λ b, stable_const _ _)|done| |].
  { intros u1 [H1 _]. destruct (waited_sample k v u1 Hk H1 Hv) as (c & smp & x & -> & Hx & ? & ? & _).
    exists x. rewrite Hx. split; [done|lia]. }
  cbv beta. clear u Hu. intros x u Hu [Hx Hx'].
  eapply (safe_done _ _ _ _ P); [done|done|]. intros u1 H1. rewrite !wrap64_small; [unfold ULONG_MAX; lia..|].
  destruct (Z.ltb_spec x t); [|by destruct H1]. apply Hend; [done|]. intros _. lia.
Qed.

Lemma safe_wait fuel k u :
  (k < length nodes)%nat → waited k u → safely (urcu_wait fuel self (Z.of_nat k)) (λ _, waited (S k)) u.
Proof.
  intros Hk. destruct (t0_lookup k Hk) as (v & p & Hv & Hp). unfold urcu_wait.
  revert u. induction fuel as [|fuel IH]; intros u Hu; [by intros ? ?|].
  apply safe_loop_S. eapply safe_mono; [|by apply (safe_wait_round k v p)]. intros [[]|[]] u1 H1; [by apply IH|].
  intros u2 Hr. eapply (rtc_stable _ (waited (S k))); [|exact Hr|exact H1]. intros x y Hx HR. by eapply urcu_waited_stable.
Qed.

Lemma safe_wait_one fuel k u :
  (k < length nodes)%nat → waited k u →
  safely (urcu_wait_one fuel self (Z.of_nat k)) (λ c u, c = Z.of_nat (S k) ∧ waited (S k) u) u.
Proof.
  intros Hk Hu. destruct (t0_lookup k Hk) as (v & p & Hv & Hp). unfold urcu_wait_one.
  eapply (safe_look _ _ _ sync_guar_refl _ _ (waited k) (λ b _, b = a)); [apply urcu_waited_stable|apply (λ b, stable_const _ _)|done| |].
  { intros u1 H1. eexists. split; [done|]. by apply waited_times in H1. }
  cbv beta. clear u Hu. intros ? u Hu ->.
  eapply (safe_look _ _ _ sync_guar_refl _ _ (waited k) (seen_time k v)); [apply urcu_waited_stable|apply seen_time_stable|done| |].
  { intros u1 H1. destruct (waited_sample k v u1 Hk H1 Hv) as (c & smp & x & -> & Hx & ? & ?).
    exists x. by rewrite Hx. }
  clear u Hu. intros x u Hu Hx. destruct (Z.odd x) eqn:Ho.
  - eapply (safe_done _ _ _ _ (λ u, waited k u ∧ seen_time k v x u)); [|done|].
    { intros u1 u2 HR [? ?]. split; [by eapply urcu_waited_stable|by eapply seen_time_stable]. }
    intros u1 [H1 H2]. split; [lia|]. apply waited_next; [done..|]. intros v' Hv'. rewrite Hv in Hv'. injection Hv' as <-.
    eapply seen_left; [done|]. destruct H2 as [? _]. apply left_odd; [lia|done].
  - apply safe_bind. eapply safe_mono; [|by apply safe_wait]. intros [] u1 H1.
    eapply (safe_done _ _ _ _ (waited (S k))); [apply urcu_waited_stable|done|]. intros u2 H2. split; [lia|done].
Qed.

Lemma safe_synchronize fuel u :
  sampled O u → safely (urcu_synchronize fuel self) (λ _, waited (length nodes)) u.
Proof.
  intros Hu. assert (∀ u, base_ok u → Z.to_nat (threads u) = length nodes) as Hn by (intros ? (-> & _); lia).
  unfold urcu_synchronize.
  eapply (safe_look _ _ _ sync_guar_refl _ _ (sampled O) (λ b _, Z.to_nat b = length nodes)); [apply urcu_sampled_stable|apply (λ b, stable_const _ _)|done| |].
  { intros u1 [H1 _]. eauto. }
  cbv beta. clear u Hu. intros n u Hu ->. apply safe_bind. eapply safe_mono.
  2:{ apply (safe_iterate _ _ _ _ _ (λ k c u, c = Z.of_nat k ∧ sampled k u)); [done| |].
      - intros k c u1 Hk [-> H1]. by apply safe_sample.
      - intros c u1 u2 HR [? ?]. split; [done|]. by eapply urcu_sampled_stable. }
  cbv beta. clear u Hu. intros c u [_ Hu].
  eapply (safe_look _ _ _ sync_guar_refl _ _ (sampled (length nodes)) (λ b _, Z.to_nat b = length nodes)); [apply urcu_sampled_stable|apply (λ b, stable_const _ _)|done| |].
  { intros u1 [H1 _]. eauto. }
  cbv beta. clear u Hu. intros n' u Hu ->. apply safe_bind. eapply safe_mono.
  2:{ apply (safe_iterate _ _ _ _ _ (λ k c u, c = Z.of_nat k ∧ waited k u)).
      - split; [done|]. split; [done|]. intros i v Hi. lia.
      - intros k c' u1 Hk [-> H1]. by apply safe_wait_one.
      - intros c' u1 u2 HR [? ?]. split; [done|]. by eapply urcu_waited_stable. }
  cbv beta. intros c' u1 [_ H1]. eapply (safe_done _ _ _ _ (waited (length nodes))); [apply urcu_waited_stable|done|done].
Qed.
End grace.

(** ** Readers *)

Section reader.
Context (tbl self cap idx p : Z) (cells : gmap Z Z).
Context (Hidx : cells !! idx = Some p) (Hp : p ≠ NULL) (Htp : p ≠ tbl).

(** The thread [self] has the node [p], and its counter is at most [B]. *)
Definition reader_ok (B : Z) (u : urcu_world) : Prop :=
  urcu_table u = tbl ∧ u_heap u !! tbl = Some (Words cap cells) ∧ my_i (local u self) = idx ∧
  ∃ n, u_heap u !! p = Some (Node n) ∧ 0 ≤ time n ≤ B.

Notation safely := (safe (reader_rely tbl p) (reader_guar tbl p) True).

Lemma reader_guar_refl u : reader_guar tbl p u u.
Proof. split; [done|]. split; [done|]. intros n Hn. by exists n. Qed.

Lemma reader_stable B : stable (reader_rely tbl p) (reader_ok B).
Proof.
  intros u u' ((_ & Ht & Hl & Hh) & Hpp) (H1 & H2 & H3 & H4). unfold reader_ok, local in *. by rewrite Ht Hl Hh Hpp.
Qed.

Lemma reader_table B u : reader_ok B u → urcu_table u = tbl ∧ u_heap u !! tbl = Some (Words cap cells).
Proof. by intros (? & ? & _). Qed.

(** The thread's own node, found twice and checked in between. *)
Lemma safe_own_node B (k : Z → uprog unit) Q u :
  reader_ok B u → (∀ u, reader_ok B u → safely (k p) Q u) →
  safely (i ← u_rd (λ u, my_i (local u self)); q ← table_at i; u_assert (negb (q =? NULL));; q ← table_at i; k q) Q u.
Proof.
  intros Hu Hk.
  eapply (safe_look _ _ _ reader_guar_refl _ _ (reader_ok B) (λ b _, b = idx)); [apply reader_stable|apply (λ b, stable_const _ _)|done| |].
  { intros u1 (_ & _ & H1 & _). eauto. }
  cbv beta. clear u Hu. intros ? u Hu ->.
  eapply (safe_table_at _ _ _ reader_guar_refl tbl cap cells _ p _ (reader_ok B)); eauto using reader_stable, reader_table.
  clear u Hu. intros u Hu. apply safe_bind. unfold u_assert. destruct (Z.eqb_spec p NULL); [done|]. cbn [negb].
  eapply (safe_done _ _ _ _ (reader_ok B)); [apply reader_stable|done|]. clear u Hu. intros u Hu.
  eapply (safe_table_at _ _ _ reader_guar_refl tbl cap cells _ p _ (reader_ok B)); eauto using reader_stable, reader_table.
Qed.

(** A new value of the counter that is not smaller. *)
Lemma reader_update B f u n :
  reader_ok B u → u_heap u !! p = Some (Node n) → time n ≤ time (f n) ≤ B + 1 → B + 1 < 2 ^ 63 →
  let u' := u <| u_heap ::= <[p := Node (f n)]> |> in reader_guar tbl p u u' ∧ reader_ok (B + 1) u'.
Proof.
  intros (H1 & H2 & H3 & n' & Hn' & Hle) Hn Hf HB u'. rewrite Hn in Hn'. injection Hn' as <-.
  assert (u_heap u' !! p = Some (Node (f n))) as Ep by apply lookup_insert_eq.
  assert (∀ q, q ≠ p → u_heap u' !! q = u_heap u !! q) as Eq by (intros q Hq; by apply lookup_insert_ne).
  split; [split; [split_and!; [done..|by apply Eq]|split; [done|]]|].
  - intros n0 Hn0. rewrite Hn in Hn0. injection Hn0 as <-. exists (f n). split; [done|]. lia.
  - split_and!; [done|by rewrite Eq|done|]. exists (f n). split; [done|lia].
Qed.

Lemma lor_1 t : 0 ≤ t → t ≤ Z.lor t 1 ≤ t + 1.
Proof.
  intros Ht. assert (Z.lor t 1 = if Z.odd t then t else t + 1) as ->; [|destruct (Z.odd t); lia].
  apply Z.bits_inj'. intros k Hk. rewrite Z.lor_spec. destruct (Z.odd t) eqn:E.
  - destruct (decide (k = 0)) as [->|]; [by rewrite Z.bit0_odd E|].
    change 1 with (2 ^ 0). rewrite Z.pow2_bits_false; [lia|]. apply orb_false_r.
  - apply (f_equal negb) in E. rewrite Z.negb_odd in E. apply Z.even_spec in E as [h ->].
    destruct (decide (k = 0)) as [->|].
    + by rewrite !Z.bit0_odd Z.odd_add Z.odd_mul.
    + change 1 with (2 ^ 0) at 1. rewrite Z.pow2_bits_false; [lia|]. rewrite orb_false_r.
      rewrite -(Z.succ_pred k) Z.testbit_even_succ; [lia|]. rewrite Z.testbit_odd_succ; [lia|done].
Qed.

Lemma safe_op B b u :
  reader_ok B u → B + 1 < 2 ^ 63 → safely (urcu_op self b) (λ _, reader_ok (B + 1)) u.
Proof.
  intros Hu HB. destruct b; cbn [urcu_op]; apply (safe_own_node B); try done; clear u Hu; intros u Hu.
  - eapply (safe_step _ _ _ _ (reader_ok B)); [apply reader_stable|intros _; apply reader_stable|done|].
    intros u1 H1. pose proof H1 as (_ & _ & _ & n & Hn & Hle). rewrite Hn. split; [done|]. intros [] u2 [= <-].
    apply (reader_update B (λ n, n <| time ::= λ t, to_slong (t + 1) |>)); [done..| |done]. cbn.
    unfold to_slong. rewrite wrap64_small; [unfold ULONG_MAX; lia|]. destruct (Z.ltb_spec (time n + 1) (2 ^ 63)); lia.
  - unfold set_bit0.
    set (P := λ t u, reader_ok B u ∧ ∀ n, u_heap u !! p = Some (Node n) → time n = t).
    assert (∀ t, stable (reader_rely tbl p) (P t)) as HP.
    { intros t u1 u2 HR [? H]. split; [by eapply reader_stable|]. destruct HR as [_ ->]. done. }
    eapply (safe_look _ _ _ reader_guar_refl _ _ (reader_ok B) P); [apply reader_stable|done|done| |].
    { intros u1 H1. pose proof H1 as (_ & _ & _ & n & Hn & Hle). exists (time n). rewrite Hn. split; [done|].
      split; [done|]. intros n' Hn'. congruence. }
    clear u Hu. intros t u _ Ht.
    eapply (safe_step _ _ _ _ (P t)); [done|intros _; apply reader_stable|done|].
    intros u1 [H1 Ht1]. pose proof H1 as (_ & _ & _ & n & Hn & Hle). rewrite Hn. split; [done|]. intros [] u2 [= <-].
    apply (reader_update B (λ n, n <| time := Z.lor t 1 |>)); [done..| |done]. cbn.
    rewrite -(Ht1 n Hn). pose proof (lor_1 (time n)). lia.
Qed.

Lemma safe_reader ops B u :
  reader_ok B u → B + Z.of_nat (length ops) < 2 ^ 63 →
  safely (urcu_reader self ops) (λ _, reader_ok (B + Z.of_nat (length ops))) u.
Proof.
  unfold urcu_reader. revert B u. induction ops as [|b ops IH]; intros B u Hu HB.
  - replace (B + _) with B by (cbn; lia). by eapply (safe_done _ _ _ _ (reader_ok B)); [apply reader_stable|..].
  - cbn in HB. change (fold_each (b :: ops) ?f ()) with (f b () ≫= λ x, fold_each ops f x).
    apply safe_bind. eapply safe_mono; [|apply (safe_op B); [done|lia]]. intros [] u1 H1.
    replace (B + Z.of_nat (length (b :: ops))) with (B + 1 + Z.of_nat (length ops)) by (cbn; lia). apply IH; [done|lia].
Qed.
End reader.

(** ** All threads together *)

(** The state after [urcu_init] for as many threads as there are [nodes]:
    counters are far from their end. *)
Record urcu_ready (u : urcu_world) (nodes : list Z) : Prop := {
  ready_threads : threads u = Z.of_nat (length nodes);
  ready_table : ∃ cap cells, u_heap u !! urcu_table u = Some (Words cap cells) ∧
    ∀ i p, nodes !! i = Some p → cells !! Z.of_nat i = Some p;
  ready_nodes : ∀ i p, nodes !! i = Some p →
    p ≠ NULL ∧ ∃ n, u_heap u !! p = Some (Node n) ∧ 0 ≤ time n < 2 ^ 62;
  ready_nodup : NoDup nodes;
}.

(** The thread [self] has registered, with room for the samples. *)
Definition can_sync (u : urcu_world) (nodes : list Z) (self : Z) : Prop :=
  times (local u self) ≠ urcu_table u ∧
  ∃ smp, u_heap u !! times (local u self) = Some (Words (Z.of_nat (length nodes)) smp).

(** A reader: the thread, its number and what it does. *)
Record urcu_client := UrcuClient { c_self : Z; c_idx : nat; c_ops : list bool }.
Definition client_ok (u : urcu_world) (nodes : list Z) (c : urcu_client) : Prop :=
  (c_idx c < length nodes)%nat ∧ my_i (local u (c_self c)) = Z.of_nat (c_idx c) ∧ Z.of_nat (length (c_ops c)) < 2 ^ 62.

Section together.
Context (u : urcu_world) (nodes : list Z) (self : Z) (rs : list urcu_client).
Context (Hready : urcu_ready u nodes) (Hsync : can_sync u nodes self).
Context (Hdup : NoDup (c_idx <$> rs)) (Hrs : Forall (client_ok u nodes) rs).

Notation tbl := (urcu_table u).
Notation a := (times (local u self)).

Lemma sync_blocks : NoDup (tbl :: a :: nodes).
Proof.
  destruct Hready as [_ (cap & cells & Ht & _) Hn Hnd]. destruct Hsync as (Hat & smp & Ha).
  assert (∀ q c m, u_heap u !! q = Some (Words c m) → q ∉ nodes) as Hw.
  { intros q c m Hq [i Hi]%list_elem_of_lookup_1. destruct (Hn i q Hi) as (_ & n & Hqn & _). congruence. }
  apply NoDup_cons. split; [|apply NoDup_cons; split; [by eapply Hw|done]].
  intros [E|E]%elem_of_cons; [by apply Hat|]. by apply (Hw _ _ _ Ht).
Qed.

Definition client_node (j : nat) : option Z := c ← rs !! j; nodes !! c_idx c.

Definition thread_rely (i : nat) : urcu_world → urcu_world → Prop :=
  match i with
  | O => sync_rely tbl a nodes
  | S j => match client_node j with Some p => reader_rely tbl p | None => λ _ _, True end
  end.
Definition thread_guar (i : nat) : urcu_world → urcu_world → Prop :=
  match i with
  | O => sync_guar tbl a
  | S j => match client_node j with Some p => reader_guar tbl p | None => λ _ _, False end
  end.

Lemma client_node_in j p : client_node j = Some p → p ≠ a ∧ p ≠ tbl ∧ ∃ i, nodes !! i = Some p.
Proof.
  unfold client_node. destruct (rs !! j) as [c|]; [|done]. cbn. intros Hp. pose proof sync_blocks as Hb.
  apply NoDup_cons in Hb as [H1 [H2 _]%NoDup_cons]. apply not_elem_of_cons in H1 as [_ H1].
  pose proof (list_elem_of_lookup_2 _ _ _ Hp). split_and!; [by intros ->..|by eauto].
Qed.

Lemma client_node_inj j j' p : client_node j = Some p → client_node j' = Some p → j = j'.
Proof.
  unfold client_node. destruct (rs !! j) as [c|] eqn:E; [|done]. destruct (rs !! j') as [c'|] eqn:E'; [|done]. cbn.
  intros H1 H2. pose proof (NoDup_lookup _ _ _ _ (ready_nodup _ _ Hready) H1 H2) as Ei.
  apply (NoDup_lookup _ j j' (c_idx c) Hdup); rewrite list_lookup_fmap ?E ?E' //=. by rewrite Ei.
Qed.

Lemma threads_compatible i j s s' : i ≠ j → thread_guar j s s' → thread_rely i s s'.
Proof.
  destruct i as [|i], j as [|j]; cbn; intros Hij; [done|..].
  - destruct (client_node j) as [p|] eqn:E; [|done]. destruct (client_node_in j p E) as (Hpa & _ & _).
    intros (Hs & Ho & Hn). split; [done|]. split; [by apply Ho|]. intros i t (q & n & Hq & Hqn & <-).
    destruct (decide (q = p)) as [->|].
    + destruct (Hn n Hqn) as (n' & Hn' & Hle & ?). exists (time n'). split; [by exists p, n'|done].
    + exists (time n). split; [exists q, n; by rewrite Ho|done].
  - destruct (client_node i) as [p|] eqn:E; [|done]. destruct (client_node_in i p E) as (Hpa & _ & _).
    intros [Hs Ho]. split; [done|]. by apply Ho.
  - destruct (client_node i) as [p|] eqn:E; [|done]. destruct (client_node j) as [q|] eqn:E'; [|done].
    intros (Hs & Ho & _). split; [done|]. apply Ho. intros ->. apply Hij. f_equal. by eapply client_node_inj.
Qed.

Definition start_times : list Z :=
  (λ p, match u_heap u !! p with Some (Node n) => time n | _ => 0 end) <$> nodes.

Lemma start_times_ok i v : start_times !! i = Some v → 0 ≤ v < 2 ^ 62 ∧ node_time nodes u i v.
Proof.
  unfold start_times. rewrite list_lookup_fmap. destruct (nodes !! i) as [p|] eqn:Hp; [|done]. intros [= <-].
  destruct (ready_nodes _ _ Hready i p Hp) as (_ & n & Hpn & Hle). rewrite Hpn. split; [lia|]. by exists p, n.
Qed.

Lemma start_times_of i t : node_time nodes u i t → start_times !! i = Some t.
Proof. intros (p & n & Hp & Hpn & <-). unfold start_times. by rewrite list_lookup_fmap Hp /= Hpn. Qed.

(** The waiting thread has waited for everybody. *)
Definition all_left (s : urcu_world) : Prop :=
  ∀ i v, (i < length nodes)%nat → start_times !! i = Some v → ∃ t, node_time nodes s i t ∧ left v t.

Lemma safe_syncing fuel :
  safe (thread_rely O) (thread_guar O) True (urcu_synchronize fuel self) (λ _, all_left) u.
Proof.
  destruct (ready_table _ _ Hready) as (cap & cells & Ht & Hc). pose proof Hsync as (Hat & smp & Ha). cbn.
  eapply safe_mono; [|apply safe_synchronize with (t0 := start_times) (cap := cap) (cells := cells)].
  - by intros [] s1 [_ H1].
  - exact Hc.
  - apply sync_blocks.
  - apply length_fmap.
  - split; [split; [apply (ready_threads _ _ Hready)|done]|]. split; [|exists smp; split; [done|lia]].
    intros i v Hv. destruct (start_times_ok i v Hv) as [? ?]. split; [lia|]. exists v. split; [done|lia].
Qed.

Lemma safe_client j c :
  rs !! j = Some c →
  safe (thread_rely (S j)) (thread_guar (S j)) True (urcu_reader (c_self c) (c_ops c)) (λ _ _, True) u.
Proof.
  intros Hj. pose proof (proj1 (Forall_lookup _ _) Hrs j c Hj) as (Hidx & Hi & Hops).
  destruct (ready_table _ _ Hready) as (cap & cells & Ht & Hc).
  destruct (lookup_lt_is_Some_2 nodes (c_idx c) Hidx) as [p Hp].
  assert (client_node j = Some p) as Hcn by (unfold client_node; by rewrite Hj).
  destruct (client_node_in j p Hcn) as (_ & Hpt & _). unfold thread_rely, thread_guar. rewrite Hcn.
  destruct (ready_nodes _ _ Hready _ p Hp) as (Hnull & n & Hpn & Hle).
  eapply safe_mono; [done|apply (safe_reader tbl (c_self c) cap (Z.of_nat (c_idx c)) p cells) with (B := 2 ^ 62)]; try done.
  - by apply Hc in Hp.
  - split_and!; try done. exists n. split; [done|lia].
  - lia.
Qed.
End together.

(** C23: one thread runs [urcu_synchronize] while others enter and leave read
    sections in any order: under every interleaving no thread faults, and when
    [urcu_synchronize] has returned, every section that was open at the start
    has ended. *)
Theorem urcu_grace_period u nodes self fuel rs :
  urcu_ready u nodes → can_sync u nodes self →
  NoDup (c_idx <$> rs) → Forall (client_ok u nodes) rs →
  ∀ s ps, rtc cstep (u, urcu_synchronize fuel self :: ((λ c, urcu_reader (c_self c) (c_ops c)) <$> rs)) (s, ps) →
    ¬ faulty (s, ps) ∧
    (ps !! O = Some (Ret ()) → ∀ i t, node_time nodes u i t → Z.even t = true → ∃ t', node_time nodes s i t' ∧ t < t').
Proof.
  intros Hready Hsync Hdup Hrs s ps Hstep.
  unshelve epose proof (parallel_safe (A := ()) (thread_rely u nodes self rs) (thread_guar u nodes self rs) True _ _
    (λ (i : nat) (_ : ()) s, i = O → all_left u nodes s) u _ (s, ps) Hstep) as [Hf Hq].
  - intros i j s1 s2. by apply threads_compatible.
  - intros [|j] p; [intros [= <-]; eapply safe_mono; [|by apply safe_syncing]; by intros [] s1 H1 _|].
    change ((?x :: ?l) !! S j) with (l !! j). rewrite list_lookup_fmap. destruct (rs !! j) as [c|] eqn:Hj; [|done]. intros [= <-].
    eapply safe_mono; [|by apply safe_client]. by intros.
  - split; [done|]. intros H0 i t Hit He. destruct (Hq O () H0 eq_refl i t) as (t' & Ht' & Hl).
    + destruct Hit as (p & n & Hp & _). by eapply lookup_lt_Some.
    + by apply start_times_of.
    + exists t'. split; [done|]. by apply Hl.
Qed.
