(* ===== verification/UrcuLive.v ===== *)
(** * Progress of user-level RCU

    [urcu_synchronize] runs while the counters of the readers follow a given
    history.  If in this history every section ends at some time, it returns. *)

From S2P Require Import Prelude Concur Urcu UrcuGrace.

(** The counters at the moment [m] are [h m]; nothing else that the waiting
    thread reads is changed. *)
Definition follows (nodes : list Z) (h : nat → nat → Z) (env : nat → urcu_world → urcu_world) : Prop :=
  ∀ m u, let u' := env m u in
    threads u' = threads u ∧ urcu_table u' = urcu_table u ∧ u_local u' = u_local u ∧
    (∀ q c x, u_heap u !! q = Some (Words c x) → u_heap u' !! q = Some (Words c x)) ∧
    (∀ i p n, nodes !! i = Some p → u_heap u !! p = Some (Node n) →
       ∃ n', u_heap u' !! p = Some (Node n') ∧ time n' = h m i).

(** Counters grow, and no section lasts for ever. *)
Record sections_end (h : nat → nat → Z) : Prop := {
  counter_range : ∀ m i, 0 ≤ h m i < 2 ^ 63;
  counter_grows : ∀ m i, h m i ≤ h (S m) i;
  section_ends : ∀ m i, Z.even (h m i) = true → ∃ m', (m ≤ m')%nat ∧ h m' i ≠ h m i;
}.

Section live.
Context (tbl a self cap : Z) (cells : gmap Z Z) (nodes : list Z).
Context (Hcells : ∀ i p, nodes !! i = Some p → cells !! Z.of_nat i = Some p).
Context (Hdup : NoDup (tbl :: a :: nodes)).
Context (h : nat → nat → Z) (Hh : sections_end h) (env : nat → urcu_world → urcu_world) (Henv : follows nodes h env).

Definition live_ok (smp : gmap Z Z) (u : urcu_world) : Prop :=
  threads u = Z.of_nat (length nodes) ∧ urcu_table u = tbl ∧ u_heap u !! tbl = Some (Words cap cells) ∧
  times (local u self) = a ∧ u_heap u !! a = Some (Words (Z.of_nat (length nodes)) smp) ∧
  ∀ i p, nodes !! i = Some p → ∃ n, u_heap u !! p = Some (Node n).

Lemma live_env smp m u : live_ok smp u → live_ok smp (env m u).
Proof.
  intros (H1 & H2 & H3 & H4 & H5 & H6). destruct (Henv m u) as (E1 & E2 & E3 & Hw & Hn).
  unfold live_ok, local in *. rewrite E1 E2 E3. split_and!; auto.
  intros i p Hp. destruct (H6 i p Hp) as [n Hpn]. destruct (Hn i p n Hp Hpn) as (n' & ? & _). eauto.
Qed.

(** One action that reads. *)
Lemma under_read {B} (op : urcu_world → effect urcu_world B) b smp m u :
  live_ok smp u → (∀ u, live_ok smp u → op u = Next b u) →
  ∃ u', run (under env (act op)) (m, u) = Done b (S m, u') ∧ live_ok smp u'.
Proof.
  intros Hu Hop. exists (env m u). rewrite under_act Hop; [by apply live_env|]. split; [done|by apply live_env].
Qed.

Lemma under_table_at i p smp m u :
  nodes !! i = Some p → live_ok smp u →
  ∃ u', run (under env (table_at (Z.of_nat i))) (m, u) = Done p (S (S m), u') ∧ live_ok smp u'.
Proof.
  intros Hp Hu. unfold table_at.
  destruct (under_read (λ u, Next (urcu_table u) u) tbl smp m u Hu) as (u1 & E1 & H1).
  { by intros u1 (_ & -> & _). }
  unfold u_rd. rewrite (under_bind_done _ _ _ _ _ _ E1). apply under_read; [done|].
  intros u2 (_ & _ & -> & _). by rewrite (Hcells i p Hp).
Qed.

Lemma under_times smp m u :
  live_ok smp u →
  ∃ u', run (under env (u_rd (λ u, times (local u self)))) (m, u) = Done a (S m, u') ∧ live_ok smp u'.
Proof. intros Hu. apply under_read; [done|]. by intros u1 (_ & _ & _ & -> & _). Qed.

Lemma under_time i p smp m u :
  nodes !! i = Some p → live_ok smp u →
  ∃ u', run (under env (node_get time p)) (m, u) = Done (h m i) (S m, u') ∧ live_ok smp u'.
Proof.
  intros Hp Hu. exists (env m u). split; [|by apply live_env]. unfold node_get. rewrite under_act.
  destruct Hu as (_ & _ & _ & _ & _ & Hn). destruct (Hn i p Hp) as [n Hpn].
  destruct (Henv m u) as (_ & _ & _ & _ & Ht). destruct (Ht i p n Hp Hpn) as (n' & -> & <-). done.
Qed.

Lemma under_word i x smp m u :
  smp !! Z.of_nat i = Some x → live_ok smp u →
  ∃ u', run (under env (word a (Z.of_nat i))) (m, u) = Done x (S m, u') ∧ live_ok smp u'.
Proof.
  intros Hx Hu. apply under_read; [done|]. intros u1 (_ & _ & _ & _ & -> & _). by rewrite Hx.
Qed.

(** The first loop takes every sample at some moment. *)
Lemma under_sample k smp m u :
  (k < length nodes)%nat → live_ok smp u →
  ∃ m1 m' u', run (under env (urcu_sample self (Z.of_nat k))) (m, u) = Done (Z.of_nat (S k)) (m', u') ∧
    live_ok (<[Z.of_nat k := h m1 k]> smp) u'.
Proof.
  intros Hk Hu. destruct (lookup_lt_is_Some_2 nodes k Hk) as [p Hp]. unfold urcu_sample.
  destruct (under_table_at k p smp m u Hp Hu) as (u1 & E1 & H1). rewrite (under_bind_done _ _ _ _ _ _ E1).
  destruct (under_time k p smp (S (S m)) u1 Hp H1) as (u2 & E2 & H2). rewrite (under_bind_done _ _ _ _ _ _ E2).
  destruct (under_times smp (S (S (S m))) u2 H2) as (u3 & E3 & H3). rewrite (under_bind_done _ _ _ _ _ _ E3).
  exists (S (S m)). eexists _, _. unfold set_word. rewrite under_bind under_act.
  apply (live_env _ (S (S (S (S m))))) in H3. pose proof H3 as (? & ? & Ht & ? & -> & Hn).
  replace ((0 <=? Z.of_nat k) && (Z.of_nat k <? Z.of_nat (length nodes))) with true by lia. cbn.
  split; [rewrite run_ret; do 2 f_equal; lia|].
  apply NoDup_cons in Hdup as [Hd1 [Hd2 _]%NoDup_cons].
  assert (∀ q, q ≠ a → ∀ X b, <[a := b]> X !! q = (X : gmap Z block) !! q) as Ho by (intros; by apply lookup_insert_ne).
  split_and!; try done; cbn.
  - rewrite Ho //. set_solver.
  - apply lookup_insert_eq.
  - intros i q Hq. destruct (Hn i q Hq) as [n Hqn]. exists n. rewrite Ho //. intros ->.
    by apply list_elem_of_lookup_2 in Hq.
Qed.

Lemma under_samples k n smp m u :
  (k + n = length nodes)%nat → live_ok smp u →
  (∀ i, (i < k)%nat → ∃ m, smp !! Z.of_nat i = Some (h m i)) →
  ∃ smp' m' u' c, run (under env (iterate n (urcu_sample self) (Z.of_nat k))) (m, u) = Done c (m', u') ∧
    live_ok smp' u' ∧ ∀ i, (i < length nodes)%nat → ∃ m, smp' !! Z.of_nat i = Some (h m i).
Proof.
  revert k smp m u. induction n as [|n IH]; intros k smp m u Hk Hu Hs.
  - exists smp, m, u, (Z.of_nat k). split; [done|]. split; [done|]. intros i Hi. apply Hs. lia.
  - destruct (under_sample k smp m u) as (m1 & m' & u' & E & H'); [lia|done|].
    rewrite under_iterate_S E. cbn [outcome_bind]. eapply IH; [lia|exact H'|]. intros i Hi.
    destruct (decide (i = k)) as [->|]; [exists m1; apply lookup_insert_eq|].
    rewrite lookup_insert_ne; [lia|]. apply Hs. lia.
Qed.

(** From the moment [M] on, the counters of the sections sampled have moved on. *)
Definition moved_on (smp : gmap Z Z) (k M : nat) : Prop :=
  ∀ i x m, (i < k)%nat → (M ≤ m)%nat → smp !! Z.of_nat i = Some x → Z.even x = true → x < h m i.

Lemma counter_mono m m' i : (m ≤ m')%nat → h m i ≤ h m' i.
Proof. induction 1; [done|]. pose proof (counter_grows _ Hh m0 i). lia. Qed.

Lemma moved_on_exists smp k :
  (∀ i, (i < k)%nat → ∃ m, smp !! Z.of_nat i = Some (h m i)) → ∃ M, moved_on smp k M.
Proof.
  induction k as [|k IH]; intros Hs; [exists O; intros ????; lia|].
  destruct IH as [M HM]; [intros; apply Hs; lia|]. destruct (Hs k) as [m Hm]; [lia|].
  assert (∃ M', ∀ m', (M' ≤ m')%nat → Z.even (h m k) = true → h m k < h m' k) as [M' HM'].
  { destruct (Z.even (h m k)) eqn:E; [|by exists O]. destruct (section_ends _ Hh m k E) as (m' & Hle & Hne).
    exists m'. intros m2 Hm2 _. pose proof (counter_mono m m' k Hle). pose proof (counter_mono m' m2 k Hm2). lia. }
  exists (max M M'). intros i x m2 Hi Hm2 Hx He. destruct (decide (i = k)) as [->|].
  - rewrite Hm in Hx. injection Hx as <-. apply HM'; [lia|done].
  - apply (HM i x m2); [lia|lia|done|done].
Qed.

Lemma under_wait k x M fuel smp m u :
  (k < length nodes)%nat → live_ok smp u → smp !! Z.of_nat k = Some x → Z.even x = true → moved_on smp (length nodes) M →
  0 ≤ x < 2 ^ 63 → (M < m + fuel)%nat → fuel ≠ O →
  ∃ m' u', run (under env (urcu_wait fuel self (Z.of_nat k))) (m, u) = Done () (m', u') ∧ live_ok smp u'.
Proof.
  intros Hk Hu Hx He HM Hr. destruct (lookup_lt_is_Some_2 nodes k Hk) as [p Hp]. unfold urcu_wait.
  revert m u Hu. induction fuel as [|fuel IH]; intros m u Hu Hf Hf0; [done|]. rewrite under_loop_S.
  destruct (under_table_at k p smp m u Hp Hu) as (u1 & E1 & H1). rewrite (under_bind_done _ _ _ _ _ _ E1).
  destruct (under_time k p smp (S (S m)) u1 Hp H1) as (u2 & E2 & H2). rewrite (under_bind_done _ _ _ _ _ _ E2).
  set (t := h (S (S m)) k). destruct (Z.odd t) eqn:Ho; [by exists (S (S (S m))), u2|].
  destruct (under_times smp (S (S (S m))) u2 H2) as (u3 & E3 & H3). rewrite (under_bind_done _ _ _ _ _ _ E3).
  destruct (under_word k x smp (S (S (S (S m)))) u3 Hx H3) as (u4 & E4 & H4). rewrite (under_bind_done _ _ _ _ _ _ E4).
  change (run (under env (mret ?r)) ?ms) with (Done (S := nat * urcu_world) r ms). cbn [outcome_bind].
  pose proof (counter_range _ Hh (S (S m)) k). rewrite !wrap64_small; [unfold ULONG_MAX; lia..|]. fold t.
  destruct (Z.ltb_spec x t) as [Hlt|Hge]; [by exists (S (S (S (S (S m))))), u4|].
  assert (S (S m) < M)%nat as HmM.
  { destruct (decide (M ≤ S (S m))%nat) as [HMm|]; [|lia]. pose proof (HM k x (S (S m)) Hk HMm Hx He). unfold t in *. lia. }
  apply IH; [done|lia|lia].
Qed.

Lemma under_wait_one k M fuel smp m u :
  (k < length nodes)%nat → live_ok smp u → (∃ m, smp !! Z.of_nat k = Some (h m k)) → moved_on smp (length nodes) M →
  (M < fuel)%nat →
  ∃ m' u', run (under env (urcu_wait_one fuel self (Z.of_nat k))) (m, u) = Done (Z.of_nat (S k)) (m', u') ∧ live_ok smp u'.
Proof.
  intros Hk Hu [ms Hx] HM Hf. unfold urcu_wait_one.
  destruct (under_times smp m u Hu) as (u1 & E1 & H1). rewrite (under_bind_done _ _ _ _ _ _ E1).
  destruct (under_word k _ smp (S m) u1 Hx H1) as (u2 & E2 & H2). rewrite (under_bind_done _ _ _ _ _ _ E2).
  replace (Z.of_nat k + 1) with (Z.of_nat (S k)) by lia.
  destruct (Z.odd (h ms k)) eqn:Ho; [by exists (S (S m)), u2|]. rewrite -Z.negb_even in Ho. apply negb_false_iff in Ho.
  destruct (under_wait k _ M fuel smp (S (S m)) u2 Hk H2 Hx Ho HM) as (m' & u' & E & H'); [apply Hh|lia|lia|].
  rewrite (under_bind_done _ _ _ _ _ _ E). by exists m', u'.
Qed.

Lemma under_waits k n M fuel smp m u :
  (k + n = length nodes)%nat → live_ok smp u → (∀ i, (i < length nodes)%nat → ∃ m, smp !! Z.of_nat i = Some (h m i)) →
  moved_on smp (length nodes) M → (M < fuel)%nat →
  ∃ m' u' c, run (under env (iterate n (urcu_wait_one fuel self) (Z.of_nat k))) (m, u) = Done c (m', u').
Proof.
  revert k m u. induction n as [|n IH]; intros k m u Hk Hu Hs HM Hf; [by exists m, u, (Z.of_nat k)|].
  destruct (under_wait_one k M fuel smp m u) as (m' & u' & E & H'); [lia|done|apply Hs; lia|done|done|].
  rewrite under_iterate_S E. cbn [outcome_bind]. apply IH; [lia|done..].
Qed.
(** Both loops, the second with a bound that depends on the samples. *)
Lemma under_synchronize smp u :
  live_ok smp u → ∃ F, ∀ fuel, (F ≤ fuel)%nat → ∃ m s, run (under env (urcu_synchronize fuel self)) (O, u) = Done () (m, s).
Proof.
  intros Hu. unfold urcu_synchronize.
  assert (∀ smp m u, live_ok smp u → ∃ u', run (under env (u_rd threads)) (m, u) = Done (Z.of_nat (length nodes)) (S m, u') ∧ live_ok smp u')
    as Hth by (intros; apply under_read; [done|]; by intros u1 (-> & _)).
  destruct (Hth smp O u Hu) as (u1 & E1 & H1).
  destruct (under_samples O (length nodes) smp 1 u1) as (smp' & m' & u' & c & E2 & H2 & Hs); [lia|done|lia|].
  destruct (moved_on_exists smp' (length nodes) Hs) as [M HM].
  destruct (Hth smp' m' u' H2) as (u3 & E3 & H3).
  exists (S M). intros fuel Hf.
  destruct (under_waits O (length nodes) M fuel smp' (S m') u3) as (m4 & u4 & c4 & E4); [lia|done|done|done|lia|].
  exists m4, u4. rewrite (under_bind_done _ _ _ _ _ _ E1) Nat2Z.id (under_bind_done _ _ _ _ _ _ E2).
  by rewrite (under_bind_done _ _ _ _ _ _ E3) Nat2Z.id (under_bind_done _ _ _ _ _ _ E4).
Qed.
End live.

(** C24: [urcu_synchronize] returns if the sections of the readers end: for
    every history of the counters in which they only grow and no even value
    lasts for ever, there is a bound on the number of rounds of its loops with
    which it returns, whatever larger bound is given. *)
Theorem urcu_synchronize_returns u nodes self h env :
  urcu_ready u nodes → can_sync u nodes self → sections_end h → follows nodes h env →
  ∃ F, ∀ fuel, (F ≤ fuel)%nat →
    ∃ m s, run (under env (urcu_synchronize fuel self)) (O, u) = Done () (m, s).
Proof.
  intros Hready Hsync Hh Henv. pose proof (sync_blocks u nodes self Hready Hsync) as Hdup.
  pose proof Hready as [Hth (cap & cells & Ht & Hc) Hn _]. pose proof Hsync as (_ & smp & Ha).
  apply (under_synchronize (urcu_table u) (times (local u self)) self cap cells nodes Hc Hdup h Hh env Henv smp).
  split_and!; try done. intros i p Hp. destruct (Hn i p Hp) as (_ & n & ? & _). eauto.
Qed.
