(* ===== verification/UrcuFree.v ===== *)
(** * Setting up user-level RCU, and deferred freeing

    [urcu_init] and [urcu_register] establish what the other theorems start
    from; [urcu_free] collects pointers and frees them a thousand at a time,
    after a grace period. *)

From S2P Require Import Prelude Concur Urcu UrcuGrace.

(** Evaluate up to the next access. *)
Ltac go := repeat (progress (rewrite ?run_bind ?run_ret ?run_act; cbn [outcome_bind])).

Lemma run_node_get {V} (get : rcu_node → V) u q m : u_heap u !! q = Some (Node m) → run (node_get get q) u = Done (get m) u.
Proof. intros H. unfold node_get. by rewrite run_act H. Qed.
Lemma run_node_upd f u q m :
  u_heap u !! q = Some (Node m) → run (node_upd q f) u = Done () (u <| u_heap ::= <[q := Node (f m)]> |>).
Proof. intros H. unfold node_upd. by rewrite run_act H. Qed.

(** ** Setting up *)

Definition with_nodes (result cap : Z) (news : list Z) (cells : gmap Z Z) (rest : list Z) (u : urcu_world) : Prop :=
  u_heap u !! result = Some (Words cap cells) ∧ u_malloc u = rest ∧
  (∀ i p, news !! i = Some p → cells !! Z.of_nat i = Some p ∧ u_heap u !! p = Some (Node (RcuNode 1 0 ∅))).

Lemma run_init_nodes result cap done_ news rest cells u :
  NoDup (result :: done_ ++ news) → NULL ∉ news → Z.of_nat (length (done_ ++ news)) ≤ cap →
  with_nodes result cap done_ cells (news ++ rest) u →
  ∃ cells' u' c, run (iterate (length news) (λ i,
      new ← u_alloc (Node (RcuNode 0 0 ∅));
      node_upd new (λ n, n <| time := 1 |>);; node_upd new (λ n, n <| f_size := 0 |>);;
      set_word result i new;; mret (i + 1)) (Z.of_nat (length done_))) u = Done c u' ∧
    with_nodes result cap (done_ ++ news) cells' rest u' ∧ threads u' = threads u ∧ u_local u' = u_local u.
Proof.
  revert done_ cells u. induction news as [|p news IH]; intros done_ cells u Hnd Hnull Hcap (Hr & Hm & Hn).
  { exists cells, u, (Z.of_nat (length done_)). rewrite app_nil_r. split; [done|]. by split_and!. }
  apply not_elem_of_cons in Hnull as [Hp Hnull]. rewrite length_app in Hcap. cbn in Hcap.
  assert (p ≠ result ∧ p ∉ done_) as [Hpr Hpd].
  { apply NoDup_cons in Hnd as [Hd1 [_ [Hd2 _]]%NoDup_app]. split; [set_solver|]. intros H. by apply (Hd2 p H), list_elem_of_here. }
  set (u1 := u <| u_malloc := news ++ rest |> <| u_heap ::= λ H, <[result := Words cap (<[Z.of_nat (length done_) := p]> cells)]> (<[p := Node (RcuNode 1 0 ∅)]> H) |>).
  destruct (IH (done_ ++ [p]) (<[Z.of_nat (length done_) := p]> cells) u1) as (cells' & u' & c & E & H' & ? & ?).
  - by rewrite -app_assoc.
  - done.
  - rewrite !length_app. cbn. lia.
  - split; [apply lookup_insert_eq|]. split; [done|]. intros i q Hq. cbn.
    assert (q ≠ result) as Hqr.
    { intros ->. apply NoDup_cons in Hnd as [Hd1 _]. apply list_elem_of_lookup_2 in Hq. set_solver. }
    rewrite (lookup_insert_ne _ result) //. apply lookup_app_Some in Hq as [Hq|[Hle Hq]].
    + rewrite !lookup_insert_ne; [by apply lookup_lt_Some in Hq; lia| |by apply Hn].
      intros <-. apply Hpd. by eapply list_elem_of_lookup_2.
    + destruct (i - length done_)%nat eqn:Ei; [|done]. injection Hq as <-.
      replace i with (length done_) by lia. by rewrite !lookup_insert_eq.
  - exists cells', u', c. rewrite -app_assoc in H'. split; [|by split_and!].
    change (length (p :: news)) with (S (length news)). rewrite run_iterate_S. unfold u_alloc at 1. rewrite run_bind run_act Hm.
    cbn [outcome_bind app]. destruct (Z.eqb_spec p NULL); [done|].
    erewrite run_bind_done; [|apply run_node_upd, lookup_insert_eq].
    erewrite run_bind_done; [|apply run_node_upd, lookup_insert_eq]. unfold set_word. rewrite run_bind run_act.
    change (u_heap (?u <| u_heap ::= <[p := ?y]> |>)) with (<[p := y]> (u_heap u)).
    rewrite !insert_insert_eq. cbn. rewrite lookup_insert_ne // Hr.
    replace ((0 <=? Z.of_nat (length done_)) && (Z.of_nat (length done_) <? cap)) with true by lia. cbn.
    rewrite run_ret. cbn. rewrite length_app in E. cbn in E. replace (Z.of_nat (length done_) + 1) with (Z.of_nat (length done_ + 1)) by lia.
    rewrite -E. f_equal. unfold u1. cbv beta delta [field_map]. cbn. by rewrite !insert_insert_eq.
Qed.

Lemma run_spin_init k m u :
  Z.of_nat (k + m) = MAX_SPIN_LOCKS →
  ∃ sp c, run (iterate m (λ i, spin_init i;; mret (i + 1)) (Z.of_nat k)) u = Done c (u <| urcu_spin := sp |>) ∧
    (∀ i, Z.of_nat k ≤ i < MAX_SPIN_LOCKS → sp !! i = Some false) ∧ ∀ i, i < Z.of_nat k → sp !! i = urcu_spin u !! i.
Proof.
  revert k u. induction m as [|m IH]; intros k u Hk.
  - exists (urcu_spin u), (Z.of_nat k). split; [by destruct u|]. split; [lia|done].
  - destruct (IH (S k) (u <| urcu_spin ::= <[Z.of_nat k := false]> |>)) as (sp & c & E & H1 & H2); [lia|].
    exists sp, c. split; [|split].
    + rewrite run_iterate_S. unfold spin_init at 1. replace ((0 <=? Z.of_nat k) && (Z.of_nat k <? MAX_SPIN_LOCKS)) with true by lia.
      unfold u_wr at 1. rewrite run_bind run_act. cbn [outcome_bind]. rewrite run_ret. cbn [outcome_bind].
      replace (Z.of_nat k + 1) with (Z.of_nat (S k)) by lia. rewrite E. by destruct u.
    + intros i Hi. destruct (decide (i = Z.of_nat k)) as [->|]; [|apply H1; lia].
      rewrite H2; [lia|]. apply lookup_insert_eq.
    + intros i Hi. rewrite H2; [lia|]. apply lookup_insert_ne. lia.
Qed.

(** [urcu_init] makes a table with a node for each thread, none of them in a
    section, and all writer locks are free. *)
Lemma urcu_init_ready u result news rest :
  u_malloc u = result :: news ++ rest → NoDup (result :: news) → NULL ∉ result :: news →
  ∃ u', run (urcu_init (Z.of_nat (length news))) u = Done () u' ∧ urcu_ready u' news ∧ u_malloc u' = rest ∧
    u_local u' = u_local u ∧ (∀ i, 0 ≤ i < MAX_SPIN_LOCKS → urcu_spin u' !! i = Some false) ∧
    ∀ i t, node_time news u' i t → Z.odd t = true.
Proof.
  intros Hm Hnd [Hr Hnull]%not_elem_of_cons. set (cap := sizeof_rcu_node * Z.of_nat (length news) / 8).
  set (u1 := u <| u_malloc := news ++ rest |> <| u_heap ::= <[result := Words cap ∅]> |> <| threads := Z.of_nat (length news) |>).
  destruct (run_init_nodes result cap [] news rest ∅ u1) as (cells & u2 & c & E & (Hres & Hmal & Hnodes) & Hth & Hloc); [done|done| | |].
  { unfold cap, sizeof_rcu_node. cbn. pose proof (Z.div_le_mono (8 * Z.of_nat (length news)) (8200 * Z.of_nat (length news)) 8).
    rewrite (Z.mul_comm 8) Z.div_mul in H; lia. }
  { split; [apply lookup_insert_eq|]. by split. }
  set (u3 := u2 <| urcu_table := result |>).
  destruct (run_spin_init 0 (Z.to_nat MAX_SPIN_LOCKS) u3) as (sp & c' & E' & Hsp & _); [rewrite Nat.add_0_l Z2Nat.id //|].
  exists (u3 <| urcu_spin := sp |>). split; [|split; [|split; [exact Hmal|split; [exact Hloc|split; [exact Hsp|]]]]].
  - unfold urcu_init, u_alloc at 1. rewrite run_bind run_act Hm. cbn [outcome_bind].
    destruct (Z.eqb_spec result NULL) as [En|]; [exfalso; exact (Hr (eq_sym En))|]. unfold u_wr. rewrite run_bind run_act. cbn [outcome_bind].
    rewrite Nat2Z.id. rewrite (run_bind_done _ _ _ _ _ E).
    rewrite run_bind run_act. cbn [outcome_bind].
    rewrite (run_bind_done _ _ _ _ _ E'). apply run_ret.
  - constructor; [by rewrite /= Hth|by exists cap, cells; split; [|intros; by apply Hnodes]| |by apply NoDup_cons in Hnd as [_ ?]].
    intros i p Hp. split; [intros ->; apply Hnull; by eapply list_elem_of_lookup_2|].
    eexists. split; [by eapply Hnodes|]. cbn. lia.
  - intros i t (p & n & Hp & Hpn & <-). destruct (Hnodes i p Hp) as [_ H]. cbn in Hpn. rewrite H in Hpn. by injection Hpn as <-.
Qed.

(** [urcu_register] gives a thread its number and room for the samples. *)
Lemma urcu_register_ready u nodes self a rest idx :
  urcu_ready u nodes → u_malloc u = a :: rest → a ≠ NULL → u_heap u !! a = None →
  ∃ u', run (urcu_register self idx) u = Done () u' ∧ urcu_ready u' nodes ∧ can_sync u' nodes self ∧
    my_i (local u' self) = idx ∧ u_malloc u' = rest.
Proof.
  intros [Hth (cap & cells & Ht & Hc) Hn Hnd] Hm Ha Hfree.
  set (u1 := u <| u_malloc := rest |> <| u_heap ::= <[a := Words (threads u) ∅]> |> <| u_local ::= <[self := UrcuLocal a idx]> |>).
  assert (local u1 self = UrcuLocal a idx) as Hl by (unfold local; cbn; by rewrite lookup_insert_eq).
  assert (∀ q b, u_heap u !! q = Some b → u_heap u1 !! q = Some b) as Hk.
  { intros q b Hq. rewrite -Hq. apply lookup_insert_ne. congruence. }
  exists u1. split_and!; [| | |by rewrite Hl|done].
  - unfold urcu_register, u_rd, u_alloc, u_wr. rewrite run_bind run_act. cbn [outcome_bind]. rewrite run_bind run_act Hm.
    cbn [outcome_bind]. destruct (Z.eqb_spec a NULL); [done|]. rewrite run_bind run_act. by cbn [outcome_bind].
  - constructor; [done|exists cap, cells; by split; [apply Hk|]| |done].
    intros i p Hp. destruct (Hn i p Hp) as (? & n & ? & ?). split; [done|]. exists n. split; [by apply Hk|done].
  - rewrite /can_sync Hl. cbn. split; [intros ->; change (urcu_table u1) with (urcu_table u) in *; congruence|].
    exists ∅. rewrite lookup_insert_eq. by rewrite Hth.
Qed.

Section free.
Context (nodes : list Z) (self : Z) (idx : nat) (p : Z).

(** The thread [self] is registered as number [idx] with the node [p]; no
    thread is in a section; [smp] are the samples. *)
Record quiet (n : rcu_node) (smp : gmap Z Z) (u : urcu_world) : Prop := {
  quiet_threads : threads u = Z.of_nat (length nodes);
  quiet_table : ∃ cap cells, u_heap u !! urcu_table u = Some (Words cap cells) ∧
    ∀ i q, nodes !! i = Some q → cells !! Z.of_nat i = Some q;
  quiet_nodes : ∀ i q, nodes !! i = Some q → ∃ m, u_heap u !! q = Some (Node m) ∧ Z.odd (time m) = true;
  quiet_idx : my_i (local u self) = Z.of_nat idx;
  quiet_node : nodes !! idx = Some p;
  quiet_own : u_heap u !! p = Some (Node n);
  quiet_times : times (local u self) ≠ urcu_table u;
  quiet_samples : u_heap u !! times (local u self) = Some (Words (Z.of_nat (length nodes)) smp);
}.

Lemma quiet_table_at n smp u i q : quiet n smp u → nodes !! i = Some q → run (table_at (Z.of_nat i)) u = Done q u.
Proof.
  intros [_ (cap & cells & Ht & Hc) _ _ _ _ _ _] Hq. unfold table_at, u_rd, word. go. by rewrite Ht (Hc i q Hq).
Qed.

Lemma quiet_my_node n smp u : quiet n smp u → run (my_node self) u = Done p u.
Proof.
  intros Hq. unfold my_node, u_rd. go. rewrite (quiet_idx _ _ _ Hq).
  eapply quiet_table_at; [done|]. by apply (quiet_node _ _ _ Hq).
Qed.

(** A block that is neither the table nor a node nor the samples may change,
    and so may what the thread's own node holds apart from its counter. *)
Lemma quiet_free n smp u q : quiet n smp u → u_heap u !! q = Some Object → quiet n smp (u <| u_heap ::= delete q |>).
Proof.
  intros [H1 (cap & cells & Ht & Hc) H3 H4 H5 H6 H7 H8] Hq.
  assert (∀ x b, u_heap u !! x = Some b → b ≠ Object → (u <| u_heap ::= delete q |>).(u_heap) !! x = Some b) as Hk.
  { intros x b Hx Hb. rewrite -Hx. apply lookup_delete_ne. congruence. }
  constructor; try done.
  - exists cap, cells. split; [by apply Hk|done].
  - intros i x Hx. destruct (H3 i x Hx) as (m & ? & ?). exists m. split; [by apply Hk|done].
  - by apply Hk.
  - by apply Hk.
Qed.

Lemma quiet_own_set n n' smp u :
  quiet n smp u → time n' = time n → quiet n' smp (u <| u_heap ::= <[p := Node n']> |>).
Proof.
  intros [H1 (cap & cells & Ht & Hc) H3 H4 H5 H6 H7 H8] En.
  assert (∀ x c y, u_heap u !! x = Some (Words c y) → (u <| u_heap ::= <[p := Node n']> |>).(u_heap) !! x = Some (Words c y)) as Hk.
  { intros x c y Hx. rewrite -Hx. apply lookup_insert_ne. congruence. }
  constructor; try done.
  - exists cap, cells. split; [by apply Hk|done].
  - intros i x Hx. destruct (H3 i x Hx) as (m & Hm & Ho). destruct (decide (x = p)) as [->|].
    + exists n'. split; [apply lookup_insert_eq|]. rewrite En. congruence.
    + exists m. split; [|done]. rewrite -Hm. by apply lookup_insert_ne.
  - apply lookup_insert_eq.
  - by apply Hk.
Qed.

Lemma quiet_sample_set n smp smp' u :
  quiet n smp u → quiet n smp' (u <| u_heap ::= <[times (local u self) := Words (Z.of_nat (length nodes)) smp']> |>).
Proof.
  intros [H1 (cap & cells & Ht & Hc) H3 H4 H5 H6 H7 H8].
  assert (∀ x m, u_heap u !! x = Some (Node m) → ∀ b, <[times (local u self) := b]> (u_heap u) !! x = Some (Node m)) as Hk.
  { intros x m Hx b. rewrite -Hx. apply lookup_insert_ne. congruence. }
  constructor; try done.
  - exists cap, cells. split; [|done]. rewrite -Ht. by apply lookup_insert_ne.
  - intros i x Hx. destruct (H3 i x Hx) as (m & ? & ?). exists m. split; [by apply Hk|done].
  - by apply Hk.
  - apply lookup_insert_eq.
Qed.

(** ** A grace period without readers *)

Definition resampled (smp : gmap Z Z) (u : urcu_world) : urcu_world :=
  u <| u_heap ::= <[times (local u self) := Words (Z.of_nat (length nodes)) smp]> |>.

Lemma resampled_twice smp smp' u : resampled smp' (resampled smp u) = resampled smp' u.
Proof. unfold resampled. cbn. cbv beta delta [field_map]. cbn. f_equal. apply insert_insert_eq. Qed.

Lemma resampled_id n smp u : quiet n smp u → resampled smp u = u.
Proof.
  intros Hq. unfold resampled. destruct u. cbn in *. cbv beta delta [field_map]. cbn. f_equal.
  apply insert_id, (quiet_samples _ _ _ Hq).
Qed.

(** The first [k] samples are odd. *)
Definition odd_samples (k : nat) (smp : gmap Z Z) : Prop :=
  ∀ i, (i < k)%nat → ∃ x, smp !! Z.of_nat i = Some x ∧ Z.odd x = true.

Lemma run_samples k m n smp u :
  (k + m = length nodes)%nat → quiet n smp u → odd_samples k smp →
  ∃ smp' c, run (iterate m (urcu_sample self) (Z.of_nat k)) u = Done c (resampled smp' u) ∧
    quiet n smp' (resampled smp' u) ∧ odd_samples (length nodes) smp'.
Proof.
  revert k smp u. induction m as [|m IH]; intros k smp u Hk Hq Hs.
  - exists smp, (Z.of_nat k). rewrite (resampled_id n smp u Hq). split; [done|]. split; [done|]. by replace (length nodes) with k by lia.
  - destruct (lookup_lt_is_Some_2 nodes k) as [q Hq']; [lia|]. destruct (quiet_nodes _ _ _ Hq k q Hq') as (x & Hx & Ho).
    assert (run (urcu_sample self (Z.of_nat k)) u = Done (Z.of_nat (S k)) (resampled (<[Z.of_nat k := time x]> smp) u)) as E.
    { unfold urcu_sample. rewrite (run_bind_done _ _ _ _ _ (quiet_table_at _ _ _ _ _ Hq Hq')).
      unfold node_get, u_rd, set_word. go. rewrite Hx. go. rewrite (quiet_samples _ _ _ Hq).
      replace ((0 <=? Z.of_nat k) && (Z.of_nat k <? Z.of_nat (length nodes))) with true by lia. go. f_equal. lia. }
    destruct (IH (S k) (<[Z.of_nat k := time x]> smp) (resampled (<[Z.of_nat k := time x]> smp) u)) as (smp' & c & E' & H1 & H2).
    + lia.
    + by eapply quiet_sample_set.
    + intros i Hi. destruct (decide (i = k)) as [->|]; [exists (time x); by rewrite lookup_insert_eq|].
      rewrite lookup_insert_ne; [lia|]. apply Hs. lia.
    + rewrite resampled_twice in E', H1. exists smp', c. rewrite run_iterate_S E. cbn [outcome_bind]. done.
Qed.

Lemma run_waits k m fuel n smp u :
  (k + m = length nodes)%nat → quiet n smp u → odd_samples (length nodes) smp →
  ∃ c, run (iterate m (urcu_wait_one fuel self) (Z.of_nat k)) u = Done c u.
Proof.
  revert k. induction m as [|m IH]; intros k Hk Hq Hs; [by eexists|].
  destruct (Hs k) as (x & Hx & Ho); [lia|]. rewrite run_iterate_S.
  assert (run (urcu_wait_one fuel self (Z.of_nat k)) u = Done (Z.of_nat (S k)) u) as ->.
  { unfold urcu_wait_one, u_rd, word. go. rewrite (quiet_samples _ _ _ Hq) Hx. go. rewrite Ho. go. f_equal. lia. }
  cbn [outcome_bind]. apply IH; [lia|done|done].
Qed.

Lemma run_synchronize fuel n smp u :
  quiet n smp u → ∃ smp', run (urcu_synchronize fuel self) u = Done () (resampled smp' u) ∧ quiet n smp' (resampled smp' u).
Proof.
  intros Hq. destruct (run_samples O (length nodes) n smp u) as (smp' & c & E & H1 & H2); [lia|done|intros ?; lia|].
  destruct (run_waits O (length nodes) fuel n smp' (resampled smp' u)) as (c' & E'); [lia|done|done|].
  exists smp'. split; [|done]. unfold urcu_synchronize, u_rd. go. rewrite (quiet_threads _ _ _ Hq) Nat2Z.id.
  rewrite E. go. rewrite (quiet_threads _ _ _ H1) Nat2Z.id. by rewrite E'.
Qed.

(** ** Freeing a batch *)

Definition released (qs : list Z) (u : urcu_world) : urcu_world :=
  foldl (λ u q, u <| u_heap ::= delete q |>) u qs.

Lemma freed_heap qs u x : u_heap (released qs u) !! x = if decide (x ∈ qs) then None else u_heap u !! x.
Proof.
  revert u. induction qs as [|q qs IH]; intros u; [done|]. change (released (q :: qs) u) with (released qs (u <| u_heap ::= delete q |>)).
  rewrite IH. change (u_heap (u <| u_heap ::= delete q |>)) with (delete q (u_heap u)).
  destruct (decide (x = q)) as [->|Hx].
  - rewrite lookup_delete_eq. repeat case_decide; set_solver.
  - rewrite lookup_delete_ne //. repeat case_decide; set_solver.
Qed.

Lemma run_free_loop k qs n smp u :
  quiet n smp u → (∀ j q, qs !! j = Some q → free_ptrs n !! Z.of_nat (k + j) = Some q) →
  NoDup qs → (∀ q, q ∈ qs → q ≠ NULL ∧ u_heap u !! q = Some Object) →
  ∃ c, run (iterate (length qs) (λ k, p ← my_node self; q ← free_ptr p k; u_free q;; mret (k + 1)) (Z.of_nat k)) u
       = Done c (released qs u) ∧ quiet n smp (released qs u).
Proof.
  revert k u. induction qs as [|q qs IH]; intros k u Hq Hp Hnd Ho; [by eexists|].
  apply NoDup_cons in Hnd as [Hni Hnd]. destruct (Ho q) as [Hnull Hobj]; [set_solver|].
  destruct (IH (S k) (u <| u_heap ::= delete q |>)) as (c & E & H').
  - by apply quiet_free.
  - intros j x Hx. specialize (Hp (S j) x Hx). by replace (S k + j)%nat with (k + S j)%nat by lia.
  - done.
  - intros x Hx. destruct (Ho x) as [? Hxo]; [set_solver|]. split; [done|]. rewrite -Hxo. apply lookup_delete_ne. by intros ->.
  - exists c. split; [|exact H']. change (length (q :: qs)) with (S (length qs)). rewrite run_iterate_S.
    rewrite (run_bind_done _ _ _ _ _ (quiet_my_node n smp u Hq)). unfold free_ptr, u_free. go.
    rewrite (quiet_own _ _ _ Hq). specialize (Hp O q eq_refl). rewrite Nat.add_0_r in Hp. rewrite Hp. go.
    destruct (Z.eqb_spec q NULL); [done|]. rewrite Hobj. go. replace (Z.of_nat k + 1) with (Z.of_nat (S k)) by lia. exact E.
Qed.

(** A grace period, and the batch is freed. *)
Lemma run_batch fuel n smp u qs :
  quiet n smp u → Z.of_nat (length qs) = f_size n →
  (∀ j q, qs !! j = Some q → free_ptrs n !! Z.of_nat j = Some q) →
  NoDup qs → (∀ q, q ∈ qs → q ≠ NULL ∧ u_heap u !! q = Some Object) →
  ∃ smp' u', run (urcu_synchronize fuel self;;
      p ← my_node self; n ← node_get f_size p;
      iterate (Z.to_nat n) (λ k, p ← my_node self; q ← free_ptr p k; u_free q;; mret (k + 1)) 0;;
      p ← my_node self; node_upd p (λ n, n <| f_size := 0 |>)) u = Done () u' ∧
    quiet (n <| f_size := 0 |>) smp' u' ∧
    (∀ q, q ∈ qs → u_heap u' !! q = None) ∧
    ∀ x, x ∉ qs → x ≠ p → x ≠ times (local u self) → u_heap u' !! x = u_heap u !! x.
Proof.
  intros Hq Hlen Hp Hnd Ho. destruct (run_synchronize fuel n smp u Hq) as (smp' & E1 & H1).
  set (u1 := resampled smp' u) in *.
  assert (∀ x, x ≠ times (local u self) → u_heap u1 !! x = u_heap u !! x) as Hu1 by (intros x Hx; by apply lookup_insert_ne).
  destruct (run_free_loop O qs n smp' u1 H1 Hp Hnd) as (c & E2 & H2).
  { intros q Hqi. destruct (Ho q Hqi) as [? Hqo]. split; [done|]. rewrite Hu1 //. intros ->.
    rewrite (quiet_samples _ _ _ Hq) in Hqo. done. }
  set (n0 := n <| f_size := 0 |>). pose proof (quiet_own_set n n0 smp' (released qs u1) H2 eq_refl) as H3.
  exists smp'. eexists. split; [|split; [exact H3|]].
  - rewrite (run_bind_done _ _ _ _ _ E1) (run_bind_done _ _ _ _ _ (quiet_my_node _ _ _ H1)). unfold node_get, node_upd. go.
    rewrite (quiet_own _ _ _ H1). go. rewrite -Hlen Nat2Z.id. change 0 with (Z.of_nat 0) at 1. rewrite E2. cbn [outcome_bind].
    rewrite (run_bind_done _ _ _ _ _ (quiet_my_node _ _ _ H2)). go. by rewrite (quiet_own _ _ _ H2).
  - split; [intros q Hqi|intros x Hx Hxp Hxa].
    + change (<[p := Node n0]> (u_heap (released qs u1)) !! q = None).
      rewrite lookup_insert_ne; [|by rewrite freed_heap decide_True]. intros <-.
      destruct (Ho p Hqi) as [_ Hpo]. rewrite (quiet_own _ _ _ Hq) in Hpo. done.
    + change (<[p := Node n0]> (u_heap (released qs u1)) !! x = u_heap u !! x).
      rewrite lookup_insert_ne // freed_heap decide_False //. by apply Hu1.
Qed.

(** Storing the pointer. *)
Definition with_ptr (n : rcu_node) (ptr : Z) : rcu_node :=
  n <| free_ptrs ::= <[f_size n := ptr]> |> <| f_size ::= λ k, k + 1 |>.

Lemma run_store_ptr {A} (k : uprog A) n smp u ptr :
  quiet n smp u → 0 ≤ f_size n < URCU_MAX_FREE_PTRS →
  run (p ← my_node self; n ← node_get f_size p; set_free_ptr p n ptr;;
       p ← my_node self; node_upd p (λ n, n <| f_size ::= λ k, k + 1 |>);; k) u
  = run k (u <| u_heap ::= <[p := Node (with_ptr n ptr)]> |>) ∧
  quiet (with_ptr n ptr) smp (u <| u_heap ::= <[p := Node (with_ptr n ptr)]> |>).
Proof.
  intros Hq Hn. split; [|by eapply quiet_own_set].
  rewrite (run_bind_done _ _ _ _ _ (quiet_my_node n smp u Hq)).
  rewrite (run_bind_done _ _ _ _ _ (run_node_get f_size _ _ _ (quiet_own _ _ _ Hq))). unfold set_free_ptr.
  replace ((0 <=? f_size n) && (f_size n <? URCU_MAX_FREE_PTRS)) with true by lia.
  rewrite (run_bind_done _ _ _ _ _ (run_node_upd _ _ _ _ (quiet_own _ _ _ Hq))).
  set (n1 := n <| free_ptrs ::= <[f_size n := ptr]> |>). set (u1 := u <| u_heap ::= <[p := Node n1]> |>).
  assert (quiet n1 smp u1) as H1 by by eapply quiet_own_set.
  rewrite (run_bind_done _ _ _ _ _ (quiet_my_node n1 smp u1 H1)).
  rewrite (run_bind_done _ _ _ _ _ (run_node_upd _ _ _ _ (quiet_own _ _ _ H1))). f_equal. unfold u1. cbn.
  cbv beta delta [field_map]. cbn. f_equal. apply insert_insert_eq.
Qed.
End free.

(** What [urcu_free] leaves behind: the pointer is recorded, or the batch is
    freed. *)
Definition recorded (p ptr : Z) (qs : list Z) (n n' : rcu_node) (u u' : urcu_world) : Prop :=
  f_size n' = f_size n + 1 ∧ (∀ k q, (qs ++ [ptr]) !! k = Some q → free_ptrs n' !! Z.of_nat k = Some q) ∧
  ∀ x, x ≠ p → u_heap u' !! x = u_heap u !! x.
Definition batch_freed (p a ptr : Z) (qs : list Z) (n' : rcu_node) (u u' : urcu_world) : Prop :=
  f_size n' = 0 ∧ (∀ q, q ∈ qs ++ [ptr] → u_heap u' !! q = None) ∧
  ∀ x, x ∉ qs ++ [ptr] → x ≠ p → x ≠ a → u_heap u' !! x = u_heap u !! x.

(** [urcu_free] while no section is open: the pointer is recorded in the
    thread's node until there are a thousand; then all of them are freed, each
    once, nothing else is, and the record is empty again. *)
Theorem urcu_free_batches nodes self idx p fuel u n smp ptr qs :
  quiet nodes self idx p n smp u → Z.of_nat (length qs) = f_size n → f_size n < URCU_MAX_FREE_PTRS →
  (∀ k q, qs !! k = Some q → free_ptrs n !! Z.of_nat k = Some q) →
  NoDup (qs ++ [ptr]) → (∀ q, q ∈ qs ++ [ptr] → q ≠ NULL ∧ u_heap u !! q = Some Object) →
  ∃ n' smp' u', run (urcu_free fuel self ptr) u = Done () u' ∧
    quiet nodes self idx p n' smp' u' ∧ time n' = time n ∧
    if f_size n + 1 <? URCU_MAX_FREE_PTRS then recorded p ptr qs n n' u u'
    else batch_freed p (times (local u self)) ptr qs n' u u'.
Proof.
  intros Hq Hlen Hn Hp Hnd Ho. set (n1 := with_ptr n ptr).
  assert (∀ k q, (qs ++ [ptr]) !! k = Some q → free_ptrs n1 !! Z.of_nat k = Some q) as Hp1.
  { intros k q. cbn. destruct (decide (k < length qs)%nat).
    - rewrite lookup_app_l //. rewrite lookup_insert_ne; [lia|]. apply Hp.
    - rewrite lookup_app_r; [lia|]. destruct (k - length qs)%nat eqn:Ek; [|done]. intros [= <-].
      replace (Z.of_nat k) with (f_size n) by lia. apply lookup_insert_eq. }
  unfold urcu_free. match goal with |- context [when _ ?b] => set (batch := b) end.
  destruct (run_store_ptr nodes self idx p (p ← my_node self; n ← node_get f_size p; when (n =? URCU_MAX_FREE_PTRS) batch)
    n smp u ptr Hq) as [E H1]; [lia|].
  set (u1 := u <| u_heap ::= <[p := Node n1]> |>) in *. fold n1 in H1.
  assert (∀ x, x ≠ p → u_heap u1 !! x = u_heap u !! x) as Hu1 by (intros x Hx; by apply lookup_insert_ne).
  rewrite E. rewrite (run_bind_done _ _ _ _ _ (quiet_my_node nodes self idx p n1 smp u1 H1)).
  rewrite (run_bind_done _ _ _ _ _ (run_node_get f_size _ _ _ (quiet_own _ _ _ _ _ _ _ H1))). change (f_size n1) with (f_size n + 1).
  destruct (Z.eqb_spec (f_size n + 1) URCU_MAX_FREE_PTRS) as [Ef|Ef]; unfold when.
  2:{ destruct (Z.ltb_spec (f_size n + 1) URCU_MAX_FREE_PTRS); [|lia]. exists n1, smp, u1. go. by split_and!. }
  destruct (Z.ltb_spec (f_size n + 1) URCU_MAX_FREE_PTRS); [lia|]. unfold batch.
  destruct (run_batch nodes self idx p fuel n1 smp u1 (qs ++ [ptr]) H1) as (smp' & u' & E' & H' & Hfr & Hh).
  { rewrite length_app. cbn. lia. }
  { exact Hp1. }
  { exact Hnd. }
  { intros q Hqi. destruct (Ho q Hqi) as [? Hqo]. split; [done|]. rewrite Hu1 //. intros ->.
    rewrite (quiet_own _ _ _ _ _ _ _ Hq) in Hqo. done. }
  exists (n1 <| f_size := 0 |>), smp', u'. split; [done|]. split; [done|]. split; [done|]. split; [done|].
  split; [exact Hfr|]. intros x Hx Hxp Hxa. rewrite Hh //. by apply Hu1.
Qed.
