(* ===== verification/UrcuExamples.v ===== *)
(** * User-level RCU on a concrete machine

    Three threads are registered, and the second of them is in a section. *)

From S2P Require Import Prelude Concur Urcu UrcuGrace UrcuLive UrcuFree.

Definition nodes3 : list Z := [2000; 3000; 4000].
Definition cells3 : gmap Z Z := {[0 := 2000; 1 := 3000; 2 := 4000]}.

Definition u3 : urcu_world :=
  UrcuWorld 3 1000 {[0 := false]}
    {[1000 := Words 3075 cells3; 2000 := Node (RcuNode 1 1 {[0 := 7000]}); 3000 := Node (RcuNode 2 0 ∅);
      4000 := Node (RcuNode 1 0 ∅); 5000 := Words 3 ∅; 6000 := Words 3 ∅; 7000 := Object; 8000 := Object]}
    {[10 := UrcuLocal 5000 0; 11 := UrcuLocal 6000 1; 12 := UrcuLocal NULL 2]} [].

Lemma nodes3_case (P : nat → Z → Prop) : P 0%nat 2000 → P 1%nat 3000 → P 2%nat 4000 → ∀ i p, nodes3 !! i = Some p → P i p.
Proof. intros H0 H1 H2 [|[|[|i]]] p Hp; [by injection Hp as <-..|done]. Qed.

Definition time_in (u : urcu_world) (p : Z) : option Z :=
  match u_heap u !! p with Some (Node n) => Some (time n) | _ => None end.
Lemma time_in_node u p t : time_in u p = Some t → ∃ n, u_heap u !! p = Some (Node n) ∧ time n = t.
Proof. unfold time_in. destruct (u_heap u !! p) as [[| n |]|]; try done. intros [= <-]. by exists n. Qed.

Lemma ready3 : urcu_ready u3 nodes3.
Proof.
  constructor.
  - vm_compute. reflexivity.
  - exists 3075, cells3. split; [vm_compute; reflexivity|]. by apply nodes3_case.
  - assert (∀ p t, time_in u3 p = Some t → p ≠ NULL → 0 ≤ t < 2 ^ 62 →
      p ≠ NULL ∧ ∃ n, u_heap u3 !! p = Some (Node n) ∧ 0 ≤ time n < 2 ^ 62) as H.
    { intros p t (n & Hn & <-)%time_in_node ? ?. eauto. }
    apply nodes3_case; [apply (H _ 1)|apply (H _ 2)|apply (H _ 1)]; try (vm_compute; reflexivity); done.
  - apply (bool_decide_unpack _). vm_compute. exact I.
Qed.

Lemma sync3 : can_sync u3 nodes3 10.
Proof. split; [by vm_compute|]. exists ∅. vm_compute. reflexivity. Qed.

(** ** A grace period *)

Definition readers3 : list urcu_client := [UrcuClient 11 1 [false; true]; UrcuClient 12 2 [true]].
(** The first thread takes its samples, the others run, the first goes on. *)
Definition interrupted (u : urcu_world) : outcome urcu_world unit :=
  match steps 16 (urcu_synchronize 2 10) u with
  | Some (p, s) =>
      outcome_bind (run (urcu_reader 11 [false; true]) s) (λ _ s,
      outcome_bind (run (urcu_reader 12 [true]) s) (λ _ s, run p s))
  | None => Fault
  end.
Definition after_sync : urcu_world := match interrupted u3 with Done _ u => u | _ => u3 end.

Lemma interrupted_done : interrupted u3 = Done () after_sync.
Proof. vm_cast_no_check (eq_refl (Done () after_sync)). Qed.

Lemma interrupted_cstep u w :
  interrupted u = Done () w →
  rtc cstep (u, [urcu_synchronize 2 10; urcu_reader 11 [false; true]; urcu_reader 12 [true]])
    (w, [Ret (); Ret (); Ret ()]).
Proof.
  unfold interrupted. intros H.
  destruct (steps 16 (urcu_synchronize 2 10) u) as [[p s]|] eqn:E0; [|done].
  destruct (run (urcu_reader 11 [false; true]) s) as [[] s1| | |] eqn:E1; try done. cbn [outcome_bind] in H.
  destruct (run (urcu_reader 12 [true]) s1) as [[] s2| | |] eqn:E2; try done. cbn [outcome_bind] in H.
  trans (s, [p; urcu_reader 11 [false; true]; urcu_reader 12 [true]]); [exact (steps_cstep _ _ _ _ _ [_; _; _] 0 E0 eq_refl)|].
  trans (s1, [p; Ret (); urcu_reader 12 [true]]); [exact (run_cstep _ _ _ _ [_; _; _] 1 E1 eq_refl)|].
  trans (s2, [p; Ret (); Ret ()]); [exact (run_cstep _ _ _ _ [_; _; _] 2 E2 eq_refl)|].
  exact (run_cstep _ _ _ _ [_; _; _] 0 H eq_refl).
Qed.

(** The second thread leaves its section and enters another one, the third
    enters one; the first does not wait for these. *)
Lemma urcu_grace_period_witness :
  ∃ t', node_time nodes3 after_sync 1 t' ∧ 2 < t'.
Proof.
  assert (NoDup (c_idx <$> readers3)) as Hnd by (apply (bool_decide_unpack _); vm_compute; exact I).
  assert (Forall (client_ok u3 nodes3) readers3) as Hok by (repeat constructor; try lia; vm_compute; reflexivity).
  destruct (urcu_grace_period u3 nodes3 10 2 readers3 ready3 sync3 Hnd Hok _ _
    (interrupted_cstep u3 after_sync interrupted_done)) as [_ H].
  apply (H eq_refl 1%nat 2); [|reflexivity].
  destruct (time_in_node u3 3000 2) as (n & Hn & Ht); [vm_compute; reflexivity|]. exists 3000, n. by split_and!.
Defined.

(** ** Progress *)

(** The second thread leaves its section at the twentieth moment. *)
Definition history (m i : nat) : Z := if (i =? 1)%nat then (if (m <? 20)%nat then 2 else 3) else 1.

Lemma history_ends : sections_end history.
Proof.
  unfold history. constructor.
  - intros m i. repeat case_match; lia.
  - intros m i. destruct (i =? 1)%nat; [|lia]. destruct (Nat.ltb_spec m 20), (Nat.ltb_spec (S m) 20); lia.
  - intros m i He. exists (max m 20). split; [lia|]. destruct (i =? 1)%nat; [|done].
    destruct (Nat.ltb_spec m 20); [|done]. destruct (Nat.ltb_spec (max m 20) 20); lia.
Qed.

Definition set_time (p t : Z) (u : urcu_world) : urcu_world :=
  match u_heap u !! p with Some (Node n) => u <| u_heap ::= <[p := Node (n <| time := t |>)]> |> | _ => u end.
Definition scheduler (m : nat) (u : urcu_world) : urcu_world :=
  set_time 2000 (history m 0) (set_time 3000 (history m 1) (set_time 4000 (history m 2) u)).

Lemma set_time_other p t u : threads (set_time p t u) = threads u ∧ urcu_table (set_time p t u) = urcu_table u ∧
  u_local (set_time p t u) = u_local u ∧ (∀ q, q ≠ p → u_heap (set_time p t u) !! q = u_heap u !! q) ∧
  (∀ q c x, u_heap u !! q = Some (Words c x) → u_heap (set_time p t u) !! q = Some (Words c x)).
Proof.
  unfold set_time. destruct (u_heap u !! p) as [[|n|]|] eqn:E; try done. split_and!; try done; cbn.
  - intros q Hq. by apply lookup_insert_ne.
  - intros q c x Hq. rewrite -Hq. apply lookup_insert_ne. congruence.
Qed.
Lemma set_time_node p t u n : u_heap u !! p = Some (Node n) → u_heap (set_time p t u) !! p = Some (Node (n <| time := t |>)).
Proof. intros H. unfold set_time. rewrite H. apply lookup_insert_eq. Qed.

Lemma scheduler_follows : follows nodes3 history scheduler.
Proof.
  intros m u u'. subst u'. unfold scheduler. set (u1 := set_time 4000 _ u). set (u2 := set_time 3000 _ u1).
  destruct (set_time_other 4000 (history m 2) u) as (A1 & A2 & A3 & A4 & A5).
  destruct (set_time_other 3000 (history m 1) u1) as (B1 & B2 & B3 & B4 & B5).
  destruct (set_time_other 2000 (history m 0) u2) as (C1 & C2 & C3 & C4 & C5). fold u1 in A1, A2, A3, A4, A5.
  fold u2 in B1, B2, B3, B4, B5. split_and!; try congruence; [by auto|].
  intros [|[|[|i]]] p n Hp Hn; [injection Hp as <-..|done].
  - rewrite -(A4 2000) // -(B4 2000) // in Hn. eexists. split; [by apply set_time_node|done].
  - rewrite -(A4 3000) // in Hn. rewrite C4 //. eexists. split; [by apply set_time_node|done].
  - rewrite C4 // B4 //. eexists. split; [by apply set_time_node|done].
Qed.

Lemma urcu_synchronize_returns_witness :
  ∃ F, ∀ fuel, (F ≤ fuel)%nat → ∃ m s, run (under scheduler (urcu_synchronize fuel 10)) (O, u3) = Done () (m, s).
Proof.
  exact (urcu_synchronize_returns u3 nodes3 10 history scheduler ready3 sync3 history_ends scheduler_follows).
Defined.

(** ** Deferred freeing *)

(** The second thread has left its section; the first has recorded a pointer. *)
Definition u3' : urcu_world := set_time 3000 3 u3.

Lemma quiet3 : quiet nodes3 10 0 2000 (RcuNode 1 1 {[0 := 7000]}) ∅ u3'.
Proof.
  constructor.
  - vm_compute. reflexivity.
  - exists 3075, cells3. split; [vm_compute; reflexivity|]. by apply nodes3_case.
  - assert (∀ p t, time_in u3' p = Some t → Z.odd t = true →
      ∃ n, u_heap u3' !! p = Some (Node n) ∧ Z.odd (time n) = true) as H.
    { intros p t (n & Hn & <-)%time_in_node ?. eauto. }
    apply nodes3_case; [apply (H _ 1)|apply (H _ 3)|apply (H _ 1)]; vm_compute; reflexivity.
  - vm_compute. reflexivity.
  - reflexivity.
  - vm_compute. reflexivity.
  - by vm_compute.
  - vm_compute. reflexivity.
Qed.

Lemma urcu_free_batches_witness :
  ∃ n' smp' u', run (urcu_free 0 10 8000) u3' = Done () u' ∧ quiet nodes3 10 0 2000 n' smp' u' ∧ f_size n' = 2 ∧
    free_ptrs n' !! 0 = Some 7000 ∧ free_ptrs n' !! 1 = Some 8000.
Proof.
  destruct (urcu_free_batches nodes3 10 0 2000 0 u3' _ ∅ 8000 [7000] quiet3) as (n' & smp' & u' & E & Hq & _ & Hf & Hp & _).
  - reflexivity.
  - reflexivity.
  - intros [|k] q Hk; [by injection Hk as <-|done].
  - apply (bool_decide_unpack _). vm_compute. exact I.
  - intros q [->|[->|[]%elem_of_nil]%elem_of_cons]%elem_of_cons; split; try done; vm_compute; reflexivity.
  - exists n', smp', u'. split_and!; try done; [apply (Hp O); reflexivity|apply (Hp 1%nat); reflexivity].
Defined.
