(* ===== verification/Atomic.v ===== *)
(** * A critical section that writes

    From the start of a section to its end: the objects it locks, the copies it
    edits, the objects it allocates and those it frees.  Whatever a section does
    in between, its end makes all of it visible at once, at one clock, and
    nothing of it is visible to readers at older clocks. *)

From S2P Require Import Prelude World OrdoClock Port Object Cells VersionLog LogLayout LogAppend Commit Qp Api Snapshot Locking ChainHash Sections.

(** ** What readers see *)

(** The object at [obj] has the contents [bs] for readers at clock [local]. *)
Definition snap_at (w : world) (local obj : Z) (bs : list Z) : Prop :=
  obj ≠ NULL ∧ ∃ a l, w_ahs w !! vobj_to_ahs obj = Some a ∧ versions (w_chs w) (p_copy (a_obj_hdr a)) l ∧
    (∀ p, p ∈ l → is_Some (ver_clk w p)) ∧
    bs = snap (default [] (w_data w !! obj)) (history w l) local.

Lemma versions_det m p l1 l2 : versions m p l1 → versions m p l2 → l1 = l2.
Proof.
  intros H. revert l2. induction H as [|p h l Hp Hh Hv IH]; intros l2 H2; inversion H2; subst; try done.
  f_equal. apply IH. congruence.
Qed.

Lemma snap_at_det w local obj bs1 bs2 : snap_at w local obj bs1 → snap_at w local obj bs2 → bs1 = bs2.
Proof.
  intros (_ & a1 & l1 & Ha1 & Hv1 & _ & ->) (_ & a2 & l2 & Ha2 & Hv2 & _ & ->).
  rewrite Ha1 in Ha2. injection Ha2 as <-. by rewrite (versions_det _ _ _ _ Hv1 Hv2).
Qed.

(** ** The memory a section starts from *)

(** [p] is a version of the object at [obj], in some log, and not in the log
    space of [buf] from count [lo] to [hi]; nor is its write set. *)
Definition version_of (w : world) (buf lo hi obj p : Z) : Prop :=
  addr_in_log_region w (obj_to_obj_hdr p) = true ∧
  ∃ h, w_chs w !! vobj_to_chs p = Some h ∧ p_act h = obj ∧ is_Some (clk_of w h) ∧
    ∀ x, lo ≤ x < hi → vobj_to_chs p ≠ buf + log_index x ∧ p_wrt_clk h ≠ chs_obj (buf + log_index x).

(** The objects are outside of the logs, with chains of versions that lie in
    the logs; the log space from [lo] to [hi] is free. *)
Record stored (w : world) (buf lo hi : Z) : Prop := Stored {
  st_objs : ∀ o a, w_ahs w !! o = Some a →
    addr_in_log_region w (obj_to_obj_hdr (ahs_obj o)) = false ∧
    ∃ l, versions (w_chs w) (p_copy (a_obj_hdr a)) l ∧ ∀ p, p ∈ l → version_of w buf lo hi (ahs_obj o) p;
  st_null : w_chs w !! vobj_to_chs NULL = None;
  st_buf : 0 < buf;
  st_region : ∀ x, x mod 64 = 0 → addr_in_log_region w (obj_to_obj_hdr (chs_obj (buf + log_index x))) = true;
}.

(** A lock the section holds: the object, its copy, the size asked for and the
    copy's present contents. *)
Record lock := Lock { l_obj : Z; l_ptr : Z; l_size : Z; l_bytes : list Z }.

(** Room for a section: the tail of the thread's log is well formed, and the
    log is free up to count [hi]. *)
Record space (w : world) (th : mvrlu_thread_struct) (hi : Z) : Prop := Space {
  sp_cur : cur_wrt_set (log th) = NULL;
  sp_tail : tail_ok (tail_cnt (log th));
  sp_cnt : cnt_ok hi;
  sp_lo : 0 ≤ tail_cnt (log th) < hi;
  sp_hi : hi ≤ tail_cnt (log th) + MVRLU_LOG_SIZE;
  sp_stored : stored w (buffer (log th)) (tail_cnt (log th)) hi;
}.

(** ** The state of the section *)

(** The lock [l] is an entry of the open write set. *)
Definition lock_held (w W : world) (th0 th : mvrlu_thread_struct) (es : list Z) (l : lock) : Prop :=
  (∃ a, l_obj l ≠ NULL ∧ w_ahs w !! vobj_to_ahs (l_obj l) = Some a ∧ p_lock a = NULL ∧
        w_ahs W !! vobj_to_ahs (l_obj l) = Some (a <| p_lock := l_ptr l |>)) ∧
  (∃ sz, w_chs W !! obj_to_chs (l_ptr l) =
         Some (copy_hdr (cur_wrt_set (log th)) (l_obj l) (l_size l) sz)) ∧
  obj_to_chs (l_ptr l) ∈ es ∧ w_data W !! l_ptr l = Some (l_bytes l) ∧
  ∃ x, (tail_cnt (log th0) ≤ x < tail_cnt (log th) ∧ x mod 64 = 0) ∧ l_ptr l = chs_obj (buffer (log th0) + log_index x).

(** The object at [x] is new, with the contents [bs]. *)
Definition new_object (w W : world) (x : Z) (bs : list Z) : Prop :=
  x ≠ NULL ∧ addr_in_log_region w (obj_to_obj_hdr x) = false ∧ w_ahs w !! vobj_to_ahs x = None ∧
  (∃ a, w_ahs W !! vobj_to_ahs x = Some a ∧ p_copy (a_obj_hdr a) = NULL) ∧ w_data W !! x = Some bs.

(** The objects handed to [mvrlu_free]. *)
Definition frees (th : mvrlu_thread_struct) (F : list Z) : Prop :=
  num_ptrs (free_ptrs th) = Z.of_nat (length F) ∧ ∀ p, fp_mem (free_ptrs th) p = true ↔ p ∈ F.

(** The section of [self] that started in [w] with the thread [th0] is in the
    state [W] with the thread [th]; it holds the locks [L], has allocated [N]
    and freed [F], and [es] are the entries of its write set. *)
Record holding (w : world) (self : Z) (th0 : mvrlu_thread_struct) (L : list lock)
    (N : list (Z * list Z)) (F : list Z) (W : world) (th : mvrlu_thread_struct) (es : list Z) : Prop := Holding {
  hd_section : in_section W self th es;
  hd_none : L = [] → log th = log th0 ∧ es = [] ∧ is_write_detected th = is_write_detected th0;
  hd_some : L ≠ [] → is_write_detected th ≠ 0 ∧
    log th = log_at_tail (log th0) (tail_cnt (log th0)) (tail_cnt (log th)) ∧
    set_start W th = tail_cnt (log th0);
  hd_clk : local_clk th = local_clk th0;
  hd_run : run_cnt th = run_cnt th0;
  hd_frees : frees th F;
  hd_tail : tail_cnt (log th0) ≤ tail_cnt (log th);
  hd_frame : log_frame (buffer (log th0)) (tail_cnt (log th0)) (tail_cnt (log th)) w W;
  hd_region : w_start_addr W = w_start_addr w ∧ w_end_addr W = w_end_addr w;
  hd_tsc : w_tsc W = w_tsc w;
  hd_locks : ∀ l, l ∈ L → lock_held w W th0 th es l;
  hd_new : ∀ x bs, (x, bs) ∈ N → new_object w W x bs;
  hd_ahs : ∀ o, (∀ l, l ∈ L → o ≠ vobj_to_ahs (l_obj l)) → (∀ x bs, (x, bs) ∈ N → o ≠ vobj_to_ahs x) →
    w_ahs W !! o = w_ahs w !! o;
  hd_data : ∀ p, p ∉ l_ptr <$> L → p ∉ N.*1 → w_data W !! p = w_data w !! p;
  hd_entries : ∀ e, e ∈ es → is_copy W e = true → ∃ l, l ∈ L ∧ e = obj_to_chs (l_ptr l);
}.

(** ** What the section leaves alone *)

Lemma vobj_to_chs_obj c : vobj_to_chs (chs_obj c) = c.
Proof. unfold vobj_to_chs, obj_to_chs, chs_obj. lia. Qed.

Lemma ahs_obj_vobj o : vobj_to_ahs (ahs_obj o) = o.
Proof. unfold vobj_to_ahs, obj_to_ahs, ahs_obj. lia. Qed.

Lemma vobj_ahs_obj p : ahs_obj (vobj_to_ahs p) = p.
Proof. unfold vobj_to_ahs, obj_to_ahs, ahs_obj. lia. Qed.

Lemma versions_in m p l q : versions m p l → q ∈ l → q ≠ NULL.
Proof. induction 1; [by intros ?%elem_of_nil|]. intros [->|?]%elem_of_cons; auto. Qed.

Lemma versions_head m p l : versions m p l → p ≠ NULL → p ∈ l.
Proof. inversion 1; [done|]. subst. set_solver. Qed.

Lemma versions_ext m m' p l :
  versions m p l → (∀ q, q ∈ l → m' !! vobj_to_chs q = m !! vobj_to_chs q) → versions m' p l.
Proof.
  induction 1 as [|p h l Hp Hh Hv IH]; intros Hm; [constructor|].
  econstructor; [done| |apply IH; set_solver]. rewrite Hm //. set_solver.
Qed.

(** A new object. *)
Definition alloc_bytes (w : world) (x size : Z) : list Z :=
  (λ i, w_junk w (x + Z.of_nat i)) <$> seq 0 (Z.to_nat size).

Lemma run_mvrlu_alloc w size mem ks :
  w_kmem w = mem :: ks → mem + sizeof_size_t ≠ NULL →
  let ahs := mem + sizeof_size_t in
  ∃ w', run (mvrlu_alloc size) w = Done (ahs_obj ahs) w' ∧
    w_ahs w' = <[ahs := ActHdr NULL (ObjHdr (wrap32 size) 0 TYPE_ACTUAL NULL)]> (w_ahs w) ∧
    w_data w' = <[ahs_obj ahs := alloc_bytes w (ahs_obj ahs) size]> (w_data w) ∧
    w_thr w' = w_thr w ∧ w_chs w' = w_chs w ∧ w_ws w' = w_ws w ∧ w_tsc w' = w_tsc w ∧
    w_start_addr w' = w_start_addr w ∧ w_end_addr w' = w_end_addr w.
Proof.
  intros Hk Hn ahs. unfold mvrlu_alloc, mvrlu_alloc_x, port_alloc_x. rewrite run_bind run_act Hk. cbn [outcome_bind].
  rewrite decide_False //. fold ahs. unfold memset_ahs. rewrite run_bind run_act. cbn [outcome_bind].
  match goal with |- context [run _ ?x] => set (w1 := x) end.
  assert (w_ahs w1 !! ahs = Some (ActHdr NULL (ObjHdr 0 0 TYPE_ACTUAL NULL))) as Ha by apply lookup_insert_eq.
  xstore. xstore. eexists. split; [done|]. split_and!; try done.
  cbn. by rewrite !insert_insert_eq.
Qed.

Section frame.
Context {w : world} {th0 : mvrlu_thread_struct} {hi : Z} (Hsp : space w th0 hi).
Local Notation lo := (tail_cnt (log th0)).
Local Notation buf := (buffer (log th0)).

Lemma frame_version W t obj p :
  log_frame buf lo t w W → t ≤ hi → version_of w buf lo hi obj p →
  w_chs W !! vobj_to_chs p = w_chs w !! vobj_to_chs p ∧ ver_clk W p = ver_clk w p ∧ is_Some (ver_clk w p).
Proof.
  intros [F1 F2] Ht (_ & h & Hh & _ & Hk & Hout).
  assert (w_chs W !! vobj_to_chs p = w_chs w !! vobj_to_chs p) as E.
  { apply F1. intros x Hx. apply Hout. lia. }
  split; [done|]. unfold ver_clk. case_decide; [done|]. rewrite E Hh. split; [|done].
  unfold clk_of. case_decide; [|done]. rewrite F2 //. intros x Hx. apply Hout. lia.
Qed.

(** No object and no version is a copy in the free space. *)
Lemma object_not_log o a x : w_ahs w !! o = Some a → x mod 64 = 0 → ahs_obj o ≠ chs_obj (buf + log_index x).
Proof.
  intros Ho Hx E. destruct (st_objs _ _ _ _ (sp_stored _ _ _ Hsp) o a Ho) as [Hr _].
  by rewrite E (st_region _ _ _ _ (sp_stored _ _ _ Hsp)) in Hr.
Qed.

Lemma version_not_free obj p x :
  version_of w buf lo hi obj p → lo ≤ x < hi → p ≠ chs_obj (buf + log_index x).
Proof.
  intros (_ & h & _ & _ & _ & Hout) Hx ->. destruct (Hout x Hx) as [H _]. by rewrite vobj_to_chs_obj in H.
Qed.

Section state.
Context {self : Z} {L : list lock} {N : list (Z * list Z)} {F : list Z}.
Context {W : world} {th : mvrlu_thread_struct} {es : list Z}.
Context (H : holding w self th0 L N F W th es) (Ht : tail_cnt (log th) ≤ hi).

Lemma holding_buf : buffer (log th) = buf.
Proof.
  destruct H as [_ Hn Hs _ _ _ _ _ _ _ _ _ _ _ _]. destruct (decide (L = [])) as [E|E].
  - by destruct (Hn E) as [-> _].
  - by destruct (Hs E) as (_ & -> & _).
Qed.

Lemma holding_not_ptr p obj : version_of w buf lo hi obj p → p ∉ l_ptr <$> L.
Proof.
  intros Hv (l & -> & Hl)%list_elem_of_fmap. destruct (hd_locks _ _ _ _ _ _ _ _ _ H l Hl) as (_ & _ & _ & _ & x & Hx & E).
  eapply (version_not_free obj (l_ptr l) x); [done|lia|done].
Qed.

Lemma holding_not_new p obj : version_of w buf lo hi obj p → p ∉ N.*1.
Proof.
  intros (Hr & _) ([x bs] & -> & Hx)%list_elem_of_fmap.
  destruct (hd_new _ _ _ _ _ _ _ _ _ H x bs Hx) as (_ & Hr' & _). cbn in Hr. congruence.
Qed.

Lemma holding_version_data obj p : version_of w buf lo hi obj p → w_data W !! p = w_data w !! p.
Proof. intros Hv. apply (hd_data _ _ _ _ _ _ _ _ _ H); [by eapply holding_not_ptr|by eapply holding_not_new]. Qed.

Lemma holding_object_data o a : w_ahs w !! o = Some a → w_data W !! ahs_obj o = w_data w !! ahs_obj o.
Proof.
  intros Ho. apply (hd_data _ _ _ _ _ _ _ _ _ H).
  - intros (l & E & Hl)%list_elem_of_fmap. destruct (hd_locks _ _ _ _ _ _ _ _ _ H l Hl) as (_ & _ & _ & _ & x & Hx & E').
    rewrite E' in E. by eapply object_not_log; [|apply Hx|].
  - intros ([x bs] & E & Hx)%list_elem_of_fmap. destruct (hd_new _ _ _ _ _ _ _ _ _ H x bs Hx) as (_ & _ & Hn & _).
    cbn in E. by rewrite -E ahs_obj_vobj Ho in Hn.
Qed.

(** An object of the section's state: an old one with its versions, or new. *)
Lemma holding_object o a :
  w_ahs W !! o = Some a →
  (∃ a0, w_ahs w !! o = Some a0 ∧ a_obj_hdr a0 = a_obj_hdr a) ∨ p_copy (a_obj_hdr a) = NULL.
Proof.
  intros Ho. destruct (decide (o ∈ (λ l, vobj_to_ahs (l_obj l)) <$> L)) as [(l & -> & Hl)%list_elem_of_fmap|HL].
  { left. destruct (hd_locks _ _ _ _ _ _ _ _ _ H l Hl) as ((a0 & _ & Ha0 & _ & Ha) & _). rewrite Ha in Ho.
    injection Ho as <-. by exists a0. }
  destruct (decide (o ∈ (λ x, vobj_to_ahs x.1) <$> N)) as [([x bs] & -> & Hx)%list_elem_of_fmap|HN].
  { right. destruct (hd_new _ _ _ _ _ _ _ _ _ H x bs Hx) as (_ & _ & _ & (a0 & Ha0 & E) & _). cbn in Ho. congruence. }
  left. exists a. split; [|done]. rewrite -(hd_ahs _ _ _ _ _ _ _ _ _ H) //.
  - intros l Hl ->. apply HL. apply list_elem_of_fmap. by exists l.
  - intros x bs Hx ->. apply HN. apply list_elem_of_fmap. by exists (x, bs).
Qed.

(** The newest version of an object is none, or one of the old ones. *)
Lemma holding_head o a :
  w_ahs W !! o = Some a →
  p_copy (a_obj_hdr a) = NULL ∨ version_of w buf lo hi (ahs_obj o) (p_copy (a_obj_hdr a)).
Proof.
  intros Ho. destruct (decide (p_copy (a_obj_hdr a) = NULL)) as [|Hp]; [by left|].
  destruct (holding_object o a Ho) as [(a0 & Ha0 & E)|?]; [|by left]. right. rewrite -E in Hp |- *.
  destruct (st_objs _ _ _ _ (sp_stored _ _ _ Hsp) o a0 Ha0) as [_ (l & Hv & Hl)].
  apply Hl. by eapply versions_head.
Qed.

Lemma holding_unused : unused W buf (tail_cnt (log th)) hi.
Proof.
  intros o a x Ho Hx. pose proof (hd_tail _ _ _ _ _ _ _ _ _ H) as Hlo.
  pose proof (hd_frame _ _ _ _ _ _ _ _ _ H) as Hfr. destruct (holding_head o a Ho) as [->|Hv].
  - pose proof (log_index_range x). pose proof (st_buf _ _ _ _ (sp_stored _ _ _ Hsp)).
    assert (∀ x, vobj_to_chs NULL ≠ buf + log_index x) as Hn.
    { intros y. pose proof (log_index_range y). unfold vobj_to_chs, obj_to_chs, NULL. zlia. }
    split; [done|]. intros h. destruct Hfr as [Hc _]. rewrite Hc // (st_null _ _ _ _ (sp_stored _ _ _ Hsp)). done.
  - pose proof (frame_version W _ _ _ Hfr Ht Hv) as (E & _ & _). destruct Hv as (_ & h & Hh & _ & _ & Hout).
    destruct (Hout x ltac:(lia)) as [H1 H2]. split; [done|]. intros h'. rewrite E Hh. by intros [= <-].
Qed.

Lemma holding_cur : L ≠ [] → cur_wrt_set (log th) = chs_obj (buf + log_index lo) ∧ cur_wrt_set (log th) ≠ NULL.
Proof.
  intros HL. destruct (hd_some _ _ _ _ _ _ _ _ _ H HL) as (_ & -> & _). split; [done|]. cbn.
  pose proof (log_index_range lo). pose proof (st_buf _ _ _ _ (sp_stored _ _ _ Hsp)). unfold chs_obj, NULL. zlia.
Qed.

Lemma holding_next : next_pos th = if decide (L = []) then lo + ws_entry_size lo else tail_cnt (log th).
Proof.
  unfold next_pos. destruct (decide (L = [])) as [EL|EL].
  - destruct (hd_none _ _ _ _ _ _ _ _ _ H EL) as [-> _]. rewrite decide_True //. apply (sp_cur _ _ _ Hsp).
  - rewrite decide_False //. by apply holding_cur.
Qed.

Lemma holding_start : set_start W th = lo.
Proof.
  destruct (decide (L = [])) as [EL|EL].
  - unfold set_start. destruct (hd_none _ _ _ _ _ _ _ _ _ H EL) as [-> _].
    rewrite decide_True //. apply (sp_cur _ _ _ Hsp).
  - by destruct (hd_some _ _ _ _ _ _ _ _ _ H EL) as (_ & _ & ->).
Qed.

Lemma holding_next_aligned : next_pos th mod 64 = 0 ∧ tail_cnt (log th) ≤ next_pos th ≤ tail_cnt (log th) + 256.
Proof.
  rewrite holding_next. destruct Hsp as [_ Htok Hcnt Hlo Hhi _]. case_decide as EL.
  - destruct (hd_none _ _ _ _ _ _ _ _ _ H EL) as [-> _].
    destruct (alloc_facts_hold lo sizeof_wrt_set) as [_ _ Hw _ _ Hw64 _ _];
      [unfold cnt_ok in *; lia|apply obj_fits_ws|apply Htok|].
    assert (cnt_ok lo) as Hc by (unfold cnt_ok in *; lia).
    unfold ws_entry_size. rewrite entry_size_ws in Hw, Hw64 |- *. split; [|lia].
    destruct Hw64 as [H64 _]. unfold alloc_pos in H64. pose proof (ws_never_wraps _ Hc Htok) as Hnw.
    rewrite entry_size_ws in Hnw. by rewrite Hnw in H64.
  - split; [|lia]. destruct (hd_section _ _ _ _ _ _ _ _ _ H) as [_ _ Hta _|c es' h s [[_ _ _ Hal _] _ _ _] _ _ _]; [apply Hta|done].
Qed.

(** The log space an entry for [size] bytes may take. *)
Definition entry_space (size : Z) : Z := 2 * entry_size size + 128.

Lemma new_tail_space t size : cnt_ok t → obj_fits size → t mod 64 = 0 → t ≤ new_tail t size ≤ t + entry_space size.
Proof.
  intros Hc Hs Ha. destruct (alloc_facts_hold t size Hc Hs Ha) as [Hp _ Hz _ _ _ _ _].
  destruct (entry_size_spec size Hs) as [_ He]. unfold obj_fits, new_tail, entry_space in *. lia.
Qed.

Lemma holding_room size : obj_fits size → next_pos th + entry_space size ≤ hi → log_room W th size ∧ new_tail (next_pos th) size ≤ hi.
Proof.
  intros Hsz Hn. destruct holding_next_aligned as [Hal Hle]. pose proof (hd_tail _ _ _ _ _ _ _ _ _ H) as Hl.
  destruct (entry_size_spec size Hsz) as [_ He].
  assert (cnt_ok (next_pos th)) as Hc.
  { destruct Hsp as [_ _ Hcnt Hlo _ _]. unfold cnt_ok, entry_space, obj_fits in *. lia. }
  pose proof (new_tail_space _ size Hc Hsz Hal) as Hnt. split; [|lia].
  destruct Hsp as [_ _ Hcnt Hlo Hhi Hst]. split; rewrite ?holding_buf ?holding_start.
  - apply (st_buf _ _ _ _ Hst).
  - split; [|done]. unfold cnt_ok in *. lia.
  - done.
  - lia.
  - intros o a x Ho Hx. apply (holding_unused o a x Ho). lia.
Qed.

(** ** The steps of a section *)

(** The newest version of [obj] is visible at the section's clock, and nobody
    has locked the object. *)
Definition lockable (obj : Z) (a : mvrlu_act_hdr_struct) (bs : list Z) : Prop :=
  obj ≠ NULL ∧ w_ahs w !! vobj_to_ahs obj = Some a ∧ p_lock a = NULL ∧ w_data w !! newest obj a = Some bs ∧
  (p_copy (a_obj_hdr a) ≠ NULL →
   ∃ k, ver_clk w (p_copy (a_obj_hdr a)) = Some k ∧ lte_clock k (local_clk th0) = true).

Lemma lockable_newest obj a bs :
  lockable obj a bs → w_data W !! newest obj a = Some bs.
Proof.
  intros (_ & Ha & _ & Hbs & _). rewrite -Hbs. unfold newest. case_decide as E.
  - pose proof (holding_object_data _ _ Ha) as E'. by rewrite vobj_ahs_obj in E'.
  - destruct (st_objs _ _ _ _ (sp_stored _ _ _ Hsp) _ _ Ha) as [_ (l & Hv & Hl)].
    eapply holding_version_data, Hl. by eapply versions_head.
Qed.

Lemma lockable_head obj a bs :
  lockable obj a bs → ver_clk W (p_copy (a_obj_hdr a)) = ver_clk w (p_copy (a_obj_hdr a)) ∧
    is_Some (ver_clk w (p_copy (a_obj_hdr a))).
Proof.
  intros (_ & Ha & _). destruct (decide (p_copy (a_obj_hdr a) = NULL)) as [->|E]; [done|].
  destruct (st_objs _ _ _ _ (sp_stored _ _ _ Hsp) _ _ Ha) as [_ (l & Hv & Hl)].
  eapply frame_version; [apply (hd_frame _ _ _ _ _ _ _ _ _ H)|done|]. apply Hl. by eapply versions_head.
Qed.

Lemma lockable_act obj a bs :
  lockable obj a bs → (∀ l, l ∈ L → l_obj l ≠ obj) → w_ahs W !! vobj_to_ahs obj = Some a.
Proof.
  intros (_ & Ha & _) HL. rewrite (hd_ahs _ _ _ _ _ _ _ _ _ H) //.
  - intros l Hl E. apply (HL l Hl). rewrite -(vobj_ahs_obj (l_obj l)) -(vobj_ahs_obj obj). by f_equal.
  - intros x bs' Hx E. destruct (hd_new _ _ _ _ _ _ _ _ _ H x bs' Hx) as (_ & _ & Hn & _).
    by rewrite -E Ha in Hn.
Qed.

Lemma in_section_NoDup w' th' es' : in_section w' self th' es' → NoDup es'.
Proof. destruct 1; [constructor|]. by eapply section_NoDup. Qed.

Lemma log_at_tail_twice g c t t' : log_at_tail (log_at_tail g c t) c t' = log_at_tail g c t'.
Proof. by destruct g. Qed.

(** The locks already held, and the new objects, behind one more lock. *)
Section one_more.
Context {obj size : Z} {a : mvrlu_act_hdr_struct} {bs : list Z} {W' : world} {th' : mvrlu_thread_struct}.
Context {es' : list Z} {p' : Z} (Hlk : lockable obj a bs) (Hnot : ∀ l, l ∈ L → l_obj l ≠ obj).
Context (T : lock_taken W self th es obj size a bs W' th' es' p').

Lemma taken_log : log th' = log_at_tail (log th0) lo (tail_cnt (log th')) ∧ set_start W' th' = lo ∧
  tail_cnt (log th') = new_tail (next_pos th) size.
Proof.
  destruct T as [_ _ _ _ _ _ _ _ _ El Es _ _ _ _]. rewrite holding_start in El, Es. split_and!; [|done|by rewrite El].
  rewrite El. cbn [tail_cnt log_at_tail field_map]. destruct (decide (L = [])) as [E|E].
  - by destruct (hd_none _ _ _ _ _ _ _ _ _ H E) as [-> _].
  - destruct (hd_some _ _ _ _ _ _ _ _ _ H E) as (_ & -> & _). apply log_at_tail_twice.
Qed.

Lemma taken_tail : next_pos th ≤ tail_cnt (log th').
Proof. destruct (lt_pos _ _ _ _ _ _ _ _ _ _ _ _ T) as (x & _ & ?). lia. Qed.

Lemma taken_new_entry : obj_to_chs p' ∈ es ++ es' ∧ obj_to_chs p' ∉ es.
Proof.
  assert (obj_to_chs p' ∈ es') as Hin by apply last_Some_elem_of, (lt_last _ _ _ _ _ _ _ _ _ _ _ _ T).
  split; [set_solver|]. intros Hin'. pose proof (in_section_NoDup _ _ _ (lt_section _ _ _ _ _ _ _ _ _ _ _ _ T)) as Hnd.
  apply NoDup_app in Hnd as (_ & Hd & _). by apply (Hd (obj_to_chs p')).
Qed.

Lemma taken_old_lock l : l ∈ L → lock_held w W' th0 th' (es ++ es') l.
Proof.
  intros Hl. destruct (hd_locks _ _ _ _ _ _ _ _ _ H l Hl) as ((a0 & Ho0 & Ha0 & Hl0 & Ha1) & (sz & Hh) & Hin & Hd & x & Hx & Ex).
  assert (L ≠ []) as HL by (intros ->; by apply elem_of_nil in Hl).
  destruct taken_log as (El & _ & _). destruct (holding_cur HL) as [Ec _]. destruct holding_next_aligned as [_ Hn].
  pose proof taken_tail. split_and!.
  - exists a0. split_and!; [done..|]. rewrite (lt_ahs _ _ _ _ _ _ _ _ _ _ _ _ T) lookup_insert_ne //.
    intros E. apply (Hnot l Hl). rewrite -(vobj_ahs_obj (l_obj l)) -(vobj_ahs_obj obj). by f_equal.
  - exists sz. rewrite (lt_old _ _ _ _ _ _ _ _ _ _ _ _ T) // Hh. do 2 f_equal. rewrite Ec El. done.
  - set_solver.
  - rewrite (lt_data _ _ _ _ _ _ _ _ _ _ _ _ T) lookup_insert_ne //. intros E. destruct taken_new_entry as [_ Hne].
    apply Hne. by rewrite E.
  - exists x. split; [|done]. split; [lia|done || apply Hx].
Qed.

Lemma taken_new_object x bs' : (x, bs') ∈ N → new_object w W' x bs'.
Proof.
  intros Hx. destruct (hd_new _ _ _ _ _ _ _ _ _ H x bs' Hx) as (H1 & H2 & H3 & (a0 & Ha0 & E0) & H4).
  split_and!; [done|done|done| |].
  - exists a0. split; [|done]. rewrite (lt_ahs _ _ _ _ _ _ _ _ _ _ _ _ T) lookup_insert_ne //.
    intros E. destruct Hlk as (_ & Ha & _). by rewrite E H3 in Ha.
  - rewrite (lt_data _ _ _ _ _ _ _ _ _ _ _ _ T) lookup_insert_ne //. intros <-.
    destruct (lt_pos _ _ _ _ _ _ _ _ _ _ _ _ T) as (y & -> & _ & Hy). rewrite holding_buf in H2.
    by rewrite (st_region _ _ _ _ (sp_stored _ _ _ Hsp)) in H2.
Qed.

Lemma taken_frame_start : log_frame buf lo (tail_cnt (log th')) w W'.
Proof.
  destruct holding_next_aligned as [_ Hn]. pose proof taken_tail.
  pose proof (lt_frame _ _ _ _ _ _ _ _ _ _ _ _ T) as Hf. rewrite holding_buf holding_start in Hf.
  eapply log_frame_trans; [apply (hd_frame _ _ _ _ _ _ _ _ _ H)|exact Hf|lia].
Qed.

Lemma taken_lock_held bs' : w_data W' !! p' = Some bs' → lock_held w W' th0 th' (es ++ es') (Lock obj p' size bs').
Proof.
  intros Hd. destruct Hlk as (Hnn & Ha & Hl & _). destruct holding_next_aligned as [_ Hn].
  destruct (lt_pos _ _ _ _ _ _ _ _ _ _ _ _ T) as (x & Ex & Hx & Hx64). rewrite holding_buf in Ex.
  pose proof (hd_tail _ _ _ _ _ _ _ _ _ H). split_and!; cbn.
  - exists a. split_and!; [done..|]. rewrite (lt_ahs _ _ _ _ _ _ _ _ _ _ _ _ T). apply lookup_insert_eq.
  - apply (lt_hdr _ _ _ _ _ _ _ _ _ _ _ _ T).
  - apply taken_new_entry.
  - done.
  - exists x. split; [|done]. split; [lia|done || apply Hx].
Qed.

Lemma taken_holding bs' :
  w_data W' !! p' = Some bs' → holding w self th0 (Lock obj p' size bs' :: L) N F W' th' (es ++ es').
Proof.
  intros Hd. destruct taken_log as (El & Es & Et). destruct holding_next_aligned as [_ Hn]. pose proof taken_tail.
  pose proof (lt_thr _ _ _ _ _ _ _ _ _ _ _ _ T) as Eth. pose proof (lt_rest _ _ _ _ _ _ _ _ _ _ _ _ T) as Er.
  unfold rest in Er. injection Er as _ _ _ _ _ _ Er1 Er2 _ Er3 _ _ _.
  pose proof (hd_tail _ _ _ _ _ _ _ _ _ H). destruct (hd_region _ _ _ _ _ _ _ _ _ H) as [R1 R2]. split.
  - apply (lt_section _ _ _ _ _ _ _ _ _ _ _ _ T).
  - done.
  - intros _. split_and!; [apply (lt_wd _ _ _ _ _ _ _ _ _ _ _ _ T)|done|done].
  - rewrite Eth. apply (hd_clk _ _ _ _ _ _ _ _ _ H).
  - rewrite Eth. apply (hd_run _ _ _ _ _ _ _ _ _ H).
  - rewrite Eth. apply (hd_frees _ _ _ _ _ _ _ _ _ H).
  - lia.
  - apply taken_frame_start.
  - by rewrite Er1 Er2.
  - rewrite Er3. apply (hd_tsc _ _ _ _ _ _ _ _ _ H).
  - intros l [->|Hl]%elem_of_cons; [by apply taken_lock_held|by apply taken_old_lock].
  - apply taken_new_object.
  - intros o HL HN. rewrite (lt_ahs _ _ _ _ _ _ _ _ _ _ _ _ T) lookup_insert_ne.
    { intros E. by apply (HL (Lock obj p' size bs')); [left|]. }
    apply (hd_ahs _ _ _ _ _ _ _ _ _ H); [|done]. intros l Hl. apply HL. by right.
  - intros p Hp HN. rewrite fmap_cons in Hp. apply not_elem_of_cons in Hp as [Hp HL].
    rewrite (lt_data _ _ _ _ _ _ _ _ _ _ _ _ T) lookup_insert_ne //. by apply (hd_data _ _ _ _ _ _ _ _ _ H).
  - intros e [He|He]%elem_of_app Hc.
    + unfold is_copy in Hc. rewrite (lt_old _ _ _ _ _ _ _ _ _ _ _ _ T) // in Hc.
      destruct (hd_entries _ _ _ _ _ _ _ _ _ H e He Hc) as (l & Hl & ->). exists l. split; [by right|done].
    + destruct (lt_kinds _ _ _ _ _ _ _ _ _ _ _ _ T e He) as [->|E]; [|congruence].
      eexists. split; [by left|done].
Qed.
End one_more.

(** Taking one more lock. *)
Lemma holding_lock obj p size a bs :
  lockable obj a bs → (∀ l, l ∈ L → l_obj l ≠ obj) → run (get_act_obj p) W = Done obj W →
  obj_fits size → next_pos th + entry_space size ≤ hi →
  ∃ W' th' es' p' bs',
    run (_mvrlu_try_lock self p size) W = Done (Some p') W' ∧
    holding w self th0 (Lock obj p' size bs' :: L) N F W' th' es' ∧
    tail_cnt (log th') ≤ next_pos th + entry_space size ∧ rest W' = rest W ∧ p' ≠ NULL ∧
    bs' = take (Z.to_nat size) bs ++ drop (Z.to_nat size) (default [] (w_data W !! p')).
Proof.
  intros Hlk Hnot Hact Hsz Hroom. destruct (holding_room size Hsz Hroom) as [Hr Hnt].
  destruct (lockable_head obj a bs Hlk) as [Ek [k Hk]]. pose proof Hlk as (_ & Ha & Hl & Hbs & Hvis).
  destruct (run_try_lock_taken W self th es p size obj a k bs) as (W' & th' & es' & p' & Hrun & T).
  - apply (hd_section _ _ _ _ _ _ _ _ _ H).
  - done.
  - done.
  - by eapply lockable_act.
  - done.
  - by rewrite Ek.
  - intros Hp. destruct (Hvis Hp) as (k' & Hk' & Hc). rewrite Hk in Hk'. injection Hk' as <-.
    by rewrite (hd_clk _ _ _ _ _ _ _ _ _ H).
  - by eapply lockable_newest.
  - eexists W', th', _, p', _. split; [exact Hrun|]. split_and!.
    + eapply (taken_holding Hlk Hnot T). rewrite (lt_data _ _ _ _ _ _ _ _ _ _ _ _ T). apply lookup_insert_eq.
    + destruct (taken_log T) as (_ & _ & ->). destruct holding_next_aligned as [Hal Hn].
      destruct (new_tail_space (next_pos th) size) as [_ ?]; [|done..].
      destruct Hr as [_ [_ ?] _ _ _]. done.
    + apply (lt_rest _ _ _ _ _ _ _ _ _ _ _ _ T).
    + destruct (lt_pos _ _ _ _ _ _ _ _ _ _ _ _ T) as (x & -> & _). rewrite holding_buf.
      pose proof (log_index_range x). pose proof (st_buf _ _ _ _ (sp_stored _ _ _ Hsp)). unfold chs_obj, NULL. zlia.
    + done.
Qed.

(** Other states of the memory with the same headers. *)
Lemma in_section_ext W' th' :
  w_thr W' !! self = Some th' → log th' = log th → 0 ≤ num_ptrs (free_ptrs th') →
  w_chs W' = w_chs W → w_ws W' = w_ws W → w_ahs W' = w_ahs W → in_section W' self th' es.
Proof.
  intros Hth El Hfp E1 E2 E3.
  assert (∀ p, ver_clk W' p = ver_clk W p) as Ev by (intros p; unfold ver_clk, clk_of; by rewrite E1 E2).
  destruct (hd_section _ _ _ _ _ _ _ _ _ H) as [_ Hcur Htok _|c es' h s [[_ Hcu Hc Hal Hrep] Hroom Hok _] Hclk Hunp Hcur].
  - constructor; rewrite ?El //.
  - econstructor; [split; [split|..]|..]; rewrite ?El; try done.
    + destruct Hrep. split; rewrite ?E1 ?E2 //.
    + intros chs Hin. destruct (Hok chs Hin) as (h' & Hh' & Hcase). exists h'. rewrite E1. split; [done|].
      destruct Hcase as [?|(? & b & ?)]; [by left|right]. split; [done|]. exists b. by rewrite E3 Ev.
    + intros o b. rewrite E3. apply Hunp.
Qed.

(** Other statistics of the thread, or other objects to free. *)
Lemma holding_thread W' th' F' :
  w_thr W' !! self = Some th' → log th' = log th → frees th' F' →
  is_write_detected th' = is_write_detected th → local_clk th' = local_clk th → run_cnt th' = run_cnt th →
  w_chs W' = w_chs W → w_ws W' = w_ws W → w_ahs W' = w_ahs W → w_data W' = w_data W →
  w_start_addr W' = w_start_addr W → w_end_addr W' = w_end_addr W → w_tsc W' = w_tsc W →
  holding w self th0 L N F' W' th' es.
Proof.
  intros Hth El Ef Ew Ec Er E1 E2 E3 E4 E5 E6 E7.
  assert (in_section W' self th' es) as Hsec.
  { apply in_section_ext; try done. destruct Ef as [-> _]. lia. }
  destruct H. split; try done; rewrite ?El ?Ew ?Ec ?Er ?E3 ?E5 ?E6 ?E7; try done.
  - intros HL. destruct (hd_some0 HL) as (? & ? & ?). split_and!; [done|done|]. unfold set_start. by rewrite El E2.
  - destruct hd_frame0 as [F1 F2]. split; rewrite ?E1 ?E2 //.
  - intros l Hl. destruct (hd_locks0 l Hl) as (? & ? & ? & ? & ?). unfold lock_held. by rewrite E1 E3 E4 El.
  - intros x bs Hx. unfold new_object. rewrite E3 E4. by apply hd_new0.
  - by rewrite E4.
  - intros e. unfold is_copy. rewrite E1. apply hd_entries0.
Qed.

Lemma frees_more n ps obj :
  0 ≤ n < MVRLU_MAX_FREE_PTRS → 
  let fp := FreePtrs (wrap32 (n + 1)) (<[n := obj]> ps) in
  num_ptrs fp = n + 1 ∧ ∀ p, fp_mem fp p = true ↔ p = obj ∨ fp_mem (FreePtrs n ps) p = true.
Proof.
  intros Hn fp. assert (wrap32 (n + 1) = n + 1) as E.
  { rewrite wrap32_small //. unfold MVRLU_MAX_FREE_PTRS in Hn. lia. }
  unfold fp. rewrite E. split; [done|]. intros p. rewrite !fp_mem_elem. cbn [num_ptrs ptrs].
  rewrite !list_elem_of_omap. replace (Z.to_nat (n + 1)) with (S (Z.to_nat n)) by lia. split.
  - intros (i & Hi & Hp). apply elem_of_seq in Hi. destruct (decide (Z.of_nat i = n)) as [<-|Hne].
    + rewrite lookup_insert_eq in Hp. injection Hp as <-. by left.
    + rewrite lookup_insert_ne // in Hp. right. exists i. split; [|done]. apply elem_of_seq. lia.
  - intros [->|(i & Hi & Hp)].
    + exists (Z.to_nat n). split; [apply elem_of_seq; lia|]. rewrite Z2Nat.id; [lia|]. apply lookup_insert_eq.
    + apply elem_of_seq in Hi. exists i. split; [apply elem_of_seq; lia|]. rewrite lookup_insert_ne //. lia.
Qed.

(** Handing an object to [mvrlu_free]. *)
Lemma holding_free p obj :
  p ≠ NULL → self ≠ NULL → run (get_act_obj p) W = Done obj W →
  num_ptrs (free_ptrs th) < MVRLU_MAX_FREE_PTRS →
  ∃ W' th', run (mvrlu_free self p) W = Done () W' ∧ holding w self th0 L N (obj :: F) W' th' es ∧
    tail_cnt (log th') = tail_cnt (log th).
Proof.
  intros Hp Hs Hact Hn. set (n := num_ptrs (free_ptrs th)) in *.
  assert (w_thr W !! self = Some th) as Hth by (by destruct (hd_section _ _ _ _ _ _ _ _ _ H) as [|? ? ? ? [[]]]).
  destruct (hd_frees _ _ _ _ _ _ _ _ _ H) as [Hn0 HF]. fold n in Hn0.
  destruct (frees_more n (ptrs (free_ptrs th)) obj) as [Hn1 Hmem]; [lia|].
  set (th' := th <| free_ptrs := FreePtrs (wrap32 (n + 1)) (<[n := obj]> (ptrs (free_ptrs th))) |>).
  exists (set_thr self th' W), th'. split.
  - unfold mvrlu_free. rewrite decide_False // decide_False //. erewrite run_bind_done by exact Hact.
    xload. xstore. unfold fp_store. rewrite run_act. cbn [w_thr set_thr field_map]. rewrite lookup_insert_eq.
    fold n. rewrite (proj2 (Z.ltb_lt _ _) Hn).
    match goal with |- context [set_thr self ?t W] => set (th1 := t) end.
    erewrite (fp_put ptrs self _ th1) by cell. rewrite set_thr_thr. done.
  - split; [|done]. eapply holding_thread; try done; [cell|].
    split; [change (wrap32 (n + 1) = Z.of_nat (length (obj :: F))); cbn in Hn1 |- *; lia|]. intros q. unfold th'. cbn [free_ptrs field_map]. rewrite Hmem elem_of_cons -HF.
    by destruct (free_ptrs th).
Qed.

(** Writing to copies and to new objects. *)
Definition l_key (l : lock) : Z * Z * Z := (l_obj l, l_ptr l, l_size l).

Lemma holding_edit L' N' d :
  l_key <$> L' = l_key <$> L → N'.*1 = N.*1 →
  (∀ l, l ∈ L' → d !! l_ptr l = Some (l_bytes l)) → (∀ x bs, (x, bs) ∈ N' → d !! x = Some bs) →
  (∀ p, p ∉ l_ptr <$> L → p ∉ N.*1 → d !! p = w_data W !! p) →
  holding w self th0 L' N' F (W <| w_data := d |>) th es.
Proof.
  intros EL EN Hdl Hdn Hd.
  assert (∀ l', l' ∈ L' → ∃ l, l_key l' = l_key l ∧ l ∈ L) as HL.
  { intros l' Hl'. apply list_elem_of_fmap. rewrite -EL. by apply list_elem_of_fmap_2. }
  assert (∀ l, l ∈ L → ∃ l', l_key l = l_key l' ∧ l' ∈ L') as HL'.
  { intros l Hl. apply list_elem_of_fmap. rewrite EL. by apply list_elem_of_fmap_2. }
  assert (∀ x bs, (x, bs) ∈ N → ∃ bs', (x, bs') ∈ N') as HN'.
  { intros x bs Hx. apply (list_elem_of_fmap_2 fst) in Hx. rewrite -EN in Hx.
    apply list_elem_of_fmap in Hx as ([y bs'] & E & Hy). cbn in E. subst. by exists bs'. }
  assert (l_ptr <$> L' = l_ptr <$> L) as Ep.
  { apply (f_equal (fmap (λ k, k.1.2))) in EL. by rewrite -!list_fmap_compose in EL. }
  assert (L' = [] ↔ L = []) as Enil.
  { split; intros ->; [destruct L|destruct L']; done. }
  assert (in_section (W <| w_data := d |>) self th es) as Hsec.
  { pose proof (hd_section _ _ _ _ _ _ _ _ _ H) as Hsec. apply in_section_ext; try done.
    - by destruct Hsec as [|? ? ? ? [[]]].
    - destruct (hd_frees _ _ _ _ _ _ _ _ _ H) as [-> _]. lia. }
  destruct H. split; try done.
  - by rewrite Enil.
  - by rewrite Enil.
  - intros l' Hl'. destruct (HL l' Hl') as (l & E & Hl). injection E as E1 E2 E3.
    destruct (hd_locks0 l Hl) as (? & ? & ? & ? & ?). unfold lock_held. rewrite E1 E2 E3.
    split_and!; try done. rewrite -E2. by apply Hdl.
  - intros x bs Hx. pose proof (list_elem_of_fmap_2 fst _ _ Hx) as Hx'. rewrite EN in Hx'.
    apply list_elem_of_fmap in Hx' as ([y bs'] & E & Hy). cbn in E. subst y.
    destruct (hd_new0 x bs' Hy) as (? & ? & ? & ? & ?). split_and!; try done. by apply Hdn.
  - intros o Ho HoN. apply hd_ahs0.
    + intros l Hl. destruct (HL' l Hl) as (l' & E & Hl'). injection E as -> _ _. by apply Ho.
    + intros x bs Hx. destruct (HN' x bs Hx) as (bs' & Hx'). by eapply HoN.
  - intros p. rewrite Ep EN. intros Hp Hn. cbn. rewrite Hd //. by apply hd_data0.
  - intros e He Hc. destruct (hd_entries0 e He Hc) as (l & Hl & ->). destruct (HL' l Hl) as (l' & E & Hl').
    exists l'. split; [done|]. by injection E as _ -> _.
Qed.

Lemma in_section_alloc W' ahs a :
  w_ahs W !! ahs = None → p_copy (a_obj_hdr a) = NULL → w_thr W' = w_thr W → w_chs W' = w_chs W →
  w_ws W' = w_ws W → w_ahs W' = <[ahs := a]> (w_ahs W) → in_section W' self th es.
Proof.
  intros Hn Hp E0 E1 E2 E3.
  assert (∀ p, ver_clk W' p = ver_clk W p) as Ev by (intros p; unfold ver_clk, clk_of; by rewrite E1 E2).
  pose proof holding_buf as Eb.
  destruct (hd_section _ _ _ _ _ _ _ _ _ H) as [Hth Hcur Htok ?|c es' h s [[Hth Hcu Hc Hal Hrep] Hroom Hok Hfp] Hclk Hunp Hcur].
  - constructor; rewrite ?E0 //.
  - econstructor; [split; [split|..]|..]; rewrite ?E0; try done.
    + destruct Hrep. split; rewrite ?E1 ?E2 //.
    + intros chs Hin. destruct (Hok chs Hin) as (h' & Hh' & Hcase). exists h'. rewrite E1. split; [done|].
      destruct Hcase as [?|(? & b & Hb & ?)]; [by left|right]. split; [done|]. exists b. rewrite E3 Ev.
      rewrite lookup_insert_ne //. congruence.
    + intros o b. rewrite E3. destruct (decide (ahs = o)) as [<-|].
      * rewrite lookup_insert_eq. intros [= <-]. rewrite Hp. intros Hin.
        destruct (entries_elem _ _ _ _ _ _ (wr_entries _ _ _ _ _ _ _ _ Hrep) Hin) as (x & _ & E & _).
        pose proof (log_index_range x). pose proof (st_buf _ _ _ _ (sp_stored _ _ _ Hsp)).
        rewrite Eb in E. unfold vobj_to_chs, obj_to_chs, NULL in E. zlia.
      * rewrite lookup_insert_ne //. apply Hunp.
Qed.

(** Fresh memory for an object, as the kernel's allocator hands it out: outside
    of the logs, and not that of an existing object. *)
Record fresh (mem : Z) : Prop := Fresh {
  fr_pos : 0 < mem;
  fr_max : mem + sizeof_size_t + sizeof_act_hdr_struct ≤ ULONG_MAX;
  fr_region : addr_in_log_region w (obj_to_obj_hdr (ahs_obj (mem + sizeof_size_t))) = false;
  fr_none : w_ahs w !! (mem + sizeof_size_t) = None }.

(** Allocating an object. *)
Lemma holding_alloc mem ks size :
  w_kmem W = mem :: ks → fresh mem → (∀ x bs, (x, bs) ∈ N → x ≠ ahs_obj (mem + sizeof_size_t)) →
  let x := ahs_obj (mem + sizeof_size_t) in
  ∃ W', run (mvrlu_alloc size) W = Done x W' ∧
    holding w self th0 L ((x, alloc_bytes W x size) :: N) F W' th es.
Proof.
  intros Hk [Hpos Hmax Hreg Hnone] HN x.
  destruct (run_mvrlu_alloc W size mem ks Hk) as (W' & Hr & E1 & E2 & E3 & E4 & E5 & E6 & E7 & E8).
  { unfold sizeof_size_t, NULL. lia. }
  set (ahs := mem + sizeof_size_t) in *. fold x in Hr, E2, Hreg. exists W'. split; [done|].
  assert (vobj_to_ahs x = ahs) as Ex by apply ahs_obj_vobj.
  assert (∀ l, l ∈ L → ahs ≠ vobj_to_ahs (l_obj l)) as HL.
  { intros l Hl E. destruct (hd_locks _ _ _ _ _ _ _ _ _ H l Hl) as ((a0 & _ & Ha0 & _) & _). by rewrite -E Hnone in Ha0. }
  assert (∀ l, l ∈ L → x ≠ l_ptr l) as HLp.
  { intros l Hl E. destruct (hd_locks _ _ _ _ _ _ _ _ _ H l Hl) as (_ & _ & _ & _ & y & [_ Hy] & E').
    by rewrite E E' (st_region _ _ _ _ (sp_stored _ _ _ Hsp)) in Hreg. }
  assert (∀ y bs, (y, bs) ∈ N → ahs ≠ vobj_to_ahs y) as HNa.
  { intros y bs Hy E. apply (HN y bs Hy). unfold x. by rewrite E vobj_ahs_obj. }
  assert (w_ahs W !! ahs = None) as HW by (rewrite (hd_ahs _ _ _ _ _ _ _ _ _ H); [exact HL|exact HNa|exact Hnone]).
  assert (in_section W' self th es) as Hsec by (by eapply (in_section_alloc W' ahs (ActHdr NULL (ObjHdr (wrap32 size) 0 TYPE_ACTUAL NULL)))).
  destruct H. split; try done; rewrite ?E6 ?E7 ?E8; try done.
  - intros EL. destruct (hd_some0 EL) as (? & ? & ?). split_and!; [done..|]. unfold set_start. by rewrite E5.
  - destruct hd_frame0 as [F1 F2]. split; rewrite ?E4 ?E5 //.
  - intros l Hl. destruct (hd_locks0 l Hl) as ((a0 & ?) & ? & ? & ? & ?). unfold lock_held.
    rewrite E4 E1 E2 !lookup_insert_ne; [by apply HL|by apply HLp|]. split_and!; try done. by exists a0.
  - intros y bs [[= -> ->]|Hy]%elem_of_cons.
    + split_and!; [unfold x, ahs_obj, sizeof_size_t, NULL in *; zlia|done|by rewrite Ex| |by rewrite E2 lookup_insert_eq].
      eexists. by rewrite Ex E1 lookup_insert_eq.
    + destruct (hd_new0 y bs Hy) as (? & ? & ? & (a0 & ?) & ?). split_and!; [done..| |].
      * exists a0. rewrite E1 lookup_insert_ne //. by eapply HNa.
      * rewrite E2 lookup_insert_ne //. intros E. by apply (HN y bs Hy).
  - intros o HoL HoN. rewrite E1 lookup_insert_ne.
    + rewrite -Ex. intros E. by eapply (HoN x); [left|].
    + apply hd_ahs0; [done|]. intros y bs Hy. apply (HoN y bs). by right.
  - intros p HpL HpN. cbn in HpN. apply not_elem_of_cons in HpN as [Hpx HpN].
    rewrite E2 lookup_insert_ne //. by apply hd_data0.
  - intros e. unfold is_copy. rewrite E4. apply hd_entries0.
Qed.

(** ** The end of the section *)

Lemma leaving_same :
  let W0 := leaving self th W in
  w_chs W0 = w_chs W ∧ w_ws W0 = w_ws W ∧ w_ahs W0 = w_ahs W ∧ w_data W0 = w_data W ∧ w_tsc W0 = w_tsc W.
Proof. unfold leaving, woken. destruct (above_mark th); [|done]. by destruct (truth _). Qed.

(** The chains of the memory at the start, at the end of the section. *)
Lemma holding_chain o a l :
  w_ahs w !! o = Some a → versions (w_chs w) (p_copy (a_obj_hdr a)) l →
  ∀ p, p ∈ l → version_of w buf lo hi (ahs_obj o) p.
Proof.
  intros Ho Hv. destruct (st_objs _ _ _ _ (sp_stored _ _ _ Hsp) o a Ho) as [_ (l' & Hv' & Hl)].
  by rewrite (versions_det _ _ _ _ Hv Hv').
Qed.

Lemma holding_versions o a l :
  w_ahs w !! o = Some a → versions (w_chs w) (p_copy (a_obj_hdr a)) l →
  versions (w_chs W) (p_copy (a_obj_hdr a)) l ∧ history W l = history w l.
Proof.
  intros Ho Hv. pose proof (holding_chain o a l Ho Hv) as Hl. pose proof (hd_frame _ _ _ _ _ _ _ _ _ H) as Hfr. split.
  - eapply versions_ext; [done|]. intros q Hq. by destruct (frame_version W _ _ _ Hfr Ht (Hl q Hq)).
  - apply list_fmap_ext. intros i p Hp%list_elem_of_lookup_2. destruct (frame_version W _ _ _ Hfr Ht (Hl p Hp)) as (_ & -> & _).
    by rewrite (holding_version_data _ _ (Hl p Hp)).
Qed.

Lemma holding_entry_pos e : e ∈ es → ∃ x, lo ≤ x < tail_cnt (log th) ∧ e = buf + log_index x.
Proof.
  intros He. pose proof holding_start as Hst. pose proof holding_buf as Eb.
  destruct (hd_section _ _ _ _ _ _ _ _ _ H) as [|c es' h s [[_ Hcu _ _ Hrep] _ _ _] _ _ Hcur]; [by apply elem_of_nil in He|].
  assert (c = lo) as ->.
  { rewrite -Hst. unfold set_start. rewrite decide_False // Hcu (wr_ws _ _ _ _ _ _ _ _ Hrep). symmetry.
    apply (wr_start _ _ _ _ _ _ _ _ Hrep). }
  destruct (entries_elem _ _ _ _ _ _ (wr_entries _ _ _ _ _ _ _ _ Hrep) He) as (x & Hx & E & _).
  rewrite Eb in E. exists x. split; [|done]. pose proof (wr_size _ _ _ _ _ _ _ _ Hrep). lia.
Qed.

Lemma holding_settled o a l :
  L ≠ [] → w_ahs w !! o = Some a → versions (w_chs w) (p_copy (a_obj_hdr a)) l →
  settled (leaving self th W) (cur_wrt_set (log th)) es l.
Proof.
  intros HL Ho Hv p Hp. destruct leaving_same as (E1 & E2 & _). destruct (holding_cur HL) as [Ec _].
  pose proof (holding_chain o a l Ho Hv p Hp) as Hvp. pose proof (hd_frame _ _ _ _ _ _ _ _ _ H) as Hfr.
  destruct (frame_version W _ _ _ Hfr Ht Hvp) as (E & Ek & Hk). pose proof Hvp as (_ & h & Hh & _ & _ & Hout).
  pose proof (versions_in _ _ _ _ Hv Hp) as Hn. split_and!; [done| |].
  - intros (x & Hx & Ex)%holding_entry_pos. by destruct (Hout x ltac:(lia)).
  - exists h. rewrite E1 E Hh. split_and!; [done| |].
    + rewrite Ec. apply Hout. destruct (sp_lo _ _ _ Hsp). lia.
    + rewrite -Ek in Hk. unfold ver_clk in Hk. rewrite decide_False // E Hh in Hk.
      unfold clk_of in *. by rewrite E2.
Qed.

(** The section publishes the copy of [l]: it asked for a copy, and has not
    freed the object. *)
Definition published (l : lock) : Prop := l_size l ≠ 0 ∧ l_obj l ∉ F.

#[local] Instance published_dec l : Decision (published l).
Proof. unfold published. apply _. Defined.

Section commit.
Context {s : mvrlu_wrt_set} {new : Z} {tsc : list Z} {w1 : world}.
Context (HL : L ≠ []) (Hcm : committed (leaving self th W) self (leaving_thread th) es s new tsc w1).
Context (Hsane : sane_clock new).

Lemma lock_entry l :
  l ∈ L → ∃ sz, w_chs (leaving self th W) !! obj_to_chs (l_ptr l) =
    Some (copy_hdr (cur_wrt_set (log th)) (l_obj l) (l_size l) sz) ∧ obj_to_chs (l_ptr l) ∈ es.
Proof.
  intros Hl. destruct (hd_locks _ _ _ _ _ _ _ _ _ H l Hl) as (_ & (sz & Hh) & Hin & _).
  destruct leaving_same as (-> & _). by exists sz.
Qed.

Lemma lock_freed l :
  l ∈ L → freed (leaving self th W) (leaving_thread th) (obj_to_chs (l_ptr l)) = true ↔ l_obj l ∈ F.
Proof.
  intros Hl. destruct (lock_entry l Hl) as (sz & Hh & _). unfold freed, entry_obj. rewrite Hh.
  change (obj_of _) with (vobj_to_ahs (l_obj l)). rewrite vobj_ahs_obj. apply (hd_frees _ _ _ _ _ _ _ _ _ H).
Qed.

Lemma commit_other o :
  (∀ l, l ∈ L → o ≠ vobj_to_ahs (l_obj l)) → w_ahs w1 !! o = w_ahs W !! o.
Proof.
  intros Ho. destruct leaving_same as (E1 & _ & E3 & _). rewrite (cm_ahs _ _ _ _ _ _ _ _ Hcm) ?E3 //.
  intros (e & -> & [Hc He]%list_elem_of_filter)%list_elem_of_fmap.
  destruct (hd_entries _ _ _ _ _ _ _ _ _ H e He) as (l & Hl & ->).
  { unfold is_copy in *. by rewrite E1 in Hc. }
  apply (Ho l Hl). destruct (lock_entry l Hl) as (sz & Hh & _). unfold entry_obj. by rewrite Hh.
Qed.

Lemma commit_publishes l a :
  l ∈ L → published l → w_ahs W !! vobj_to_ahs (l_obj l) = Some a →
  ∃ sz, publishes (w := leaving self th W) (th := leaving_thread th) (es := es) (obj_to_chs (l_ptr l))
    (copy_hdr (cur_wrt_set (log th)) (l_obj l) (l_size l) sz) a.
Proof.
  intros Hl [Hsz HF] Ha. destruct (lock_entry l Hl) as (sz & Hh & Hin). exists sz.
  destruct leaving_same as (_ & _ & E3 & _). split_and!; try done.
  - apply not_true_iff_false. by rewrite lock_freed.
  - by rewrite E3.
Qed.

Lemma commit_kept l a :
  l ∈ L → ¬ published l → w_ahs W !! vobj_to_ahs (l_obj l) = Some a →
  ∃ a', w_ahs w1 !! vobj_to_ahs (l_obj l) = Some a' ∧ a_obj_hdr a' = a_obj_hdr a.
Proof.
  intros Hl Hp Ha. destruct (lock_entry l Hl) as (sz & Hh & Hin). destruct leaving_same as (_ & _ & E3 & _).
  destruct (cm_entries _ _ _ _ _ _ _ _ Hcm _ Hin) as [_ Hact]. unfold is_copy, entry_obj in Hact. rewrite Hh in Hact.
  specialize (Hact eq_refl). change (obj_of _) with (vobj_to_ahs (l_obj l)) in Hact. rewrite E3 Ha in Hact.
  eexists. split; [exact Hact|]. unfold committed_act. destruct (freed _ _ _) eqn:Ef; [done|].
  unfold moved_act. case_decide; [done|]. case_decide as Hs; [done|]. destruct Hp. split; [done|].
  rewrite -lock_freed // Ef. done.
Qed.

(** Where a section publishes nothing, readers see what they saw. *)
Lemma commit_same obj bs local a a' :
  w_ahs w !! vobj_to_ahs obj = Some a → w_ahs w1 !! vobj_to_ahs obj = Some a' →
  p_copy (a_obj_hdr a') = p_copy (a_obj_hdr a) → snap_at w local obj bs → snap_at w1 local obj bs.
Proof.
  intros Ha Ha' Ep (Hn & a0 & l & Ha0 & Hv & Hk & ->). rewrite Ha in Ha0. injection Ha0 as <-.
  destruct (holding_versions _ _ _ Ha Hv) as [HvW Hh]. pose proof (holding_settled _ _ _ HL Ha Hv) as Hs.
  destruct leaving_same as (E1 & E2 & E3 & E4 & _).
  change (cur_wrt_set (log th)) with (cur_wrt_set (log (leaving_thread th))) in Hs. split; [done|]. exists a', l. rewrite Ep. split_and!.
  - done.
  - apply (committed_versions Hcm); [by rewrite E1|done].
  - intros p Hp. rewrite (committed_ver_clk Hcm p l) //. eapply settled_ver_clk; [exact Hs|done].
  - rewrite (history_committed _ _ _ _ _ _ _ _ _ Hcm Hs) (cm_frame _ _ _ _ _ _ _ _ Hcm). cbn [w_data field_map].
    rewrite E4. pose proof (holding_object_data _ _ Ha) as Ed. rewrite vobj_ahs_obj in Ed. rewrite Ed. f_equal.
    rewrite -Hh. unfold history, ver_clk, clk_of. by rewrite E1 E2 E4.
Qed.

(** Where it publishes a copy, they see it from the commit's clock on. *)
Lemma commit_published l bs local :
  l ∈ L → published l → snap_at w local (l_obj l) bs →
  snap_at w1 local (l_obj l) (if decide (new + g_ordo_boundary < local) then l_bytes l else bs).
Proof.
  intros Hl Hp (Hn & a0 & vs & Ha0 & Hv & Hk & ->).
  destruct (hd_locks _ _ _ _ _ _ _ _ _ H l Hl) as ((a1 & _ & Ha1 & _ & HaW) & _ & _ & Hd & x & Hx & Ex).
  rewrite Ha0 in Ha1. injection Ha1 as <-.
  destruct (commit_publishes l _ Hl Hp HaW) as (sz & Hpub). destruct (holding_versions _ _ _ Ha0 Hv) as [HvW Hh].
  pose proof (holding_settled _ _ _ HL Ha0 Hv) as Hs. destruct leaving_same as (E1 & E2 & E3 & E4 & _).
  change (cur_wrt_set (log th)) with (cur_wrt_set (log (leaving_thread th))) in Hs.
  pose proof (sane_not_max new Hsane) as Hmax.
  assert (chs_obj (obj_to_chs (l_ptr l)) = l_ptr l) as Ec by (unfold chs_obj, obj_to_chs; lia).
  assert (l_ptr l ≠ NULL) as Hnn.
  { rewrite Ex. pose proof (log_index_range x). pose proof (st_buf _ _ _ _ (sp_stored _ _ _ Hsp)).
    unfold chs_obj, NULL. zlia. }
  pose proof (published_act Hcm _ _ _ Hpub) as Hact. change (obj_of _) with (vobj_to_ahs (l_obj l)) in Hact.
  pose proof (published_history _ _ _ _ _ _ _ _ _ _ _ vs Hcm Hpub Hmax) as Hhist.
  pose proof (published_chain Hcm _ _ _ vs Hpub Hmax) as Hch. rewrite Ec in Hact, Hhist, Hch.
  specialize (Hhist Hnn Hs). specialize (Hch Hnn ltac:(by rewrite E1) Hs).
  split; [done|]. eexists _, (l_ptr l :: vs). split_and!; [exact Hact|exact Hch| |].
  - intros p [->|Hp']%elem_of_cons.
    + pose proof (published_hdr Hcm _ _ _ Hpub Hmax) as Hhd. unfold ver_clk. rewrite decide_False //.
      change (vobj_to_chs (l_ptr l)) with (obj_to_chs (l_ptr l)). rewrite Hhd. unfold clk_of. cbn. by rewrite decide_False.
    + rewrite (committed_ver_clk Hcm p vs) //. by eapply settled_ver_clk.
  - rewrite Hhist snap_commit // (cm_frame _ _ _ _ _ _ _ _ Hcm). cbn [w_data field_map]. rewrite E4 Hd. cbn [default].
    pose proof (holding_object_data _ _ Ha0) as Ed. rewrite vobj_ahs_obj in Ed. rewrite Ed.
    case_decide; [done|]. f_equal. rewrite -Hh. unfold history, ver_clk, clk_of. by rewrite E1 E2 E4.
Qed.

Lemma commit_new x bs local : (x, bs) ∈ N → snap_at w1 local x bs.
Proof.
  intros Hx. destruct (hd_new _ _ _ _ _ _ _ _ _ H x bs Hx) as (Hn & _ & Hnone & (a & Ha & Hp) & Hd).
  destruct leaving_same as (_ & _ & _ & E4 & _).
  split; [done|]. exists a, []. split_and!.
  - rewrite commit_other //. intros l Hl E. destruct (hd_locks _ _ _ _ _ _ _ _ _ H l Hl) as ((a0 & _ & Ha0 & _) & _).
    by rewrite -E Hnone in Ha0.
  - rewrite Hp. constructor.
  - by intros p ?%elem_of_nil.
  - rewrite (cm_frame _ _ _ _ _ _ _ _ Hcm). cbn. by rewrite E4 Hd.
Qed.

Lemma commit_unpublished obj bs local :
  (∀ l, l ∈ L → published l → l_obj l ≠ obj) → snap_at w local obj bs → snap_at w1 local obj bs.
Proof.
  intros Hnot Hsn. pose proof Hsn as (Hn & a & vs & Ha & _).
  destruct (decide (obj ∈ l_obj <$> L)) as [(l & -> & Hl)%list_elem_of_fmap|Hout].
  - destruct (hd_locks _ _ _ _ _ _ _ _ _ H l Hl) as ((a1 & _ & Ha1 & _ & HaW) & _).
    rewrite Ha in Ha1. injection Ha1 as <-.
    destruct (commit_kept l _ Hl (λ Hp, Hnot l Hl Hp eq_refl) HaW) as (a' & Ha' & E).
    eapply commit_same; [exact Ha|exact Ha'|by rewrite E|done].
  - assert (∀ l, l ∈ L → vobj_to_ahs obj ≠ vobj_to_ahs (l_obj l)) as HLo.
    { intros l Hl E. apply Hout. apply list_elem_of_fmap. exists l. split; [|done].
      rewrite -(vobj_ahs_obj (l_obj l)) -(vobj_ahs_obj obj). by f_equal. }
    eapply commit_same; [exact Ha| |done|done]. rewrite commit_other // (hd_ahs _ _ _ _ _ _ _ _ _ H) //.
    intros x bs' Hx E. destruct (hd_new _ _ _ _ _ _ _ _ _ H x bs' Hx) as (_ & _ & Hnone & _). by rewrite -E Ha in Hnone.
Qed.
End commit.

(** The clock readings of a commit: the first one that is more than twice the
    uncertainty behind the section's clock is [new]. *)
Record draws (local_clk_ : Z) (fuel : nat) (ts : list Z) (new : Z) (tsc : list Z) : Prop := Draws {
  dr_tsc : ∃ skip, ts = skip ++ new :: tsc ∧ (length skip ≤ fuel)%nat ∧
           Forall (λ t, t ≤ local_clk_ + 2 * g_ordo_boundary) skip;
  dr_local : sane_clock local_clk_;
  dr_new : local_clk_ + 2 * g_ordo_boundary < new;
  dr_sane : sane_clock new }.

(** The end of a section that holds locks. *)
Lemma section_end fuel new tsc :
  L ≠ [] → need_reclaim (log th0) = 0 → draws (local_clk th0) fuel (w_tsc w) new tsc →
  ∃ w' th',
    run (mvrlu_reader_unlock (S fuel) self) W = Done () w' ∧
    w_thr w' !! self = Some th' ∧ run_cnt th' = wrap32 (run_cnt th0 + 1) ∧
    is_write_detected th' = 0 ∧ cur_wrt_set (log th') = NULL ∧ num_ptrs (free_ptrs th') = 0 ∧
    (∀ x bs local, (x, bs) ∈ N → snap_at w' local x bs) ∧
    (∀ l bs local, l ∈ L → published l → snap_at w local (l_obj l) bs →
       snap_at w' local (l_obj l) (if decide (new + g_ordo_boundary < local) then l_bytes l else bs)) ∧
    (∀ obj bs local, (∀ l, l ∈ L → published l → l_obj l ≠ obj) →
       snap_at w local obj bs → snap_at w' local obj bs).
Proof.
  intros HL Hnr [(skip & Htsc & Hf & Hskip) Hlsane Hnew Hsane].
  destruct (hd_some _ _ _ _ _ _ _ _ _ H HL) as (Hwd & Elog & _).
  destruct (holding_cur HL) as [_ Hcur]. pose proof (hd_clk _ _ _ _ _ _ _ _ _ H) as Eclk.
  assert (∃ c h s, section_ws W self th c es h s) as (c & h & s & Hsw).
  { destruct (hd_section _ _ _ _ _ _ _ _ _ H) as [_ ? _ _|c es' h s Hsw _ _ _]; [done|by exists c, h, s]. }
  destruct (run_reader_unlock fuel W self th c es h s skip new tsc) as (w1 & Hcm & Hth1 & Hr);
    [done|done|by rewrite Elog|by rewrite Eclk|by rewrite (hd_tsc _ _ _ _ _ _ _ _ _ H)|by rewrite Eclk|by rewrite Eclk|done|].
  match type of Hr with _ = Done _ ?x => set (w' := x) in Hr end.
  assert (∀ local obj bs, snap_at w1 local obj bs → snap_at w' local obj bs) as Hsn.
  { unfold w'. intros local obj bs. destruct (_ <=? _); [|done]. unfold woken. by destruct (truth _). }
  exists w', (done_thread th). split; [done|]. split_and!; try done.
  - unfold w'. by destruct (_ <=? _); rewrite ?woken_thr.
  - cbn. by rewrite (hd_run _ _ _ _ _ _ _ _ _ H).
  - intros. apply Hsn. eapply commit_new; eauto.
  - intros. apply Hsn. eapply commit_published; eauto.
  - intros. apply Hsn. eapply commit_unpublished; eauto.
Qed.
End state.
End frame.

