(* ===== verification/HashUpdate.v ===== *)
(** * Updates of a hash table

    [insert] and [remove] of [chainhash.hh] as functions of the chain a reader
    sees: each is one critical section that walks the chain, locks the items
    around the position, edits their copies and commits.  Readers from the
    commit's clock on see the chain with the item, or without it; earlier ones
    see what they saw. *)

From Stdlib Require Import Sorted.
From S2P Require Import Prelude World OrdoClock Port Object Cells VersionLog LogLayout LogAppend Commit Qp Api Snapshot Locking ChainHash Sections Pointers HashView Atomic.

(** ** Words of an item *)

Lemma word_ext bs bs' off : take 8 (drop off bs) = take 8 (drop off bs') → word bs off = word bs' off.
Proof. unfold word. by intros ->. Qed.

(** The words of a copy are those of what was copied. *)
Lemma word_copy bs old off n :
  (n ≤ length bs)%nat → (off + 8 ≤ n)%nat → word (take n bs ++ drop n old) off = word bs off.
Proof.
  intros Hn Ho. apply word_ext. rewrite drop_app_le; [rewrite length_take; lia|].
  rewrite take_app_le; [rewrite length_drop length_take; lia|].
  rewrite skipn_firstn_comm take_take. f_equal. lia.
Qed.

Lemma word_store_eq bs off v : (off + 8 ≤ length bs)%nat → word (list_inserts off (le64 v) bs) off = wrap64 v.
Proof.
  intros Ho. unfold word. rewrite -{1}(length_le64 v) take_drop_inserts; [by rewrite length_le64|]. apply of_le64_le64.
Qed.

Lemma word_store_ne bs off off' v :
  (off + 8 ≤ off' ∨ off' + 8 ≤ off)%nat → word (list_inserts off (le64 v) bs) off' = word bs off'.
Proof.
  intros Ho. apply word_ext. apply list_eq. intros i. destruct (decide (i < 8)%nat); [|by rewrite !lookup_take_ge; [lia..|]].
  rewrite !lookup_take_lt // !lookup_drop. destruct Ho.
  - rewrite list_lookup_inserts_ge //. rewrite length_le64. lia.
  - rewrite list_lookup_inserts_lt //. lia.
Qed.

(** ** Chains of snapshots *)

(** A chain as a list of objects with their contents. *)
Fixpoint snap_linked (w : world) (local next : Z) (nodes : list (Z * list Z)) : Prop :=
  match nodes with
  | [] => next = NULL
  | (o, bs) :: nodes => next = o ∧ snap_at w local o bs ∧ item_bytes bs ∧ snap_linked w local (word bs off_link) nodes
  end.

Definition item_of (n : Z * list Z) : Z * Z := (word n.2 off_key, word n.2 off_val).
Definition items (nodes : list (Z * list Z)) : list (Z * Z) := item_of <$> nodes.

(** The items of the chain behind the dummy item [head], for readers at
    [local]. *)
Definition snap_items (w : world) (local head : Z) (its : list (Z * Z)) : Prop :=
  ∃ bs nodes, snap_linked w local head ((head, bs) :: nodes) ∧ its = items nodes.

Lemma snap_linked_det w local next nodes nodes' :
  snap_linked w local next nodes → snap_linked w local next nodes' → nodes = nodes'.
Proof.
  revert next nodes'. induction nodes as [|[o bs] nodes IH]; intros next [|[o' bs'] nodes']; cbn; [done| | |].
  - intros -> (<- & (Hn & _) & _). done.
  - intros (-> & (Hn & _) & _). done.
  - intros (-> & H1 & _ & H2) (<- & H3 & _ & H4). rewrite (snap_at_det _ _ _ _ _ H1 H3) in H2 |- *.
    by rewrite (IH _ _ H2 H4).
Qed.

Lemma snap_items_det w local head its its' : snap_items w local head its → snap_items w local head its' → its = its'.
Proof.
  intros (bs & ns & H & ->) (bs' & ns' & H' & ->). pose proof (snap_linked_det _ _ _ _ _ H H') as E. by injection E as _ ->.
Qed.

Lemma snap_linked_mono w w' local next nodes :
  (∀ obj bs, snap_at w local obj bs → snap_at w' local obj bs) →
  snap_linked w local next nodes → snap_linked w' local next nodes.
Proof.
  intros Hm. revert next. induction nodes as [|[o bs] nodes IH]; intros next; [done|]. cbn.
  intros (-> & H1 & H2 & H3). split_and!; auto.
Qed.

Lemma snap_items_mono w w' local head its :
  (∀ obj bs, snap_at w local obj bs → snap_at w' local obj bs) →
  snap_items w local head its → snap_items w' local head its.
Proof. intros Hm (bs & ns & H & ->). exists bs, ns. split; [by eapply snap_linked_mono|done]. Qed.

(** What a reading operation of the table goes by. *)
Lemma chain_at_snap fuel w th obj its :
  chain_at fuel w th obj its → ∃ ns, snap_linked w (local_clk th) obj ns ∧ its = items ns.
Proof.
  induction 1 as [|obj bs l (Hn & _ & a & vs & Ha & Hv & Hk & _ & _ & E) Hb _ (ns & Hns & ->)]; [by exists []|].
  exists ((obj, bs) :: ns). split; [|done]. cbn. split_and!; [done| |done|done]. split; [done|]. by exists a, vs.
Qed.

Lemma items_at_snap fuel w th head its : items_at fuel w th head its → snap_items w (local_clk th) head its.
Proof.
  intros (bs & (Hn & _ & a & vs & Ha & Hv & Hk & _ & _ & E) & Hb & (ns & Hns & ->)%chain_at_snap).
  exists bs, ns. split; [|done]. cbn. split_and!; [done| |done|done]. split; [done|]. by exists a, vs.
Qed.

(** ** The newest chain

    The chain of the newest versions, all visible at the section's clock and
    none of them locked. *)

Section chain.
Context (fuel : nat) (w : world) (self : Z) (th0 : mvrlu_thread_struct).

Definition newest_at (obj : Z) (bs : list Z) : Prop :=
  0 < obj ≤ ULONG_MAX ∧ item_bytes bs ∧
  ∃ a l, lockable (w := w) (th0 := th0) obj a bs ∧ versions (w_chs w) (p_copy (a_obj_hdr a)) l ∧ (length l ≤ fuel)%nat.

Fixpoint linked (next : Z) (nodes : list (Z * list Z)) : Prop :=
  match nodes with
  | [] => next = NULL
  | (o, bs) :: nodes => next = o ∧ newest_at o bs ∧ linked (word bs off_link) nodes
  end.

(** The pointer to the newest version. *)
Definition version_ptr (obj : Z) : Z :=
  match w_ahs w !! vobj_to_ahs obj with Some a => newest obj a | None => NULL end.
Definition next_ptr (nodes : list (Z * list Z)) : Z :=
  match nodes with [] => NULL | (o, _) :: _ => version_ptr o end.

Lemma lte_clock_mono k c c' : lte_clock k c = true → c ≤ c' → lte_clock k c' = true.
Proof. unfold lte_clock, ordo_lt_clock. intros ?%Z.ltb_lt ?. apply Z.ltb_lt. lia. Qed.

Lemma newest_det obj bs bs' : newest_at obj bs → newest_at obj bs' → bs = bs'.
Proof.
  intros (_ & _ & a & l & (_ & Ha & _ & Hd & _) & _) (_ & _ & a' & l' & (_ & Ha' & _ & Hd' & _) & _). congruence.
Qed.

(** The chain ends, so no object is on it twice. *)
Lemma linked_det next ns ns' : linked next ns → linked next ns' → ns = ns'.
Proof.
  revert next ns'. induction ns as [|[o bs] ns IH]; intros next [|[o' bs'] ns'] H1 H2; [done| | |].
  - destruct H2 as (E & (Hn & _) & _). cbn in H1. unfold NULL in H1. lia.
  - destruct H1 as (E & (Hn & _) & _). cbn in H2. unfold NULL in H2. lia.
  - destruct H1 as (E1 & H1 & H3), H2 as (E2 & H2 & H4). subst. pose proof (newest_det _ _ _ H1 H2) as <-.
    by rewrite (IH _ _ H3 H4).
Qed.

Lemma linked_split next n1 o bs n2 : linked next (n1 ++ (o, bs) :: n2) → linked o ((o, bs) :: n2).
Proof. revert next. induction n1 as [|[o' bs'] n1 IH]; intros next; cbn; [by intros (-> & ?)|]. intros (_ & _ & ?%IH). done. Qed.

Lemma linked_NoDup next ns : linked next ns → NoDup ns.*1.
Proof.
  revert next. induction ns as [|[o bs] ns IH]; intros next; [constructor|]. intros Hl. pose proof Hl as (-> & Hn & Hr).
  cbn. constructor; [|by eapply IH]. intros ([o' bs'] & E & Hin)%list_elem_of_fmap. cbn in E. subst o'.
  apply list_elem_of_split in Hin as (l1 & l2 & ->). pose proof (linked_split _ ((o, bs) :: l1) o bs' l2 Hl) as H2.
  pose proof (linked_det _ _ _ Hl H2) as E. apply (f_equal length) in E. cbn in E. rewrite length_app in E. cbn in E. lia.
Qed.

Lemma linked_newest next ns o bs : linked next ns → (o, bs) ∈ ns → newest_at o bs.
Proof.
  revert next. induction ns as [|[o' bs'] ns IH]; intros next; [by intros _ ?%elem_of_nil|].
  intros (_ & Hn & Hr) [[= -> ->]|Hin]%elem_of_cons; [done|by eapply IH].
Qed.

Context {hi : Z} (Hsp : space w th0 hi).

Lemma newest_snap obj bs local : newest_at obj bs → local_clk th0 ≤ local → snap_at w local obj bs.
Proof.
  intros (Ho & _ & a & l & (Hn & Ha & _ & Hd & Hvis) & Hv & _) Hloc.
  destruct (st_objs _ _ _ _ (sp_stored _ _ _ Hsp) _ _ Ha) as [_ (l' & Hv' & Hl')].
  rewrite -(versions_det _ _ _ _ Hv Hv') in Hl'. split; [done|]. exists a, l. split_and!; [done|done| |].
  - intros p Hp. by apply (frame_version w _ _ _ (log_frame_refl _ _ hi w) (Z.le_refl hi) (Hl' p Hp)).
  - inversion Hv as [E1 E2|p h l0 Hp Hh Hv0 E1]; subst.
    + unfold newest in Hd. destruct (decide _); [|congruence]. cbn. by rewrite Hd.
    + unfold newest in Hd. destruct (decide _); [done|]. destruct (Hvis Hp) as (k & Hk & Hc).
      cbn. rewrite Hk Hd. cbn. by rewrite (lte_clock_mono k _ _ Hc Hloc).
Qed.

(** ** Reading in a section that writes *)

Section read.
Context {L : list lock} {N : list (Z * list Z)} {F : list Z} {W : world} {th : mvrlu_thread_struct} {es : list Z}.
Context (H : holding w self th0 L N F W th es) (Ht : tail_cnt (log th) ≤ hi).

Lemma holding_region p : addr_in_log_region W p = addr_in_log_region w p.
Proof. unfold addr_in_log_region. by destruct (hd_region _ _ _ _ _ _ _ _ _ H) as [-> ->]. Qed.

Lemma holding_thr : w_thr W !! self = Some th.
Proof. by destruct (hd_section _ _ _ _ _ _ _ _ _ H) as [|? ? ? ? [[]]]. Qed.

Lemma newest_ptr obj bs :
  newest_at obj bs → ∃ a, lockable (w := w) (th0 := th0) obj a bs ∧ version_ptr obj = newest obj a ∧ version_ptr obj ≠ NULL.
Proof.
  intros (Ho & _ & a & l & Hlk & Hv & _). pose proof Hlk as (Hn & Ha & _). exists a. unfold version_ptr.
  rewrite Ha. split_and!; [done|done|]. unfold newest. by case_decide.
Qed.

Lemma run_act_newest obj bs : newest_at obj bs → run (get_act_obj (version_ptr obj)) W = Done obj W.
Proof.
  intros Hnew. destruct (newest_ptr obj bs Hnew) as (a & (Hn & Ha & _) & -> & _).
  destruct (st_objs _ _ _ _ (sp_stored _ _ _ Hsp) _ _ Ha) as [Hr (l & Hv & Hl)]. rewrite vobj_ahs_obj in Hr, Hl.
  unfold newest. case_decide as E.
  - apply run_get_act_obj_actual. by rewrite holding_region.
  - pose proof (Hl _ (versions_head _ _ _ Hv E)) as Hver.
    destruct (frame_version W _ _ _ (hd_frame _ _ _ _ _ _ _ _ _ H) Ht Hver) as (Eh & _).
    destruct Hver as (Hreg & h & Hh & <- & _). apply run_get_act_obj_copy; [by rewrite holding_region|].
    unfold vobj_to_chs in *. by rewrite Eh.
Qed.

Lemma run_load_newest obj bs off :
  newest_at obj bs → (off ≤ off_val)%nat → run (load_ptr (version_ptr obj) off) W = Done (word bs off) W.
Proof.
  intros Hnew Hoff. destruct (newest_ptr obj bs Hnew) as (a & Hlk & -> & _). destruct Hnew as (_ & Hb & _).
  unfold load_ptr. rewrite run_act (lockable_newest Hsp H Ht obj a bs Hlk).
  rewrite decide_True //. by apply item_off.
Qed.

Lemma visible_newest obj bs a l q2 :
  lockable (w := w) (th0 := th0) obj a bs → versions (w_chs w) (p_copy (a_obj_hdr a)) l →
  default obj (visible w (local_clk th0) q2 l) = newest obj a.
Proof.
  intros (_ & _ & _ & _ & Hvis) Hv. unfold newest. inversion Hv as [E1 E2|p h l0 Hp Hh Hv0 E1]; subst.
  - by destruct (decide _); [|congruence].
  - destruct (decide _); [done|]. destruct (Hvis Hp) as (k & Hk & Hc). cbn. by rewrite Hk Hc.
Qed.

(** The section goes on with other statistics. *)
Definition goes_on (W' : world) (th' : mvrlu_thread_struct) : Prop :=
  holding w self th0 L N F W' th' es ∧ log th' = log th ∧ free_ptrs th' = free_ptrs th ∧ rest W' = rest W.

Lemma holding_deref obj bs :
  newest_at obj bs → (∀ l, l ∈ L → l_obj l ≠ obj) →
  ∃ W' th', run (mvrlu_deref fuel self obj) W = Done (version_ptr obj) W' ∧ goes_on W' th'.
Proof.
  intros Hnew HL. destruct (newest_ptr obj bs Hnew) as (a & Hlk & -> & _).
  destruct Hnew as (Ho & _ & a' & l & (Hn & Ha' & _) & Hv & Hf).
  pose proof Hlk as (_ & Ha & _). rewrite Ha in Ha'. injection Ha' as <-.
  destruct (holding_versions Hsp H Ht _ _ _ Ha Hv) as [HvW _]. pose proof holding_thr as Hth.
  assert (∀ p, p ∈ l → ver_clk W p = ver_clk w p ∧ is_Some (ver_clk w p) ∧ next_clk W p = next_clk w p) as Hk.
  { intros p Hp. pose proof (holding_chain Hsp _ _ _ Ha Hv p Hp) as Hver.
    destruct (frame_version W _ _ _ (hd_frame _ _ _ _ _ _ _ _ _ H) Ht Hver) as (E & ? & ?). split_and!; [done..|].
    unfold next_clk. by rewrite E. }
  assert (visible W (local_clk th) (qp_clk2 (log th)) l = visible w (local_clk th0) (qp_clk2 (log th)) l) as Evis.
  { rewrite (hd_clk _ _ _ _ _ _ _ _ _ H). clear -Hk. induction l as [|p l IH]; [done|]. cbn.
    destruct (Hk p) as (-> & _ & ->); [by left|]. rewrite IH //. intros q Hq. apply Hk. by right. }
  assert (run (get_act_obj obj) W = Done obj W) as Hact.
  { apply run_get_act_obj_actual. rewrite holding_region.
    destruct (st_objs _ _ _ _ (sp_stored _ _ _ Hsp) _ _ Ha) as [Hr _]. by rewrite vobj_ahs_obj in Hr. }
  pose proof (run_mvrlu_deref fuel W self th obj obj a l Hth Hn Hact (lockable_act H _ _ _ Hlk HL) HvW) as Hr.
  rewrite Hr; [|done|]; [intros p Hp; destruct (Hk p Hp) as (-> & ? & _); done|].
  rewrite Evis (visible_newest obj bs a l) //. unfold deref_counted.
  match goal with |- context [set_thr self ?t W] => set (th' := t) end. exists (set_thr self th' W), th'. split; [done|].
  split; [|unfold th'; by destruct (bool_decide _)].
  eapply (holding_thread H); try done; unfold th'; try by destruct (bool_decide _).
  - cell.
  - pose proof (hd_frees _ _ _ _ _ _ _ _ _ H). by destruct (bool_decide _).
Qed.

(** The link of an item. *)
Lemma holding_iter_next obj bs ns :
  newest_at obj bs → linked (word bs off_link) ns → (∀ l, l ∈ L → l_obj l ∉ ns.*1) →
  ∃ W' th', run (iter_next fuel self (version_ptr obj)) W = Done (next_ptr ns) W' ∧ goes_on W' th'.
Proof.
  intros Hnew Hl HL. unfold iter_next. rewrite (run_bind_done _ _ _ _ _ (run_load_newest obj bs off_link Hnew ltac:(unfold off_link; lia))).
  destruct ns as [|[o b] ns].
  - change (word bs off_link = NULL) in Hl. rewrite Hl. exists W, th. by split.
  - destruct Hl as (-> & Ho & _). apply (holding_deref o b Ho). intros l Hl <-. apply (HL l Hl). by left.
Qed.

(** ** Writing in it *)

(** The words of [bs'] are those of [bs]. *)
Definition same_item (bs bs' : list Z) : Prop :=
  item_bytes bs' ∧ ∀ off, (off ≤ off_val)%nat → word bs' off = word bs off.

Lemma same_item_copy bs old : item_bytes bs → same_item bs (take (Z.to_nat sizeof_item) bs ++ drop (Z.to_nat sizeof_item) old).
Proof.
  intros Hb. split.
  - unfold item_bytes in *. rewrite length_app length_take. lia.
  - intros off Ho. apply word_copy; [done|]. unfold off_val, sizeof_item in *. lia.
Qed.

Lemma holding_iter_lock obj bs :
  newest_at obj bs → (∀ l, l ∈ L → l_obj l ≠ obj) → next_pos th + entry_space sizeof_item ≤ hi →
  ∃ W' th' es' p' bs',
    run (iter_try_lock fuel self (version_ptr obj)) W = Done (Some p') W' ∧
    holding w self th0 (Lock obj p' sizeof_item bs' :: L) N F W' th' es' ∧
    tail_cnt (log th') ≤ next_pos th + entry_space sizeof_item ∧ rest W' = rest W ∧ p' ≠ NULL ∧ same_item bs bs'.
Proof.
  intros Hnew HL Hroom. destruct (newest_ptr obj bs Hnew) as (a & Hlk & _ & Hn).
  destruct (holding_lock Hsp H Ht obj (version_ptr obj) sizeof_item a bs Hlk HL (run_act_newest obj bs Hnew))
    as (W' & th' & es' & p' & bs' & Hr & Hh & Htl & Hrest & Hp & ->); [unfold obj_fits, sizeof_item; lia|done|].
  eexists W', th', es', p', _. split; [|split; [exact Hh|split_and!; [done..|apply same_item_copy, Hnew]]].
  unfold iter_try_lock, handle_try_lock. rewrite !decide_False //. by rewrite (run_bind_done _ _ _ _ _ Hr).
Qed.

Lemma holding_iter_lock_const obj bs :
  newest_at obj bs → (∀ l, l ∈ L → l_obj l ≠ obj) → next_pos th + entry_space 0 ≤ hi →
  ∃ W' th' es' p' bs',
    run (iter_try_lock_const fuel self (version_ptr obj)) W = Done true W' ∧
    holding w self th0 (Lock obj p' 0 bs' :: L) N F W' th' es' ∧
    tail_cnt (log th') ≤ next_pos th + entry_space 0 ∧ rest W' = rest W.
Proof.
  intros Hnew HL Hroom. destruct (newest_ptr obj bs Hnew) as (a & Hlk & _ & Hn).
  destruct (holding_lock Hsp H Ht obj (version_ptr obj) 0 a bs Hlk HL (run_act_newest obj bs Hnew))
    as (W' & th' & es' & p' & bs' & Hr & Hh & Htl & Hrest & Hp & ->); [unfold obj_fits; lia|done|].
  eexists W', th', es', p', _. split; [|split; [exact Hh|by split_and!]].
  unfold iter_try_lock_const, handle_try_lock_const, _mvrlu_try_lock_const. rewrite !decide_False //.
  rewrite run_bind. by rewrite (run_bind_done _ _ _ _ _ Hr).
Qed.

Lemma run_store_word W0 p off v bs :
  w_data W0 !! p = Some bs → (off + 8 ≤ length bs)%nat →
  run (store_ptr p off v) W0 = Done () (W0 <| w_data := <[p := list_inserts off (le64 v) bs]> (w_data W0) |>).
Proof. intros Hd Ho. unfold store_ptr. rewrite run_act Hd. by rewrite decide_True. Qed.

(** A copy refers to its object. *)
Lemma run_act_copy l : l ∈ L → run (act_of (l_ptr l)) W = Done (l_obj l) W.
Proof.
  intros Hl. destruct (hd_locks _ _ _ _ _ _ _ _ _ H l Hl) as (_ & (sz & Hh) & _ & _ & x & [_ Hx] & E).
  apply run_act_of. unfold refers. rewrite decide_False.
  { rewrite E. pose proof (log_index_range x). pose proof (st_buf _ _ _ _ (sp_stored _ _ _ Hsp)). unfold chs_obj, NULL. zlia. }
  rewrite holding_region {1}E (st_region _ _ _ _ (sp_stored _ _ _ Hsp)) //. by rewrite Hh.
Qed.

Lemma run_act_new x bs : (x, bs) ∈ N → run (act_of x) W = Done x W.
Proof.
  intros Hx. destruct (hd_new _ _ _ _ _ _ _ _ _ H x bs Hx) as (Hn & Hr & _).
  apply run_act_of. unfold refers. by rewrite decide_False // holding_region Hr.
Qed.

Lemma run_act_next ns next : linked next ns → run (act_of (next_ptr ns)) W = Done next W.
Proof.
  destruct ns as [|[o b] ns]; cbn; [by intros ->|]. intros (-> & Hn & _). unfold act_of.
  destruct (newest_ptr o b Hn) as (_ & _ & _ & Hnn). rewrite decide_False //. by eapply run_act_newest.
Qed.

(** Distinct locks have distinct copies. *)
Lemma lock_ptr_inj l l' : l ∈ L → l' ∈ L → l_ptr l = l_ptr l' → l_obj l = l_obj l'.
Proof.
  intros Hl Hl' E. destruct (hd_locks _ _ _ _ _ _ _ _ _ H l Hl) as (_ & (sz & Hh) & _).
  destruct (hd_locks _ _ _ _ _ _ _ _ _ H l' Hl') as (_ & (sz' & Hh') & _). rewrite E Hh' in Hh. by injection Hh as ? ?.
Qed.

Lemma new_not_copy x bs l : (x, bs) ∈ N → l ∈ L → x ≠ l_ptr l.
Proof.
  intros Hx Hl ->. destruct (hd_new _ _ _ _ _ _ _ _ _ H _ bs Hx) as (_ & Hr & _).
  destruct (hd_locks _ _ _ _ _ _ _ _ _ H l Hl) as (_ & _ & _ & _ & y & [_ Hy] & E).
  by rewrite E (st_region _ _ _ _ (sp_stored _ _ _ Hsp)) in Hr.
Qed.

(** A store to the copy of a lock. *)
Lemma holding_store_copy L1 l L2 off v :
  L = L1 ++ l :: L2 → (∀ l', l' ∈ L1 ++ L2 → l_obj l' ≠ l_obj l) → (off + 8 ≤ length (l_bytes l))%nat →
  ∃ W', run (store_ptr (l_ptr l) off v) W = Done () W' ∧
    holding w self th0 (L1 ++ Lock (l_obj l) (l_ptr l) (l_size l) (list_inserts off (le64 v) (l_bytes l)) :: L2) N F W' th es.
Proof.
  intros EL Hne Ho. assert (l ∈ L) as Hl by set_solver.
  destruct (hd_locks _ _ _ _ _ _ _ _ _ H l Hl) as (_ & _ & _ & Hd & _).
  eexists. split; [by apply run_store_word|]. apply (holding_edit H).
  - by rewrite EL !fmap_app.
  - done.
  - intros l' Hl'. apply elem_of_app in Hl'. rewrite elem_of_cons in Hl'.
    assert (l' = Lock (l_obj l) (l_ptr l) (l_size l) (list_inserts off (le64 v) (l_bytes l)) ∨ l' ∈ L1 ++ L2) as [->|Hin]
      by set_solver; [apply lookup_insert_eq|].
    assert (l' ∈ L) as HlL by set_solver.
    rewrite lookup_insert_ne; [intros E; apply (Hne l' Hin); symmetry; by apply lock_ptr_inj|].
    by destruct (hd_locks _ _ _ _ _ _ _ _ _ H l' HlL) as (_ & _ & _ & ? & _).
  - intros x bs Hx. rewrite lookup_insert_ne; [intros E; by eapply new_not_copy|].
    by destruct (hd_new _ _ _ _ _ _ _ _ _ H x bs Hx) as (_ & _ & _ & _ & ?).
  - intros p Hp _. rewrite lookup_insert_ne //. intros <-. apply Hp. by apply list_elem_of_fmap_2.
Qed.
End read.

(** A store to the new object. *)
Lemma holding_store_new {L F W th es} (x : Z) (bs : list Z) off v :
  holding w self th0 L [(x, bs)] F W th es → tail_cnt (log th) ≤ hi → (off + 8 ≤ length bs)%nat →
  ∃ W', run (store_ptr x off v) W = Done () W' ∧
    holding w self th0 L [(x, list_inserts off (le64 v) bs)] F W' th es.
Proof.
  intros H Ht Ho. assert ((x, bs) ∈ [(x, bs)]) as Hx by set_solver.
  destruct (hd_new _ _ _ _ _ _ _ _ _ H x bs Hx) as (_ & _ & _ & _ & Hd).
  eexists. split; [by apply run_store_word|]. apply (holding_edit H).
  - done.
  - done.
  - intros l Hl. rewrite lookup_insert_ne; [by eapply (new_not_copy H)|].
    by destruct (hd_locks _ _ _ _ _ _ _ _ _ H l Hl) as (_ & _ & _ & ? & _).
  - intros y bs' Hy. apply list_elem_of_singleton in Hy. injection Hy as -> ->. apply lookup_insert_eq.
  - intros p _ Hp. rewrite lookup_insert_ne //. intros ->. apply Hp. cbn. set_solver.
Qed.

(** [new item(k, v)]. *)
Lemma holding_new_item {L F W th es} k v mem ks :
  holding w self th0 L [] F W th es → tail_cnt (log th) ≤ hi → w_kmem W = mem :: ks → fresh (w := w) mem →
  0 ≤ k ≤ ULONG_MAX → 0 ≤ v ≤ ULONG_MAX →
  let x := ahs_obj (mem + sizeof_size_t) in
  ∃ W' bs, run (new_item k v) W = Done x W' ∧ holding w self th0 L [(x, bs)] F W' th es ∧
    item_bytes bs ∧ word bs off_key = k ∧ word bs off_val = v.
Proof.
  intros H Ht Hk Hfr Hkr Hvr x.
  destruct (holding_alloc Hsp H mem ks sizeof_item Hk Hfr) as (W1 & Hr1 & H1); [by intros ? ? ?%elem_of_nil|].
  fold x in Hr1, H1. set (b1 := alloc_bytes W x sizeof_item) in H1.
  assert (length b1 = 24%nat) as Hl1 by (unfold b1, alloc_bytes; rewrite length_fmap length_seq; done).
  destruct (holding_store_new x b1 off_link NULL H1 Ht) as (W2 & Hr2 & H2); [rewrite Hl1; unfold off_link; lia|].
  set (b2 := list_inserts off_link (le64 NULL) b1) in H2. assert (length b2 = 24%nat) as Hl2 by (unfold b2; by rewrite length_inserts).
  destruct (holding_store_new x b2 off_key k H2 Ht) as (W3 & Hr3 & H3); [rewrite Hl2; unfold off_key; lia|].
  set (b3 := list_inserts off_key (le64 k) b2) in H3. assert (length b3 = 24%nat) as Hl3 by (unfold b3; by rewrite length_inserts).
  destruct (holding_store_new x b3 off_val v H3 Ht) as (W4 & Hr4 & H4); [rewrite Hl3; unfold off_val; lia|].
  eexists W4, _. split; [|split; [exact H4|]].
  - unfold new_item. rewrite (run_bind_done _ _ _ _ _ Hr1) (run_bind_done _ _ _ _ _ Hr2) (run_bind_done _ _ _ _ _ Hr3).
    by rewrite (run_bind_done _ _ _ _ _ Hr4).
  - split_and!.
    + unfold item_bytes. rewrite length_inserts Hl3. done.
    + rewrite word_store_ne; [unfold off_val, off_key; lia|]. unfold b3. rewrite word_store_eq; [rewrite Hl2; unfold off_key; lia|].
      by apply wrap64_small.
    + rewrite word_store_eq; [rewrite Hl3; unfold off_val; lia|]. by apply wrap64_small.
Qed.

(** The lock of the item at the position, if there is one. *)
Definition lock_next (ns : list (Z * list Z)) (c : Z) (L' : list lock) : Prop :=
  match ns with
  | [] => c = NULL ∧ L' = []
  | (o, b) :: _ => ∃ b', same_item b b' ∧ L' = [Lock o c sizeof_item b']
  end.

Lemma holding_lock_next {L N F W th es} ns next :
  holding w self th0 L N F W th es → tail_cnt (log th) ≤ hi → linked next ns → (∀ l, l ∈ L → l_obj l ∉ ns.*1) →
  next_pos th + entry_space sizeof_item ≤ hi →
  ∃ W' th' es' c L',
    run (iter_try_lock fuel self (next_ptr ns)) W = Done (Some c) W' ∧
    holding w self th0 (L' ++ L) N F W' th' es' ∧ tail_cnt (log th') ≤ hi ∧ rest W' = rest W ∧ lock_next ns c L'.
Proof.
  intros H Ht Hl HL Hroom. destruct ns as [|[o b] ns].
  - exists W, th, es, NULL, []. by split_and!.
  - destruct Hl as (-> & Hn & _).
    destruct (holding_iter_lock H Ht o b Hn) as (W' & th' & es' & p' & b' & Hr & Hh & Ht' & Hrest & Hp & Hs); [|done|].
    { intros l Hl <-. apply (HL l Hl). by left. }
    exists W', th', es', p', [Lock o p' sizeof_item b']. split_and!; [done|done|lia|done|]. by exists b'.
Qed.

Lemma run_act_locked {L L' N F W th es} ns next c :
  holding w self th0 (L' ++ L) N F W th es → tail_cnt (log th) ≤ hi → linked next ns → lock_next ns c L' →
  run (act_of c) W = Done next W.
Proof.
  intros H Ht Hl. destruct ns as [|[o b] ns]; cbn; [by intros [-> _]; rewrite Hl|].
  intros (b' & _ & ->). destruct Hl as (-> & _). apply (run_act_copy H (Lock o c sizeof_item b')). by left.
Qed.

(** ** Inserting at a position *)

(** The body of the loop of [insert] at its position, and as a whole. *)
Definition insert_here (k v prev cur : Z) : kprog ((Z * Z) + option bool) :=
  l1 ← iter_try_lock fuel self prev;
  match l1 with
  | None => mret (inr None)
  | Some prev =>
      l2 ← iter_try_lock fuel self cur;
      match l2 with
      | None => mret (inr None)
      | Some cur => x ← new_item k v; insert_after prev cur x;; mret (inr (Some true))
      end
  end.

Definition insert_body (k v : Z) (pc : Z * Z) : kprog ((Z * Z) + option bool) :=
  let '(prev, cur) := pc in
  past ← (if decide (cur = NULL) then mret true else c ← item_key cur; mret (k <? c));
  if (past : bool) then insert_here k v prev cur else
  c ← item_key cur;
  if c =? k then mret (inr (Some false)) else n ← iter_next fuel self cur; mret (inl (cur, n)).

(** The log space an update takes at most. *)
Definition update_space : Z := 256 + 2 * entry_space sizeof_item.

(** The section behind the locks and the edits of an insertion between the item
    [o1] and the items [n2]. *)
Definition inserted (k v x o1 : Z) (b1 : list Z) (n2 : list (Z * list Z)) (W : world) (th : mvrlu_thread_struct) : Prop :=
  ∃ es L' c p1 b1' bx,
    holding w self th0 (L' ++ [Lock o1 p1 sizeof_item b1']) [(x, bx)] [] W th es ∧ tail_cnt (log th) ≤ hi ∧
    lock_next n2 c L' ∧
    (item_bytes b1' ∧ word b1' off_link = x ∧ word b1' off_key = word b1 off_key ∧ word b1' off_val = word b1 off_val) ∧
    item_bytes bx ∧ word bx off_link = word b1 off_link ∧ word bx off_key = k ∧ word bx off_val = v.

Lemma lock_next_objs ns c L' l : lock_next ns c L' → l ∈ L' → l_obj l ∈ ns.*1.
Proof.
  destruct ns as [|[o b] ns]; cbn; [intros [_ ->] ?%elem_of_nil; done|].
  intros (b' & _ & ->) Hl. apply list_elem_of_singleton in Hl as ->. by left.
Qed.

Lemma linked_range next ns : linked next ns → 0 ≤ next ≤ ULONG_MAX.
Proof. destruct ns as [|[o b] ns]; cbn; [intros ->; done|]. intros (-> & (? & _) & _). lia. Qed.

Lemma holding_insert_after {L' W th es} k v mem o1 p1 b1 b1' n2 c bx :
  let x := ahs_obj (mem + sizeof_size_t) in
  holding w self th0 (L' ++ [Lock o1 p1 sizeof_item b1']) [(x, bx)] [] W th es → tail_cnt (log th) ≤ hi →
  linked (word b1 off_link) n2 → o1 ∉ n2.*1 → lock_next n2 c L' → fresh (w := w) mem →
  same_item b1 b1' → item_bytes bx → word bx off_key = k → word bx off_val = v →
  ∃ W', run (insert_after p1 c x) W = Done () W' ∧ inserted k v x o1 b1 n2 W' th.
Proof.
  intros x H Ht Hl Ho Hc Hfr [Hb Hw] Hx Hkx Hvx.
  pose proof (run_act_locked n2 _ c H Ht Hl Hc) as Ha1. pose proof (linked_range _ _ Hl) as Hlr.
  destruct (holding_store_new x bx off_link (word b1 off_link) H Ht) as (W1 & Hr1 & H1).
  { apply item_off; [done|]. unfold off_link, off_val. lia. }
  pose proof (run_act_new H1 x _ ltac:(by left)) as Ha2.
  destruct (holding_store_copy H1 Ht L' (Lock o1 p1 sizeof_item b1') [] off_link x eq_refl) as (W2 & Hr2 & H2).
  { intros l'. rewrite app_nil_r. cbn. intros Hl' <-. apply Ho. by eapply lock_next_objs. }
  { cbn [l_bytes]. apply item_off; [done|]. unfold off_link, off_val. lia. }
  cbn [l_obj l_ptr l_size l_bytes] in Hr2, H2. exists W2. split.
  - unfold insert_after, link_assign, _mvrlu_assign_pointer. rewrite run_bind (run_bind_done _ _ _ _ _ Ha1) Hr1. cbn [outcome_bind].
    by rewrite (run_bind_done _ _ _ _ _ Ha2).
  - assert (∀ bs, item_bytes bs → (off_link + 8 ≤ length bs)%nat) as Hoff.
    { intros bs Hbs. apply item_off; [done|]. unfold off_link, off_val. lia. }
    eexists es, L', c, p1, _, _. split; [exact H2|]. split_and!; [done|done|..].
    + unfold item_bytes. by rewrite length_inserts.
    + rewrite word_store_eq; [by apply Hoff|]. apply wrap64_small. destruct Hfr as [Hp Hm _ _].
      unfold x, ahs_obj, sizeof_size_t in *. zlia.
    + rewrite word_store_ne; [unfold off_key, off_link; lia|]. apply Hw. unfold off_key, off_val. lia.
    + rewrite word_store_ne; [unfold off_val, off_link; lia|]. apply Hw. lia.
    + unfold item_bytes. by rewrite length_inserts.
    + rewrite word_store_eq; [by apply Hoff|]. by apply wrap64_small.
    + rewrite word_store_ne; [unfold off_key, off_link; lia|done].
    + rewrite word_store_ne; [unfold off_val, off_link; lia|done].
Qed.

Lemma run_insert_here {W th} k v mem ks o1 b1 n2 :
  holding w self th0 [] [] [] W th [] → tail_cnt (log th0) + update_space ≤ hi →
  newest_at o1 b1 → linked (word b1 off_link) n2 → o1 ∉ n2.*1 →
  w_kmem W = mem :: ks → fresh (w := w) mem → 0 ≤ k ≤ ULONG_MAX → 0 ≤ v ≤ ULONG_MAX →
  ∃ W' th', run (insert_here k v (version_ptr o1) (next_ptr n2)) W = Done (inr (Some true)) W' ∧
    inserted k v (ahs_obj (mem + sizeof_size_t)) o1 b1 n2 W' th'.
Proof.
  intros H Hroom Hn Hl Ho Hmem Hfr Hk Hv. unfold update_space in Hroom.
  assert (0 < entry_space sizeof_item) as Hes by done.
  assert (tail_cnt (log th) = tail_cnt (log th0)) as Et by (by destruct (hd_none _ _ _ _ _ _ _ _ _ H eq_refl) as [-> _]).
  assert (tail_cnt (log th) ≤ hi) as Ht by lia.
  destruct (holding_next_aligned Hsp H) as [_ Hnp].
  destruct (holding_iter_lock H Ht o1 b1 Hn) as (W1 & th1 & es1 & p1 & b1' & Hr1 & H1 & Ht1 & Hrest1 & Hp1 & Hs1);
    [by intros l ?%elem_of_nil|lia|].
  assert (next_pos th1 = tail_cnt (log th1)) as En1 by (by rewrite (holding_next Hsp H1)).
  destruct (holding_lock_next n2 (word b1 off_link) H1) as (W2 & th2 & es2 & c & L' & Hr2 & H2 & Ht2 & Hrest2 & Hc); [lia|exact Hl| |lia|].
  { intros l Hl'. apply list_elem_of_singleton in Hl' as ->. done. }
  destruct (holding_new_item k v mem ks H2 Ht2) as (W3 & bx & Hr3 & H3 & Hx & Hkx & Hvx); [|done..|].
  { unfold rest in Hrest1, Hrest2. injection Hrest1 as. injection Hrest2 as. congruence. }
  destruct (holding_insert_after k v mem o1 p1 b1 b1' n2 c bx H3 Ht2 Hl Ho Hc Hfr Hs1 Hx Hkx Hvx) as (W4 & Hr4 & Hi).
  exists W4, th2. split; [|done]. unfold insert_here.
  rewrite (run_bind_done _ _ _ _ _ Hr1) (run_bind_done _ _ _ _ _ Hr2) (run_bind_done _ _ _ _ _ Hr3).
  by rewrite (run_bind_done _ _ _ _ _ Hr4).
Qed.

(** ** Walking to the position *)

(** The last of the items [p], [n1]. *)
Fixpoint position (p : Z * list Z) (n1 : list (Z * list Z)) : Z * list Z :=
  match n1 with [] => p | q :: n1 => position q n1 end.

Definition key_of (n : Z * list Z) : Z := word n.2 off_key.

(** The section has only read so far. *)
Definition only_read (W W' : world) : Prop := ∃ th', holding w self th0 [] [] [] W' th' [] ∧ rest W' = rest W.

Lemma start_tail {L N F W th es} : holding w self th0 L N F W th es → L = [] → tail_cnt (log th) ≤ hi.
Proof. intros H E. destruct (hd_none _ _ _ _ _ _ _ _ _ H E) as [-> _]. destruct (sp_lo _ _ _ Hsp). lia. Qed.

Lemma run_next_read W obj bs ns :
  only_read W W → newest_at obj bs → linked (word bs off_link) ns →
  ∃ W', run (iter_next fuel self (version_ptr obj)) W = Done (next_ptr ns) W' ∧ only_read W W'.
Proof.
  intros (th & H & _) Hn Hl.
  destruct (holding_iter_next H (start_tail H eq_refl) obj bs ns Hn Hl) as (W' & th' & Hr & H' & _ & _ & Erest); [by intros l ?%elem_of_nil|].
  exists W'. split; [done|]. by exists th'.
Qed.

Lemma run_key_read W n ns :
  only_read W W → linked n.1 (n :: ns) → next_ptr (n :: ns) ≠ NULL ∧ run (item_key (next_ptr (n :: ns))) W = Done (key_of n) W.
Proof.
  destruct n as [o b]. intros (th & H & _) (_ & Hn & _). destruct (newest_ptr o b Hn) as (_ & _ & _ & Hnn). split; [done|].
  apply (run_load_newest H (start_tail H eq_refl)); [done|]. unfold off_key, off_val. lia.
Qed.

Lemma only_read_trans W W1 W2 : only_read W W1 → only_read W1 W2 → only_read W W2.
Proof. intros (th1 & _ & E1) (th2 & H2 & E2). exists th2. split; [done|congruence]. Qed.

Lemma only_read_refl W W1 : only_read W W1 → only_read W1 W1.
Proof. intros (th1 & H1 & _). by exists th1. Qed.

Lemma run_insert_walk k v m n1 : ∀ W p n2,
  only_read W W → linked (word p.2 off_link) (n1 ++ n2) → newest_at p.1 p.2 → Forall (λ n, key_of n < k) n1 →
  ∃ W', only_read W W' ∧
    run (loop (length n1 + m) (insert_body k v) (version_ptr p.1, next_ptr (n1 ++ n2))) W =
    run (loop m (insert_body k v) (version_ptr (position p n1).1, next_ptr n2)) W'.
Proof.
  induction n1 as [|q n1 IH]; intros W p n2 HW Hl Hp Hk; [by exists W|].
  apply Forall_cons in Hk as [Hq Hk]. destruct q as [o b]. pose proof Hl as (Eo & Hnew & Hrest).
  assert (linked o ((o, b) :: n1 ++ n2)) as Hl' by done.
  destruct (run_key_read W (o, b) (n1 ++ n2) HW Hl') as [Hnn Hkey].
  destruct (run_next_read W o b (n1 ++ n2) HW Hnew Hrest) as (W1 & Hr1 & HW1).
  destruct (IH W1 (o, b) n2 (only_read_refl _ _ HW1) Hrest Hnew Hk) as (W2 & HW2 & Hr2).
  exists W2. split; [by eapply only_read_trans|]. change (length ((o, b) :: n1) + m)%nat with (S (length n1 + m)).
  erewrite run_loop_again; [exact Hr2|]. unfold insert_body. cbn [app]. rewrite decide_False //.
  rewrite run_bind (run_bind_done _ _ _ _ _ Hkey) run_ret. cbn [outcome_bind].
  rewrite (proj2 (Z.ltb_ge k (key_of (o, b)))); [lia|]. rewrite (run_bind_done _ _ _ _ _ Hkey).
  rewrite (proj2 (Z.eqb_neq (key_of (o, b)) k)); [lia|]. by rewrite (run_bind_done _ _ _ _ _ Hr1).
Qed.

(** At the position: the item behind it, if any, has a larger key. *)
Definition behind (k : Z) (n2 : list (Z * list Z)) : Prop :=
  match n2 with [] => True | q :: _ => k < key_of q end.

Lemma run_insert_past k v W prev n2 next :
  only_read W W → linked next n2 → behind k n2 →
  run (insert_body k v (prev, next_ptr n2)) W = run (insert_here k v prev (next_ptr n2)) W.
Proof.
  intros HW Hl Hb. unfold insert_body. destruct n2 as [|[o b] n2]; [done|]. cbn in Hl. destruct Hl as (-> & Hl).
  destruct (run_key_read W (o, b) n2 HW ltac:(done)) as [Hnn Hkey]. rewrite decide_False // run_bind.
  rewrite (run_bind_done _ _ _ _ _ Hkey) run_ret. cbn [outcome_bind]. by rewrite (proj2 (Z.ltb_lt k (key_of (o, b)))).
Qed.

Lemma run_insert_found k v W prev q n2 next :
  only_read W W → linked next (q :: n2) → key_of q = k →
  run (insert_body k v (prev, next_ptr (q :: n2))) W = Done (inr (Some false)) W.
Proof.
  intros HW Hl Hq. unfold insert_body. destruct q as [o b]. cbn in Hl. destruct Hl as (-> & Hl).
  destruct (run_key_read W (o, b) n2 HW ltac:(done)) as [Hnn Hkey]. rewrite decide_False // run_bind.
  rewrite (run_bind_done _ _ _ _ _ Hkey) run_ret. cbn [outcome_bind]. rewrite Hq in Hkey |- *. rewrite Z.ltb_irrefl.
  by rewrite (run_bind_done _ _ _ _ _ Hkey) Z.eqb_refl.
Qed.

(** ** The chain behind the commit *)

(** The chain with another version [b1'] of the item at the position, whose link
    leads to [tl]. *)
Lemma relinked_chain w' local x b1' tl n1 : ∀ p n2,
  linked p.1 (p :: n1 ++ n2) →
  (∀ o b, (o, b) ∈ p :: n1 → o ≠ (position p n1).1 → snap_at w' local o b) →
  snap_at w' local (position p n1).1 b1' → item_bytes b1' → word b1' off_link = x →
  item_of ((position p n1).1, b1') = item_of (position p n1) → snap_linked w' local x tl →
  ∃ nodes, snap_linked w' local p.1 nodes ∧ items nodes = items (p :: n1) ++ items tl.
Proof.
  induction n1 as [|q n1 IH]; intros p n2 Hl Hs H1 Hb Hx Hi Htl.
  - cbn [position] in *. exists ((p.1, b1') :: tl). split; [|unfold items; by rewrite fmap_cons Hi].
    cbn [snap_linked]. split_and!; [done..|by rewrite Hx].
  - destruct p as [o b], q as [o' b']. pose proof Hl as (_ & (Ho & Hbb & _) & Hl'). pose proof Hl' as (E' & _ & _).
    destruct (IH (o', b') n2) as (nodes & Hn & Ei); [by rewrite E' in Hl'| |done..|].
    { intros o2 b2 Hin. apply Hs. by right. }
    exists ((o, b) :: nodes). split; [|unfold items in *; rewrite !fmap_cons Ei; done].
    cbn [snap_linked]. split_and!; [done| |done|by rewrite E']. apply Hs; [by left|].
    intros Eo. pose proof (linked_NoDup _ _ Hl) as Hnd. cbn in Hnd. apply NoDup_cons in Hnd as [Hnd _]. apply Hnd.
    assert (position (o, b) ((o', b') :: n1) ∈ (o', b') :: n1) as Hin.
    { clear. cbn. generalize (o', b') as q. induction n1 as [|r n1 IH]; intros q; [by left|]. right. apply IH. }
    rewrite Eo. apply (list_elem_of_fmap_2 fst) in Hin. set_solver.
Qed.

Lemma linked_snap w' local next ns :
  linked next ns → (∀ o b, (o, b) ∈ ns → snap_at w' local o b) → snap_linked w' local next ns.
Proof.
  revert next. induction ns as [|[o b] ns IH]; intros next; [done|]. intros (-> & (_ & Hb & _) & Hl) Hs.
  cbn [snap_linked]. split_and!; [done|apply Hs; by left|done|]. apply IH; [done|]. intros o' b' Hin. apply Hs. by right.
Qed.

(** The items behind the position, the first of them with a lock. *)
Lemma locked_chain w' local next ns c L' :
  linked next ns → lock_next ns c L' →
  (∀ l, l ∈ L' → snap_at w' local (l_obj l) (l_bytes l)) →
  (∀ o b, (o, b) ∈ tail ns → snap_at w' local o b) →
  ∃ ns', snap_linked w' local next ns' ∧ items ns' = items ns.
Proof.
  destruct ns as [|[o b] ns]; cbn [lock_next tail]; [intros -> _ _ _; by exists []|].
  intros (-> & (_ & Hb & _) & Hl) (b' & [Hb' Hw] & ->) HL Hs. exists ((o, b') :: ns).
  assert (∀ off, (off ≤ off_val)%nat → word b' off = word b off) as Hw' by done. split.
  - cbn [snap_linked]. split_and!; [done|by apply (HL (Lock o c sizeof_item b')); left|done|].
    rewrite Hw'; [unfold off_link, off_val; lia|]. by apply linked_snap.
  - unfold items. rewrite !fmap_cons. f_equal. unfold item_of. cbn [snd].
    by rewrite !Hw'; [unfold off_key, off_val; lia..|].
Qed.

Lemma snap_items_intro w' local p its nodes :
  snap_linked w' local p nodes → items nodes = its → its ≠ [] → snap_items w' local p (tail its).
Proof.
  intros Hn <- Hne. destruct nodes as [|[o b] nodes]; [done|]. pose proof Hn as (-> & _). by exists b, nodes.
Qed.

(** From [w] to [w'] the chain at [head] has become [its] for readers past
    [new]; other readers see of every object what they saw, and all readers of
    every object but [objs]. *)
Record updated (w' : world) (head new : Z) (objs : list Z) (its : list (Z * Z)) : Prop := Updated {
  up_new : ∀ local, new + g_ordo_boundary < local → snap_items w' local head its;
  up_old : ∀ local obj bs, local ≤ new + g_ordo_boundary → snap_at w local obj bs → snap_at w' local obj bs;
  up_other : ∀ local obj bs, obj ∉ objs → snap_at w local obj bs → snap_at w' local obj bs }.

(** The thread is outside of any section, and its section counter is [n]. *)
Definition left_section (w' : world) (n : Z) : Prop :=
  ∃ th', w_thr w' !! self = Some th' ∧ run_cnt th' = n ∧ is_write_detected th' = 0 ∧
    cur_wrt_set (log th') = NULL ∧ num_ptrs (free_ptrs th') = 0.

Lemma position_elem p n1 : position p n1 ∈ p :: n1.
Proof. revert p. induction n1 as [|q n1 IH]; intros p; [by left|]. right. apply IH. Qed.

(** The end of the section, in terms of the memory at its start. *)
Lemma end_updates {L N F W th es} fuelc new tsc :
  holding w self th0 L N F W th es → tail_cnt (log th) ≤ hi → L ≠ [] →
  need_reclaim (log th0) = 0 → draws (local_clk th0) fuelc (w_tsc w) new tsc →
  ∃ w', run (mvrlu_reader_unlock (S fuelc) self) W = Done () w' ∧ left_section w' (wrap32 (run_cnt th0 + 1)) ∧
    (∀ local obj bs, local ≤ new + g_ordo_boundary → snap_at w local obj bs → snap_at w' local obj bs) ∧
    (∀ local x bs, (x, bs) ∈ N → snap_at w' local x bs) ∧
    (∀ local l bs, new + g_ordo_boundary < local → l ∈ L → published (F := F) l → newest_at (l_obj l) bs →
       snap_at w' local (l_obj l) (l_bytes l)) ∧
    (∀ local obj bs, (∀ l, l ∈ L → published (F := F) l → l_obj l ≠ obj) → snap_at w local obj bs → snap_at w' local obj bs) ∧
    (∀ local obj bs, new + g_ordo_boundary < local → (∀ l, l ∈ L → published (F := F) l → l_obj l ≠ obj) →
       newest_at obj bs → snap_at w' local obj bs).
Proof.
  intros H Ht HL Hnr Hd. pose proof Hd as [_ _ Hnew _].
  assert (∀ local, new + g_ordo_boundary < local → local_clk th0 ≤ local) as Hloc by (rewrite boundary_val in Hnew |- *; lia).
  destruct (section_end Hsp H Ht fuelc new tsc HL Hnr Hd) as (w' & th' & Hr & Hth & E1 & E2 & E3 & E4 & Hn & Hp & Hu).
  exists w'. split; [done|]. split_and!; [by exists th'| |by intros; eapply Hn| |by intros; apply Hu|].
  - intros local obj bs Hl Hs. destruct (decide (Exists (λ l, published (F := F) l ∧ l_obj l = obj) L)) as [Hex|Hex].
    + apply Exists_exists in Hex as (l & Hl' & Hpl & <-). pose proof (Hp l bs local Hl' Hpl Hs) as H1.
      rewrite decide_False // in H1. lia.
    + apply Hu; [|done]. intros l Hl' Hpl E. apply Hex. apply Exists_exists. by exists l.
  - intros local l bs Hl Hin Hpl Hnw.
    pose proof (Hp l bs local Hin Hpl (newest_snap _ _ local Hnw (Hloc _ Hl))) as H1. by rewrite decide_True in H1.
  - intros local obj bs Hl Hne Hnw. apply Hu; [done|]. by apply newest_snap; [|apply Hloc].
Qed.

Lemma position_linked p n1 n2 : linked p.1 (p :: n1 ++ n2) → linked (word (position p n1).2 off_link) n2.
Proof.
  revert p. induction n1 as [|q n1 IH]; intros p Hl.
  - destruct p. by destruct Hl as (_ & _ & ?).
  - apply (IH q). destruct p, q as [o' b']. destruct Hl as (_ & _ & Hl). pose proof Hl as (E & _). by rewrite E in Hl.
Qed.

(** Items in front of a place are not behind it. *)
Lemma linked_disjoint p n1 n2 o : linked p.1 (p :: n1 ++ n2) → o ∈ (p :: n1).*1 → o ∉ n2.*1.
Proof.
  intros Hl Ho Ho2. pose proof (linked_NoDup _ _ Hl) as Hnd. change (p :: n1 ++ n2) with ((p :: n1) ++ n2) in Hnd.
  rewrite fmap_app in Hnd. apply NoDup_app in Hnd as (_ & Hd & _). by apply (Hd o).
Qed.

Lemma lock_next_inv ns c L' l :
  lock_next ns c L' → l ∈ L' → published (F := []) l ∧ ∃ b ns', ns = (l_obj l, b) :: ns'.
Proof.
  destruct ns as [|[o b] ns]; cbn; [intros [_ ->] ?%elem_of_nil; done|].
  intros (b' & _ & ->) Hl. apply list_elem_of_singleton in Hl as ->. split; [|by exists b, ns].
  split; [done|apply not_elem_of_nil].
Qed.

Lemma elem_fst (o : Z) (b : list Z) (l : list (Z * list Z)) : (o, b) ∈ l → o ∈ l.*1.
Proof. intros H. change o with (o, b).1. by apply list_elem_of_fmap_2. Qed.

Lemma inserted_commits k v x p n1 n2 W th fuelc new tsc :
  linked p.1 (p :: n1 ++ n2) → inserted k v x (position p n1).1 (position p n1).2 n2 W th →
  need_reclaim (log th0) = 0 → draws (local_clk th0) fuelc (w_tsc w) new tsc →
  ∃ w', run (mvrlu_reader_unlock (S fuelc) self) W = Done () w' ∧ left_section w' (wrap32 (run_cnt th0 + 1)) ∧
    updated w' p.1 new (p :: n1 ++ n2).*1 (items n1 ++ (k, v) :: items n2).
Proof.
  intros Hl (es & L' & c & p1 & b1' & bx & H & Ht & Hc & (Hb1 & Hx1 & Hk1 & Hv1) & Hbx & Hlx & Hkx & Hvx) Hnr Hd.
  destruct (end_updates fuelc new tsc H Ht) as (w' & Hr & Hleft & Hold & Hnew & Hlock & Hoth & Hunl); [by destruct L'|done..|].
  pose proof (position_elem p n1) as Hpos. pose proof (position_linked p n1 n2 Hl) as Hl2.
  destruct (position p n1) as [o1 b1] eqn:Epos. cbn [fst snd] in *.
  assert (∀ o b, (o, b) ∈ p :: n1 ++ n2 → newest_at o b) as Hnewest by (intros o b; by apply linked_newest with p.1).
  assert (∀ l o, l ∈ L' ++ [Lock o1 p1 sizeof_item b1'] → l_obj l = o → o = o1 ∨ ∃ b ns, n2 = (o, b) :: ns) as HL.
  { intros l o [Hin|Hin]%elem_of_app <-; [right; by destruct (lock_next_inv _ _ _ _ Hc Hin)|].
    apply list_elem_of_singleton in Hin as ->. by left. }
  exists w'. split_and!; [done|done|]. split; [|done|].
  2:{ intros local obj bs Hnot Hs. apply Hoth; [|done]. intros l Hin _ E. apply Hnot. rewrite fmap_cons fmap_app.
      destruct (HL l obj Hin E) as [->|(b & ns & ->)]; [apply elem_fst in Hpos; set_solver|cbn; set_solver]. }
  intros local Hloc. destruct (locked_chain w' local _ n2 c L' Hl2 Hc) as (n2' & Hn2' & Ei2).
  { intros l Hin. destruct (lock_next_inv _ _ _ _ Hc Hin) as (Hpub & b & ns & E2).
    apply (Hlock local l b Hloc); [set_solver|done|]. apply Hnewest. set_solver. }
  { intros o b Hin. assert ((o, b) ∈ n2) as Hin2 by (destruct n2; [done|by right]).
    apply Hunl; [done| |apply Hnewest; set_solver]. intros l Hin' _ E. destruct (HL l o Hin' E) as [->|(b' & ns & ->)].
    - apply (linked_disjoint p n1 n2 o1 Hl); by eapply elem_fst.
    - pose proof (linked_NoDup _ _ Hl2) as Hnd. cbn in Hnd. apply NoDup_cons in Hnd as [Hnd _].
      apply Hnd. by eapply elem_fst. }
  destruct (relinked_chain w' local x b1' ((x, bx) :: n2') n1 p n2 Hl) as (nodes & Hn & Ei); rewrite ?Epos; cbn [fst snd].
  - intros o b Hin Hne. apply Hunl; [done| |apply Hnewest; set_solver].
    intros l Hin' _ E. destruct (HL l o Hin' E) as [->|(b' & ns & ->)]; [done|].
    apply (linked_disjoint p n1 _ o Hl); [by eapply elem_fst|by left].
  - apply (Hlock local (Lock o1 p1 sizeof_item b1') b1 Hloc); [set_solver| |apply Hnewest; set_solver].
    split; [done|apply not_elem_of_nil].
  - done.
  - done.
  - unfold item_of. cbn [snd]. by rewrite Hk1 Hv1.
  - cbn [snap_linked]. split_and!; [done|by apply Hnew; left|done|]. by rewrite Hlx.
  - assert ((k, v) = item_of (x, bx)) as -> by (unfold item_of; cbn [snd]; by rewrite Hkx Hvx).
    rewrite -Ei2. exact (snap_items_intro _ _ _ _ _ Hn Ei ltac:(done)).
Qed.
End chain.

(** Readers past [new] look keys up in the map [m]. *)
Definition readers_see (w : world) (hash : Z → Z) (nbuckets : Z) (chain : Z → Z) (head new : Z) (m : gmap Z Z) : Prop :=
  ∀ fuel self th c tsc k its,
    can_read w self th c tsc → new + g_ordo_boundary < c → chain (hash k mod nbuckets) = head →
    items_at fuel w (entered_thread c th) head its → (length its < fuel)%nat →
    ∃ w', run (chainhash_lookup hash nbuckets chain fuel self k) w = Done (m !! k) w' ∧ has_read w self th c tsc w'.

Lemma updated_readers w w' hash nbuckets chain head new objs its m :
  updated w w' head new objs its → sorted its → list_to_map its = m → readers_see w' hash nbuckets chain head new m.
Proof.
  intros Hup Hs <- fuel self th c tsc k its0 Hcan Hc Eh Hits Hf.
  pose proof (items_at_snap _ _ _ _ _ Hits) as H0. pose proof (up_new _ _ _ _ _ _ Hup c Hc) as H1.
  rewrite -(snap_items_det _ _ _ _ _ H0 H1) in Hs |- *. by apply run_lookup; rewrite ?Eh.
Qed.

(** ** The section as a whole *)

(** The thread may enter a section at clock [c], with nothing to free. *)
Definition can_update (w : world) (self : Z) (th : mvrlu_thread_struct) (c : Z) (ts : list Z) : Prop :=
  can_read w self th c ts ∧ num_ptrs (free_ptrs th) = 0.

Definition entered (w : world) (self : Z) (th : mvrlu_thread_struct) (c : Z) (ts : list Z) : world :=
  set_thr self (entered_thread c th) (w <| w_tsc := ts |>).

Section section.
Context (fuel : nat) (w : world) (self : Z) (th : mvrlu_thread_struct) (c : Z) (ts : list Z) (hi : Z).
Context (Hcan : can_update w self th c ts) (Hsp : space w (entered_thread c th) hi).
Local Notation th0 := (entered_thread c th).
Local Notation w0 := (entered w self th c ts).

Lemma run_enter : run (mvrlu_section_enter fuel self) w = Done () w0.
Proof. destruct Hcan as [[Hth Hnr Hu _ Htsc] _]. by apply run_reader_lock. Qed.

Lemma entered_space : space w0 th0 hi.
Proof. destruct Hsp as [H1 H2 H3 H4 H5 []]. by split; [..|split]. Qed.

Lemma entered_holding : holding w0 self th0 [] [] [] w0 th0 [].
Proof.
  destruct Hcan as [_ Hfp]. destruct entered_space as [Hcur Htok _ _ _ _]. split; try done.
  - constructor; [apply lookup_insert_eq|done|done|]. change (0 ≤ num_ptrs (free_ptrs th)). lia.
  - split; [change (num_ptrs (free_ptrs th) = 0); lia|]. intros p. split; [|by intros ?%elem_of_nil].
    change (free_ptrs th0) with (free_ptrs th). intros Hp%fp_mem_elem. rewrite Hfp in Hp. by apply elem_of_nil in Hp.
  - by intros l ?%elem_of_nil.
  - by intros x bs ?%elem_of_nil.
  - by intros e ?%elem_of_nil.
Qed.

Lemma entered_read : only_read w0 self th0 w0 w0.
Proof. exists th0. split; [apply entered_holding|done]. Qed.

(** To the first item of the chain. *)
Lemma run_begin head bh ns :
  linked fuel w th0 head ((head, bh) :: ns) →
  ∃ W, run (before_begin fuel self head) w0 = Done (version_ptr w head) W ∧ only_read w0 self th0 w0 W ∧
    ∃ W', run (iter_next fuel self (version_ptr w head)) W = Done (next_ptr w ns) W' ∧ only_read w0 self th0 w0 W'.
Proof.
  intros (_ & Hn & Hl). pose proof entered_holding as H. pose proof entered_space as Hsp0.
  destruct (holding_deref fuel w0 self th0 Hsp0 H (start_tail w0 self th0 Hsp0 H eq_refl) head bh Hn)
    as (W & th' & Hr & H' & _ & _ & Er); [by intros l ?%elem_of_nil|].
  assert (only_read w0 self th0 w0 W) as HW by (by exists th').
  exists W. split; [exact Hr|]. split; [done|].
  destruct (run_next_read fuel w0 self th0 Hsp0 W head bh ns (only_read_refl _ _ _ _ _ HW) Hn Hl) as (W' & Hr' & HW').
  exists W'. split; [exact Hr'|]. by eapply only_read_trans.
Qed.

(** Leaving it without having locked anything. *)
Lemma leave_unchanged W nodes head bh new :
  only_read w0 self th0 w0 W → linked fuel w th0 head ((head, bh) :: nodes) → c ≤ new + g_ordo_boundary →
  ∃ w', run (mvrlu_reader_unlock fuel self) W = Done () w' ∧
    updated w w' head new (head :: nodes.*1) (items nodes) ∧ left_section self w' (wrap32 (wrap32 (run_cnt th + 1) + 1)).
Proof.
  intros (th' & H & _) Hl Hc. pose proof (hd_section _ _ _ _ _ _ _ _ _ H) as Hsec.
  assert (w_thr W !! self = Some th') as Hth by (by destruct Hsec as [|? ? ? ? [[]]]).
  destruct (hd_none _ _ _ _ _ _ _ _ _ H eq_refl) as (Elog & _ & Ewd). destruct Hcan as [[_ Hnr _ Hwd _] Hfp].
  eexists. split; [apply (run_unlock_clean fuel W self th' Hth); [by rewrite Elog|by rewrite Ewd]|].
  match goal with |- updated _ ?x _ _ _ _ ∧ _ => set (w' := x) end.
  assert (w_ahs w' = w_ahs w ∧ w_chs w' = w_chs w ∧ w_ws w' = w_ws w ∧ w_data w' = w_data w) as (E1 & E2 & E3 & E4).
  { assert (w_ahs w' = w_ahs W ∧ w_chs w' = w_chs W ∧ w_ws w' = w_ws W ∧ w_data w' = w_data W) as (-> & -> & -> & ->).
    { unfold w', woken. destruct (above_mark th'); [|done]. by destruct (truth _). }
    destruct (hd_frame _ _ _ _ _ _ _ _ _ H) as [F1 F2]. rewrite Elog in F1, F2. split_and!; apply map_eq.
    - intros o. by apply (hd_ahs _ _ _ _ _ _ _ _ _ H); [intros l ?%elem_of_nil|intros x bs ?%elem_of_nil].
    - intros o. apply F1. intros x Hx. lia.
    - intros o. apply F2. intros x Hx. lia.
    - intros o. by apply (hd_data _ _ _ _ _ _ _ _ _ H); apply not_elem_of_nil. }
  assert (∀ local obj bs, snap_at w local obj bs → snap_at w' local obj bs) as Hsame.
  { intros local obj bs (Hn & a & l & ?). split; [done|]. exists a, l. unfold history, ver_clk, clk_of in *. by rewrite E1 E2 E3 E4. }
  split.
  - split; [|by auto..]. intros local Hloc. exists bh, nodes. split; [|done]. apply (linked_snap fuel w th0).
    + done.
    + intros o b Hin. apply Hsame, (newest_snap fuel w th0 Hsp); [by eapply linked_newest|]. change (local_clk th0) with c. lia.
  - exists (left_thread th'). split; [unfold w'; apply lookup_insert_eq|]. cbn. rewrite (hd_run _ _ _ _ _ _ _ _ _ H) Elog Ewd.
    split_and!; [done|done|apply (sp_cur _ _ _ Hsp)|]. by destruct (hd_frees _ _ _ _ _ _ _ _ _ H) as [-> _].
Qed.
End section.

(** ** Insertion *)

Fixpoint insert_item (k v : Z) (its : list (Z * Z)) : list (Z * Z) :=
  match its with
  | [] => [(k, v)]
  | (c, x) :: its' => if k <? c then (k, v) :: its else (c, x) :: insert_item k v its'
  end.

Lemma insert_item_split k v n1 n2 :
  Forall (λ n, key_of n < k) n1 → behind k n2 → insert_item k v (items (n1 ++ n2)) = items n1 ++ (k, v) :: items n2.
Proof.
  intros H1 H2.
  assert (∀ q its, insert_item k v (item_of q :: its) =
    if k <? key_of q then (k, v) :: item_of q :: its else item_of q :: insert_item k v its) as E by done.
  induction n1 as [|q n1 IH].
  - destruct n2 as [|q n2]; [done|]. change (items ([] ++ q :: n2)) with (item_of q :: items n2).
    by rewrite E (proj2 (Z.ltb_lt k (key_of q)) H2).
  - apply Forall_cons in H1 as [Hq H1]. change (items ((q :: n1) ++ n2)) with (item_of q :: items (n1 ++ n2)).
    rewrite E (proj2 (Z.ltb_ge k (key_of q))); [cbv beta in Hq; lia|]. by rewrite IH.
Qed.

(** Every chain splits at a key. *)
Lemma split_at k nodes :
  ∃ n1 n2, nodes = n1 ++ n2 ∧ Forall (λ n, key_of n < k) n1 ∧ match n2 with [] => True | q :: _ => k ≤ key_of q end.
Proof.
  induction nodes as [|q nodes (n1 & n2 & -> & H1 & H2)]; [by exists [], []|].
  destruct (decide (key_of q < k)).
  - exists (q :: n1), n2. split_and!; [done|by constructor|done].
  - exists [], (q :: n1 ++ n2). split_and!; [done|constructor|lia].
Qed.

Lemma items_keys nodes : (items nodes).*1 = key_of <$> nodes.
Proof. unfold items. by rewrite -list_fmap_compose. Qed.

Lemma split_new k n1 n2 :
  k ∉ (items (n1 ++ n2)).*1 → match n2 with [] => True | q :: _ => k ≤ key_of q end → behind k n2.
Proof.
  intros Hk H2. destruct n2 as [|q n2]; [done|]. change (k < key_of q). destruct (decide (key_of q = k)) as [<-|]; [|lia].
  destruct Hk. rewrite items_keys. apply list_elem_of_fmap_2. set_solver.
Qed.

Lemma split_known k n1 n2 :
  sorted (items (n1 ++ n2)) → k ∈ (items (n1 ++ n2)).*1 → Forall (λ n, key_of n < k) n1 →
  match n2 with [] => True | q :: _ => k ≤ key_of q end → ∃ p n2', n2 = p :: n2' ∧ key_of p = k.
Proof.
  unfold sorted. rewrite items_keys. intros Hs (p & E & Hin)%list_elem_of_fmap H1 H2. rewrite Forall_forall in H1.
  apply elem_of_app in Hin as [Hin%H1|Hin]; [lia|]. destruct n2 as [|q n2]; [by apply elem_of_nil in Hin|].
  exists q, n2. split; [done|]. apply elem_of_cons in Hin as [->|Hin]; [done|].
  rewrite fmap_app in Hs. clear H1. induction (key_of <$> n1) as [|x l IH].
  - change (StronglySorted Z.lt (key_of q :: (key_of <$> n2))) in Hs. apply StronglySorted_inv in Hs as [_ Hq].
    rewrite Forall_forall in Hq. specialize (Hq (key_of p) (list_elem_of_fmap_2 _ _ _ Hin)). lia.
  - rewrite -app_comm_cons in Hs. apply StronglySorted_inv in Hs as [Hs _]. by apply IH.
Qed.

Lemma insert_item_Forall (P : Z → Prop) k v its : P k → Forall P its.*1 → Forall P (insert_item k v its).*1.
Proof.
  intros Hk. induction its as [|[c x] its IH]; cbn; [by constructor|]. intros [Hc Hi]%Forall_cons.
  destruct (k <? c); cbn; repeat constructor; auto.
Qed.

Lemma insert_item_sorted k v its : sorted its → k ∉ its.*1 → sorted (insert_item k v its).
Proof.
  unfold sorted. induction its as [|[c x] its IH]; cbn; [by repeat constructor|].
  intros Hs [Hkc Hk]%not_elem_of_cons. pose proof Hs as [Hs' Hc]%StronglySorted_inv.
  destruct (Z.ltb_spec k c) as [Hlt|Hge]; cbn.
  - constructor; [done|]. constructor; [done|]. eapply Forall_impl; [exact Hc|]. intros y ?. lia.
  - constructor; [by apply IH|]. apply insert_item_Forall; [lia|done].
Qed.

Lemma insert_item_map k v its :
  k ∉ its.*1 → list_to_map (insert_item k v its) = <[k := v]> (list_to_map its : gmap Z Z).
Proof.
  induction its as [|[c x] its IH]; [done|]. cbn [fmap list_fmap fst insert_item].
  intros [Hkc Hk]%not_elem_of_cons. destruct (k <? c); [done|].
  cbn. rewrite IH //. rewrite insert_insert_ne //.
Qed.

Lemma insert_try_body hash nbuckets chain fuel self k v :
  insert_try hash nbuckets chain fuel self k v =
  (mvrlu_section_enter fuel self;;
   prev ← before_begin fuel self (bucket_of hash nbuckets chain k);
   cur ← iter_next fuel self prev;
   r ← loop fuel (insert_body fuel self k v) (prev, cur);
   mvrlu_section_leave fuel self;;
   mret r).
Proof. reflexivity. Qed.

Section insert.
Context (hash : Z → Z) (nbuckets : Z) (chain : Z → Z) (fuel : nat) (w : world) (self : Z) (th : mvrlu_thread_struct).
Context (c : Z) (ts : list Z) (k v : Z) (bh : list Z) (n1 n2 : list (Z * list Z)).
Local Notation head := (bucket_of hash nbuckets chain k).
Local Notation th0 := (entered_thread c th).
Local Notation w0 := (entered w self th c ts).
Local Notation q := (position (head, bh) n1).
Context (Hcan : can_update w self th c ts) (Hsp : space w th0 (tail_cnt (log th) + update_space)).
Context (Hl : linked (S fuel) w th0 head ((head, bh) :: n1 ++ n2)) (Hf : (length n1 ≤ fuel)%nat).
Context (H1 : Forall (λ n, key_of n < k) n1).

(** The operation up to the position, and what becomes of its result. *)
Lemma run_insert_op :
  ∃ W, only_read w0 self th0 w0 W ∧ ∀ b W' w',
    run (insert_body (S fuel) self k v (version_ptr w0 q.1, next_ptr w0 n2)) W = Done (inr (Some b)) W' →
    run (mvrlu_reader_unlock (S fuel) self) W' = Done () w' →
    run (chainhash_insert hash nbuckets chain (S fuel) self k v) w = Done b w'.
Proof.
  pose proof (entered_space w self th c ts _ Hsp) as Hsp0.
  destruct (run_begin (S fuel) w self th c ts _ Hcan Hsp head bh (n1 ++ n2) Hl) as (W1 & Hr1 & _ & W2 & Hr2 & HW2).
  pose proof Hl as (_ & Hnh & Hlh).
  destruct (run_insert_walk (S fuel) _ self _ Hsp0 k v (S fuel - length n1) n1 W2 (head, bh) n2
    (only_read_refl _ _ _ _ _ HW2) Hlh Hnh H1) as (W3 & HW3 & Hr3).
  exists W3. split; [by eapply only_read_trans|]. intros b W' w' Hb Hu.
  unfold chainhash_insert. apply run_loop_exit. rewrite insert_try_body (run_bind_done _ _ _ (Some b) w'); [|done].
  rewrite (run_bind_done _ _ _ _ _ (run_enter (S fuel) w self th c ts Hcan)).
  rewrite (run_bind_done _ _ _ _ _ Hr1) (run_bind_done _ _ _ _ _ Hr2).
  rewrite (run_bind_done _ _ _ (Some b) W'); [|unfold mvrlu_section_leave; by rewrite (run_bind_done _ _ _ _ _ Hu)].
  replace (S fuel) with (length n1 + (S fuel - length n1))%nat at 1 by lia. rewrite Hr3.
  replace (S fuel - length n1)%nat with (S (fuel - length n1)) by lia. by apply run_loop_exit.
Qed.

(** The position exists. *)
Lemma run_insert_new mem ks new tsc :
  behind k n2 → 0 ≤ k ≤ ULONG_MAX → 0 ≤ v ≤ ULONG_MAX →
  w_kmem w = mem :: ks → fresh (w := w) mem → draws c fuel ts new tsc →
  ∃ w', run (chainhash_insert hash nbuckets chain (S fuel) self k v) w = Done true w' ∧
    updated w w' head new (head :: (n1 ++ n2).*1) (items n1 ++ (k, v) :: items n2) ∧
    left_section self w' (wrap32 (wrap32 (run_cnt th + 1) + 1)).
Proof.
  intros Hb Hkr Hvr Hmem [] Hd. pose proof (entered_space w self th c ts _ Hsp) as Hsp0.
  destruct run_insert_op as (W3 & HW3 & Hrun). destruct HW3 as (th3 & H3 & Er3).
  assert (linked (S fuel) w0 th0 head ((head, bh) :: n1 ++ n2)) as Hl0 by exact Hl.
  pose proof (position_linked _ _ _ (head, bh) n1 n2 Hl0) as Hl2. pose proof (position_elem (head, bh) n1) as Hpos.
  assert (newest_at (S fuel) w0 th0 q.1 q.2) as Hq.
  { eapply linked_newest; [exact Hl0|]. destruct q. set_solver. }
  destruct (run_insert_here (S fuel) w0 self th0 Hsp0 k v mem ks q.1 q.2 n2 H3) as (W4 & th4 & Hr4 & Hins); try done.
  { apply (linked_disjoint _ _ _ (head, bh) n1 n2 _ Hl0). destruct q. by eapply elem_fst. }
  { unfold rest in Er3. injection Er3 as. rewrite -Hmem. congruence. }
  destruct (inserted_commits (S fuel) w0 self th0 Hsp0 k v _ (head, bh) n1 n2 W4 th4 fuel new tsc Hl0 Hins)
    as (w' & Hr5 & Hleft & [U1 U2 U3]); [apply Hcan|exact Hd|].
  exists w'. split; [|by split; [split|]]. eapply Hrun; [|exact Hr5].
  rewrite (run_insert_past (S fuel) w0 self th0 Hsp0 k v W3 _ n2 (word q.2 off_link)); [by exists th3|done..].
Qed.

Lemma run_insert_known new tsc p n2' :
  n2 = p :: n2' → key_of p = k → draws c fuel ts new tsc →
  ∃ w', run (chainhash_insert hash nbuckets chain (S fuel) self k v) w = Done false w' ∧
    updated w w' head new (head :: (n1 ++ n2).*1) (items (n1 ++ n2)) ∧
    left_section self w' (wrap32 (wrap32 (run_cnt th + 1) + 1)).
Proof.
  intros E2 Hp [_ _ Hnew _]. pose proof (entered_space w self th c ts _ Hsp) as Hsp0.
  destruct run_insert_op as (W3 & HW3 & Hrun).
  assert (linked (S fuel) w0 th0 head ((head, bh) :: n1 ++ n2)) as Hl0 by exact Hl.
  pose proof (position_linked _ _ _ (head, bh) n1 n2 Hl0) as Hl2.
  destruct (leave_unchanged (S fuel) w self th c ts _ Hcan Hsp W3 (n1 ++ n2) head bh new HW3 Hl) as (w' & Hr & Hup & Hleft).
  { rewrite boundary_val in Hnew |- *. lia. }
  exists w'. split; [|done]. eapply Hrun; [|exact Hr]. rewrite E2 in Hl2 |- *.
  by apply (run_insert_found (S fuel) w0 self th0 Hsp0 k v W3 _ p n2' _ (only_read_refl _ _ _ _ _ HW3) Hl2).
Qed.
End insert.

