(* ===== verification/HashRemove.v ===== *)
(** * Removal from a hash table

    [remove] of [chainhash.hh], with and without the comparison of the value:
    one critical section that walks to the item, locks its predecessor and the
    item, links the predecessor to the successor and hands the item to
    [mvrlu_free]. *)

From Stdlib Require Import Sorted.
From S2P Require Import Prelude World OrdoClock Port Object Cells VersionLog LogLayout LogAppend Commit Qp Api Snapshot Locking ChainHash Sections Pointers HashView Atomic HashUpdate.

Definition val_of (n : Z * list Z) : Z := word n.2 off_val.

(** The item that [remove(k)] or [remove(k, v)] looks for. *)
Definition hits (k : Z) (match_val : option Z) (n : Z * list Z) : bool :=
  (key_of n =? k) && match match_val with None => true | Some v => val_of n =? v end.

Section remove.
Context (fuel : nat) (w : world) (self : Z) (th0 : mvrlu_thread_struct) {hi : Z} (Hsp : space w th0 hi).
Context (k : Z) (match_val : option Z).
Local Notation linked := (linked fuel w th0).
Local Notation newest_at := (newest_at fuel w th0).
Local Notation version_ptr := (version_ptr w).
Local Notation next_ptr := (next_ptr w).
Local Notation only_read := (only_read w self th0).

(** The body of the loop at the item, and as a whole. *)
Definition remove_here (prev i : Z) : kprog (Z + option bool) :=
  l1 ← iter_try_lock fuel self prev;
  match l1 with
  | None => mret (inr None)
  | Some prev =>
      l2 ← iter_try_lock_const fuel self i;
      if (l2 : bool) then
        erase_after fuel self prev i;;
        mvrlu_free self i;;
        mret (inr (Some true))
      else mret (inr None)
  end.

Definition remove_body (i : Z) : kprog (Z + option bool) :=
  let prev := i in
  i ← iter_next fuel self i;
  if decide (i = NULL) then mret (inr (Some false)) else
  c ← item_key i;
  hit ← (if c =? k then
           match match_val with
           | None => mret true
           | Some v => x ← item_val i; mret (x =? v)
           end
         else mret false);
  if (hit : bool) then remove_here prev i else mret (inl i).

(** One round of the loop. *)
Lemma run_remove_round W p q ns :
  only_read W W → newest_at p.1 p.2 → linked (word p.2 off_link) (q :: ns) →
  ∃ W', only_read W W' ∧ newest_at q.1 q.2 ∧ linked (word q.2 off_link) ns ∧
    run (remove_body (version_ptr p.1)) W =
    run (if hits k match_val q then remove_here (version_ptr p.1) (version_ptr q.1) else mret (inl (version_ptr q.1))) W'.
Proof.
  intros HW Hp Hl. destruct (run_next_read fuel w self th0 Hsp W p.1 p.2 (q :: ns) HW Hp Hl) as (W' & Hr & HW').
  destruct q as [o b]. destruct Hl as (Eo & Hq & Hl). exists W'. split_and!; [done..|].
  pose proof (only_read_refl _ _ _ _ _ HW') as HW1.
  destruct (run_key_read fuel w self th0 Hsp W' (o, b) ns HW1 ltac:(done)) as [Hnn Hkey].
  destruct HW1 as (th1 & H1 & _).
  pose proof (run_load_newest fuel w self th0 Hsp H1 (start_tail w self th0 Hsp H1 eq_refl) o b off_val Hq ltac:(done)) as Hval.
  unfold remove_body. rewrite (run_bind_done _ _ _ _ _ Hr) decide_False // (run_bind_done _ _ _ _ _ Hkey).
  rewrite run_bind. unfold hits. cbn [fst]. destruct (key_of (o, b) =? k); [|done]. destruct match_val as [v|]; [|done].
  unfold item_val. rewrite (run_bind_done _ _ _ _ _ Hval) run_ret. done.
Qed.

Lemma run_remove_walk m n1 : ∀ W p n2,
  only_read W W → newest_at p.1 p.2 → linked (word p.2 off_link) (n1 ++ n2) → Forall (λ n, hits k match_val n = false) n1 →
  ∃ W', only_read W W' ∧
    run (loop (length n1 + m) remove_body (version_ptr p.1)) W =
    run (loop m remove_body (version_ptr (position p n1).1)) W'.
Proof.
  induction n1 as [|q n1 IH]; intros W p n2 HW Hp Hl Hh; [by exists W|]. apply Forall_cons in Hh as [Hq Hh].
  destruct (run_remove_round W p q (n1 ++ n2) HW Hp Hl) as (W1 & HW1 & Hn & Hl1 & Hr). rewrite Hq run_ret in Hr.
  destruct (IH W1 q n2 (only_read_refl _ _ _ _ _ HW1) Hn Hl1 Hh) as (W2 & HW2 & Hr2).
  exists W2. split; [by eapply only_read_trans|]. change (length (q :: n1) + m)%nat with (S (length n1 + m)).
  by rewrite (run_loop_again _ _ _ _ _ _ Hr).
Qed.

(** The section behind the locks and the edits of the removal of [o2], which
    lies behind [o1]. *)
Definition removed (o1 : Z) (b1 : list Z) (o2 : Z) (b2 : list Z) (W : world) (th : mvrlu_thread_struct) : Prop :=
  ∃ es p1 p2 b1' b2',
    holding w self th0 [Lock o2 p2 0 b2'; Lock o1 p1 sizeof_item b1'] [] [o2] W th es ∧ tail_cnt (log th) ≤ hi ∧
    item_bytes b1' ∧ word b1' off_link = word b2 off_link ∧
    word b1' off_key = word b1 off_key ∧ word b1' off_val = word b1 off_val.

Lemma run_erase_item {W th es} o1 p1 b1 b1' o2 p2 b2 b2' n3 :
  let L := [Lock o2 p2 0 b2'; Lock o1 p1 sizeof_item b1'] in
  holding w self th0 L [] [] W th es → tail_cnt (log th) ≤ hi →
  newest_at o2 b2 → linked (word b2 off_link) n3 → o1 ≠ o2 → o1 ∉ n3.*1 → o2 ∉ n3.*1 → same_item b1 b1' →
  ∃ W' th' b1'',
    run (erase_after fuel self p1 (version_ptr o2)) W = Done () W' ∧
    holding w self th0 [Lock o2 p2 0 b2'; Lock o1 p1 sizeof_item b1''] [] [] W' th' es ∧ tail_cnt (log th') ≤ hi ∧
    free_ptrs th' = free_ptrs th ∧
    item_bytes b1'' ∧ word b1'' off_link = word b2 off_link ∧
    word b1'' off_key = word b1 off_key ∧ word b1'' off_val = word b1 off_val.
Proof.
  intros L H Ht Hn Hl Hne H13 H23 [Hb Hw]. pose proof (linked_range _ _ _ _ _ Hl) as Hrange.
  destruct (holding_iter_next fuel w self th0 Hsp H Ht o2 b2 n3 Hn Hl) as (W1 & th1 & Hr1 & H1 & El1 & Ef1 & _).
  { intros l [->|Hin]%elem_of_cons; [done|]. by apply list_elem_of_singleton in Hin as ->. }
  assert (tail_cnt (log th1) ≤ hi) as Ht1 by (by rewrite El1).
  pose proof (run_act_next fuel w self th0 Hsp H1 Ht1 n3 _ Hl) as Ha.
  assert (off_link + 8 ≤ length b1')%nat as Ho by (apply item_off; [done|]; unfold off_link, off_val; lia).
  destruct (holding_store_copy w self th0 Hsp H1 Ht1 [Lock o2 p2 0 b2'] (Lock o1 p1 sizeof_item b1') [] off_link
    (word b2 off_link) eq_refl) as (W2 & Hr2 & H2); [|done|].
  { intros l' Hin. apply list_elem_of_singleton in Hin as ->. done. }
  cbn [l_obj l_ptr l_size l_bytes app] in Hr2, H2. eexists W2, th1, _. split; [|split; [exact H2|]].
  - unfold erase_after, link_assign, _mvrlu_assign_pointer. rewrite (run_bind_done _ _ _ _ _ Hr1).
    by rewrite (run_bind_done _ _ _ _ _ Ha).
  - split_and!; [done|done|unfold item_bytes; by rewrite length_inserts|..].
    + rewrite word_store_eq //. by apply wrap64_small.
    + rewrite word_store_ne; [unfold off_key, off_link; lia|]. apply Hw. unfold off_key, off_val. lia.
    + rewrite word_store_ne; [unfold off_val, off_link; lia|]. apply Hw. lia.
Qed.

Lemma run_remove_here {W th} o1 b1 o2 b2 n3 :
  holding w self th0 [] [] [] W th [] → tail_cnt (log th0) + update_space ≤ hi → self ≠ NULL →
  newest_at o1 b1 → newest_at o2 b2 → linked (word b2 off_link) n3 → o1 ≠ o2 → o1 ∉ n3.*1 → o2 ∉ n3.*1 →
  ∃ W' th', run (remove_here (version_ptr o1) (version_ptr o2)) W = Done (inr (Some true)) W' ∧ removed o1 b1 o2 b2 W' th'.
Proof.
  intros H Hroom Hself Hn1 Hn2 Hl Hne H13 H23. unfold update_space in Hroom.
  assert (entry_space 0 ≤ entry_space sizeof_item ∧ 0 < entry_space sizeof_item) as [Hes0 Hes] by done.
  pose proof (start_tail w self th0 Hsp H eq_refl) as Ht. destruct (holding_next_aligned Hsp H) as [_ Hnp].
  assert (tail_cnt (log th) = tail_cnt (log th0)) as Et by (by destruct (hd_none _ _ _ _ _ _ _ _ _ H eq_refl) as [-> _]).
  destruct (holding_iter_lock fuel w self th0 Hsp H Ht o1 b1 Hn1) as (W1 & th1 & es1 & p1 & b1' & Hr1 & H1 & Ht1 & _ & _ & Hs1);
    [by intros l ?%elem_of_nil|lia|].
  assert (next_pos th1 = tail_cnt (log th1)) as En1 by (by rewrite (holding_next Hsp H1)).
  destruct (holding_iter_lock_const fuel w self th0 Hsp H1 ltac:(lia) o2 b2 Hn2) as (W2 & th2 & es2 & p2 & b2' & Hr2 & H2 & Ht2 & _);
    [intros l Hin; by apply list_elem_of_singleton in Hin as ->|lia|].
  destruct (run_erase_item o1 p1 b1 b1' o2 p2 b2 b2' n3 H2 ltac:(lia) Hn2 Hl Hne H13 H23 Hs1)
    as (W3 & th3 & b1'' & Hr3 & H3 & Ht3 & Ef3 & Hb).
  destruct (newest_ptr fuel w th0 o2 b2 Hn2) as (_ & _ & _ & Hnn).
  destruct (holding_free H3 (version_ptr o2) o2 Hnn Hself (run_act_newest fuel w self th0 Hsp H3 Ht3 o2 b2 Hn2)) as (W4 & th4 & Hr4 & H4 & Et4).
  { destruct (hd_frees _ _ _ _ _ _ _ _ _ H3) as [-> _]. done. }
  exists W4, th4. split.
  - unfold remove_here. rewrite (run_bind_done _ _ _ _ _ Hr1) (run_bind_done _ _ _ _ _ Hr2) (run_bind_done _ _ _ _ _ Hr3).
    by rewrite (run_bind_done _ _ _ _ _ Hr4).
  - exists es2, p1, p2, b1'', b2'. split; [done|]. split; [by rewrite Et4|done].
Qed.

(** The chain behind the commit. *)
Lemma removed_commits p n1 o2 b2 n3 W th fuelc new tsc :
  linked p.1 (p :: n1 ++ (o2, b2) :: n3) → removed (position p n1).1 (position p n1).2 o2 b2 W th →
  need_reclaim (log th0) = 0 → draws (local_clk th0) fuelc (w_tsc w) new tsc →
  ∃ w', run (mvrlu_reader_unlock (S fuelc) self) W = Done () w' ∧ left_section self w' (wrap32 (run_cnt th0 + 1)) ∧
    updated w w' p.1 new (p :: n1 ++ (o2, b2) :: n3).*1 (items n1 ++ items n3).
Proof.
  intros Hl (es & p1 & p2 & b1' & b2' & H & Ht & Hb1 & Hl1 & Hk1 & Hv1) Hnr Hd.
  destruct (end_updates fuel w self th0 Hsp fuelc new tsc H Ht) as (w' & Hr & Hleft & Hold & _ & Hlock & Hoth & Hunl); [done..|].
  pose proof (position_elem p n1) as Hpos. pose proof (position_linked _ _ _ p n1 _ Hl) as (_ & Hn2 & Hl3).
  destruct (position p n1) as [o1 b1] eqn:Epos. cbn [fst snd] in *.
  assert (∀ o b, (o, b) ∈ p :: n1 ++ (o2, b2) :: n3 → newest_at o b) as Hnewest by (intros o b; by apply linked_newest with p.1).
  assert (o1 ∉ o2 :: n3.*1) as Ho1.
  { apply (linked_disjoint _ _ _ p n1 ((o2, b2) :: n3) o1 Hl). by eapply elem_fst. }
  apply not_elem_of_cons in Ho1 as [Hne H13].
  assert (∀ l o, l ∈ [Lock o2 p2 0 b2'; Lock o1 p1 sizeof_item b1'] → published (F := [o2]) l → l_obj l = o → o = o1) as HL.
  { intros l o [->|Hin]%elem_of_cons [Hsz _] <-; [done|]. by apply list_elem_of_singleton in Hin as ->. }
  exists w'. split_and!; [done|done|]. split; [|done|].
  2:{ intros local obj bs Hnot Hs. apply Hoth; [|done]. intros l Hin Hp E. apply Hnot. rewrite (HL l obj Hin Hp E).
      rewrite fmap_cons fmap_app. apply elem_fst in Hpos. set_solver. }
  intros local Hloc.
  destruct (relinked_chain _ w th0 Hsp w' local (word b2 off_link) b1' n3 n1 p _ Hl) as (nodes & Hn & Ei); rewrite ?Epos; cbn [fst snd].
  - intros o b Hin Hne'. apply Hunl; [done| |apply Hnewest; set_solver]. intros l Hin' Hp E. apply Hne'. by eapply HL.
  - apply (Hlock local (Lock o1 p1 sizeof_item b1') b1 Hloc); [set_solver| |apply Hnewest; set_solver].
    split; [done|]. by apply not_elem_of_cons; split; [|apply not_elem_of_nil].
  - done.
  - done.
  - unfold item_of. cbn [snd]. by rewrite Hk1 Hv1.
  - apply (linked_snap fuel w th0); [done|]. intros o b Hin. apply Hunl; [done| |apply Hnewest; set_solver].
    intros l Hin' Hp E. apply H13. rewrite -(HL l o Hin' Hp E). by eapply elem_fst.
  - exact (snap_items_intro _ _ _ _ _ Hn Ei ltac:(done)).
Qed.
End remove.

(** ** The operation *)

Lemma remove_try_body hash nbuckets chain fuel self k match_val :
  remove_try hash nbuckets chain fuel self k match_val =
  (mvrlu_section_enter fuel self;;
   i ← before_begin fuel self (bucket_of hash nbuckets chain k);
   r ← loop fuel (remove_body fuel self k match_val) i;
   mvrlu_section_leave fuel self;;
   mret r).
Proof. reflexivity. Qed.

Section operation.
Context (hash : Z → Z) (nbuckets : Z) (chain : Z → Z) (fuel : nat) (w : world) (self : Z) (th : mvrlu_thread_struct).
Context (c : Z) (ts : list Z) (k : Z) (match_val : option Z) (bh : list Z) (n1 n2 : list (Z * list Z)).
Local Notation head := (bucket_of hash nbuckets chain k).
Local Notation th0 := (entered_thread c th).
Local Notation w0 := (entered w self th c ts).
Local Notation q := (position (head, bh) n1).
Context (Hcan : can_update w self th c ts) (Hsp : space w th0 (tail_cnt (log th) + update_space)).
Context (Hl : linked (S fuel) w th0 head ((head, bh) :: n1 ++ n2)) (Hf : (length n1 ≤ fuel)%nat).
Context (H1 : Forall (λ n, hits k match_val n = false) n1).

Lemma run_remove :
  ∃ W, only_read w0 self th0 w0 W ∧ ∀ b W' w',
    run (remove_body (S fuel) self k match_val (version_ptr w0 q.1)) W = Done (inr (Some b)) W' →
    run (mvrlu_reader_unlock (S fuel) self) W' = Done () w' →
    run (chainhash_remove hash nbuckets chain (S fuel) self k match_val) w = Done b w'.
Proof.
  pose proof (entered_space w self th c ts _ Hsp) as Hsp0.
  destruct (run_begin (S fuel) w self th c ts _ Hcan Hsp head bh (n1 ++ n2) Hl) as (W1 & Hr1 & HW1 & _).
  pose proof Hl as (_ & Hnh & Hlh).
  destruct (run_remove_walk (S fuel) _ self _ Hsp0 k match_val (S fuel - length n1) n1 W1 (head, bh) n2
    (only_read_refl _ _ _ _ _ HW1) Hnh Hlh H1) as (W3 & HW3 & Hr3).
  exists W3. split; [by eapply only_read_trans|]. intros b W' w' Hb Hu.
  unfold chainhash_remove. apply run_loop_exit. rewrite remove_try_body (run_bind_done _ _ _ (Some b) w'); [|done].
  rewrite (run_bind_done _ _ _ _ _ (run_enter (S fuel) w self th c ts Hcan)) (run_bind_done _ _ _ _ _ Hr1).
  rewrite (run_bind_done _ _ _ (Some b) W'); [|unfold mvrlu_section_leave; by rewrite (run_bind_done _ _ _ _ _ Hu)].
  replace (S fuel) with (length n1 + (S fuel - length n1))%nat at 1 by lia. rewrite Hr3.
  replace (S fuel - length n1)%nat with (S (fuel - length n1)) by lia. by apply run_loop_exit.
Qed.

Lemma run_remove_found p n3 new tsc :
  n2 = p :: n3 → hits k match_val p = true → self ≠ NULL → draws c fuel ts new tsc →
  ∃ w', run (chainhash_remove hash nbuckets chain (S fuel) self k match_val) w = Done true w' ∧
    updated w w' head new (head :: (n1 ++ n2).*1) (items n1 ++ items n3) ∧
    left_section self w' (wrap32 (wrap32 (run_cnt th + 1) + 1)).
Proof.
  intros E2 Hp Hself Hd. pose proof (entered_space w self th c ts _ Hsp) as Hsp0.
  destruct run_remove as (W3 & HW3 & Hrun).
  assert (linked (S fuel) w0 th0 head ((head, bh) :: n1 ++ n2)) as Hl0 by exact Hl. rewrite E2 in Hl0. destruct p as [o2 b2].
  pose proof (position_linked _ _ _ (head, bh) n1 _ Hl0) as Hl2. pose proof (position_elem (head, bh) n1) as Hpos.
  pose proof (linked_disjoint _ _ _ (head, bh) n1 _ q.1 Hl0 ltac:(destruct q; by eapply elem_fst)) as Hdis.
  apply not_elem_of_cons in Hdis as [Hne H13].
  assert (newest_at (S fuel) w0 th0 q.1 q.2) as Hq.
  { eapply linked_newest; [exact Hl0|]. destruct q. set_solver. }
  pose proof (linked_NoDup _ _ _ _ _ Hl2) as Hnd. cbn in Hnd. apply NoDup_cons in Hnd as [H23 _].
  destruct (run_remove_round (S fuel) w0 self th0 Hsp0 k match_val W3 q (o2, b2) n3 (only_read_refl _ _ _ _ _ HW3) Hq Hl2)
    as (W4 & HW4 & Hn2 & Hl3 & Hr4). rewrite Hp in Hr4.
  destruct (only_read_trans _ _ _ _ _ _ HW3 HW4) as (th4 & H4 & _).
  destruct (run_remove_here (S fuel) w0 self th0 Hsp0 q.1 q.2 o2 b2 n3 H4) as (W5 & th5 & Hr5 & Hrem); try done.
  destruct (removed_commits (S fuel) w0 self th0 Hsp0 (head, bh) n1 o2 b2 n3 W5 th5 fuel new tsc Hl0 Hrem)
    as (w' & Hr6 & Hleft & [U1 U2 U3]); [apply Hcan|exact Hd|].
  exists w'. split; [|split; [rewrite E2; by split|done]]. eapply Hrun; [|exact Hr6]. rewrite Hr4. exact Hr5.
Qed.

Lemma run_remove_unknown new tsc :
  n2 = [] → draws c fuel ts new tsc →
  ∃ w', run (chainhash_remove hash nbuckets chain (S fuel) self k match_val) w = Done false w' ∧
    updated w w' head new (head :: (n1 ++ n2).*1) (items (n1 ++ n2)) ∧
    left_section self w' (wrap32 (wrap32 (run_cnt th + 1) + 1)).
Proof.
  intros E2 [_ _ Hnew _]. pose proof (entered_space w self th c ts _ Hsp) as Hsp0.
  destruct run_remove as (W3 & HW3 & Hrun).
  assert (linked (S fuel) w0 th0 head ((head, bh) :: n1 ++ n2)) as Hl0 by exact Hl.
  pose proof (position_linked _ _ _ (head, bh) n1 n2 Hl0) as Hl2. pose proof (position_elem (head, bh) n1) as Hpos.
  assert (newest_at (S fuel) w0 th0 q.1 q.2) as Hq.
  { eapply linked_newest; [exact Hl0|]. destruct q. set_solver. }
  destruct (run_next_read (S fuel) w0 self th0 Hsp0 W3 q.1 q.2 n2 (only_read_refl _ _ _ _ _ HW3) Hq Hl2) as (W4 & Hr4 & HW4).
  pose proof (only_read_trans _ _ _ _ _ _ HW3 HW4) as HW5.
  destruct (leave_unchanged (S fuel) w self th c ts _ Hcan Hsp W4 (n1 ++ n2) head bh new HW5 Hl) as (w' & Hr & Hup & Hleft).
  { rewrite boundary_val in Hnew |- *. lia. }
  exists w'. split; [|done]. eapply Hrun; [|exact Hr]. unfold remove_body. rewrite (run_bind_done _ _ _ _ _ Hr4).
  by rewrite E2.
Qed.
End operation.

(** ** The map *)

Lemma split_hit k match_val nodes :
  ∃ n1 n2, nodes = n1 ++ n2 ∧ Forall (λ n, hits k match_val n = false) n1 ∧
    match n2 with [] => True | p :: _ => hits k match_val p = true end.
Proof.
  induction nodes as [|q nodes (n1 & n2 & -> & H1 & H2)]; [by exists [], []|].
  destruct (hits k match_val q) eqn:E.
  - by exists [], (q :: n1 ++ n2).
  - exists (q :: n1), n2. split_and!; [done|by constructor|done].
Qed.

Lemma sorted_NoDup its : sorted its → NoDup its.*1.
Proof.
  unfold sorted. induction its.*1 as [|x l IH]; [constructor|]. intros [Hs Hx]%StronglySorted_inv.
  constructor; [|by apply IH]. intros Hin. rewrite Forall_forall in Hx. specialize (Hx x Hin). lia.
Qed.

Lemma sorted_remove l1 x l2 : sorted (l1 ++ x :: l2) → sorted (l1 ++ l2).
Proof.
  unfold sorted. rewrite !fmap_app fmap_cons. induction l1.*1 as [|y l IH]; cbn; [by intros [? _]%StronglySorted_inv|].
  intros [Hs Hy]%StronglySorted_inv. constructor; [by apply IH|].
  apply Forall_app in Hy as [Hy1 [_ Hy2]%Forall_cons]. by apply Forall_app.
Qed.

Lemma remove_map (l1 : list (Z * Z)) k v l2 :
  NoDup (l1 ++ (k, v) :: l2).*1 →
  list_to_map (l1 ++ l2) = delete k (list_to_map (l1 ++ (k, v) :: l2) : gmap Z Z).
Proof.
  induction l1 as [|[c x] l1 IH]; cbn; intros [Hc Hnd]%NoDup_cons.
  - rewrite delete_insert_id //. by apply not_elem_of_list_to_map.
  - rewrite IH // delete_insert_ne //. intros ->. apply Hc. rewrite fmap_app. cbn. set_solver.
Qed.

(** Whether the map has the item to remove. *)
Definition to_remove (m : gmap Z Z) (k : Z) (match_val : option Z) : bool :=
  match m !! k, match_val with
  | Some _, None => true
  | Some x, Some v => x =? v
  | None, _ => false
  end.

Lemma to_remove_hit k match_val n1 p n3 :
  sorted (items (n1 ++ p :: n3)) → hits k match_val p = true →
  to_remove (list_to_map (items (n1 ++ p :: n3))) k match_val = true ∧ item_of p = (k, val_of p).
Proof.
  intros Hs [Hk%Z.eqb_eq Hv]%andb_prop.
  assert (item_of p = (k, val_of p)) as Ep by (unfold item_of; by rewrite -Hk).
  split; [|done]. unfold to_remove.
  assert ((list_to_map (items (n1 ++ p :: n3)) : gmap Z Z) !! k = Some (val_of p)) as ->.
  { apply elem_of_list_to_map_1; [by apply sorted_NoDup|]. rewrite -Ep. apply list_elem_of_fmap_2. set_solver. }
  by destruct match_val.
Qed.

Lemma to_remove_none k match_val nodes :
  Forall (λ n, hits k match_val n = false) nodes → to_remove (list_to_map (items nodes)) k match_val = false.
Proof.
  intros Hall. unfold to_remove. destruct ((list_to_map (items nodes) : gmap Z Z) !! k) as [x|] eqn:E; [|done].
  apply elem_of_list_to_map_2 in E. apply list_elem_of_fmap in E as (p & Ep & Hin).
  rewrite Forall_forall in Hall. specialize (Hall p Hin). unfold hits in Hall. injection Ep as Ek Ev.
  unfold key_of, val_of in Hall. rewrite -Ek -Ev Z.eqb_refl in Hall. by destruct match_val.
Qed.

