(* ===== verification/HashUpdateExamples.v ===== *)
(** * A hash table to update

    The table of [HashExamples] with memory for one more item, for the
    statements on critical sections that write. *)

From S2P Require Import Prelude World OrdoClock Port ThreadList Object Cells VersionLog LogLayout.
From S2P Require Import LogAppend Commit Qp Api Snapshot Locking Reclaim ChainHash Sections Threads Pointers.
From S2P Require Import Concur Interference Anomalies Examples HashView HashExamples Atomic HashUpdate HashRemove.

(** The state, and its first thread. *)
Definition table : world := Eval vm_compute in with_items <| w_kmem := [33992] |>.
Definition thread : mvrlu_thread_struct := Eval vm_compute in thr table self1.
Definition clocks : list Z := Eval vm_compute in tl (w_tsc table).
Definition start : Z := Eval vm_compute in hd 0 (w_tsc table).
Definition commit_clock : Z := Eval vm_compute in hd 0 clocks.

Lemma table_can_update : can_update table self1 thread start clocks.
Proof. split; [split; ev|ev]. Qed.

(** Objects without versions. *)
Lemma table_stored hi : stored table (buffer (log thread)) (tail_cnt (log thread)) hi.
Proof.
  split.
  - intros o a Ho. pose proof (map_check (λ o a, negb (addr_in_log_region table (obj_to_obj_hdr (ahs_obj o))) &&
      (p_copy (a_obj_hdr a) =? NULL)) (w_ahs table) ltac:(ev) o a Ho) as Hc.
    apply andb_prop in Hc as [Hr%negb_true_iff Hc%Z.eqb_eq]. split; [done|]. exists []. rewrite Hc.
    split; [constructor|]. by intros p ?%elem_of_nil.
  - ev.
  - ev.
  - intros x Hx. pose proof (log_index_range x) as Hr.
    assert (log_index x mod 64 = 0) as Ha.
    { rewrite log_index_mod. zconst. Z.div_mod_to_equations. lia. }
    assert (w_start_addr table = log_chunks ∧ w_end_addr table = buffer (log thread) + 131072 ∧ log_chunks ≤ buffer (log thread))
      as (E1 & E2 & Hb) by (split; [ev|split; [ev|vm_compute; discriminate]]).
    unfold addr_in_log_region. rewrite E1 E2. revert Hb. generalize (buffer (log thread)). intros b Hb.
    apply andb_true_intro. rewrite Z.leb_le Z.ltb_lt. unfold obj_to_obj_hdr, chs_obj. zconst.
    revert Ha Hr. generalize (log_index x). intros i Ha Hr. Z.div_mod_to_equations. lia.
Qed.

Lemma table_space : space table (entered_thread start thread) (tail_cnt (log thread) + update_space).
Proof.
  split; [ev|split; ev| | | |apply table_stored].
  - split; vm_compute; discriminate.
  - split; [vm_compute; discriminate|ev].
  - vm_compute; discriminate.
Qed.

(** An item without versions is the newest of its kind. *)
Lemma newest_alone fuel w th obj a bs :
  0 < obj ≤ ULONG_MAX → item_bytes bs → w_ahs w !! vobj_to_ahs obj = Some a → p_lock a = NULL →
  p_copy (a_obj_hdr a) = NULL → w_data w !! obj = Some bs → newest_at fuel w th obj bs.
Proof.
  intros Ho Hb Ha Hl Hp Hd. split; [done|]. split; [done|]. exists a, []. split; [|split; [rewrite Hp; constructor|cbn; lia]].
  split; [unfold NULL; lia|]. split; [done|]. split; [done|]. unfold newest. by rewrite Hp.
Qed.

Definition bytes (obj : Z) : list Z := default [] (w_data table !! obj).
Definition nodes : list (Z * list Z) := [(obj2, bytes obj2); (hobj3, bytes hobj3)].

Lemma table_newest th obj : obj ∈ [obj1; obj2; hobj3] → newest_at 5 table th obj (bytes obj).
Proof.
  intros Hin. apply (newest_alone _ _ _ _ (ahs table obj)).
  all: repeat (apply elem_of_cons in Hin as [->|Hin]; [ev || (split; vm_compute; [reflexivity|discriminate]) || (vm_compute; lia)|]);
    by apply elem_of_nil in Hin.
Qed.

Lemma table_linked th : linked 5 table th obj1 ((obj1, bytes obj1) :: nodes).
Proof.
  split; [done|]. split; [apply table_newest; set_solver|]. split; [ev|]. split; [apply table_newest; set_solver|].
  split; [ev|]. split; [apply table_newest; set_solver|ev].
Qed.

Lemma table_draws : draws start 4 clocks commit_clock (tl clocks).
Proof.
  split; [exists []; split; [ev|split; [cbn; lia|constructor]]| | |]; vm_compute; try done; split; done.
Qed.

Lemma table_items : items nodes = [(5, 7); (9, 70)].
Proof. ev. Qed.

Lemma table_fresh : fresh (w := table) 33992.
Proof. split; [done|vm_compute; discriminate|ev|ev]. Qed.

Lemma table_sorted : sorted (items nodes).
Proof. rewrite table_items. exact sorted2. Qed.



(** A section that locks the second item and changes its value to 8. *)
Definition set_value : kprog (option Z) :=
  mvrlu_reader_lock 5 self1;;
  r ← iter_try_lock 5 self1 obj2;
  match r with
  | Some p => store_ptr p off_val 8;; mret r
  | None => mret r
  end.

