(* ===== verification/FsBytes.v ===== *)
(** * The bytes of a disk block

    A block is the list of its [BSIZE] bytes.  Parts of a block are read and
    replaced with [slice] and [splice]; the words in it are little-endian. *)

From S2P Require Import Prelude.

Definition BSIZE : Z := 4096.

(** [memmove(buf, b + off, n)] and [memmove(b + off, s, |s|)]. *)
Definition slice (b : list Z) (off n : Z) : list Z := take (Z.to_nat n) (drop (Z.to_nat off) b).
Definition splice (b : list Z) (off : Z) (s : list Z) : list Z :=
  take (Z.to_nat off) b ++ s ++ drop (Z.to_nat off + length s)%nat b.

(** Words of [n] bytes. *)
Fixpoint le_bytes (n : nat) (x : Z) : list Z :=
  match n with O => [] | S n => x mod 256 :: le_bytes n (x / 256) end.
Fixpoint le_val (l : list Z) : Z :=
  match l with [] => 0 | b :: l => b + 256 * le_val l end.

Definition u8_at (b : list Z) (off : Z) : Z := le_val (slice b off 1).
Definition u16_at (b : list Z) (off : Z) : Z := le_val (slice b off 2).
Definition u32_at (b : list Z) (off : Z) : Z := le_val (slice b off 4).
Definition u64_at (b : list Z) (off : Z) : Z := le_val (slice b off 8).

(** [((u32 * )b)[i]] and the assignment to it. *)
Definition word_at (b : list Z) (i : Z) : Z := u32_at b (4 * i).
Definition set_word (b : list Z) (i v : Z) : list Z := splice b (4 * i) (le_bytes 4 v).

Definition zero_block : list Z := replicate (Z.to_nat BSIZE) 0.

Definition block_ok (b : list Z) : Prop := Z.of_nat (length b) = BSIZE.

(** ** Lengths *)

Create HintDb len.
#[export] Hint Rewrite @length_app @length_take @length_drop @length_replicate @length_fmap @length_insert : len.
Ltac len := unfold block_ok, BSIZE in *; autorewrite with len in *; try lia.

Lemma length_le_bytes n x : length (le_bytes n x) = n.
Proof. revert x. induction n; intros; simpl; auto. Qed.
#[export] Hint Rewrite length_le_bytes : len.

Lemma length_splice b off s :
  0 ≤ off → off + Z.of_nat (length s) ≤ Z.of_nat (length b) → length (splice b off s) = length b.
Proof. intros. unfold splice. len. Qed.

Lemma length_slice b off n :
  0 ≤ off → 0 ≤ n → off + n ≤ Z.of_nat (length b) → Z.of_nat (length (slice b off n)) = n.
Proof. intros. unfold slice. len. Qed.

Lemma zero_block_ok : block_ok zero_block.
Proof. unfold zero_block. len. Qed.

Lemma splice_ok b off s :
  block_ok b → 0 ≤ off → off + Z.of_nat (length s) ≤ BSIZE → block_ok (splice b off s).
Proof. intros Hb ? ?. unfold block_ok in *. rewrite length_splice //. lia. Qed.

(** ** Reading what was written *)

Lemma slice_splice b off s :
  0 ≤ off → off ≤ Z.of_nat (length b) → slice (splice b off s) off (Z.of_nat (length s)) = s.
Proof.
  intros ? ?. unfold slice, splice. rewrite drop_app_length'; [len|].
  by rewrite take_app_length'; [len|].
Qed.

Lemma slice_splice_before b off s o n :
  0 ≤ o → 0 ≤ n → o + n ≤ off → off ≤ Z.of_nat (length b) → slice (splice b off s) o n = slice b o n.
Proof.
  intros ? ? ? ?. unfold slice, splice. rewrite drop_app_le; [len|].
  rewrite take_app_le; [len|]. rewrite skipn_firstn_comm firstn_firstn. f_equal. lia.
Qed.

Lemma slice_splice_after b off s o n :
  0 ≤ off → off + Z.of_nat (length s) ≤ o → off + Z.of_nat (length s) ≤ Z.of_nat (length b) →
  slice (splice b off s) o n = slice b o n.
Proof.
  intros ? ? ?. unfold slice, splice. rewrite drop_app_ge; [len|].
  rewrite drop_app_ge; [len|]. rewrite drop_drop. do 2 f_equal. len.
Qed.

Lemma splice_all b s : length s = length b → splice b 0 s = s.
Proof. intros E. unfold splice. by rewrite /= drop_ge ?app_nil_r //; lia. Qed.

Lemma slice_all b n : Z.of_nat (length b) = n → slice b 0 n = b.
Proof. intros <-. unfold slice. by rewrite drop_0 Nat2Z.id firstn_all. Qed.

Lemma le_val_bytes n x : 0 ≤ x < 256 ^ Z.of_nat n → le_val (le_bytes n x) = x.
Proof.
  revert x. induction n as [|n IH]; intros x Hx; [cbn in *; lia|].
  assert (256 ^ Z.of_nat (S n) = 256 * 256 ^ Z.of_nat n) as E by (rewrite Nat2Z.inj_succ Z.pow_succ_r; lia).
  rewrite E in Hx. simpl. rewrite IH; [|pose proof (Z.div_mod x 256); lia].
  split; [apply Z.div_pos; lia|]. apply Z.div_lt_upper_bound; lia.
Qed.

Lemma word_set_eq b i v :
  block_ok b → 0 ≤ i < 1024 → 0 ≤ v < 4294967296 → word_at (set_word b i v) i = v.
Proof.
  intros Hb Hi Hv. unfold word_at, set_word, u32_at.
  change 4 with (Z.of_nat (length (le_bytes 4 v))) at 3. rewrite slice_splice; [lia|len|].
  apply le_val_bytes. change (256 ^ Z.of_nat 4) with 4294967296. lia.
Qed.

Lemma word_set_ne b i j v :
  block_ok b → 0 ≤ i < 1024 → 0 ≤ j < 1024 → i ≠ j → word_at (set_word b i v) j = word_at b j.
Proof.
  intros Hb Hi Hj Hne. unfold word_at, set_word, u32_at. f_equal.
  destruct (decide (j < i)).
  - apply slice_splice_before; len.
  - apply slice_splice_after; rewrite ?length_le_bytes; len.
Qed.

Lemma set_word_ok b i v : block_ok b → 0 ≤ i < 1024 → block_ok (set_word b i v).
Proof. intros Hb Hi. apply splice_ok; [done|lia|]. rewrite length_le_bytes. len. Qed.

Lemma word_zero i : word_at zero_block i = 0.
Proof.
  unfold word_at, u32_at, slice, zero_block. rewrite drop_replicate take_replicate.
  generalize (Z.to_nat 4 `min` (Z.to_nat BSIZE - Z.to_nat (4 * i)))%nat. intros n.
  by induction n as [|n IH]; simpl; rewrite ?IH.
Qed.
