(* ===== verification/FsWorld.v ===== *)
(** * The state of the on-disk file system

    The structures of ScaleFS below the in-memory file system: disks, the
    buffer cache ([include/buf.hh]), transactions, journals and the bitmap of
    free blocks ([include/scalefs.hh]) and inodes ([include/file.hh],
    [include/fs.h]), and the accesses to them.

    A disk has a write cache.  [stable] is what is on the medium; [pending] are
    the writes the disk has accepted since the last flush, the oldest first.
    Transactions and inodes are known by a number, inodes by that of the file;
    number 0 is the null pointer.  Inputs are the readings of the time stamp
    counter and the contents of memory that nobody has written. *)

From S2P Require Import Prelude FsBytes.

(** ** Constants *)

Definition NDIRECT : Z := 10.
Definition NINDIRECT : Z := 1024.
Definition MAXFILE : Z := NDIRECT + NINDIRECT + NINDIRECT * NINDIRECT.
Definition PHYS_JOURNAL_SIZE : Z := (NDIRECT + NINDIRECT) * BSIZE.
Definition NDISK : Z := 8.
Definition NCPU : Z := 16.
Definition T_DIR : Z := 1.
Definition T_FILE : Z := 2.
Definition T_DEV : Z := 3.

(** ** Structures *)

Record disk := Disk { stable : gmap Z (list Z); pending : list (Z * list Z) }.
#[export] Instance disk_settable : Settable disk := λ x, Disk (stable x) (pending x).

Record buf := Buf { bdata : list Z; bdirty : bool }.
#[export] Instance buf_settable : Settable buf := λ x, Buf (bdata x) (bdirty x).

Record transaction_diskblock := DiskBlock { blocknum : Z; blockdata : list Z; timestamp : Z }.

Definition AHCI_QUEUE_DEPTH : nat := 32.

(** The slots of a [disk_queue], with the data to be written, the offset of the
    first one and the current slot. *)
Record disk_queue := DiskQueue {
  iovec : list (list (list Z)); start_offset : list Z; iovec_idx : nat;
}.
#[export] Instance disk_queue_settable : Settable disk_queue := λ x,
  DiskQueue (iovec x) (start_offset x) (iovec_idx x).

(** A [tx_queue_info] is a pair of a queue and a time stamp. *)
Record transaction := Transaction {
  timestamp_ : Z;
  enq_tsc : Z;
  txq_id : Z;
  dependent_txq : list (Z * Z);
  last_group_txn_tsc : Z;
  commit_tsc : Z;
  blocks : list transaction_diskblock;
  dirty_blocknums : list Z;
  allocated_block_list : list Z;
  free_block_list : list Z;
  free_inum_list : list Z;
  inodebitmap_blk_list : list Z;    (* the blocks whose locks it holds *)
  disks_written : gset Z;
  bqueue : option (list disk_queue);
}.
#[export] Instance transaction_settable : Settable transaction := λ x,
  Transaction (timestamp_ x) (enq_tsc x) (txq_id x) (dependent_txq x) (last_group_txn_tsc x)
    (commit_tsc x) (blocks x) (dirty_blocknums x) (allocated_block_list x) (free_block_list x)
    (free_inum_list x)
    (inodebitmap_blk_list x) (disks_written x) (bqueue x).

Record inode := Inode {
  dev : Z; inum : Z; itype : Z; major : Z; minor : Z; nlink_ : Z; size : Z; gen : Z;
  addrs : list Z; busy : bool; readbusy : Z;
}.
#[export] Instance inode_settable : Settable inode := λ x,
  Inode (dev x) (inum x) (itype x) (major x) (minor x) (nlink_ x) (size x) (gen x) (addrs x)
    (busy x) (readbusy x).

Record journal := Journal {
  current_off : Z;
  last_applied_commit_tsc : Z;
  committed_trans_tsc : Z;
  applied_trans_tsc : Z;
  tx_commit_queue : list Z;
  tx_apply_queue : list Z;
  sv6_journal : Z;                  (* the inode of the journal's file *)
}.
#[export] Instance journal_settable : Settable journal := λ x,
  Journal (current_off x) (last_applied_commit_tsc x) (committed_trans_tsc x)
    (applied_trans_tsc x) (tx_commit_queue x) (tx_apply_queue x) (sv6_journal x).

Record free_bit := FreeBit { fb_cpu : Z; is_free : bool }.
#[export] Instance free_bit_settable : Settable free_bit := λ x, FreeBit (fb_cpu x) (is_free x).

(** The lists hold the numbers of blocks: an entry of the vector is known by
    its index.  A [freeinum_bitmap] has the same members, with a [free_inum] for
    every inode. *)
Record freeblock_bitmap := FreeblockBitmap {
  bit_vector : list free_bit; freelists : gmap Z (list Z); reserve_freelist : list Z;
}.
#[export] Instance freeblock_bitmap_settable : Settable freeblock_bitmap := λ x,
  FreeblockBitmap (bit_vector x) (freelists x) (reserve_freelist x).

Record superblock := Superblock { sb_size : Z; sb_nblocks : Z; sb_ninodes : Z }.

Record fs_world := FsWorld {
  f_disks : list disk;
  f_bufs : gmap (Z * Z) buf;        (* by device and block *)
  f_trans : gmap Z transaction;
  f_next : Z;                       (* the next transaction to be allocated *)
  f_inodes : gmap Z inode;
  f_journals : gmap Z journal;      (* by CPU *)
  f_bitmap : freeblock_bitmap;
  f_inums : freeblock_bitmap;       (* the [freeinum_bitmap] *)
  f_iblocks : gset Z;               (* the inode and bitmap blocks that are locked *)
  f_blkq : gmap Z (Z * Z);          (* [blocknum_to_queue] *)
  f_sb : superblock;
  f_cpu : Z;                        (* [myid()] *)
  f_tsc : nat → Z;
  f_junk : nat → list Z;
  f_tick : nat;                     (* how many inputs have been taken *)
}.
#[export] Instance fs_world_settable : Settable fs_world := λ x,
  FsWorld (f_disks x) (f_bufs x) (f_trans x) (f_next x) (f_inodes x) (f_journals x)
    (f_bitmap x) (f_inums x) (f_iblocks x) (f_blkq x) (f_sb x) (f_cpu x) (f_tsc x) (f_junk x) (f_tick x).

Notation fprog := (prog fs_world).

(** ** Accesses *)

Definition frd {A} (f : fs_world → A) : fprog A := act (λ w, Next (f w) w).
Definition fwr (f : fs_world → fs_world) : fprog unit := act (λ w, Next () (f w)).

(** [panic], and [assert]. *)
Definition panic {A} : fprog A := act (λ _, Crash).
Definition fassert (b : bool) : fprog unit := if b then mret () else panic.

Definition get_tsc : fprog Z := act (λ w, Next (f_tsc w (f_tick w)) (w <| f_tick ::= S |>)).

(** The contents of memory that has been allocated and not written. *)
Definition uninit : fprog (list Z) := act (λ w, Next (f_junk w (f_tick w)) (w <| f_tick ::= S |>)).

Definition tr_get {A} (f : transaction → A) (t : Z) : fprog A :=
  act (λ w, match f_trans w !! t with Some x => Next (f x) w | None => Crash end).
Definition tr_upd (t : Z) (f : transaction → transaction) : fprog unit :=
  act (λ w, match f_trans w !! t with
            | Some x => Next () (w <| f_trans ::= <[t := f x]> |>) | None => Crash end).

Definition ip_get {A} (f : inode → A) (i : Z) : fprog A :=
  act (λ w, match f_inodes w !! i with Some x => Next (f x) w | None => Crash end).
Definition ip_upd (i : Z) (f : inode → inode) : fprog unit :=
  act (λ w, match f_inodes w !! i with
            | Some x => Next () (w <| f_inodes ::= <[i := f x]> |>) | None => Crash end).

Definition jr_get {A} (f : journal → A) (cpu : Z) : fprog A :=
  act (λ w, match f_journals w !! cpu with Some x => Next (f x) w | None => Crash end).
Definition jr_upd (cpu : Z) (f : journal → journal) : fprog unit :=
  act (λ w, match f_journals w !! cpu with
            | Some x => Next () (w <| f_journals ::= <[cpu := f x]> |>) | None => Crash end).

(** Bring two states that should be equal to record form. *)
Ltac rec_eq := cbv beta delta [field_map]; cbn; f_equal.

(** ** Running the accesses *)

Section run.
Context (w : fs_world).

Lemma run_frd {A} (f : fs_world → A) : run (frd f) w = Done (f w) w.
Proof. done. Qed.
Lemma run_fwr f : run (fwr f) w = Done () (f w).
Proof. done. Qed.
Lemma run_fassert b : b = true → run (fassert b) w = Done () w.
Proof. by intros ->. Qed.
Lemma run_get_tsc : run get_tsc w = Done (f_tsc w (f_tick w)) (w <| f_tick ::= S |>).
Proof. done. Qed.
Lemma run_uninit : run uninit w = Done (f_junk w (f_tick w)) (w <| f_tick ::= S |>).
Proof. done. Qed.
Lemma run_tr_get {A} (f : transaction → A) t x :
  f_trans w !! t = Some x → run (tr_get f t) w = Done (f x) w.
Proof. intros E. by rewrite /tr_get run_act E. Qed.
Lemma run_tr_upd t f x :
  f_trans w !! t = Some x → run (tr_upd t f) w = Done () (w <| f_trans ::= <[t := f x]> |>).
Proof. intros E. by rewrite /tr_upd run_act E. Qed.
Lemma run_ip_get {A} (f : inode → A) i x :
  f_inodes w !! i = Some x → run (ip_get f i) w = Done (f x) w.
Proof. intros E. by rewrite /ip_get run_act E. Qed.
Lemma run_ip_upd i f x :
  f_inodes w !! i = Some x → run (ip_upd i f) w = Done () (w <| f_inodes ::= <[i := f x]> |>).
Proof. intros E. by rewrite /ip_upd run_act E. Qed.
Lemma run_jr_get {A} (f : journal → A) c x :
  f_journals w !! c = Some x → run (jr_get f c) w = Done (f x) w.
Proof. intros E. by rewrite /jr_get run_act E. Qed.
Lemma run_jr_upd c f x :
  f_journals w !! c = Some x → run (jr_upd c f) w = Done () (w <| f_journals ::= <[c := f x]> |>).
Proof. intros E. by rewrite /jr_upd run_act E. Qed.
End run.

#[global] Arguments frd : simpl never.
#[global] Arguments fwr : simpl never.
#[global] Arguments panic : simpl never.
#[global] Arguments fassert : simpl never.
#[global] Arguments get_tsc : simpl never.
#[global] Arguments uninit : simpl never.
#[global] Arguments tr_get : simpl never.
#[global] Arguments tr_upd : simpl never.
#[global] Arguments ip_get : simpl never.
#[global] Arguments ip_upd : simpl never.
#[global] Arguments jr_get : simpl never.
#[global] Arguments jr_upd : simpl never.
