(* ===== verification/FsDisk.v ===== *)
(** * Disks and the block queue ([kernel/disk.cc], [include/disk.hh])

    Blocks are striped over the disks.  A [block_queue] collects writes to
    consecutive blocks and hands them to the disk in one request.  A request is
    in the disk's write cache when it has been issued; what the queue waits for
    is that the disk has accepted it. *)

From S2P Require Import Prelude FsBytes FsWorld.

(** ** Disks *)

Definition STRIPE_SIZE_BLKS : Z := 64 * 1024 / BSIZE.

(** For [n] disks. *)
Definition blknum_to_dev (n blknum : Z) : Z := (blknum / STRIPE_SIZE_BLKS) mod n.
Definition remap_blknum (n blknum : Z) : Z :=
  STRIPE_SIZE_BLKS * ((blknum / STRIPE_SIZE_BLKS) / n) + blknum mod STRIPE_SIZE_BLKS.

Definition num_disks : fprog Z := frd (λ w, Z.of_nat (length (f_disks w))).

(** The contents of a disk behind its write cache. *)
Definition disk_map (d : disk) : gmap Z (list Z) := foldl (λ m x, <[x.1 := x.2]> m) (stable d) (pending d).
Definition disk_block (d : disk) (b : Z) : list Z := default zero_block (disk_map d !! b).

(** [disk_readv] of one block. *)
Definition disk_read (offset : Z) : fprog (list Z) :=
  n ← num_disks;
  let b := wrap32 (offset / BSIZE) in
  act (λ w, match f_disks w !! Z.to_nat (blknum_to_dev n b) with
            | Some d => Next (disk_block d (remap_blknum n b)) w | None => Crash end).

Definition IOV_MAX : Z := 65535.

(** The blocks [data] from block [b] on. *)
Definition run_of (b : Z) (data : list (list Z)) : list (Z * list Z) := imap (λ i x, (b + Z.of_nat i, x)) data.

Definition disk_writev (data : list (list Z)) (offset : Z) : fprog unit :=
  n ← num_disks;
  fassert (Z.of_nat (length data) <=? IOV_MAX);;
  let b := wrap32 (offset / BSIZE) in
  act (λ w, match f_disks w !! Z.to_nat (blknum_to_dev n b) with
            | Some d => Next () (w <| f_disks ::= <[Z.to_nat (blknum_to_dev n b) :=
                d <| pending ::= λ p, p ++ run_of (remap_blknum n b) data |>]> |>)
            | None => Crash end).

Definition disk_write (data : list Z) (offset : Z) : fprog unit := disk_writev [data] offset.

Definition flushed (d : disk) : disk := Disk (disk_map d) [].
Definition disk_flush (dev : Z) : fprog unit :=
  act (λ w, match f_disks w !! Z.to_nat dev with
            | Some d => Next () (w <| f_disks ::= <[Z.to_nat dev := flushed d]> |>)
            | None => Crash end).

(** ** The block queue *)

Definition SG_IO_SIZE : Z := 64 * 1024.

(** The requests a queue issues: an offset and the blocks from there on. *)
Notation requests := (list (Z * list (list Z))).

Definition new_disk_queue : disk_queue :=
  DiskQueue (replicate AHCI_QUEUE_DEPTH []) (replicate AHCI_QUEUE_DEPTH 0) 0.

Definition flush_queue (i : nat) (q : disk_queue) : disk_queue * requests :=
  match iovec q !!! i with
  | [] => (q, [])
  | l => (q <| iovec ::= <[i := []]> |>, [(start_offset q !!! i, l)])
  end.

(** The current slot is issued and the next one becomes current. *)
Definition next_slot (q : disk_queue) : disk_queue * requests :=
  let '(q, out) := flush_queue (iovec_idx q) q in
  (q <| iovec_idx := ((iovec_idx q + 1) mod AHCI_QUEUE_DEPTH)%nat |>, out).

Definition add_to_queue (data : list Z) (offset : Z) (q : disk_queue) : disk_queue * requests :=
  let l := iovec q !!! iovec_idx q in
  let '(q, out1) :=
    if negb (bool_decide (l = [])) &&
       negb (offset =? start_offset q !!! iovec_idx q + Z.of_nat (length l) * BSIZE)
    then next_slot q else (q, []) in
  let q := q <| iovec ::= <[iovec_idx q := (iovec q !!! iovec_idx q) ++ [data]]> |> in
  let q := if (length (iovec q !!! iovec_idx q) =? 1)%nat
           then q <| start_offset ::= <[iovec_idx q := offset]> |> else q in
  let '(q, out2) :=
    if Z.of_nat (length (iovec q !!! iovec_idx q)) =? SG_IO_SIZE / BSIZE then next_slot q else (q, []) in
  (q, out1 ++ out2).

(** [disk_queue::flush]: all slots from slot [i] on, for [n] slots. *)
Fixpoint disk_queue_flush (n i : nat) (q : disk_queue) : disk_queue * requests :=
  match n with
  | O => (q, [])
  | S n => let '(q, out1) := flush_queue i q in
           let '(q, out2) := disk_queue_flush n (S i) q in (q, out1 ++ out2)
  end.

Definition issue (out : requests) : fprog unit := fold_each out (λ x _, disk_writev x.2 x.1) ().

(** The [block_queue] of the transaction [t]. *)
Definition bqueue_new (t : Z) : fprog unit :=
  n ← num_disks; tr_upd t (λ x, x <| bqueue := Some (replicate (Z.to_nat n) new_disk_queue) |>).

Definition on_queue (t dev : Z) (f : disk_queue → disk_queue * requests) : fprog unit :=
  qs ← tr_get bqueue t;
  match qs with
  | None => panic
  | Some qs =>
      match qs !! Z.to_nat dev with
      | None => panic
      | Some q =>
          let '(q', out) := f q in
          issue out;;
          tr_upd t (λ x, x <| bqueue := Some (<[Z.to_nat dev := q']> qs) |>)
      end
  end.

Definition bqueue_write (t : Z) (data : list Z) (offset : Z) : fprog unit :=
  fassert (offset mod BSIZE =? 0);;
  n ← num_disks;
  let b := wrap32 (offset / BSIZE) in
  on_queue t (blknum_to_dev n b) (add_to_queue data (remap_blknum n b * BSIZE)).

Definition bqueue_flush (t : Z) : fprog unit :=
  n ← num_disks;
  iterate (Z.to_nat n) (λ i, on_queue t i (disk_queue_flush AHCI_QUEUE_DEPTH 0);; mret (i + 1)) 0;;
  mret ().

(** [delete bqueue], whose destructor requires that nothing is left. *)
Definition bqueue_delete (t : Z) : fprog unit :=
  qs ← tr_get bqueue t;
  match qs with
  | None => panic
  | Some qs => fassert (forallb (λ q, forallb (λ l, bool_decide (l = [])) (iovec q)) qs)
  end;;
  tr_upd t (λ x, x <| bqueue := None |>).

(** ** Striping *)

(** Where a block is: the disk and the block there; and the way back. *)
Definition place (n b : Z) : Z * Z := (blknum_to_dev n b, remap_blknum n b).
Definition unplace (n : Z) (p : Z * Z) : Z :=
  STRIPE_SIZE_BLKS * (p.2 / STRIPE_SIZE_BLKS * n + p.1) + p.2 mod STRIPE_SIZE_BLKS.

Lemma place_bijective n :
  0 < n →
  (∀ b, 0 ≤ b → 0 ≤ blknum_to_dev n b < n ∧ 0 ≤ remap_blknum n b ≤ b ∧ unplace n (place n b) = b) ∧
  (∀ d r, 0 ≤ d < n → 0 ≤ r → place n (unplace n (d, r)) = (d, r)).
Proof.
  intros Hn. unfold place, unplace, remap_blknum, blknum_to_dev. change STRIPE_SIZE_BLKS with 16. simpl.
  split.
  - intros b Hb. assert (0 ≤ b / 16 / n) by (apply Z.div_pos; [apply Z.div_pos; lia|lia]).
    pose proof (Z.mod_pos_bound (b / 16) n ltac:(lia)).
    pose proof (Z.mod_pos_bound b 16 ltac:(lia)). pose proof (Z.div_mod b 16 ltac:(lia)).
    pose proof (Z.div_mod (b / 16) n ltac:(lia)).
    assert ((16 * (b / 16 / n) + b mod 16) / 16 = b / 16 / n) as -> by (symmetry; apply (Z.div_unique _ _ _ (b mod 16)); lia).
    assert ((16 * (b / 16 / n) + b mod 16) mod 16 = b mod 16) as ->
      by (symmetry; apply (Z.mod_unique _ _ (b / 16 / n)); lia).
    split_and!; nia.
  - intros d r Hd Hr. pose proof (Z.mod_pos_bound r 16 ltac:(lia)). pose proof (Z.div_mod r 16 ltac:(lia)).
    assert ((16 * (r / 16 * n + d) + r mod 16) / 16 = r / 16 * n + d) as -> by (symmetry; apply (Z.div_unique _ _ _ (r mod 16)); lia).
    assert ((16 * (r / 16 * n + d) + r mod 16) mod 16 = r mod 16) as ->
      by (symmetry; apply (Z.mod_unique _ _ (r / 16 * n + d)); lia).
    assert ((r / 16 * n + d) mod n = d) as -> by (symmetry; apply (Z.mod_unique _ _ (r / 16)); lia).
    assert ((r / 16 * n + d) / n = r / 16) as -> by (symmetry; apply (Z.div_unique _ _ _ d); lia).
    f_equal. lia.
Qed.

Lemma place_one b : place 1 b = (0, b).
Proof.
  unfold place, remap_blknum, blknum_to_dev. change STRIPE_SIZE_BLKS with 16.
  rewrite Z.mod_1_r Z.div_1_r. pose proof (Z.div_mod b 16 ltac:(lia)). f_equal. lia.
Qed.

(** ** The queue keeps the order *)

(** The writes of a list of requests, and those a queue still holds. *)
Definition writes_of (out : requests) : list (Z * list Z) := concat (map (λ x, run_of (x.1 / BSIZE) x.2) out).
Definition queued (q : disk_queue) : list (Z * list Z) :=
  run_of (start_offset q !!! iovec_idx q / BSIZE) (iovec q !!! iovec_idx q).

Definition request_ok (x : Z * list (list Z)) : Prop :=
  (∃ b, 0 ≤ b < 4294967296 ∧ x.1 = b * BSIZE) ∧ (length x.2 ≤ 16)%nat.

Record queue_ok (q : disk_queue) : Prop := QueueOk {
  qo_len : length (iovec q) = AHCI_QUEUE_DEPTH ∧ length (start_offset q) = AHCI_QUEUE_DEPTH;
  qo_idx : (iovec_idx q < AHCI_QUEUE_DEPTH)%nat;
  qo_others : ∀ i, i ≠ iovec_idx q → iovec q !!! i = [];
  qo_room : (length (iovec q !!! iovec_idx q) < 16)%nat;
  qo_start : iovec q !!! iovec_idx q ≠ [] →
    ∃ b, 0 ≤ b < 4294967296 ∧ start_offset q !!! iovec_idx q = b * BSIZE;
}.

Lemma run_of_snoc b l x : run_of b (l ++ [x]) = run_of b l ++ [(b + Z.of_nat (length l), x)].
Proof. unfold run_of. by rewrite imap_app /= Nat.add_0_r. Qed.

Lemma new_queue_ok : queue_ok new_disk_queue ∧ queued new_disk_queue = [].
Proof.
  split; [|done]. split.
  - done.
  - unfold AHCI_QUEUE_DEPTH. simpl. lia.
  - intros i _. change (replicate AHCI_QUEUE_DEPTH ([] : list (list Z)) !!! i = []). rewrite list_lookup_total_alt.
    destruct (replicate AHCI_QUEUE_DEPTH ([] : list (list Z)) !! i) eqn:E; [|done]. by apply lookup_replicate in E as [-> _].
  - simpl. lia.
  - done.
Qed.

#[local] Arguments Nat.modulo : simpl never.

(** Issuing the current slot. *)
Lemma next_slot_spec q :
  (length (iovec q) = AHCI_QUEUE_DEPTH ∧ length (start_offset q) = AHCI_QUEUE_DEPTH) →
  (iovec_idx q < AHCI_QUEUE_DEPTH)%nat → (∀ i, i ≠ iovec_idx q → iovec q !!! i = []) →
  (length (iovec q !!! iovec_idx q) ≤ 16)%nat → iovec q !!! iovec_idx q ≠ [] →
  (∃ b, 0 ≤ b < 4294967296 ∧ start_offset q !!! iovec_idx q = b * BSIZE) →
  ∃ q', next_slot q = (q', [(start_offset q !!! iovec_idx q, iovec q !!! iovec_idx q)]) ∧
    queue_ok q' ∧ iovec q' !!! iovec_idx q' = [] ∧
    Forall request_ok [(start_offset q !!! iovec_idx q, iovec q !!! iovec_idx q)].
Proof.
  intros [Hl1 Hl2] Hi Hot Hle Hne Hst. unfold next_slot, flush_queue.
  destruct (iovec q !!! iovec_idx q) as [|x l] eqn:E; [done|].
  eexists. split; [done|]. simpl.
  assert (∀ i, <[iovec_idx q := []]> (iovec q) !!! i = []) as Hall.
  { intros i. destruct (decide (i = iovec_idx q)) as [->|].
    - rewrite list_lookup_total_insert_eq //. lia.
    - rewrite list_lookup_total_insert_ne //. by apply Hot. }
  split_and!; [|apply Hall|].
  - split; simpl.
    + by rewrite length_insert.
    + apply Nat.mod_upper_bound. unfold AHCI_QUEUE_DEPTH. lia.
    + intros. apply Hall.
    + rewrite Hall. simpl. lia.
    + by rewrite Hall.
  - constructor; [|done]. split; [done|]. done.
Qed.

Lemma add_to_queue_spec data b q :
  queue_ok q → 0 ≤ b < 4294967296 →
  ∃ q' out, add_to_queue data (b * BSIZE) q = (q', out) ∧ queue_ok q' ∧ Forall request_ok out ∧
    writes_of out ++ queued q' = queued q ++ [(b, data)].
Proof.
  intros Hq Hb. unfold add_to_queue.
  (* the slot the block goes to *)
  assert (∃ q1 out1,
    (if negb (bool_decide (iovec q !!! iovec_idx q = [])) &&
        negb (b * BSIZE =? start_offset q !!! iovec_idx q + Z.of_nat (length (iovec q !!! iovec_idx q)) * BSIZE)
     then next_slot q else (q, [])) = (q1, out1) ∧ queue_ok q1 ∧ Forall request_ok out1 ∧
    writes_of out1 ++ queued q1 = queued q ∧
    (iovec q1 !!! iovec_idx q1 ≠ [] →
     b * BSIZE = start_offset q1 !!! iovec_idx q1 + Z.of_nat (length (iovec q1 !!! iovec_idx q1)) * BSIZE)) as (q1 & out1 & -> & H1 & Hf1 & Hw1 & Hb1).
  { case_bool_decide as Hnil; simpl.
    { exists q, []. split_and!; done. }
    destruct (b * BSIZE =? _) eqn:E; simpl.
    { exists q, []. split_and!; try done. intros _. by apply Z.eqb_eq in E. }
    destruct Hq as [Hl Hi Ho Hr Hs].
    destruct (next_slot_spec q Hl Hi Ho ltac:(lia) Hnil (Hs Hnil)) as (q1 & -> & H1 & Hn1 & Hf).
    exists q1, [(start_offset q !!! iovec_idx q, iovec q !!! iovec_idx q)]. split_and!; try done.
    unfold queued at 1. rewrite Hn1. unfold writes_of. simpl. by rewrite !app_nil_r. }
  destruct H1 as [[Hl1 Hl1'] Hi1 Ho1 Hr1 Hs1].
  set (q2 := q1 <| iovec ::= <[iovec_idx q1 := (iovec q1 !!! iovec_idx q1) ++ [data]]> |>).
  assert (iovec q2 !!! iovec_idx q2 = iovec q1 !!! iovec_idx q1 ++ [data]) as E2.
  { unfold q2. simpl. rewrite list_lookup_total_insert_eq //. lia. }
  set (q3 := if (length (iovec q2 !!! iovec_idx q2) =? 1)%nat
             then q2 <| start_offset ::= <[iovec_idx q2 := b * BSIZE]> |> else q2).
  assert (iovec q3 = iovec q2 ∧ iovec_idx q3 = iovec_idx q1 ∧ length (start_offset q3) = AHCI_QUEUE_DEPTH ∧
    (∃ c, 0 ≤ c < 4294967296 ∧ start_offset q3 !!! iovec_idx q3 = c * BSIZE ∧
       c + Z.of_nat (length (iovec q1 !!! iovec_idx q1)) = b) ∧
    (iovec q1 !!! iovec_idx q1 ≠ [] → start_offset q3 = start_offset q1)) as (E3 & E3i & E3l & (c & Hc & E3s & Hcb) & E3o).
  { unfold q3. rewrite E2 length_app. destruct (iovec q1 !!! iovec_idx q1) as [|x l] eqn:El; [simpl|].
    - split_and!; try done; [by rewrite length_insert|]. exists b. split_and!; [lia..| |lia].
      rewrite list_lookup_total_insert_eq //. lia.
    - destruct (Nat.eqb_spec (length (x :: l) + length [data]) 1) as [E|_]; [simpl in E; lia|]. split_and!; try done.
      destruct (Hs1 ltac:(done)) as (c & Hc & Hc2). exists c. split_and!; [lia..|done|].
      specialize (Hb1 ltac:(done)). rewrite Hc2 in Hb1. unfold BSIZE in *. lia. }
  assert (∀ i, i ≠ iovec_idx q3 → iovec q3 !!! i = []) as Ho3.
  { intros i Hne. rewrite E3. unfold q2. simpl. rewrite list_lookup_total_insert_ne; [congruence|]. apply Ho1. congruence. }
  assert (queued q3 = queued q1 ++ [(b, data)]) as Hq3.
  { unfold queued. rewrite E3s E3 E3i E2 run_of_snoc Z.div_mul; [done|]. unfold queued.
    f_equal; [|by rewrite Hcb]. destruct (decide (iovec q1 !!! iovec_idx q1 = [])) as [Hz|Hz].
    - by rewrite Hz.
    - rewrite -(E3o Hz) -E3i E3s Z.div_mul //. }
  fold q2 q3. rewrite E3 E3i. change (iovec_idx q1) with (iovec_idx q2). rewrite E2.
  destruct (Z.of_nat _ =? _) eqn:Efull; simpl.
  - destruct (next_slot_spec q3) as (q' & -> & Hq' & Hn' & Hf').
    + split; [|done]. rewrite E3. unfold q2. simpl. by rewrite length_insert.
    + by rewrite E3i.
    + done.
    + rewrite E3 E3i E2 length_app /=. lia.
    + rewrite E3 E3i E2. by destruct (iovec q1 !!! iovec_idx q1).
    + exists c. done.
    + eexists _, _. split; [done|]. split_and!; [done|by apply Forall_app|].
      unfold queued at 1. rewrite Hn' app_nil_r. unfold writes_of. rewrite map_app concat_app /= app_nil_r.
      fold (queued q3) (writes_of out1). rewrite Hq3 app_assoc. by f_equal.
  - exists q3, out1. rewrite app_nil_r. split_and!; [done| |done|by rewrite Hq3 app_assoc Hw1].
    split; [|by rewrite E3i|done| |].
    + split; [|done]. rewrite E3. unfold q2. simpl. by rewrite length_insert.
    + rewrite E3 E3i E2 length_app /=. apply Z.eqb_neq in Efull. rewrite length_app /= in Efull.
      change (SG_IO_SIZE / BSIZE) with 16 in Efull. lia.
    + intros _. by exists c.
Qed.

Lemma flush_from n i q :
  (∀ j, j ≠ iovec_idx q → iovec q !!! j = []) →
  disk_queue_flush n i q =
    if decide (i ≤ iovec_idx q < i + n)%nat then flush_queue (iovec_idx q) q else (q, []).
Proof.
  revert i q. induction n as [|n IH]; intros i q Ho; [by rewrite decide_False; [lia|]|].
  simpl. destruct (decide (i = iovec_idx q)) as [->|Hne].
  - rewrite (decide_True (P := (iovec_idx q ≤ iovec_idx q < iovec_idx q + S n)%nat)); [lia|].
    destruct (flush_queue (iovec_idx q) q) as [q1 out1] eqn:E.
    assert (iovec_idx q1 = iovec_idx q ∧ ∀ j, j ≠ iovec_idx q1 → iovec q1 !!! j = []) as [Ei Ho1].
    { unfold flush_queue in E. destruct (iovec q !!! iovec_idx q); injection E as <- <-; [done|].
      split; [done|]. intros j Hj. simpl in *. rewrite list_lookup_total_insert_ne //. by apply Ho. }
    rewrite IH // decide_False; [lia|]. by rewrite app_nil_r.
  - unfold flush_queue at 1. rewrite Ho // IH //.
    destruct (decide (S i ≤ iovec_idx q < S i + n)%nat), (decide (i ≤ iovec_idx q < i + S n)%nat); try lia; [|done].
    by destruct (flush_queue (iovec_idx q) q).
Qed.

Lemma disk_queue_flush_spec q :
  queue_ok q →
  ∃ q' out, disk_queue_flush AHCI_QUEUE_DEPTH 0 q = (q', out) ∧ queue_ok q' ∧ Forall request_ok out ∧
    writes_of out = queued q ∧ queued q' = [] ∧ forallb (λ l, bool_decide (l = [])) (iovec q') = true.
Proof.
  intros [[Hl Hl'] Hi Ho Hr Hs]. rewrite flush_from // decide_True; [lia|].
  assert (∀ q', length (iovec q') = AHCI_QUEUE_DEPTH → (∀ j, iovec q' !!! j = []) →
    forallb (λ l, bool_decide (l = [])) (iovec q') = true) as Hall.
  { intros q' El H. apply forallb_forall. intros l (j & Hj)%list_elem_of_In%list_elem_of_lookup.
    apply bool_decide_eq_true. rewrite -(H j). by apply list_lookup_total_correct in Hj. }
  unfold flush_queue. destruct (iovec q !!! iovec_idx q) as [|x l] eqn:E.
  - exists q, []. unfold queued. rewrite E. split_and!; try done.
    + split; try done; by rewrite E.
    + apply Hall; [done|]. intros j. destruct (decide (j = iovec_idx q)) as [->|]; [done|by apply Ho].
  - eexists _, _. split; [done|].
    assert (∀ j, <[iovec_idx q := []]> (iovec q) !!! j = []) as Hj.
    { intros j. destruct (decide (j = iovec_idx q)) as [->|].
      - rewrite list_lookup_total_insert_eq //. lia.
      - rewrite list_lookup_total_insert_ne //. by apply Ho. }
    split_and!.
    + split; simpl; [by rewrite length_insert|done|intros; apply Hj|rewrite Hj; simpl; lia|by rewrite Hj].
    + constructor; [|done]. split; [by apply Hs|]. simpl in *. lia.
    + unfold writes_of, queued. simpl. by rewrite app_nil_r E.
    + unfold queued. simpl. by rewrite Hj.
    + apply Hall; [simpl; by rewrite length_insert|apply Hj].
Qed.

(** ** On a machine with one disk *)

(** A state with another disk and another transaction [t]. *)
Definition upd_dt (w : fs_world) (d : disk) (t : Z) (x : transaction) : fs_world :=
  w <| f_disks := [d] |> <| f_trans ::= <[t := x]> |>.

Lemma upd_dt_twice w d1 t x1 d2 x2 : upd_dt (upd_dt w d1 t x1) d2 t x2 = upd_dt w d2 t x2.
Proof. unfold upd_dt. destruct w. rec_eq. by rewrite insert_insert_eq. Qed.

Lemma upd_dt_id w d t x : f_disks w = [d] → f_trans w !! t = Some x → upd_dt w d t x = w.
Proof. intros Hd Ht. unfold upd_dt. destruct w. cbn in *. subst. rec_eq. by apply insert_id. Qed.

Lemma upd_dt_trans w d t x : f_trans (upd_dt w d t x) !! t = Some x.
Proof. unfold upd_dt. cbn. by rewrite lookup_insert_eq. Qed.

Definition put (d : disk) (ws : list (Z * list Z)) : disk := Disk (stable d) (pending d ++ ws).

Lemma put_put d ws ws' : put (put d ws) ws' = put d (ws ++ ws').
Proof. unfold put. simpl. by rewrite app_assoc. Qed.
Lemma put_nil d : put d [] = d.
Proof. unfold put. destruct d. simpl. by rewrite app_nil_r. Qed.

Lemma dev_one b : Z.to_nat (blknum_to_dev 1 b) = 0%nat.
Proof. pose proof (place_one b) as [= -> _]. done. Qed.
Lemma remap_one b : remap_blknum 1 b = b.
Proof. by pose proof (place_one b) as [= _ ->]. Qed.

Lemma run_disk_writev w d o l :
  f_disks w = [d] → request_ok (o, l) →
  run (disk_writev l o) w = Done () (w <| f_disks := [put d (run_of (o / BSIZE) l)] |>).
Proof.
  intros Hd [(b & Hb & Ho) Hl]. simpl in *. subst o. unfold disk_writev, num_disks.
  rewrite (run_bind_done _ _ _ _ _ (run_frd _ _)).
  rewrite (run_bind_done _ _ _ _ _ (run_fassert _ _ _)); [apply Z.leb_le; unfold IOV_MAX; lia|].
  rewrite run_act Hd. change (Z.of_nat (length [d])) with 1.
  rewrite dev_one remap_one /= Z.div_mul // wrap32_small; [lia|].
  destruct w. cbn in *. subst. done.
Qed.

Lemma run_issue w d out :
  f_disks w = [d] → Forall request_ok out →
  run (issue out) w = Done () (w <| f_disks := [put d (writes_of out)] |>).
Proof.
  unfold issue. intros Hd Hf. revert w d Hd. induction Hf as [|[o l] out Hx Hf IH]; intros w d Hd.
  - rewrite run_fold_each_nil. unfold writes_of. simpl. rewrite put_nil. destruct w. cbn in *. by subst.
  - rewrite run_fold_each_cons (run_disk_writev _ _ _ _ Hd Hx) /=. erewrite (IH (w <| f_disks := [put d (run_of (o / BSIZE) l)] |>)); [|done].
    rewrite put_put. by destruct w.
Qed.

Lemma run_on_queue w d t x q f q' out :
  f_disks w = [d] → f_trans w !! t = Some x → bqueue x = Some [q] → f q = (q', out) → Forall request_ok out →
  run (on_queue t 0 f) w = Done () (upd_dt w (put d (writes_of out)) t (x <| bqueue := Some [q'] |>)).
Proof.
  intros Hd Ht Hq Hf Ho. unfold on_queue. rewrite (run_bind_done _ _ _ _ _ (run_tr_get _ _ _ _ Ht)) Hq /= Hf.
  rewrite (run_bind_done _ _ _ _ _ (run_issue _ _ _ Hd Ho)). by rewrite (run_tr_upd _ _ _ x).
Qed.

(** A queue that is about to issue [ws]. *)
Definition queue_holds (qs : option (list disk_queue)) (ws : list (Z * list Z)) : Prop :=
  ∃ q, qs = Some [q] ∧ queue_ok q ∧ queued q = ws.

Lemma run_num_disks w d : f_disks w = [d] → run num_disks w = Done 1 w.
Proof. intros H. unfold num_disks. by rewrite run_frd H. Qed.

Lemma run_bqueue_new w d t x :
  f_disks w = [d] → f_trans w !! t = Some x →
  run (bqueue_new t) w = Done () (upd_dt w d t (x <| bqueue := Some [new_disk_queue] |>)).
Proof.
  intros Hd Ht. unfold bqueue_new. rewrite (run_bind_done _ _ _ _ _ (run_num_disks _ _ Hd)).
  rewrite (run_tr_upd _ _ _ _ Ht). unfold upd_dt. destruct w. cbn in *. by subst.
Qed.

Lemma run_bqueue_write w d t x ws b data :
  f_disks w = [d] → f_trans w !! t = Some x → queue_holds (bqueue x) ws → 0 ≤ b < 4294967296 →
  ∃ out qs, run (bqueue_write t data (b * BSIZE)) w =
      Done () (upd_dt w (put d out) t (x <| bqueue := qs |>)) ∧
    ∃ ws', queue_holds qs ws' ∧ out ++ ws' = ws ++ [(b, data)].
Proof.
  intros Hd Ht (q & Hq & Hok & <-) Hb. unfold bqueue_write.
  rewrite (run_bind_done _ _ _ _ _ (run_fassert _ _ _)); [by rewrite Z.mod_mul|].
  rewrite (run_bind_done _ _ _ _ _ (run_num_disks _ _ Hd)) Z.div_mul // wrap32_small // remap_one.
  destruct (add_to_queue_spec data b q Hok Hb) as (q' & out & E & Hok' & Hf & Hw).
  exists (writes_of out), (Some [q']). split.
  - pose proof (place_one b) as [= -> _].
    by apply run_on_queue with q.
  - exists (queued q'). split; [by exists q'|done].
Qed.

Lemma run_bqueue_flush w d t x ws :
  f_disks w = [d] → f_trans w !! t = Some x → queue_holds (bqueue x) ws →
  ∃ qs, run (bqueue_flush t) w = Done () (upd_dt w (put d ws) t (x <| bqueue := qs |>)) ∧
    queue_holds qs [] ∧
    ∀ q, qs = Some q → forallb (λ q, forallb (λ l, bool_decide (l = [])) (iovec q)) q = true.
Proof.
  intros Hd Ht (q & Hq & Hok & <-). unfold bqueue_flush.
  rewrite (run_bind_done _ _ _ _ _ (run_num_disks _ _ Hd)).
  destruct (disk_queue_flush_spec q Hok) as (q' & out & E & Hok' & Hf & Hw & Hn & Hall).
  exists (Some [q']). split; [|split; [by exists q'|]].
  - change (Z.to_nat 1) with 1%nat. unfold iterate. rewrite -Hw run_bind.
    erewrite (run_bind_done (on_queue _ _ _ ≫= _)); [|erewrite run_bind_done; [done|]; by apply run_on_queue with q].
    done.
  - intros ? [= <-]. simpl. by rewrite Hall.
Qed.

Lemma run_bqueue_delete w d t x :
  f_disks w = [d] → f_trans w !! t = Some x → (∃ q, bqueue x = Some q ∧
    forallb (λ q, forallb (λ l, bool_decide (l = [])) (iovec q)) q = true) →
  run (bqueue_delete t) w = Done () (upd_dt w d t (x <| bqueue := None |>)).
Proof.
  intros Hd Ht (q & Hq & Hall). unfold bqueue_delete.
  rewrite (run_bind_done _ _ _ _ _ (run_tr_get _ _ _ _ Ht)) Hq.
  rewrite (run_bind_done _ _ _ _ _ (run_fassert _ _ Hall)) (run_tr_upd _ _ _ _ Ht).
  unfold upd_dt. destruct w. cbn in *. by subst.
Qed.
