(* ===== verification/FsTrans.v ===== *)
(** * Transactions and the buffer cache ([include/scalefs.hh], [include/buf.hh],
      [kernel/bio.cc])

    A transaction collects the blocks an operation has changed.  Before they are
    written, only the newest version of each block is kept.  A buffer is known
    by its device and block number. *)

From S2P Require Import Prelude FsBytes FsWorld FsDisk.

(** ** Keeping the newest version of each block *)

(** [std::sort].  Elements that compare equal keep their order here, which
    [std::sort] does not promise. *)
Fixpoint insert_by {A} (lt : A → A → bool) (x : A) (l : list A) : list A :=
  match l with
  | [] => [x]
  | y :: l' => if lt y x then y :: insert_by lt x l' else x :: l
  end.
Definition std_sort {A} (lt : A → A → bool) (l : list A) : list A := foldr (insert_by lt) [] l.

(** The indices of the elements that are followed by one like it, and the
    removal of the elements at a list of indices. *)
Fixpoint erase_indices {A} (same : A → A → bool) (i : nat) (l : list A) : list nat :=
  match l with
  | x :: (y :: _) as l' => (if same x y then [i] else []) ++ erase_indices same (S i) l'
  | _ => []
  end.
Definition erase_all {A} (l : list A) (idxs : list nat) : list A := foldl (λ l i, delete i l) l idxs.

Definition deduplicate {A} (lt same : A → A → bool) (l : list A) : list A :=
  let s := std_sort lt l in
  erase_all s (std_sort (λ a b, b <? a)%nat (erase_indices same 0 s)).

Definition compare_transaction_db (b1 b2 : transaction_diskblock) : bool :=
  if blocknum b1 =? blocknum b2 then timestamp b1 <? timestamp b2 else blocknum b1 <? blocknum b2.

Definition dedup_blocks : list transaction_diskblock → list transaction_diskblock :=
  deduplicate compare_transaction_db (λ b1 b2, blocknum b1 =? blocknum b2).
Definition dedup_nums : list Z → list Z := deduplicate Z.ltb Z.eqb.

Definition deduplicate_blocks (t : Z) : fprog unit := tr_upd t (λ x, x <| blocks ::= dedup_blocks |>).
Definition deduplicate_dirty_blocknums (t : Z) : fprog unit := tr_upd t (λ x, x <| dirty_blocknums ::= dedup_nums |>).
Definition deduplicate_freeblock_list (t : Z) : fprog unit := tr_upd t (λ x, x <| free_block_list ::= dedup_nums |>).
Definition deduplicate_freeinum_list (t : Z) : fprog unit := tr_upd t (λ x, x <| free_inum_list ::= dedup_nums |>).

(** ** Transactions *)

Definition transaction_at (ts : Z) : transaction := Transaction ts 0 0 [] 0 0 [] [] [] [] [] [] ∅ None.

(** [new transaction(ts)] and [new transaction()]. *)
Definition new_transaction_at (ts : Z) : fprog Z :=
  act (λ w, Next (f_next w) (w <| f_trans ::= <[f_next w := transaction_at ts]> |> <| f_next ::= Z.succ |>)).
Definition new_transaction : fprog Z := ts ← get_tsc; new_transaction_at ts.

Definition delete_transaction (t : Z) : fprog unit :=
  q ← tr_get bqueue t;
  (match q with Some _ => bqueue_delete t | None => mret () end);;
  fwr (λ w, w <| f_trans ::= delete t |>).

Definition add_block (t bno : Z) (data : list Z) : fprog unit :=
  ts ← get_tsc; tr_upd t (λ x, x <| blocks ::= λ l, l ++ [DiskBlock bno data ts] |>).
Definition add_blocks (t : Z) (bvec : list transaction_diskblock) : fprog unit :=
  tr_upd t (λ x, x <| blocks ::= λ l, l ++ bvec |>).
Definition add_dirty_blocknum (t bno : Z) : fprog unit :=
  tr_upd t (λ x, x <| dirty_blocknums ::= λ l, l ++ [bno] |>).
Definition add_allocated_block (t bno : Z) : fprog unit :=
  tr_upd t (λ x, x <| allocated_block_list ::= λ l, l ++ [bno] |>).
Definition add_free_block (t bno : Z) : fprog unit :=
  tr_upd t (λ x, x <| free_block_list ::= λ l, l ++ [bno] |>).
Definition add_free_inum (t inum : Z) : fprog unit :=
  tr_upd t (λ x, x <| free_inum_list ::= λ l, l ++ [inum] |>).
Definition add_free_blocks (t : Z) (l : list Z) : fprog unit :=
  tr_upd t (λ x, x <| free_block_list ::= λ l0, l0 ++ l |>).
Definition add_free_inums (t : Z) (l : list Z) : fprog unit :=
  tr_upd t (λ x, x <| free_inum_list ::= λ l0, l0 ++ l |>).

(** ** The buffer cache *)

(** [buf::get]: afterwards the block is in the cache. *)
Definition buf_get (k : Z * Z) (skip_disk_read : bool) : fprog unit :=
  b ← frd (λ w, f_bufs w !! k);
  match b with
  | Some _ => mret ()
  | None =>
      data ← (if skip_disk_read then uninit else disk_read (wrap64 (k.2 * BSIZE)));
      fwr (λ w, w <| f_bufs ::= <[k := Buf data false]> |>)
  end.

Definition in_bufcache (k : Z * Z) : fprog bool := frd (λ w, bool_decide (is_Some (f_bufs w !! k))).

(** The eviction of a clean block. *)
Definition buf_put (k : Z * Z) : fprog unit :=
  fwr (λ w, match f_bufs w !! k with
            | Some b => if bdirty b then w else w <| f_bufs ::= delete k |>
            | None => w
            end).

Definition buf_upd (k : Z * Z) (f : buf → buf) : fprog unit :=
  act (λ w, match f_bufs w !! k with
            | Some b => Next () (w <| f_bufs ::= <[k := f b]> |>) | None => Crash end).

(** [read()->data], and [write()], which marks the buffer, with a store
    through it. *)
Definition buf_read (k : Z * Z) : fprog (list Z) :=
  act (λ w, match f_bufs w !! k with Some b => Next (bdata b) w | None => Crash end).
Definition buf_write (k : Z * Z) : fprog unit := buf_upd k (λ b, b <| bdirty := true |>).
Definition buf_store (k : Z * Z) (data : list Z) : fprog unit := buf_upd k (λ b, b <| bdata := data |>).
Definition mark_clean (k : Z * Z) : fprog unit := buf_upd k (λ b, b <| bdirty := false |>).

Definition buf_writeback (k : Z * Z) : fprog unit :=
  mark_clean k;; data ← buf_read k; disk_write data (wrap64 (k.2 * BSIZE)).

Definition add_to_transaction (k : Z * Z) (t : Z) : fprog unit :=
  mark_clean k;; data ← buf_read k; add_block t k.2 data.
Definition add_blocknum_to_transaction (k : Z * Z) (t : Z) : fprog unit := add_dirty_blocknum t k.2.

Definition add_dirty_blocks_lazy (t : Z) : fprog unit :=
  deduplicate_dirty_blocknums t;;
  l ← tr_get dirty_blocknums t;
  fold_each l (λ bno _, buf_get (1, bno) false;; add_to_transaction (1, bno) t) ();;
  tr_upd t (λ x, x <| dirty_blocknums := [] |>).

(** ** Writing a transaction to the disk *)

(** [blocknum * BSIZE] is computed with 32 bits. *)
Definition block_offset (b : transaction_diskblock) : Z := wrap32 (blocknum b * BSIZE).

Definition db_writeback (b : transaction_diskblock) : fprog unit := disk_write (blockdata b) (block_offset b).

Definition writeback_through_bufcache (b : transaction_diskblock) : fprog unit :=
  buf_get (1, blocknum b) true;;
  buf_write (1, blocknum b);;
  buf_store (1, blocknum b) (blockdata b);;
  db_writeback b.

(** [disks_written.set(blknum_to_dev(b))] *)
Definition set_written (t b : Z) : fprog unit :=
  n ← num_disks; tr_upd t (λ x, x <| disks_written ::= λ s, {[blknum_to_dev n b]} ∪ s |>).

Definition bqueue_init (t : Z) : fprog unit :=
  q ← tr_get bqueue t; match q with Some _ => mret () | None => bqueue_new t end.

(** [write_block]: the block number is a [u64] here. *)
Definition write_block (t : Z) (data : list Z) (bno : Z) : fprog unit :=
  bqueue_init t;;
  bqueue_write t data (wrap64 (bno * BSIZE));;
  set_written t (wrap32 bno).

Definition write_to_disk (t : Z) : fprog unit :=
  deduplicate_blocks t;;
  bqueue_init t;;
  l ← tr_get blocks t;
  fold_each l (λ b _, bqueue_write t (blockdata b) (block_offset b);; set_written t (blocknum b)) ();;
  bqueue_flush t;;
  bqueue_delete t.

Definition write_to_disk_raw (t : Z) : fprog unit :=
  deduplicate_blocks t;;
  l ← tr_get blocks t;
  fold_each l (λ b _, db_writeback b;; set_written t (blocknum b)) ().

(** The disks in a set, in increasing order. *)
Definition disks_in (s : gset Z) : list Z := filter (λ d, d ∈ s) (seqZ 0 NDISK).

Definition flush_written (t : Z) : fprog unit :=
  s ← tr_get disks_written t;
  fold_each (disks_in s) (λ d _, disk_flush d) ();;
  tr_upd t (λ x, x <| disks_written := ∅ |>).

Definition write_to_disk_and_flush (t : Z) : fprog unit := write_to_disk t;; flush_written t.
Definition write_to_disk_and_flush_raw (t : Z) : fprog unit := write_to_disk_raw t;; flush_written t.

Definition write_to_disk_update_bufcache (t : Z) : fprog unit :=
  deduplicate_blocks t;;
  l ← tr_get blocks t;
  fold_each l (λ b _, writeback_through_bufcache b) ().

Definition flush_block_queue (t : Z) : fprog unit :=
  q ← tr_get bqueue t; match q with Some _ => bqueue_flush t | None => mret () end.
