(* ===== verification/FsDedup.v ===== *)
(** * The blocks a transaction writes

    [deduplicate] against a reference definition, and what it keeps of the
    blocks of a transaction. *)

From Stdlib Require Import Sorted.
From S2P Require Import Prelude FsBytes FsWorld FsDisk FsTrans.

(** ** Sorting *)

Section sort.
Context {A : Type} (lt : A → A → bool).

Lemma insert_by_perm x l : insert_by lt x l ≡ₚ x :: l.
Proof.
  induction l as [|y l IH]; [done|]. simpl. destruct (lt y x); [|done].
  rewrite IH. apply Permutation_swap.
Qed.

Lemma std_sort_perm l : std_sort lt l ≡ₚ l.
Proof. induction l as [|x l IH]; [done|]. simpl. by rewrite insert_by_perm IH. Qed.

(** [lt] is a strict weak order. *)
Context (Hasym : ∀ x y, lt x y = true → lt y x = false)
        (Htrans : ∀ x y z, lt y x = false → lt z y = false → lt z x = false).

Definition not_after (x y : A) : Prop := lt y x = false.

Lemma insert_by_sorted x l : StronglySorted not_after l → StronglySorted not_after (insert_by lt x l).
Proof.
  induction 1 as [|y l Hs IH Hf]; simpl; [by repeat constructor|].
  destruct (lt y x) eqn:E.
  - constructor; [done|]. apply Forall_forall. intros z. rewrite insert_by_perm.
    intros [->|Hz]%elem_of_cons; [by apply Hasym|]. rewrite Forall_forall in Hf. by apply Hf.
  - constructor; [by constructor|]. constructor; [done|].
    eapply Forall_impl; [exact Hf|]. intros z Hz. by eapply Htrans.
Qed.

Lemma std_sort_sorted l : StronglySorted not_after (std_sort lt l).
Proof. induction l as [|x l IH]; [constructor|]. by apply insert_by_sorted. Qed.
End sort.

(** ** Removing all but the last of equal neighbours *)

(** The reference: an element is dropped when the next one is like it. *)
Fixpoint keep_last {A} (same : A → A → bool) (l : list A) : list A :=
  match l with
  | x :: (y :: _) as l' => if same x y then keep_last same l' else x :: keep_last same l'
  | _ => l
  end.

Section erase.
Context {A : Type} (same : A → A → bool).

Lemma erase_indices_S i l : erase_indices same (S i) l = S <$> erase_indices same i l.
Proof.
  revert i. induction l as [|x [|y l] IH]; intros i; [done..|].
  change (erase_indices same (S i) (x :: y :: l)) with
    ((if same x y then [S i] else []) ++ erase_indices same (S (S i)) (y :: l)).
  rewrite (IH (S i)) /=. by destruct (same x y).
Qed.

(** The indices come in increasing order: sorting them the other way round
    reverses the list. *)
Lemma erase_indices_inc i l : StronglySorted lt (erase_indices same i l) ∧ Forall (le i) (erase_indices same i l).
Proof.
  revert i. induction l as [|x [|y l] IH]; intros i; [by repeat constructor..|].
  change (erase_indices same i (x :: y :: l)) with
    ((if same x y then [i] else []) ++ erase_indices same (S i) (y :: l)).
  destruct (IH (S i)) as [Hs Hf]. assert (Forall (le i) (erase_indices same (S i) (y :: l))) as Hf'
    by (eapply Forall_impl; [exact Hf|]; simpl; lia).
  destruct (same x y); simpl; [|done]. split; constructor; auto.
Qed.

Lemma sort_greater l : StronglySorted lt l → std_sort (λ a b, b <? a)%nat l = reverse l.
Proof.
  induction 1 as [|x l Hs IH Hf]; [done|]. simpl. rewrite IH reverse_cons. clear -Hf.
  assert (Forall (lt x) (reverse l)) as H by by rewrite Forall_reverse.
  induction H as [|y l' Hy _ IH]; [done|]. simpl. rewrite (proj2 (Nat.ltb_lt _ _) Hy). by rewrite IH.
Qed.

Lemma erase_all_S x (l : list A) is' : erase_all (x :: l) (S <$> is') = x :: erase_all l is'.
Proof. revert l. induction is' as [|i is' IH]; intros l; [done|]. apply IH. Qed.

Lemma erase_keep_last l : erase_all l (reverse (erase_indices same 0 l)) = keep_last same l.
Proof.
  induction l as [|x [|y l] IH]; [done..|].
  change (erase_indices same 0 (x :: y :: l)) with
    ((if same x y then [0%nat] else []) ++ erase_indices same 1 (y :: l)).
  rewrite reverse_app erase_indices_S -fmap_reverse. unfold erase_all. rewrite foldl_app.
  fold (erase_all (x :: y :: l) (S <$> reverse (erase_indices same 0 (y :: l)))).
  rewrite erase_all_S IH. change (keep_last same (x :: y :: l)) with
    (if same x y then keep_last same (y :: l) else x :: keep_last same (y :: l)).
  by destruct (same x y).
Qed.

Lemma deduplicate_keep_last lt l : deduplicate lt same l = keep_last same (std_sort lt l).
Proof.
  unfold deduplicate. rewrite sort_greater; [apply erase_indices_inc|]. apply erase_keep_last.
Qed.
End erase.

(** ** What is kept *)

Definition by_block (b1 b2 : transaction_diskblock) : Prop :=
  blocknum b1 < blocknum b2 ∨ (blocknum b1 = blocknum b2 ∧ timestamp b1 ≤ timestamp b2).

Lemma compare_by_block b1 b2 : not_after compare_transaction_db b1 b2 ↔ by_block b1 b2.
Proof.
  unfold not_after, compare_transaction_db, by_block.
  destruct (Z.eqb_spec (blocknum b2) (blocknum b1)); [rewrite Z.ltb_ge|rewrite Z.ltb_ge]; lia.
Qed.

Lemma sort_blocks_sorted l : StronglySorted by_block (std_sort compare_transaction_db l).
Proof.
  assert (StronglySorted (not_after compare_transaction_db) (std_sort compare_transaction_db l)) as H.
  { apply std_sort_sorted.
    - intros x y Hxy. apply compare_by_block. unfold compare_transaction_db in Hxy.
      unfold by_block. destruct (Z.eqb_spec (blocknum x) (blocknum y)); [apply Z.ltb_lt in Hxy|apply Z.ltb_lt in Hxy]; lia.
    - intros x y z H1%compare_by_block H2%compare_by_block. apply compare_by_block. unfold by_block in *. lia. }
  induction H as [|x s Hs IH Hf]; constructor; [done|]. eapply Forall_impl; [exact Hf|]. apply compare_by_block.
Qed.

Definition same_block (b1 b2 : transaction_diskblock) : bool := blocknum b1 =? blocknum b2.

Lemma keep_last_sub {A} (same : A → A → bool) l : keep_last same l ⊆ l.
Proof.
  induction l as [|x [|y l] IH]; [done..|]. change (keep_last same (x :: y :: l)) with
    (if same x y then keep_last same (y :: l) else x :: keep_last same (y :: l)).
  destruct (same x y); set_solver.
Qed.

Lemma keep_last_spec s :
  StronglySorted by_block s →
  StronglySorted (λ x y, blocknum x < blocknum y) (keep_last same_block s) ∧
  (∀ b, b ∈ keep_last same_block s → ∀ b', b' ∈ s → blocknum b' = blocknum b → timestamp b' ≤ timestamp b) ∧
  (∀ b, b ∈ s → ∃ b', b' ∈ keep_last same_block s ∧ blocknum b' = blocknum b).
Proof.
  induction 1 as [|x s Hs IH Hf]; [split_and!; [constructor|..]; intros b []%not_elem_of_nil|].
  destruct s as [|y s].
  { split_and!; [by repeat constructor| |]; simpl.
    - intros b Hb b' Hb' _. apply list_elem_of_singleton in Hb, Hb'. subst. lia.
    - intros b Hb. by exists b. }
  destruct IH as (IH1 & IH2 & IH3).
  change (keep_last same_block (x :: y :: s)) with
    (if same_block x y then keep_last same_block (y :: s) else x :: keep_last same_block (y :: s)).
  pose proof (keep_last_sub same_block (y :: s)) as Hsub. rewrite Forall_forall in Hf.
  destruct (same_block x y) eqn:E; [apply Z.eqb_eq in E|apply Z.eqb_neq in E].
  - split_and!; [done| |].
    + intros b Hb b' [->|Hb']%elem_of_cons Ebb; [|by apply IH2].
      etrans; [|apply (IH2 b Hb y); [by left|congruence]]. destruct (Hf y); [by left|lia|lia].
    + intros b [->|Hb]%elem_of_cons; [|by apply IH3].
      destruct (IH3 y) as (b' & ? & ?); [by left|]. exists b'. split; [done|congruence].
  - assert (∀ b, b ∈ y :: s → blocknum x < blocknum b) as Hlt.
    { assert (blocknum x < blocknum y) by (destruct (Hf y); [by left|lia|lia]).
      intros b [->|Hb]%elem_of_cons; [done|]. apply StronglySorted_inv in Hs as [_ Hs].
      rewrite Forall_forall in Hs. destruct (Hs b Hb); lia. }
    split_and!.
    + constructor; [done|]. apply Forall_forall. intros b Hb. apply Hlt. by apply Hsub.
    + intros b [->|Hb]%elem_of_cons b' [->|Hb']%elem_of_cons Ebb; [lia| | |by apply IH2].
      * pose proof (Hlt b' Hb'). lia.
      * pose proof (Hlt b (Hsub _ Hb)). lia.
    + intros b [->|Hb]%elem_of_cons; [by exists x; split; [left|]|].
      destruct (IH3 b Hb) as (b' & ? & ?). exists b'. split; [by right|done].
Qed.

Lemma dedup_sorted l : StronglySorted (λ x y, blocknum x < blocknum y) (dedup_blocks l).
Proof. unfold dedup_blocks. rewrite deduplicate_keep_last. apply keep_last_spec, sort_blocks_sorted. Qed.

Lemma dedup_sub l : dedup_blocks l ⊆ l.
Proof.
  intros b Hb. unfold dedup_blocks in Hb. rewrite deduplicate_keep_last in Hb.
  apply keep_last_sub in Hb. by rewrite std_sort_perm in Hb.
Qed.

Lemma dedup_covers l b : b ∈ l → ∃ b', b' ∈ dedup_blocks l ∧ blocknum b' = blocknum b.
Proof.
  intros Hb. unfold dedup_blocks. rewrite deduplicate_keep_last.
  apply (keep_last_spec _ (sort_blocks_sorted l)). by rewrite std_sort_perm.
Qed.

Lemma dedup_newest l b b' : b ∈ dedup_blocks l → b' ∈ l → blocknum b' = blocknum b → timestamp b' ≤ timestamp b.
Proof.
  intros Hb Hb'. unfold dedup_blocks in Hb. rewrite deduplicate_keep_last in Hb.
  apply (keep_last_spec _ (sort_blocks_sorted l)); [done|]. by rewrite std_sort_perm.
Qed.

(** C30: [deduplicate_blocks] keeps the newest version of every block of
    a transaction and nothing else, in increasing order of block numbers. *)
Theorem dedup_keeps_newest l :
  NoDup ((λ b, (blocknum b, timestamp b)) <$> l) →
  StronglySorted Z.lt (blocknum <$> dedup_blocks l) ∧
  ∀ b, b ∈ dedup_blocks l ↔
    b ∈ l ∧ ∀ b', b' ∈ l → blocknum b' = blocknum b → timestamp b' ≤ timestamp b.
Proof.
  intros Hnd. split.
  { pose proof (dedup_sorted l) as H. induction H as [|x s Hs IH Hf]; constructor; [done|]. by apply Forall_fmap. }
  intros b. split.
  - intros Hb. split; [by apply dedup_sub|]. intros b' Hb' E. by eapply dedup_newest.
  - intros [Hb Hmax]. destruct (dedup_covers l b Hb) as (b' & Hb' & E).
    pose proof (dedup_newest l b' b Hb' Hb (eq_sym E)) as H1.
    pose proof (dedup_sub l b' Hb') as Hbl. pose proof (Hmax b' Hbl E) as H2.
    assert (b = b') as ->; [|done].
    apply list_elem_of_lookup in Hb as (i & Hi). apply list_elem_of_lookup in Hbl as (j & Hj).
    assert (i = j) as ->; [|congruence]. eapply NoDup_lookup; [exact Hnd| |].
    + by rewrite list_lookup_fmap Hi.
    + rewrite list_lookup_fmap Hj /=. do 2 f_equal; lia.
Qed.

(** ** Lists with one version of each block *)

Lemma sorted_blocks_nodup l : StronglySorted (λ x y, blocknum x < blocknum y) l → NoDup (blocknum <$> l).
Proof.
  induction 1 as [|x l Hs IH Hf]; [constructor|]. simpl. apply NoDup_cons. split; [|done].
  intros (y & E & Hy)%list_elem_of_fmap. rewrite Forall_forall in Hf. specialize (Hf y Hy). lia.
Qed.

Lemma dedup_nodup l : NoDup (blocknum <$> dedup_blocks l).
Proof. apply sorted_blocks_nodup, dedup_sorted. Qed.

Lemma nodup_blocknum l b b' : NoDup (blocknum <$> l) → b ∈ l → b' ∈ l → blocknum b = blocknum b' → b = b'.
Proof.
  intros Hnd (i & Hi)%list_elem_of_lookup (j & Hj)%list_elem_of_lookup E.
  assert (i = j) as ->; [|congruence]. eapply NoDup_lookup; [exact Hnd| |].
  - by rewrite list_lookup_fmap Hi.
  - by rewrite list_lookup_fmap Hj /= E.
Qed.

Lemma dedup_perm l : NoDup (blocknum <$> l) → dedup_blocks l ≡ₚ l.
Proof.
  intros Hnd. apply NoDup_Permutation; [eapply NoDup_fmap_1, dedup_nodup|by eapply NoDup_fmap_1|].
  intros b. split; [apply dedup_sub|]. intros Hb. destruct (dedup_covers l b Hb) as (b' & Hb' & E).
  by rewrite (nodup_blocknum l b b' Hnd Hb (dedup_sub _ _ Hb') (eq_sym E)).
Qed.

(** The writes of a list of blocks. *)
Definition db_writes (l : list transaction_diskblock) : list (Z * list Z) :=
  (λ b, (blocknum b, blockdata b)) <$> l.

Definition apply_writes (ws : list (Z * list Z)) (m : gmap Z (list Z)) : gmap Z (list Z) :=
  foldl (λ m x, <[x.1 := x.2]> m) m ws.

Lemma apply_writes_app ws ws' m : apply_writes (ws ++ ws') m = apply_writes ws' (apply_writes ws m).
Proof. apply foldl_app. Qed.

Lemma apply_writes_out ws m b : b ∉ ws.*1 → apply_writes ws m !! b = m !! b.
Proof.
  revert m. induction ws as [|[c v] ws IH]; intros m Hb; [done|]. simpl in *.
  rewrite IH; [set_solver|]. rewrite lookup_insert_ne //. set_solver.
Qed.

Lemma apply_writes_in ws m m' b : b ∈ ws.*1 → apply_writes ws m !! b = apply_writes ws m' !! b.
Proof.
  revert m m'. induction ws as [|[c v] ws IH]; intros m m' Hb; [set_solver|]. simpl in *.
  destruct (decide (b ∈ ws.*1)); [by apply IH|]. rewrite !apply_writes_out //.
  apply elem_of_cons in Hb as [->|]; [|done]. by rewrite !lookup_insert_eq.
Qed.

Lemma apply_writes_elem ws m b v : NoDup ws.*1 → (b, v) ∈ ws → apply_writes ws m !! b = Some v.
Proof.
  revert m. induction ws as [|[c u] ws IH]; intros m Hnd Hb; [set_solver|].
  simpl in Hnd. apply NoDup_cons in Hnd as [Hc Hnd]. simpl.
  apply elem_of_cons in Hb as [[= -> ->]|Hb]; [|by apply IH].
  rewrite apply_writes_out // lookup_insert_eq //.
Qed.

Lemma apply_writes_perm ws ws' m : NoDup ws.*1 → ws ≡ₚ ws' → apply_writes ws m = apply_writes ws' m.
Proof.
  intros Hnd Hp. assert (NoDup ws'.*1) as Hnd' by by rewrite -Hp. apply map_eq. intros b.
  destruct (decide (b ∈ ws.*1)) as [Hb|Hb].
  - apply list_elem_of_fmap in Hb as ([c v] & -> & Hb). simpl. rewrite !(apply_writes_elem _ _ c v) //. by rewrite -Hp.
  - rewrite !apply_writes_out //. by rewrite -Hp.
Qed.
