(* ===== verification/FsWrite.v ===== *)
(** * Writing a transaction, on a machine with one disk

    The blocks of a transaction reach the disk's write cache in the order of
    their numbers; the flush makes them durable.  Block numbers are below
    [2 ^ 20]: the offset of a block is computed with 32 bits. *)

From Stdlib Require Import Sorted.
From S2P Require Import Prelude FsBytes FsWorld FsDisk FsTrans FsDedup.

(** The block numbers whose offset fits in 32 bits. *)
Definition small (b : Z) : Prop := 0 ≤ b < 1048576.

Lemma block_offset_small b : small (blocknum b) → block_offset b = blocknum b * BSIZE.
Proof. unfold small, block_offset, BSIZE. intros. rewrite wrap32_small //. lia. Qed.

Lemma run_set_written w d t x b :
  f_disks w = [d] → f_trans w !! t = Some x →
  run (set_written t b) w = Done () (upd_dt w d t (x <| disks_written := {[0]} ∪ disks_written x |>)).
Proof.
  intros Hd Ht. unfold set_written. rewrite (run_bind_done _ _ _ _ _ (run_num_disks _ _ Hd)).
  pose proof (place_one b) as [= -> _]. rewrite (run_tr_upd _ _ _ _ Ht).
  unfold upd_dt. destruct w. cbn in *. by subst.
Qed.

(** The transaction after the block [b] has gone to its queue. *)
Lemma run_write_one w d t x ws b data :
  f_disks w = [d] → f_trans w !! t = Some x → queue_holds (bqueue x) ws → small b →
  ∃ out qs ws', run (bqueue_write t data (b * BSIZE);; set_written t b) w =
      Done () (upd_dt w (put d out) t (x <| bqueue := qs |> <| disks_written := {[0]} ∪ disks_written x |>)) ∧
    queue_holds qs ws' ∧ out ++ ws' = ws ++ [(b, data)].
Proof.
  intros Hd Ht Hq Hb. destruct (run_bqueue_write w d t x ws b data Hd Ht Hq) as (out & qs & Hr & ws' & Hq' & E);
    [unfold small in Hb; lia|].
  exists out, qs, ws'. split_and!; [|done..]. rewrite (run_bind_done _ _ _ _ _ Hr).
  erewrite run_set_written; [|done|apply upd_dt_trans]. by rewrite upd_dt_twice.
Qed.

(** All blocks, through the queue. *)
Lemma run_write_all l w d t x ws :
  f_disks w = [d] → f_trans w !! t = Some x → queue_holds (bqueue x) ws →
  Forall (λ b, small (blocknum b)) l →
  ∃ out qs ws', run (fold_each l (λ b _, bqueue_write t (blockdata b) (block_offset b);; set_written t (blocknum b)) ()) w =
      Done () (upd_dt w (put d out) t (x <| bqueue := qs |> <| disks_written := if decide (l = []) then disks_written x else {[0]} ∪ disks_written x |>)) ∧
    queue_holds qs ws' ∧ out ++ ws' = ws ++ db_writes l.
Proof.
  intros Hd Ht Hq Hl. revert w d x ws Hd Ht Hq. induction Hl as [|b l Hb Hl IH]; intros w d x ws Hd Ht Hq.
  { exists [], (bqueue x), ws. rewrite run_fold_each_nil put_nil app_nil_r. split_and!; [|done..].
    destruct (decide _); [|done]. f_equal. symmetry. apply upd_dt_id; [done|]. rewrite Ht. by destruct x. }
  rewrite run_fold_each_cons. destruct (run_write_one w d t x ws (blocknum b) (blockdata b) Hd Ht Hq Hb)
    as (out & qs & ws1 & Hr & Hq1 & E1). rewrite block_offset_small // Hr /=.
  set (x1 := x <| bqueue := qs |> <| disks_written := {[0]} ∪ disks_written x |>).
  edestruct (IH (upd_dt w (put d out) t x1) (put d out) x1 ws1) as (out2 & qs2 & ws2 & Hr2 & Hq2 & E2);
    [done|apply upd_dt_trans|done|].
  rewrite Hr2. exists (out ++ out2), qs2, ws2. split_and!; [|done|].
  - rewrite upd_dt_twice put_put. do 2 f_equal. unfold x1. destruct x. cbn.
    cbv beta delta [field_map]. cbn. f_equal. destruct (decide (b :: l = [])); [done|].
    destruct (decide (l = [])); [done|]. set_solver.
  - rewrite -app_assoc E2 app_assoc E1 -app_assoc. done.
Qed.

Definition held (qs : option (list disk_queue)) (ws : list (Z * list Z)) : Prop :=
  (qs = None ∧ ws = []) ∨ queue_holds qs ws.

Lemma run_bqueue_init w d t x ws :
  f_disks w = [d] → f_trans w !! t = Some x → held (bqueue x) ws →
  ∃ qs, run (bqueue_init t) w = Done () (upd_dt w d t (x <| bqueue := qs |>)) ∧ queue_holds qs ws.
Proof.
  intros Hd Ht H. unfold bqueue_init. rewrite (run_bind_done _ _ _ _ _ (run_tr_get _ _ _ _ Ht)).
  destruct H as [[-> ->]|(q & Hq & Hok & E)].
  - exists (Some [new_disk_queue]). split; [by apply run_bqueue_new|].
    exists new_disk_queue. destruct new_queue_ok. done.
  - rewrite Hq. exists (Some [q]). split; [|by exists q]. rewrite run_ret. f_equal.
    rewrite -Hq. symmetry. rewrite upd_dt_id //. by destruct x.
Qed.

(** What [write_to_disk] leaves of the transaction. *)
Definition written (x : transaction) : transaction :=
  x <| blocks := dedup_blocks (blocks x) |> <| bqueue := None |>
    <| disks_written := if decide (dedup_blocks (blocks x) = []) then disks_written x else {[0]} ∪ disks_written x |>.

Lemma run_write_to_disk w d t x ws :
  f_disks w = [d] → f_trans w !! t = Some x → held (bqueue x) ws →
  Forall (λ b, small (blocknum b)) (blocks x) →
  run (write_to_disk t) w =
    Done () (upd_dt w (put d (ws ++ db_writes (dedup_blocks (blocks x)))) t (written x)).
Proof.
  intros Hd Ht Hq Hl. unfold write_to_disk, deduplicate_blocks.
  rewrite (run_bind_done _ _ _ _ _ (run_tr_upd _ _ _ _ Ht)).
  set (x1 := x <| blocks ::= dedup_blocks |>).
  assert (w <| f_trans ::= <[t := x1]> |> = upd_dt w d t x1) as -> by (unfold upd_dt; destruct w; cbn in *; by subst).
  destruct (run_bqueue_init (upd_dt w d t x1) d t x1 ws) as (qs & Hr & Hq1); [done|apply upd_dt_trans|done|].
  rewrite (run_bind_done _ _ _ _ _ Hr) upd_dt_twice.
  erewrite run_bind_done; [|apply run_tr_get, upd_dt_trans]. change (blocks (x1 <| bqueue := qs |>)) with (dedup_blocks (blocks x)).
  edestruct (run_write_all (dedup_blocks (blocks x)) (upd_dt w d t (x1 <| bqueue := qs |>)) d t (x1 <| bqueue := qs |>) ws)
    as (out & qs2 & ws2 & Hr2 & Hq2 & E2); [done|apply upd_dt_trans|done| |].
  { rewrite Forall_forall in Hl. apply Forall_forall. intros b Hb. apply Hl. by apply dedup_sub. }
  rewrite (run_bind_done _ _ _ _ _ Hr2) upd_dt_twice.
  match goal with |- context [upd_dt w (put d out) t ?y] => set (x2 := y) end.
  destruct (run_bqueue_flush (upd_dt w (put d out) t x2) (put d out) t x2 ws2) as (qs3 & Hr3 & (q3 & -> & _) & Hall);
    [done|apply upd_dt_trans|done|].
  rewrite (run_bind_done _ _ _ _ _ Hr3) upd_dt_twice put_put E2.
  erewrite run_bqueue_delete; [|done|apply upd_dt_trans|eexists; split; [done|]; by apply Hall].
  rewrite upd_dt_twice. do 2 f_equal.
Qed.

(** ** Without the queue *)

Lemma run_db_writeback w d b :
  f_disks w = [d] → small (blocknum b) → run (db_writeback b) w = Done () (w <| f_disks := [put d [(blocknum b, blockdata b)]] |>).
Proof.
  intros Hd Hb. unfold db_writeback, disk_write. rewrite block_offset_small // (run_disk_writev w d) //.
  - split; [|simpl; lia]. exists (blocknum b). unfold small in Hb. split; [lia|done].
  - rewrite Z.div_mul //. unfold run_of. simpl. by rewrite Z.add_0_r.
Qed.

Lemma run_raw_all l w d t x :
  f_disks w = [d] → f_trans w !! t = Some x → Forall (λ b, small (blocknum b)) l →
  run (fold_each l (λ b _, db_writeback b;; set_written t (blocknum b)) ()) w =
    Done () (upd_dt w (put d (db_writes l)) t
      (x <| disks_written := if decide (l = []) then disks_written x else {[0]} ∪ disks_written x |>)).
Proof.
  intros Hd Ht Hl. revert w d x Hd Ht. induction Hl as [|b l Hb Hl IH]; intros w d x Hd Ht.
  { rewrite run_fold_each_nil put_nil. f_equal. symmetry. destruct (decide _); [|done]. apply upd_dt_id; [done|]. rewrite Ht. by destruct x. }
  rewrite run_fold_each_cons (run_bind_done _ _ _ _ _ (run_db_writeback w d b Hd Hb)).
  set (w1 := w <| f_disks := [put d [(blocknum b, blockdata b)]] |>).
  rewrite (run_set_written w1 (put d [(blocknum b, blockdata b)]) t x) //. simpl outcome_bind.
  erewrite IH; [|done|apply upd_dt_trans]. rewrite upd_dt_twice put_put. f_equal.
  assert (∀ d' y, upd_dt w1 d' t y = upd_dt w d' t y) as -> by (intros; unfold upd_dt, w1; by destruct w).
  f_equal. destruct x. cbn. cbv beta delta [field_map]. cbn. f_equal. destruct (decide (b :: l = [])); [done|].
  destruct (decide (l = [])); [done|]. set_solver.
Qed.

Lemma run_write_to_disk_raw w d t x :
  f_disks w = [d] → f_trans w !! t = Some x → bqueue x = None → Forall (λ b, small (blocknum b)) (blocks x) →
  run (write_to_disk_raw t) w = Done () (upd_dt w (put d (db_writes (dedup_blocks (blocks x)))) t (written x)).
Proof.
  intros Hd Ht Hq Hl. unfold write_to_disk_raw, deduplicate_blocks.
  rewrite (run_bind_done _ _ _ _ _ (run_tr_upd _ _ _ _ Ht)).
  set (x1 := x <| blocks ::= dedup_blocks |>).
  assert (w <| f_trans ::= <[t := x1]> |> = upd_dt w d t x1) as -> by (unfold upd_dt; destruct w; cbn in *; by subst).
  erewrite run_bind_done; [|apply run_tr_get, upd_dt_trans]. change (blocks x1) with (dedup_blocks (blocks x)).
  erewrite run_raw_all; [|done|apply upd_dt_trans|].
  - rewrite upd_dt_twice. do 2 f_equal. unfold written, x1. destruct x. cbn in *. by subst.
  - rewrite Forall_forall in Hl. apply Forall_forall. intros b Hb. apply Hl. by apply dedup_sub.
Qed.

(** ** The flush *)

Lemma run_disk_flush w d : f_disks w = [d] → run (disk_flush 0) w = Done () (w <| f_disks := [flushed d] |>).
Proof. intros Hd. unfold disk_flush. rewrite run_act Hd. destruct w. cbn in *. by subst. Qed.

Lemma disks_in_empty : disks_in ∅ = [].
Proof. done. Qed.
Lemma disks_in_zero : disks_in {[0]} = [0].
Proof. done. Qed.

Lemma run_flush_written w d t x :
  f_disks w = [d] → f_trans w !! t = Some x → disks_written x = {[0]} →
  run (flush_written t) w = Done () (upd_dt w (flushed d) t (x <| disks_written := ∅ |>)).
Proof.
  intros Hd Ht Hs. unfold flush_written. rewrite (run_bind_done _ _ _ _ _ (run_tr_get _ _ _ _ Ht)) Hs disks_in_zero.
  erewrite run_bind_done; [|rewrite run_fold_each_cons (run_disk_flush _ _ Hd) /= run_fold_each_nil; done].
  rewrite (run_tr_upd _ _ _ x) //.
Qed.
