(* ===== verification/FsBlocks.v ===== *)
(** * Free blocks and inodes ([kernel/scalefs.cc], [kernel/fs.cc])

    The bitmaps of free blocks and free inodes in memory, with a list for each
    CPU and a reserve, and the bitmap on the disk.  Every list is handled under its own lock, so
    that taking from it and returning to it are one action each. *)

From S2P Require Import Prelude FsBytes FsWorld FsDisk FsTrans.

(** ** Layout of the disk ([include/fs.h]) *)

Definition IPB : Z := BSIZE / 64.
Definition BPB : Z := BSIZE * 8.
Definition IBLOCK (i : Z) : Z := i / IPB + 2.
Definition BBLOCK (b ninodes : Z) : Z := b / BPB + ninodes / IPB + 3.

(** ** The bitmap in memory *)

(** The lists of a bitmap: that of a CPU, or the reserve. *)
Definition list_of (c : option Z) (bm : freeblock_bitmap) : list Z :=
  match c with Some cpu => default [] (freelists bm !! cpu) | None => reserve_freelist bm end.
Definition set_list (c : option Z) (l : list Z) (bm : freeblock_bitmap) : freeblock_bitmap :=
  match c with Some cpu => bm <| freelists ::= <[cpu := l]> |> | None => bm <| reserve_freelist := l |> end.

(** The two bitmaps, which work in the same way. *)
Inductive pool := Blocks | Inums.

Definition bitmap_of (p : pool) (w : fs_world) : freeblock_bitmap :=
  match p with Blocks => f_bitmap w | Inums => f_inums w end.
Definition set_bitmap (p : pool) (bm : freeblock_bitmap) (w : fs_world) : fs_world :=
  match p with Blocks => w <| f_bitmap := bm |> | Inums => w <| f_inums := bm |> end.

(** [assert(it->is_free); it->is_free = false; ... erase(it)] for the first
    entry of a list. *)
Definition take_first (p : pool) (c : option Z) : fprog (option Z) :=
  act (λ w, let bm := bitmap_of p w in
            match list_of c bm with
            | [] => Next None w
            | b :: l =>
                match bit_vector bm !! Z.to_nat b with
                | Some x =>
                    if is_free x
                    then Next (Some b) (set_bitmap p
                           (set_list c l (bm <| bit_vector ::= <[Z.to_nat b := x <| is_free := false |>]> |>)) w)
                    else Crash
                | None => Crash
                end
            end).

(** The own list, the reserve, the lists of the other CPUs. *)
Definition alloc_from (p : pool) : fprog Z :=
  cpu ← frd f_cpu;
  r ← take_first p (Some cpu);
  match r with
  | Some b => mret b
  | None =>
      r ← take_first p None;
      match r with
      | Some b => mret b
      | None =>
          r ← loop (Z.to_nat NCPU) (λ fallback_cpu,
            if fallback_cpu mod NCPU =? cpu then mret (inr None) else
            r ← take_first p (Some (fallback_cpu mod NCPU));
            mret (match r with Some b => inr (Some b) | None => inl (fallback_cpu + 1) end)) (cpu + 1);
          match r with Some b => mret b | None => panic end
      end
  end.

Definition alloc_block : fprog Z := alloc_from Blocks.
Definition alloc_inode_number : fprog Z := alloc_from Inums.

(** [back]: whether the entry goes to the end of its list. *)
Definition free_to (p : pool) (back : bool) (b : Z) : fprog unit :=
  act (λ w, let bm := bitmap_of p w in
            match bit_vector bm !! Z.to_nat b with
            | Some x =>
                if is_free x then Crash else
                let c := if fb_cpu x <? NCPU then Some (fb_cpu x) else None in
                let l := list_of c bm in
                Next () (set_bitmap p
                  (set_list c (if back then l ++ [b] else b :: l)
                    (bm <| bit_vector ::= <[Z.to_nat b := x <| is_free := true |>]> |>)) w)
            | None => Crash
            end).

Definition free_block (bno : Z) : fprog unit := free_to Blocks true bno.
Definition free_inode_number (inum : Z) : fprog unit := free_to Inums false inum.

(** ** From the bitmap on the disk *)

(** Whether bit [bi] of a bitmap block is clear. *)
Definition bit_clear (data : list Z) (bi : Z) : bool := negb (Z.testbit (u8_at data (bi / 8)) (bi mod 8)).

(** The bits of all blocks, and the first block of the first bitmap block that
    starts with a free one. *)
Definition read_bits : fprog (list bool * Z) :=
  sb ← frd f_sb;
  r ← iterate (Z.to_nat ((sb_size sb + BPB - 1) / BPB)) (λ '(b, bits, first),
    let blk := BBLOCK b (sb_ninodes sb) in
    buf_get (1, blk) false;;
    data ← buf_read (1, blk);
    let nbits := Z.min BPB (sb_size sb - b) in
    mret (b + BPB, bits ++ ((λ bi, bit_clear data bi) <$> seqZ 0 nbits),
          if (first =? 0) && bit_clear data 0 then b else first)) (0, [], 0);
  mret (r.1.2, r.2).

(** Block [bno] goes to the list [c]. *)
Definition hand_out (c : option Z) (bm : freeblock_bitmap) (bno : Z) : option freeblock_bitmap :=
  match bit_vector bm !! Z.to_nat bno with
  | None => None
  | Some x =>
      let bm := bm <| bit_vector ::= <[Z.to_nat bno := x <| fb_cpu := default NCPU c |>]> |> in
      Some (if is_free x then set_list c (list_of c bm ++ [bno]) bm else bm)
  end.

Fixpoint hand_out_all (l : list (option Z * Z)) (bm : freeblock_bitmap) : option freeblock_bitmap :=
  match l with
  | [] => Some bm
  | (c, bno) :: l => bm ← hand_out c bm bno; hand_out_all l bm
  end.

(** Who gets which block: [size] blocks, with the CPUs' from block [first] on. *)
Definition shares (size first : Z) : list (option Z * Z) :=
  let nbitblocks := size / BPB - first / BPB in
  let bitblocks_per_cpu := nbitblocks / NCPU in
  let bits_per_cpu := bitblocks_per_cpu * BPB in
  (cpu ← seqZ 0 NCPU; (λ bno, (Some cpu, bno + first)) <$> seqZ (cpu * bits_per_cpu) bits_per_cpu) ++
  (if NCPU * bitblocks_per_cpu <? nbitblocks
   then (λ bno, (None, bno + first)) <$> seqZ (NCPU * bits_per_cpu) (size - first - NCPU * bits_per_cpu) else []) ++
  ((λ bno, (None, bno)) <$> seqZ 0 first).

(** A new [free_bit] has no CPU yet: [u] is what is in its memory. *)
Definition initialize_freeblock_bitmap (u : Z) : fprog unit :=
  r ← read_bits;
  sb ← frd f_sb;
  match hand_out_all (shares (sb_size sb) r.2) (FreeblockBitmap (FreeBit u <$> r.1) ∅ []) with
  | Some bm => fwr (λ w, w <| f_bitmap := bm |>)
  | None => panic
  end.

(** ** Free inodes, from the inode blocks *)

(** The type of inode [i] of a block of inodes. *)
Definition dinode_type (data : list Z) (i : Z) : Z := u16_at data (64 * i).

(** Whether the inodes are free, and the first inode of the first block that
    starts with a free one. *)
Definition read_inums : fprog (list bool * Z) :=
  sb ← frd f_sb;
  r ← iterate (Z.to_nat ((sb_ninodes sb + IPB - 1) / IPB)) (λ '(inum, l, first),
    buf_get (1, IBLOCK inum) false;;
    data ← buf_read (1, IBLOCK inum);
    let ninums := Z.min IPB (sb_ninodes sb - inum) in
    mret (inum + IPB, l ++ ((λ i, dinode_type data ((inum + i) mod IPB) =? 0) <$> seqZ 0 ninums),
          if (first =? 0) && (dinode_type data (inum mod IPB) =? 0) then inum else first)) (0, [], 0);
  mret (r.1.2, r.2).

(** Who gets which inode.  The loops skip their index 0, whatever [first] is. *)
Definition inum_shares (ninodes first : Z) : list (option Z * Z) :=
  let ninodeblocks := ninodes / IPB - first / IPB in
  let inodeblocks_per_cpu := ninodeblocks / NCPU in
  let inums_per_cpu := inodeblocks_per_cpu * IPB in
  (cpu ← seqZ 0 NCPU;
   (λ i, (Some cpu, i + first)) <$> filter (λ i, i ≠ 0) (seqZ (cpu * inums_per_cpu) inums_per_cpu)) ++
  (if NCPU * inodeblocks_per_cpu <? ninodeblocks
   then (λ i, (None, i + first)) <$> filter (λ i, i ≠ 0) (seqZ (NCPU * inums_per_cpu) (ninodes - first - NCPU * inums_per_cpu))
   else []) ++
  ((λ i, (None, i)) <$> seqZ 1 (first - 1)).

Definition initialize_freeinum_bitmap (u : Z) : fprog unit :=
  r ← read_inums;
  sb ← frd f_sb;
  match hand_out_all (inum_shares (sb_ninodes sb) r.2) (FreeblockBitmap (FreeBit u <$> r.1) ∅ []) with
  | Some bm => fwr (λ w, w <| f_inums := bm |>)
  | None => panic
  end.

(** ** The bitmap on the disk *)

(** One block in its bitmap block: [None] is a panic. *)
Definition flip_bit (alloc : bool) (data : list Z) (bno : Z) : option (list Z) :=
  let bi := bno mod BPB in
  let m := 2 ^ (bi mod 8) in
  let x := u8_at data (bi / 8) in
  if alloc
  then if Z.land x m =? 0 then Some (splice data (bi / 8) [Z.lor x m]) else None
  else if Z.land x m =? 0 then None else Some (splice data (bi / 8) [Z.ldiff x m]).

(** The blocks from the front of a list whose bits are in one bitmap block. *)
Fixpoint flip_bits (alloc : bool) (max_bno : Z) (l : list Z) (data : list Z) : option (list Z * list Z) :=
  match l with
  | bno :: l' =>
      if bno <=? max_bno
      then data ← flip_bit alloc data bno; flip_bits alloc max_bno l' data
      else Some (l, data)
  | [] => Some ([], data)
  end.

(** The loop ends within as many rounds as there are blocks. *)
Definition balloc_free_on_disk (l : list Z) (t : Z) (alloc : bool) : fprog unit :=
  sb ← frd f_sb;
  loop (S (length l)) (λ l,
    match l with
    | [] => mret (inr ())
    | bno :: l' =>
        let k := (1, BBLOCK bno (sb_ninodes sb)) in
        buf_get k false;;
        buf_write k;;
        data ← buf_read k;
        match data1 ← flip_bit alloc data bno; flip_bits alloc (Z.lor bno (BPB - 1)) l' data1 with
        | None => panic
        | Some (l, data) => buf_store k data;; add_to_transaction k t;; mret (inl l)
        end
    end) l.
