(* ===== verification/FsInode.v ===== *)
(** * Inodes and their blocks ([kernel/fs.cc], [include/fs.h])

    Allocation of blocks, the block map with its indirect blocks, reading and
    writing of contents, truncation, and the copy of an inode on the disk.

    A function that may throw [out_of_blocks] returns [None] then.  Inodes are
    used under [ilock] and buffers under their own locks, which the callers
    hold; buffers stay in the cache while they are in use. *)

From S2P Require Import Prelude FsBytes FsWorld FsDisk FsTrans FsBlocks.

(** [x ←? m; k]: an exception in [m] is passed on. *)
Definition try_bind {A B} (m : fprog (option A)) (f : A → fprog (option B)) : fprog (option B) :=
  r ← m; match r with Some a => f a | None => mret None end.
Notation "x ←? m ; k" := (try_bind m (λ x, k)) (at level 100, m at level 50, k at level 200, right associativity).

(** ** Blocks *)

Definition bzero (dev bno : Z) (writeback : bool) : fprog unit :=
  buf_get (dev, bno) true;;
  buf_write (dev, bno);;
  buf_store (dev, bno) zero_block;;
  when writeback (buf_writeback (dev, bno)).

Definition balloc (dev t : Z) (zero_on_alloc : bool) : fprog (option Z) :=
  if dev =? 1 then
    b ← alloc_block;
    sb ← frd f_sb;
    if b <? sb_size sb then
      when (truth t) (add_allocated_block t b);;
      when zero_on_alloc (bzero dev b false);;
      mret (Some b)
    else mret None
  else mret None.

Definition bfree (dev x t : Z) (delayed_free : bool) : fprog unit :=
  let b := wrap32 x in
  if dev =? 1 then
    when (negb delayed_free) (free_block b);;
    when (truth t) (add_free_block t b)
  else mret ().

(** ** The block map *)

Definition addr_at (i k : Z) : fprog Z := ip_get (λ x, addrs x !!! Z.to_nat k) i.
Definition set_addr (i k v : Z) : fprog unit := ip_upd i (λ x, x <| addrs ::= <[Z.to_nat k := v]> |>).

(** [if (ip->addrs[k] == 0) ip->addrs[k] = balloc(...)]: whether there is a new
    block now. *)
Definition need_addr (i dev k t : Z) (zero : bool) : fprog (option bool) :=
  a ← addr_at i k;
  if a =? 0 then b ←? balloc dev t zero; set_addr i k b;; mret (Some true)
  else mret (Some false).

(** The same for [ap[n]] in the buffer [k]; the buffer is logged when it has
    changed. *)
Definition log_buf (k : Z * Z) (t : Z) (lazy : bool) : fprog unit :=
  when (truth t) (if lazy then add_blocknum_to_transaction k t else add_to_transaction k t).

Definition need_word (k : Z * Z) (n t : Z) (zero lazy : bool) : fprog (option bool) :=
  data ← buf_read k;
  if word_at data n =? 0 then
    b ←? balloc k.1 t zero;
    data ← buf_read k;
    buf_store k (set_word data n b);;
    log_buf k t lazy;;
    mret (Some true)
  else mret (Some false).

Definition read_word (k : Z * Z) (n : Z) : fprog Z := data ← buf_read k; mret (word_at data n).

Definition bmap (i bn t : Z) (zero_on_alloc lazy_trans_update : bool) : fprog (option Z) :=
  dev ← ip_get dev i;
  if bn <? NDIRECT then
    _ ←? need_addr i dev bn t zero_on_alloc;
    a ← addr_at i bn; mret (Some a)
  else
  let bn := bn - NDIRECT in
  if bn <? NINDIRECT then
    skip_disk_read ←? need_addr i dev NDIRECT t true;
    a ← addr_at i NDIRECT;
    buf_get (dev, a) skip_disk_read;;
    buf_write (dev, a);;
    _ ←? need_word (dev, a) bn t zero_on_alloc lazy_trans_update;
    b ← read_word (dev, a) bn; mret (Some b)
  else
  let bn := bn - NINDIRECT in
  if NINDIRECT * NINDIRECT <=? bn then panic else
  skip_disk_read ←? need_addr i dev (NDIRECT + 1) t true;
  a ← addr_at i (NDIRECT + 1);
  buf_get (dev, a) skip_disk_read;;
  buf_write (dev, a);;
  skip_disk_read ←? need_word (dev, a) (bn / NINDIRECT) t true lazy_trans_update;
  a2 ← read_word (dev, a) (bn / NINDIRECT);
  buf_get (dev, a2) skip_disk_read;;
  buf_write (dev, a2);;
  _ ←? need_word (dev, a2) (bn mod NINDIRECT) t zero_on_alloc lazy_trans_update;
  b ← read_word (dev, a2) (bn mod NINDIRECT); mret (Some b).

(** ** Contents *)

(** The bytes read, or [None] for [-1]. *)
Definition readi (i off n : Z) : fprog (option (list Z)) :=
  ty ← ip_get itype i;
  if ty =? T_DEV then mret None else
  sz ← ip_get size i;
  if (sz <? off) || (wrap32 (off + n) <? off) then mret None else
  let n := if sz <? wrap32 (off + n) then sz - off else n in
  loop (Z.to_nat (n / BSIZE + 3)) (λ '(tot, off, dst),
    if tot <? n then
      r ← bmap i (off / BSIZE) 0 true false;
      match r with
      | None => panic
      | Some b =>
          dev ← ip_get dev i;
          buf_get (dev, b) false;;
          let m := Z.min (n - tot) (BSIZE - off mod BSIZE) in
          data ← buf_read (dev, b);
          mret (inl (tot + m, off + m, dst ++ slice data (off mod BSIZE) m))
      end
    else mret (inr (Some dst))) (0, off, []).

(** One block of [writei]: [false] when there was none left. *)
Definition writei_block (i : Z) (src : list Z) (off m tot t : Z) (writeback lazy dont_cache : bool) : fprog bool :=
  let skip_disk_read := (off mod BSIZE =? 0) && (m =? BSIZE) in
  dev ← ip_get dev i;
  r ← bmap i (off / BSIZE) t (negb skip_disk_read) lazy;
  match r with
  | None => mret false
  | Some b =>
      when (negb dont_cache) (
        buf_get (dev, b) skip_disk_read;;
        buf_write (dev, b);;
        data ← buf_read (dev, b);
        buf_store (dev, b) (splice data (off mod BSIZE) (slice src tot m));;
        when (negb writeback) (log_buf (dev, b) t lazy));;
      when writeback (
        (* the queue takes a whole block from the source *)
        fassert (Z.of_nat (length (slice src tot BSIZE)) =? BSIZE);;
        write_block t (slice src tot BSIZE) b);;
      mret true
  end.

Definition writei (i : Z) (src : list Z) (off n t : Z) (writeback lazy dont_cache : bool) : fprog Z :=
  ty ← ip_get itype i;
  if ty =? T_DEV then mret (-1) else
  if wrap32 (off + n) <? off then mret (-1) else
  let n := if MAXFILE * BSIZE <? wrap32 (off + n) then wrap32 (MAXFILE * BSIZE - off) else n in
  loop (Z.to_nat (n / BSIZE + 3)) (λ '(tot, off),
    if tot <? n then
      let m := Z.min (n - tot) (BSIZE - off mod BSIZE) in
      ok ← writei_block i src off m tot t writeback lazy dont_cache;
      mret (if (ok : bool) then inl (tot + m, off + m) else inr (if tot =? 0 then -1 else tot))
    else mret (inr tot)) (0, off).

(** ** Truncation *)

Definition BLOCKROUNDUP (off : Z) : Z := if truth (off mod BSIZE) then off / BSIZE + 1 else off / BSIZE.

(** The direct blocks from [k] on, up to the first that is not there. *)
Definition trunc_direct (i dev k t : Z) : fprog unit :=
  loop (Z.to_nat (NDIRECT - k + 1)) (λ k,
    if k <? NDIRECT then
      a ← addr_at i k;
      if a =? 0 then mret (inr ()) else
      bfree dev a t true;;
      set_addr i k 0;;
      mret (inl (k + 1))
    else mret (inr ())) k.

(** The blocks in a block of addresses, from entry [n] on. *)
Definition trunc_words (k : Z * Z) (n t : Z) : fprog unit :=
  loop (Z.to_nat (NINDIRECT - n + 1)) (λ n,
    if n <? NINDIRECT then
      data ← buf_read k;
      if word_at data n =? 0 then mret (inr ()) else
      bfree k.1 (word_at data n) t true;;
      data ← buf_read k;
      buf_store k (set_word data n 0);;
      mret (inl (n + 1))
    else mret (inr ())) n.

(** [false]: there is no indirect block, and the [switch] is left. *)
Definition trunc_indirect (i dev start_index t : Z) : fprog bool :=
  a ← addr_at i NDIRECT;
  if a =? 0 then mret false else
  buf_get (dev, a) false;;
  buf_write (dev, a);;
  trunc_words (dev, a) start_index t;;
  when (truth start_index) (add_to_transaction (dev, a) t);;
  when (negb (truth start_index)) (
    a ← addr_at i NDIRECT; bfree dev a t true;; set_addr i NDIRECT 0);;
  mret true.

Definition trunc_dbl_indirect (i dev start_index t : Z) : fprog unit :=
  a ← addr_at i (NDIRECT + 1);
  if a =? 0 then mret () else
  let k1 := (dev, a) in
  buf_get k1 false;;
  buf_write k1;;
  loop (Z.to_nat (NINDIRECT - start_index / NINDIRECT + 1)) (λ '(j, begin),
    if j <? NINDIRECT then
      a2 ← read_word k1 j;
      if a2 =? 0 then mret (inr ()) else
      let k2 := (dev, a2) in
      buf_get k2 false;;
      buf_write k2;;
      trunc_words k2 (begin mod NINDIRECT) t;;
      first ← read_word k2 0;
      when (first =? 0) (add_to_transaction k2 t);;
      when (begin mod NINDIRECT =? 0) (
        bfree dev a2 t true;;
        data ← buf_read k1;
        buf_store k1 (set_word data j 0));;
      mret (inl (j + 1, 0))
    else mret (inr ())) (start_index / NINDIRECT, start_index);;
  when (truth start_index) (add_to_transaction k1 t);;
  when (negb (truth start_index)) (
    a ← addr_at i (NDIRECT + 1); bfree dev a t true;; set_addr i (NDIRECT + 1) 0).

Definition itrunc (i offset t : Z) : fprog unit :=
  sz ← ip_get size i;
  if (sz <=? offset) || (MAXFILE * BSIZE <=? offset) then mret () else
  let bn := BLOCKROUNDUP offset in
  dev ← ip_get dev i;
  (if bn <? NDIRECT then
     trunc_direct i dev bn t;;
     more ← trunc_indirect i dev 0 t;
     when more (trunc_dbl_indirect i dev 0 t)
   else if bn <? NDIRECT + NINDIRECT then
     more ← trunc_indirect i dev (bn - NDIRECT) t;
     when more (trunc_dbl_indirect i dev 0 t)
   else if bn <? NDIRECT + NINDIRECT + NINDIRECT * NINDIRECT then
     trunc_dbl_indirect i dev (bn - NDIRECT - NINDIRECT) t
   else
     (* [start_stage] and [start_index] keep their initial values *)
     trunc_direct i dev 0 t;;
     more ← trunc_indirect i dev 0 t;
     when more (trunc_dbl_indirect i dev 0 t));;
  l ← ip_get addrs i;
  (if offset =? 0 then fassert (forallb (Z.eqb 0) (take 12 l)) else mret ());;
  ip_upd i (λ x, x <| size := offset |>).

(** ** The inode on the disk *)

(** [struct dinode] *)
Definition dinode_bytes (x : inode) : list Z :=
  le_bytes 2 (itype x) ++ le_bytes 2 (major x) ++ le_bytes 2 (minor x) ++ le_bytes 2 (nlink_ x) ++
  le_bytes 4 (size x) ++ le_bytes 4 (gen x) ++ (addrs x ≫= le_bytes 4).

Definition iupdate (i t : Z) : fprog unit :=
  x ← ip_get id i;
  let k := (dev x, IBLOCK (inum x)) in
  buf_get k false;;
  buf_write k;;
  data ← buf_read k;
  buf_store k (splice data (64 * (inum x mod IPB)) (dinode_bytes x));;
  add_to_transaction k t.

(** A [short] read from its two bytes. *)
Definition short (x : Z) : Z := if x <? 2 ^ 15 then x else x - 2 ^ 16.

Definition inode_init (i : Z) : fprog unit :=
  x ← ip_get id i;
  let k := (dev x, IBLOCK (inum x)) in
  buf_get k false;;
  data ← buf_read k;
  let d := slice data (64 * (inum x mod IPB)) 64 in
  ip_upd i (λ x, x
    <| itype := short (u16_at d 0) |> <| major := short (u16_at d 2) |> <| minor := short (u16_at d 4) |>
    <| nlink_ := short (u16_at d 6) |> <| size := u32_at d 8 |> <| gen := u32_at d 12 |>
    <| addrs := (λ j, u32_at d (16 + 4 * j)) <$> seqZ 0 (NDIRECT + 2) |>).

Definition update_size (i sz t : Z) : fprog unit :=
  ip_upd i (λ x, x <| size := sz |>);; iupdate i t.

(** ** Locks *)

(** For writing and for reading. *)
Definition ilock_write (i : Z) : fprog unit :=
  act (λ w, match f_inodes w !! i with
            | Some x => if busy x || truth (readbusy x) then Wait
                        else Next () (w <| f_inodes ::= <[i := x <| busy := true |> <| readbusy ::= Z.succ |>]> |>)
            | None => Crash end).
Definition ilock_read (i : Z) : fprog unit :=
  act (λ w, match f_inodes w !! i with
            | Some x => if busy x then Wait else Next () (w <| f_inodes ::= <[i := x <| readbusy ::= Z.succ |>]> |>)
            | None => Crash end).
Definition iunlock (i : Z) : fprog unit :=
  b ← ip_get (λ x, truth (readbusy x) || busy x) i;
  if (b : bool) then ip_upd i (λ x, x <| readbusy ::= Z.pred |> <| busy := false |>) else panic.

(** ** Dropping the buffers of a file *)

Definition drop_words (k : Z * Z) (f : Z → fprog unit) : fprog unit :=
  buf_get k false;;
  data ← buf_read k;
  fold_each (seqZ 0 NINDIRECT) (λ j _, let a := word_at data j in when (truth a) (f a)) ();;
  buf_put k.

Definition drop_bufcache (i : Z) : fprog unit :=
  dev ← ip_get dev i;
  fold_each (seqZ 0 NDIRECT) (λ j _, a ← addr_at i j; when (truth a) (buf_put (dev, a))) ();;
  a ← addr_at i NDIRECT;
  c ← in_bufcache (dev, a);
  when (truth a && c) (drop_words (dev, a) (λ b, buf_put (dev, b)));;
  a ← addr_at i (NDIRECT + 1);
  c ← in_bufcache (dev, a);
  when (truth a && c) (drop_words (dev, a) (λ a2,
    c ← in_bufcache (dev, a2);
    when c (drop_words (dev, a2) (λ b, buf_put (dev, b))))).
