(* ===== verification/FsView.v ===== *)
(** * Blocks as the file system sees them

    The contents of a block are those of its buffer, or of the disk when it is
    not cached.  For a machine with one disk, what the accesses to buffers and
    the block map do to this view. *)

From S2P Require Import Prelude FsBytes FsWorld FsDisk FsTrans FsBlocks FsInode.

(** The contents of block [b] on the disk and in the file system. *)
Definition on_disk (w : fs_world) (b : Z) : list Z :=
  match f_disks w with [d] => disk_block d b | _ => [] end.
Definition cur (w : fs_world) (b : Z) : list Z :=
  match f_bufs w !! (1, b) with Some x => bdata x | None => on_disk w b end.

Definition one_disk (w : fs_world) : Prop := ∃ d, f_disks w = [d].

(** Block numbers are [u32]. *)
Definition blkno (b : Z) : Prop := 0 ≤ b < 4294967296.

(** [w'] differs from [w] in buffers and in the inputs taken. *)
Definition quiet (w w' : fs_world) : Prop := w' = w <| f_bufs := f_bufs w' |> <| f_tick := f_tick w' |>.

Lemma quiet_refl w : quiet w w.
Proof. unfold quiet. by destruct w. Qed.
Lemma quiet_trans w1 w2 w3 : quiet w1 w2 → quiet w2 w3 → quiet w1 w3.
Proof. unfold quiet. intros E2 E3. rewrite {1}E3 {1}E2. by destruct w1. Qed.

#[export] Instance quiet_preorder : PreOrder quiet.
Proof. split; [exact quiet_refl|exact quiet_trans]. Qed.

Section fields.
Context (w w' : fs_world) (H : quiet w w').

Lemma quiet_disks : f_disks w' = f_disks w.
Proof using H. rewrite H. by destruct w. Qed.
Lemma quiet_trans_eq : f_trans w' = f_trans w.
Proof using H. rewrite H. by destruct w. Qed.
Lemma quiet_inodes : f_inodes w' = f_inodes w.
Proof using H. rewrite H. by destruct w. Qed.
Lemma quiet_journals : f_journals w' = f_journals w.
Proof using H. rewrite H. by destruct w. Qed.
Lemma quiet_next : f_next w' = f_next w.
Proof using H. rewrite H. by destruct w. Qed.
Lemma quiet_bitmap : f_bitmap w' = f_bitmap w.
Proof using H. rewrite H. by destruct w. Qed.
Lemma quiet_sb : f_sb w' = f_sb w.
Proof using H. rewrite H. by destruct w. Qed.
Lemma quiet_cpu : f_cpu w' = f_cpu w.
Proof using H. rewrite H. by destruct w. Qed.
Lemma quiet_junk : f_junk w' = f_junk w.
Proof using H. rewrite H. by destruct w. Qed.
Lemma quiet_on_disk b : on_disk w' b = on_disk w b.
Proof using H. unfold on_disk. by rewrite quiet_disks. Qed.
End fields.

Lemma quiet_bufs w m : quiet w (w <| f_bufs := m |>).
Proof. unfold quiet. by destruct w. Qed.

(** ** Buffers *)

Lemma run_disk_read w d b :
  f_disks w = [d] → blkno b → run (disk_read (wrap64 (b * BSIZE))) w = Done (disk_block d b) w.
Proof.
  intros Hd Hb. unfold disk_read. rewrite (run_bind_done _ _ _ _ _ (run_num_disks _ _ Hd)).
  rewrite wrap64_small; [unfold blkno, BSIZE, ULONG_MAX in *; lia|].
  rewrite Z.div_mul // wrap32_small //. pose proof (place_one b) as [= -> ->]. by rewrite run_act Hd.
Qed.

(** What [w'] keeps of [w]: all but buffers and inputs, and the contents of
    all blocks but [b]. *)
Definition keeps_view (w w' : fs_world) (b : Z) : Prop := quiet w w' ∧ ∀ c, c ≠ b → cur w' c = cur w c.

Lemma cur_insert w b x c :
  cur (w <| f_bufs ::= <[(1, b) := x]> |>) c = if decide (c = b) then bdata x else cur w c.
Proof.
  unfold cur. change (f_bufs (w <| f_bufs ::= <[(1, b) := x]> |>)) with (<[(1, b) := x]> (f_bufs w)).
  destruct (decide (c = b)) as [->|]; [by rewrite lookup_insert_eq|]. rewrite lookup_insert_ne; [congruence|].
  by destruct w.
Qed.

Lemma cur_buf w b x : f_bufs w !! (1, b) = Some x → cur w b = bdata x.
Proof. intros E. unfold cur. by rewrite E. Qed.

Lemma run_buf_get w b :
  one_disk w → blkno b →
  ∃ w' x, run (buf_get (1, b) false) w = Done () w' ∧ quiet w w' ∧ (∀ c, cur w' c = cur w c) ∧
    f_bufs w' !! (1, b) = Some x.
Proof.
  intros [d Hd] Hb. unfold buf_get. rewrite (run_bind_done _ _ _ _ _ (run_frd _ _)).
  destruct (f_bufs w !! (1, b)) as [x|] eqn:E.
  { exists w, x. split_and!; done. }
  simpl. rewrite (run_bind_done _ _ _ _ _ (run_disk_read _ _ _ Hd Hb)) run_fwr.
  eexists _, _. split; [done|]. split_and!; [unfold quiet; by destruct w| |apply lookup_insert_eq].
  intros c. rewrite cur_insert. case_decide as Ec; [|done]. subst c. unfold cur. rewrite E. unfold on_disk. by rewrite Hd.
Qed.

(** When the block is going to be overwritten. *)
Lemma run_buf_get_skip w b :
  one_disk w → blkno b →
  ∃ w' x, run (buf_get (1, b) true) w = Done () w' ∧ keeps_view w w' b ∧ f_bufs w' !! (1, b) = Some x ∧
    (cur w' b = cur w b ∨ cur w' b = f_junk w (f_tick w)).
Proof.
  intros [d Hd] Hb. unfold buf_get. rewrite (run_bind_done _ _ _ _ _ (run_frd _ _)).
  destruct (f_bufs w !! (1, b)) as [x|] eqn:E.
  { exists w, x. split_and!; try done. by left. }
  simpl. rewrite (run_bind_done _ _ _ _ _ (run_uninit _)) run_fwr.
  eexists _, _. split; [done|]. split_and!; [split|apply lookup_insert_eq|].
  - unfold quiet. by destruct w.
  - intros c Hc. rewrite cur_insert decide_False //.
  - right. rewrite cur_insert decide_True //.
Qed.

Lemma run_buf_upd w k f x :
  f_bufs w !! k = Some x → run (buf_upd k f) w = Done () (w <| f_bufs ::= <[k := f x]> |>).
Proof. intros E. by rewrite /buf_upd run_act E. Qed.

Lemma run_buf_read w k x : f_bufs w !! k = Some x → run (buf_read k) w = Done (bdata x) w.
Proof. intros E. by rewrite /buf_read run_act E. Qed.

Lemma run_buf_write w b x :
  f_bufs w !! (1, b) = Some x →
  ∃ w', run (buf_write (1, b)) w = Done () w' ∧ quiet w w' ∧ (∀ c, cur w' c = cur w c) ∧
    f_bufs w' !! (1, b) = Some (x <| bdirty := true |>).
Proof.
  intros E. unfold buf_write. rewrite (run_buf_upd _ _ _ _ E). eexists. split; [done|].
  split_and!; [unfold quiet; by destruct w| |apply lookup_insert_eq].
  intros c. rewrite cur_insert. case_decide as Ec; [|done]. subst c. by rewrite (cur_buf _ _ _ E).
Qed.

Lemma run_buf_store w b x data :
  f_bufs w !! (1, b) = Some x →
  ∃ w', run (buf_store (1, b) data) w = Done () w' ∧ keeps_view w w' b ∧
    f_bufs w' !! (1, b) = Some (x <| bdata := data |>) ∧ cur w' b = data.
Proof.
  intros E. unfold buf_store. rewrite (run_buf_upd _ _ _ _ E). eexists. split; [done|].
  split_and!; [split; [unfold quiet; by destruct w|]|apply lookup_insert_eq|].
  - intros c Hc. rewrite cur_insert decide_False //.
  - rewrite cur_insert decide_True //.
Qed.

(** [buf::get] with [write()]. *)
Lemma run_buf_open w b :
  one_disk w → blkno b →
  ∃ w' x, run (buf_get (1, b) false;; buf_write (1, b)) w = Done () w' ∧ quiet w w' ∧
    (∀ c, cur w' c = cur w c) ∧ f_bufs w' !! (1, b) = Some x ∧ bdata x = cur w b.
Proof.
  intros Hd Hb. destruct (run_buf_get w b Hd Hb) as (w1 & x & Hr & Hq & Hc & Hx).
  rewrite (run_bind_done _ _ _ _ _ Hr).
  destruct (run_buf_write w1 b x Hx) as (w2 & Hr2 & Hq2 & Hc2 & Hx2).
  exists w2, (x <| bdirty := true |>). split_and!; [done|by etrans| |done|].
  - intros c. by rewrite Hc2 Hc.
  - rewrite -Hc. by rewrite (cur_buf _ _ _ Hx).
Qed.

(** ** The block map *)

Lemma run_try_done {A B} (m : fprog (option A)) (f : A → fprog (option B)) w a w' :
  run m w = Done (Some a) w' → run (try_bind m f) w = run (f a) w'.
Proof. intros H. unfold try_bind. by rewrite (run_bind_done _ _ _ _ _ H). Qed.

(** The words in block [b]. *)
Definition ptr_at (w : fs_world) (b n : Z) : Z := if b =? 0 then 0 else word_at (cur w b) n.

(** The block with the contents of the file from [bn * BSIZE] on; 0 if there
    is none. *)
Definition file_block (w : fs_world) (x : inode) (bn : Z) : Z :=
  if bn <? NDIRECT then addrs x !!! Z.to_nat bn
  else if bn <? NDIRECT + NINDIRECT then ptr_at w (addrs x !!! 10%nat) (bn - NDIRECT)
  else let bn := bn - NDIRECT - NINDIRECT in
       ptr_at w (ptr_at w (addrs x !!! 11%nat) (bn / NINDIRECT)) (bn mod NINDIRECT).

Lemma run_addr_at w i x k : f_inodes w !! i = Some x → run (addr_at i k) w = Done (addrs x !!! Z.to_nat k) w.
Proof. intros E. unfold addr_at. by rewrite (run_ip_get _ _ _ _ E). Qed.

Lemma run_need_addr_old w i x k t z :
  f_inodes w !! i = Some x → addrs x !!! Z.to_nat k ≠ 0 → run (need_addr i 1 k t z) w = Done (Some false) w.
Proof.
  intros E H. unfold need_addr. rewrite (run_bind_done _ _ _ _ _ (run_addr_at _ _ _ _ E)).
  by destruct (Z.eqb_spec (addrs x !!! Z.to_nat k) 0).
Qed.

Lemma run_read_word w k x n : f_bufs w !! k = Some x → run (read_word k n) w = Done (word_at (bdata x) n) w.
Proof. intros E. unfold read_word. by rewrite (run_bind_done _ _ _ _ _ (run_buf_read _ _ _ E)). Qed.

Lemma run_need_word_old w k x n t z lz :
  f_bufs w !! k = Some x → word_at (bdata x) n ≠ 0 → run (need_word k n t z lz) w = Done (Some false) w.
Proof.
  intros E H. unfold need_word. rewrite (run_bind_done _ _ _ _ _ (run_buf_read _ _ _ E)).
  by destruct (Z.eqb_spec (word_at (bdata x) n) 0).
Qed.

(** A block of addresses that is there, with the entry [n]. *)
Lemma run_through w a n t z lz :
  one_disk w → blkno a → word_at (cur w a) n ≠ 0 →
  ∃ w', quiet w w' ∧ (∀ c, cur w' c = cur w c) ∧ ∀ A (k : bool → Z → fprog (option A)),
    run (buf_get (1, a) false;; buf_write (1, a);; s ←? need_word (1, a) n t z lz; b ← read_word (1, a) n; k s b) w =
    run (k false (word_at (cur w a) n)) w'.
Proof.
  intros Hd Ha Hn. destruct (run_buf_open w a Hd Ha) as (w' & x & Hr & Hq & Hc & Hx & Ex).
  exists w'. split_and!; [done..|]. intros A k. rewrite run_bind in Hr.
  rewrite run_bind. destruct (run (buf_get (1, a) false) w) as [u w1| | |]; try done. simpl in *.
  rewrite (run_bind_done _ _ _ _ _ Hr). erewrite run_try_done; [|apply (run_need_word_old _ _ _ _ _ _ _ Hx); by rewrite Ex].
  rewrite (run_bind_done _ _ _ _ _ (run_read_word _ _ _ _ Hx)). by rewrite Ex.
Qed.

(** The blocks of the block map of [x] on the way to block [bn]. *)
Definition path_ok (w : fs_world) (x : inode) (bn : Z) : Prop :=
  blkno (file_block w x bn) ∧ blkno (addrs x !!! 10%nat) ∧ blkno (addrs x !!! 11%nat) ∧
  blkno (ptr_at w (addrs x !!! 11%nat) ((bn - NDIRECT - NINDIRECT) / NINDIRECT)).

Lemma ptr_at_nonzero w b n : ptr_at w b n ≠ 0 → b ≠ 0 ∧ ptr_at w b n = word_at (cur w b) n.
Proof. unfold ptr_at. by destruct (Z.eqb_spec b 0). Qed.

Lemma run_bmap_old w i x bn t z lz :
  one_disk w → f_inodes w !! i = Some x → dev x = 1 → 0 ≤ bn < MAXFILE →
  path_ok w x bn → file_block w x bn ≠ 0 →
  ∃ w', run (bmap i bn t z lz) w = Done (Some (file_block w x bn)) w' ∧ quiet w w' ∧ ∀ c, cur w' c = cur w c.
Proof.
  intros Hd Hx Hdev Hbn (Hb & Hp10 & Hp11 & Hp2) Hne. unfold bmap.
  rewrite (run_bind_done _ _ _ _ _ (run_ip_get _ _ _ _ Hx)) Hdev.
  unfold file_block in *. destruct (Z.ltb_spec bn NDIRECT).
  { exists w. split_and!; [|done..]. erewrite run_try_done; [|by apply run_need_addr_old with x].
    by rewrite (run_bind_done _ _ _ _ _ (run_addr_at _ _ _ _ Hx)). }
  destruct (Z.ltb_spec bn (NDIRECT + NINDIRECT)).
  - destruct (ptr_at_nonzero _ _ _ Hne) as [Ha Ew]. rewrite Ew. destruct (Z.ltb_spec (bn - NDIRECT) NINDIRECT); [|lia].
    erewrite run_try_done; [|by apply run_need_addr_old with x].
    rewrite (run_bind_done _ _ _ _ _ (run_addr_at _ _ _ _ Hx)).
    destruct (run_through w (addrs x !!! 10%nat) (bn - NDIRECT) t z lz) as (w' & Hq & Hc & Hr);
      [done..|by rewrite -Ew|].
    exists w'. split_and!; [|done..]. apply Hr.
  - destruct (ptr_at_nonzero _ _ _ Hne) as [Ha2 Ew2]. destruct (ptr_at_nonzero _ _ _ Ha2) as [Ha Ew].
    rewrite Ew2. destruct (Z.ltb_spec (bn - NDIRECT) NINDIRECT); [lia|].
    destruct (Z.leb_spec (NINDIRECT * NINDIRECT) (bn - NDIRECT - NINDIRECT)); [unfold MAXFILE in *; lia|].
    erewrite run_try_done; [|by apply run_need_addr_old with x].
    rewrite (run_bind_done _ _ _ _ _ (run_addr_at _ _ _ _ Hx)).
    set (a2 := ptr_at w (addrs x !!! 11%nat) ((bn - NDIRECT - NINDIRECT) / NINDIRECT)) in *.
    edestruct (run_through w (addrs x !!! 11%nat) ((bn - NDIRECT - NINDIRECT) / NINDIRECT) t true lz) as (w1 & Hq1 & Hc1 & Hr1);
      [done..|by rewrite -Ew|]. cbv zeta. rewrite Hr1 -Ew. fold a2.
    edestruct (run_through w1 a2 ((bn - NDIRECT - NINDIRECT) mod NINDIRECT) t z lz) as (w2 & Hq2 & Hc2 & Hr2).
    { destruct Hd as [d Hd]. exists d. by rewrite (quiet_disks _ _ Hq1). }
    { done. }
    { by rewrite Hc1 -Ew2. }
    exists w2. split_and!; [|by etrans|intros c; by rewrite Hc2 Hc1]. rewrite -Hc1. apply Hr2.
Qed.

(** ** Whole blocks *)

(** [w'] differs from [w] in buffers, inputs and transactions. *)
Definition stir (w w' : fs_world) : Prop :=
  w' = w <| f_bufs := f_bufs w' |> <| f_tick := f_tick w' |> <| f_trans := f_trans w' |>.

Lemma stir_refl w : stir w w.
Proof. unfold stir. by destruct w. Qed.
Lemma stir_trans w1 w2 w3 : stir w1 w2 → stir w2 w3 → stir w1 w3.
Proof. unfold stir. intros E2 E3. rewrite {1}E3 {1}E2. by destruct w1. Qed.
#[export] Instance stir_preorder : PreOrder stir.
Proof. split; [exact stir_refl|exact stir_trans]. Qed.

Lemma quiet_stir w w' : quiet w w' → stir w w'.
Proof. unfold quiet, stir. intros E. rewrite {1}E. rewrite (quiet_trans_eq _ _ E). by destruct w. Qed.

Section stirred.
Context (w w' : fs_world) (H : stir w w').

Lemma stir_disks : f_disks w' = f_disks w.
Proof using H. rewrite H. by destruct w. Qed.
Lemma stir_inodes : f_inodes w' = f_inodes w.
Proof using H. rewrite H. by destruct w. Qed.
Lemma stir_journals : f_journals w' = f_journals w.
Proof using H. rewrite H. by destruct w. Qed.
Lemma stir_next : f_next w' = f_next w.
Proof using H. rewrite H. by destruct w. Qed.
Lemma stir_junk : f_junk w' = f_junk w.
Proof using H. rewrite H. by destruct w. Qed.
Lemma stir_on_disk b : on_disk w' b = on_disk w b.
Proof using H. unfold on_disk. by rewrite stir_disks. Qed.
End stirred.

Lemma one_disk_eq w w' : f_disks w' = f_disks w → one_disk w → one_disk w'.
Proof. intros E [d Hd]. exists d. by rewrite E. Qed.

(** The block [b] with [data] is logged in transaction [t]. *)
Definition log_block (x : transaction) (b : Z) (data : list Z) (ts : Z) : transaction :=
  x <| blocks ::= λ l, l ++ [DiskBlock b data ts] |>.

Lemma run_add_to_transaction w b x t tx :
  f_bufs w !! (1, b) = Some x → f_trans w !! t = Some tx →
  ∃ w', run (add_to_transaction (1, b) t) w = Done () w' ∧ stir w w' ∧ (∀ c, cur w' c = cur w c) ∧
    f_trans w' = <[t := log_block tx b (bdata x) (f_tsc w (f_tick w))]> (f_trans w).
Proof.
  intros Hx Ht. unfold add_to_transaction, mark_clean, add_block.
  rewrite (run_bind_done _ _ _ _ _ (run_buf_upd _ _ _ _ Hx)).
  set (w1 := w <| f_bufs ::= <[(1, b) := x <| bdirty := false |>]> |>).
  assert (f_bufs w1 !! (1, b) = Some (x <| bdirty := false |>)) as Hx1 by apply lookup_insert_eq.
  rewrite (run_bind_done _ _ _ _ _ (run_buf_read _ _ _ Hx1)) (run_bind_done _ _ _ _ _ (run_get_tsc _)).
  erewrite run_tr_upd; [|done]. eexists. split; [done|]. split_and!.
  - unfold stir. by destruct w.
  - intros c. change (cur w1 c = cur w c). unfold w1. rewrite cur_insert. case_decide as Ec; [|done].
    subst c. by rewrite (cur_buf _ _ _ Hx).
  - done.
Qed.

Lemma run_writei_block w i x bn data t tx :
  one_disk w → f_inodes w !! i = Some x → dev x = 1 → itype x ≠ T_DEV → 0 ≤ bn < NDIRECT + NINDIRECT →
  path_ok w x bn → file_block w x bn ≠ 0 → block_ok data → t ≠ 0 → f_trans w !! t = Some tx →
  (∀ c, block_ok (cur w c)) → (∀ n, block_ok (f_junk w n)) →
  ∃ w' ts, run (writei i data (bn * BSIZE) BSIZE t false false false) w = Done BSIZE w' ∧ stir w w' ∧
    (∀ c, cur w' c = if decide (c = file_block w x bn) then data else cur w c) ∧
    f_trans w' = <[t := log_block tx (file_block w x bn) data ts]> (f_trans w).
Proof.
  intros Hd Hx Hdev Hty Hbn Hp Hne Hok Ht Htx Hcur Hjunk. unfold writei.
  rewrite (run_bind_done _ _ _ _ _ (run_ip_get _ _ _ _ Hx)).
  destruct (Z.eqb_spec (itype x) T_DEV); [done|].
  assert (0 ≤ bn * BSIZE ∧ bn * BSIZE + BSIZE < 4294967296) as Hr by (unfold NDIRECT, NINDIRECT, BSIZE in *; lia).
  rewrite wrap32_small; [unfold BSIZE in *; lia|].
  destruct (Z.ltb_spec (bn * BSIZE + BSIZE) (bn * BSIZE)); [unfold BSIZE in *; lia|].
  destruct (Z.ltb_spec (MAXFILE * BSIZE) (bn * BSIZE + BSIZE)); [unfold MAXFILE, NDIRECT, NINDIRECT, BSIZE in *; lia|].
  change (Z.to_nat (BSIZE / BSIZE + 3)) with 4%nat.
  destruct (run_bmap_old w i x bn t false false Hd Hx Hdev) as (w1 & Hr1 & Hq1 & Hc1);
    [unfold MAXFILE, NDIRECT, NINDIRECT in *; lia|done..|].
  set (b := file_block w x bn) in *.
  assert (one_disk w1) as Hd1 by (eapply one_disk_eq; [by apply quiet_disks|done]).
  destruct (run_buf_get_skip w1 b Hd1) as (w2 & bf & Hr2 & [Hq2 Hc2] & Hb2 & Hold); [apply Hp|].
  destruct (run_buf_write w2 b bf Hb2) as (w3 & Hr3 & Hq3 & Hc3 & Hb3).
  assert (length (bdata bf) = length data) as Elen.
  { pose proof (cur_buf _ _ _ Hb2) as E. assert (block_ok (bdata bf)) as Hbf.
    { rewrite -E. destruct Hold as [->| ->]; [rewrite Hc1; apply Hcur|]. rewrite (quiet_junk _ _ Hq1). apply Hjunk. }
    unfold block_ok in *. lia. }
  destruct (run_buf_store w3 b _ (splice (bdata bf) 0 data) Hb3) as (w4 & Hr4 & [Hq4 Hc4] & Hb4 & Hcb).
  rewrite (splice_all _ _ (eq_sym Elen)) in Hr4, Hb4, Hcb.
  assert (quiet w w4) as Hq by (etrans; [|exact Hq4]; etrans; [|exact Hq3]; by etrans).
  destruct (run_add_to_transaction w4 b _ t tx Hb4) as (w5 & Hr5 & Hs5 & Hc5 & Ht5).
  { by rewrite (quiet_trans_eq _ _ Hq). }
  exists w5, (f_tsc w4 (f_tick w4)). split.
  - assert (run (writei_block i data (bn * BSIZE) BSIZE 0 t false false false) w = Done true w5) as HB.
    { unfold writei_block. rewrite Z.mod_mul // !Z.eqb_refl /=.
      rewrite (run_bind_done _ _ _ _ _ (run_ip_get _ _ _ _ Hx)) Z.div_mul // Hdev (run_bind_done _ _ _ _ _ Hr1).
      erewrite run_bind_done.
      2:{ unfold when at 1. simpl. rewrite (run_bind_done _ _ _ _ _ Hr2) (run_bind_done _ _ _ _ _ Hr3).
          rewrite (run_bind_done _ _ _ _ _ (run_buf_read _ _ _ Hb3)).
          rewrite slice_all; [exact Hok|]. simpl bdata. rewrite (splice_all _ _ (eq_sym Elen)).
          rewrite (run_bind_done _ _ _ _ _ Hr4).
          unfold when at 1, log_buf, when. rewrite /truth (proj2 (Z.eqb_neq t 0) Ht) /=. exact Hr5. }
      done. }
    rewrite (run_loop_again _ _ _ _ (0 + BSIZE, bn * BSIZE + BSIZE) w5).
    { destruct (Z.ltb_spec 0 BSIZE); [|unfold BSIZE in *; lia]. cbv zeta.
      rewrite Z.mod_mul // !Z.sub_0_r Z.min_id. by rewrite (run_bind_done _ _ _ _ _ HB). }
    erewrite run_loop_exit; [done|]. by rewrite Z.ltb_irrefl.
  - split_and!.
    + etrans; [by apply quiet_stir|done].
    + intros c. rewrite Hc5. case_decide as Ec; [by subst c|]. by rewrite Hc4 // Hc3 Hc2 // Hc1.
    + by rewrite Ht5 (quiet_trans_eq _ _ Hq).
Qed.

Lemma run_readi_block w i x bn :
  one_disk w → f_inodes w !! i = Some x → dev x = 1 → itype x ≠ T_DEV → 0 ≤ bn < NDIRECT + NINDIRECT →
  (bn + 1) * BSIZE ≤ size x → path_ok w x bn → file_block w x bn ≠ 0 → block_ok (cur w (file_block w x bn)) →
  ∃ w', run (readi i (bn * BSIZE) BSIZE) w = Done (Some (cur w (file_block w x bn))) w' ∧ quiet w w' ∧
    ∀ c, cur w' c = cur w c.
Proof.
  intros Hd Hx Hdev Hty Hbn Hsz Hp Hne Hok. unfold readi.
  rewrite (run_bind_done _ _ _ _ _ (run_ip_get _ _ _ _ Hx)).
  destruct (Z.eqb_spec (itype x) T_DEV); [done|].
  rewrite (run_bind_done _ _ _ _ _ (run_ip_get _ _ _ _ Hx)).
  assert (0 ≤ bn * BSIZE ∧ bn * BSIZE + BSIZE < 4294967296) as Hr by (unfold NDIRECT, NINDIRECT, BSIZE in *; lia).
  rewrite wrap32_small; [unfold BSIZE in *; lia|].
  destruct (Z.ltb_spec (size x) (bn * BSIZE)); [unfold BSIZE in *; lia|].
  destruct (Z.ltb_spec (bn * BSIZE + BSIZE) (bn * BSIZE)); [unfold BSIZE in *; lia|].
  destruct (Z.ltb_spec (size x) (bn * BSIZE + BSIZE)); [unfold BSIZE in *; lia|].
  cbv zeta. change (Z.to_nat (BSIZE / BSIZE + 3)) with 4%nat. simpl orb. cbv iota.
  destruct (run_bmap_old w i x bn 0 true false Hd Hx Hdev) as (w1 & Hr1 & Hq1 & Hc1);
    [unfold MAXFILE, NDIRECT, NINDIRECT in *; lia|done..|].
  set (b := file_block w x bn) in *.
  assert (one_disk w1) as Hd1 by (eapply one_disk_eq; [by apply quiet_disks|done]).
  destruct (run_buf_get w1 b Hd1) as (w2 & bf & Hr2 & Hq2 & Hc2 & Hb2); [apply Hp|].
  assert (bdata bf = cur w b) as Ebf by by rewrite -(cur_buf _ _ _ Hb2) Hc2 Hc1.
  exists w2. split_and!; [|by etrans|intros c; by rewrite Hc2 Hc1].
  rewrite (run_loop_again _ _ _ _ (0 + BSIZE, bn * BSIZE + BSIZE, [] ++ cur w b) w2).
  2:{ by erewrite run_loop_exit; [|by rewrite Z.ltb_irrefl]. }
  - destruct (Z.ltb_spec 0 BSIZE); [|unfold BSIZE in *; lia].
    rewrite Z.div_mul // (run_bind_done _ _ _ _ _ Hr1).
    assert (f_inodes w1 !! i = Some x) as Hx1 by by rewrite (quiet_inodes _ _ Hq1).
    rewrite (run_bind_done _ _ _ _ _ (run_ip_get _ _ _ _ Hx1)) Hdev (run_bind_done _ _ _ _ _ Hr2).
    rewrite (run_bind_done _ _ _ _ _ (run_buf_read _ _ _ Hb2)) Z.mod_mul // !Z.sub_0_r Z.min_id Ebf.
    by rewrite slice_all.
Qed.

Lemma run_readi_end w i x :
  f_inodes w !! i = Some x → itype x ≠ T_DEV → 0 ≤ size x → size x + BSIZE < 4294967296 →
  run (readi i (size x) BSIZE) w = Done (Some []) w.
Proof.
  intros Hx Hty Hs0 Hsz. unfold readi. rewrite (run_bind_done _ _ _ _ _ (run_ip_get _ _ _ _ Hx)).
  destruct (Z.eqb_spec (itype x) T_DEV); [done|].
  rewrite (run_bind_done _ _ _ _ _ (run_ip_get _ _ _ _ Hx)) Z.ltb_irrefl.
  rewrite wrap32_small; [unfold BSIZE in *; lia|].
  destruct (Z.ltb_spec (size x + BSIZE) (size x)); [unfold BSIZE in *; lia|].
  destruct (Z.ltb_spec (size x) (size x + BSIZE)); [|unfold BSIZE in *; lia].
  cbv zeta. simpl orb. cbv iota. rewrite Z.sub_diag. change (Z.to_nat (0 / BSIZE + 3)) with 3%nat. by erewrite run_loop_exit; [|done].
Qed.
