(* ===== verification/FsJournal.v ===== *)
(** * The journal ([kernel/scalefs.cc], [include/scalefs.hh])

    Every CPU has a journal, a file whose first block is a skip block.  Behind
    it are the committed transactions, each with a start block that lists the
    numbers of its blocks, the blocks themselves, and a commit block. *)

From S2P Require Import Prelude FsBytes FsWorld FsDisk FsTrans FsBlocks FsInode.

(** ** Header blocks *)

Definition JOURNAL_TXN_START : Z := 1.
Definition JOURNAL_TXN_COMMIT : Z := 2.
Definition JOURNAL_TXN_SKIP : Z := 3.

Definition hdr_timestamp (b : list Z) : Z := u64_at b 0.
Definition hdr_type (b : list Z) : Z := u8_at b 8.
Definition hdr_num_addr (b : list Z) : Z := u8_at b 9.
Definition hdr_blocknum (b : list Z) (i : Z) : Z := u32_at b (12 + 4 * i).

(** Block numbers a start block and an address block have room for. *)
Definition nslots_startblk : Z := 1021.
Definition nslots_addrblk : Z := 1024.

(** [nums] as words, with zeros behind them. *)
Definition num_words (slots : Z) (nums : list Z) : list Z :=
  take (Z.to_nat (4 * slots)) ((nums ≫= le_bytes 4) ++ replicate (Z.to_nat (4 * slots)) 0).

Definition start_block (ts num_addr_blocks : Z) (nums : list Z) : list Z :=
  le_bytes 8 ts ++ [JOURNAL_TXN_START; num_addr_blocks; 0; 0] ++ num_words nslots_startblk nums.
Definition addr_block (nums : list Z) : list Z := num_words nslots_addrblk nums.

(** [journal_header_block(ts, ty)]: the other members are not initialised. *)
Definition header_block (ts ty : Z) (junk : list Z) : list Z :=
  le_bytes 8 ts ++ [ty] ++ slice junk 9 (BSIZE - 9).

(** ** Writing *)

Definition update_offset (cpu new_off : Z) : fprog unit :=
  fassert (new_off <=? PHYS_JOURNAL_SIZE);; jr_upd cpu (λ j, j <| current_off := new_off |>).

Definition fits_in_journal (num_trans_blocks cpu : Z) : fprog bool :=
  let trans_size := num_trans_blocks * BSIZE + 2 * BSIZE + BSIZE in
  if PHYS_JOURNAL_SIZE <? trans_size then mret false else
  off ← jr_get current_off cpu;
  mret (off + trans_size <=? PHYS_JOURNAL_SIZE).

Definition write_journal (data : list Z) (t cpu : Z) : fprog unit :=
  offset ← jr_get current_off cpu;
  fassert (offset mod BSIZE =? 0);;
  ip ← jr_get sv6_journal cpu;
  r ← writei ip data offset BSIZE t false false false;
  fassert (r =? BSIZE);;
  update_offset cpu (offset + BSIZE).

Definition write_journal_transaction_blocks (datablocks : list transaction_diskblock) (ts : Z)
    (disks : gset Z) (cpu : Z) : fprog unit :=
  let nums := blocknum <$> datablocks in
  let n := Z.of_nat (length datablocks) in
  fassert (n <=? nslots_startblk + nslots_addrblk);;
  let num_addr_blocks := of_bool (nslots_startblk <? n) in
  jt ← new_transaction;
  write_journal (start_block ts num_addr_blocks (take (Z.to_nat nslots_startblk) nums)) jt cpu;;
  when (truth num_addr_blocks) (
    write_journal (addr_block (drop (Z.to_nat nslots_startblk) nums)) jt cpu);;
  fold_each datablocks (λ b _, write_journal (blockdata b) jt cpu) ();;
  tr_upd jt (λ x, x <| disks_written ::= λ s, disks ∪ s |>);;
  write_to_disk_and_flush jt;;
  delete_transaction jt.

Definition write_journal_commit_block (ts cpu : Z) : fprog unit :=
  junk ← uninit;
  jt ← new_transaction;
  write_journal (header_block ts JOURNAL_TXN_COMMIT junk) jt cpu;;
  write_to_disk_and_flush jt;;
  delete_transaction jt.

Definition write_journal_skip_block (ts cpu : Z) (use_async_io : bool) : fprog unit :=
  off ← jr_get current_off cpu;
  fassert (off =? 0);;
  junk ← uninit;
  jt ← new_transaction;
  write_journal (header_block ts JOURNAL_TXN_SKIP junk) jt cpu;;
  (if use_async_io then write_to_disk_and_flush jt else write_to_disk_and_flush_raw jt);;
  delete_transaction jt.

(** ** Recovery *)

(** [readi(sv6_journal[cpu], buf, offset, BSIZE) == BSIZE] *)
Definition read_journal (cpu offset : Z) : fprog (option (list Z)) :=
  ip ← jr_get sv6_journal cpu;
  r ← readi ip offset BSIZE;
  mret (match r with Some b => if Z.of_nat (length b) =? BSIZE then Some b else None | None => None end).

Definition get_txn_skip_block (cpu : Z) : fprog (option Z) :=
  offset ← jr_get current_off cpu;
  r ← read_journal cpu offset;
  match r with
  | None => mret None
  | Some b =>
      update_offset cpu (offset + BSIZE);;
      mret (if bool_decide (b = zero_block) then None
            else if hdr_type b =? JOURNAL_TXN_SKIP then Some (hdr_timestamp b) else None)
  end.

Definition get_txn_start_block (cpu : Z) : fprog (option (list Z)) :=
  offset ← jr_get current_off cpu;
  r ← read_journal cpu offset;
  match r with
  | None => mret None
  | Some b =>
      update_offset cpu (offset + BSIZE);;
      mret (if hdr_type b =? JOURNAL_TXN_START then Some b else None)
  end.

Definition get_txn_data_blocks (cpu : Z) (hd : list Z) (t : Z) : fprog bool :=
  offset ← jr_get current_off cpu;
  let datablock_offset := if truth (hdr_num_addr hd) then offset + BSIZE else offset in
  r ← loop (Z.to_nat (nslots_startblk + 1)) (λ '(i, off),
    if (i <? nslots_startblk) && truth (hdr_blocknum hd i) then
      r ← read_journal cpu off;
      match r with
      | None => delete_transaction t;; mret (inr None)
      | Some b => add_block t (hdr_blocknum hd i) b;; mret (inl (i + 1, off + BSIZE))
      end
    else mret (inr (Some off))) (0, datablock_offset);
  match r with
  | None => mret false
  | Some off =>
      fassert (negb (truth (hdr_num_addr hd)));;
      update_offset cpu off;;
      mret true
  end.

Definition get_txn_commit_block (cpu t : Z) : fprog bool :=
  offset ← jr_get current_off cpu;
  r ← read_journal cpu offset;
  match r with
  | None => delete_transaction t;; mret false
  | Some b =>
      update_offset cpu (offset + BSIZE);;
      ts ← tr_get commit_tsc t;
      if negb (hdr_type b =? JOURNAL_TXN_COMMIT) || negb (hdr_timestamp b =? ts)
      then delete_transaction t;; mret false
      else mret true
  end.

(** One round of the loop of [recover_journal]: [inr] leaves it. *)
Definition recover_one (cpu skip_upto_tsc last_tsc : Z) (vec : list Z) : fprog ((Z * list Z) + list Z) :=
  off ← jr_get current_off cpu;
  if PHYS_JOURNAL_SIZE <=? off then mret (inr vec) else
  hd ← get_txn_start_block cpu;
  match hd with
  | None => mret (inr vec)
  | Some hd =>
      let ts := hdr_timestamp hd in
      if ts <? last_tsc then mret (inr vec) else
      t ← new_transaction_at ts;
      tr_upd t (λ x, x <| commit_tsc := ts |>);;
      ok ← get_txn_data_blocks cpu hd t;
      if negb ok then mret (inr vec) else
      ok ← get_txn_commit_block cpu t;
      if negb ok then mret (inr vec) else
      if ts <=? skip_upto_tsc then delete_transaction t;; mret (inl (ts, vec))
      else mret (inl (ts, vec ++ [t]))
  end.

(** [recover_journal], once the journal's inode has been found.  A round takes
    one block of the journal at least. *)
Definition recover_journal (cpu : Z) (vec : list Z) : fprog (list Z) :=
  ip ← jr_get sv6_journal cpu;
  ilock_write ip;;
  s ← get_txn_skip_block cpu;
  vec ← (match s with
         | None => mret vec
         | Some skip_upto_tsc =>
             loop (Z.to_nat (PHYS_JOURNAL_SIZE / BSIZE + 1))
               (λ '(last_tsc, vec), recover_one cpu skip_upto_tsc last_tsc vec) (0, vec)
         end);
  iunlock ip;;
  mret vec.

Definition init_journal (cpu : Z) : fprog unit :=
  update_offset cpu 0;;
  write_journal_skip_block 0 cpu false;;
  loop (Z.to_nat (PHYS_JOURNAL_SIZE / BSIZE + 1)) (λ _,
    off ← jr_get current_off cpu;
    if PHYS_JOURNAL_SIZE <=? off then mret (inr ()) else
    jt ← new_transaction;
    write_journal zero_block jt cpu;;
    write_to_disk_and_flush_raw jt;;
    delete_transaction jt;;
    mret (inl ())) ();;
  update_offset cpu BSIZE.

Definition reset_journal (cpu : Z) : fprog unit :=
  update_offset cpu 0;;
  ts ← jr_get last_applied_commit_tsc cpu;
  write_journal_skip_block ts cpu true.

(** The sort by [compare_txn_tsc] with the replay of [recover_scalefs]. *)
Definition replay (vec : list Z) : fprog unit :=
  ts ← fold_each vec (λ t l, ts ← tr_get commit_tsc t; mret (l ++ [(ts, t)])) [];
  fold_each (std_sort (λ a b, a.1 <? b.1) ts) (λ x _,
    write_to_disk_update_bufcache x.2;; delete_transaction x.2) ().

(** The journals of [recover_scalefs], which come from all CPUs. *)
Definition recover_scalefs (cpus : list Z) : fprog unit :=
  vec ← fold_each cpus (λ cpu vec, recover_journal cpu vec) [];
  replay vec;;
  fold_each cpus (λ cpu _, init_journal cpu) ().
