(* ===== verification/FsHeaders.v ===== *)
(** * The bytes of header blocks

    The members of the header blocks that the journal writes, and the sectors
    they are in. *)

From S2P Require Import Prelude FsBytes FsWorld FsDisk FsTrans FsBlocks FsInode FsJournal.

Lemma slice_app_l a b o n : 0 ≤ o → 0 ≤ n → o + n ≤ Z.of_nat (length a) → slice (a ++ b) o n = slice a o n.
Proof. intros ? ? ?. unfold slice. rewrite drop_app_le; [lia|]. rewrite take_app_le //. len. Qed.

Lemma slice_app_r a b o n : Z.of_nat (length a) ≤ o → slice (a ++ b) o n = slice b (o - Z.of_nat (length a)) n.
Proof. intros ?. unfold slice. rewrite drop_app_ge; [lia|]. do 2 f_equal. lia. Qed.

Lemma take_slice n b : take (Z.to_nat n) b = slice b 0 n.
Proof. done. Qed.

(** Parts of a part. *)
Lemma slice_slice b o n o' n' : 0 ≤ o → 0 ≤ o' → 0 ≤ n' → o' + n' ≤ n → slice (slice b o n) o' n' = slice b (o + o') n'.
Proof.
  intros ? ? ? ?. unfold slice. rewrite skipn_firstn_comm drop_drop firstn_firstn. f_equal; [lia|]. f_equal. lia.
Qed.

(** ** Words *)

Lemma words_cons x l : (x :: l) ≫= le_bytes 4 = le_bytes 4 x ++ (l ≫= le_bytes 4).
Proof. done. Qed.

Lemma length_words l : length (l ≫= le_bytes 4) = (4 * length l)%nat.
Proof. induction l as [|x l IH]; [done|]. rewrite words_cons length_app IH length_le_bytes. simpl. lia. Qed.

Lemma slice_words l i x : l !! Z.to_nat i = Some x → 0 ≤ i → slice (l ≫= le_bytes 4) (4 * i) 4 = le_bytes 4 x.
Proof.
  intros Hx Hi. remember (Z.to_nat i) as n eqn:En. revert i l Hi En Hx. induction n as [|n IH]; intros i [|y l] Hi En Hx; try done.
  - injection Hx as ->. assert (i = 0) as -> by lia. rewrite words_cons slice_app_l; [lia..|by rewrite length_le_bytes|].
    apply slice_all. by rewrite length_le_bytes.
  - rewrite words_cons slice_app_r; [rewrite length_le_bytes; lia|]. rewrite length_le_bytes.
    replace (4 * i - Z.of_nat 4) with (4 * (i - 1)) by lia. apply IH; [lia|lia|done].
Qed.

Lemma slice_zeros n o k : slice (replicate n 0) o k = replicate (Z.to_nat k `min` (n - Z.to_nat o)) 0.
Proof. unfold slice. by rewrite drop_replicate take_replicate. Qed.
Lemma le_val_zeros n : le_val (replicate n 0) = 0.
Proof. induction n as [|n IH]; [done|]. simpl. by rewrite IH. Qed.

Lemma length_num_words slots nums : 0 ≤ slots → length (num_words slots nums) = Z.to_nat (4 * slots).
Proof. intros. unfold num_words. rewrite length_take length_app length_replicate. lia. Qed.

Lemma num_words_in slots nums i x :
  nums !! Z.to_nat i = Some x → 0 ≤ i < slots → slice (num_words slots nums) (4 * i) 4 = le_bytes 4 x.
Proof.
  intros Hx Hi. assert (i < Z.of_nat (length nums)) by (apply lookup_lt_Some in Hx; lia).
  unfold num_words. rewrite take_slice slice_slice; [lia..|]. rewrite Z.add_0_l. rewrite slice_app_l; [lia|lia|rewrite length_words; lia|]. apply slice_words; [done|lia].
Qed.

Lemma num_words_out slots nums i :
  Z.of_nat (length nums) ≤ i < slots → le_val (slice (num_words slots nums) (4 * i) 4) = 0.
Proof.
  intros Hi. unfold num_words. rewrite take_slice slice_slice; [lia..|]. rewrite Z.add_0_l. rewrite slice_app_r; [rewrite length_words; lia|]. rewrite slice_zeros. apply le_val_zeros.
Qed.

(** ** Start blocks *)

Lemma u64_bytes ts l : 0 ≤ ts < 2 ^ 64 → u64_at (le_bytes 8 ts ++ l) 0 = ts.
Proof.
  intros H. unfold u64_at. rewrite slice_app_l; [lia..|by rewrite length_le_bytes|].
  rewrite slice_all; [by rewrite length_le_bytes|]. by apply le_val_bytes.
Qed.

Lemma u8_behind ts x y l o :
  8 ≤ o → u8_at (le_bytes 8 ts ++ x :: y :: l) o = u8_at (x :: y :: l) (o - 8).
Proof. intros. unfold u8_at. rewrite slice_app_r; [by rewrite length_le_bytes|]. by rewrite length_le_bytes. Qed.

Lemma u8_second x y l : u8_at (x :: y :: l) 1 = y.
Proof. unfold u8_at, slice. change (Z.to_nat 1) with 1%nat. simpl. lia. Qed.

Section start.
Context (ts na : Z) (nums : list Z).

Lemma start_timestamp : 0 ≤ ts < 2 ^ 64 → hdr_timestamp (start_block ts na nums) = ts.
Proof. apply u64_bytes. Qed.
Lemma start_type : hdr_type (start_block ts na nums) = JOURNAL_TXN_START.
Proof. unfold hdr_type, start_block. cbn [app]. rewrite u8_behind //. Qed.
Lemma start_num_addr : hdr_num_addr (start_block ts na nums) = na.
Proof. unfold hdr_num_addr, start_block. cbn [app]. rewrite u8_behind //. apply u8_second. Qed.

Lemma start_words o : 12 ≤ o → slice (start_block ts na nums) o 4 = slice (num_words nslots_startblk nums) (o - 12) 4.
Proof.
  intros. unfold start_block. rewrite slice_app_r; [rewrite length_le_bytes; lia|]. rewrite length_le_bytes.
  rewrite slice_app_r; [simpl; lia|]. f_equal. simpl. lia.
Qed.

Lemma start_blocknum i x :
  nums !! Z.to_nat i = Some x → 0 ≤ i < nslots_startblk → 0 ≤ x < 2 ^ 32 → hdr_blocknum (start_block ts na nums) i = x.
Proof.
  intros Hx Hi Hr. unfold hdr_blocknum, u32_at. rewrite start_words; [lia|].
  replace (12 + 4 * i - 12) with (4 * i) by lia. rewrite (num_words_in _ _ _ _ Hx Hi). by apply le_val_bytes.
Qed.
Lemma start_blocknum_none i :
  Z.of_nat (length nums) ≤ i < nslots_startblk → hdr_blocknum (start_block ts na nums) i = 0.
Proof.
  intros Hi. unfold hdr_blocknum, u32_at. rewrite start_words; [lia|].
  replace (12 + 4 * i - 12) with (4 * i) by lia. by apply num_words_out.
Qed.

Lemma start_block_ok : block_ok (start_block ts na nums).
Proof. unfold block_ok, start_block. rewrite !length_app length_le_bytes length_num_words //. Qed.
End start.

(** ** Commit and skip blocks *)

Lemma header_timestamp ts ty junk : 0 ≤ ts < 2 ^ 64 → hdr_timestamp (header_block ts ty junk) = ts.
Proof. apply u64_bytes. Qed.

Lemma header_type ts ty junk : hdr_type (header_block ts ty junk) = ty.
Proof.
  unfold hdr_type, header_block, u8_at. rewrite slice_app_r; [by rewrite length_le_bytes|]. rewrite length_le_bytes.
  change (8 - Z.of_nat 8) with 0. rewrite slice_app_l //. unfold slice. change (Z.to_nat 1) with 1%nat. simpl. lia.
Qed.

Lemma header_block_ok ts ty junk : block_ok junk → block_ok (header_block ts ty junk).
Proof.
  intros H. unfold block_ok, header_block, slice, BSIZE in *.
  rewrite !length_app length_le_bytes length_take length_drop. cbn [length]. lia.
Qed.

(** ** The first sector *)

(** The members up to [o + n] are those of a block with the same first sector. *)
Lemma first_sector b b' o n :
  slice b 0 512 = slice b' 0 512 → 0 ≤ o → 0 ≤ n → o + n ≤ 512 → slice b o n = slice b' o n.
Proof.
  intros E ? ? ?. rewrite -(slice_slice b 0 512 o n) // -(slice_slice b' 0 512 o n) //. by rewrite E.
Qed.

Lemma first_sector_header b b' :
  slice b 0 512 = slice b' 0 512 →
  hdr_type b = hdr_type b' ∧ hdr_timestamp b = hdr_timestamp b' ∧ hdr_num_addr b = hdr_num_addr b'.
Proof.
  intros E. unfold hdr_type, hdr_timestamp, hdr_num_addr, u8_at, u64_at. split_and!; f_equal; by apply first_sector.
Qed.
