(* ===== verification/FsCommit.v ===== *)
(** * Committing and applying transactions ([kernel/scalefs.cc])

    A transaction waits in the commit queue of its journal; once it is in the
    journal on the disk it waits in the apply queue to be written to its place.
    The locks around a queue are held for one action of the model. *)

From S2P Require Import Prelude FsBytes FsWorld FsDisk FsTrans FsBlocks FsInode FsJournal.

(** ** The locks of inode and bitmap blocks *)

Inductive block_type := INODE_BLOCK | BITMAP_BLOCK.

(** The blocks that hold the inodes or the bits with the numbers [l], each once
    and in the order of their first occurrence. *)
Definition lock_blocks (sb : superblock) (type : block_type) (l : list Z) : list Z :=
  foldl (λ acc n, let b := match type with INODE_BLOCK => IBLOCK n | BITMAP_BLOCK => BBLOCK n (sb_ninodes sb) end in
                  if decide (b ∈ acc) then acc else acc ++ [b]) [] l.

Definition acquire_block (t blknum : Z) : fprog unit :=
  act (λ w, if (blknum <? 0) || (BBLOCK (sb_size (f_sb w) - 1) (sb_ninodes (f_sb w)) <? blknum) then Crash
            else if decide (blknum ∈ f_iblocks w) then Wait
            else Next () (w <| f_iblocks ::= λ s, {[blknum]} ∪ s |>));;
  tr_upd t (λ x, x <| inodebitmap_blk_list ::= λ l, l ++ [blknum] |>).

Definition acquire_inodebitmap_locks (num_list : list Z) (type : block_type) (t : Z) : fprog unit :=
  sb ← frd f_sb;
  fold_each (std_sort Z.ltb (lock_blocks sb type num_list)) (λ b _, acquire_block t b) ().

Definition release_inodebitmap_locks (t : Z) : fprog unit :=
  l ← tr_get inodebitmap_blk_list t;
  fold_each l (λ b _, fwr (λ w, w <| f_iblocks ::= λ s, s ∖ {[b]} |>)) ();;
  tr_upd t (λ x, x <| inodebitmap_blk_list := [] |>).

(** ** Into the commit queue *)

Definition pre_process_transaction (t : Z) : fprog unit :=
  tr_upd t (λ x, x <| allocated_block_list ::= std_sort Z.ltb |>);;
  tr_upd t (λ x, x <| free_block_list ::= std_sort Z.ltb |>);;
  al ← tr_get allocated_block_list t;
  fl ← tr_get free_block_list t;
  acquire_inodebitmap_locks (al ++ fl) BITMAP_BLOCK t;;
  when (negb (bool_decide (al = []))) (balloc_free_on_disk al t true);;
  when (negb (bool_decide (fl = []))) (balloc_free_on_disk fl t false).

(** The block [b] of transaction [t], which is the last one to change it. *)
Definition note_dependency (t b : Z) : fprog unit :=
  id ← tr_get txq_id t;
  ts ← tr_get enq_tsc t;
  o ← frd (λ w, f_blkq w !! b);
  match o with
  | Some q =>
      when (negb (q.1 =? id)) (tr_upd t (λ x, x <| dependent_txq ::= λ l, l ++ [q] |>));;
      fwr (λ w, w <| f_blkq ::= delete b |>)
  | None => mret ()
  end;;
  act (λ w, match f_blkq w !! b with
            | Some _ => Crash | None => Next () (w <| f_blkq ::= <[b := (id, ts)]> |>) end).

Definition add_transaction_to_queue (t cpu : Z) : fprog unit :=
  pre_process_transaction t;;
  ts ← get_tsc;
  tr_upd t (λ x, x <| enq_tsc := ts |> <| last_group_txn_tsc := ts |> <| txq_id := cpu |>);;
  l ← tr_get inodebitmap_blk_list t;
  fold_each l (λ b _, note_dependency t b) ();;
  release_inodebitmap_locks t;;
  jr_upd cpu (λ j, j <| tx_commit_queue ::= λ l, l ++ [t] |>).

(** ** Commit *)

Definition post_process_transaction (t : Z) : fprog unit :=
  deduplicate_freeblock_list t;;
  deduplicate_freeinum_list t;;
  fl ← tr_get free_block_list t;
  fold_each fl (λ b _, free_block b) ();;
  il ← tr_get free_inum_list t;
  fold_each il (λ i _, free_inode_number i) ().

Definition notify_commit (cpu committed_tsc : Z) : fprog unit :=
  ts ← jr_get committed_trans_tsc cpu;
  fassert (ts <? committed_tsc);;
  jr_upd cpu (λ j, j <| committed_trans_tsc := committed_tsc |>).
Definition notify_apply (cpu applied_tsc : Z) : fprog unit :=
  ts ← jr_get applied_trans_tsc cpu;
  fassert (ts <? applied_tsc);;
  jr_upd cpu (λ j, j <| applied_trans_tsc := applied_tsc |>).
Definition wait_for_commit (cpu ts : Z) : fprog unit :=
  act (λ w, match f_journals w !! cpu with
            | Some j => if ts <=? committed_trans_tsc j then Next () w else Wait
            | None => Crash end).

(** What goes to the disk: between the locks of the journal's inode. *)
Definition write_journal_commit (cpu t : Z) : fprog unit :=
  ip ← jr_get sv6_journal cpu;
  ilock_write ip;;
  l ← tr_get blocks t;
  ts ← tr_get commit_tsc t;
  s ← tr_get disks_written t;
  write_journal_transaction_blocks l ts s cpu;;
  write_journal_commit_block ts cpu;;
  iunlock ip.

Definition commit_transaction_to_disk (cpu t : Z) : fprog unit :=
  write_journal_commit cpu t;;
  post_process_transaction t;;
  ts ← tr_get last_group_txn_tsc t;
  notify_commit cpu ts.

(** ** Apply *)

Definition apply_trans_on_disk (t : Z) : fprog unit :=
  write_to_disk_and_flush t;;
  cpu ← tr_get txq_id t;
  orig_offset ← jr_get current_off cpu;
  update_offset cpu 0;;
  ts ← tr_get commit_tsc t;
  write_journal_skip_block ts cpu true;;
  update_offset cpu orig_offset.

Definition apply_transaction_to_disk (cpu t : Z) : fprog unit :=
  apply_trans_on_disk t;;
  ts ← tr_get last_group_txn_tsc t;
  notify_apply cpu ts;;
  delete_transaction t.

(** Transactions of the apply queue that are joined to [t]: those in front that
    depend on no other queue. *)
Definition group_apply (cpu t : Z) : fprog bool :=
  q ← jr_get tx_apply_queue cpu;
  loop (S (length q)) (λ g : bool,
    q ← jr_get tx_apply_queue cpu;
    match q with
    | [] => mret (inr g)
    | u :: q =>
        d ← tr_get dependent_txq u;
        if negb (bool_decide (d = [])) then mret (inr g) else
        l ← tr_get blocks u;
        add_blocks t l;;
        g1 ← tr_get last_group_txn_tsc u;
        g0 ← tr_get last_group_txn_tsc t;
        fassert (g0 <? g1);;
        tr_upd t (λ x, x <| last_group_txn_tsc := g1 |>);;
        c1 ← tr_get commit_tsc u;
        c0 ← tr_get commit_tsc t;
        fassert (c0 <? c1);;
        tr_upd t (λ x, x <| commit_tsc := c1 |>);;
        delete_transaction u;;
        jr_upd cpu (λ j, j <| tx_apply_queue := q |>);;
        mret (inl true)
    end) false.

(** One round of [apply_all_transactions], with the stack of what has to be
    applied: the last one is on top.  [inl] goes on with another stack. *)
Definition apply_round (deps : list (Z * Z)) : fprog (list (Z * Z) + unit) :=
  match last deps with
  | None => mret (inr ())
  | Some (cpu, dep_tsc) =>
      let rest := take (pred (length deps)) deps in
      done ← jr_get applied_trans_tsc cpu;
      if dep_tsc <=? done then mret (inl rest) else
      q ← jr_get tx_apply_queue cpu;
      match q with
      | [] => mret (inl deps)
      | t :: q =>
          ts ← tr_get enq_tsc t;
          fassert (ts <=? dep_tsc);;
          ds ← tr_get dependent_txq t;
          new ← fold_each ds (λ d acc,
            a ← jr_get applied_trans_tsc d.1;
            mret (if a <? d.2 then acc ++ [d] else acc)) [];
          if negb (bool_decide (new = [])) then mret (inl (deps ++ new)) else
          jr_upd cpu (λ j, j <| tx_apply_queue := q |>);;
          g ← group_apply cpu t;
          when g (deduplicate_blocks t);;
          ip ← jr_get sv6_journal cpu;
          ilock_write ip;;
          apply_transaction_to_disk cpu t;;
          ts ← tr_get commit_tsc t;
          lts ← jr_get last_applied_commit_tsc cpu;
          fassert (lts <? ts);;
          jr_upd cpu (λ j, j <| last_applied_commit_tsc := ts |>);;
          iunlock ip;;
          done ← jr_get applied_trans_tsc cpu;
          let deps := if dep_tsc <=? done then rest else deps in
          q ← jr_get tx_apply_queue cpu;
          if negb (bool_decide (q = [])) then mret (inl deps) else
          ilock_write ip;;
          reset_journal cpu;;
          iunlock ip;;
          mret (inl deps)
      end
  end.

Definition apply_all_transactions (fuel : nat) (cpu : Z) : fprog unit :=
  q ← jr_get tx_apply_queue cpu;
  match last q with
  | None => mret ()
  | Some t => ts ← tr_get enq_tsc t; loop fuel apply_round [(cpu, ts)]
  end.

(** ** The commit queue *)

(** Transactions of the commit queue that are joined to [t]: those in front that
    depend on no other queue, as long as they fit in the journal. *)
Definition group_commit (cpu t : Z) : fprog unit :=
  q ← jr_get tx_commit_queue cpu;
  loop (S (length q)) (λ _ : unit,
    q ← jr_get tx_commit_queue cpu;
    match q with
    | [] => mret (inr ())
    | u :: q =>
        d ← tr_get dependent_txq u;
        if negb (bool_decide (d = [])) then mret (inr ()) else
        deduplicate_blocks u;;
        n0 ← tr_get (λ x, Z.of_nat (length (blocks x))) t;
        n1 ← tr_get (λ x, Z.of_nat (length (blocks x))) u;
        ok ← fits_in_journal (n0 + n1) cpu;
        if negb ok then mret (inr ()) else
        l ← tr_get blocks u;
        add_blocks t l;;
        deduplicate_blocks t;;
        s ← tr_get disks_written u;
        tr_upd t (λ x, x <| disks_written ::= λ s0, s ∪ s0 |>);;
        n ← tr_get (λ x, Z.of_nat (length (blocks x))) t;
        ok ← fits_in_journal n cpu;
        fassert ok;;
        fl ← tr_get free_block_list u;
        add_free_blocks t fl;;
        il ← tr_get free_inum_list u;
        add_free_inums t il;;
        ts ← tr_get enq_tsc u;
        tr_upd t (λ x, x <| last_group_txn_tsc := ts |>);;
        ts0 ← tr_get enq_tsc t;
        fassert (ts0 <? ts);;
        delete_transaction u;;
        jr_upd cpu (λ j, j <| tx_commit_queue := q |>);;
        mret (inl ())
    end) ().

(** The front of the commit queue leaves it: it is still the transaction that
    was seen before. *)
Definition commit_front (cpu enq : Z) : fprog Z :=
  q ← jr_get tx_commit_queue cpu;
  match q with
  | [] => panic
  | t :: q =>
      e ← tr_get enq_tsc t;
      fassert (e =? enq);;
      jr_upd cpu (λ j, j <| tx_commit_queue := q |>);;
      mret t
  end.

(** One round of [commit_all_transactions]. *)
Definition commit_round (fuel : nat) (cpu : Z) : fprog (unit + unit) :=
  q ← jr_get tx_commit_queue cpu;
  match q with
  | [] => mret (inr ())
  | t :: _ =>
      enq ← tr_get enq_tsc t;
      deps ← tr_get dependent_txq t;
      deduplicate_blocks t;;
      n ← tr_get (λ x, Z.of_nat (length (blocks x))) t;
      ok ← fits_in_journal n cpu;
      when (negb ok) (
        apply_all_transactions fuel cpu;;
        ok ← fits_in_journal n cpu;
        fassert ok);;
      fold_each deps (λ d _, wait_for_commit d.1 d.2) ();;
      t ← commit_front cpu enq;
      group_commit cpu t;;
      ts ← get_tsc;
      tr_upd t (λ x, x <| commit_tsc := ts |>);;
      commit_transaction_to_disk cpu t;;
      jr_upd cpu (λ j, j <| tx_apply_queue ::= λ l, l ++ [t] |>);;
      mret (inl ())
  end.

Definition commit_all_transactions (fuel : nat) (cpu : Z) : fprog unit :=
  loop fuel (λ _, commit_round fuel cpu) ().

Definition flush_transaction_queue (fuel : nat) (cpu : Z) (apply_transactions : bool) : fprog unit :=
  commit_all_transactions fuel cpu;;
  when apply_transactions (apply_all_transactions fuel cpu).
