(* ===== verification/FsScan.v ===== *)
(** * What recovery finds in a journal

    [scan] reads a journal as a function from positions to blocks, without the
    file system around it.  [recover_journal] computes it, through the block
    map of the journal's file and the buffer cache. *)

From S2P Require Import Prelude FsBytes FsWorld FsDisk FsTrans FsBlocks FsInode FsView FsJournal.

(** A transaction in a journal: its time stamp and its blocks. *)
Record txn := Txn { t_ts : Z; t_blocks : list (Z * list Z) }.

(** The number of blocks of a journal. *)
Definition jlen : Z := NDIRECT + NINDIRECT.

Section scan.
Context (blk : Z → list Z) (skip : Z).

(** The blocks of the start block [hd] from its entry [i] on, and the position
    behind them; [None] when the journal ends before. *)
Fixpoint scan_data (hd : list Z) (n : nat) (i pos : Z) : option (list (Z * list Z) * Z) :=
  match n with
  | O => Some ([], pos)
  | S n =>
      if hdr_blocknum hd i =? 0 then Some ([], pos) else
      if pos <? jlen then
        r ← scan_data hd n (i + 1) (pos + 1);
        Some ((hdr_blocknum hd i, blk pos) :: r.1, r.2)
      else None
  end.

Definition start_at (last pos : Z) : bool :=
  (pos <? jlen) && (hdr_type (blk pos) =? JOURNAL_TXN_START) && negb (hdr_timestamp (blk pos) <? last).
Definition commit_at (ts pos : Z) : bool :=
  (pos <? jlen) && (hdr_type (blk pos) =? JOURNAL_TXN_COMMIT) && (hdr_timestamp (blk pos) =? ts).

Definition data_of (pos : Z) : option (list (Z * list Z) * Z) :=
  scan_data (blk pos) (Z.to_nat nslots_startblk) 0 (pos + 1).

(** The transactions to be replayed; [None] if there is a start block with
    address blocks, which recovery does not handle. *)
Fixpoint scan (fuel : nat) (last pos : Z) : option (list txn) :=
  match fuel with
  | O => None
  | S fuel =>
      if start_at last pos then
        let ts := hdr_timestamp (blk pos) in
        if truth (hdr_num_addr (blk pos)) then None else
        match data_of pos with
        | None => Some []
        | Some (data, pos') =>
            if commit_at ts pos' then
              r ← scan fuel ts (pos' + 1);
              Some (if ts <=? skip then r else Txn ts data :: r)
            else Some []
        end
      else Some []
  end.

Lemma scan_data_pos hd n i pos data pos' :
  scan_data hd n i pos = Some (data, pos') → pos ≤ jlen → pos' = pos + Z.of_nat (length data) ∧ pos' ≤ jlen.
Proof.
  revert i pos data. induction n as [|n IH]; intros i pos data; simpl.
  { intros [= <- <-] ?. simpl. lia. }
  destruct (_ =? 0); [intros [= <- <-] ?; simpl; lia|].
  destruct (Z.ltb_spec pos jlen); [|done]. destruct (scan_data hd n (i + 1) (pos + 1)) as [[l p]|] eqn:E; [|done].
  cbn. intros [= <- <-] ?. apply IH in E; [|lia]. simpl. lia.
Qed.
End scan.

Lemma scan_data_ext blk blk' hd n i p :
  (∀ m, blk' m = blk m) → scan_data blk' hd n i p = scan_data blk hd n i p.
Proof. intros H. revert i p. induction n as [|n IH]; intros i p; [done|]. simpl. by rewrite H IH. Qed.

(** A journal's result: what the skip block is, and what is behind it. *)
Definition scan_journal (blk : Z → list Z) : option (list txn) :=
  let b := blk 0 in
  if bool_decide (b = zero_block) then Some []
  else if hdr_type b =? JOURNAL_TXN_SKIP
  then scan blk (hdr_timestamp b) (Z.to_nat (PHYS_JOURNAL_SIZE / BSIZE + 1)) 0 1
  else Some [].

(** ** The journal's file *)

(** [ja] are the blocks of the journal of CPU [c], and it has been read or
    written up to position [pos]. *)
Record jfile (w : fs_world) (c : Z) (ja : list Z) (pos : Z) : Prop := JFile {
  jf_disk : one_disk w;
  jf_pos : 0 ≤ pos ≤ jlen;
  jf_file : ∃ j x, f_journals w !! c = Some j ∧ current_off j = pos * BSIZE ∧
    f_inodes w !! sv6_journal j = Some x ∧ dev x = 1 ∧ itype x ≠ T_DEV ∧ size x = PHYS_JOURNAL_SIZE ∧
    ∀ n, 0 ≤ n < jlen → path_ok w x n ∧ file_block w x n = ja !!! Z.to_nat n ∧ ja !!! Z.to_nat n ≠ 0;
}.

Definition jblock (w : fs_world) (ja : list Z) (pos : Z) : list Z := cur w (ja !!! Z.to_nat pos).

Section journal.
(** Transactions from [n0] on belong to the recovery. *)
Context (n0 : Z).

(** What reading and the records of transactions leave alone. *)
Record reads (w w' : fs_world) : Prop := Reads {
  rd_disks : f_disks w' = f_disks w;
  rd_inodes : f_inodes w' = f_inodes w;
  rd_junk : f_junk w' = f_junk w;
  rd_cur : ∀ b, cur w' b = cur w b;
  rd_next : f_next w ≤ f_next w';
  rd_trans : ∀ t, t < n0 → f_trans w' !! t = f_trans w !! t;
}.

Lemma reads_refl w : reads w w.
Proof. by split. Qed.
Lemma reads_trans w1 w2 w3 : reads w1 w2 → reads w2 w3 → reads w1 w3.
Proof.
  intros [? ? ? ? ? ?] [? ? ? ? ? Ht]. split; try congruence; [lia|]. intros t Hlt. rewrite Ht; auto.
Qed.
#[local] Instance reads_preorder : PreOrder reads.
Proof. split; [exact reads_refl|exact reads_trans]. Qed.

Lemma quiet_reads w w' : quiet w w' → (∀ b, cur w' b = cur w b) → reads w w'.
Proof.
  intros H Hc. split; [by apply quiet_disks|by apply quiet_inodes|by apply quiet_junk|done| |].
  - by rewrite (quiet_next _ _ H).
  - intros. by rewrite (quiet_trans_eq _ _ H).
Qed.

Lemma file_block_cur w w' x n : (∀ b, cur w' b = cur w b) → file_block w' x n = file_block w x n.
Proof.
  intros H. unfold file_block, ptr_at. by rewrite !H.
Qed.

Lemma path_ok_cur w w' x n : (∀ b, cur w' b = cur w b) → path_ok w x n → path_ok w' x n.
Proof. intros H. unfold path_ok. rewrite (file_block_cur _ _ _ _ H). unfold ptr_at. by rewrite H. Qed.

Lemma jfile_reads w w' c ja pos pos' j :
  jfile w c ja pos → reads w w' → f_journals w !! c = Some j →
  f_journals w' !! c = Some (j <| current_off := pos' * BSIZE |>) → 0 ≤ pos' ≤ jlen → jfile w' c ja pos'.
Proof.
  intros [Hd Hp (j0 & x & Hj0 & Ho & Hx & Hdev & Hty & Hsz & Hb)] Hr Hj Hj' Hp'. split; [|done|].
  - eapply one_disk_eq; [by apply rd_disks|done].
  - rewrite Hj in Hj0. injection Hj0 as <-. eexists _, x. split; [exact Hj'|]. split; [done|]. split_and!; try done.
    + change (sv6_journal (j <| current_off := pos' * BSIZE |>)) with (sv6_journal j). by rewrite (rd_inodes _ _ Hr).
    + intros n Hn. destruct (Hb n Hn) as (? & ? & ?). split_and!; [| |done].
      * apply path_ok_cur with w; [apply Hr|done].
      * rewrite (file_block_cur w); [apply Hr|done].
Qed.

(** ** Reading the journal *)

Definition blocks_ok (w : fs_world) (ja : list Z) : Prop := ∀ n, 0 ≤ n < jlen → block_ok (cur w (ja !!! Z.to_nat n)).

Lemma run_read_journal w c ja pos off :
  jfile w c ja pos → blocks_ok w ja → 0 ≤ off < jlen →
  ∃ w', run (read_journal c (off * BSIZE)) w = Done (Some (jblock w ja off)) w' ∧ quiet w w' ∧ ∀ b, cur w' b = cur w b.
Proof.
  intros [Hd Hp (j & x & Hj & Ho & Hx & Hdev & Hty & Hsz & Hb)] Hok Hoff.
  destruct (Hb off Hoff) as (Hpath & Hfb & Hne). unfold read_journal.
  rewrite (run_bind_done _ _ _ _ _ (run_jr_get _ _ _ _ Hj)).
  assert (block_ok (cur w (file_block w x off))) as Hbo by (rewrite Hfb; by apply Hok).
  destruct (run_readi_block w (sv6_journal j) x off) as (w' & Hr & Hq & Hc); try done.
  { rewrite Hsz. unfold jlen, PHYS_JOURNAL_SIZE, NDIRECT, NINDIRECT, BSIZE in *. lia. }
  { by rewrite Hfb. }
  rewrite (run_bind_done _ _ _ _ _ Hr) run_ret. exists w'. split_and!; [|done..].
  rewrite (proj2 (Z.eqb_eq _ _)); [done|]. by rewrite Hfb.
Qed.

Lemma run_read_journal_end w c ja pos :
  jfile w c ja pos → run (read_journal c (jlen * BSIZE)) w = Done None w.
Proof.
  intros [Hd Hp (j & x & Hj & Ho & Hx & Hdev & Hty & Hsz & Hb)]. unfold read_journal.
  rewrite (run_bind_done _ _ _ _ _ (run_jr_get _ _ _ _ Hj)).
  change (jlen * BSIZE) with PHYS_JOURNAL_SIZE. rewrite -Hsz.
  rewrite (run_bind_done _ _ _ _ _ (run_readi_end _ _ _ Hx Hty _ _)); [..|done];
    rewrite Hsz; unfold PHYS_JOURNAL_SIZE, NDIRECT, NINDIRECT, BSIZE; lia.
Qed.

Lemma jfile_offset w c ja pos :
  jfile w c ja pos → ∃ j, f_journals w !! c = Some j ∧ run (jr_get current_off c) w = Done (pos * BSIZE) w.
Proof.
  intros [Hd Hp (j & x & Hj & Ho & _)]. exists j. split; [done|]. by rewrite (run_jr_get _ _ _ _ Hj) Ho.
Qed.

(** Moving on to position [pos']. *)
Lemma run_update_offset w c ja pos pos' :
  jfile w c ja pos → 0 ≤ pos' ≤ jlen →
  ∃ w', run (update_offset c (pos' * BSIZE)) w = Done () w' ∧ reads w w' ∧ jfile w' c ja pos' ∧
    f_trans w' = f_trans w ∧ f_next w' = f_next w ∧ ∀ c', c' ≠ c → f_journals w' !! c' = f_journals w !! c'.
Proof.
  intros Hj Hp'. destruct (jfile_offset _ _ _ _ Hj) as (j & Ej & _). unfold update_offset.
  rewrite (run_bind_done _ _ _ _ _ (run_fassert _ _ _)).
  { apply Z.leb_le. unfold jlen, PHYS_JOURNAL_SIZE in *. unfold BSIZE. lia. }
  rewrite (run_jr_upd _ _ _ _ Ej). eexists. split; [done|].
  assert (reads w (w <| f_journals ::= <[c := j <| current_off := pos' * BSIZE |>]> |>)) as Hr by (split; try done; by destruct w).
  split_and!; [done| |by destruct w|by destruct w|].
  - eapply jfile_reads; [done..| |done]. apply lookup_insert_eq.
  - intros c' Hc'. by apply lookup_insert_ne.
Qed.

(** What one step of recovery on journal [c] does. *)
Definition jstep (w w' : fs_world) (c : Z) (ja : list Z) (pos' : Z) : Prop :=
  reads w w' ∧ jfile w' c ja pos' ∧ ∀ c', c' ≠ c → f_journals w' !! c' = f_journals w !! c'.

Lemma jstep_trans w1 w2 w3 c ja p2 p3 : jstep w1 w2 c ja p2 → jstep w2 w3 c ja p3 → jstep w1 w3 c ja p3.
Proof. intros (H1 & _ & E1) (H2 & H3 & E2). split_and!; [by etrans|done|]. intros c' Hc. by rewrite E2 // E1. Qed.

Lemma jblock_reads w w' ja pos : reads w w' → jblock w' ja pos = jblock w ja pos.
Proof. intros H. apply H. Qed.
Lemma blocks_ok_reads w w' ja : reads w w' → blocks_ok w ja → blocks_ok w' ja.
Proof. intros H Hok n Hn. rewrite (rd_cur _ _ H). by apply Hok. Qed.

(** Reading the block at the current position. *)
Lemma run_next_block w c ja pos :
  jfile w c ja pos → blocks_ok w ja → pos < jlen →
  ∃ w', jstep w w' c ja (pos + 1) ∧ f_trans w' = f_trans w ∧ f_next w' = f_next w ∧
    ∀ A (e : fprog A) (k : list Z → fprog A),
      run (offset ← jr_get current_off c; r ← read_journal c offset;
           match r with None => e | Some b => update_offset c (offset + BSIZE);; k b end) w =
      run (k (jblock w ja pos)) w'.
Proof.
  intros Hj Hok Hp. destruct (jfile_offset _ _ _ _ Hj) as (j & Ej & Ho).
  destruct (run_read_journal w c ja pos pos Hj Hok) as (w1 & Hr1 & Hq1 & Hc1); [pose proof (jf_pos _ _ _ _ Hj); lia|].
  pose proof (quiet_reads _ _ Hq1 Hc1) as Hrd.
  assert (jfile w1 c ja pos) as Hj1.
  { destruct Hj as [? Hpos (j0 & x & Hj0 & Hoff & Hrest)]. split; [eapply one_disk_eq; [by apply quiet_disks|done]|done|].
    exists j0, x. rewrite (quiet_journals _ _ Hq1) (quiet_inodes _ _ Hq1). destruct Hrest as (? & ? & ? & ? & Hb).
    split_and!; try done. intros n Hn. destruct (Hb n Hn) as (? & ? & ?).
    split_and!; [by apply path_ok_cur with w|by rewrite (file_block_cur w)|done]. }
  destruct (run_update_offset w1 c ja pos (pos + 1) Hj1) as (w2 & Hr2 & Hrd2 & Hj2 & Ht2 & Hn2 & Hjo);
    [pose proof (jf_pos _ _ _ _ Hj); lia|].
  exists w2. split_and!.
  - split_and!; [by etrans|done|]. intros c' Hc. by rewrite Hjo // (quiet_journals _ _ Hq1).
  - by rewrite Ht2 (quiet_trans_eq _ _ Hq1).
  - by rewrite Hn2 (quiet_next _ _ Hq1).
  - intros A e k. rewrite (run_bind_done _ _ _ _ _ Ho) (run_bind_done _ _ _ _ _ Hr1).
    replace (pos * BSIZE + BSIZE) with ((pos + 1) * BSIZE) by lia. by rewrite (run_bind_done _ _ _ _ _ Hr2).
Qed.

(** At the end of the journal there is no block. *)
Lemma run_no_block w c ja :
  jfile w c ja jlen →
  ∀ A (e : fprog A) (k : Z → list Z → fprog A),
    run (offset ← jr_get current_off c; r ← read_journal c offset;
         match r with None => e | Some b => k offset b end) w = run e w.
Proof.
  intros Hj A e k. destruct (jfile_offset _ _ _ _ Hj) as (j & Ej & Ho).
  by rewrite (run_bind_done _ _ _ _ _ Ho) (run_bind_done _ _ _ _ _ (run_read_journal_end _ _ _ _ Hj)).
Qed.

(** A transaction with the blocks [l], as recovery builds it. *)
Definition holds (w : fs_world) (t ts : Z) (l : list (Z * list Z)) : Prop :=
  ∃ x, f_trans w !! t = Some x ∧ commit_tsc x = ts ∧ bqueue x = None ∧ disks_written x = ∅ ∧
    ((λ b, (blocknum b, blockdata b)) <$> blocks x) = l.

Lemma run_add_block w t ts l bno data :
  holds w t ts l → n0 ≤ t →
  ∃ w', run (add_block t bno data) w = Done () w' ∧ reads w w' ∧ f_journals w' = f_journals w ∧
    f_next w' = f_next w ∧ holds w' t ts (l ++ [(bno, data)]) ∧ ∀ t', t' ≠ t → f_trans w' !! t' = f_trans w !! t'.
Proof.
  intros (x & Ht & Hts & Hq & Hdw & Hl) Hn. unfold add_block. rewrite (run_bind_done _ _ _ _ _ (run_get_tsc _)).
  erewrite run_tr_upd; [|done]. eexists. split; [done|]. split_and!; [split; try done; try (by destruct w)|by destruct w|by destruct w| |].
  - intros t' Hlt. apply lookup_insert_ne. lia.
  - eexists. split; [apply lookup_insert_eq|]. split_and!; [done..|]. simpl. by rewrite fmap_app Hl.
  - intros t' Hne. apply lookup_insert_ne. congruence.
Qed.

Lemma jfile_same w w' c ja pos : jfile w c ja pos → reads w w' → f_journals w' = f_journals w → jfile w' c ja pos.
Proof.
  intros Hj Hr E. destruct (jfile_offset _ _ _ _ Hj) as (j & Ej & _).
  eapply jfile_reads; [done..| |by apply Hj]. rewrite E Ej. f_equal.
  destruct Hj as [_ _ (j' & x & Ej' & Ho & _)]. rewrite Ej in Ej'. injection Ej' as <-. rewrite -Ho. by destruct j.
Qed.

Lemma jfile_at w w' c ja pos : jfile w c ja pos → quiet w w' → (∀ b, cur w' b = cur w b) → jfile w' c ja pos.
Proof. intros Hj Hq Hc. eapply jfile_same; [done|by apply quiet_reads|by apply quiet_journals]. Qed.

(** The data blocks. *)
Lemma run_data_loop n w c ja pos0 hd t ts l i pos :
  jfile w c ja pos0 → blocks_ok w ja → holds w t ts l → n0 ≤ t → 0 ≤ pos ≤ jlen → Z.of_nat n = nslots_startblk - i →
  ∃ w', run (loop (S n) (λ '(i, off),
      if (i <? nslots_startblk) && truth (hdr_blocknum hd i) then
        r ← read_journal c off;
        match r with
        | None => delete_transaction t;; mret (inr None)
        | Some b => add_block t (hdr_blocknum hd i) b;; mret (inl (i + 1, off + BSIZE))
        end
      else mret (inr (Some off))) (i, pos * BSIZE)) w =
      Done (match scan_data (jblock w ja) hd n i pos with Some (_, pos') => Some (pos' * BSIZE) | None => None end) w' ∧
    reads w w' ∧ f_journals w' = f_journals w ∧ f_next w' = f_next w ∧
    (∀ t', t' ≠ t → f_trans w' !! t' = f_trans w !! t') ∧
    match scan_data (jblock w ja) hd n i pos with Some (data, _) => holds w' t ts (l ++ data) | None => True end.
Proof.
  revert w l i pos. induction n as [|n IH]; intros w l i pos Hj Hok Ht Hn Hp Hni.
  { exists w. erewrite run_loop_exit.
    2:{ destruct (Z.ltb_spec i nslots_startblk); [lia|]. done. }
    cbn [scan_data]. rewrite app_nil_r. split_and!; done. }
  destruct (Z.eqb_spec (hdr_blocknum hd i) 0) as [Ez|Ez].
  { exists w. erewrite run_loop_exit.
    2:{ rewrite Ez /truth Z.eqb_refl andb_false_r. done. }
    cbn [scan_data]. rewrite Ez Z.eqb_refl app_nil_r. split_and!; done. }
  assert ((i <? nslots_startblk) && truth (hdr_blocknum hd i) = true) as Hcond.
  { rewrite (proj2 (Z.ltb_lt _ _)); [lia|]. rewrite /truth (proj2 (Z.eqb_neq _ _)) //. }
  cbn [scan_data]. rewrite (proj2 (Z.eqb_neq _ _) Ez). destruct (Z.ltb_spec pos jlen) as [Hlt|Hge].
  - destruct (run_read_journal w c ja pos0 pos Hj Hok) as (w1 & Hr1 & Hq1 & Hc1); [lia|].
    pose proof (quiet_reads _ _ Hq1 Hc1) as Hrd1.
    assert (holds w1 t ts l) as Ht1 by (destruct Ht as (x & ? & ?); exists x; by rewrite (quiet_trans_eq _ _ Hq1)).
    destruct (run_add_block w1 t ts l (hdr_blocknum hd i) (jblock w ja pos) Ht1 Hn) as (w2 & Hr2 & Hrd2 & Hj2 & Hn2 & Ht2 & Ho2).
    assert (reads w w2) as Hrd by by etrans.
    assert (f_journals w2 = f_journals w) as Ej by by rewrite Hj2 (quiet_journals _ _ Hq1).
    destruct (IH w2 (l ++ [(hdr_blocknum hd i, jblock w ja pos)]) (i + 1) (pos + 1)) as (w' & Hr & Hrd' & Hj' & Hn' & Ho' & Hfin);
      [by eapply jfile_same|by eapply blocks_ok_reads|done|done|lia|lia|].
    assert (scan_data (jblock w2 ja) hd n (i + 1) (pos + 1) = scan_data (jblock w ja) hd n (i + 1) (pos + 1)) as Es.
    { apply scan_data_ext. intros m. by apply jblock_reads. }
    rewrite Es in Hr Hfin. exists w'. split_and!.
    + erewrite run_loop_again.
      2:{ rewrite Hcond (run_bind_done _ _ _ _ _ Hr1) (run_bind_done _ _ _ _ _ Hr2). done. }
      replace (pos * BSIZE + BSIZE) with ((pos + 1) * BSIZE) by lia. rewrite Hr.
      by destruct (scan_data (jblock w ja) hd n (i + 1) (pos + 1)) as [[]|].
    + by etrans.
    + congruence.
    + rewrite Hn' Hn2. by apply quiet_next.
    + intros t' Hne. by rewrite Ho' // Ho2 // (quiet_trans_eq _ _ Hq1).
    + destruct (scan_data (jblock w ja) hd n (i + 1) (pos + 1)) as [[data p]|]; [|done]. simpl. by rewrite -app_assoc in Hfin.
  - assert (pos = jlen) as -> by lia. destruct Ht as (x & Ht & ? & Hq & ?).
    eexists. split; [|split_and!].
    + erewrite run_loop_exit; [done|]. rewrite Hcond (run_bind_done _ _ _ _ _ (run_read_journal_end _ _ _ _ Hj)).
      unfold delete_transaction. erewrite run_bind_done; [|erewrite run_bind_done; [|by apply run_tr_get]; rewrite Hq; done]. done.
    + split; try done; try (by destruct w). intros t' Hlt. apply lookup_delete_ne. lia.
    + by destruct w.
    + by destruct w.
    + intros t' Hne. by apply lookup_delete_ne.
    + done.
Qed.

Lemma run_delete_transaction w t ts l :
  holds w t ts l → n0 ≤ t →
  ∃ w', run (delete_transaction t) w = Done () w' ∧ reads w w' ∧ f_journals w' = f_journals w ∧
    f_next w' = f_next w ∧ ∀ t', t' ≠ t → f_trans w' !! t' = f_trans w !! t'.
Proof.
  intros (x & Ht & _ & Hq & _) Hn. eexists. unfold delete_transaction. split; [|split_and!].
  - erewrite run_bind_done; [|by apply run_tr_get]. rewrite Hq. done.
  - split; try done; try (by destruct w). intros t' Hlt. apply lookup_delete_ne. lia.
  - by destruct w.
  - by destruct w.
  - intros t' Hne. by apply lookup_delete_ne.
Qed.

(** [new transaction(ts)] with its commit time stamp. *)
Lemma run_start_transaction w ts :
  n0 ≤ f_next w →
  ∃ w', run (new_transaction_at ts) w = Done (f_next w) w' ∧
  ∃ w'', run (tr_upd (f_next w) (λ x, x <| commit_tsc := ts |>)) w' = Done () w'' ∧ reads w w'' ∧
    f_journals w'' = f_journals w ∧ f_next w'' = f_next w + 1 ∧ holds w'' (f_next w) ts [] ∧
    ∀ t', t' ≠ f_next w → f_trans w'' !! t' = f_trans w !! t'.
Proof.
  intros Hn. eexists. split; [done|]. eexists. split; [apply run_tr_upd; apply lookup_insert_eq|]. split_and!.
  - split; try done; try (by destruct w).
    + destruct w. cbn. lia.
    + intros t Hlt. destruct w. cbn in *. rewrite !lookup_insert_ne //; lia.
  - by destruct w.
  - by destruct w.
  - eexists. split; [apply lookup_insert_eq|]. done.
  - intros t' Hne. destruct w. cbn in *. by rewrite !lookup_insert_ne.
Qed.

Lemma run_get_data w c ja pos t ts hd :
  jfile w c ja pos → blocks_ok w ja → holds w t ts [] → n0 ≤ t → truth (hdr_num_addr hd) = false →
  ∃ w', run (get_txn_data_blocks c hd t) w =
      Done (bool_decide (is_Some (scan_data (jblock w ja) hd (Z.to_nat nslots_startblk) 0 pos))) w' ∧
    reads w w' ∧ (∀ c', c' ≠ c → f_journals w' !! c' = f_journals w !! c') ∧ f_next w' = f_next w ∧
    (∀ t', t' ≠ t → f_trans w' !! t' = f_trans w !! t') ∧
    match scan_data (jblock w ja) hd (Z.to_nat nslots_startblk) 0 pos with
    | Some (data, pos') => holds w' t ts data ∧ jfile w' c ja pos'
    | None => jfile w' c ja pos
    end.
Proof.
  intros Hj Hok Ht Hn Hna. unfold get_txn_data_blocks. destruct (jfile_offset _ _ _ _ Hj) as (j & Ej & Ho).
  rewrite (run_bind_done _ _ _ _ _ Ho) Hna.
  destruct (run_data_loop (Z.to_nat nslots_startblk) w c ja pos hd t ts [] 0 pos) as (w1 & Hr1 & Hrd1 & Hj1 & Hn1 & Ho1 & Hfin);
    [done..|apply Hj|done|].
  rewrite (run_bind_done _ _ _ _ _ Hr1). destruct (scan_data _ hd _ 0 pos) as [[data pos']|] eqn:Es.
  - pose proof (jfile_same _ _ _ _ _ Hj Hrd1 Hj1) as Hjf.
    destruct (scan_data_pos _ _ _ _ _ _ _ Es) as [? ?]; [apply Hj|].
    destruct (run_update_offset w1 c ja pos pos' Hjf) as (w2 & Hr2 & Hrd2 & Hjf2 & Ht2 & Hn2 & Hjo);
      [pose proof (jf_pos _ _ _ _ Hj); lia|].
    exists w2. rewrite (run_bind_done _ _ _ _ _ (run_fassert _ _ eq_refl)) (run_bind_done _ _ _ _ _ Hr2). split_and!.
    + by rewrite bool_decide_eq_true_2.
    + by etrans.
    + intros c' Hc. by rewrite Hjo // Hj1.
    + by rewrite Hn2.
    + intros t' Hne. by rewrite Ht2 Ho1.
    + destruct Hfin as (x & Hx & ?). exists x. by rewrite Ht2.
    + done.
  - exists w1. split_and!; [by rewrite bool_decide_eq_false_2; [by intros []|]|done| |done|done|].
    + intros c' Hc. by rewrite Hj1.
    + by eapply jfile_same.
Qed.

Lemma run_get_commit w c ja pos t ts l :
  jfile w c ja pos → blocks_ok w ja → holds w t ts l → n0 ≤ t →
  ∃ w', run (get_txn_commit_block c t) w = Done (commit_at (jblock w ja) ts pos) w' ∧
    reads w w' ∧ (∀ c', c' ≠ c → f_journals w' !! c' = f_journals w !! c') ∧ f_next w' = f_next w ∧
    (∀ t', t' ≠ t → f_trans w' !! t' = f_trans w !! t') ∧
    (if commit_at (jblock w ja) ts pos then holds w' t ts l ∧ jfile w' c ja (pos + 1)
     else ∃ pos', jfile w' c ja pos').
Proof.
  intros Hj Hok Ht Hn. unfold get_txn_commit_block, commit_at.
  destruct (Z.ltb_spec pos jlen) as [Hlt|Hge].
  - destruct (run_next_block w c ja pos Hj Hok Hlt) as (w1 & (Hrd1 & Hj1 & Hjo) & Ht1 & Hn1 & Hr). rewrite Hr.
    assert (holds w1 t ts l) as Hh1 by (destruct Ht as (x & ? & ?); exists x; by rewrite Ht1).
    destruct Hh1 as (x & Hx & Hts & Hrest).
    rewrite (run_bind_done _ _ _ _ _ (run_tr_get _ _ _ _ Hx)) Hts.
    destruct (hdr_type (jblock w ja pos) =? JOURNAL_TXN_COMMIT), (hdr_timestamp (jblock w ja pos) =? ts); simpl.
    1:{ exists w1. split_and!; [done..|by intros; rewrite Ht1| |done]. by exists x. }
    all: destruct (run_delete_transaction w1 t ts l) as (w2 & Hr2 & Hrd2 & Hj2 & Hn2 & Ho2); [by exists x|done|];
      exists w2; rewrite (run_bind_done _ _ _ _ _ Hr2); split_and!;
      [done|by etrans|by intros; rewrite Hj2 Hjo|by rewrite Hn2|by intros; rewrite Ho2 // Ht1|];
      exists (pos + 1); by eapply jfile_same.
  - assert (pos = jlen) as -> by (pose proof (jf_pos _ _ _ _ Hj); lia).
    rewrite (run_no_block _ _ _ Hj). destruct (run_delete_transaction w t ts l Ht Hn) as (w2 & Hr2 & Hrd2 & Hj2 & Hn2 & Ho2).
    exists w2. rewrite (run_bind_done _ _ _ _ _ Hr2). split_and!; [done..|by intros; rewrite Hj2|done|done|].
    exists jlen. by eapply jfile_same.
Qed.
End journal.

(** ** Recovery computes [scan] *)

(** The transactions [vec] hold what [txns] says. *)
Definition found (w : fs_world) (lo hi : Z) (vec : list Z) (txns : list txn) : Prop :=
  Forall2 (λ t T, lo ≤ t < hi ∧ holds w t (t_ts T) (t_blocks T)) vec txns ∧ NoDup vec.

Lemma found_range w lo hi vec txns t : found w lo hi vec txns → t ∈ vec → lo ≤ t < hi.
Proof.
  intros [H _] Ht. apply list_elem_of_lookup in Ht as [i Hi].
  destruct (Forall2_lookup_l _ _ _ _ _ H Hi) as (T & _ & ? & _). done.
Qed.

(** What the recovery of one journal does to the rest of the state. *)
Record recovers (n0 : Z) (w w' : fs_world) (c : Z) (ja : list Z) : Prop := Recovers {
  rc_reads : reads n0 w w';
  rc_others : ∀ c', c' ≠ c → f_journals w' !! c' = f_journals w !! c';
  rc_old : ∀ t, t < f_next w → f_trans w' !! t = f_trans w !! t;
}.

Lemma scan_ext blk blk' skip fuel last pos :
  (∀ n, blk' n = blk n) → scan blk' skip fuel last pos = scan blk skip fuel last pos.
Proof.
  intros H. revert last pos. induction fuel as [|fuel IH]; intros last pos; [done|]. simpl.
  unfold start_at, data_of, commit_at. rewrite !H.
  rewrite (scan_data_ext _ _ _ _ _ _ H). destruct (_ && _); [|done]. destruct (scan_data blk _ _ _ _) as [[data pos']|]; [|done].
  by rewrite !H IH.
Qed.

Lemma run_recover_one n0 w c ja pos skip last vec :
  jfile w c ja pos → blocks_ok w ja → n0 ≤ f_next w →
  (start_at (jblock w ja) last pos = true → truth (hdr_num_addr (jblock w ja pos)) = false) →
  ∃ r w', run (recover_one c skip last vec) w = Done r w' ∧ recovers n0 w w' c ja ∧ (∃ pos', jfile w' c ja pos') ∧
    f_next w ≤ f_next w' ∧
    let ts := hdr_timestamp (jblock w ja pos) in
    if start_at (jblock w ja) last pos then
      match data_of (jblock w ja) pos with
      | None => r = inr vec
      | Some (data, pos') =>
          if commit_at (jblock w ja) ts pos' then
            jfile w' c ja (pos' + 1) ∧
            if ts <=? skip then r = inl (ts, vec)
            else ∃ t, r = inl (ts, vec ++ [t]) ∧ f_next w ≤ t < f_next w' ∧ holds w' t ts data
          else r = inr vec
      end
    else r = inr vec.
Proof.
  intros Hj Hok Hn Hna. destruct (jfile_offset _ _ _ _ Hj) as (j & Ej & Ho). unfold recover_one.
  rewrite (run_bind_done _ _ _ _ _ Ho). destruct (Z.ltb_spec pos jlen) as [Hlt|Hge].
  2:{ assert (pos = jlen) as -> by (pose proof (jf_pos _ _ _ _ Hj); lia).
      exists (inr vec), w. split_and!; [done|by split|by exists jlen|done|done]. }
  destruct (Z.leb_spec PHYS_JOURNAL_SIZE (pos * BSIZE)) as [Hbad|_].
  { unfold jlen, PHYS_JOURNAL_SIZE, NDIRECT, NINDIRECT, BSIZE in *. lia. }
  destruct (run_next_block n0 w c ja pos Hj Hok Hlt) as (w1 & (Hrd1 & Hj1 & Hjo1) & Ht1 & Hn1 & Hr1).
  rewrite run_bind. unfold get_txn_start_block. rewrite Hr1 run_ret /=. set (b := jblock w ja pos) in *.
  assert (recovers n0 w w1 c ja) as Hrc1 by (split; [done..|]; intros; by rewrite Ht1).
  unfold start_at in *. fold b in Hna |- *. rewrite (proj2 (Z.ltb_lt _ _) Hlt) in Hna |- *. cbv zeta. simpl in *.
  destruct (hdr_type b =? JOURNAL_TXN_START) eqn:Ety; simpl in *.
  2:{ exists (inr vec), w1. split_and!; [done|done|by exists (pos + 1)|by rewrite Hn1|done]. }
  destruct (hdr_timestamp b <? last) eqn:Elast; simpl in *.
  { exists (inr vec), w1. split_and!; [done|done|by exists (pos + 1)|by rewrite Hn1|done]. }
  destruct (run_start_transaction n0 w1 (hdr_timestamp b)) as (w2 & Hr2 & w3 & Hr3 & Hrd3 & Hj3 & Hn3 & Hh3 & Ho3); [by rewrite Hn1|].
  rewrite (run_bind_done _ _ _ _ _ Hr2) (run_bind_done _ _ _ _ _ Hr3). rewrite Hn1 in Hh3, Ho3, Hn3 |- *.
  pose proof (reads_trans _ _ _ _ Hrd1 Hrd3) as Hrd13.
  destruct (run_get_data n0 w3 c ja (pos + 1) (f_next w) (hdr_timestamp b) b) as (w4 & Hr4 & Hrd4 & Hjo4 & Hn4 & Ho4 & Hfin4);
    [by eapply jfile_same|by eapply blocks_ok_reads|done|done|by apply Hna|].
  pose proof (reads_trans _ _ _ _ Hrd13 Hrd4) as Hrd14.
  assert (∀ n, jblock w3 ja n = jblock w ja n) as Hjb3 by (intros; by apply (jblock_reads n0)).
  assert (scan_data (jblock w3 ja) b (Z.to_nat nslots_startblk) 0 (pos + 1) = data_of (jblock w ja) pos) as Edata.
  { unfold data_of. fold b. by apply scan_data_ext. }
  rewrite Edata in Hr4, Hfin4. rewrite (run_bind_done _ _ _ _ _ Hr4).
  assert (∀ w', reads n0 w w' → (∀ c', c' ≠ c → f_journals w' !! c' = f_journals w4 !! c') →
    (∀ t, t ≠ f_next w → f_trans w' !! t = f_trans w4 !! t) → recovers n0 w w' c ja) as Hrc.
  { intros w' Hrd Hjo Ht. split; [done| |].
    - intros c' Hc. rewrite (Hjo _ Hc) (Hjo4 _ Hc) Hj3. exact (Hjo1 _ Hc).
    - intros t Hlt'. assert (t ≠ f_next w) as Hne by lia.
      rewrite (Ht _ Hne) (Ho4 _ Hne) (Ho3 _ Hne). by rewrite Ht1. }
  destruct (data_of (jblock w ja) pos) as [[data pos']|] eqn:Ed; simpl.
  2:{ exists (inr vec), w4. split_and!; [done|by apply Hrc|by exists (pos + 1)|lia|done]. }
  destruct Hfin4 as [Hh4 Hj4].
  destruct (run_get_commit n0 w4 c ja pos' (f_next w) (hdr_timestamp b) data) as (w5 & Hr5 & Hrd5 & Hjo5 & Hn5 & Ho5 & Hfin5);
    [done|by eapply blocks_ok_reads|done|done|].
  rewrite (run_bind_done _ _ _ _ _ Hr5). assert (commit_at (jblock w4 ja) (hdr_timestamp b) pos' = commit_at (jblock w ja) (hdr_timestamp b) pos') as Ec
    by (unfold commit_at; by rewrite (jblock_reads n0 w w4)).
  rewrite Ec in Hfin5 |- *. pose proof (reads_trans _ _ _ _ Hrd14 Hrd5) as Hrd15.
  destruct (commit_at (jblock w ja) (hdr_timestamp b) pos'); simpl.
  2:{ exists (inr vec), w5. split_and!; [done|by apply Hrc|done|lia|done]. }
  destruct Hfin5 as [Hh5 Hj5]. destruct (hdr_timestamp b <=? skip).
  - destruct (run_delete_transaction n0 w5 (f_next w) (hdr_timestamp b) data Hh5 Hn) as (w6 & Hr6 & Hrd6 & Hj6 & Hn6 & Ho6).
    exists (inl (hdr_timestamp b, vec)), w6. rewrite (run_bind_done _ _ _ _ _ Hr6).
    assert (jfile w6 c ja (pos' + 1)) as Hjf by by eapply jfile_same.
    split_and!; [done| |by eexists|lia|done|done]. apply Hrc; [by eapply reads_trans| |].
    + intros c' Hc. rewrite Hj6. exact (Hjo5 _ Hc).
    + intros t Ht. rewrite (Ho6 _ Ht). exact (Ho5 _ Ht).
  - exists (inl (hdr_timestamp b, vec ++ [f_next w])), w5. split_and!; [done|by apply Hrc|by eexists|lia|done|].
    exists (f_next w). split_and!; [done|lia|lia|done].
Qed.

Lemma recovers_trans n0 w1 w2 w3 c ja :
  f_next w1 ≤ f_next w2 → recovers n0 w1 w2 c ja → recovers n0 w2 w3 c ja → recovers n0 w1 w3 c ja.
Proof.
  intros Hn [H1 Hj1 Ht1] [H2 Hj2 Ht2]. split; [by eapply reads_trans| |].
  - intros c' Hc. rewrite (Hj2 _ Hc). by apply Hj1.
  - intros t Hlt. rewrite (Ht2 t); [lia|]. by apply Ht1.
Qed.

(** [holds] of a transaction that a later step does not touch. *)
Lemma holds_later n0 w w' c ja t ts l : recovers n0 w w' c ja → t < f_next w → holds w t ts l → holds w' t ts l.
Proof. intros [_ _ H] Hlt (x & Hx & Hr). exists x. rewrite (H _ Hlt). done. Qed.

Lemma run_recover_loop fuel n0 w c ja pos skip last vec txns :
  jfile w c ja pos → blocks_ok w ja → n0 ≤ f_next w → scan (jblock w ja) skip fuel last pos = Some txns →
  ∃ w' vec', run (loop fuel (λ '(last, vec), recover_one c skip last vec) (last, vec)) w = Done (vec ++ vec') w' ∧
    recovers n0 w w' c ja ∧ f_next w ≤ f_next w' ∧ (∃ pos', jfile w' c ja pos') ∧ found w' (f_next w) (f_next w') vec' txns.
Proof.
  revert w pos last vec txns. induction fuel as [|fuel IH]; intros w pos last vec txns Hj Hok Hn; [done|].
  cbn [scan]. intros Hs.
  destruct (run_recover_one n0 w c ja pos skip last vec Hj Hok Hn) as (r & w1 & Hr1 & Hrc1 & Hjf1 & Hn1 & Hcase).
  { intros Hst. rewrite Hst in Hs. by destruct (truth (hdr_num_addr (jblock w ja pos))). }
  assert (r = inr vec → txns = [] →
    ∃ w' vec', run (loop (S fuel) (λ '(last, vec), recover_one c skip last vec) (last, vec)) w = Done (vec ++ vec') w' ∧
    recovers n0 w w' c ja ∧ f_next w ≤ f_next w' ∧ (∃ pos', jfile w' c ja pos') ∧ found w' (f_next w) (f_next w') vec' txns) as Hstop.
  { intros -> ->. exists w1, []. rewrite app_nil_r. split_and!; [by apply run_loop_exit|done..|]. split; constructor. }
  cbv zeta in Hcase. destruct (start_at (jblock w ja) last pos); [|apply Hstop; [done|congruence]].
  set (ts := hdr_timestamp (jblock w ja pos)) in *.
  destruct (truth (hdr_num_addr (jblock w ja pos))); [done|].
  destruct (data_of (jblock w ja) pos) as [[data pos']|]; [|apply Hstop; [done|congruence]].
  destruct (commit_at (jblock w ja) ts pos'); [|apply Hstop; [done|congruence]].
  destruct Hcase as [Hj1 Hcase].
  destruct (scan (jblock w ja) skip fuel ts (pos' + 1)) as [rest|] eqn:Erest; [|done].
  injection Hs as <-. pose proof (rc_reads _ _ _ _ _ Hrc1) as Hrd1.
  rewrite -(scan_ext _ (jblock w1 ja)) in Erest; [intros; by apply (jblock_reads n0)|].
  assert (∃ vec1 l1, r = inl (ts, vec ++ vec1) ∧ found w1 (f_next w) (f_next w1) vec1 l1 ∧
    (if ts <=? skip then rest else Txn ts data :: rest) = l1 ++ rest) as (vec1 & l1 & -> & [Hf1 Hnd1] & ->).
  { destruct (ts <=? skip).
    - exists [], []. rewrite app_nil_r. split_and!; [done|split; constructor|done].
    - destruct Hcase as (t & -> & Ht & Hh). exists [t], [Txn ts data]. split_and!; [done| |done].
      split; [|apply NoDup_singleton]. constructor; [done|constructor]. }
  destruct (IH w1 (pos' + 1) ts (vec ++ vec1) rest) as (w2 & vec2 & Hr2 & Hrc2 & Hn2 & Hjf2 & Hf2 & Hnd2);
    [done|by eapply blocks_ok_reads|lia|done|].
  exists w2, (vec1 ++ vec2). split_and!.
  - rewrite (run_loop_again _ _ _ _ (ts, vec ++ vec1) w1) //. by rewrite Hr2 app_assoc.
  - by eapply recovers_trans.
  - lia.
  - done.
  - split.
    + apply Forall2_app.
      * eapply Forall2_impl; [exact Hf1|]. intros t T [Ht Hh]. split; [lia|]. eapply holds_later; [exact Hrc2|lia|done].
      * eapply Forall2_impl; [exact Hf2|]. intros t T [Ht Hh]. split; [lia|done].
    + apply NoDup_app. split_and!; [done| |done]. intros t Ht1 Ht2.
      apply (found_range w1 _ _ _ _ _ (conj Hf1 Hnd1)) in Ht1. apply (found_range w2 _ _ _ _ _ (conj Hf2 Hnd2)) in Ht2. lia.
Qed.

Lemma scan_journal_ext blk blk' : (∀ n, blk' n = blk n) → scan_journal blk' = scan_journal blk.
Proof. intros H. unfold scan_journal. rewrite H. by rewrite (scan_ext blk blk'). Qed.

(** ** The whole journal *)

(** The inode of the journal of [c] is not locked. *)
Definition unlocked (w : fs_world) (c : Z) : Prop :=
  ∃ j x, f_journals w !! c = Some j ∧ f_inodes w !! sv6_journal j = Some x ∧ busy x = false ∧ readbusy x = 0.

Definition with_inodes (w : fs_world) (m : gmap Z inode) : fs_world := w <| f_inodes := m |>.

Lemma jfile_inodes w c ja pos i x y :
  jfile w c ja pos → f_inodes w !! i = Some x →
  dev y = dev x → itype y = itype x → size y = size x → addrs y = addrs x →
  jfile (with_inodes w (<[i := y]> (f_inodes w))) c ja pos.
Proof.
  intros [Hd Hp (j & z & Hj & Ho & Hz & Hdev & Hty & Hsz & Hb)] Hx Ed Et Es Ea. split; [done|done|].
  destruct (decide (sv6_journal j = i)) as [<-|Hne].
  - rewrite Hx in Hz. injection Hz as <-. exists j, y. split_and!; try done; try congruence.
    + apply lookup_insert_eq.
    + intros n Hn. destruct (Hb n Hn) as (Hpo & Hfb & ?).
      assert (∀ n, file_block (with_inodes w (<[sv6_journal j := y]> (f_inodes w))) y n = file_block w x n) as E.
      { intros m. unfold file_block. by rewrite Ea. }
      split_and!; [|by rewrite E|done]. unfold path_ok in *. by rewrite E Ea.
  - exists j, z. split_and!; try done. change (<[i := y]> (f_inodes w) !! sv6_journal j = Some z). by rewrite lookup_insert_ne.
Qed.

Lemma run_recover_journal n0 w c ja vec txns :
  jfile w c ja 0 → blocks_ok w ja → unlocked w c → n0 ≤ f_next w → scan_journal (jblock w ja) = Some txns →
  ∃ w' vec', run (recover_journal c vec) w = Done (vec ++ vec') w' ∧
    recovers n0 w w' c ja ∧ f_next w ≤ f_next w' ∧ (∃ pos', jfile w' c ja pos') ∧ found w' (f_next w) (f_next w') vec' txns.
Proof.
  intros Hj Hok (j & x & Ej & Ex & Hbusy & Hrb) Hn Hs. unfold recover_journal.
  rewrite (run_bind_done _ _ _ _ _ (run_jr_get _ _ _ _ Ej)).
  set (y := x <| busy := true |> <| readbusy ::= Z.succ |>).
  set (w1 := with_inodes w (<[sv6_journal j := y]> (f_inodes w))).
  assert (run (ilock_write (sv6_journal j)) w = Done () w1) as Hlock.
  { unfold ilock_write. rewrite run_act Ex Hbusy Hrb /=. done. }
  rewrite (run_bind_done _ _ _ _ _ Hlock).
  assert (jfile w1 c ja 0) as Hj1 by (eapply jfile_inodes; done).
  assert (∀ b, cur w1 b = cur w b) as Hc1 by done.
  destruct (run_next_block n0 w1 c ja 0) as (w2 & (Hrd2 & Hj2 & Hjo2) & Ht2 & Hn2 & Hr2); [done|done|done|].
  set (s := if bool_decide (jblock w ja 0 = zero_block) then None
            else if hdr_type (jblock w ja 0) =? JOURNAL_TXN_SKIP then Some (hdr_timestamp (jblock w ja 0)) else None).
  assert (run (get_txn_skip_block c) w1 = Done s w2) as Hskip.
  { unfold get_txn_skip_block. rewrite Hr2. done. }
  rewrite (run_bind_done _ _ _ _ _ Hskip).
  assert (∃ w3 vec', run (match s with None => mret vec | Some skip_upto_tsc =>
      loop (Z.to_nat (PHYS_JOURNAL_SIZE / BSIZE + 1)) (λ '(last_tsc, vec), recover_one c skip_upto_tsc last_tsc vec) (0, vec) end) w2 =
      Done (vec ++ vec') w3 ∧ recovers n0 w2 w3 c ja ∧ f_next w2 ≤ f_next w3 ∧ (∃ pos', jfile w3 c ja pos') ∧
      found w3 (f_next w2) (f_next w3) vec' txns) as (w3 & vec' & Hr3 & Hrc3 & Hn3 & [pos' Hj3] & Hf3).
  { assert (blocks_ok w2 ja) as Hok2 by (by eapply blocks_ok_reads; [exact Hrd2|]).
    assert (s = None → txns = [] → ∃ w3 vec', Done vec w2 = Done (vec ++ vec') w3 ∧ recovers n0 w2 w3 c ja ∧
      f_next w2 ≤ f_next w3 ∧ (∃ pos', jfile w3 c ja pos') ∧ found w3 (f_next w2) (f_next w3) vec' txns) as Hnone.
    { intros _ ->. exists w2, []. rewrite app_nil_r. split_and!; [done|by split; [apply reads_refl|..]|done|by eexists|].
      split; constructor. }
    subst s. unfold scan_journal in Hs. destruct (bool_decide _); [apply Hnone; [done|congruence]|].
    destruct (_ =? _); [|apply Hnone; [done|congruence]].
    apply (run_recover_loop _ n0 w2 c ja (0 + 1)); [done..|by rewrite Hn2|].
    rewrite -Hs. apply scan_ext. intros n. rewrite (jblock_reads n0 w1) //. }
  rewrite (run_bind_done _ _ _ _ _ Hr3).
  pose proof (rc_reads _ _ _ _ _ Hrc3) as Hrd3.
  assert (f_inodes w3 = f_inodes w1) as Ei by by rewrite (rd_inodes _ _ _ Hrd3) (rd_inodes _ _ _ Hrd2).
  assert (f_inodes w3 !! sv6_journal j = Some y) as Ey by (rewrite Ei; apply lookup_insert_eq).
  set (w4 := with_inodes w3 (<[sv6_journal j := y <| readbusy ::= Z.pred |> <| busy := false |>]> (f_inodes w3))).
  assert (run (iunlock (sv6_journal j)) w3 = Done () w4) as Hunlock.
  { unfold iunlock. rewrite (run_bind_done _ _ _ _ _ (run_ip_get _ _ _ _ Ey)) /=.
    replace (truth (Z.succ (readbusy x)) || true) with true by by rewrite orb_true_r. by rewrite (run_ip_upd _ _ _ _ Ey). }
  rewrite (run_bind_done _ _ _ _ _ Hunlock) run_ret. exists w4, vec'.
  assert (y <| readbusy ::= Z.pred |> <| busy := false |> = x) as Eyx.
  { subst y. destruct x. cbn in *. subst. done. }
  assert (f_inodes w4 = f_inodes w) as Ei4.
  { change (f_inodes w4) with (<[sv6_journal j := y <| readbusy ::= Z.pred |> <| busy := false |>]> (f_inodes w3)).
    rewrite Eyx Ei. change (f_inodes w1) with (<[sv6_journal j := y]> (f_inodes w)).
    rewrite insert_insert_eq. by apply insert_id. }
  split_and!; [done| | | |].
  - split.
    + split; [change (f_disks w4) with (f_disks w3)|done|change (f_junk w4) with (f_junk w3)| | |].
      * by rewrite (rd_disks _ _ _ Hrd3) (rd_disks _ _ _ Hrd2).
      * by rewrite (rd_junk _ _ _ Hrd3) (rd_junk _ _ _ Hrd2).
      * intros b. change (cur w4 b) with (cur w3 b). by rewrite (rd_cur _ _ _ Hrd3) (rd_cur _ _ _ Hrd2).
      * change (f_next w4) with (f_next w3). etrans; [|exact Hn3]. by rewrite Hn2.
      * intros t Ht. change (f_trans w4 !! t) with (f_trans w3 !! t).
        by rewrite (rd_trans _ _ _ Hrd3 _ Ht) (rd_trans _ _ _ Hrd2 _ Ht).
    + intros c' Hc. change (f_journals w4 !! c') with (f_journals w3 !! c').
      by rewrite (rc_others _ _ _ _ _ Hrc3 _ Hc) (Hjo2 _ Hc).
    + intros t Ht. change (f_trans w4 !! t) with (f_trans w3 !! t). rewrite (rc_old _ _ _ _ _ Hrc3); [by rewrite Hn2|].
      by rewrite Ht2.
  - change (f_next w4) with (f_next w3). etrans; [|exact Hn3]. by rewrite Hn2.
  - exists pos'. by eapply jfile_inodes.
  - destruct Hf3 as [Hf Hnd]. split; [|done]. rewrite Hn2 in Hf. exact Hf.
Qed.
