(* ===== verification/FsRecords.v ===== *)
(** * The records in a journal

    What [scan] makes of a journal that holds a list of records, of one that
    is being written, and of blocks left over from earlier records. *)

From stdpp Require Import sorting.
From S2P Require Import Prelude FsBytes FsWorld FsDisk FsTrans FsBlocks FsInode FsView FsJournal FsHeaders FsScan.

(** ** One record *)

(** A block that cannot be taken for a start or a commit block. *)
Definition plain (b : list Z) : Prop := hdr_type b ≠ JOURNAL_TXN_START ∧ hdr_type b ≠ JOURNAL_TXN_COMMIT.

Definition start_of (b : list Z) (ts : Z) : Prop :=
  hdr_type b = JOURNAL_TXN_START ∧ hdr_timestamp b = ts ∧ hdr_num_addr b = 0.
Definition commit_of (b : list Z) (ts : Z) : Prop :=
  hdr_type b = JOURNAL_TXN_COMMIT ∧ hdr_timestamp b = ts.

(** The transaction [T] is at position [p]; the next one would be at [p']. *)
Record record_at (blk : Z → list Z) (p : Z) (T : txn) (p' : Z) : Prop := RecordAt {
  ra_end : p' = p + Z.of_nat (length (t_blocks T)) + 2 ∧ p' ≤ jlen;
  ra_start : start_of (blk p) (t_ts T);
  ra_data : data_of blk p = Some (t_blocks T, p' - 1);
  ra_commit : commit_of (blk (p' - 1)) (t_ts T);
  ra_plain : ∀ n, p < n < p' - 1 → plain (blk n);
}.

Inductive records (blk : Z → list Z) : Z → list txn → Z → Prop :=
| records_nil p : records blk p [] p
| records_cons p T p1 l p2 : record_at blk p T p1 → records blk p1 l p2 → records blk p (T :: l) p2.

Lemma records_app blk p l1 l2 p2 :
  records blk p (l1 ++ l2) p2 ↔ ∃ p1, records blk p l1 p1 ∧ records blk p1 l2 p2.
Proof.
  revert p. induction l1 as [|T l1 IH]; intros p; simpl.
  - split; [intros H; exists p; split; [constructor|done]|]. intros (p1 & H1 & H2). by inversion H1; subst.
  - split.
    + intros H. inversion H as [|? ? q ? ? Hr Hl]; subst. apply IH in Hl as (p1 & ? & ?). exists p1. split; [by econstructor|done].
    + intros (p1 & H1 & H2). inversion H1; subst. econstructor; [done|]. apply IH. by eexists.
Qed.

Lemma records_le blk p l p' : records blk p l p' → p ≤ p'.
Proof. induction 1 as [|p T p1 l p2 [[? ?] _ _ _ _] _ IH]; lia. Qed.

Lemma records_length blk p l p' : records blk p l p' → p + 2 * Z.of_nat (length l) ≤ p'.
Proof. induction 1 as [|p T p1 l p2 [[? ?] _ _ _ _] _ IH]; simpl; lia. Qed.

(** The blocks that are read. *)
Lemma scan_data_local blk blk' hd n i p data p' :
  scan_data blk hd n i p = Some (data, p') → (∀ m, p ≤ m < p' → blk' m = blk m) → scan_data blk' hd n i p = Some (data, p').
Proof.
  revert i p data. induction n as [|n IH]; intros i p data; simpl; [done|].
  destruct (_ =? 0); [done|]. destruct (Z.ltb_spec p jlen); [|done].
  destruct (scan_data blk hd n (i + 1) (p + 1)) as [[l q]|] eqn:E; [|done]. cbn. intros [= <- <-] Hb.
  destruct (scan_data_pos _ _ _ _ _ _ _ E) as [? ?]; [lia|].
  rewrite (IH _ _ _ E); [intros; apply Hb; lia|]. cbn. rewrite Hb; [lia|done].
Qed.

Lemma record_local blk blk' p T p' :
  record_at blk p T p' → (∀ n, p ≤ n < p' → blk' n = blk n) → record_at blk' p T p'.
Proof.
  intros [[? ?] Hs Hd Hc Hp] Hb. split; [done|rewrite Hb //; lia| |rewrite Hb //; lia|].
  - unfold data_of in *. rewrite (Hb p); [lia|]. eapply scan_data_local; [done|]. intros. apply Hb. lia.
  - intros n Hn. rewrite Hb; [lia|]. by apply Hp.
Qed.

Lemma records_local blk blk' p l p' :
  records blk p l p' → (∀ n, p ≤ n < p' → blk' n = blk n) → records blk' p l p'.
Proof.
  induction 1 as [|p T p1 l p2 Hr Hl IH]; intros Hb; [constructor|].
  pose proof (records_le _ _ _ _ Hl). pose proof (ra_end _ _ _ _ Hr). econstructor.
  - eapply record_local; [done|]. intros. apply Hb. lia.
  - apply IH. intros. apply Hb. lia.
Qed.

(** ** Scanning records *)

Section scanning.
Context (blk : Z → list Z) (skip : Z).

Definition live (l : list txn) : list txn := filter (λ T, skip < t_ts T) l.

#[local] Arguments live : simpl never.

Lemma live_one T : live [T] = if t_ts T <=? skip then [] else [T].
Proof.
  unfold live. destruct (Z.leb_spec (t_ts T) skip); [by rewrite filter_cons_False; [lia|]|by rewrite filter_cons_True].
Qed.

Lemma record_start p T p' last : record_at blk p T p' → last ≤ t_ts T → start_at blk last p = true.
Proof.
  intros [[? ?] (Hty & Hts & _) _ _ _] Hl. unfold start_at. rewrite Hty Hts Z.eqb_refl.
  rewrite (proj2 (Z.ltb_lt p jlen)); [lia|]. by rewrite (proj2 (Z.ltb_ge _ _)).
Qed.

Lemma scan_record fuel last p T p' :
  record_at blk p T p' → last ≤ t_ts T →
  scan blk skip (S fuel) last p = r ← scan blk skip fuel (t_ts T) p'; Some (live [T] ++ r).
Proof.
  intros Hr Hl. cbn [scan]. rewrite (record_start _ _ _ _ Hr Hl).
  destruct Hr as [[? ?] (Hty & Hts & Hna) Hd [Hcty Hcts] _]. rewrite Hts Hna Hd. cbn.
  unfold commit_at. rewrite Hcty Hcts !Z.eqb_refl (proj2 (Z.ltb_lt _ _)); [lia|]. simpl.
  replace (p' - 1 + 1) with p' by lia. destruct (scan blk skip fuel (t_ts T) p') as [r|]; [|done].
  unfold mbind, option_bind. rewrite live_one. destruct T as [ts l]. by destruct (ts <=? skip) eqn:E; simpl; rewrite E.
Qed.

(** Time stamps do not go down. *)
Definition ascending (last : Z) (l : list txn) : Prop := StronglySorted Z.le (last :: (t_ts <$> l)).
Definition last_ts (last : Z) (l : list txn) : Z := foldl (λ _ T, t_ts T) last l.

Lemma scan_records l fuel last p p' :
  records blk p l p' → ascending last l →
  scan blk skip (length l + fuel) last p = r ← scan blk skip fuel (last_ts last l) p'; Some (live l ++ r).
Proof.
  intros Hr. revert last. induction Hr as [p|p T p1 l p2 Hr Hl IH]; intros last Ha.
  - simpl. by destruct (scan blk skip fuel last p).
  - simpl length. change (S (length l) + fuel)%nat with (S (length l + fuel)).
    inversion Ha as [|? ? Ha1 Hf]; subst. cbn in Hf. inversion Hf; subst.
    rewrite (scan_record _ _ _ _ _ Hr) // IH; [done|]. cbn [last_ts foldl].
    change (foldl (λ _ T, t_ts T) (t_ts T) l) with (last_ts (t_ts T) l).
    destruct (scan blk skip fuel (last_ts (t_ts T) l) p2); [|done]. unfold mbind, option_bind.
    by rewrite app_assoc /live -filter_app.
Qed.

(** ** What is left over *)

(** No start or commit block from position [p] on is newer than [B]. *)
Definition stale (B p : Z) : Prop :=
  ∀ n, p ≤ n < jlen →
    (hdr_type (blk n) = JOURNAL_TXN_START → hdr_timestamp (blk n) ≤ B ∧ hdr_num_addr (blk n) = 0) ∧
    (hdr_type (blk n) = JOURNAL_TXN_COMMIT → hdr_timestamp (blk n) ≤ B).

(** A scan that comes upon records that are to be skipped. *)
Lemma scan_skipped fuel last p :
  p ≤ jlen → jlen - p < Z.of_nat fuel →
  (∀ n, p ≤ n < jlen → hdr_type (blk n) = JOURNAL_TXN_START → hdr_timestamp (blk n) ≤ skip ∧ hdr_num_addr (blk n) = 0) →
  scan blk skip fuel last p = Some [].
Proof.
  revert last p. induction fuel as [|fuel IH]; intros last p H1 Hf Hs; [lia|].
  cbn [scan]. destruct (start_at blk last p) eqn:Est; [|done].
  unfold start_at in Est. apply andb_prop in Est as [Est _]. apply andb_prop in Est as [Hp Hty].
  apply Z.ltb_lt in Hp. apply Z.eqb_eq in Hty. destruct (Hs p) as [Hts Hna]; [lia|done|]. rewrite Hna. cbv zeta.
  change (truth 0) with false. cbv iota.
  destruct (data_of blk p) as [[data q]|] eqn:Ed; [|done]. destruct (commit_at blk (hdr_timestamp (blk p)) q) eqn:Ec; [|done].
  unfold data_of in Ed. destruct (scan_data_pos _ _ _ _ _ _ _ Ed) as [? ?]; [lia|].
  unfold commit_at in Ec. apply andb_prop in Ec as [Ec _]. apply andb_prop in Ec as [Hq _]. apply Z.ltb_lt in Hq.
  rewrite IH; [lia|lia|intros; apply Hs; [lia|done]|]. unfold mbind, option_bind. by rewrite (proj2 (Z.leb_le _ _) Hts).
Qed.

(** While the record of the time stamp [ts] is being written at [p], and its
    commit block is not there yet. *)
Definition writing (B ts p : Z) : Prop :=
  ∀ n, p ≤ n < jlen →
    (hdr_type (blk n) = JOURNAL_TXN_START →
      (hdr_timestamp (blk n) ≤ B ∨ (n = p ∧ hdr_timestamp (blk n) = ts)) ∧ hdr_num_addr (blk n) = 0) ∧
    (hdr_type (blk n) = JOURNAL_TXN_COMMIT → hdr_timestamp (blk n) ≤ B).

Lemma stale_writing B ts p : stale B p → writing B ts p.
Proof. intros H n Hn. destruct (H n Hn) as [H1 H2]. split; [intros Hs|done]. destruct (H1 Hs). auto. Qed.

Lemma scan_writing B ts fuel last p :
  writing B ts p → B < ts → B < last ∨ B ≤ skip → p ≤ jlen → jlen - p < Z.of_nat fuel →
  scan blk skip fuel last p = Some [].
Proof.
  intros Hw Hts Hor Hp Hf.
  destruct (decide (p < jlen ∧ hdr_type (blk p) = JOURNAL_TXN_START ∧ hdr_timestamp (blk p) = ts)) as [(Hp' & Hty & Et)|Hno].
  - destruct fuel as [|fuel]; [lia|]. cbn [scan]. destruct (start_at blk last p); [|done].
    destruct (Hw p) as [Hw1 _]; [lia|]. destruct (Hw1 Hty) as [_ ->]. cbv zeta. change (truth 0) with false. cbv iota.
    destruct (data_of blk p) as [[data q]|] eqn:Ed; [|done].
    unfold data_of in Ed. destruct (scan_data_pos _ _ _ _ _ _ _ Ed) as [? ?]; [lia|].
    destruct (commit_at blk (hdr_timestamp (blk p)) q) eqn:Ec; [|done]. exfalso.
    unfold commit_at in Ec. apply andb_prop in Ec as [Ec Hq3]. apply andb_prop in Ec as [Hq1 Hq2].
    apply Z.ltb_lt in Hq1. apply Z.eqb_eq in Hq2, Hq3. destruct (Hw q) as [_ Hw2]; [lia|]. specialize (Hw2 Hq2). lia.
  - assert (∀ n, p ≤ n < jlen → hdr_type (blk n) = JOURNAL_TXN_START →
      hdr_timestamp (blk n) ≤ B ∧ hdr_num_addr (blk n) = 0) as Hold.
    { intros n Hn Hty. destruct (Hw n Hn) as [Hw1 _]. destruct (Hw1 Hty) as [[?|[-> ?]] ?]; [done|]. exfalso. apply Hno. split_and!; [lia|done..]. }
    destruct Hor as [Hlast|Hskip].
    + destruct fuel as [|fuel]; [lia|]. cbn [scan]. destruct (start_at blk last p) eqn:Est; [|done]. exfalso.
      unfold start_at in Est. apply andb_prop in Est as [Est Hl]. apply andb_prop in Est as [Hp' Hty].
      apply Z.ltb_lt in Hp'. apply Z.eqb_eq in Hty. apply negb_true_iff, Z.ltb_ge in Hl. destruct (Hold p); [lia|done|]. lia.
    + apply scan_skipped; [done..|]. intros n Hn Hty. destruct (Hold n Hn Hty). lia.
Qed.
End scanning.

(** ** A journal *)

(** [skip], the bound of what is left over, the records and their end. *)
Record jstate := JState { j_skip : Z; j_bound : Z; j_recs : list txn; j_pos : Z }.
#[export] Instance jstate_settable : Settable jstate := λ x, JState (j_skip x) (j_bound x) (j_recs x) (j_pos x).

(** The transactions that are to be replayed. *)
Definition to_replay (J : jstate) : list txn := live (j_skip J) (j_recs J).

Definition skip_of (b : list Z) (ts : Z) : Prop := hdr_type b = JOURNAL_TXN_SKIP ∧ hdr_timestamp b = ts.

(** The records of a journal, and a journal with nothing new behind them. *)
Record journal_front (blk : Z → list Z) (J : jstate) : Prop := JournalFront {
  jo_skip : skip_of (blk 0) (j_skip J);
  jo_recs : records blk 1 (j_recs J) (j_pos J);
  jo_pos : j_pos J ≤ jlen;
  jo_order : StronglySorted Z.lt (t_ts <$> j_recs J);
  jo_ts : Forall (λ T, 0 ≤ t_ts T) (j_recs J);
  jo_new : Forall (λ T, j_bound J < t_ts T) (j_recs J);
  jo_old : j_recs J = [] → j_bound J ≤ j_skip J;
}.
Definition journal_ok (blk : Z → list Z) (J : jstate) : Prop :=
  journal_front blk J ∧ stale blk (j_bound J) (j_pos J).

Lemma skip_not_zero b ts : skip_of b ts → b ≠ zero_block.
Proof. intros [H _] ->. revert H. vm_compute. done. Qed.

Lemma scan_journal_skip blk ts :
  skip_of (blk 0) ts → scan_journal blk = scan blk ts (Z.to_nat (jlen + 1)) 0 1.
Proof.
  intros H. pose proof (skip_not_zero _ _ H) as Hz. destruct H as [Hty Hts]. unfold scan_journal.
  rewrite bool_decide_eq_false_2 // Hty Hts. done.
Qed.

Lemma last_ts_app last l T : last_ts last (l ++ [T]) = t_ts T.
Proof. unfold last_ts. by rewrite foldl_app. Qed.

Lemma sorted_weaken {A} (R R' : A → A → Prop) l : (∀ x y, R x y → R' x y) → StronglySorted R l → StronglySorted R' l.
Proof. intros H. induction 1 as [|x l Hs IH Hf]; constructor; [done|]. eapply Forall_impl; [exact Hf|]. auto. Qed.

Lemma ascending_records J blk : journal_front blk J → ascending 0 (j_recs J).
Proof.
  intros H. unfold ascending. constructor.
  - eapply sorted_weaken; [|apply H]. lia.
  - apply Forall_fmap. eapply Forall_impl; [apply H|]. done.
Qed.

(** What follows the records. *)
Lemma scan_after blk J rest :
  journal_front blk J →
  (∀ fuel, jlen - j_pos J < Z.of_nat fuel → scan blk (j_skip J) fuel (last_ts 0 (j_recs J)) (j_pos J) = Some rest) →
  scan_journal blk = Some (to_replay J ++ rest).
Proof.
  intros HJ Hrest. rewrite (scan_journal_skip _ _ (jo_skip _ _ HJ)).
  pose proof (records_length _ _ _ _ (jo_recs _ _ HJ)). pose proof (jo_pos _ _ HJ).
  replace (Z.to_nat (jlen + 1)) with (length (j_recs J) + (Z.to_nat (jlen + 1) - length (j_recs J)))%nat by lia.
  rewrite (scan_records _ _ _ _ _ _ _ (jo_recs _ _ HJ) (ascending_records _ _ HJ)).
  rewrite Hrest; [lia|]. done.
Qed.

Lemma bound_before J blk : journal_front blk J → j_bound J < last_ts 0 (j_recs J) ∨ j_bound J ≤ j_skip J.
Proof.
  intros HJ. destruct (decide (j_recs J = [])) as [E|E]; [right; by apply (jo_old _ _ HJ)|left].
  destruct (exists_last E) as (l & T & El). pose proof (jo_new _ _ HJ) as Hn. rewrite El last_ts_app. rewrite El in Hn.
  apply Forall_app in Hn as [_ Hn]. by inversion Hn.
Qed.

Lemma scan_journal_writing blk J ts :
  journal_front blk J → writing blk (j_bound J) ts (j_pos J) → j_bound J < ts → scan_journal blk = Some (to_replay J).
Proof.
  intros HJ Hw Hts. rewrite -(app_nil_r (to_replay J)). apply scan_after; [done|]. intros fuel Hf.
  pose proof (jo_pos _ _ HJ). by eapply (scan_writing _ _ (j_bound J) ts); [..|by eapply bound_before|lia|lia].
Qed.

(** Recovery finds the records that are to be replayed. *)
Lemma scan_journal_ok blk J : journal_ok blk J → scan_journal blk = Some (to_replay J).
Proof.
  intros [HJ Hs]. eapply (scan_journal_writing _ _ (j_bound J + 1)); [done|by apply stale_writing|lia].
Qed.

Lemma front_local blk blk' J :
  journal_front blk J → (∀ n, 0 ≤ n < j_pos J → blk' n = blk n) → journal_front blk' J.
Proof.
  intros HJ Hb. pose proof (records_le _ _ _ _ (jo_recs _ _ HJ)). split; try apply HJ.
  - rewrite Hb; [lia|]. apply HJ.
  - eapply records_local; [apply HJ|]. intros. apply Hb. lia.
Qed.

(** ** A new record *)

Definition append (J : jstate) (T : txn) : jstate :=
  J <| j_recs ::= λ l, l ++ [T] |> <| j_pos ::= λ p, p + Z.of_nat (length (t_blocks T)) + 2 |>.

(** [ts] is newer than what the journal has. *)
Definition newer (J : jstate) (ts : Z) : Prop := j_bound J < ts ∧ j_skip J < ts ∧ 0 ≤ ts ∧ Forall (λ T, t_ts T < ts) (j_recs J).

Lemma append_front blk J T :
  journal_front blk J → newer J (t_ts T) → record_at blk (j_pos J) T (j_pos (append J T)) → journal_front blk (append J T).
Proof.
  intros HJ (Hb & Hs & H0 & Hl) Hr. destruct J as [skip B recs pos]. cbn in *. split; cbn.
  - apply HJ.
  - apply records_app. exists pos. split; [apply HJ|]. econstructor; [done|constructor].
  - by apply Hr.
  - rewrite fmap_app. apply StronglySorted_app_2; [|apply HJ|by repeat constructor].
    intros x y Hx Hy. apply list_elem_of_singleton in Hy as ->. apply list_elem_of_fmap in Hx as (T' & -> & HT).
    rewrite Forall_forall in Hl. by apply Hl.
  - apply Forall_app. split; [apply HJ|by repeat constructor].
  - apply Forall_app. split; [apply HJ|by repeat constructor].
  - intros E. by apply app_nil in E as [_ ?].
Qed.

Lemma to_replay_append J T : j_skip J < t_ts T → to_replay (append J T) = to_replay J ++ [T].
Proof.
  intros H. unfold to_replay, append. destruct J. cbn in *. unfold live. rewrite filter_app filter_cons_True //.
Qed.

(** The blocks of a transaction that fits in one start block. *)
Definition blocks_fit (l : list (Z * list Z)) : Prop :=
  Z.of_nat (length l) ≤ nslots_startblk ∧ Forall (λ x, 0 < x.1 < 2 ^ 32) l.

Lemma scan_data_start blk ts na l l1 l2 p :
  l = l1 ++ l2 → blocks_fit l → p + Z.of_nat (length l2) ≤ jlen →
  (∀ i x, l2 !! i = Some x → blk (p + Z.of_nat i) = x.2) →
  scan_data blk (start_block ts na l.*1) (Z.to_nat (nslots_startblk - Z.of_nat (length l1))) (Z.of_nat (length l1)) p =
    Some (l2, p + Z.of_nat (length l2)).
Proof.
  intros El [Hlen Hnz]. revert l1 p El. induction l2 as [|[b v] l2 IH]; intros l1 p El Hp Hb.
  - rewrite app_nil_r in El. subst l1. cbn [length]. rewrite Z.add_0_r.
    destruct (Z.to_nat (nslots_startblk - Z.of_nat (length l))) as [|n] eqn:En; [done|]. cbn [scan_data].
    rewrite start_blocknum_none //. rewrite length_fmap. lia.
  - assert (Z.of_nat (length l1) < nslots_startblk) as Hlt by (rewrite El length_app in Hlen; cbn [length] in Hlen; lia).
    destruct (Z.to_nat (nslots_startblk - Z.of_nat (length l1))) as [|n] eqn:En; [lia|]. cbn [scan_data].
    assert (l.*1 !! Z.to_nat (Z.of_nat (length l1)) = Some b) as Hn.
    { rewrite Nat2Z.id El fmap_app lookup_app_r; [by rewrite length_fmap|]. by rewrite length_fmap Nat.sub_diag. }
    assert (0 < b < 2 ^ 32) as Hb0.
    { rewrite Forall_forall in Hnz. apply (Hnz (b, v)). rewrite El. set_solver. }
    rewrite (start_blocknum _ _ _ _ b Hn); [lia|lia|]. rewrite (proj2 (Z.eqb_neq _ _)); [lia|].
    cbn [length] in Hp. rewrite (proj2 (Z.ltb_lt _ _)); [lia|].
    specialize (IH (l1 ++ [(b, v)]) (p + 1)). rewrite length_app Nat2Z.inj_add in IH.
    replace (Z.to_nat (nslots_startblk - (Z.of_nat (length l1) + Z.of_nat (length [(b, v)])))) with n in IH by (cbn [length]; lia).
    rewrite IH; [by rewrite -app_assoc|lia| |].
    + intros i x Hx. replace (p + 1 + Z.of_nat i) with (p + Z.of_nat (S i)) by lia. by apply Hb.
    + unfold mbind, option_bind. pose proof (Hb 0%nat (b, v) eq_refl) as E0. rewrite Z.add_0_r in E0. rewrite E0.
      cbn [length fst snd]. do 2 f_equal. lia.
Qed.

(** The record that a commit writes. *)
Lemma record_new blk p T :
  let ts := t_ts T in let l := t_blocks T in
  0 ≤ ts < 2 ^ 64 → blocks_fit l → Forall (λ x, plain x.2) l → 0 ≤ p → p + Z.of_nat (length l) + 2 ≤ jlen →
  blk p = start_block ts 0 l.*1 → (∀ i x, l !! i = Some x → blk (p + 1 + Z.of_nat i) = x.2) →
  commit_of (blk (p + 1 + Z.of_nat (length l))) ts → record_at blk p T (p + Z.of_nat (length l) + 2).
Proof.
  destruct T as [ts l]. cbn [t_ts t_blocks]. intros Hts Hl Hpl Hp Hend Hs Hd Hc. split; cbn [t_ts t_blocks].
  - lia.
  - rewrite Hs. split_and!; [apply start_type|by apply start_timestamp|apply start_num_addr].
  - unfold data_of. rewrite Hs. pose proof (scan_data_start blk ts 0 l [] l (p + 1) eq_refl Hl ltac:(lia) Hd) as E.
    cbn [length] in E. rewrite Z.sub_0_r in E. rewrite E. do 2 f_equal. lia.
  - by replace (p + Z.of_nat (length l) + 2 - 1) with (p + 1 + Z.of_nat (length l)) by lia.
  - intros n Hn. destruct (lookup_lt_is_Some_2 l (Z.to_nat (n - p - 1))) as [x Hx]; [lia|].
    rewrite Forall_forall in Hpl. pose proof (Hd _ _ Hx) as E.
    replace (p + 1 + Z.of_nat (Z.to_nat (n - p - 1))) with n in E by lia. rewrite E. apply Hpl. by eapply list_elem_of_lookup_2.
Qed.
