(* ===== verification/FsCrash.v ===== *)
(** * Crashes

    The power may fail in any state a program passes through.  Of the writes
    the disk has accepted since its last flush any may have reached the medium,
    in any order; a write of a block is atomic sector by sector only. *)

From Stdlib Require Import Sorted.
From S2P Require Import Prelude FsBytes FsWorld FsDisk FsTrans FsDedup FsWrite FsBlocks FsInode FsView FsJournal.

(** ** The states of a run *)

(** [s'] is a state that [p], started in [s], passes through. *)
Fixpoint visits {S A} (p : prog S A) (s s' : S) : Prop :=
  s' = s ∨ match p with
           | Do op k => match op s with Next b s1 => visits (k b) s1 s' | _ => False end
           | _ => False
           end.

Section visits.
Context {S : Type}.
Implicit Types s : S.

Lemma visits_here {A} (p : prog S A) s : visits p s s.
Proof. destruct p; by left. Qed.

Lemma visits_bind {A B} (p : prog S A) (f : A → prog S B) s s' :
  visits (p ≫= f) s s' → visits p s s' ∨ ∃ a s1, run p s = Done a s1 ∧ visits (f a) s1 s'.
Proof.
  revert s. induction p as [a|C op k IH|]; intros s.
  - intros H. right. by exists a, s.
  - change (visits (Do op k ≫= f) s s') with
      (s' = s ∨ match op s with Next b s1 => visits (k b ≫= f) s1 s' | _ => False end).
    intros [->|H]; [left; by left|]. rewrite run_do. destruct (op s) as [b s1| |] eqn:E; try done.
    destruct (IH b s1 H) as [H1|(a & s2 & H1 & H2)].
    + left. right. by rewrite E.
    + right. by exists a, s2.
  - intros H. by left.
Qed.

Context (R : S → S → Prop) `{!PreOrder R}.

Lemma visits_keeps {A} (p : prog S A) s s' : keeps R p → visits p s s' → R s s'.
Proof using PreOrder0.
  revert s. induction p as [a|C op k IH|]; intros s Hk; [by intros [->|]| |by intros [->|]].
  intros [->|H]; [done|]. destruct (op s) as [b s1| |] eqn:E; try done.
  destruct (Hk _ _ _ E) as [H1 H2]. etrans; [exact H1|]. by eapply IH.
Qed.

Lemma visits_keeps_end {A} (p : prog S A) s s' a s2 : keeps R p → visits p s s' → run p s = Done a s2 → R s' s2.
Proof using PreOrder0.
  revert s. induction p as [x|C op k IH|]; intros s Hk.
  - intros [->|[]] [= <- <-]. done.
  - intros Hv Hr. rewrite run_do in Hr. destruct (op s) as [b s1| |] eqn:E; try done. destruct (Hk _ _ _ E) as [H1 H2].
    destruct Hv as [->|Hv]; [etrans; [exact H1|]; by eapply keeps_run|]. rewrite E in Hv. by eapply IH.
  - intros [->|[]] Hr. done.
Qed.
End visits.

(** ** Without a flush, the caches only grow *)

(** The journals' files stay the same as well. *)
Definition grown (d d' : disk) : Prop := ∃ ws, d' = put d ws.
Definition grows (w w' : fs_world) : Prop :=
  Forall2 grown (f_disks w) (f_disks w') ∧ ∀ c, sv6_journal <$> f_journals w' !! c = sv6_journal <$> f_journals w !! c.

#[export] Instance grown_preorder : PreOrder grown.
Proof.
  split; [intros d; exists []; by rewrite put_nil|]. intros d1 d2 d3 [ws ->] [ws' ->]. exists (ws ++ ws'). by rewrite put_put.
Qed.
#[export] Instance grows_preorder : PreOrder grows.
Proof.
  split; [intros w; by split; [reflexivity|]|]. intros w1 w2 w3 [H1 E1] [H2 E2]. split; [by etrans|]. intros c. by rewrite E2 E1.
Qed.

Lemma grows_eq w w' : f_disks w' = f_disks w → f_journals w' = f_journals w → grows w w'.
Proof. intros E1 E2. unfold grows. rewrite E1 E2. by split; [reflexivity|]. Qed.

Create HintDb grow.

Ltac grow_act :=
  apply keeps_act; intros ? ? ?; cbv zeta; repeat (case_match; try done); intros E; simplify_eq; by apply grows_eq.

Lemma grow_frd {A} (f : fs_world → A) : keeps grows (frd f).
Proof. grow_act. Qed.
Lemma grow_fwr f : (∀ w, f_disks (f w) = f_disks w ∧ f_journals (f w) = f_journals w) → keeps grows (fwr f).
Proof. intros H. apply keeps_act. intros w ? ? E. simplify_eq. by apply grows_eq; apply H. Qed.
Lemma grow_panic {A} : keeps grows (panic (A := A)).
Proof. apply keeps_act. done. Qed.
Lemma grow_fassert b : keeps grows (fassert b).
Proof. unfold fassert. destruct b; [done|apply grow_panic]. Qed.
Lemma grow_get_tsc : keeps grows get_tsc.
Proof. grow_act. Qed.
Lemma grow_uninit : keeps grows uninit.
Proof. grow_act. Qed.
Lemma grow_tr_get {A} (f : transaction → A) t : keeps grows (tr_get f t).
Proof. grow_act. Qed.
Lemma grow_tr_upd t f : keeps grows (tr_upd t f).
Proof. grow_act. Qed.
Lemma grow_ip_get {A} (f : inode → A) i : keeps grows (ip_get f i).
Proof. grow_act. Qed.
Lemma grow_ip_upd i f : keeps grows (ip_upd i f).
Proof. grow_act. Qed.
Lemma grow_jr_get {A} (f : journal → A) c : keeps grows (jr_get f c).
Proof. grow_act. Qed.
Lemma grow_jr_upd c f : (∀ j, sv6_journal (f j) = sv6_journal j) → keeps grows (jr_upd c f).
Proof.
  intros H. apply keeps_act. intros w ? ? E. destruct (f_journals w !! c) as [j|] eqn:Ej; [|done]. simplify_eq.
  split; [simpl; reflexivity|]. intros c'. change (f_journals (w <| f_journals ::= <[c := f j]> |>)) with (<[c := f j]> (f_journals w)).
  destruct (decide (c = c')) as [<-|Hne]; [by rewrite lookup_insert_eq Ej /= H|by rewrite lookup_insert_ne].
Qed.
Lemma grow_num_disks : keeps grows num_disks.
Proof. apply grow_frd. Qed.
Lemma grow_buf_upd k f : keeps grows (buf_upd k f).
Proof. grow_act. Qed.
Lemma grow_buf_read k : keeps grows (buf_read k).
Proof. grow_act. Qed.
Lemma grow_take_first p c : keeps grows (take_first p c).
Proof. destruct p; grow_act. Qed.
Lemma grow_free_to p b c : keeps grows (free_to p b c).
Proof. destruct p; grow_act. Qed.
Lemma grow_ilock_write i : keeps grows (ilock_write i).
Proof. grow_act. Qed.
Lemma grow_new_transaction_at ts : keeps grows (new_transaction_at ts).
Proof. grow_act. Qed.

#[export] Hint Resolve grow_frd grow_panic grow_fassert grow_get_tsc grow_uninit grow_tr_get grow_tr_upd grow_ip_get
  grow_ip_upd grow_jr_get grow_num_disks grow_buf_upd grow_buf_read grow_take_first grow_free_to grow_ilock_write
  grow_new_transaction_at : grow.

(** The composition of programs. *)
Ltac grow :=
  repeat first
    [ progress intros
    | solve [eauto 2 with grow nocore]
    | apply keeps_when | apply keeps_iterate | apply keeps_loop | apply keeps_fold_each | apply keeps_ret | apply keeps_bind
    | (apply grow_fwr; intros; repeat (case_match; try by split); by split)
    | (apply grow_jr_upd; reflexivity)
    | case_match ].

Lemma grow_disk_read o : keeps grows (disk_read o).
Proof. unfold disk_read. apply keeps_bind; [grow|intros n]. grow_act. Qed.

Lemma grow_disk_writev l o : keeps grows (disk_writev l o).
Proof.
  unfold disk_writev. apply keeps_bind; [grow|intros n]. apply keeps_bind; [grow|intros _]. apply keeps_act.
  intros w [] w'. set (i := Z.to_nat (blknum_to_dev n (wrap32 (o / BSIZE)))).
  destruct (f_disks w !! i) as [d|] eqn:E; [|done].
  intros [= <-]. split; [|done]. change (f_disks (w <| f_disks ::= <[i := d <| pending ::= λ p, p ++ run_of (remap_blknum n (wrap32 (o / BSIZE))) l |>]> |>))
    with (<[i := d <| pending ::= λ p, p ++ run_of (remap_blknum n (wrap32 (o / BSIZE))) l |>]> (f_disks w)).
  rewrite -{1}(list_insert_id _ _ _ E). apply Forall2_insert; [reflexivity|].
  exists (run_of (remap_blknum n (wrap32 (o / BSIZE))) l). by destruct d.
Qed.
#[export] Hint Resolve grow_disk_read grow_disk_writev : grow.

Lemma grow_on_queue t dev f : keeps grows (on_queue t dev f).
Proof. unfold on_queue, issue. grow. Qed.
#[export] Hint Resolve grow_on_queue : grow.
Lemma grow_bqueue_new t : keeps grows (bqueue_new t).
Proof. unfold bqueue_new. grow. Qed.
Lemma grow_bqueue_write t l o : keeps grows (bqueue_write t l o).
Proof. unfold bqueue_write. grow. Qed.
Lemma grow_bqueue_flush t : keeps grows (bqueue_flush t).
Proof. unfold bqueue_flush. grow. Qed.
Lemma grow_bqueue_delete t : keeps grows (bqueue_delete t).
Proof. unfold bqueue_delete. grow. Qed.
#[export] Hint Resolve grow_bqueue_new grow_bqueue_write grow_bqueue_flush grow_bqueue_delete : grow.
Lemma grow_bqueue_init t : keeps grows (bqueue_init t).
Proof. unfold bqueue_init. grow. Qed.
Lemma grow_set_written t b : keeps grows (set_written t b).
Proof. unfold set_written. grow. Qed.
Lemma grow_disk_write l o : keeps grows (disk_write l o).
Proof. apply grow_disk_writev. Qed.
Lemma grow_buf_get k s : keeps grows (buf_get k s).
Proof. unfold buf_get. grow. Qed.
Lemma grow_add_to_transaction k t : keeps grows (add_to_transaction k t).
Proof. unfold add_to_transaction, mark_clean, add_block. grow. Qed.
#[export] Hint Resolve grow_bqueue_init grow_set_written grow_disk_write grow_buf_get grow_add_to_transaction : grow.

Lemma grow_write_to_disk t : keeps grows (write_to_disk t).
Proof. unfold write_to_disk, deduplicate_blocks. grow. Qed.
Lemma grow_write_to_disk_raw t : keeps grows (write_to_disk_raw t).
Proof. unfold write_to_disk_raw, deduplicate_blocks, db_writeback. grow. Qed.
Lemma grow_write_to_disk_update_bufcache t : keeps grows (write_to_disk_update_bufcache t).
Proof.
  unfold write_to_disk_update_bufcache, deduplicate_blocks, writeback_through_bufcache, db_writeback, buf_write, buf_store. grow.
Qed.
Lemma grow_delete_transaction t : keeps grows (delete_transaction t).
Proof. unfold delete_transaction. grow. Qed.
Lemma grow_balloc dev t z : keeps grows (balloc dev t z).
Proof.
  unfold balloc, alloc_block, alloc_from, add_allocated_block, bzero, buf_writeback, mark_clean, buf_write, buf_store. grow.
Qed.
#[export] Hint Resolve grow_write_to_disk grow_write_to_disk_raw grow_write_to_disk_update_bufcache grow_delete_transaction grow_balloc : grow.

Lemma grow_need_addr i d k t z : keeps grows (need_addr i d k t z).
Proof. unfold need_addr, addr_at, set_addr, try_bind. grow. Qed.
Lemma grow_need_word k n t z l : keeps grows (need_word k n t z l).
Proof.
  unfold need_word, log_buf, add_blocknum_to_transaction, add_dirty_blocknum, buf_store, try_bind. grow.
Qed.
#[export] Hint Resolve grow_need_addr grow_need_word : grow.

Lemma grow_bmap i bn t z l : keeps grows (bmap i bn t z l).
Proof. unfold bmap, addr_at, read_word, buf_write, try_bind. grow. Qed.
#[export] Hint Resolve grow_bmap : grow.
Lemma grow_writei i src off n t wb l dc : keeps grows (writei i src off n t wb l dc).
Proof.
  unfold writei, writei_block, write_block, log_buf, add_blocknum_to_transaction, add_dirty_blocknum, buf_store, buf_write. grow.
Qed.
Lemma grow_readi i off n : keeps grows (readi i off n).
Proof. unfold readi. grow. Qed.
#[export] Hint Resolve grow_writei grow_readi : grow.

Lemma grow_write_journal l t c : keeps grows (write_journal l t c).
Proof. unfold write_journal, update_offset. grow. Qed.
Lemma grow_recover_journal c vec : keeps grows (recover_journal c vec).
Proof.
  unfold recover_journal, get_txn_skip_block, recover_one, get_txn_start_block, get_txn_data_blocks, get_txn_commit_block,
    read_journal, update_offset, iunlock, add_block. grow.
Qed.
Lemma grow_replay vec : keeps grows (replay vec).
Proof. unfold replay. grow. Qed.
#[export] Hint Resolve grow_write_journal grow_recover_journal grow_replay : grow.

(** ** What a crash leaves *)

Definition SECTSIZE : Z := 512.

(** The contents of block [b] that may be on the medium. *)
Definition versions (d : disk) (b : Z) : list (list Z) :=
  default zero_block (stable d !! b) :: (filter (λ x, x.1 = b) (pending d)).*2.

(** [v] is made of sectors of the versions [vs]. *)
Definition torn (vs : list (list Z)) (v : list Z) : Prop :=
  block_ok v ∧ ∀ s, 0 ≤ s < BSIZE / SECTSIZE → ∃ u, u ∈ vs ∧ slice v (SECTSIZE * s) SECTSIZE = slice u (SECTSIZE * s) SECTSIZE.

(** Blocks of an image of a disk, which are zero where nothing was written. *)
Definition img (m : gmap Z (list Z)) (b : Z) : list Z := default zero_block (m !! b).

Definition crash (d : disk) (m : gmap Z (list Z)) : Prop := ∀ b, torn (versions d b) (img m b).

Lemma torn_sub vs vs' v : vs ⊆ vs' → torn vs v → torn vs' v.
Proof. intros Hs [Hb H]. split; [done|]. intros s Hr. destruct (H s Hr) as (u & Hu & E). exists u. auto. Qed.

Lemma sectors_eq u v :
  block_ok u → block_ok v →
  (∀ s, 0 ≤ s < BSIZE / SECTSIZE → slice v (SECTSIZE * s) SECTSIZE = slice u (SECTSIZE * s) SECTSIZE) → v = u.
Proof.
  intros Hu Hv H. apply list_eq. intros i. unfold block_ok, BSIZE in *.
  destruct (decide (i < 4096)%nat) as [Hi|Hi]; [|rewrite !lookup_ge_None_2 //; lia].
  assert (∀ b s, (slice b (SECTSIZE * s) SECTSIZE) !! (i - Z.to_nat (SECTSIZE * s))%nat = b !! i ∨ s ≠ Z.of_nat i / 512) as Hl.
  { intros b s. destruct (decide (s = Z.of_nat i / 512)) as [->|]; [left|by right]. unfold slice, SECTSIZE.
    pose proof (Z.div_mod (Z.of_nat i) 512). pose proof (Z.mod_pos_bound (Z.of_nat i) 512).
    rewrite lookup_take_lt; [lia|]. rewrite lookup_drop. f_equal. lia. }
  assert (0 ≤ Z.of_nat i / 512 < 4096 / SECTSIZE) as Hr by (unfold SECTSIZE; Z.to_euclidean_division_equations; lia).
  specialize (H _ Hr). destruct (Hl u (Z.of_nat i / 512)) as [<-|]; [|done]. destruct (Hl v (Z.of_nat i / 512)) as [<-|]; [|done].
  by rewrite H.
Qed.

Lemma torn_one u v : block_ok u → torn [u] v → v = u.
Proof.
  intros Hu [Hv H]. apply sectors_eq; [done..|]. intros s Hs. destruct (H s Hs) as (u' & Hu' & E).
  by apply list_elem_of_singleton in Hu' as ->.
Qed.

(** The first sector, which has the header. *)
Lemma torn_header vs v : torn vs v → ∃ u, u ∈ vs ∧ slice v 0 512 = slice u 0 512.
Proof. intros [_ H]. by apply (H 0). Qed.

Lemma versions_out d b : b ∉ (pending d).*1 → versions d b = [img (stable d) b].
Proof.
  intros H. unfold versions, img. f_equal. enough (filter (λ x : Z * list Z, x.1 = b) (pending d) = []) as -> by done.
  induction (pending d) as [|x l IH]; [done|]. rewrite filter_cons_False; [set_solver|]. apply IH. set_solver.
Qed.

Lemma versions_put d ws b : versions (put d ws) b = versions d b ++ (filter (λ x, x.1 = b) ws).*2.
Proof. unfold versions, put. simpl. by rewrite filter_app fmap_app. Qed.

Lemma elem_of_versions d ws b v :
  v ∈ versions (put d ws) b ↔ v ∈ versions d b ∨ (b, v) ∈ ws.
Proof.
  rewrite versions_put elem_of_app list_elem_of_fmap. split; (intros [?|H]; [by left|right]).
  - destruct H as ([c u] & -> & Hx). apply list_elem_of_filter in Hx as [E Hx]. simpl in *. by subst c.
  - exists (b, v). split; [done|]. apply list_elem_of_filter. done.
Qed.

Lemma crash_grown d ws ws' m : ws ⊆ ws' → crash (put d ws) m → crash (put d ws') m.
Proof.
  intros Hs H b. eapply torn_sub; [|apply H]. intros v. rewrite !elem_of_versions. intros [?|?]; auto.
Qed.

Lemma disk_map_put d ws : disk_map (put d ws) = apply_writes ws (disk_map d).
Proof. unfold disk_map, put, apply_writes. simpl. by rewrite foldl_app. Qed.

(** The contents after the writes [ws]. *)
Definition over (ws : list (Z * list Z)) (f : Z → list Z) (b : Z) : list Z :=
  foldl (λ v x, if decide (x.1 = b) then x.2 else v) (f b) ws.

Lemma over_app ws ws' f b : over (ws ++ ws') f b = over ws' (over ws f) b.
Proof. unfold over. by rewrite foldl_app. Qed.

Lemma over_out ws f b : b ∉ ws.*1 → over ws f b = f b.
Proof.
  unfold over. generalize (f b). induction ws as [|[c v] ws IH]; intros u Hb; [done|]. simpl in *.
  rewrite decide_False; [set_solver|]. apply IH. set_solver.
Qed.

Lemma over_in ws f g b : b ∈ ws.*1 → over ws f b = over ws g b.
Proof.
  unfold over. generalize (f b) (g b). induction ws as [|[c v] ws IH]; intros u u' Hb; [set_solver|]. simpl in *.
  destruct (decide (c = b)) as [->|]; [done|]. apply IH. set_solver.
Qed.

Lemma over_ext ws f g b : f b = g b → over ws f b = over ws g b.
Proof. unfold over. by intros ->. Qed.

Lemma over_elem ws f b v : NoDup ws.*1 → (b, v) ∈ ws → over ws f b = v.
Proof.
  unfold over. generalize (f b). induction ws as [|[c u] ws IH]; intros u' Hnd Hb; [set_solver|]. simpl in *.
  apply NoDup_cons in Hnd as [Hc Hnd]. apply elem_of_cons in Hb as [[= -> ->]|Hb].
  - rewrite decide_True //. rewrite -/(over ws (λ _, u) c). by rewrite over_out.
  - by apply IH.
Qed.

Lemma over_perm ws ws' f b : NoDup ws.*1 → ws ≡ₚ ws' → over ws f b = over ws' f b.
Proof.
  intros Hnd Hp. destruct (decide (b ∈ ws.*1)) as [Hb|Hb].
  - apply list_elem_of_fmap in Hb as ([c v] & -> & Hx). simpl. rewrite (over_elem ws _ c v) //.
    rewrite (over_elem ws' _ c v) //; [by rewrite -Hp|by rewrite -Hp].
  - rewrite !over_out //. by rewrite -Hp.
Qed.

Lemma img_writes ws m b : img (apply_writes ws m) b = over ws (img m) b.
Proof.
  unfold img, over. revert m. induction ws as [|[c v] ws IH]; intros m; [done|]. simpl. rewrite IH.
  f_equal. destruct (decide (c = b)) as [->|]; [by rewrite lookup_insert_eq|by rewrite lookup_insert_ne].
Qed.

(** After a flush nothing is in doubt. *)
Lemma crash_flushed d m b : crash (flushed d) m → block_ok (img (disk_map d) b) → img m b = img (disk_map d) b.
Proof. intros Hc Hb. apply torn_one; [done|]. apply Hc. Qed.

Lemma crash_quiet d m b : crash d m → b ∉ (pending d).*1 → block_ok (img (stable d) b) → img m b = img (stable d) b.
Proof. intros Hc Hb Hok. apply torn_one; [done|]. rewrite -versions_out //. Qed.

(** ** The disks a program passes through *)

Definition passes {A} (p : fprog A) (w : fs_world) (S : list disk → Prop) : Prop := ∀ w', visits p w w' → S (f_disks w').

Lemma passes_bind {A B} (p : fprog A) (f : A → fprog B) w S :
  passes p w S → (∀ a w1, run p w = Done a w1 → passes (f a) w1 S) → passes (p ≫= f) w S.
Proof. intros Hp Hf w' [H|(a & w1 & Hr & H)]%visits_bind; [by apply Hp|]. by eapply Hf. Qed.

Lemma passes_weaken {A} (p : fprog A) w (S S' : list disk → Prop) : (∀ ds, S ds → S' ds) → passes p w S → passes p w S'.
Proof. intros H Hp w' Hv. by apply H, Hp. Qed.

(** Without a flush the disk has some of the writes. *)
Lemma passes_grow {A} (p : fprog A) w a w1 d ws (S : list disk → Prop) :
  keeps grows p → run p w = Done a w1 → f_disks w = [d] → f_disks w1 = [put d ws] →
  (∀ ws', ws' ⊆ ws → S [put d ws']) → passes p w S.
Proof.
  intros Hk Hr Hd Hd1 HS w' Hv. pose proof (visits_keeps grows p w w' Hk Hv) as H1.
  pose proof (visits_keeps_end grows p w w' a w1 Hk Hv Hr) as H2. apply proj1 in H1, H2. rewrite Hd in H1. rewrite Hd1 in H2.
  destruct (f_disks w') as [|d' [|]]; [by inversion H1| |by inversion H1 as [|? ? ? ? _ Hl]; inversion Hl].
  apply Forall2_cons in H1 as [[ws1 ->] _]. apply Forall2_cons in H2 as [[ws2 E] _]. rewrite put_put in E. injection E as E. apply app_inv_head in E.
  apply HS. rewrite E. intros x Hx. apply elem_of_app. by left.
Qed.

Lemma passes_same {A} (p : fprog A) w a w1 d (S : list disk → Prop) :
  keeps grows p → run p w = Done a w1 → f_disks w = [d] → f_disks w1 = [d] → S [d] → passes p w S.
Proof.
  intros Hk Hr Hd Hd1 HS. eapply (passes_grow p w a w1 d []); [done..|by rewrite put_nil|].
  intros ws' Hs. destruct ws' as [|x ws']; [by rewrite put_nil|]. exfalso. by apply (not_elem_of_nil x), Hs; left.
Qed.

(** A step that leaves the disk as it is. *)
Lemma passes_step {A B} (m : fprog A) (f : A → fprog B) w a w1 d (S : list disk → Prop) :
  keeps grows m → run m w = Done a w1 → f_disks w = [d] → f_disks w1 = [d] → S [d] →
  passes (f a) w1 S → passes (m ≫= f) w S.
Proof.
  intros Hk Hr Hd Hd1 HS Hf. apply passes_bind; [by eapply passes_same|]. intros a' w1' Hr'. rewrite Hr in Hr'. by injection Hr' as <- <-.
Qed.

(** ** A transaction on its way to the disk *)

(** The disk with some of the writes [ws], or all of them flushed. *)
Definition partly (d : disk) (ws : list (Z * list Z)) (ds : list disk) : Prop :=
  (∃ ws', ws' ⊆ ws ∧ ds = [put d ws']) ∨ ds = [flushed (put d ws)].

Lemma passes_flush_written w d t x :
  f_disks w = [d] → f_trans w !! t = Some x → disks_written x = {[0]} →
  passes (flush_written t) w (λ ds, ds = [d] ∨ ds = [flushed d]).
Proof.
  intros Hd Ht Hs. unfold flush_written. apply passes_bind.
  { eapply passes_same; [apply grow_tr_get|by apply run_tr_get|done..|by left]. }
  intros s w1 Hr. rewrite (run_tr_get _ _ _ _ Ht) in Hr. injection Hr as <- <-. rewrite Hs disks_in_zero.
  apply passes_bind.
  - apply passes_bind; [|intros [] w1 Hr; rewrite (run_disk_flush _ _ Hd) in Hr; injection Hr as <-; intros w' [->|[]]; by right].
    intros w' Hv. unfold disk_flush in Hv. simpl in Hv. rewrite Hd in Hv. simpl in Hv.
    destruct Hv as [->|[->|[]]]; [by left|]. right. by rewrite /= Hd.
  - intros [] w1 Hr. rewrite run_fold_each_cons (run_disk_flush _ _ Hd) /= run_fold_each_nil in Hr. injection Hr as <-.
    intros w' Hv. right. simpl in Hv. destruct Hv as [->|Hv]; [done|]. rewrite /tr_upd /= Ht in Hv.
    destruct Hv as [->|[]]. by destruct w.
Qed.

Section flush.
Context (w : fs_world) (d : disk) (t : Z) (x : transaction).
Context (Hd : f_disks w = [d]) (Ht : f_trans w !! t = Some x).
Context (Hq : bqueue x = None) (Hw : disks_written x ⊆ {[0]}) (Hne : blocks x ≠ []) (Hsm : Forall (λ b, small (blocknum b)) (blocks x)).

Let ws := db_writes (dedup_blocks (blocks x)).

Lemma dedup_nonempty : dedup_blocks (blocks x) ≠ [].
Proof using Hne.
  clear -Hne. intros E. destruct (blocks x) as [|b l] eqn:El; [done|]. destruct (dedup_covers (b :: l) b) as (b' & Hb' & _); [by left|].
  rewrite E in Hb'. by apply not_elem_of_nil in Hb'.
Qed.

Lemma written_disks : disks_written (written x) = {[0]}.
Proof using Hw Hne.
  unfold written. simpl. destruct (decide _) as [E|_]; [by apply dedup_nonempty in E|]. clear -Hw. apply set_eq. set_solver.
Qed.

(** With and without the queue. *)
Definition flush_by (use_async_io : bool) (t : Z) : fprog unit :=
  if use_async_io then write_to_disk_and_flush t else write_to_disk_and_flush_raw t.

Lemma run_flush_by async :
  run (flush_by async t) w = Done () (upd_dt w (flushed (put d ws)) t ((written x) <| disks_written := ∅ |>)).
Proof using Hd Ht Hq Hw Hne Hsm.
  pose proof (run_write_to_disk w d t x [] Hd Ht (or_introl (conj Hq eq_refl)) Hsm) as Hr. rewrite app_nil_l -/ws in Hr.
  pose proof (run_write_to_disk_raw w d t x Hd Ht Hq Hsm) as Hr'. rewrite -/ws in Hr'.
  destruct async; unfold flush_by, write_to_disk_and_flush, write_to_disk_and_flush_raw.
  all: rewrite ?(run_bind_done _ _ _ _ _ Hr) ?(run_bind_done _ _ _ _ _ Hr').
  all: rewrite (run_flush_written _ (put d ws) t (written x)) //; [apply upd_dt_trans|apply written_disks|]; by rewrite upd_dt_twice.
Qed.

Lemma passes_flush_by async : passes (flush_by async t) w (partly d ws).
Proof using Hd Ht Hq Hw Hne Hsm.
  pose proof (run_write_to_disk w d t x [] Hd Ht (or_introl (conj Hq eq_refl)) Hsm) as Hr. rewrite app_nil_l -/ws in Hr.
  pose proof (run_write_to_disk_raw w d t x Hd Ht Hq Hsm) as Hr'. rewrite -/ws in Hr'.
  assert (∀ ws', ws' ⊆ ws → partly d ws [put d ws']) as Hput by (intros ws' Hs; left; by exists ws').
  assert (passes (flush_written t) (upd_dt w (put d ws) t (written x)) (partly d ws)) as Hf.
  { eapply passes_weaken; [|apply (passes_flush_written _ (put d ws) t (written x)); [done|apply upd_dt_trans|apply written_disks]].
    intros ds [-> | ->]; [by apply Hput|by right]. }
  destruct async; (apply passes_bind; [eapply passes_grow|intros [] w1 Hr1; rewrite ?Hr ?Hr' in Hr1; injection Hr1 as <-; exact Hf]).
  - apply grow_write_to_disk.
  - exact Hr.
  - done.
  - done.
  - done.
  - apply grow_write_to_disk_raw.
  - exact Hr'.
  - done.
  - done.
  - done.
Qed.
End flush.
