(* ===== verification/FsSafe.v ===== *)
(** * Replaying transactions

    The effect of replaying the transactions of all journals in the order of
    their time stamps, block by block: the newest transaction that has a block
    decides what is in it. *)

From stdpp Require Import sorting.
From S2P Require Import Prelude FsBytes FsWorld FsDisk FsTrans FsDedup FsWrite FsBlocks FsInode FsView FsJournal FsHeaders FsScan FsRecords FsCrash.

Definition replay_order (l : list txn) : list txn := std_sort (λ a b, t_ts a <? t_ts b) l.

(** The contents of block [b] once the transactions [l] have been replayed. *)
Definition replayed (l : list txn) (f : Z → list Z) (b : Z) : list Z :=
  over (concat (t_blocks <$> replay_order l)) f b.

Definition has (T : txn) (b : Z) : Prop := b ∈ (t_blocks T).*1.
#[export] Instance has_dec T b : Decision (has T b).
Proof. unfold has. apply _. Defined.

Lemma replay_order_elem l T : T ∈ replay_order l ↔ T ∈ l.
Proof. unfold replay_order. by rewrite std_sort_perm. Qed.

Lemma replay_order_sorted l : StronglySorted (λ a b, t_ts a ≤ t_ts b) (replay_order l).
Proof.
  eapply sorted_weaken; [|apply (std_sort_sorted (λ a b, t_ts a <? t_ts b))].
  - intros x y H. unfold not_after in H. apply Z.ltb_ge in H. done.
  - intros x y H. apply Z.ltb_lt in H. apply Z.ltb_ge. lia.
  - intros x y z H1 H2. apply Z.ltb_ge in H1, H2. apply Z.ltb_ge. lia.
Qed.

(** Writes of transactions none of which has the block, or all of which that
    have it are [T]. *)
Lemma over_none (l : list txn) f b : (∀ T, T ∈ l → ¬ has T b) → over (concat (t_blocks <$> l)) f b = f b.
Proof.
  intros H. induction l as [|T l IH] using rev_ind; [done|]. rewrite fmap_app concat_app /= app_nil_r over_app.
  rewrite over_out; [apply H; set_solver|]. apply IH. intros T' HT'. apply H. set_solver.
Qed.

Lemma over_only T l f b :
  over (t_blocks T) f b = f b → (∀ T', T' ∈ l → has T' b → T' = T) → over (concat (t_blocks <$> l)) f b = f b.
Proof.
  intros E H. induction l as [|T' l IH] using rev_ind; [done|]. rewrite fmap_app concat_app /= app_nil_r over_app.
  assert (over (concat (t_blocks <$> l)) f b = f b) as El by (apply IH; intros; apply H; [set_solver|done]).
  destruct (decide (has T' b)) as [Hh|Hh].
  - rewrite (H T') //; [set_solver|]. etrans; [|exact E]. by apply over_ext.
  - by rewrite over_out.
Qed.

(** Transactions are known by their time stamp. *)
Definition inj_ts (l : list txn) : Prop := ∀ T1 T2, T1 ∈ l → T2 ∈ l → t_ts T1 = t_ts T2 → T1 = T2.

Lemma over_idem ws f b : b ∈ ws.*1 → over ws (over ws f) b = over ws f b.
Proof. apply over_in. Qed.

Lemma replayed_newest l T f b :
  inj_ts l → T ∈ l → has T b → (∀ T', T' ∈ l → has T' b → t_ts T' ≤ t_ts T) → replayed l f b = over (t_blocks T) f b.
Proof.
  intros Hinj HT Hb Hmax. unfold replayed. pose proof (replay_order_sorted l) as Hs.
  assert (T ∈ replay_order l) as HT' by by apply replay_order_elem.
  apply list_elem_of_split in HT' as (l1 & l2 & E). rewrite E in Hs. rewrite E fmap_app fmap_cons concat_app over_app /=.
  rewrite over_app. rewrite (over_only T l2).
  - by apply over_idem.
  - intros T' HT2 Hb'. assert (T' ∈ l) as Hl by (apply replay_order_elem; rewrite E; set_solver).
    apply StronglySorted_app_1_r in Hs. inversion Hs as [|? ? _ Hf]; subst. rewrite Forall_forall in Hf.
    specialize (Hf T' HT2). specialize (Hmax T' Hl Hb'). apply Hinj; [done..|lia].
  - by apply over_in.
Qed.

Lemma replayed_none l f b : (∀ T, T ∈ l → ¬ has T b) → replayed l f b = f b.
Proof. intros H. apply over_none. intros T. rewrite replay_order_elem. apply H. Qed.

(** The newest transaction with the block [b], if there is one. *)
Lemma newest_of (l : list txn) b : (∀ T, T ∈ l → ¬ has T b) ∨ ∃ T, T ∈ l ∧ has T b ∧ ∀ T', T' ∈ l → has T' b → t_ts T' ≤ t_ts T.
Proof.
  induction l as [|T l IH]; [left; set_solver|]. destruct (decide (has T b)) as [Hb|Hb].
  - right. destruct IH as [Hn|(T1 & H1 & Hb1 & Hm)].
    + exists T. split_and!; [set_solver|done|]. intros T' [->|HT]%elem_of_cons Hb'; [done|]. by destruct (Hn T').
    + destruct (decide (t_ts T1 ≤ t_ts T)) as [Hle|Hgt].
      * exists T. split_and!; [set_solver|done|]. intros T' [->|HT]%elem_of_cons Hb'; [done|]. specialize (Hm T' HT Hb'). lia.
      * exists T1. split_and!; [set_solver|done|]. intros T' [->|HT]%elem_of_cons Hb'; [lia|]. by apply Hm.
  - destruct IH as [Hn|(T1 & H1 & Hb1 & Hm)]; [left; set_solver|right]. exists T1. split_and!; [set_solver|done|].
    intros T' [->|HT]%elem_of_cons Hb'; [done|]. by apply Hm.
Qed.

(** Only the contents of blocks that no transaction has matter. *)
Lemma replayed_ext l f g b : inj_ts l → ((∀ T, T ∈ l → ¬ has T b) → f b = g b) → replayed l f b = replayed l g b.
Proof.
  intros Hinj H. destruct (newest_of l b) as [Hn|(T & HT & Hb & Hm)].
  - rewrite !replayed_none //. by apply H.
  - rewrite !(replayed_newest l T) //. by apply over_in.
Qed.

(** A transaction that is newer than all others. *)
Lemma replayed_add l l' T f b :
  inj_ts l → (∀ T', T' ∈ l' ↔ T' ∈ l ∨ T' = T) → (∀ T', T' ∈ l → t_ts T' < t_ts T) →
  inj_ts l' ∧ replayed l' f b = over (t_blocks T) (replayed l f) b.
Proof.
  intros Hinj Hl Hnew. assert (inj_ts l') as Hinj'.
  { intros T1 T2 [H1| ->]%Hl [H2| ->]%Hl E; [by apply Hinj|specialize (Hnew T1 H1); lia|specialize (Hnew T2 H2); lia|done]. }
  split; [done|]. destruct (decide (has T b)) as [Hb|Hb].
  - rewrite (replayed_newest l' T) //; [by apply Hl; right| |by apply over_in].
    intros T' [HT| ->]%Hl _; [|done]. specialize (Hnew T' HT). lia.
  - rewrite over_out //. destruct (newest_of l b) as [Hn|(T1 & HT & Hb1 & Hm)].
    + rewrite !replayed_none //. by intros T' [HT| ->]%Hl; [apply Hn|].
    + rewrite (replayed_newest l T1) // (replayed_newest l' T1) //; [apply Hl; by left|].
      by intros T' [HT'| ->]%Hl Hb'; [apply Hm|].
Qed.

(** Transactions [g] that have been applied: those that remain and that are
    older have no block in common with them. *)
Lemma replayed_apply l l' g f b :
  inj_ts l → (∀ T, T ∈ l ↔ T ∈ g ∨ T ∈ l') → (∀ T T', T ∈ g → T' ∈ l' → t_ts T' < t_ts T → ∀ b, has T b → ¬ has T' b) →
  replayed l' (replayed g f) b = replayed l f b.
Proof.
  intros Hinj Hl Hdis.
  assert (inj_ts g ∧ inj_ts l') as [Hig Hil] by (split; intros T1 T2 ? ?; apply Hinj; apply Hl; auto).
  destruct (newest_of l' b) as [Hn|(T1 & HT & Hb1 & Hm)].
  - rewrite replayed_none //. destruct (newest_of g b) as [Hn'|(T1 & HT & Hb1 & Hm)].
    + rewrite !replayed_none //. intros T [?|?]%Hl; auto.
    + rewrite (replayed_newest g T1) // (replayed_newest l T1) //; [apply Hl; by left|].
      intros T' [?|HT']%Hl Hb'; [by apply Hm|]. by destruct (Hn T').
  - rewrite (replayed_newest l' T1) // (replayed_newest l T1) //; [apply Hl; by right| |by apply over_in].
    + intros T' [HT'|?]%Hl Hb'; [|by apply Hm]. destruct (decide (t_ts T' ≤ t_ts T1)); [done|]. exfalso.
      apply (Hdis T' T1 HT' HT ltac:(lia) b); done.
Qed.
