(* ===== verification/FsJournals.v ===== *)
(** * The journals on a disk, and crashes while they are written

    A disk is consistent with the contents [D] of the blocks under the care of
    the journals if recovery would give them these contents.  Here is what a
    crash leaves while a record, a skip block or the blocks of a transaction
    are on their way to the disk. *)

From stdpp Require Import sorting.
From S2P Require Import Prelude FsBytes FsWorld FsDisk FsTrans FsDedup FsWrite FsBlocks FsInode FsView FsJournal FsHeaders FsScan FsRecords FsCrash FsSafe.

Lemma journal_ok_local blk blk' J :
  journal_ok blk J → (∀ n, 0 ≤ n < jlen → blk' n = blk n) → journal_ok blk' J.
Proof.
  intros [HJ Hs] Hb. pose proof (jo_pos _ _ HJ). split.
  - eapply front_local; [done|]. intros. apply Hb. lia.
  - intros n Hn. pose proof (records_le _ _ _ _ (jo_recs _ _ HJ)). rewrite Hb; [lia|]. by apply Hs.
Qed.

Lemma over_block_ok ws f b : block_ok (f b) → Forall (λ x, block_ok x.2) ws → block_ok (over ws f b).
Proof.
  intros Hf Hl. unfold over. revert Hf. generalize (f b). induction Hl as [|[b' v'] l Hx Hl IH]; intros v Hf; [done|].
  simpl. apply IH. by destruct (decide (b' = b)).
Qed.

(** The CPUs, the blocks of their journals, and the blocks that transactions
    may have. *)
Record layout := Layout { cpus : list Z; jblk : Z → Z → Z; meta : Z → Prop }.

Record layout_ok (L : layout) : Prop := LayoutOk {
  lo_inj : ∀ c c' n n', c ∈ cpus L → c' ∈ cpus L → 0 ≤ n < jlen → 0 ≤ n' < jlen → jblk L c n = jblk L c' n' → c = c' ∧ n = n';
  lo_meta : ∀ c n, c ∈ cpus L → 0 ≤ n < jlen → ¬ meta L (jblk L c n);
}.

Section journals.
Context (L : layout) (HL : layout_ok L).

Definition jimg (m : gmap Z (list Z)) (c n : Z) : list Z := img m (jblk L c n).

Definition all_replay (J : Z → jstate) : list txn := concat ((λ c, to_replay (J c)) <$> cpus L).

(** What recovery finds in the image [m]. *)
Definition found_in (m : gmap Z (list Z)) : option (list txn) :=
  @concat txn <$> mapM (λ c, scan_journal (jimg m c)) (cpus L).

Definition txn_ok (T : txn) : Prop :=
  blocks_fit (t_blocks T) ∧ NoDup (t_blocks T).*1 ∧ Forall (λ x, meta L x.1 ∧ small x.1 ∧ block_ok x.2) (t_blocks T).

(** Recovery from [m] gives the blocks the contents [D]. *)
Definition recovers_to (m : gmap Z (list Z)) (D : Z → list Z) : Prop :=
  ∃ txns, found_in m = Some txns ∧ Forall txn_ok txns ∧ ∀ b, meta L b → replayed txns (img m) b = D b.

(** A block of a journal, or under their care. *)
Definition guarded (b : Z) : Prop := meta L b ∨ ∃ c n, c ∈ cpus L ∧ 0 ≤ n < jlen ∧ b = jblk L c n.

Record consistent (d : disk) (J : Z → jstate) (D : Z → list Z) : Prop := Consistent {
  cs_quiet : ∀ b, guarded b → b ∉ (pending d).*1;
  cs_ok : (∀ b, block_ok (img (stable d) b)) ∧ Forall (λ x, block_ok x.2) (pending d);
  cs_journal : ∀ c, c ∈ cpus L → journal_ok (jimg (stable d) c) (J c);
  cs_txns : ∀ c, c ∈ cpus L → Forall txn_ok (j_recs (J c));
  cs_inj : inj_ts (all_replay J);
  cs_data : ∀ b, meta L b → replayed (all_replay J) (img (stable d)) b = D b;
}.

Lemma all_replay_elem J T : T ∈ all_replay J ↔ ∃ c, c ∈ cpus L ∧ T ∈ to_replay (J c).
Proof.
  unfold all_replay. rewrite list_elem_of_In in_concat. split.
  - intros (l & Hl & HT). apply list_elem_of_In, list_elem_of_fmap in Hl as (c & -> & Hc). exists c. split; [done|]. by apply list_elem_of_In.
  - intros (c & Hc & HT). exists (to_replay (J c)). split; apply list_elem_of_In; [|done]. by apply (list_elem_of_fmap_2 (λ c, to_replay (J c))).
Qed.

Lemma to_replay_elem J T : T ∈ to_replay J ↔ T ∈ j_recs J ∧ j_skip J < t_ts T.
Proof. unfold to_replay, live. rewrite list_elem_of_filter. tauto. Qed.

(** An image in which the journals are as in [J]. *)
Lemma image_recovers m J D :
  (∀ c, c ∈ cpus L → scan_journal (jimg m c) = Some (to_replay (J c))) → (∀ c, c ∈ cpus L → Forall txn_ok (j_recs (J c))) →
  (∀ b, meta L b → replayed (all_replay J) (img m) b = D b) → recovers_to m D.
Proof.
  intros Hs Ht Hd. exists (all_replay J). split_and!; [| |done].
  - unfold found_in, all_replay. enough (mapM (λ c, scan_journal (jimg m c)) (cpus L) = Some ((λ c, to_replay (J c)) <$> cpus L)) as -> by done.
    apply mapM_Some. apply Forall2_fmap_r, Forall_Forall2_diag, Forall_forall. apply Hs.
  - apply Forall_forall. intros T HT. apply all_replay_elem in HT as (c & Hc & HT). apply to_replay_elem in HT as [HT _].
    specialize (Ht c Hc). rewrite Forall_forall in Ht. by apply Ht.
Qed.

(** Blocks that are not being written are as they were. *)
Lemma guarded_image d J D ws m b :
  consistent d J D → crash (put d ws) m → guarded b → b ∉ ws.*1 → img m b = img (stable d) b.
Proof.
  intros HC Hm Hb Hw. apply (crash_quiet (put d ws)); [done| |apply HC].
  simpl. rewrite fmap_app elem_of_app. intros [H|H]; [|done]. by apply (cs_quiet _ _ _ HC b).
Qed.

Lemma consistent_ext d J J' D : (∀ c, J' c = J c) → consistent d J D → consistent d J' D.
Proof.
  intros E HC. assert (all_replay J' = all_replay J) as Ea.
  { unfold all_replay. f_equal. apply list_fmap_ext. intros i c _. by rewrite E. }
  split; rewrite ?Ea; try apply HC; intros c Hc; rewrite E; by apply HC.
Qed.

Lemma disk_map_ok d J D b : consistent d J D → block_ok (img (disk_map d) b).
Proof.
  intros HC. change (disk_map d) with (apply_writes (pending d) (stable d)). rewrite img_writes. apply over_block_ok; apply HC.
Qed.

Lemma consistent_recovers d J D m : consistent d J D → crash d m → recovers_to m D.
Proof.
  intros HC Hm. rewrite -(put_nil d) in Hm.
  assert (∀ b, guarded b → img m b = img (stable d) b) as Hg.
  { intros b Hb. eapply guarded_image; [done..|]. apply not_elem_of_nil. }
  apply (image_recovers m J D).
  - intros c Hc. apply scan_journal_ok. eapply journal_ok_local; [by apply HC|]. intros n Hn. apply Hg. right. by exists c, n.
  - apply HC.
  - intros b Hb. rewrite -(cs_data _ _ _ HC b Hb). apply replayed_ext; [apply HC|]. intros _. apply Hg. by left.
Qed.

(** ** A commit *)

(** The writes of the start block and the data, and of the commit block. *)
Definition record_writes (c p ts : Z) (l : list (Z * list Z)) : list (Z * list Z) :=
  (jblk L c p, start_block ts 0 l.*1) :: imap (λ i x, (jblk L c (p + 1 + Z.of_nat i), x.2)) l.

Definition set_journal (J : Z → jstate) (c : Z) (j : jstate) : Z → jstate := λ c', if decide (c' = c) then j else J c'.

Lemma record_writes_elem c p ts l b v :
  (b, v) ∈ record_writes c p ts l →
  (b = jblk L c p ∧ v = start_block ts 0 l.*1) ∨
  ∃ i x, l !! i = Some x ∧ b = jblk L c (p + 1 + Z.of_nat i) ∧ v = x.2.
Proof.
  intros [[= -> ->]|H]%elem_of_cons; [by left|right].
  apply elem_of_lookup_imap in H as (i & x & E & Hx). injection E as -> ->. by exists i, x.
Qed.

Lemma record_writes_blocks c p ts l b :
  b ∈ (record_writes c p ts l).*1 → ∃ n, p ≤ n < p + 1 + Z.of_nat (length l) ∧ b = jblk L c n.
Proof.
  intros ([b' v] & -> & H)%list_elem_of_fmap. apply record_writes_elem in H as [[-> _]|(i & x & Hx & -> & _)].
  - exists p. simpl. split; [lia|done].
  - apply lookup_lt_Some in Hx. exists (p + 1 + Z.of_nat i). simpl. split; [lia|done].
Qed.

Lemma record_writes_ok c p ts l : Forall (λ x, block_ok x.2) l → Forall (λ x, block_ok x.2) (record_writes c p ts l).
Proof.
  intros Hl. apply Forall_forall. intros [b v] H. apply record_writes_elem in H as [[_ ->]|(i & x & Hx & _ & ->)].
  - apply start_block_ok.
  - rewrite Forall_forall in Hl. simpl. apply Hl. by eapply list_elem_of_lookup_2.
Qed.

(** What a transaction needs to be committed to the journal of [c]. *)
Record may_commit (J : Z → jstate) (c : Z) (T : txn) : Prop := MayCommit {
  mc_cpu : c ∈ cpus L;
  mc_ts : 0 ≤ t_ts T < 2 ^ 64;
  mc_newer : newer (J c) (t_ts T);
  mc_newest : ∀ T', T' ∈ all_replay J → t_ts T' < t_ts T;
  mc_txn : txn_ok T;
  mc_plain : Forall (λ x, plain x.2) (t_blocks T);
  mc_room : j_pos (J c) + Z.of_nat (length (t_blocks T)) + 2 ≤ jlen;
}.

Section commit.
Context (d : disk) (J : Z → jstate) (D : Z → list Z) (c : Z) (T : txn).
Context (HC : consistent d J D) (HT : may_commit J c T).

Let pos := j_pos (J c).
Let k := Z.of_nat (length (t_blocks T)).
Let J' := set_journal J c (append (J c) T).
Let D' := over (t_blocks T) D.

Lemma pos_range : 1 ≤ pos ∧ pos + k + 2 ≤ jlen.
Proof using HC HT.
  destruct (cs_journal _ _ _ HC c (mc_cpu _ _ _ HT)) as [HJ _]. pose proof (records_le _ _ _ _ (jo_recs _ _ HJ)).
  pose proof (mc_room _ _ _ HT). subst pos k. lia.
Qed.

Lemma replay_new T' : T' ∈ all_replay J' ↔ T' ∈ all_replay J ∨ T' = T.
Proof using HT.
  assert (to_replay (append (J c) T) = to_replay (J c) ++ [T]) as E by (apply to_replay_append; apply HT).
  rewrite !all_replay_elem. unfold J', set_journal. split.
  - intros (c' & Hc' & H). case_decide as Ec; [subst c'|left; by exists c'].
    rewrite E elem_of_app list_elem_of_singleton in H. destruct H as [?| ->]; [left; by exists c|by right].
  - intros [(c' & Hc' & H)| ->].
    + exists c'. split; [done|]. case_decide as Ec; [subst c'|done]. rewrite E elem_of_app. by left.
    + exists c. split; [apply HT|]. rewrite decide_True // E. apply elem_of_app. right. by apply list_elem_of_singleton.
Qed.

Lemma data_new m :
  (∀ b, meta L b → img m b = img (stable d) b) → inj_ts (all_replay J') ∧ ∀ b, meta L b → replayed (all_replay J') (img m) b = D' b.
Proof using HC HT.
  intros Hm. assert (∀ b, inj_ts (all_replay J') ∧
    replayed (all_replay J') (img m) b = over (t_blocks T) (replayed (all_replay J) (img m)) b) as H.
  { intros b. apply replayed_add; [apply HC|apply replay_new|apply HT]. }
  split; [apply (H 0)|]. intros b Hb. rewrite (proj2 (H b)). apply over_ext. rewrite -(cs_data _ _ _ HC b Hb).
  apply replayed_ext; [apply HC|]. intros _. by apply Hm.
Qed.

(** An image in which only the journal of [c] has changed. *)
Section image.
Context (m : gmap Z (list Z)).
Context (Hmeta : ∀ b, meta L b → img m b = img (stable d) b).
Context (Hothers : ∀ c' n, c' ∈ cpus L → c' ≠ c → 0 ≤ n < jlen → jimg m c' n = jimg (stable d) c' n).

Lemma other_journal c' : c' ∈ cpus L → c' ≠ c → journal_ok (jimg m c') (J c').
Proof using HC Hothers. intros Hc Hne. eapply journal_ok_local; [by apply HC|]. intros. by apply Hothers. Qed.

Lemma recovers_old : scan_journal (jimg m c) = Some (to_replay (J c)) → recovers_to m D.
Proof using HC Hothers Hmeta.
  intros Hs. apply (image_recovers m J D).
  - intros c' Hc. destruct (decide (c' = c)) as [->|Hne]; [done|]. by apply scan_journal_ok, other_journal.
  - apply HC.
  - intros b Hb. rewrite -(cs_data _ _ _ HC b Hb). apply replayed_ext; [apply HC|]. intros _. by apply Hmeta.
Qed.

Lemma journals_new c' : journal_ok (jimg m c) (append (J c) T) → c' ∈ cpus L → journal_ok (jimg m c') (J' c').
Proof using HC Hothers.
  intros Hj Hc. unfold J', set_journal. case_decide as E; [by subst c'|]. by apply other_journal.
Qed.

Lemma txns_new c' : c' ∈ cpus L → Forall txn_ok (j_recs (J' c')).
Proof using HC HT.
  intros Hc. unfold J', set_journal. case_decide as E; [|by apply HC]. subst c'.
  change (j_recs (append (J c) T)) with (j_recs (J c) ++ [T]). apply Forall_app. split; [by apply HC|]. constructor; [apply HT|constructor].
Qed.

Lemma recovers_new : journal_ok (jimg m c) (append (J c) T) → recovers_to m D'.
Proof using HC HT Hothers Hmeta.
  intros Hj. apply (image_recovers m J' D').
  - intros c' Hc. apply scan_journal_ok. by apply journals_new.
  - apply txns_new.
  - by apply data_new.
Qed.
End image.

Context (ws : list (Z * list Z)) (Hws : ws ≡ₚ record_writes c pos (t_ts T) (t_blocks T)).

(** Blocks that are not in the record. *)
Lemma not_written_meta b : meta L b → b ∉ ws.*1.
Proof using HL HC HT Hws.
  intros Hb. rewrite Hws. intros (n & Hn & ->)%record_writes_blocks. pose proof pos_range.
  apply (lo_meta _ HL c n); [apply HT|subst k; lia|done].
Qed.
Lemma not_written_other c' n : c' ∈ cpus L → 0 ≤ n < jlen → c' ≠ c ∨ n < pos ∨ pos + 1 + k ≤ n → jblk L c' n ∉ ws.*1.
Proof using HL HC HT Hws.
  intros Hc Hn Hor. rewrite Hws. intros (n' & Hn' & E)%record_writes_blocks. pose proof pos_range.
  apply (lo_inj _ HL) in E as [-> ->]; [|done|apply HT|done|subst k; lia]. subst k. lia.
Qed.

(** While the start block and the data are on their way. *)
Lemma commit_writing m : crash (put d ws) m → recovers_to m D.
Proof using HL HC HT Hws.
  intros Hm. pose proof pos_range as Hpos.
  assert (∀ b, guarded b → b ∉ ws.*1 → img m b = img (stable d) b) as Hg by (intros; by eapply guarded_image).
  apply recovers_old.
  - intros b Hb. apply Hg; [by left|by apply not_written_meta].
  - intros c' n Hc Hne Hn. apply Hg; [right; by exists c', n|apply not_written_other; auto].
  - destruct (cs_journal _ _ _ HC c (mc_cpu _ _ _ HT)) as [HJ Hst].
    apply (scan_journal_writing _ _ (t_ts T)); [|intros n Hn|apply HT].
    { eapply front_local; [exact HJ|]. intros n Hn. fold pos in Hn. apply Hg.
      - right. exists c, n. split_and!; [apply HT|lia..|done].
      - apply not_written_other; [apply HT|lia|right; left; lia]. }
    destruct (torn_header _ _ (Hm (jblk L c n))) as (u & Hu & E). apply first_sector_header in E as (Ety & Ets & Ena).
    fold (jimg m c n) in Ety, Ets, Ena. rewrite Ety Ets Ena. apply elem_of_versions in Hu as [Hu|Hu].
    + rewrite versions_out in Hu; [apply (cs_quiet _ _ _ HC); right; exists c, n; split_and!; [apply HT|subst pos; lia..|done]|].
      apply list_elem_of_singleton in Hu as ->. destruct (Hst n Hn) as [H1 H2]. split; [intros Hs; destruct (H1 Hs); auto|done].
    + rewrite Hws in Hu. apply record_writes_elem in Hu as [[En ->]|(i & x & Hx & _ & ->)].
      * apply (lo_inj _ HL) in En as [_ ->]; [|apply HT|apply HT|subst pos; lia|subst pos; lia].
        rewrite start_type start_timestamp; [apply HT|]. rewrite start_num_addr. split; [by auto|done].
      * pose proof (mc_plain _ _ _ HT) as Hp. rewrite Forall_forall in Hp.
        destruct (Hp x) as [? ?]; [by eapply list_elem_of_lookup_2|]. done.
Qed.

(** The start block and the data are there. *)
Let d1 := flushed (put d ws).
Let q := pos + 1 + k.

Lemma record_nodup : NoDup ws.*1.
Proof using HL HC HT Hws.
  rewrite Hws. apply NoDup_alt. intros i j b Hi Hj.
  assert (∀ i, (record_writes c pos (t_ts T) (t_blocks T)).*1 !! i = Some b →
    b = jblk L c (pos + Z.of_nat i) ∧ Z.of_nat i < 1 + k) as H.
  { intros [|i'] Hi'; simpl in Hi'; [injection Hi' as <-; subst k; split; [f_equal; lia|lia]|].
    rewrite list_lookup_fmap list_lookup_imap in Hi'. destruct (t_blocks T !! i') as [x|] eqn:Ex; [|done].
    injection Hi' as <-. apply lookup_lt_Some in Ex. subst k. split; [f_equal; lia|lia]. }
  pose proof pos_range. destruct (H i Hi) as [Ei ?], (H j Hj) as [Ej ?]. rewrite Ei in Ej.
  apply (lo_inj _ HL) in Ej as [_ ?]; [lia|apply HT|apply HT|lia|lia].
Qed.

Lemma stable_guarded b : guarded b → img (disk_map d) b = img (stable d) b.
Proof using HC.
  intros Hb. change (disk_map d) with (apply_writes (pending d) (stable d)). rewrite img_writes over_out //.
  by apply (cs_quiet _ _ _ HC).
Qed.

Lemma d1_img b : img (stable d1) b = over ws (img (disk_map d)) b.
Proof using Type. unfold d1, flushed. simpl. by rewrite disk_map_put img_writes. Qed.

Lemma d1_kept b : guarded b → b ∉ ws.*1 → img (stable d1) b = img (stable d) b.
Proof using HC. intros Hb Hw. by rewrite d1_img over_out // stable_guarded. Qed.

Lemma d1_journal n : 0 ≤ n < jlen → n < pos ∨ q ≤ n → jimg (stable d1) c n = jimg (stable d) c n.
Proof using HL HC HT Hws.
  intros Hn Hor. apply d1_kept; [right; exists c, n; split_and!; [apply HT|lia..|done]|].
  apply not_written_other; [apply HT|done|right]. subst q. lia.
Qed.

Lemma d1_written b v : (b, v) ∈ record_writes c pos (t_ts T) (t_blocks T) → img (stable d1) b = v.
Proof using HL HC HT Hws. intros Hb. rewrite d1_img. apply over_elem; [apply record_nodup|by rewrite Hws]. Qed.

Lemma d1_start : jimg (stable d1) c pos = start_block (t_ts T) 0 (t_blocks T).*1.
Proof using HL HC HT Hws. apply d1_written. by left. Qed.
Lemma d1_data i x : t_blocks T !! i = Some x → jimg (stable d1) c (pos + 1 + Z.of_nat i) = x.2.
Proof using HL HC HT Hws.
  intros Hx. apply d1_written. right. apply elem_of_lookup_imap. by exists i, x.
Qed.

(** The journal with the new record, when the commit block is there. *)
Lemma journal_appended blk :
  (∀ n, 0 ≤ n < jlen → n ≠ q → blk n = jimg (stable d1) c n) → commit_of (blk q) (t_ts T) →
  journal_ok blk (append (J c) T).
Proof using HL HC HT Hws.
  intros Hb Hq. pose proof pos_range as Hpos. destruct (cs_journal _ _ _ HC c (mc_cpu _ _ _ HT)) as [HJ Hst].
  assert (j_pos (append (J c) T) = pos + k + 2) as Ep by done. split.
  - apply append_front; [|apply HT|].
    + eapply front_local; [exact HJ|]. intros n Hn. fold pos in Hn. rewrite Hb; [lia|subst q; lia|].
      apply d1_journal; [lia|left; lia].
    + rewrite Ep. fold pos. apply record_new.
      * apply HT.
      * apply (mc_txn _ _ _ HT).
      * apply (mc_plain _ _ _ HT).
      * lia.
      * lia.
      * rewrite Hb; [lia|subst q; lia|]. apply d1_start.
      * intros i x Hx. pose proof (lookup_lt_Some _ _ _ Hx). rewrite Hb; [lia|subst q; lia|]. by apply d1_data.
      * exact Hq.
  - rewrite Ep. intros n Hn. rewrite Hb; [lia|subst q; lia|]. rewrite d1_journal; [lia|right; subst q; lia|].
    apply Hst. subst pos. lia.
Qed.

Context (hdr : list Z) (Hhdr : commit_of hdr (t_ts T)) (Hhok : block_ok hdr) (Hwok : Forall (λ x, block_ok x.2) ws).

Lemma d1_ok b : block_ok (img (stable d1) b).
Proof using HC Hwok.
  rewrite d1_img. apply over_block_ok; [|done]. by eapply disk_map_ok.
Qed.

Lemma d1_crash m b : crash (put d1 [(jblk L c q, hdr)]) m → b ≠ jblk L c q → img m b = img (stable d1) b.
Proof using HC Hwok.
  intros Hm Hb. apply (crash_quiet (put d1 [(jblk L c q, hdr)])); [done| |apply d1_ok].
  simpl. rewrite list_elem_of_singleton. done.
Qed.

Lemma q_range : 0 ≤ q < jlen.
Proof using HC HT. pose proof pos_range. subst q. lia. Qed.
Lemma q_other b : meta L b → b ≠ jblk L c q.
Proof using HL HC HT. intros Hb ->. apply (lo_meta _ HL c q); [apply HT|apply q_range|done]. Qed.
Lemma q_other_journal c' n : c' ∈ cpus L → 0 ≤ n < jlen → c' ≠ c ∨ n ≠ q → jblk L c' n ≠ jblk L c q.
Proof using HL HC HT.
  intros Hc Hn Hor E. apply (lo_inj _ HL) in E as [-> ->]; [|done|apply HT|done|apply q_range]. by destruct Hor.
Qed.

(** While the commit block is on its way. *)
Lemma commit_pending m : crash (put d1 [(jblk L c q, hdr)]) m → recovers_to m D ∨ recovers_to m D'.
Proof using HL HC HT Hws Hhdr Hwok.
  intros Hm. pose proof pos_range as Hpos. pose proof q_range as Hq.
  assert (∀ b, meta L b → img m b = img (stable d) b) as Hmeta.
  { intros b Hb. rewrite (d1_crash _ _ Hm); [by apply q_other|]. apply d1_kept; [by left|by apply not_written_meta]. }
  assert (∀ c' n, c' ∈ cpus L → c' ≠ c → 0 ≤ n < jlen → jimg m c' n = jimg (stable d) c' n) as Hoth.
  { intros c' n Hc Hne Hn. unfold jimg. rewrite (d1_crash _ _ Hm); [apply q_other_journal; auto|].
    apply d1_kept; [right; by exists c', n|apply not_written_other; auto]. }
  assert (∀ n, 0 ≤ n < jlen → n ≠ q → jimg m c n = jimg (stable d1) c n) as Hc.
  { intros n Hn Hne. apply (d1_crash _ _ Hm). apply q_other_journal; [apply HT|done|by right]. }
  destruct (decide (hdr_type (jimg m c q) = JOURNAL_TXN_COMMIT ∧ hdr_timestamp (jimg m c q) = t_ts T)) as [Hcq|Hcq].
  { right. apply recovers_new; [done..|]. by apply journal_appended. }
  left. apply recovers_old; [done..|]. destruct (cs_journal _ _ _ HC c (mc_cpu _ _ _ HT)) as [HJ Hst].
  apply (scan_journal_writing _ _ (t_ts T)); [|intros n Hn; fold pos in Hn|apply HT].
  { eapply front_local; [exact HJ|]. intros n Hn. fold pos in Hn. rewrite Hc; [lia|subst q; lia|]. apply d1_journal; [lia|left; lia]. }
  destruct (decide (n = q)) as [->|Hne].
  - destruct (torn_header _ _ (Hm (jblk L c q))) as (u & Hu & E). apply first_sector_header in E as (Ety & Ets & Ena).
    fold (jimg m c q) in Ety, Ets, Ena. rewrite Ety Ets in Hcq. rewrite Ety Ets Ena. apply elem_of_versions in Hu as [Hu|Hu].
    + rewrite versions_out in Hu; [apply not_elem_of_nil|]. apply list_elem_of_singleton in Hu as ->.
      fold (jimg (stable d1) c q). rewrite d1_journal; [done|right; lia|].
      destruct (Hst q) as [H1 H2]; [subst q pos; lia|]. split; [intros Hs; destruct (H1 Hs); auto|done].
    + apply list_elem_of_singleton in Hu as [= ->]. by destruct Hcq.
  - rewrite Hc; [lia|done|]. destruct (decide (n < q)) as [Hlt|Hge].
    + destruct (decide (n = pos)) as [->|Hnp].
      * rewrite d1_start start_type start_timestamp; [apply HT|]. rewrite start_num_addr. split; [by auto|done].
      * destruct (lookup_lt_is_Some_2 (t_blocks T) (Z.to_nat (n - pos - 1))) as [x Hx]; [subst q k; lia|].
        pose proof (d1_data _ _ Hx) as E. replace (pos + 1 + Z.of_nat (Z.to_nat (n - pos - 1))) with n in E by lia. rewrite E.
        pose proof (mc_plain _ _ _ HT) as Hp. rewrite Forall_forall in Hp.
        destruct (Hp x) as [? ?]; [by eapply list_elem_of_lookup_2|]. done.
    + rewrite d1_journal; [lia|right; lia|]. destruct (Hst n) as [H1 H2]; [subst pos; lia|].
      split; [intros Hs; destruct (H1 Hs); auto|done].
Qed.

(** When the commit block is there. *)
Lemma commit_done : consistent (flushed (put d1 [(jblk L c q, hdr)])) J' D'.
Proof using HL HC HT Hws Hhdr Hhok Hwok.
  pose proof q_range as Hq.
  assert (∀ b, b ≠ jblk L c q → img (stable (flushed (put d1 [(jblk L c q, hdr)]))) b = img (stable d1) b) as Hk.
  { intros b Hb. unfold flushed at 1. cbn [stable]. rewrite disk_map_put img_writes over_out; [|done].
    simpl. rewrite list_elem_of_singleton. done. }
  assert (img (stable (flushed (put d1 [(jblk L c q, hdr)]))) (jblk L c q) = hdr) as Ehdr.
  { unfold flushed at 1. cbn [stable]. rewrite disk_map_put img_writes. apply over_elem; [apply NoDup_singleton|by left]. }
  set (d2 := flushed (put d1 [(jblk L c q, hdr)])) in *.
  assert (∀ b, meta L b → img (stable d2) b = img (stable d) b) as Hmeta.
  { intros b Hb. rewrite Hk; [by apply q_other|]. apply d1_kept; [by left|by apply not_written_meta]. }
  split.
  - intros b _. apply not_elem_of_nil.
  - split; [|constructor]. intros b. destruct (decide (b = jblk L c q)) as [->|Hb]; [by rewrite Ehdr|]. rewrite Hk //. apply d1_ok.
  - intros c' Hc. apply journals_new; [| |done].
    + intros c1 n Hc1 Hne Hn. unfold jimg. rewrite Hk; [apply q_other_journal; auto|].
      apply d1_kept; [right; by exists c1, n|apply not_written_other; auto].
    + apply journal_appended.
      * intros n Hn Hne. apply Hk. apply q_other_journal; [apply HT|done|by right].
      * unfold jimg. by rewrite Ehdr.
  - intros c' Hc. by apply txns_new.
  - by apply (data_new (stable d2)).
  - by apply (data_new (stable d2)).
Qed.
End commit.

(** ** The skip block *)

Lemma front_skip blk blk' j ts :
  journal_front blk j → (∀ n, 1 ≤ n < j_pos j → blk' n = blk n) → skip_of (blk' 0) ts →
  (j_recs j = [] → j_bound j ≤ ts) → journal_front blk' (j <| j_skip := ts |>).
Proof. intros HJ Hb Hs Ho. split; try apply HJ; [done| |done]. eapply records_local; [apply HJ|done]. Qed.

Section skip.
Context (d : disk) (J : Z → jstate) (D : Z → list Z) (c ts : Z) (hdr : list Z).
Context (HC : consistent d J D) (Hc : c ∈ cpus L) (Hhdr : skip_of hdr ts) (Hok : block_ok hdr) (Hts : j_skip (J c) ≤ ts).

Let J' := set_journal J c ((J c) <| j_skip := ts |>).

Lemma replay_skip T : T ∈ all_replay J' ↔ ∃ c', c' ∈ cpus L ∧ T ∈ to_replay (J c') ∧ (c' = c → ts < t_ts T).
Proof using Hts.
  rewrite all_replay_elem. unfold J', set_journal. split; intros (c' & Hc' & H); exists c'; (split; [done|]).
  - case_decide as E; [subst c'|split; [done|by intros]]. rewrite to_replay_elem in H. simpl in H.
    rewrite to_replay_elem. split; [split; [tauto|lia]|tauto].
  - case_decide as E; [subst c'|tauto]. destruct H as [H1 H2]. rewrite to_replay_elem in H1. rewrite to_replay_elem. simpl. tauto.
Qed.

Lemma inj_skip : inj_ts (all_replay J').
Proof using HC Hts.
  intros T1 T2 (c1 & ? & ? & _)%replay_skip (c2 & ? & ? & _)%replay_skip.
  apply (cs_inj _ _ _ HC); apply all_replay_elem; [by exists c1|by exists c2].
Qed.

Context (Hdata : ∀ b, meta L b → replayed (all_replay J') (img (stable d)) b = D b).

Lemma zero_range : 0 ≤ 0 < jlen.
Proof using Type. done. Qed.

(** A journal whose first block has one of the two headers. *)
Lemma journal_skip blk s :
  (∀ n, 1 ≤ n < jlen → blk n = jimg (stable d) c n) → skip_of (blk 0) s → s = j_skip (J c) ∨ s = ts →
  journal_ok blk ((J c) <| j_skip := s |>).
Proof using HC Hc Hts.
  intros Hb Hs Hor. destruct (cs_journal _ _ _ HC c Hc) as [HJ Hst].
  pose proof (records_le _ _ _ _ (jo_recs _ _ HJ)). pose proof (jo_pos _ _ HJ). split.
  - eapply front_skip; [done|intros; apply Hb; lia|done|]. intros E. pose proof (jo_old _ _ HJ E). lia.
  - intros n Hn. simpl in Hn. rewrite Hb; [lia|]. by apply Hst.
Qed.

Lemma skip_pending m : crash (put d [(jblk L c 0, hdr)]) m → recovers_to m D.
Proof using HL HC Hc Hhdr Hts Hdata.
  intros Hm. assert (∀ b, guarded b → b ≠ jblk L c 0 → img m b = img (stable d) b) as Hg.
  { intros b Hb Hne. eapply guarded_image; [done..|]. simpl. by rewrite list_elem_of_singleton. }
  assert (∀ b, meta L b → img m b = img (stable d) b) as Hmeta.
  { intros b Hb. apply Hg; [by left|]. intros ->. apply (lo_meta _ HL c 0); [done|apply zero_range|done]. }
  assert (∀ c' n, c' ∈ cpus L → 0 ≤ n < jlen → c' ≠ c ∨ n ≠ 0 → jimg m c' n = jimg (stable d) c' n) as Hj.
  { intros c' n Hc' Hn Hor. apply Hg; [right; by exists c', n|]. intros E.
    apply (lo_inj _ HL) in E as [-> ->]; [by destruct Hor|done..]. }
  assert (∃ s, skip_of (jimg m c 0) s ∧ (s = j_skip (J c) ∨ s = ts)) as (s & Hs & Hor).
  { destruct (torn_header _ _ (Hm (jblk L c 0))) as (u & Hu & E). apply first_sector_header in E as (Ety & Ets & _).
    fold (jimg m c 0) in Ety, Ets. apply elem_of_versions in Hu as [Hu|Hu].
    - rewrite versions_out in Hu; [apply (cs_quiet _ _ _ HC); right; by exists c, 0|]. apply list_elem_of_singleton in Hu as ->.
      destruct (cs_journal _ _ _ HC c Hc) as [HJ _]. destruct (jo_skip _ _ HJ) as [Hty Ht].
      exists (j_skip (J c)). split; [|by left]. split; [by rewrite Ety|by rewrite Ets].
    - apply list_elem_of_singleton in Hu as [= ->]. exists ts. split; [|by right]. destruct Hhdr. split; [by rewrite Ety|by rewrite Ets]. }
  pose proof (journal_skip (jimg m c) s ltac:(intros n Hn; apply Hj; [done|lia|right; lia]) Hs Hor) as Hjc.
  apply (image_recovers m (set_journal J c ((J c) <| j_skip := s |>))).
  - intros c' Hc'. apply scan_journal_ok. unfold set_journal. case_decide as E; [by subst c'|].
    eapply journal_ok_local; [by apply HC|]. intros n Hn. apply Hj; auto.
  - intros c' Hc'. unfold set_journal. case_decide as E; [subst c'; simpl|]; by apply HC.
  - intros b Hb. destruct Hor as [-> | ->].
    + rewrite -(cs_data _ _ _ HC b Hb). assert (all_replay (set_journal J c ((J c) <| j_skip := j_skip (J c) |>)) = all_replay J) as ->.
      { unfold all_replay. f_equal. apply list_fmap_ext. intros i c' _. unfold set_journal. case_decide as E; [subst c'|done].
        by destruct (J c). }
      apply replayed_ext; [apply HC|]. intros _. by apply Hmeta.
    + rewrite -(Hdata b Hb). apply replayed_ext; [apply inj_skip|]. intros _. by apply Hmeta.
Qed.

Lemma skip_done : consistent (flushed (put d [(jblk L c 0, hdr)])) J' D.
Proof using HL HC Hc Hhdr Hok Hts Hdata.
  assert (∀ b, b ≠ jblk L c 0 → img (stable (flushed (put d [(jblk L c 0, hdr)]))) b = img (disk_map d) b) as Hk.
  { intros b Hb. unfold flushed. cbn [stable]. rewrite disk_map_put img_writes over_out //. simpl. by rewrite list_elem_of_singleton. }
  assert (img (stable (flushed (put d [(jblk L c 0, hdr)]))) (jblk L c 0) = hdr) as Ehdr.
  { unfold flushed. cbn [stable]. rewrite disk_map_put img_writes. apply over_elem; [apply NoDup_singleton|by left]. }
  set (d2 := flushed (put d [(jblk L c 0, hdr)])) in *.
  assert (∀ b, meta L b → img (stable d2) b = img (stable d) b) as Hmeta.
  { intros b Hb. rewrite Hk; [|by eapply stable_guarded; [|left]]. intros ->. apply (lo_meta _ HL c 0); [done|apply zero_range|done]. }
  assert (∀ c' n, c' ∈ cpus L → 0 ≤ n < jlen → c' ≠ c ∨ n ≠ 0 → jimg (stable d2) c' n = jimg (stable d) c' n) as Hj.
  { intros c' n Hc' Hn Hor. unfold jimg. rewrite Hk; [|eapply stable_guarded; [done|right; by exists c', n]]. intros E.
    apply (lo_inj _ HL) in E as [-> ->]; [by destruct Hor|done..]. }
  split.
  - intros b _. apply not_elem_of_nil.
  - split; [|constructor]. intros b. destruct (decide (b = jblk L c 0)) as [->|Hb]; [by rewrite Ehdr|]. rewrite Hk //.
    by eapply disk_map_ok.
  - intros c' Hc'. unfold J', set_journal. case_decide as E; [subst c'|].
    + apply journal_skip; [intros n Hn; apply Hj; [done|lia|right; lia]|unfold jimg; by rewrite Ehdr|by right].
    + eapply journal_ok_local; [by apply HC|]. intros n Hn. apply Hj; auto.
  - intros c' Hc'. unfold J', set_journal. case_decide as E; [subst c'; simpl|]; by apply HC.
  - apply inj_skip.
  - intros b Hb. rewrite -(Hdata b Hb). apply replayed_ext; [apply inj_skip|]. intros _. by apply Hmeta.
Qed.
End skip.

(** ** Transactions that are applied *)

(** The first transactions [G] that the journal of [c] would replay, of which
    [Tl] is the last, may be applied with the writes [ws]: older ones of other
    journals have no block in common with them. *)
Record may_apply (J : Z → jstate) (c : Z) (G : list txn) (Tl : txn) (ws : list (Z * list Z)) : Prop := MayApply {
  ma_cpu : c ∈ cpus L;
  ma_front : ∃ R, to_replay (J c) = G ++ R;
  ma_last : last G = Some Tl;
  ma_order : ∀ c' T T', T ∈ G → c' ∈ cpus L → c' ≠ c → T' ∈ to_replay (J c') → t_ts T' < t_ts T → ∀ b, has T b → ¬ has T' b;
  ma_blocks : ∀ b v, (b, v) ∈ ws → meta L b ∧ block_ok v ∧ ∃ T, T ∈ G ∧ has T b;
  ma_writes : ∀ b f, over ws f b = replayed G f b;
}.

Section apply.
Context (d : disk) (J : Z → jstate) (D : Z → list Z) (c : Z) (G : list txn) (Tl : txn) (ws : list (Z * list Z)).
Context (HC : consistent d J D) (HA : may_apply J c G Tl ws).

Let d1 := flushed (put d ws).
Let J' := set_journal J c ((J c) <| j_skip := t_ts Tl |>).

Lemma group_elem T : T ∈ G → T ∈ all_replay J.
Proof using HA.
  intros HT. apply all_replay_elem. exists c. split; [apply HA|]. destruct (ma_front _ _ _ _ _ HA) as [R ->]. apply elem_of_app. by left.
Qed.

Lemma apply_image m :
  (∀ b, guarded b → b ∉ ws.*1 → img m b = img (stable d) b) →
  (∀ c', c' ∈ cpus L → journal_ok (jimg m c') (J c')) ∧ ∀ b, meta L b → replayed (all_replay J) (img m) b = D b.
Proof using HL HC HA.
  intros Hg. split.
  - intros c' Hc'. eapply journal_ok_local; [by apply HC|]. intros n Hn. apply Hg; [right; by exists c', n|].
    intros ([b v] & E & Hx)%list_elem_of_fmap. simpl in E. destruct (ma_blocks _ _ _ _ _ HA _ _ Hx) as [Hm _].
    rewrite -E in Hm. by apply (lo_meta _ HL c' n).
  - intros b Hb. rewrite -(cs_data _ _ _ HC b Hb). apply replayed_ext; [apply HC|]. intros Hno. apply Hg; [by left|].
    intros ([b' v] & -> & Hx)%list_elem_of_fmap. destruct (ma_blocks _ _ _ _ _ HA _ _ Hx) as (_ & _ & T & HT & Hh).
    apply (Hno T); [by apply group_elem|done].
Qed.

(** While the blocks are on their way. *)
Lemma apply_writing m : crash (put d ws) m → recovers_to m D.
Proof using HL HC HA.
  intros Hm. destruct (apply_image m) as [Hj Hd]; [intros; by eapply guarded_image|].
  apply (image_recovers m J D); [|apply HC|done]. intros c' Hc'. by apply scan_journal_ok, Hj.
Qed.

Lemma applied_img b : img (stable d1) b = over ws (img (disk_map d)) b.
Proof using Type. unfold d1, flushed. cbn [stable]. by rewrite disk_map_put img_writes. Qed.

Lemma apply_written : consistent d1 J D.
Proof using HL HC HA.
  destruct (apply_image (stable d1)) as [Hj Hd].
  { intros b Hb Hw. rewrite applied_img over_out //. by eapply stable_guarded. }
  split; [intros b _; apply not_elem_of_nil| |done|apply HC|apply HC|done]. split; [|constructor].
  intros b. rewrite applied_img. apply over_block_ok; [by eapply disk_map_ok|]. apply Forall_forall. intros [b' v] Hx.
  by apply (ma_blocks _ _ _ _ _ HA) in Hx as (_ & ? & _).
Qed.

(** The time stamps on both sides of the last transaction. *)
Lemma group_split R : to_replay (J c) = G ++ R → (∀ T, T ∈ G → t_ts T ≤ t_ts Tl) ∧ (∀ T, T ∈ R → t_ts Tl < t_ts T) ∧ j_skip (J c) < t_ts Tl.
Proof using HC HA.
  intros E. destruct (cs_journal _ _ _ HC c (ma_cpu _ _ _ _ _ HA)) as [HJ _].
  assert (StronglySorted (λ a b, t_ts a < t_ts b) (to_replay (J c))) as Hs.
  { unfold to_replay, live. pose proof (jo_order _ _ HJ) as Ho. clear -Ho. induction (j_recs (J c)) as [|T l IH]; [constructor|].
    simpl in Ho. inversion Ho as [|? ? Hl Hf]; subst. rewrite filter_cons. case_decide; [|by apply IH]. constructor; [by apply IH|].
    apply Forall_forall. intros T' [_ HT']%list_elem_of_filter. rewrite Forall_forall in Hf. apply Hf. by apply list_elem_of_fmap_2. }
  pose proof (ma_last _ _ _ _ _ HA) as Hl. apply last_Some in Hl as [G0 EG].
  rewrite E EG in Hs. rewrite -app_assoc in Hs. split_and!.
  - intros T HT. rewrite EG elem_of_app list_elem_of_singleton in HT. destruct HT as [HT| ->]; [|done].
    enough (t_ts T < t_ts Tl) by lia. by apply (StronglySorted_app_1_elem_of _ _ _ T Tl Hs); [|left].
  - intros T HT. apply StronglySorted_app_1_r in Hs. inversion Hs as [|? ? _ Hf]; subst. rewrite Forall_forall in Hf. by apply Hf.
  - assert (Tl ∈ to_replay (J c)) as HT by (rewrite E EG; apply elem_of_app; left; apply elem_of_app; right; by left).
    by apply to_replay_elem in HT as [_ ?].
Qed.

Lemma apply_data b : meta L b → replayed (all_replay J') (img (stable d1)) b = D b.
Proof using HC HA.
  intros Hb. destruct (ma_front _ _ _ _ _ HA) as [R ER]. destruct (group_split R ER) as (HG & HR & Hsk).
  rewrite -(cs_data _ _ _ HC b Hb). rewrite -(replayed_apply (all_replay J) (all_replay J') G).
  - apply HC.
  - intros T. rewrite replay_skip; [lia|]. rewrite all_replay_elem. split.
    + intros (c' & Hc' & HT). destruct (decide (c' = c)) as [->|Hne]; [|right; exists c'; by split_and!].
      assert (T ∈ G ++ R) as HT' by by rewrite -ER. apply elem_of_app in HT' as [?|HTR]; [by left|right].
      exists c. split_and!; [done..|]. intros _. by apply HR.
    + intros [HT|(c' & Hc' & HT & _)]; [|by exists c']. by apply all_replay_elem, group_elem.
  - intros T T' HT HT' Hlt b'. rewrite replay_skip in HT'; [lia|]. destruct HT' as (c' & Hc' & HT' & Hcase).
    destruct (decide (c' = c)) as [->|Hne]; [specialize (Hcase eq_refl); specialize (HG T HT); lia|].
    by apply (ma_order _ _ _ _ _ HA c').
  - apply replayed_ext; [eapply inj_skip; [exact HC|lia]|]. intros _.
    rewrite applied_img (ma_writes _ _ _ _ _ HA). apply replayed_ext.
    + intros T1 T2 H1 H2. apply (cs_inj _ _ _ HC); by apply group_elem.
    + intros _. eapply stable_guarded; [done|]. by left.
Qed.
End apply.

(** ** Forgetting records *)

(** The journal starts again behind its skip block. *)
Definition emptied (j : jstate) : jstate := JState (j_skip j) (j_skip j) [] 1.

Lemma records_stale blk B p l p' :
  records blk p l p' → Forall (λ T, t_ts T ≤ B) l → stale blk B p' → stale blk B p.
Proof.
  intros Hr. induction Hr as [|p T p1 l p2 Hr Hl IH]; intros Hf Hs; [done|]. apply Forall_cons in Hf as [HT Hf].
  specialize (IH Hf Hs). destruct Hr as [[? ?] (Hty & Hts & Hna) _ [Hcty Hcts] Hp]. intros n Hn.
  destruct (decide (n < p1)) as [Hlt|]; [|apply IH; lia].
  destruct (decide (n = p)) as [->|Hnp]; [rewrite Hty Hts Hna; split; [done|by intros]|].
  destruct (decide (n = p1 - 1)) as [->|Hnc]; [rewrite Hcty Hcts; split; [done|by intros]|].
  destruct (Hp n) as [? ?]; [lia|]. done.
Qed.

Lemma stale_weaken blk B B' p : B ≤ B' → stale blk B p → stale blk B' p.
Proof.
  intros HB Hs n Hn. destruct (Hs n Hn) as [H1 H2]. split; [intros H; destruct (H1 H); split; [lia|done]|intros H; specialize (H2 H); lia].
Qed.

Lemma emptied_ok blk j : journal_ok blk j → to_replay j = [] → journal_ok blk (emptied j).
Proof.
  intros [HJ Hst] Hnone. assert (Forall (λ T, t_ts T ≤ j_skip j) (j_recs j)) as Hall.
  { apply Forall_forall. intros T HT. destruct (decide (j_skip j < t_ts T)); [|lia]. exfalso.
    assert (T ∈ to_replay j) as H by by apply to_replay_elem. rewrite Hnone in H. by apply not_elem_of_nil in H. }
  assert (j_bound j ≤ j_skip j) as HB.
  { destruct (j_recs j) as [|T l] eqn:E; [by apply (jo_old _ _ HJ)|].
    pose proof (jo_new _ _ HJ) as Hn. rewrite E in Hn. inversion Hn; subst. inversion Hall; subst. lia. }
  split; [split|]; simpl; try done.
  - apply HJ.
  - constructor.
  - constructor.
  - eapply records_stale; [apply HJ|done|]. by eapply stale_weaken.
Qed.

Lemma emptied_consistent d J D c :
  consistent d J D → c ∈ cpus L → to_replay (J c) = [] → consistent d (set_journal J c (emptied (J c))) D.
Proof.
  intros HC Hc Hnone. assert (all_replay (set_journal J c (emptied (J c))) = all_replay J) as E.
  { unfold all_replay. f_equal. apply list_fmap_ext. intros i c' _. unfold set_journal. case_decide as Ec; [subst c'|done].
    by rewrite Hnone. }
  split; rewrite ?E; try apply HC.
  - intros c' Hc'. unfold set_journal. case_decide as Ec; [subst c'|by apply HC]. apply emptied_ok; [by apply HC|done].
  - intros c' Hc'. unfold set_journal. case_decide as Ec; [constructor|by apply HC].
Qed.
End journals.
