(* ===== verification/FsRunning.v ===== *)
(** * Writing to the journals of a running system

    What the journal's functions do to a state in which the journals of all
    CPUs are files with all their blocks, on a machine with one disk; and the
    states of the disk that they pass through. *)

From S2P Require Import Prelude FsBytes FsWorld FsDisk FsTrans FsDedup FsWrite FsBlocks FsInode FsView FsJournal FsHeaders FsScan FsRecords FsCrash FsSafe FsJournals.

(** ** What changes *)

(** [w'] differs from [w] in buffers, inputs, transactions, journals and disks. *)
Definition churn (w w' : fs_world) : Prop :=
  w' = w <| f_bufs := f_bufs w' |> <| f_tick := f_tick w' |> <| f_trans := f_trans w' |> <| f_next := f_next w' |>
         <| f_journals := f_journals w' |> <| f_disks := f_disks w' |>.

#[export] Instance churn_preorder : PreOrder churn.
Proof.
  split; [intros w; unfold churn; by destruct w|]. unfold churn. intros w1 w2 w3 E2 E3. rewrite {1}E3 {1}E2. by destruct w1.
Qed.

Lemma stir_churn w w' : stir w w' → churn w w'.
Proof.
  intros E. unfold churn. rewrite (stir_next _ _ E) (stir_journals _ _ E) (stir_disks _ _ E). rewrite {1}E. by destruct w.
Qed.

Section churned.
Context (w w' : fs_world) (H : churn w w').

Lemma churn_inodes : f_inodes w' = f_inodes w.
Proof using H. rewrite H. by destruct w. Qed.
Lemma churn_junk : f_junk w' = f_junk w.
Proof using H. rewrite H. by destruct w. Qed.
Lemma churn_bitmap : f_bitmap w' = f_bitmap w.
Proof using H. rewrite H. by destruct w. Qed.
Lemma churn_inums : f_inums w' = f_inums w.
Proof using H. rewrite H. by destruct w. Qed.
End churned.

(** ** The journals' files *)

(** The blocks of addresses of the journal of [c]. *)
Definition index (w : fs_world) (c b : Z) : Prop :=
  ∃ j x, f_journals w !! c = Some j ∧ f_inodes w !! sv6_journal j = Some x ∧ (b = addrs x !!! 10%nat ∨ b = addrs x !!! 11%nat).

Lemma jfile_frame w w' c ja pos pos' j :
  jfile w c ja pos → one_disk w' → f_inodes w' = f_inodes w → f_journals w !! c = Some j →
  f_journals w' !! c = Some (j <| current_off := pos' * BSIZE |>) → (∀ b, index w c b → cur w' b = cur w b) →
  0 ≤ pos' ≤ jlen → jfile w' c ja pos'.
Proof.
  intros [Hd Hp (j0 & x & Hj0 & Ho & Hx & Hdev & Hty & Hsz & Hb)] Hd' Ei Hj Hj' Hc Hp'. split; [done|done|].
  rewrite Hj in Hj0. injection Hj0 as <-. eexists _, x. split; [exact Hj'|]. split; [done|]. split_and!; try done.
  - change (sv6_journal (j <| current_off := pos' * BSIZE |>)) with (sv6_journal j). by rewrite Ei.
  - intros n Hn. destruct (Hb n Hn) as (Hpo & Hfb & Hne).
    assert (cur w' (addrs x !!! 10%nat) = cur w (addrs x !!! 10%nat)) as E10 by (apply Hc; exists j, x; auto).
    assert (cur w' (addrs x !!! 11%nat) = cur w (addrs x !!! 11%nat)) as E11 by (apply Hc; exists j, x; auto).
    assert (file_block w' x n = file_block w x n) as Efb.
    { unfold file_block. destruct (Z.ltb_spec n NDIRECT); [done|]. unfold jlen in Hn.
      rewrite (proj2 (Z.ltb_lt n (NDIRECT + NINDIRECT))); [lia|]. unfold ptr_at. by rewrite E10. }
    split_and!; [|by rewrite Efb|done]. unfold path_ok in *. rewrite Efb. unfold ptr_at. by rewrite E11.
Qed.

(** Journals whose blocks are known: [ja c] are those of CPU [c]. *)
Record journals_at (L : layout) (ja : Z → list Z) : Prop := JournalsAt {
  ja_layout : layout_ok L;
  ja_nodup : NoDup (cpus L);
  ja_blk : ∀ c n, jblk L c n = ja c !!! Z.to_nat n;
  ja_small : ∀ c n, c ∈ cpus L → 0 ≤ n < jlen → small (jblk L c n);
}.

Section running.
Context (L : layout) (ja : Z → list Z) (HJA : journals_at L ja).

(** The journal of [c] has been written up to position [P c]. *)
Record files (w : fs_world) (P : Z → Z) : Prop := Files {
  fl_file : ∀ c, c ∈ cpus L → jfile w c (ja c) (P c);
  fl_index : ∀ c b, c ∈ cpus L → index w c b → ¬ guarded L b;
  fl_ok : ∀ b, block_ok (cur w b);
  fl_junk : ∀ n, block_ok (f_junk w n);
  fl_next : 0 < f_next w;
}.

Definition upd (P : Z → Z) (c n : Z) : Z → Z := λ c', if decide (c' = c) then n else P c'.

Lemma index_frame w w' c b :
  f_inodes w' = f_inodes w → (∀ j', f_journals w' !! c = Some j' → ∃ j, f_journals w !! c = Some j ∧ sv6_journal j' = sv6_journal j) →
  index w' c b → index w c b.
Proof.
  intros Ei Hj (j' & x & Hj' & Hx & Hb). destruct (Hj j' Hj') as (j & Ej & Es). exists j, x. by rewrite -Es -Ei.
Qed.

(** A step that writes blocks in [W] and moves the journal of [c]. *)
Lemma files_frame w w' P c n j :
  files w P → c ∈ cpus L → churn w w' → one_disk w' → f_journals w !! c = Some j →
  f_journals w' = <[c := j <| current_off := n * BSIZE |>]> (f_journals w) → 0 ≤ n ≤ jlen → 0 < f_next w' →
  (∀ b, ¬ guarded L b → cur w' b = cur w b) → (∀ b, block_ok (cur w' b)) → files w' (upd P c n).
Proof.
  intros HF Hc Hch Hd Hj Hj' Hn Hnx Hcur Hok. split; [| |done| |done].
  - intros c' Hc'. unfold upd. case_decide as E.
    + subst c'. eapply jfile_frame; [by apply HF|done|by apply churn_inodes|done| | |done].
      * rewrite Hj'. apply lookup_insert_eq.
      * intros b Hb. apply Hcur. by eapply (fl_index _ _ HF).
    + pose proof (fl_file _ _ HF c' Hc') as Hf. destruct (jfile_offset _ _ _ _ Hf) as (j1 & Ej1 & _).
      eapply jfile_frame; [done|done|by apply churn_inodes|done| | |apply Hf].
      * rewrite Hj' lookup_insert_ne // Ej1. f_equal. destruct Hf as [_ _ (j2 & x & Ej2 & Ho & _)].
        rewrite Ej1 in Ej2. injection Ej2 as <-. rewrite -Ho. by destruct j1.
      * intros b Hb. apply Hcur. by eapply (fl_index _ _ HF).
  - intros c' b Hc' Hb. apply (fl_index _ _ HF c'); [done|]. eapply index_frame; [by apply churn_inodes| |exact Hb].
    intros j'. rewrite Hj'. destruct (decide (c' = c)) as [->|Hne].
    + rewrite lookup_insert_eq. intros [= <-]. by exists j.
    + rewrite lookup_insert_ne //. intros E. by exists j'.
  - intros m. rewrite (churn_junk _ _ Hch). apply HF.
Qed.

(** ** One block of a journal *)

Lemma guarded_blk c n : c ∈ cpus L → 0 ≤ n < jlen → guarded L (jblk L c n).
Proof using Type. intros. right. by exists c, n. Qed.

Lemma run_write_journal w P c data t tx j :
  files w P → c ∈ cpus L → P c < jlen → block_ok data → t ≠ 0 → f_trans w !! t = Some tx → f_journals w !! c = Some j →
  ∃ w' ts, run (write_journal data t c) w = Done () w' ∧ files w' (upd P c (P c + 1)) ∧ churn w w' ∧
    f_disks w' = f_disks w ∧ f_next w' = f_next w ∧
    f_journals w' = <[c := j <| current_off := (P c + 1) * BSIZE |>]> (f_journals w) ∧
    f_trans w' = <[t := log_block tx (jblk L c (P c)) data ts]> (f_trans w) ∧
    ∀ b, cur w' b = if decide (b = jblk L c (P c)) then data else cur w b.
Proof using HJA.
  intros HF Hc Hlt Hok Ht Htx Hj. pose proof (fl_file _ _ HF c Hc) as Hf.
  destruct Hf as [Hd Hp (j0 & x & Hj0 & Ho & Hx & Hdev & Hty & Hsz & Hb)]. rewrite Hj in Hj0. injection Hj0 as <-.
  destruct (Hb (P c)) as (Hpath & Hfb & Hne); [lia|]. unfold write_journal.
  rewrite (run_bind_done _ _ _ _ _ (run_jr_get _ _ _ _ Hj)) Ho.
  rewrite (run_bind_done _ _ _ _ _ (run_fassert _ _ _)); [by rewrite Z.mod_mul|].
  rewrite (run_bind_done _ _ _ _ _ (run_jr_get _ _ _ _ Hj)).
  destruct (run_writei_block w (sv6_journal j) x (P c) data t tx) as (w1 & ts & Hr1 & Hs1 & Hc1 & Ht1);
    try done; [unfold jlen in *; lia|by rewrite Hfb|apply HF|apply HF|].
  rewrite Hfb -(ja_blk _ _ HJA) in Hc1, Ht1.
  rewrite (run_bind_done _ _ _ _ _ Hr1) (run_bind_done _ _ _ _ _ (run_fassert _ _ _)); [apply Z.eqb_refl|].
  replace (P c * BSIZE + BSIZE) with ((P c + 1) * BSIZE) by lia. unfold update_offset.
  rewrite (run_bind_done _ _ _ _ _ (run_fassert _ _ _)); [apply Z.leb_le; unfold jlen, PHYS_JOURNAL_SIZE, BSIZE in *; lia|].
  assert (f_journals w1 !! c = Some j) as Hj1 by by rewrite (stir_journals _ _ Hs1).
  rewrite (run_jr_upd _ _ _ _ Hj1). set (w2 := w1 <| f_journals ::= <[c := j <| current_off := (P c + 1) * BSIZE |>]> |>).
  assert (churn w w2) as Hch.
  { etrans; [by apply stir_churn|]. unfold churn, w2. by destruct w1. }
  assert (∀ b, cur w2 b = if decide (b = jblk L c (P c)) then data else cur w b) as Hcur by exact Hc1.
  assert (f_disks w2 = f_disks w) as Ed by (change (f_disks w2) with (f_disks w1); by apply stir_disks).
  assert (f_journals w2 = <[c := j <| current_off := (P c + 1) * BSIZE |>]> (f_journals w)) as Ejs.
  { change (f_journals w2) with (<[c := j <| current_off := (P c + 1) * BSIZE |>]> (f_journals w1)). by rewrite (stir_journals _ _ Hs1). }
  assert (f_next w2 = f_next w) as En by (change (f_next w2) with (f_next w1); by apply stir_next).
  exists w2, ts. split_and!; [done| |done|done|done|done|exact Ht1|done].
  eapply files_frame; [done..|eapply one_disk_eq; done|done|done|lia|rewrite En; apply HF| |].
  - intros b Hg. rewrite Hcur decide_False //. intros ->. apply Hg, guarded_blk; [done|lia].
  - intros b. rewrite Hcur. case_decide; [done|]. apply HF.
Qed.

Lemma upd_upd P c n m : ∀ c', upd (upd P c n) c m c' = upd P c m c'.
Proof using Type. intros c'. unfold upd. by case_decide. Qed.
Lemma upd_eq P c n : upd P c n c = n.
Proof using Type. unfold upd. by rewrite decide_True. Qed.

Lemma files_ext w P P' : (∀ c, P' c = P c) → files w P → files w P'.
Proof using Type. intros E HF. split; try apply HF. intros c Hc. rewrite E. by apply HF. Qed.

(** ** Several blocks *)

(** The journal of [c] got the blocks [vs], through transaction [t]. *)
Record wrote (w w' : fs_world) (P : Z → Z) (c t : Z) (tx : transaction) (j : journal) (vs : list (list Z)) : Prop := Wrote {
  wr_files : files w' (upd P c (P c + Z.of_nat (length vs)));
  wr_churn : churn w w';
  wr_disks : f_disks w' = f_disks w;
  wr_next : f_next w' = f_next w;
  wr_journals : f_journals w' = <[c := j <| current_off := (P c + Z.of_nat (length vs)) * BSIZE |>]> (f_journals w);
  wr_trans : ∃ l, f_trans w' = <[t := tx <| blocks ::= λ l0, l0 ++ l |>]> (f_trans w) ∧
    db_writes l = imap (λ i v, (jblk L c (P c + Z.of_nat i), v)) vs;
  wr_cur : ∀ b, ¬ guarded L b ∨ meta L b → cur w' b = cur w b;
}.

Lemma wrote_nil w P c t tx j :
  files w P → f_trans w !! t = Some tx → f_journals w !! c = Some j → current_off j = P c * BSIZE → wrote w w P c t tx j [].
Proof using Type.
  intros HF Ht Hj Ho. split; try done.
  - eapply files_ext; [|done]. intros c'. unfold upd. case_decide as E; [subst c'; simpl; lia|done].
  - simpl. rewrite Z.add_0_r -Ho. symmetry. apply insert_id. rewrite Hj. by destruct j.
  - exists []. split; [|done]. symmetry. apply insert_id. rewrite Ht. f_equal. destruct tx. rec_eq. by rewrite app_nil_r.
Qed.

Lemma wrote_snoc w w1 w2 P c t tx j vs v ts :
  wrote w w1 P c t tx j vs → c ∈ cpus L → files w2 (upd (upd P c (P c + Z.of_nat (length vs))) c (P c + Z.of_nat (length vs) + 1)) →
  churn w1 w2 → f_disks w2 = f_disks w1 → f_next w2 = f_next w1 → 0 ≤ P c + Z.of_nat (length vs) < jlen →
  f_journals w2 = <[c := j <| current_off := (P c + Z.of_nat (length vs) + 1) * BSIZE |>]> (f_journals w1) →
  (∀ tx1, f_trans w1 !! t = Some tx1 →
    f_trans w2 = <[t := log_block tx1 (jblk L c (P c + Z.of_nat (length vs))) v ts]> (f_trans w1)) →
  (∀ b, cur w2 b = if decide (b = jblk L c (P c + Z.of_nat (length vs))) then v else cur w1 b) →
  wrote w w2 P c t tx j (vs ++ [v]).
Proof using HJA.
  intros [HF Hch Hd Hn Hj (l & Ht & El) Hc] Hcpu HF2 Hch2 Hd2 Hn2 Hr Hj2 Ht2 Hc2.
  assert (P c + Z.of_nat (length (vs ++ [v])) = P c + Z.of_nat (length vs) + 1) as Elen by (rewrite length_app; simpl; lia).
  split; rewrite ?Elen.
  - eapply files_ext; [|exact HF2]. intros c'. by rewrite upd_upd.
  - by etrans.
  - congruence.
  - congruence.
  - rewrite Hj2 Hj insert_insert_eq. done.
  - exists (l ++ [DiskBlock (jblk L c (P c + Z.of_nat (length vs))) v ts]). split.
    + rewrite (Ht2 (tx <| blocks ::= λ l0, l0 ++ l |>)); [by rewrite Ht lookup_insert_eq|]. rewrite Ht insert_insert_eq.
      f_equal. unfold log_block. destruct tx. rec_eq. by rewrite app_assoc.
    + rewrite /db_writes fmap_app -/(db_writes l) El imap_app. simpl. by rewrite Nat.add_0_r.
  - intros b Hb. rewrite Hc2 decide_False; [|by apply Hc]. intros ->.
    destruct Hb as [Hb|Hb]; [by apply Hb, guarded_blk|by apply (lo_meta _ (ja_layout _ _ HJA) _ _ Hcpu Hr)].
Qed.

(** One more block. *)
Lemma run_wrote w w1 P c t tx j vs v :
  wrote w w1 P c t tx j vs → c ∈ cpus L → t ≠ 0 → block_ok v → 0 ≤ P c → P c + Z.of_nat (length vs) < jlen →
  ∃ w2, run (write_journal v t c) w1 = Done () w2 ∧ wrote w w2 P c t tx j (vs ++ [v]).
Proof using HJA.
  intros HW Hc Ht Hv Hp Hlt. pose proof HW as [HF Hch Hd Hn Hj (l & Etr & El) Hcur].
  destruct (run_write_journal w1 _ c v t (tx <| blocks ::= λ l0, l0 ++ l |>)
    (j <| current_off := (P c + Z.of_nat (length vs)) * BSIZE |>) HF Hc) as (w2 & ts & Hr2 & HF2 & Hch2 & Hd2 & Hn2 & Hj2 & Ht2 & Hc2).
  { by rewrite upd_eq. }
  { done. }
  { done. }
  { rewrite Etr. apply lookup_insert_eq. }
  { rewrite Hj. apply lookup_insert_eq. }
  rewrite upd_eq in HF2, Hj2, Ht2, Hc2. exists w2. split; [done|].
  eapply wrote_snoc; [done..|lia|by rewrite Hj2| |done].
  intros tx1 E1. rewrite Etr lookup_insert_eq in E1. injection E1 as <-. exact Ht2.
Qed.

Lemma run_wrote_all {A} (f : A → list Z) l w w1 P c t tx j vs :
  wrote w w1 P c t tx j vs → c ∈ cpus L → t ≠ 0 → Forall (λ x, block_ok (f x)) l → 0 ≤ P c →
  P c + Z.of_nat (length vs + length l) ≤ jlen →
  ∃ w2, run (fold_each l (λ x _, write_journal (f x) t c) ()) w1 = Done () w2 ∧ wrote w w2 P c t tx j (vs ++ (f <$> l)).
Proof using HJA.
  intros HW Hc Ht Hf Hp. revert w1 vs HW. induction Hf as [|x l Hx Hf IH]; intros w1 vs HW Hle.
  - exists w1. rewrite app_nil_r. done.
  - rewrite run_fold_each_cons. destruct (run_wrote w w1 P c t tx j vs (f x) HW Hc Ht Hx Hp) as (w2 & Hr2 & HW2); [simpl in Hle; lia|].
    rewrite Hr2 /=. destruct (IH w2 _ HW2) as (w3 & Hr3 & HW3); [rewrite length_app /= in Hle |- *; lia|].
    exists w3. split; [done|]. by rewrite -app_assoc in HW3.
Qed.

(** ** Transactions come and go *)

Lemma files_same w w' P :
  files w P → churn w w' → f_disks w' = f_disks w → f_journals w' = f_journals w → 0 < f_next w' →
  (∀ b, cur w' b = cur w b) → files w' P.
Proof using Type.
  intros HF Hch Hd Hj Hn Hc. split; [| | | |done].
  - intros c Hcpu. pose proof (fl_file _ _ HF c Hcpu) as Hf. destruct (jfile_offset _ _ _ _ Hf) as (j & Ej & _).
    eapply jfile_frame; [done|eapply one_disk_eq; [done|apply Hf]|by apply churn_inodes|done| |by intros|apply Hf].
    rewrite Hj Ej. f_equal. destruct Hf as [_ _ (j2 & x & Ej2 & Ho & _)]. rewrite Ej in Ej2. injection Ej2 as <-. rewrite -Ho. by destruct j.
  - intros c b Hcpu Hb. apply (fl_index _ _ HF c); [done|]. eapply index_frame; [by apply churn_inodes| |exact Hb].
    rewrite Hj. intros j' E. by exists j'.
  - intros b. rewrite Hc. apply HF.
  - intros n. rewrite (churn_junk _ _ Hch). apply HF.
Qed.

(** The step to a state with the same view and the same journals. *)
Record calm (w w' : fs_world) : Prop := Calm {
  cm_churn : churn w w';
  cm_disks : f_disks w' = f_disks w;
  cm_bufs : f_bufs w' = f_bufs w;
  cm_journals : f_journals w' = f_journals w;
}.

Lemma calm_cur w w' b : calm w w' → cur w' b = cur w b.
Proof using Type. intros [_ Hd Hb _]. unfold cur, on_disk. by rewrite Hb Hd. Qed.

Lemma files_calm w w' P : files w P → calm w w' → 0 < f_next w' → files w' P.
Proof using Type.
  intros HF Hc Hn. eapply files_same; [done|by apply Hc..|done|]. intros b. by apply calm_cur.
Qed.

Lemma run_new_transaction w :
  ∃ w' ts, run new_transaction w = Done (f_next w) w' ∧ calm w w' ∧ f_next w' = f_next w + 1 ∧
    f_trans w' = <[f_next w := transaction_at ts]> (f_trans w).
Proof using Type.
  eexists _, _. split; [done|]. split_and!; [|by destruct w|by destruct w]. split; by destruct w.
Qed.

Lemma run_tr_upd_calm w t f x :
  f_trans w !! t = Some x →
  ∃ w', run (tr_upd t f) w = Done () w' ∧ calm w w' ∧ f_next w' = f_next w ∧ f_trans w' = <[t := f x]> (f_trans w).
Proof using Type.
  intros Ht. eexists. split; [by apply run_tr_upd|]. split_and!; [|by destruct w|by destruct w]. split; by destruct w.
Qed.

Lemma run_delete_calm w t x :
  f_trans w !! t = Some x → bqueue x = None →
  ∃ w', run (delete_transaction t) w = Done () w' ∧ calm w w' ∧ f_next w' = f_next w ∧ f_trans w' = delete t (f_trans w).
Proof using Type.
  intros Ht Hq. unfold delete_transaction. eexists. split; [by rewrite (run_bind_done _ _ _ _ _ (run_tr_get _ _ _ _ Ht)) Hq|].
  split_and!; [|by destruct w|by destruct w]. split; by destruct w.
Qed.

(** Blocks that are written behind the buffers. *)
Lemma cur_disks w w' d d' ws :
  f_disks w = [d] → f_disks w' = [d'] → f_bufs w' = f_bufs w → (∀ b, disk_block d' b = over ws (disk_block d) b) →
  (∀ b, b ∉ ws.*1 → cur w' b = cur w b) ∧
  (Forall (λ x, block_ok x.2) ws → (∀ b, block_ok (cur w b)) → ∀ b, block_ok (cur w' b)).
Proof using Type.
  intros Hd Hd' Hb Hw. unfold cur, on_disk. rewrite Hd Hd' Hb. split.
  - intros b Hn. destruct (f_bufs w !! (1, b)); [done|]. rewrite Hw over_out //.
  - intros Hf Hok b. specialize (Hok b). destruct (f_bufs w !! (1, b)); [done|]. rewrite Hw. by apply over_block_ok.
Qed.

Lemma disk_block_img d b : disk_block d b = img (disk_map d) b.
Proof using Type. done. Qed.

Lemma disk_block_flushed d ws b : disk_block (flushed (put d ws)) b = over ws (disk_block d) b.
Proof using Type. change (disk_block (flushed (put d ws)) b) with (disk_block (put d ws) b). by rewrite !disk_block_img disk_map_put img_writes. Qed.

(** ** To the disk *)

(** The writes of the blocks [vs] from position [p] on. *)
Definition journal_writes (c p : Z) (vs : list (list Z)) : list (Z * list Z) :=
  imap (λ i v, (jblk L c (p + Z.of_nat i), v)) vs.

Lemma journal_writes_elem c p vs b v :
  (b, v) ∈ journal_writes c p vs → ∃ i, vs !! i = Some v ∧ b = jblk L c (p + Z.of_nat i).
Proof using Type. intros H. apply elem_of_lookup_imap in H as (i & v' & [= -> ->] & Hv). by exists i. Qed.

Lemma journal_writes_guarded c p vs b :
  c ∈ cpus L → 0 ≤ p → p + Z.of_nat (length vs) ≤ jlen → b ∈ (journal_writes c p vs).*1 → guarded L b ∧ ¬ meta L b ∧ small b.
Proof using HJA.
  intros Hc Hp Hle ([b' v] & -> & Hx)%list_elem_of_fmap. apply journal_writes_elem in Hx as (i & Hi & ->). apply lookup_lt_Some in Hi.
  simpl. split_and!; [apply guarded_blk; [done|lia]|apply (lo_meta _ (ja_layout _ _ HJA)); [done|lia]|apply (ja_small _ _ HJA); [done|lia]].
Qed.

Lemma journal_writes_nodup c p vs :
  c ∈ cpus L → 0 ≤ p → p + Z.of_nat (length vs) ≤ jlen → NoDup (journal_writes c p vs).*1.
Proof using HJA.
  intros Hc Hp Hle. apply NoDup_alt. intros i j b Hi Hj.
  assert (∀ i, (journal_writes c p vs).*1 !! i = Some b → b = jblk L c (p + Z.of_nat i) ∧ Z.of_nat i < Z.of_nat (length vs)) as H.
  { intros i' Hi'. unfold journal_writes in Hi'. rewrite list_lookup_fmap list_lookup_imap in Hi'.
    destruct (vs !! i') as [v|] eqn:Ev; [|done]. injection Hi' as <-. apply lookup_lt_Some in Ev. split; [done|lia]. }
  destruct (H i Hi) as [Ei ?], (H j Hj) as [Ej ?]. rewrite Ei in Ej.
  apply (lo_inj _ (ja_layout _ _ HJA)) in Ej as [_ ?]; [lia|done|done|lia|lia].
Qed.

(** The disk of a running system changes, behind the buffers. *)
Lemma files_behind w P d d' ws t x :
  files w P → f_disks w = [d] → (∀ b, disk_block d' b = over ws (disk_block d) b) → Forall (λ y, guarded L y.1 ∧ block_ok y.2) ws →
  files (upd_dt w d' t x) P ∧ ∀ b, b ∉ ws.*1 → cur (upd_dt w d' t x) b = cur w b.
Proof using Type.
  intros HF Hd Hb Hws. destruct (cur_disks w (upd_dt w d' t x) d d' ws Hd eq_refl eq_refl Hb) as [Hcur Hcok]. split; [|done].
  assert (churn w (upd_dt w d' t x)) as Hch by (unfold churn, upd_dt; by destruct w).
  assert (∀ b, ¬ guarded L b → cur (upd_dt w d' t x) b = cur w b) as Hframe.
  { intros b Hg. apply Hcur. intros ([b' v] & -> & Hx)%list_elem_of_fmap. rewrite Forall_forall in Hws. by destruct (Hws _ Hx). }
  split; [| | | |apply HF].
  - intros c Hc. pose proof (fl_file _ _ HF c Hc) as Hf. destruct (jfile_offset _ _ _ _ Hf) as (j & Ej & _).
    eapply jfile_frame; [done|by exists d'|done|exact Ej| | |apply Hf].
    + change (f_journals (upd_dt w d' t x)) with (f_journals w). rewrite Ej. f_equal.
      destruct Hf as [_ _ (j2 & y & Ej2 & Ho & _)]. rewrite Ej in Ej2. injection Ej2 as <-. rewrite -Ho. by destruct j.
    + intros b Hi. apply Hframe. by eapply (fl_index _ _ HF).
  - intros c b Hc Hi. by apply (fl_index _ _ HF c).
  - apply Hcok; [|apply HF]. eapply Forall_impl; [exact Hws|]. by intros ? [_ ?].
  - apply HF.
Qed.

Lemma run_finish async w P c t x d vs :
  files w P → c ∈ cpus L → f_disks w = [d] → f_trans w !! t = Some x → bqueue x = None → disks_written x ⊆ {[0]} →
  0 ≤ P c - Z.of_nat (length vs) → vs ≠ [] → Forall block_ok vs →
  db_writes (blocks x) = journal_writes c (P c - Z.of_nat (length vs)) vs →
  ∃ w' ws, run (flush_by async t;; delete_transaction t) w = Done () w' ∧ files w' P ∧ churn w w' ∧
    f_disks w' = [flushed (put d ws)] ∧ f_journals w' = f_journals w ∧ f_trans w' = delete t (f_trans w) ∧ f_next w' = f_next w ∧
    (∀ b, ¬ guarded L b ∨ meta L b → cur w' b = cur w b) ∧
    ws ≡ₚ journal_writes c (P c - Z.of_nat (length vs)) vs ∧
    passes (flush_by async t;; delete_transaction t) w (partly d ws).
Proof using HJA.
  intros HF Hc Hd Ht Hq Hw Hp Hne Hok Hbl. set (p := P c - Z.of_nat (length vs)) in *.
  assert (p + Z.of_nat (length vs) ≤ jlen) as Hle by (pose proof (jf_pos _ _ _ _ (fl_file _ _ HF c Hc)); subst p; lia).
  assert (blocks x ≠ []) as Hbne by (intros E; rewrite E in Hbl; destruct vs; [done|discriminate]).
  assert (NoDup (blocknum <$> blocks x)) as Hnd.
  { assert ((blocknum <$> blocks x) = (db_writes (blocks x)).*1) as -> by (unfold db_writes; rewrite -list_fmap_compose; done).
    rewrite Hbl. by apply journal_writes_nodup. }
  set (ws := db_writes (dedup_blocks (blocks x))).
  assert (ws ≡ₚ journal_writes c p vs) as Hws by (subst ws; rewrite -Hbl; unfold db_writes; by rewrite dedup_perm).
  assert (Forall (λ b, small (blocknum b)) (blocks x)) as Hsm.
  { apply Forall_forall. intros b Hb. eapply (journal_writes_guarded c p vs); [done..|]. rewrite -Hbl.
    change (blocknum b) with ((blocknum b, blockdata b).1). by apply list_elem_of_fmap_2, (list_elem_of_fmap_2 (λ b, (blocknum b, blockdata b))). }
  assert (Forall (λ y, guarded L y.1 ∧ block_ok y.2) ws) as Hwok.
  { rewrite Hws. apply Forall_forall. intros [b v] Hx. split.
    - eapply (journal_writes_guarded c p vs); [done..|]. by apply (list_elem_of_fmap_2 fst) in Hx.
    - apply journal_writes_elem in Hx as (i & Hi & _). rewrite Forall_forall in Hok. by eapply Hok, list_elem_of_lookup_2. }
  pose proof (run_flush_by w d t x Hd Ht Hq Hw Hbne Hsm async) as Hr1. fold ws in Hr1.
  set (x' := (written x) <| disks_written := ∅ |>) in *. set (w1 := upd_dt w (flushed (put d ws)) t x') in *.
  destruct (run_delete_calm w1 t x') as (w2 & Hr2 & Hcalm & Hn2 & Ht2); [apply upd_dt_trans|done|].
  destruct (files_behind w P d (flushed (put d ws)) ws t x' HF Hd) as [HF1 Hcur]; [apply disk_block_flushed|done|].
  exists w2, ws. split_and!.
  - by rewrite (run_bind_done _ _ _ _ _ Hr1).
  - eapply files_calm; [done|done|rewrite Hn2; apply HF].
  - etrans; [|apply Hcalm]. unfold churn, w1, upd_dt. by destruct w.
  - by rewrite (cm_disks _ _ Hcalm).
  - by rewrite (cm_journals _ _ Hcalm).
  - rewrite Ht2. change (f_trans w1) with (<[t := x']> (f_trans w)). by rewrite delete_insert_eq.
  - by rewrite Hn2.
  - intros b Hb. rewrite (calm_cur _ _ _ Hcalm). apply Hcur. rewrite Hws. intros Hin.
    apply journal_writes_guarded in Hin as (? & ? & _); [|done..]. tauto.
  - done.
  - apply passes_bind; [by apply passes_flush_by|]. intros [] w1' Hr. rewrite Hr1 in Hr. injection Hr as <-.
    eapply passes_same; [apply grow_delete_transaction|done|done|by rewrite (cm_disks _ _ Hcalm)|by right].
Qed.

(** The state after a journal has been written up to position [n]. *)
Record journaled (w w' : fs_world) (P : Z → Z) (c n : Z) (j : journal) (d' : disk) : Prop := Journaled {
  jd_files : files w' (upd P c n);
  jd_churn : churn w w';
  jd_disks : f_disks w' = [d'];
  jd_journals : f_journals w' = <[c := j <| current_off := n * BSIZE |>]> (f_journals w);
  jd_trans : ∀ t, t < f_next w → f_trans w' !! t = f_trans w !! t;
  jd_next : f_next w ≤ f_next w';
  jd_cur : ∀ b, ¬ guarded L b ∨ meta L b → cur w' b = cur w b;
}.

(** A new transaction takes the blocks [vs] to the disk. *)
Lemma run_finish_new async w0 w P c j d vs ts s :
  files w0 P → c ∈ cpus L → f_disks w0 = [d] → f_journals w0 !! c = Some j →
  (∃ w1, calm w0 w1 ∧ f_next w1 = f_next w0 + 1 ∧ f_trans w1 = <[f_next w0 := transaction_at ts]> (f_trans w0) ∧
    ∃ w2, wrote w1 w2 P c (f_next w0) (transaction_at ts) j vs ∧ calm w2 w ∧ f_next w = f_next w2 ∧
      ∃ x, f_trans w2 !! f_next w0 = Some x ∧ f_trans w = <[f_next w0 := x <| disks_written ::= λ s0, s ∪ s0 |>]> (f_trans w2)) →
  s ⊆ {[0]} → vs ≠ [] → Forall block_ok vs →
  ∃ w' ws, run (flush_by async (f_next w0);; delete_transaction (f_next w0)) w = Done () w' ∧
    journaled w0 w' P c (P c + Z.of_nat (length vs)) j (flushed (put d ws)) ∧ ws ≡ₚ journal_writes c (P c) vs ∧
    passes (flush_by async (f_next w0);; delete_transaction (f_next w0)) w (partly d ws).
Proof using HJA.
  intros HF Hc Hd Hj (w1 & Hcm1 & Hn1 & Ht1 & w2 & HW & Hcm2 & Hn2 & x & Hx & Ht) Hs Hne Hok.
  destruct HW as [HF2 Hch Hd2 Hnx Hj2 (l & Htr & El) Hcur].
  assert (x = (transaction_at ts) <| blocks ::= λ l0, l0 ++ l |>) as Ex.
  { rewrite Htr lookup_insert_eq in Hx. by injection Hx. }
  set (P2 := upd P c (P c + Z.of_nat (length vs))) in *.
  assert (files w P2) as HFw.
  { eapply files_calm; [done..|]. rewrite Hn2 Hnx Hn1. pose proof (fl_next _ _ HF). lia. }
  assert (P2 c - Z.of_nat (length vs) = P c) as Ep by (unfold P2; rewrite upd_eq; lia).
  destruct (run_finish async w P2 c (f_next w0) (x <| disks_written ::= λ s0, s ∪ s0 |>) d vs) as
    (w' & ws & Hr & HF' & Hch' & Hd' & Hj' & Ht' & Hn' & Hcur' & Hws & Hpass); try done.
  - by rewrite (cm_disks _ _ Hcm2) Hd2 (cm_disks _ _ Hcm1).
  - rewrite Ht. apply lookup_insert_eq.
  - by rewrite Ex.
  - rewrite Ex. simpl. set_solver.
  - rewrite Ep. apply (fl_file _ _ HF c Hc).
  - rewrite Ep Ex. exact El.
  - rewrite Ep in Hws. exists w', ws. split_and!; [done| |done|done]. split.
    + done.
    + etrans; [apply Hcm1|]. etrans; [exact Hch|]. etrans; [apply Hcm2|done].
    + done.
    + by rewrite Hj' (cm_journals _ _ Hcm2) Hj2 (cm_journals _ _ Hcm1).
    + intros t Hlt. rewrite Ht' lookup_delete_ne; [lia|]. rewrite Ht lookup_insert_ne; [lia|].
      rewrite Htr lookup_insert_ne; [lia|]. rewrite Ht1 lookup_insert_ne //. lia.
    + rewrite Hn' Hn2 Hnx Hn1. lia.
    + intros b Hb. rewrite Hcur' // (calm_cur _ _ _ Hcm2) Hcur // (calm_cur _ _ _ Hcm1) //.
Qed.

Lemma calm_refl w : calm w w.
Proof using Type. by split. Qed.

Lemma files_start w P c : files w P → c ∈ cpus L → ∃ j, f_journals w !! c = Some j ∧ current_off j = P c * BSIZE ∧ 0 ≤ P c.
Proof using Type.
  intros HF Hc. destruct (fl_file _ _ HF c Hc) as [_ Hp (j & x & Hj & Ho & _)]. exists j. split_and!; [done..|lia].
Qed.

Lemma partly_here d ws : partly d ws [d].
Proof using Type. left. exists []. split; [|by rewrite put_nil]. intros y Hy. by apply not_elem_of_nil in Hy. Qed.

Lemma grow_new_transaction : keeps grows new_transaction.
Proof using Type. unfold new_transaction. grow. Qed.

(** A header block. *)
Lemma run_write_header async w P c j d hdr :
  files w P → c ∈ cpus L → f_disks w = [d] → f_journals w !! c = Some j → P c < jlen → block_ok hdr →
  let p := (jt ← new_transaction; write_journal hdr jt c;; flush_by async jt;; delete_transaction jt) in
  ∃ w', run p w = Done () w' ∧ journaled w w' P c (P c + 1) j (flushed (put d [(jblk L c (P c), hdr)])) ∧
    passes p w (partly d [(jblk L c (P c), hdr)]).
Proof using HJA.
  intros HF Hc Hd Hj Hlt Hok p. destruct (files_start _ _ _ HF Hc) as (j' & Hj' & Ho & Hp). rewrite Hj in Hj'. injection Hj' as <-.
  destruct (run_new_transaction w) as (w1 & ts & Hr1 & Hcm1 & Hn1 & Ht1). pose proof (fl_next _ _ HF) as Hn0.
  assert (files w1 P) as HF1 by (eapply files_calm; [done..|lia]).
  assert (wrote w1 w1 P c (f_next w) (transaction_at ts) j []) as HW1.
  { apply wrote_nil; [done| | |done]; [rewrite Ht1; apply lookup_insert_eq|by rewrite (cm_journals _ _ Hcm1)]. }
  destruct (run_wrote _ _ _ _ _ _ _ _ hdr HW1 Hc) as (w2 & Hr2 & HW2); [lia|done|done|simpl; lia|].
  destruct (wr_trans _ _ _ _ _ _ _ _ HW2) as (l & Htr & El).
  destruct (run_finish_new async w w2 P c j d [hdr] ts ∅) as (w3 & ws & Hr3 & HJ3 & Hws & Hpass); try done.
  { exists w1. split_and!; [done..|]. exists w2. split_and!; [done|apply calm_refl|done|].
    exists ((transaction_at ts) <| blocks ::= λ l0, l0 ++ l |>). rewrite Htr lookup_insert_eq. split; [done|].
    symmetry. apply insert_id. rewrite lookup_insert_eq. do 2 f_equal. }
  { by constructor. }
  assert (ws = [(jblk L c (P c), hdr)]) as ->.
  { apply Permutation_singleton_r. etrans; [exact Hws|]. unfold journal_writes. simpl. by rewrite Z.add_0_r. }
  exists w3. split_and!; [|done|].
  - subst p. by rewrite (run_bind_done _ _ _ _ _ Hr1) (run_bind_done _ _ _ _ _ Hr2).
  - assert (f_disks w1 = [d]) as Hd1 by by rewrite (cm_disks _ _ Hcm1).
    assert (f_disks w2 = [d]) as Hd2 by by rewrite (wr_disks _ _ _ _ _ _ _ _ HW2).
    subst p. eapply passes_step; [apply grow_new_transaction|exact Hr1|done..|apply partly_here|].
    eapply passes_step; [apply grow_write_journal|exact Hr2|done..|apply partly_here|]. exact Hpass.
Qed.

(** The start block and the data of a transaction. *)
Lemma run_write_record w P c j d dbs ts s :
  files w P → c ∈ cpus L → f_disks w = [d] → f_journals w !! c = Some j → s ⊆ {[0]} →
  Z.of_nat (length dbs) ≤ nslots_startblk → P c + Z.of_nat (length dbs) + 1 ≤ jlen → Forall (λ b, block_ok (blockdata b)) dbs →
  ∃ w' ws, run (write_journal_transaction_blocks dbs ts s c) w = Done () w' ∧
    journaled w w' P c (P c + Z.of_nat (length dbs) + 1) j (flushed (put d ws)) ∧
    ws ≡ₚ record_writes L c (P c) ts (db_writes dbs) ∧
    passes (write_journal_transaction_blocks dbs ts s c) w (partly d ws).
Proof using HJA.
  intros HF Hc Hd Hj Hs Hlen Hroom Hok. destruct (files_start _ _ _ HF Hc) as (j' & Hj' & Ho & Hp). rewrite Hj in Hj'. injection Hj' as <-.
  set (nums := blocknum <$> dbs).
  assert (nums = (db_writes dbs).*1) as Enums by (unfold db_writes; rewrite -list_fmap_compose; done).
  assert (take (Z.to_nat nslots_startblk) nums = nums) as Etake by (apply take_ge; unfold nums; rewrite length_fmap; lia).
  destruct (run_new_transaction w) as (w1 & ts1 & Hr1 & Hcm1 & Hn1 & Ht1). pose proof (fl_next _ _ HF) as Hn0.
  assert (files w1 P) as HF1 by (eapply files_calm; [done..|lia]).
  assert (wrote w1 w1 P c (f_next w) (transaction_at ts1) j []) as HW1.
  { apply wrote_nil; [done| | |done]; [rewrite Ht1; apply lookup_insert_eq|by rewrite (cm_journals _ _ Hcm1)]. }
  destruct (run_wrote _ _ _ _ _ _ _ _ (start_block ts 0 nums) HW1 Hc) as (w2 & Hr2 & HW2); [lia|apply start_block_ok|done|simpl; lia|].
  destruct (run_wrote_all blockdata dbs _ _ _ _ _ _ _ _ HW2 Hc) as (w3 & Hr3 & HW3); [lia|done|done|simpl; lia|].
  destruct (wr_trans _ _ _ _ _ _ _ _ HW3) as (l & Htr & El).
  destruct (run_tr_upd_calm w3 (f_next w) (λ x, x <| disks_written ::= λ s0, s ∪ s0 |>) ((transaction_at ts1) <| blocks ::= λ l0, l0 ++ l |>))
    as (w4 & Hr4 & Hcm4 & Hn4 & Ht4); [by rewrite Htr lookup_insert_eq|].
  destruct (run_finish_new true w w4 P c j d (([] ++ [start_block ts 0 nums]) ++ (blockdata <$> dbs)) ts1 s) as (w5 & ws & Hr5 & HJ5 & Hws & Hpass); try done.
  { exists w1. split_and!; [done..|]. exists w3. split_and!; [done..|].
    eexists. split; [by rewrite Htr lookup_insert_eq|done]. }
  { simpl. constructor; [apply start_block_ok|by apply Forall_fmap]. }
  exists w5, ws. split_and!.
  - unfold write_journal_transaction_blocks. fold nums. rewrite Etake.
    rewrite (run_bind_done _ _ _ _ _ (run_fassert _ _ _)); [apply Z.leb_le; unfold nslots_startblk, nslots_addrblk in *; lia|].
    rewrite (proj2 (Z.ltb_ge nslots_startblk (Z.of_nat (length dbs))) Hlen).
    rewrite (run_bind_done _ _ _ _ _ Hr1) (run_bind_done _ _ _ _ _ Hr2) (run_bind_done _ _ _ _ _ (run_ret _ _)).
    by rewrite (run_bind_done _ _ _ _ _ Hr3) (run_bind_done _ _ _ _ _ Hr4).
  - replace (P c + Z.of_nat (length dbs) + 1) with (P c + Z.of_nat (length (([] ++ [start_block ts 0 nums]) ++ (blockdata <$> dbs)))); [done|].
    rewrite length_app length_fmap. simpl. lia.
  - rewrite Hws. unfold journal_writes, record_writes. simpl. rewrite Z.add_0_r Enums. 
    apply reflexive_eq. f_equal. unfold db_writes. rewrite !imap_fmap. apply imap_ext. intros i b _. simpl. do 2 f_equal. lia.
  - assert (f_disks w1 = [d]) as Hd1 by by rewrite (cm_disks _ _ Hcm1).
    assert (f_disks w2 = [d]) as Hd2 by by rewrite (wr_disks _ _ _ _ _ _ _ _ HW2).
    assert (f_disks w3 = [d]) as Hd3 by by rewrite (wr_disks _ _ _ _ _ _ _ _ HW3).
    assert (f_disks w4 = [d]) as Hd4 by by rewrite (cm_disks _ _ Hcm4).
    unfold write_journal_transaction_blocks. fold nums. rewrite Etake.
    rewrite (proj2 (Z.ltb_ge nslots_startblk (Z.of_nat (length dbs))) Hlen).
    pose proof (partly_here d ws) as Hh.
    eapply passes_step; [apply grow_fassert|apply run_fassert|done..|].
    { apply Z.leb_le. unfold nslots_startblk, nslots_addrblk in *. lia. }
    eapply passes_step; [apply grow_new_transaction|exact Hr1|done..|].
    eapply passes_step; [apply grow_write_journal|exact Hr2|done..|].
    eapply passes_step; [apply keeps_ret|apply run_ret|done..|].
    eapply passes_step; [apply keeps_fold_each; intros; apply grow_write_journal|exact Hr3|done..|].
    eapply passes_step; [apply grow_tr_upd|exact Hr4|done..|]. exact Hpass.
Qed.

Lemma run_uninit_calm w :
  ∃ w', run uninit w = Done (f_junk w (f_tick w)) w' ∧ calm w w' ∧ f_next w' = f_next w ∧ f_trans w' = f_trans w.
Proof using Type. eexists. split; [done|]. split_and!; [|by destruct w|by destruct w]. split; by destruct w. Qed.

(** ** The position in a journal *)

Lemma run_move w P c n j :
  files w P → c ∈ cpus L → 0 ≤ n ≤ jlen → f_journals w !! c = Some j →
  ∃ w', run (update_offset c (n * BSIZE)) w = Done () w' ∧ files w' (upd P c n) ∧ churn w w' ∧ f_disks w' = f_disks w ∧
    f_journals w' = <[c := j <| current_off := n * BSIZE |>]> (f_journals w) ∧ f_trans w' = f_trans w ∧ f_next w' = f_next w ∧
    ∀ b, cur w' b = cur w b.
Proof using Type.
  intros HF Hc Hn Hj. unfold update_offset. rewrite (run_bind_done _ _ _ _ _ (run_fassert _ _ _)).
  { apply Z.leb_le. unfold jlen, PHYS_JOURNAL_SIZE, BSIZE in *. lia. }
  rewrite (run_jr_upd _ _ _ _ Hj). eexists. split; [done|].
  set (w' := w <| f_journals ::= <[c := j <| current_off := n * BSIZE |>]> |>).
  assert (churn w w') as Hch by (unfold churn, w'; by destruct w). split_and!; try done.
  eapply files_frame; [done..|apply (fl_file _ _ HF c Hc)|done|done|done|apply HF|done|apply HF].
Qed.

Lemma journaled_trans w w1 w2 P c n1 n2 j d1 d2 :
  journaled w w1 P c n1 j d1 → journaled w1 w2 (upd P c n1) c n2 (j <| current_off := n1 * BSIZE |>) d2 →
  journaled w w2 P c n2 j d2.
Proof using Type.
  intros [HF1 Hch1 Hd1 Hj1 Ht1 Hn1 Hc1] [HF2 Hch2 Hd2 Hj2 Ht2 Hn2 Hc2]. split.
  - eapply files_ext; [|exact HF2]. intros c'. by rewrite upd_upd.
  - by etrans.
  - done.
  - rewrite Hj2 Hj1 insert_insert_eq. done.
  - intros t Ht. rewrite Ht2; [lia|]. by apply Ht1.
  - lia.
  - intros b Hb. by rewrite Hc2 // Hc1.
Qed.

Lemma run_move_journaled w P c n j d :
  files w P → c ∈ cpus L → 0 ≤ n ≤ jlen → f_journals w !! c = Some j → f_disks w = [d] →
  ∃ w', run (update_offset c (n * BSIZE)) w = Done () w' ∧ journaled w w' P c n j d.
Proof using Type.
  intros HF Hc Hn Hj Hd. destruct (run_move w P c n j HF Hc Hn Hj) as (w' & Hr & HF' & Hch & Hd' & Hj' & Ht' & Hn' & Hcur).
  exists w'. split; [done|]. split; try done; [by rewrite Hd'|by rewrite Ht'|by rewrite Hn'].
Qed.

Lemma grow_update_offset c n : keeps grows (update_offset c n).
Proof using Type. unfold update_offset. grow. Qed.

(** The skip block, at the start of the journal. *)
Lemma run_skip_block async w P c j d ts :
  files w P → c ∈ cpus L → f_disks w = [d] → f_journals w !! c = Some j → P c = 0 → 0 ≤ ts < 2 ^ 64 →
  ∃ w' hdr, run (write_journal_skip_block ts c async) w = Done () w' ∧ skip_of hdr ts ∧ block_ok hdr ∧
    journaled w w' P c 1 j (flushed (put d [(jblk L c 0, hdr)])) ∧
    passes (write_journal_skip_block ts c async) w (partly d [(jblk L c 0, hdr)]).
Proof using HJA.
  intros HF Hc Hd Hj Hp Hts. destruct (files_start _ _ _ HF Hc) as (j' & Hj' & Ho & _). rewrite Hj in Hj'. injection Hj' as <-.
  assert (current_off j = 0) as Ho0 by (rewrite Ho Hp; done).
  destruct (run_uninit_calm w) as (w1 & Hr1 & Hcm1 & Hn1 & Ht1).
  assert (files w1 P) as HF1 by (eapply files_calm; [done..|rewrite Hn1; apply HF]).
  set (hdr := header_block ts JOURNAL_TXN_SKIP (f_junk w (f_tick w))).
  assert (block_ok hdr) as Hok by (apply header_block_ok, HF).
  destruct (run_write_header async w1 P c j d hdr HF1 Hc) as (w2 & Hr2 & HJ2 & Hp2);
    [by rewrite (cm_disks _ _ Hcm1)|by rewrite (cm_journals _ _ Hcm1)|rewrite Hp; done|done|].
  rewrite Hp in HJ2, Hp2. exists w2, hdr. split_and!; [|split; [apply header_type|by apply header_timestamp]|done| |].
  - unfold write_journal_skip_block. rewrite (run_bind_done _ _ _ _ _ (run_jr_get _ _ _ _ Hj)) Ho0.
    rewrite (run_bind_done _ _ _ _ _ (run_fassert _ _ eq_refl)) (run_bind_done _ _ _ _ _ Hr1). exact Hr2.
  - destruct HJ2 as [HF2 Hch2 Hd2 Hj2 Htr2 Hn2 Hcur2]. split; [done| |done| | | |].
    + etrans; [apply Hcm1|done].
    + by rewrite Hj2 (cm_journals _ _ Hcm1).
    + intros t Ht. rewrite Htr2; [by rewrite Hn1|]. by rewrite Ht1.
    + by rewrite -Hn1.
    + intros b Hb. rewrite Hcur2 // (calm_cur _ _ _ Hcm1) //.
  - unfold write_journal_skip_block. pose proof (partly_here d [(jblk L c 0, hdr)]) as Hh.
    eapply passes_step; [apply grow_jr_get|by apply run_jr_get|done..|]. rewrite Ho0.
    eapply passes_step; [apply grow_fassert|by apply run_fassert|done..|].
    eapply passes_step; [apply grow_uninit|exact Hr1|done|by rewrite (cm_disks _ _ Hcm1)|done|]. exact Hp2.
Qed.
End running.
