(* ===== verification/FsDurable.v ===== *)
(** * Crash safety of commit, apply and reset

    A commit is atomic and durable: wherever the power fails, recovery gives
    the contents before the transaction or those after it, and once the commit
    has returned it gives those after it.  Applying a transaction and resetting
    the journal change nothing of what recovery gives. *)

From S2P Require Import Prelude FsBytes FsWorld FsDisk FsTrans FsDedup FsWrite FsBlocks FsInode FsView FsJournal FsHeaders FsCommit FsScan FsRecords FsCrash FsSafe FsJournals FsRunning.

Section durable.
Context (L : layout) (ja : Z → list Z) (HJA : journals_at L ja).

(** The running system: the journals are as in [J], and the blocks under their
    care have the contents [D]. *)
Record system (w : fs_world) (J : Z → jstate) (D : Z → list Z) : Prop := System {
  sy_files : files L ja w (λ c, j_pos (J c));
  sy_disk : ∃ d, f_disks w = [d] ∧ consistent L d J D;
  sy_unlocked : ∀ c, c ∈ cpus L → unlocked w c;
}.

(** After a crash with these disks, recovery gives one of the contents [Ds]. *)
Definition crash_gives (Ds : list (Z → list Z)) (ds : list disk) : Prop :=
  ∃ d, ds = [d] ∧ ∀ m, crash d m → ∃ D, D ∈ Ds ∧ recovers_to L m D.

(** ** The lock of a journal's inode *)

Lemma files_inodes w P i x y :
  files L ja w P → f_inodes w !! i = Some x → dev y = dev x → itype y = itype x → size y = size x → addrs y = addrs x →
  files L ja (with_inodes w (<[i := y]> (f_inodes w))) P.
Proof using Type.
  intros HF Hx Ed Et Es Ea. split.
  - intros c Hc. eapply jfile_inodes; [by apply HF|done..].
  - intros c b Hc (j & z & Hj & Hz & Hb). apply (fl_index _ _ _ _ HF c); [done|]. exists j.
    change (f_inodes (with_inodes w (<[i := y]> (f_inodes w)))) with (<[i := y]> (f_inodes w)) in Hz.
    destruct (decide (i = sv6_journal j)) as [->|Hne].
    + rewrite lookup_insert_eq in Hz. injection Hz as <-. exists x. rewrite -Ea. done.
    + rewrite lookup_insert_ne // in Hz. by exists z.
  - apply (fl_ok _ _ _ _ HF).
  - apply HF.
  - apply HF.
Qed.

Definition lock_inode (x : inode) : inode := x <| busy := true |> <| readbusy ::= Z.succ |>.

Lemma run_lock w P c :
  files L ja w P → unlocked w c →
  ∃ j x, f_journals w !! c = Some j ∧ f_inodes w !! sv6_journal j = Some x ∧
    let w1 := with_inodes w (<[sv6_journal j := lock_inode x]> (f_inodes w)) in
    run (ilock_write (sv6_journal j)) w = Done () w1 ∧ files L ja w1 P ∧
    ∀ w2, f_inodes w2 = f_inodes w1 → run (iunlock (sv6_journal j)) w2 = Done () (with_inodes w2 (f_inodes w)) ∧
      ∀ P2, files L ja w2 P2 → files L ja (with_inodes w2 (f_inodes w)) P2.
Proof using Type.
  intros HF (j & x & Ej & Ex & Hb & Hr). exists j, x. split_and!; [done..|]. cbv zeta. split_and!.
  - unfold ilock_write. rewrite run_act Ex Hb Hr /=. done.
  - by eapply files_inodes.
  - intros w2 Ei. assert (f_inodes w2 !! sv6_journal j = Some (lock_inode x)) as Ey by (rewrite Ei; apply lookup_insert_eq).
    assert (<[sv6_journal j := x]> (f_inodes w2) = f_inodes w) as E2.
    { rewrite Ei. change (<[sv6_journal j := x]> (<[sv6_journal j := lock_inode x]> (f_inodes w)) = f_inodes w).
      rewrite insert_insert_eq. by apply insert_id. }
    split; [|intros P2 HF2; rewrite -E2; by eapply files_inodes].
    unfold iunlock. rewrite (run_bind_done _ _ _ _ _ (run_ip_get _ _ _ _ Ey)) /=.
    replace (truth (Z.succ (readbusy x)) || true) with true by by rewrite orb_true_r. rewrite (run_ip_upd _ _ _ _ Ey).
    assert ((lock_inode x) <| readbusy ::= Z.pred |> <| busy := false |> = x) as ->.
    { unfold lock_inode. destruct x. cbn in *. subst. done. }
    unfold with_inodes. rewrite -E2. by destruct w2.
Qed.

Lemma unlocked_moved w w' c j n :
  f_inodes w' = f_inodes w → f_journals w !! c = Some j → f_journals w' = <[c := j <| current_off := n |>]> (f_journals w) →
  ∀ c', unlocked w c' → unlocked w' c'.
Proof using Type.
  intros Ei Hj Hj' c' (j' & x & Ej & Ex & Hb & Hr). destruct (decide (c' = c)) as [->|Hne].
  - rewrite Hj in Ej. injection Ej as <-. exists (j <| current_off := n |>), x. rewrite Hj' lookup_insert_eq Ei. done.
  - exists j', x. rewrite Hj' lookup_insert_ne // Ei. done.
Qed.

(** ** Commit *)

Section commit.
Context (w : fs_world) (J : Z → jstate) (D : Z → list Z) (c t : Z) (x : transaction).
Context (HS : system w J D) (Ht : f_trans w !! t = Some x) (Hlt : t < f_next w) (Hdw : disks_written x ⊆ {[0]}).

Let T := Txn (commit_tsc x) (db_writes (blocks x)).
Let J' := set_journal J c (append (J c) T).
Let D' := over (t_blocks T) D.

Context (HT : may_commit L J c T).

Lemma commit_blocks_ok : Forall (λ b, block_ok (blockdata b)) (blocks x).
Proof using HT.
  destruct (mc_txn _ _ _ _ HT) as (_ & _ & Hf). apply Forall_forall. intros b Hb. rewrite Forall_forall in Hf.
  apply (Hf (blocknum b, blockdata b)). by apply (list_elem_of_fmap_2 (λ b, (blocknum b, blockdata b))).
Qed.

Lemma commit_writes_ok p ts : Forall (λ y, block_ok y.2) (record_writes L c p ts (t_blocks T)).
Proof using HT. apply record_writes_ok. eapply Forall_impl; [apply (mc_txn _ _ _ _ HT)|]. by intros y (_ & _ & ?). Qed.

(** The parts of the commit. *)
Lemma commit_parts d :
  f_disks w = [d] → consistent L d J D →
  ∃ j w1 w2 w3 w4 ws hdr, f_journals w !! c = Some j ∧
    run (ilock_write (sv6_journal j)) w = Done () w1 ∧ f_disks w1 = [d] ∧ f_trans w1 = f_trans w ∧
    (run (write_journal_transaction_blocks (blocks x) (commit_tsc x) (disks_written x) c) w1 = Done () w2 ∧
     passes (write_journal_transaction_blocks (blocks x) (commit_tsc x) (disks_written x) c) w1 (partly d ws) ∧
     ws ≡ₚ record_writes L c (j_pos (J c)) (t_ts T) (t_blocks T) ∧ f_disks w2 = [flushed (put d ws)]) ∧
    (let ws2 := [(jblk L c (j_pos (J c) + 1 + Z.of_nat (length (t_blocks T))), hdr)] in
     run (write_journal_commit_block (commit_tsc x) c) w2 = Done () w3 ∧
     passes (write_journal_commit_block (commit_tsc x) c) w2 (partly (flushed (put d ws)) ws2) ∧
     f_disks w3 = [flushed (put (flushed (put d ws)) ws2)]) ∧
    commit_of hdr (t_ts T) ∧ block_ok hdr ∧
    run (iunlock (sv6_journal j)) w3 = Done () w4 ∧ f_disks w4 = f_disks w3 ∧ f_trans w4 !! t = Some x ∧
    t < f_next w4 ∧ files L ja w4 (λ c', j_pos (J' c')) ∧ ∀ c', c' ∈ cpus L → unlocked w4 c'.
Proof using HJA HS Ht Hlt Hdw HT.
  intros Hd HC. pose proof (mc_cpu _ _ _ _ HT) as Hc. pose proof (sy_files _ _ _ HS) as HF.
  destruct (run_lock w _ c HF (sy_unlocked _ _ _ HS c Hc)) as (j & y & Ej & Ey & Hlock & HF1 & Hunlock).
  set (w1 := with_inodes w (<[sv6_journal j := lock_inode y]> (f_inodes w))) in *.
  assert (length (t_blocks T) = length (blocks x)) as Elen by apply length_fmap.
  pose proof (mc_room _ _ _ _ HT) as Hroom. rewrite Elen in Hroom.
  destruct (mc_txn _ _ _ _ HT) as ((Hfit & _) & _ & _). rewrite Elen in Hfit. rewrite Elen.
  destruct (run_write_record L ja HJA w1 _ c j d (blocks x) (commit_tsc x) (disks_written x) HF1 Hc)
    as (w2 & ws & Hr2 & HJ2 & Hws & Hp2); [done|done|done|done|lia|apply commit_blocks_ok|].
  destruct (run_uninit_calm w2) as (w2' & Hr2' & Hcm2 & Hn2' & Ht2').
  set (hdr := header_block (commit_tsc x) JOURNAL_TXN_COMMIT (f_junk w2 (f_tick w2))) in *.
  destruct HJ2 as [HF2 Hch2 Hd2 Hj2 Htr2 Hn2 Hcur2].
  set (q := j_pos (J c) + Z.of_nat (length (blocks x)) + 1) in *.
  assert (files L ja w2' (upd (λ c, j_pos (J c)) c q)) as HF2'.
  { eapply files_calm; [done..|]. rewrite Hn2'. apply HF2. }
  destruct (run_write_header L ja HJA true w2' _ c (j <| current_off := q * BSIZE |>) (flushed (put d ws)) hdr HF2' Hc) as (w3 & Hr3 & HJ3 & Hp3).
  { by rewrite (cm_disks _ _ Hcm2). }
  { by rewrite (cm_journals _ _ Hcm2) Hj2 lookup_insert_eq. }
  { rewrite upd_eq. subst q. lia. }
  { apply header_block_ok. apply (fl_junk _ _ _ _ HF2). }
  rewrite upd_eq in HJ3, Hp3. destruct HJ3 as [HF3 Hch3 Hd3 Hj3 Htr3 Hn3 Hcur3].
  replace (j_pos (J c) + 1 + Z.of_nat (length (blocks x))) with q by (subst q; lia).
  assert (f_inodes w3 = f_inodes w1) as Ei3.
  { by rewrite (churn_inodes _ _ Hch3) (churn_inodes _ _ (cm_churn _ _ Hcm2)) (churn_inodes _ _ Hch2). }
  destruct (Hunlock w3 Ei3) as [Hr4 HF4].
  exists j, w1, w2, w3, (with_inodes w3 (f_inodes w)), ws, hdr. cbv zeta. split_and!; try done.
  - unfold write_journal_commit_block. rewrite (run_bind_done _ _ _ _ _ Hr2'). exact Hr3.
  - unfold write_journal_commit_block. eapply passes_step; [apply grow_uninit|exact Hr2'|exact Hd2| |apply partly_here|exact Hp3].
    by rewrite (cm_disks _ _ Hcm2).
  - split; [apply header_type|]. apply header_timestamp. apply HT.
  - apply header_block_ok. apply (fl_junk _ _ _ _ HF2).
  - change (f_trans (with_inodes w3 (f_inodes w))) with (f_trans w3).
    rewrite Htr3; [change (f_next w1) with (f_next w) in Hn2; lia|]. rewrite Ht2' Htr2; [done|]. exact Ht.
  - change (f_next w1) with (f_next w) in Hn2. change (t < f_next w3). lia.
  - eapply files_ext; [|by apply HF4]. intros c'. rewrite upd_upd. unfold J', set_journal, upd. case_decide as E; [|done].
    subst c'. change (j_pos (append (J c) T)) with (j_pos (J c) + Z.of_nat (length (t_blocks T)) + 2). rewrite Elen. subst q. lia.
  - intros c' Hc'. eapply (unlocked_moved w _ c j ((q + 1) * BSIZE)); [done|done| |by apply HS].
    change (f_journals (with_inodes w3 (f_inodes w))) with (f_journals w3).
    rewrite Hj3 (cm_journals _ _ Hcm2) Hj2 insert_insert_eq. done.
Qed.

Lemma commit_run :
  ∃ w', run (write_journal_commit c t) w = Done () w' ∧ system w' J' D' ∧ f_trans w' !! t = Some x ∧ t < f_next w'.
Proof using HJA HS Ht Hlt Hdw HT.
  destruct (sy_disk _ _ _ HS) as (d & Hd & HC).
  destruct (commit_parts d Hd HC) as (j & w1 & w2 & w3 & w4 & ws & hdr & Ej & Hr1 & Hd1 & Ht1 & (Hr2 & Hp2 & Hws & Hd2) &
    (Hr3 & Hp3 & Hd3) & Hhdr & Hhok & Hr4 & Hd4 & Ht4 & Hlt4 & HF4 & Hu4).
  exists w4. split_and!; [|split; [done| |done]|done|done].
  - unfold write_journal_commit. rewrite (run_bind_done _ _ _ _ _ (run_jr_get _ _ _ _ Ej)) (run_bind_done _ _ _ _ _ Hr1).
    assert (f_trans w1 !! t = Some x) as Htx by by rewrite Ht1.
    rewrite !(run_bind_done _ _ _ _ _ (run_tr_get _ _ _ _ Htx)).
    by rewrite (run_bind_done _ _ _ _ _ Hr2) (run_bind_done _ _ _ _ _ Hr3).
  - eexists. split; [by rewrite Hd4|]. eapply commit_done; [apply HJA|done..|]. rewrite Hws. by apply commit_writes_ok.
Qed.

(** The power fails during the commit. *)
Lemma commit_passes : passes (write_journal_commit c t) w (crash_gives [D; D']).
Proof using HJA HS Ht Hlt Hdw HT.
  destruct (sy_disk _ _ _ HS) as (d & Hd & HC).
  destruct (commit_parts d Hd HC) as (j & w1 & w2 & w3 & w4 & ws & hdr & Ej & Hr1 & Hd1 & Ht1 & (Hr2 & Hp2 & Hws & Hd2) &
    (Hr3 & Hp3 & Hd3) & Hhdr & Hhok & Hr4 & Hd4 & Ht4 & Hlt4 & HF4 & Hu4).
  assert (Forall (λ y, block_ok y.2) ws) as Hwok by (rewrite Hws; by apply commit_writes_ok).
  pose proof (ja_layout _ _ HJA) as HL.
  set (ws2 := [(jblk L c (j_pos (J c) + 1 + Z.of_nat (length (t_blocks T))), hdr)]) in *.
  assert (∀ ws', ws' ⊆ ws → crash_gives [D; D'] [put d ws']) as Hput.
  { intros ws' Hs. eexists. split; [done|]. intros m Hm. exists D. split; [by left|].
    eapply commit_writing; [done..|]. by eapply crash_grown. }
  assert (∀ ws', ws' ⊆ ws2 → crash_gives [D; D'] [put (flushed (put d ws)) ws']) as Hput2.
  { intros ws' Hs. eexists. split; [done|]. intros m Hm.
    destruct (commit_pending L HL d J D c T HC HT ws Hws hdr Hhdr Hwok m) as [H|H]; [by eapply crash_grown| |].
    - exists D. split; [by left|done].
    - exists D'. split; [right; by left|done]. }
  assert (crash_gives [D; D'] [flushed (put (flushed (put d ws)) ws2)]) as Hdone.
  { eexists. split; [done|]. intros m Hm. exists D'. split; [right; by left|].
    eapply consistent_recovers; [|exact Hm]. by eapply commit_done. }
  assert (crash_gives [D; D'] [d]) as H0 by (rewrite -(put_nil d); apply Hput, list_subseteq_nil).
  assert (f_trans w1 !! t = Some x) as Htx by by rewrite Ht1.
  unfold write_journal_commit.
  eapply passes_step; [apply grow_jr_get|by apply run_jr_get|done..|].
  eapply passes_step; [apply grow_ilock_write|exact Hr1|done..|].
  eapply passes_step; [apply grow_tr_get|by apply run_tr_get|done..|].
  eapply passes_step; [apply grow_tr_get|by apply run_tr_get|done..|].
  eapply passes_step; [apply grow_tr_get|by apply run_tr_get|done..|].
  apply passes_bind.
  { eapply passes_weaken; [|exact Hp2]. intros ds [(ws' & Hs & ->)| ->]; [by apply Hput|].
    rewrite -(put_nil (flushed (put d ws))). apply Hput2, list_subseteq_nil. }
  intros [] w2' Hr. rewrite Hr2 in Hr. injection Hr as <-. apply passes_bind.
  { eapply passes_weaken; [|exact Hp3]. intros ds [(ws' & Hs & ->)| ->]; [by apply Hput2|done]. }
  intros [] w3' Hr. rewrite Hr3 in Hr. injection Hr as <-.
  eapply passes_same; [unfold iunlock; grow|exact Hr4|done|by rewrite Hd4|done].
Qed.
End commit.

(** ** Skipping *)

(** A consistent system, whoever holds the locks. *)
Record core (w : fs_world) (J : Z → jstate) (D : Z → list Z) : Prop := Core {
  co_files : files L ja w (λ c, j_pos (J c));
  co_disk : ∃ d, f_disks w = [d] ∧ consistent L d J D;
}.

Lemma system_core w J D : system w J D → core w J D.
Proof using Type. intros H. split; apply H. Qed.

(** The skip block of [c] is written from a state in which the journal's
    position is 0, and the position [n] follows. *)
Lemma run_skip w P J D c j d ts :
  files L ja w P → P c = 0 → f_disks w = [d] → consistent L d J D → c ∈ cpus L → f_journals w !! c = Some j →
  0 ≤ ts < 2 ^ 64 → j_skip (J c) ≤ ts →
  (∀ b, meta L b → replayed (all_replay L (set_journal J c ((J c) <| j_skip := ts |>))) (img (stable d)) b = D b) →
  ∃ w' d', run (write_journal_skip_block ts c true) w = Done () w' ∧ journaled L ja w w' P c 1 j d' ∧
    consistent L d' (set_journal J c ((J c) <| j_skip := ts |>)) D ∧
    passes (write_journal_skip_block ts c true) w (crash_gives [D]).
Proof using HJA.
  intros HF Hp Hd HC Hc Hj Hts Hle Hdata. pose proof (ja_layout _ _ HJA) as HL.
  destruct (run_skip_block L ja HJA true w P c j d ts HF Hc Hd Hj Hp Hts) as (w' & hdr & Hr & Hhdr & Hok & HJ' & Hpass).
  exists w', (flushed (put d [(jblk L c 0, hdr)])).
  assert (consistent L (flushed (put d [(jblk L c 0, hdr)])) (set_journal J c ((J c) <| j_skip := ts |>)) D) as HC' by by apply skip_done.
  split_and!; [done..|]. eapply passes_weaken; [|exact Hpass]. intros ds [(ws' & Hs & ->)| ->]; (eexists; split; [done|]);
    intros m Hm; exists D; (split; [by left|]).
  - apply (skip_pending _ HL d J D c ts hdr HC Hc Hhdr Hle Hdata). by eapply crash_grown.
  - by eapply consistent_recovers.
Qed.

(** ** Apply *)

Section apply.
Context (w : fs_world) (J : Z → jstate) (D : Z → list Z) (c t : Z) (x : transaction) (G : list txn) (Tl : txn).
Context (HS : core w J D) (Ht : f_trans w !! t = Some x) (Hlt : t < f_next w).
Context (Hq : bqueue x = None) (Hdw : disks_written x ⊆ {[0]}) (Hcpu : txq_id x = c) (Hts : commit_tsc x = t_ts Tl) (Hr64 : 0 ≤ t_ts Tl < 2 ^ 64).

Let ws := db_writes (dedup_blocks (blocks x)).
Let J' := set_journal J c ((J c) <| j_skip := t_ts Tl |>).

Context (HA : may_apply L J c G Tl ws) (Hne : blocks x ≠ []) (Hsm : Forall (λ b, small (blocknum b)) (blocks x)).

(** The parts of [apply_trans_on_disk]. *)
Lemma apply_parts d :
  f_disks w = [d] → consistent L d J D →
  ∃ j w1 w2 w3 w4 x', f_journals w1 !! c = Some j ∧ current_off j = j_pos (J c) * BSIZE ∧
    run (write_to_disk_and_flush t) w = Done () w1 ∧ passes (write_to_disk_and_flush t) w (partly d ws) ∧
    f_disks w1 = [flushed (put d ws)] ∧ f_trans w1 !! t = Some x' ∧ txq_id x' = c ∧ commit_tsc x' = t_ts Tl ∧
    run (update_offset c 0) w1 = Done () w2 ∧ f_disks w2 = f_disks w1 ∧ f_trans w2 = f_trans w1 ∧
    run (write_journal_skip_block (t_ts Tl) c true) w2 = Done () w3 ∧ passes (write_journal_skip_block (t_ts Tl) c true) w2 (crash_gives [D]) ∧
    run (update_offset c (current_off j)) w3 = Done () w4 ∧ f_disks w4 = f_disks w3 ∧ core w4 J' D ∧
    f_trans w4 !! t = Some x' ∧ bqueue x' = None ∧ ∀ c', unlocked w c' → unlocked w4 c'.
Proof using HJA HS Ht Hlt Hq Hdw Hcpu Hts Hr64 HA Hne Hsm.
  intros Hd HC. pose proof (ma_cpu _ _ _ _ _ _ HA) as Hc. pose proof (co_files _ _ _ HS) as HF.
  pose proof (ja_layout _ _ HJA) as HL.
  pose proof (run_flush_by w d t x Hd Ht Hq Hdw Hne Hsm true) as Hr1. fold ws in Hr1.
  set (x' := (written x) <| disks_written := ∅ |>) in *. set (w1 := upd_dt w (flushed (put d ws)) t x') in *.
  assert (files L ja w1 (λ c, j_pos (J c))) as HF1.
  { eapply files_behind; [done..|apply disk_block_flushed|]. apply Forall_forall. intros [b v] Hx.
    destruct (ma_blocks _ _ _ _ _ _ HA b v Hx) as (? & ? & _). split; [by left|done]. }
  destruct (files_start _ _ _ _ _ HF1 Hc) as (j & Ej & Ho & Hp).
  destruct (run_move L ja w1 _ c 0 j HF1 Hc) as (w2 & Hr2 & HF2 & Hch2 & Hd2 & Hj2 & Ht2 & Hn2 & Hcur2); [done|done|].
  pose proof (apply_written _ HL d J D c G Tl ws HC HA) as HC1.
  destruct (ma_front _ _ _ _ _ _ HA) as [R ER].
  destruct (run_skip w2 _ J D c (j <| current_off := 0 * BSIZE |>) (flushed (put d ws)) (t_ts Tl) HF2) as (w3 & d3 & Hr3 & HJ3 & HC3 & Hp3);
    [apply upd_eq|by rewrite Hd2|done|done|by rewrite Hj2 lookup_insert_eq|done|..].
  { destruct (group_split _ d J D c G Tl ws HC HA R ER) as (_ & _ & ?). lia. }
  { intros b Hb. by eapply apply_data. }
  destruct HJ3 as [HF3 Hch3 Hd3 Hj3 Htr3 Hn3 Hcur3].
  destruct (run_move L ja w3 _ c (j_pos (J c)) (j <| current_off := 0 * BSIZE |> <| current_off := 1 * BSIZE |>) HF3 Hc)
    as (w4 & Hr4 & HF4 & Hch4 & Hd4 & Hj4 & Ht4 & Hn4 & Hcur4).
  { apply (fl_file _ _ _ _ HF c Hc). }
  { by rewrite Hj3 lookup_insert_eq. }
  exists j, w1, w2, w3, w4, x'. rewrite Ho. split_and!; try done.
  - by apply (passes_flush_by w d t x Hd Ht Hq Hdw Hne Hsm true).
  - apply upd_dt_trans.
  - split; [|exists d3; split; [by rewrite Hd4|done]]. eapply files_ext; [|exact HF4].
    intros c'. unfold J', set_journal, upd. by repeat case_decide; subst.
  - rewrite Ht4 Htr3; [rewrite Hn2; exact Hlt|]. rewrite Ht2. apply upd_dt_trans.
  - intros c'. eapply (unlocked_moved w1 _ c j); [|done|rewrite Hj4 Hj3 Hj2 !insert_insert_eq; done].
    by rewrite (churn_inodes _ _ Hch4) (churn_inodes _ _ Hch3) (churn_inodes _ _ Hch2).
Qed.

Lemma apply_run :
  ∃ w' x', run (apply_trans_on_disk t) w = Done () w' ∧ core w' J' D ∧ f_trans w' !! t = Some x' ∧ bqueue x' = None ∧
    ∀ c', unlocked w c' → unlocked w' c'.
Proof using HJA HS Ht Hlt Hq Hdw Hcpu Hts Hr64 HA Hne Hsm.
  destruct (co_disk _ _ _ HS) as (d & Hd & HC).
  destruct (apply_parts d Hd HC) as (j & w1 & w2 & w3 & w4 & x' & Ej & Ho & Hr1 & Hp1 & Hd1 & Hx' & Ei & Ec & Hr2 & Hd2 & Ht2 & Hr3 & Hp3 & Hr4 & Hd4 & HC4 & Hx4 & Hb4 & Hu4).
  exists w4, x'. split_and!; [|done..]. unfold apply_trans_on_disk.
  rewrite (run_bind_done _ _ _ _ _ Hr1) (run_bind_done _ _ _ _ _ (run_tr_get _ _ _ _ Hx')) Ei.
  rewrite (run_bind_done _ _ _ _ _ (run_jr_get _ _ _ _ Ej)) (run_bind_done _ _ _ _ _ Hr2).
  assert (f_trans w2 !! t = Some x') as Hx2 by by rewrite Ht2.
  rewrite (run_bind_done _ _ _ _ _ (run_tr_get _ _ _ _ Hx2)) Ec. by rewrite (run_bind_done _ _ _ _ _ Hr3).
Qed.

Lemma apply_passes : passes (apply_trans_on_disk t) w (crash_gives [D]).
Proof using HJA HS Ht Hlt Hq Hdw Hcpu Hts Hr64 HA Hne Hsm.
  destruct (co_disk _ _ _ HS) as (d & Hd & HC). pose proof (ja_layout _ _ HJA) as HL.
  destruct (apply_parts d Hd HC) as (j & w1 & w2 & w3 & w4 & x' & Ej & Ho & Hr1 & Hp1 & Hd1 & Hx' & Ei & Ec & Hr2 & Hd2 & Ht2 & Hr3 & Hp3 & Hr4 & Hd4 & HC4 & Hx4 & Hb4 & Hu4).
  assert (f_trans w2 !! t = Some x') as Hx2 by by rewrite Ht2.
  assert (crash_gives [D] [flushed (put d ws)]) as Hfl.
  { eexists. split; [done|]. intros m Hm. exists D. split; [by left|]. eapply consistent_recovers; [|exact Hm]. by eapply apply_written. }
  unfold apply_trans_on_disk. apply passes_bind.
  { eapply passes_weaken; [|exact Hp1]. intros ds [(ws' & Hs & ->)| ->]; [|done]. eexists. split; [done|]. intros m Hm.
    exists D. split; [by left|]. eapply apply_writing; [done..|]. by eapply crash_grown. }
  intros [] w1' Hr. rewrite Hr1 in Hr. injection Hr as <-.
  eapply passes_step; [apply grow_tr_get|by apply run_tr_get|done..|]. rewrite Ei.
  eapply passes_step; [apply grow_jr_get|by apply run_jr_get|done..|].
  eapply passes_step; [apply grow_update_offset|exact Hr2|done|by rewrite Hd2|done|].
  eapply passes_step; [apply grow_tr_get|by apply run_tr_get|by rewrite Hd2|by rewrite Hd2|done|]. rewrite Ec.
  apply passes_bind; [exact Hp3|]. intros [] w3' Hr. rewrite Hr3 in Hr. injection Hr as <-.
  destruct (co_disk _ _ _ HC4) as (d4 & Hd4' & HC4').
  eapply passes_same; [apply grow_update_offset|exact Hr4|by rewrite -Hd4|done|].
  eexists. split; [done|]. intros m Hm. exists D. split; [by left|]. by eapply consistent_recovers.
Qed.
End apply.

(** ** Reset *)

Section reset.
Context (w : fs_world) (J : Z → jstate) (D : Z → list Z) (c : Z) (j : journal).
Context (HS : core w J D) (Hc : c ∈ cpus L) (Hj : f_journals w !! c = Some j) (Hnone : to_replay (J c) = []).
Context (Hlast : last_applied_commit_tsc j = j_skip (J c)) (Hr64 : 0 ≤ j_skip (J c) < 2 ^ 64).

Lemma reset_parts :
  ∃ w', run (reset_journal c) w = Done () w' ∧ core w' (set_journal J c (emptied (J c))) D ∧
    passes (reset_journal c) w (crash_gives [D]) ∧ ∀ c', unlocked w c' → unlocked w' c'.
Proof using HJA HS Hc Hj Hnone Hlast Hr64.
  destruct HS as [HF (d & Hd & HC)].
  assert (∀ c', set_journal J c ((J c) <| j_skip := j_skip (J c) |>) c' = J c') as Eset.
  { intros c'. unfold set_journal. case_decide as E; [subst c'|done]. by destruct (J c). }
  destruct (run_move L ja w _ c 0 j HF Hc) as (w1 & Hr1 & HF1 & Hch1 & Hd1 & Hj1 & Ht1 & Hn1 & Hcur1); [done|done|].
  set (j1 := j <| current_off := 0 * BSIZE |>) in *.
  assert (f_journals w1 !! c = Some j1) as Ej1 by by rewrite Hj1 lookup_insert_eq.
  destruct (run_skip w1 _ J D c j1 d (j_skip (J c)) HF1) as (w2 & d2 & Hr2 & HJ2 & HC2 & Hp2);
    [apply upd_eq|by rewrite Hd1|done|done|done|done|done|..].
  { intros b Hb. rewrite -(cs_data _ _ _ _ HC b Hb). f_equal. unfold all_replay. f_equal. apply list_fmap_ext. intros i c' _. by rewrite Eset. }
  destruct HJ2 as [HF2 Hch2 Hd2 Hj2 Htr2 Hn2 Hcur2]. exists w2. split_and!.
  - unfold reset_journal. change 0 with (0 * BSIZE) at 1. rewrite (run_bind_done _ _ _ _ _ Hr1).
    rewrite (run_bind_done _ _ _ _ _ (run_jr_get _ _ _ _ Ej1)). change (last_applied_commit_tsc j1) with (last_applied_commit_tsc j). by rewrite Hlast.
  - split.
    + eapply files_ext; [|exact HF2]. intros c'. unfold set_journal, upd. by destruct (decide (c' = c)).
    + exists d2. split; [done|]. apply emptied_consistent; [|done..]. by eapply consistent_ext; [|exact HC2].
  - unfold reset_journal. assert (crash_gives [D] [d]) as Hg.
    { eexists. split; [done|]. intros m Hm. exists D. split; [by left|]. eapply consistent_recovers; [exact HC|exact Hm]. }
    eapply passes_step; [apply grow_update_offset|exact Hr1|done|by rewrite Hd1|done|].
    eapply passes_step; [apply grow_jr_get|by apply run_jr_get|by rewrite Hd1|by rewrite Hd1|done|].
    change (last_applied_commit_tsc j1) with (last_applied_commit_tsc j). rewrite Hlast. exact Hp2.
  - intros c'. eapply (unlocked_moved w _ c j); [|done|rewrite Hj2 Hj1 insert_insert_eq; done].
    by rewrite (churn_inodes _ _ Hch2) (churn_inodes _ _ Hch1).
Qed.
End reset.
End durable.
