(* ===== verification/FsRecover.v ===== *)
(** * Recovery

    [recover_scalefs] replays what it finds in the journals, in the order of
    the time stamps, and clears the journals: the blocks get the contents that
    [recovers_to] says. *)

From S2P Require Import Prelude FsBytes FsWorld FsDisk FsTrans FsDedup FsWrite FsBlocks FsInode FsView FsJournal FsHeaders FsScan FsRecords FsCrash FsSafe FsJournals FsRunning FsDurable.

Section recover.
Context (L : layout) (ja : Z → list Z) (HJA : journals_at L ja).

(** ** Reading the journals *)

Lemma files_reads n0 w w' P c pos :
  files L ja w P → c ∈ cpus L → recovers n0 w w' c (ja c) → jfile w' c (ja c) pos → grows w w' → files L ja w' (upd P c pos).
Proof using Type.
  intros HF Hc [Hrd Ho Ht] Hj [_ Hg]. split.
  - intros c' Hc'. unfold upd. case_decide as E; [by subst c'|].
    pose proof (fl_file _ _ _ _ HF c' Hc') as Hf. destruct (jfile_offset _ _ _ _ Hf) as (j & Ej & _).
    eapply jfile_frame; [done|apply Hj|apply Hrd|done| |intros; apply Hrd|apply Hf].
    rewrite (Ho _ E) Ej. f_equal. destruct Hf as [_ _ (j2 & y & Ej2 & Hoff & _)]. rewrite Ej in Ej2. injection Ej2 as <-. rewrite -Hoff. by destruct j.
  - intros c' b Hc' Hi. apply (fl_index _ _ _ _ HF c'); [done|]. eapply index_frame; [apply Hrd| |exact Hi].
    intros j' Ej'. specialize (Hg c'). rewrite Ej' in Hg. destruct (f_journals w !! c') as [j|]; [|done]. exists j. split; [done|]. by injection Hg.
  - intros b. rewrite (rd_cur _ _ _ Hrd). apply HF.
  - intros n. rewrite (rd_junk _ _ _ Hrd). apply HF.
  - pose proof (rd_next _ _ _ Hrd). pose proof (fl_next _ _ _ _ HF). lia.
Qed.

Lemma unlocked_same w w' c :
  unlocked w c → f_inodes w' = f_inodes w → sv6_journal <$> f_journals w' !! c = sv6_journal <$> f_journals w !! c → unlocked w' c.
Proof using Type.
  intros (j & x & Ej & Ex & Hb & Hr) Ei Hg. rewrite Ej in Hg.
  destruct (f_journals w' !! c) as [j'|] eqn:Ej'; [|done]. exists j', x. rewrite Ei. injection Hg as Hs. by rewrite Ej' Hs.
Qed.

Lemma found_app w lo mid hi v1 v2 l1 l2 :
  lo ≤ mid ≤ hi → found w lo mid v1 l1 → found w mid hi v2 l2 → found w lo hi (v1 ++ v2) (l1 ++ l2).
Proof using Type.
  intros Hm H1 H2. pose proof H1 as [Hf1 Hn1]. pose proof H2 as [Hf2 Hn2]. split.
  - apply Forall2_app; (eapply Forall2_impl; [done|]); intros t T [Ht Hh]; (split; [lia|done]).
  - apply NoDup_app. split_and!; [done| |done]. intros t Ht1 Ht2.
    pose proof (found_range _ _ _ _ _ _ H1 Ht1). pose proof (found_range _ _ _ _ _ _ H2 Ht2). lia.
Qed.

Lemma run_recover_all cs n0 w P vec tss :
  files L ja w P → (∀ c, c ∈ cpus L → unlocked w c) → cs ⊆ cpus L → NoDup cs → (∀ c, c ∈ cs → P c = 0) → n0 ≤ f_next w →
  mapM (λ c, scan_journal (λ n, cur w (jblk L c n))) cs = Some tss →
  ∃ w' vec' P', run (fold_each cs (λ cpu vec, recover_journal cpu vec) vec) w = Done (vec ++ vec') w' ∧ reads n0 w w' ∧
    files L ja w' P' ∧ (∀ c, c ∈ cpus L → unlocked w' c) ∧ grows w w' ∧ (∀ t, t < f_next w → f_trans w' !! t = f_trans w !! t) ∧
    found w' (f_next w) (f_next w') vec' (concat tss).
Proof using HJA.
  revert w P vec tss. induction cs as [|c cs IH]; intros w P vec tss HF Hun Hsub Hnd HP Hn Hs.
  { injection Hs as <-. exists w, [], P. rewrite app_nil_r. by split_and!. }
  simpl in Hs. apply bind_Some in Hs as (txns & Hs1 & Hs). apply bind_Some in Hs as (tss' & Hs2 & [= <-]).
  apply NoDup_cons in Hnd as [Hc Hnd]. assert (c ∈ cpus L) as Hcpu by (apply Hsub; by left).
  pose proof (fl_file _ _ _ _ HF c Hcpu) as Hf. rewrite (HP c) in Hf; [by left|].
  assert (scan_journal (jblock w (ja c)) = Some txns) as Hs1'.
  { rewrite -Hs1. apply scan_journal_ext. intros n. unfold jblock. by rewrite (ja_blk _ _ HJA). }
  destruct (run_recover_journal n0 w c (ja c) vec txns Hf) as (w1 & vec1 & Hr1 & Hrc & Hn1 & [pos Hj1] & Hf1); [intros n _; apply HF|by apply Hun|done|done|].
  assert (grows w w1) as Hg1 by (eapply keeps_run; [apply _|apply grow_recover_journal|exact Hr1]).
  pose proof (rc_reads _ _ _ _ _ Hrc) as Hrd1.
  destruct (IH w1 (upd P c pos) (vec ++ vec1) tss') as (w2 & vec2 & P2 & Hr2 & Hrd2 & HF2 & Hun2 & Hg2 & Ht2 & Hf2).
  - by eapply files_reads.
  - intros c' Hc'. eapply unlocked_same; [by apply Hun|apply Hrd1|apply Hg1].
  - intros c' Hc'. apply Hsub. by right.
  - done.
  - intros c' Hc'. unfold upd. case_decide as E; [by subst c'|]. apply HP. by right.
  - lia.
  - rewrite -Hs2. apply mapM_ext. intros c'. apply scan_journal_ext. intros n. apply Hrd1.
  - exists w2, (vec1 ++ vec2), P2. rewrite run_fold_each_cons Hr1 /= Hr2 -app_assoc. split_and!; [done| |done|done| | |].
    + by eapply reads_trans.
    + by etrans.
    + intros t Ht. rewrite Ht2; [lia|]. by apply (rc_old _ _ _ _ _ Hrc).
    + eapply (found_app _ _ (f_next w1)); [split; [done|apply Hrd2]| |done].
      destruct Hf1 as [Hf1 Hnd1]. split; [|done]. eapply Forall2_impl; [exact Hf1|]. intros t T [Ht (x & Hx & Hh)].
      split; [done|]. exists x. rewrite Ht2; [lia|done].
Qed.

(** ** Replay *)

(** What a step of the replay leaves alone, with the writes [ws] to the disk. *)
Record replays (w w' : fs_world) (d : disk) (ws : list (Z * list Z)) : Prop := Replays {
  rp_churn : churn w w';
  rp_disks : f_disks w' = [put d ws];
  rp_journals : f_journals w' = f_journals w;
  rp_next : f_next w' = f_next w;
  rp_cur : ∀ b, cur w' b = over ws (cur w) b;
}.

Lemma replays_app w1 w2 w3 d ws ws' :
  replays w1 w2 d ws → replays w2 w3 (put d ws) ws' → replays w1 w3 d (ws ++ ws').
Proof using Type.
  intros [Hc1 Hd1 Hj1 Hn1 Hb1] [Hc2 Hd2 Hj2 Hn2 Hb2]. split; [by etrans|by rewrite Hd2 put_put|congruence|congruence|].
  intros b. rewrite Hb2 over_app. by apply over_ext.
Qed.

Lemma run_writeback_through w d b :
  f_disks w = [d] → small (blocknum b) →
  ∃ w', run (writeback_through_bufcache b) w = Done () w' ∧ replays w w' d [(blocknum b, blockdata b)] ∧ f_trans w' = f_trans w.
Proof using Type.
  intros Hd Hb. assert (one_disk w) as H1 by by exists d. assert (blkno (blocknum b)) as Hbn by (unfold small, blkno in *; lia).
  destruct (run_buf_get_skip w (blocknum b) H1 Hbn) as (w1 & y & Hr1 & [Hq1 Hc1] & Hy1 & _).
  destruct (run_buf_write w1 (blocknum b) y Hy1) as (w2 & Hr2 & Hq2 & Hc2 & Hy2).
  destruct (run_buf_store w2 (blocknum b) _ (blockdata b) Hy2) as (w3 & Hr3 & [Hq3 Hc3] & Hy3 & Hb3).
  assert (quiet w w3) as Hq by (etrans; [|exact Hq3]; by etrans).
  assert (f_disks w3 = [d]) as Hd3 by by rewrite (quiet_disks _ _ Hq).
  unfold writeback_through_bufcache. rewrite (run_bind_done _ _ _ _ _ Hr1) (run_bind_done _ _ _ _ _ Hr2) (run_bind_done _ _ _ _ _ Hr3).
  rewrite (run_db_writeback w3 d b Hd3 Hb). eexists. split; [done|]. split; [split|].
  - etrans; [by apply stir_churn, quiet_stir|]. unfold churn. by destruct w3.
  - done.
  - change (f_journals w3 = f_journals w). by apply quiet_journals.
  - change (f_next w3 = f_next w). by apply quiet_next.
  - intros b'. destruct (decide (b' = blocknum b)) as [->|Hne].
    + rewrite (over_elem _ _ _ (blockdata b)); [apply NoDup_singleton|by left|].
      unfold cur. change (f_bufs (w3 <| f_disks := [put d [(blocknum b, blockdata b)]] |>)) with (f_bufs w3). by rewrite Hy3.
    + rewrite over_out; [simpl; by rewrite list_elem_of_singleton|]. rewrite -Hc1 // -Hc2 -Hc3 //.
      unfold cur. change (f_bufs (w3 <| f_disks := [put d [(blocknum b, blockdata b)]] |>)) with (f_bufs w3).
      destruct (f_bufs w3 !! (1, b')); [done|]. unfold on_disk. rewrite Hd3. simpl.
      rewrite !disk_block_img disk_map_put img_writes over_out //. simpl. by rewrite list_elem_of_singleton.
  - change (f_trans w3 = f_trans w). by apply quiet_trans_eq.
Qed.

Lemma run_writeback_all l w d :
  f_disks w = [d] → Forall (λ b, small (blocknum b)) l →
  ∃ w', run (fold_each l (λ b _, writeback_through_bufcache b) ()) w = Done () w' ∧ replays w w' d (db_writes l) ∧ f_trans w' = f_trans w.
Proof using Type.
  intros Hd Hl. revert w d Hd. induction Hl as [|b l Hb Hl IH]; intros w d Hd.
  - exists w. split_and!; [done| |done]. split; try done. by rewrite put_nil.
  - destruct (run_writeback_through w d b Hd Hb) as (w1 & Hr1 & Hrp1 & Ht1).
    destruct (IH w1 (put d [(blocknum b, blockdata b)])) as (w2 & Hr2 & Hrp2 & Ht2); [apply Hrp1|].
    exists w2. rewrite run_fold_each_cons Hr1 /= Hr2. split_and!; [done| |congruence]. by eapply (replays_app w w1 w2 d [_]).
Qed.

(** One transaction. *)
Lemma run_replay_one w d t T :
  f_disks w = [d] → holds w t (t_ts T) (t_blocks T) → txn_ok L T →
  ∃ w' ws, run (write_to_disk_update_bufcache t;; delete_transaction t) w = Done () w' ∧ replays w w' d ws ∧
    ws ≡ₚ t_blocks T ∧ ∀ t', t' ≠ t → f_trans w' !! t' = f_trans w !! t'.
Proof using Type.
  intros Hd (x & Hx & Hts & Hq & Hdw & Hbl) (Hfit & Hnd & Hok). unfold write_to_disk_update_bufcache, deduplicate_blocks.
  destruct (run_tr_upd_calm w t (λ x, x <| blocks ::= dedup_blocks |>) x Hx) as (w1 & Hr1 & Hcm1 & Hn1 & Ht1).
  set (x1 := x <| blocks ::= dedup_blocks |>) in *.
  assert (f_trans w1 !! t = Some x1) as Hx1 by (rewrite Ht1; apply lookup_insert_eq).
  assert (NoDup (blocknum <$> blocks x)) as Hnd'.
  { rewrite -Hbl in Hnd. rewrite -list_fmap_compose in Hnd. exact Hnd. }
  assert (db_writes (dedup_blocks (blocks x)) ≡ₚ t_blocks T) as Hws.
  { rewrite -Hbl. change (db_writes (dedup_blocks (blocks x)) ≡ₚ db_writes (blocks x)). unfold db_writes. by rewrite dedup_perm. }
  assert (Forall (λ b, small (blocknum b)) (dedup_blocks (blocks x))) as Hsm.
  { apply Forall_forall. intros b Hb. rewrite Forall_forall in Hok. apply (Hok (blocknum b, blockdata b)). rewrite -Hws.
    by apply (list_elem_of_fmap_2 (λ b, (blocknum b, blockdata b))). }
  destruct (run_writeback_all (dedup_blocks (blocks x)) w1 d) as (w2 & Hr2 & Hrp2 & Ht2); [by rewrite (cm_disks _ _ Hcm1)|done|].
  destruct (run_delete_calm w2 t x1) as (w3 & Hr3 & Hcm3 & Hn3 & Ht3); [by rewrite Ht2|done|].
  exists w3, (db_writes (dedup_blocks (blocks x))). split_and!; [|split| done|].
  - erewrite run_bind_done; [exact Hr3|]. rewrite (run_bind_done _ _ _ _ _ Hr1) (run_bind_done _ _ _ _ _ (run_tr_get _ _ _ _ Hx1)). exact Hr2.
  - etrans; [apply Hcm1|]. etrans; [apply Hrp2|apply Hcm3].
  - rewrite (cm_disks _ _ Hcm3). apply Hrp2.
  - by rewrite (cm_journals _ _ Hcm3) (rp_journals _ _ _ _ Hrp2) (cm_journals _ _ Hcm1).
  - by rewrite Hn3 (rp_next _ _ _ _ Hrp2).
  - intros b. rewrite (calm_cur _ _ _ Hcm3) (rp_cur _ _ _ _ Hrp2). apply over_ext. by apply calm_cur.
  - intros t' Hne. rewrite Ht3 lookup_delete_ne // Ht2 Ht1 lookup_insert_ne //.
Qed.

Lemma sort_Forall2 {A B} (Q : A → B → Prop) lt lt' l l' :
  (∀ x y x' y', Q x y → Q x' y' → lt x x' = lt' y y') → Forall2 Q l l' → Forall2 Q (std_sort lt l) (std_sort lt' l').
Proof using Type.
  intros Hlt H. induction H as [|x y l l' Hxy H IH]; [constructor|]. simpl. revert IH. generalize (std_sort lt l) (std_sort lt' l').
  intros s s' Hs. induction Hs as [|z u s s' Hzu Hs IHs]; simpl; [by repeat constructor|].
  rewrite (Hlt z u x y) //. destruct (lt' u y); by repeat constructor.
Qed.

(** The transaction number [p.2] with the time stamp [p.1] is [T]. *)
Definition pairs_with (w : fs_world) (p : Z * Z) (T : txn) : Prop := p.1 = t_ts T ∧ holds w p.2 (t_ts T) (t_blocks T).

Lemma run_collect w vec txns acc :
  Forall2 (λ t T, holds w t (t_ts T) (t_blocks T)) vec txns →
  ∃ ps, run (fold_each vec (λ t l, ts ← tr_get commit_tsc t; mret (l ++ [(ts, t)])) acc) w = Done (acc ++ ps) w ∧
    ps.*2 = vec ∧ Forall2 (pairs_with w) ps txns.
Proof using Type.
  intros H. revert acc. induction H as [|t T vec txns Hh H IH]; intros acc.
  - exists []. rewrite app_nil_r. by split_and!.
  - pose proof Hh as (x & Hx & Hts & _). destruct (IH (acc ++ [(t_ts T, t)])) as (ps & Hr & Hps & Hf).
    exists ((t_ts T, t) :: ps). rewrite run_fold_each_cons (run_bind_done _ _ _ _ _ (run_tr_get _ _ _ _ Hx)) run_ret /= Hts Hr -app_assoc.
    split_and!; [done|simpl; by f_equal|by constructor].
Qed.

Lemma over_same_writes ws ws' f b : NoDup ws'.*1 → ws ≡ₚ ws' → over ws f b = over ws' f b.
Proof using Type. intros Hnd Hp. symmetry. by apply over_perm. Qed.

Lemma Forall2_impl_l {A B} (R R' : A → B → Prop) l l' :
  (∀ x y, x ∈ l → R x y → R' x y) → Forall2 R l l' → Forall2 R' l l'.
Proof using Type.
  intros Hi H. induction H as [|x y l l' Hxy H IH]; constructor; [by apply Hi; [left|]|]. apply IH. intros. apply Hi; [by right|done].
Qed.

(** The transactions of [ps], one after the other. *)
Lemma run_replay_all ps txns w d :
  f_disks w = [d] → Forall2 (pairs_with w) ps txns → NoDup ps.*2 → Forall (txn_ok L) txns →
  ∃ w' ws, run (fold_each ps (λ x _, write_to_disk_update_bufcache x.2;; delete_transaction x.2) ()) w = Done () w' ∧
    replays w w' d ws ∧ (∀ f b, over ws f b = over (concat (t_blocks <$> txns)) f b) ∧
    (∀ y, y ∈ ws → ∃ T, T ∈ txns ∧ y ∈ t_blocks T).
Proof using Type.
  intros Hd Hf Hnd Hok. revert w d Hd Hf Hnd. revert ps. induction Hok as [|T txns HT Hok IH]; intros ps w d Hd Hf Hnd.
  - inversion Hf; subst. exists w, []. split_and!; [done| |done|by intros y Hy%not_elem_of_nil]. split; try done. by rewrite put_nil.
  - inversion Hf as [|p ? ps' ? [Hp1 Hp2] Hf']; subst. simpl in Hnd. apply NoDup_cons in Hnd as [Hn Hnd].
    destruct (run_replay_one w d p.2 T Hd Hp2 HT) as (w1 & ws1 & Hr1 & Hrp1 & Hws1 & Ht1).
    destruct (IH ps' w1 (put d ws1)) as (w2 & ws2 & Hr2 & Hrp2 & Hov & Hel); [apply Hrp1| |done|].
    { eapply Forall2_impl_l; [|exact Hf']. intros p' T' Hp' [E (x & Hx & Hh)]. split; [done|]. exists x. split; [|done].
      rewrite Ht1 //. intros E2. apply Hn. rewrite -E2. by apply list_elem_of_fmap_2. }
    exists w2, (ws1 ++ ws2). rewrite run_fold_each_cons Hr1 /= Hr2. split_and!; [done|by eapply replays_app| |].
    + intros f b. rewrite !over_app Hov. apply over_ext. apply over_same_writes; [apply HT|done].
    + intros y [Hy|Hy]%elem_of_app; [exists T; split; [by left|by rewrite -Hws1]|].
      destruct (Hel y Hy) as (T' & ? & ?). exists T'. split; [by right|done].
Qed.

Lemma run_replay w d lo hi vec txns :
  f_disks w = [d] → found w lo hi vec txns → Forall (txn_ok L) txns →
  ∃ w' ws, run (replay vec) w = Done () w' ∧ replays w w' d ws ∧ (∀ f b, over ws f b = replayed txns f b) ∧
    (∀ y, y ∈ ws → ∃ T, T ∈ txns ∧ y ∈ t_blocks T).
Proof using Type.
  intros Hd [Hf Hnd] Hok. destruct (run_collect w vec txns []) as (ps & Hr1 & Hps & Hpf).
  { eapply Forall2_impl; [exact Hf|]. by intros t T [_ ?]. }
  set (ps' := std_sort (λ a b, a.1 <? b.1) ps).
  assert (Forall2 (pairs_with w) ps' (replay_order txns)) as Hsf.
  { apply sort_Forall2; [|done]. intros x y x' y' [-> _] [-> _]. done. }
  destruct (run_replay_all ps' (replay_order txns) w d Hd Hsf) as (w' & ws & Hr2 & Hrp & Hov & Hel).
  { unfold ps'. rewrite std_sort_perm. by rewrite Hps. }
  { unfold replay_order. by rewrite std_sort_perm. }
  exists w', ws. unfold replay. rewrite (run_bind_done _ _ _ _ _ Hr1). split_and!; [exact Hr2|done|done|].
  intros y Hy. destruct (Hel y Hy) as (T & HT & ?). exists T. by rewrite replay_order_elem in HT.
Qed.

(** ** Clearing the journals *)

(** The disk [d'], after the journal of [c] has been cleared from position [p] on. *)
Record zeroed (c p : Z) (d d' : disk) : Prop := Zeroed {
  zd_pending : pending d' = [];
  zd_zero : ∀ n, p ≤ n < jlen → img (stable d') (jblk L c n) = zero_block;
  zd_rest : ∀ b, (∀ n, p ≤ n < jlen → b ≠ jblk L c n) → img (stable d') b = img (stable d) b;
}.

(** One round of the loop of [init_journal]. *)
Definition clear_one (c : Z) : fprog (unit + unit) :=
  off ← jr_get current_off c;
  if PHYS_JOURNAL_SIZE <=? off then mret (inr ()) else
  jt ← new_transaction;
  write_journal zero_block jt c;;
  write_to_disk_and_flush_raw jt;;
  delete_transaction jt;;
  mret (inl ()).

Lemma run_then {A B C} (m : fprog A) (f g h : A → fprog unit) (x : C) (w : fs_world) (y : B) :
  run (a ← m; f a;; g a;; h a;; mret x) w = outcome_bind (run (a ← m; f a;; g a;; h a) w) (λ _ w', Done x w').
Proof using Type.
  rewrite !run_bind. destruct (run m w) as [a w1| | |]; simpl; try done. rewrite !run_bind. destruct (run (f a) w1) as [[] w2| | |]; simpl; try done.
  rewrite !run_bind. destruct (run (g a) w2) as [[] w3| | |]; simpl; try done. rewrite run_bind. by destruct (run (h a) w3) as [[] w4| | |].
Qed.

Lemma stable_flushed d ws : pending d = [] → stable (flushed (put d ws)) = apply_writes ws (stable d).
Proof using Type. intros E. unfold flushed. cbn [stable]. rewrite disk_map_put. unfold disk_map. by rewrite E. Qed.

Lemma run_clear_loop fuel w P c j d :
  files L ja w P → c ∈ cpus L → f_journals w !! c = Some j → f_disks w = [d] → pending d = [] →
  jlen - P c < Z.of_nat fuel →
  ∃ w' d', run (loop fuel (λ _, clear_one c) ()) w = Done () w' ∧ journaled L ja w w' P c jlen j d' ∧ zeroed c (P c) d d'.
Proof using HJA.
  revert w P j d. induction fuel as [|fuel IH]; intros w P j d HF Hc Hj Hd Hpe Hfuel.
  { pose proof (jf_pos _ _ _ _ (fl_file _ _ _ _ HF c Hc)). lia. }
  destruct (files_start _ _ _ _ _ HF Hc) as (j' & Hj' & Ho & Hp). rewrite Hj in Hj'. injection Hj' as <-.
  pose proof (jf_pos _ _ _ _ (fl_file _ _ _ _ HF c Hc)) as Hpos.
  destruct (decide (P c = jlen)) as [Ep|Ep].
  { exists w, d. split_and!.
    - apply run_loop_exit. unfold clear_one. rewrite (run_bind_done _ _ _ _ _ (run_jr_get _ _ _ _ Hj)) Ho Ep. done.
    - split; try done.
      + eapply files_ext; [|exact HF]. intros c'. unfold upd. case_decide as E; [by subst c'|done].
      + rewrite -Ep -Ho. symmetry. apply insert_id. rewrite Hj. by destruct j.
    - split; [done|intros n Hn; lia|done]. }
  destruct (run_write_header L ja HJA false w P c j d zero_block HF Hc Hd Hj) as (w1 & Hr1 & HJ1 & _); [lia|apply zero_block_ok|].
  set (d1 := flushed (put d [(jblk L c (P c), zero_block)])) in *.
  destruct (IH w1 (upd P c (P c + 1)) (j <| current_off := (P c + 1) * BSIZE |>) d1) as (w2 & d2 & Hr2 & HJ2 & Hz).
  { apply HJ1. }
  { done. }
  { by rewrite (jd_journals _ _ _ _ _ _ _ _ _ HJ1) lookup_insert_eq. }
  { apply HJ1. }
  { done. }
  { rewrite upd_eq. lia. }
  rewrite upd_eq in Hz. exists w2, d2. split_and!.
  - rewrite (run_loop_again _ _ _ _ () w1); [|done]. unfold clear_one.
    rewrite (run_bind_done _ _ _ _ _ (run_jr_get _ _ _ _ Hj)) Ho. rewrite (proj2 (Z.leb_gt _ _)).
    { unfold jlen, PHYS_JOURNAL_SIZE, BSIZE in *. lia. }
    rewrite (run_then (B := unit)) //. cbv zeta in Hr1. by rewrite Hr1.
  - by eapply journaled_trans.
  - assert (∀ b, img (stable d1) b = over [(jblk L c (P c), zero_block)] (img (stable d)) b) as E1.
    { intros b. unfold d1. rewrite stable_flushed // img_writes //. }
    split; [apply Hz| |].
    + intros n Hn. destruct (decide (n = P c)) as [->|Hne]; [|apply Hz; lia].
      rewrite (zd_rest _ _ _ _ Hz).
      * intros n' Hn' E. apply (lo_inj _ (ja_layout _ _ HJA)) in E as [_ ?]; [lia|done|done|lia|lia].
      * rewrite E1. apply over_elem; [apply NoDup_singleton|by left].
    + intros b Hb. rewrite (zd_rest _ _ _ _ Hz); [intros n' Hn'; apply Hb; lia|]. rewrite E1 over_out //.
      simpl. rewrite list_elem_of_singleton. apply Hb. lia.
Qed.

(** The disk [d'], after the journal of [c] has been cleared. *)
Record cleared (c : Z) (d d' : disk) : Prop := Cleared {
  cl_pending : pending d' = [];
  cl_ok : (∀ b, block_ok (img (disk_map d) b)) → ∀ b, block_ok (img (stable d') b);
  cl_journal : journal_ok (jimg L (stable d') c) (JState 0 0 [] 1);
  cl_rest : ∀ b, (∀ n, 0 ≤ n < jlen → b ≠ jblk L c n) → img (stable d') b = img (disk_map d) b;
}.

Lemma empty_journal blk :
  skip_of (blk 0) 0 → (∀ n, 1 ≤ n < jlen → blk n = zero_block) → journal_ok blk (JState 0 0 [] 1).
Proof using Type.
  intros Hs Hz. split.
  - split; [done|by constructor|done|constructor|constructor|constructor|done].
  - intros n Hn. cbn [j_pos j_bound] in *. rewrite Hz; [done|]. split; intros H; exfalso; revert H; vm_compute; done.
Qed.

Lemma zeroed_cleared c d d' hdr :
  c ∈ cpus L → skip_of hdr 0 → block_ok hdr → zeroed c 1 (flushed (put d [(jblk L c 0, hdr)])) d' → cleared c d d'.
Proof using HJA.
  intros Hc Hs Hok [Hpe Hz Hr]. set (d1 := flushed (put d [(jblk L c 0, hdr)])) in *.
  assert (∀ b, img (stable d1) b = over [(jblk L c 0, hdr)] (img (disk_map d)) b) as E1.
  { intros b. unfold d1, flushed. cbn [stable]. rewrite disk_map_put img_writes //. }
  assert (∀ n, 1 ≤ n < jlen → jblk L c 0 ≠ jblk L c n) as Hne.
  { intros n Hn E. apply (lo_inj _ (ja_layout _ _ HJA)) in E as [_ ?]; [lia|done|done|done|lia]. }
  split; [done| | |].
  - intros Hall b. destruct (Exists_dec (λ n, b = jblk L c n) (seqZ 1 (jlen - 1))) as [Hex|Hno].
    + apply Exists_exists in Hex as (n & Hn & ->). apply elem_of_seqZ in Hn. rewrite Hz; [lia|]. apply zero_block_ok.
    + rewrite Hr.
      * intros n Hn ->. apply Hno, Exists_exists. exists n. split; [apply elem_of_seqZ; lia|done].
      * rewrite E1. apply over_block_ok; [done|]. by constructor.
  - apply empty_journal; unfold jimg.
    + rewrite Hr // E1. rewrite (over_elem _ _ _ hdr); [apply NoDup_singleton|by left|done].
    + done.
  - intros b Hb. rewrite Hr; [intros n Hn; apply Hb; lia|]. rewrite E1 over_out //.
    simpl. rewrite list_elem_of_singleton. by apply Hb.
Qed.

Lemma run_init_journal w P c j d :
  files L ja w P → c ∈ cpus L → f_journals w !! c = Some j → f_disks w = [d] →
  ∃ w' d', run (init_journal c) w = Done () w' ∧ journaled L ja w w' P c 1 j d' ∧ cleared c d d'.
Proof using HJA.
  intros HF Hc Hj Hd.
  destruct (run_move_journaled L ja w P c 0 j d HF Hc) as (w1 & Hr1 & HJ1); [done..|].
  set (j1 := j <| current_off := 0 * BSIZE |>) in *.
  assert (f_journals w1 !! c = Some j1) as Ej1 by by rewrite (jd_journals _ _ _ _ _ _ _ _ _ HJ1) lookup_insert_eq.
  destruct (run_skip_block L ja HJA false w1 (upd P c 0) c j1 d 0) as (w2 & hdr & Hr2 & Hs & Hok & HJ2 & _);
    [apply HJ1|done|apply HJ1|done|apply upd_eq|done|].
  set (d2 := flushed (put d [(jblk L c 0, hdr)])) in *.
  pose proof (journaled_trans L ja _ _ _ _ _ _ _ _ _ _ HJ1 HJ2) as HJ12.
  assert (f_journals w2 !! c = Some (j <| current_off := 1 * BSIZE |>)) as Ej2 by by rewrite (jd_journals _ _ _ _ _ _ _ _ _ HJ12) lookup_insert_eq.
  destruct (run_clear_loop (Z.to_nat (PHYS_JOURNAL_SIZE / BSIZE + 1)) w2 (upd P c 1) c (j <| current_off := 1 * BSIZE |>) d2) as (w3 & d3 & Hr3 & HJ3 & Hz);
    [apply HJ12|done|done|apply HJ12|done|rewrite upd_eq; vm_compute; done|].
  rewrite upd_eq in Hz. pose proof (journaled_trans L ja _ _ _ _ _ _ _ _ _ _ HJ12 HJ3) as HJ13.
  assert (f_journals w3 !! c = Some (j <| current_off := jlen * BSIZE |>)) as Ej3 by by rewrite (jd_journals _ _ _ _ _ _ _ _ _ HJ13) lookup_insert_eq.
  destruct (run_move_journaled L ja w3 (upd P c jlen) c 1 (j <| current_off := jlen * BSIZE |>) d3 (jd_files _ _ _ _ _ _ _ _ _ HJ13) Hc) as (w4 & Hr4 & HJ4);
    [done|exact Ej3|apply HJ13|].
  exists w4, d3. split_and!.
  - unfold init_journal. change 0 with (0 * BSIZE) at 1. rewrite (run_bind_done _ _ _ _ _ Hr1) (run_bind_done _ _ _ _ _ Hr2).
    rewrite (run_bind_done _ _ _ _ _ Hr3). exact Hr4.
  - by eapply journaled_trans.
  - by eapply zeroed_cleared.
Qed.

Lemma disk_map_clean d : pending d = [] → disk_map d = stable d.
Proof using Type. intros E. unfold disk_map. by rewrite E. Qed.

(** A block outside the journals of the CPUs [cs]. *)
Definition outside (cs : list Z) (b : Z) : Prop := ∀ c n, c ∈ cs → 0 ≤ n < jlen → b ≠ jblk L c n.

(** The disk and the positions, after the journals of [cs] have been cleared. *)
Record all_cleared (cs : list Z) (d d' : disk) : Prop := AllCleared {
  ac_pending : (cs = [] ∧ d' = d) ∨ pending d' = [];
  ac_ok : (∀ b, block_ok (img (disk_map d) b)) → ∀ b, block_ok (img (disk_map d') b);
  ac_journal : ∀ c, c ∈ cs → journal_ok (jimg L (disk_map d') c) (JState 0 0 [] 1);
  ac_rest : ∀ b, outside cs b → img (disk_map d') b = img (disk_map d) b;
}.

Lemma all_cleared_cons c cs d d1 d2 :
  c ∉ cs → c :: cs ⊆ cpus L → cleared c d d1 → all_cleared cs d1 d2 → all_cleared (c :: cs) d d2.
Proof using HJA.
  intros Hc Hsub [Hp1 Hok1 Hj1 Hr1] [Hp2 Hok2 Hj2 Hr2]. rewrite -(disk_map_clean _ Hp1) in Hok1, Hj1, Hr1. split.
  - right. by destruct Hp2 as [[_ ->]|?].
  - intros Hall. by apply Hok2, Hok1.
  - intros c' [-> | Hc']%elem_of_cons; [|by apply Hj2]. eapply journal_ok_local; [exact Hj1|]. intros n Hn. apply Hr2.
    intros c2 n2 Hc2 Hn2 E. apply (lo_inj _ (ja_layout _ _ HJA)) in E as [-> _]; [done|apply Hsub; by left|apply Hsub; by right|done|done].
  - intros b Hb. rewrite Hr2; [intros c' n Hc' Hn; apply Hb; [by right|done]|].
    apply Hr1. intros n Hn. apply Hb; [by left|done].
Qed.

Lemma run_init_all cs w P d :
  files L ja w P → f_disks w = [d] → cs ⊆ cpus L → NoDup cs →
  ∃ w' d', run (fold_each cs (λ cpu _, init_journal cpu) ()) w = Done () w' ∧ f_disks w' = [d'] ∧ all_cleared cs d d' ∧
    files L ja w' (λ c, if decide (c ∈ cs) then 1 else P c) ∧ f_inodes w' = f_inodes w ∧ (∀ b, meta L b → cur w' b = cur w b) ∧
    (∀ c, sv6_journal <$> f_journals w' !! c = sv6_journal <$> f_journals w !! c).
Proof using HJA.
  revert w P d. induction cs as [|c cs IH]; intros w P d HF Hd Hsub Hnd.
  { exists w, d. split_and!; try done. split; [by left|done| |done]. intros c Hc. by apply elem_of_nil in Hc. }
  apply NoDup_cons in Hnd as [Hc Hnd]. assert (c ∈ cpus L) as Hcpu by (apply Hsub; by left).
  destruct (files_start _ _ _ _ _ HF Hcpu) as (j & Hj & _).
  destruct (run_init_journal w P c j d HF Hcpu Hj Hd) as (w1 & d1 & Hr1 & [HF1 Hch1 Hd1 Hj1 _ _ Hcur1] & Hcl).
  destruct (IH w1 (upd P c 1) d1 HF1 Hd1) as (w2 & d2 & Hr2 & Hd2 & Hac & HF2 & Hi2 & Hcur2 & Hsv2); [intros c' Hc'; apply Hsub; by right|done|].
  exists w2, d2. rewrite run_fold_each_cons Hr1 /= Hr2. split_and!; [done|done| | | | |].
  - by eapply all_cleared_cons.
  - eapply files_ext; [|exact HF2]. intros c'. cbv beta. unfold upd. repeat case_decide; set_solver.
  - rewrite Hi2. by eapply churn_inodes.
  - intros b Hb. rewrite Hcur2 // Hcur1 //. by right.
  - intros c'. rewrite Hsv2 Hj1. destruct (decide (c' = c)) as [->|Hne]; [by rewrite lookup_insert_eq Hj|by rewrite lookup_insert_ne].
Qed.

(** The file system of the journals' inodes as it is mounted from the image [m]:
    nothing is held in memory that is not on the disk. *)
Record booted (w : fs_world) (m : gmap Z (list Z)) : Prop := Booted {
  bt_disk : f_disks w = [Disk m []];
  bt_cur : ∀ b, cur w b = img m b;
  bt_files : files L ja w (λ _, 0);
  bt_unlocked : ∀ c, c ∈ cpus L → unlocked w c;
}.

Lemma files_replays w w' P d ws :
  files L ja w P → replays w w' d ws → (∀ y, y ∈ ws → meta L y.1 ∧ block_ok y.2) → files L ja w' P.
Proof using Type.
  intros HF [Hch Hd Hj Hn Hcur] Hws.
  assert (∀ c b, c ∈ cpus L → index w c b → cur w' b = cur w b) as Hix.
  { intros c b Hc Hi. rewrite Hcur. apply over_out. intros Hin. apply list_elem_of_fmap in Hin as (y & -> & Hy).
    apply (fl_index _ _ _ _ HF c _ Hc Hi). left. by apply Hws. }
  split.
  - intros c Hc. pose proof (fl_file _ _ _ _ HF c Hc) as Hf. destruct (jfile_offset _ _ _ _ Hf) as (j & Ej & _).
    eapply jfile_frame; [done|by eexists|by eapply churn_inodes|done| |intros; by eapply Hix|apply Hf].
    rewrite Hj Ej. f_equal. destruct Hf as [_ _ (j2 & y & Ej2 & Hoff & _)]. rewrite Ej in Ej2. injection Ej2 as <-. rewrite -Hoff. by destruct j.
  - intros c b Hc (j & x & Ej & Ex & Hb). apply (fl_index _ _ _ _ HF c); [done|]. exists j, x.
    by rewrite -Hj -(churn_inodes _ _ Hch).
  - intros b. rewrite Hcur. apply over_block_ok; [apply HF|]. apply Forall_forall. intros y Hy. by apply Hws.
  - intros n. rewrite (churn_junk _ _ Hch). apply HF.
  - rewrite Hn. apply HF.
Qed.

Definition empty_state : jstate := JState 0 0 [] 1.

Lemma no_replay : all_replay L (λ _, empty_state) = [].
Proof using Type. unfold all_replay. by induction (cpus L). Qed.

Lemma cleared_consistent d d' D :
  cpus L ≠ [] → (∀ b, block_ok (img (disk_map d) b)) → (∀ b, meta L b → img (disk_map d) b = D b) →
  all_cleared (cpus L) d d' → consistent L d' (λ _, empty_state) D.
Proof using HJA.
  intros Hne Hok HD [Hp Hok' Hj Hr]. destruct Hp as [[??]|Hp]; [done|]. rewrite (disk_map_clean _ Hp) in Hok', Hj, Hr. split.
  - intros b _. rewrite Hp. apply not_elem_of_nil.
  - split; [by apply Hok'|]. by rewrite Hp.
  - exact Hj.
  - intros. constructor.
  - rewrite no_replay. intros T1 T2 H. by apply elem_of_nil in H.
  - intros b Hb. rewrite no_replay. unfold replayed. rewrite -HD // -Hr //.
    intros c n Hc Hn ->. by apply (lo_meta _ (ja_layout _ _ HJA) c n).
Qed.

Lemma txns_meta txns y :
  Forall (txn_ok L) txns → (∃ T, T ∈ txns ∧ y ∈ t_blocks T) → meta L y.1 ∧ block_ok y.2.
Proof using Type.
  intros Hok (T & HT & Hy). rewrite Forall_forall in Hok. destruct (Hok _ HT) as (_ & _ & Hf). rewrite Forall_forall in Hf.
  destruct (Hf _ Hy) as (? & _ & ?). done.
Qed.

Lemma recover_run w m D :
  booted w m → recovers_to L m D → cpus L ≠ [] →
  ∃ w', run (recover_scalefs (cpus L)) w = Done () w' ∧ system L ja w' (λ _, empty_state) D ∧ ∀ b, meta L b → cur w' b = D b.
Proof using HJA.
  intros [Hd Hcur HF Hun] (txns & Hf & Hok & HD) Hne. unfold found_in in Hf. apply fmap_Some in Hf as (tss & Hs & ->).
  destruct (run_recover_all (cpus L) 0 w (λ _, 0) [] tss HF Hun) as (w1 & vec & P1 & Hr1 & Hrd1 & HF1 & Hun1 & Hg1 & _ & Hfd);
    [done|apply HJA|done|apply Z.lt_le_incl, HF| |].
  { rewrite -Hs. apply mapM_ext. intros c. apply scan_journal_ext. intros n. apply Hcur. }
  destruct (run_replay w1 (Disk m []) (f_next w) (f_next w1) vec (concat tss)) as (w2 & ws & Hr2 & Hrp & Hov & Hws); [by rewrite (rd_disks _ _ _ Hrd1)|done|done|].
  assert (files L ja w2 P1) as HF2 by (eapply files_replays; [done|done|]; intros y Hy; by eapply txns_meta, Hws).
  destruct (run_init_all (cpus L) w2 P1 _ HF2 (rp_disks _ _ _ _ Hrp)) as (w3 & d3 & Hr3 & Hd3 & Hac & HF3 & Hi3 & Hcur3 & Hsv3); [done|apply HJA|].
  exists w3. split_and!.
  - unfold recover_scalefs. rewrite (run_bind_done _ _ _ _ _ Hr1) (run_bind_done _ _ _ _ _ Hr2). exact Hr3.
  - assert (∀ b, img (disk_map (put (Disk m []) ws)) b = over ws (img m) b) as Eimg by (intros b; rewrite disk_map_put img_writes //).
    split.
    + destruct HF3 as [Hfl Hix Ho Hjk Hnx]. split; [|done..]. intros c Hc. specialize (Hfl c Hc). by rewrite decide_True in Hfl.
    + exists d3. split; [done|]. eapply cleared_consistent; [done| | |exact Hac]; intros b; rewrite Eimg.
      * apply over_block_ok; [rewrite -Hcur; apply HF|]. apply Forall_forall. intros y Hy. by eapply txns_meta, Hws.
      * intros Hb. rewrite Hov. by apply HD.
    + intros c Hc. apply (unlocked_same w1); [by apply Hun1| |].
      * rewrite Hi3. apply (churn_inodes _ _ (rp_churn _ _ _ _ Hrp)).
      * by rewrite Hsv3 (rp_journals _ _ _ _ Hrp).
  - intros b Hb. rewrite Hcur3 // (rp_cur _ _ _ _ Hrp) Hov -HD //. unfold replayed. apply over_ext. rewrite (rd_cur _ _ _ Hrd1). apply Hcur.
Qed.
End recover.
