(* ===== verification/FsAtomic.v ===== *)
(** * Commit, apply and recovery together

    The power may fail at any moment of a commit, of an apply or of the reset
    of a journal.  The next start replays the journals, and the file system is
    what it was before the transaction or what it is after it. *)

From S2P Require Import Prelude FsBytes FsWorld FsDisk FsTrans FsDedup FsWrite FsBlocks FsInode FsView FsJournal FsHeaders FsCommit FsScan FsRecords FsCrash FsSafe FsJournals FsRunning FsDurable FsRecover.

(** ** What does not touch the disks *)

Definition still (w w' : fs_world) : Prop := f_disks w' = f_disks w.

#[export] Instance still_preorder : PreOrder still.
Proof. split; [done|]. intros w1 w2 w3 H1 H2. unfold still in *. congruence. Qed.

Lemma passes_still {A} (p : fprog A) w (S : list disk → Prop) : keeps still p → S (f_disks w) → passes p w S.
Proof. intros Hk HS w' Hv. pose proof (visits_keeps still _ _ _ Hk Hv) as E. unfold still in E. by rewrite E. Qed.

Ltac still_act := apply keeps_act; intros ? ? ?; cbv zeta; repeat (case_match; try done); intros E; simplify_eq; done.

Lemma still_tr_get {A} (f : transaction → A) t : keeps still (tr_get f t).
Proof. still_act. Qed.
Lemma still_tr_upd t f : keeps still (tr_upd t f).
Proof. still_act. Qed.
Lemma still_jr_get {A} (f : journal → A) c : keeps still (jr_get f c).
Proof. still_act. Qed.
Lemma still_jr_upd c f : keeps still (jr_upd c f).
Proof. still_act. Qed.
Lemma still_fassert b : keeps still (fassert b).
Proof. unfold fassert. destruct b; [done|]. by apply keeps_act. Qed.
Lemma still_free_to p back b : keeps still (free_to p back b).
Proof. destruct p; still_act. Qed.

Create HintDb still.
#[export] Hint Resolve still_tr_get still_tr_upd still_jr_get still_jr_upd still_fassert still_free_to : still.

Ltac still :=
  repeat first [progress intros | solve [eauto 2 with still nocore] | apply keeps_fold_each | apply keeps_ret | apply keeps_bind].

Lemma still_post_process t : keeps still (post_process_transaction t).
Proof.
  unfold post_process_transaction, deduplicate_freeblock_list, deduplicate_freeinum_list, free_block, free_inode_number. still.
Qed.
Lemma still_notify_commit c ts : keeps still (notify_commit c ts).
Proof. unfold notify_commit. still. Qed.
Lemma still_notify_apply c ts : keeps still (notify_apply c ts).
Proof. unfold notify_apply. still. Qed.
#[export] Hint Resolve still_post_process still_notify_commit still_notify_apply : still.

Lemma same_trans_notify c ts w a w' : run (notify_apply c ts) w = Done a w' → f_trans w' = f_trans w.
Proof.
  unfold notify_apply. rewrite run_bind. unfold jr_get. rewrite run_act. destruct (f_journals w !! c) as [j|] eqn:Ej; [|done]. simpl.
  rewrite run_bind. destruct (applied_trans_tsc j <? ts); simpl; [|done]. unfold jr_upd. rewrite run_act Ej. by intros [= _ <-].
Qed.

(** ** The next start *)

Section atomic.
Context (L : layout) (ja : Z → list Z) (HJA : journals_at L ja) (Hcpus : cpus L ≠ []).

(** From every state that [p] passes through, a loss of power and the next
    start give one of the contents [Ds]. *)
Definition recoverable {A} (p : fprog A) (w : fs_world) (Ds : list (Z → list Z)) : Prop :=
  ∀ w1 m wb, visits p w w1 → (∃ d, f_disks w1 = [d] ∧ crash d m) → booted L ja wb m →
  ∃ w2 D, run (recover_scalefs (cpus L)) wb = Done () w2 ∧ D ∈ Ds ∧ system L ja w2 (λ _, empty_state) D ∧
    ∀ b, meta L b → cur w2 b = D b.

Lemma passes_recoverable {A} (p : fprog A) w Ds : passes p w (crash_gives L Ds) → recoverable p w Ds.
Proof using HJA Hcpus.
  intros Hp w1 m wb Hv (d & Hd & Hm) Hb. destruct (Hp w1 Hv) as (d' & Hd' & Hc). rewrite Hd in Hd'. injection Hd' as <-.
  destruct (Hc m Hm) as (D & HD & Hr). destruct (recover_run L ja HJA wb m D Hb Hr Hcpus) as (w2 & Hrun & Hsys & Hcur).
  by exists w2, D.
Qed.

Lemma core_gives w J D : core L ja w J D → crash_gives L [D] (f_disks w).
Proof using Type.
  intros [_ (d & Hd & HC)]. exists d. split; [done|]. intros m Hm. exists D. split; [by left|].
  eapply consistent_recovers; [exact HC|exact Hm].
Qed.

(** ** Commit *)

(** What the journal keeps of a transaction. *)
Definition txn_of (x : transaction) : txn := Txn (commit_tsc x) (db_writes (blocks x)).

Lemma commit_gives w J D c t x :
  system L ja w J D → f_trans w !! t = Some x → t < f_next w → disks_written x ⊆ {[0]} → may_commit L J c (txn_of x) →
  passes (commit_transaction_to_disk c t) w (crash_gives L [D; over (t_blocks (txn_of x)) D]).
Proof using HJA.
  intros HS Ht Hlt Hdw HT. destruct (commit_run L ja HJA w J D c t x HS Ht Hlt Hdw HT) as (w' & Hr & HS' & _).
  unfold commit_transaction_to_disk. apply passes_bind; [by eapply commit_passes|].
  intros [] w1 Hr1. rewrite Hr in Hr1. injection Hr1 as <-. apply passes_still; [still|].
  destruct (core_gives _ _ _ (system_core _ _ _ _ _ HS')) as (d & Hd & Hc). exists d. split; [done|].
  intros m Hm. destruct (Hc m Hm) as (E & HE & Hrec). exists E. split; [|done]. right. exact HE.
Qed.


(** ** Apply *)

(** The transaction is told to have been applied, and deleted. *)
Lemma passes_drop c t w x (S : list disk → Prop) :
  f_trans w !! t = Some x → bqueue x = None → S (f_disks w) →
  passes (ts ← tr_get last_group_txn_tsc t; notify_apply c ts;; delete_transaction t) w S.
Proof using Type.
  intros Hx Hq HS. apply passes_bind; [apply passes_still; [still|done]|].
  intros ts w1 Hr1. rewrite (run_tr_get _ _ _ _ Hx) in Hr1. injection Hr1 as <- <-.
  apply passes_bind; [apply passes_still; [still|done]|]. intros [] w2 Hr2.
  pose proof (keeps_run still _ _ _ _ (still_notify_apply _ _) Hr2) as Ed. unfold still in Ed.
  assert (f_trans w2 = f_trans w) as Et by (eapply same_trans_notify; exact Hr2).
  unfold delete_transaction. apply passes_bind; [apply passes_still; [still|by rewrite Ed]|].
  intros q w3 Hr3. rewrite -Et in Hx. rewrite (run_tr_get _ _ _ _ Hx) Hq in Hr3. injection Hr3 as <- <-.
  apply passes_still; [|by rewrite Ed]. apply keeps_bind; [apply keeps_ret|intros _]. still_act.
Qed.

Lemma apply_gives w J D c t x G Tl :
  core L ja w J D → f_trans w !! t = Some x → t < f_next w → bqueue x = None → disks_written x ⊆ {[0]} → txq_id x = c →
  commit_tsc x = t_ts Tl → 0 ≤ t_ts Tl < 2 ^ 64 → may_apply L J c G Tl (db_writes (dedup_blocks (blocks x))) →
  blocks x ≠ [] → Forall (λ b, small (blocknum b)) (blocks x) →
  passes (apply_transaction_to_disk c t) w (crash_gives L [D]).
Proof using HJA.
  intros HS Ht Hlt Hq Hdw Hcpu Hts H64 HA Hne Hsm.
  destruct (apply_run L ja HJA w J D c t x G Tl) as (w' & x' & Hr & HS' & Hx' & Hq' & _); try done.
  unfold apply_transaction_to_disk. apply passes_bind; [by eapply apply_passes|].
  intros [] w1 Hr1. rewrite Hr in Hr1. injection Hr1 as <-.
  eapply passes_drop; [done..|]. by eapply core_gives.
Qed.


(** ** Reset *)


(** ** Histories *)

(** What happens in memory: buffers, bit vectors, transactions and other files
    may change, but not the disk, the positions in the journals or the blocks
    of addresses of their files. *)
Record in_memory (w w' : fs_world) : Prop := InMemory {
  im_disks : f_disks w' = f_disks w;
  im_journal : ∀ c j, c ∈ cpus L → f_journals w !! c = Some j →
    ∃ j', f_journals w' !! c = Some j' ∧ sv6_journal j' = sv6_journal j ∧ current_off j' = current_off j ∧
      f_inodes w' !! sv6_journal j = f_inodes w !! sv6_journal j;
  im_index : ∀ c b, c ∈ cpus L → index w c b → cur w' b = cur w b;
  im_ok : ∀ b, block_ok (cur w' b);
  im_junk : ∀ n, block_ok (f_junk w' n);
  im_next : 0 < f_next w';
}.

Lemma jfile_memory w w' c pos : in_memory w w' → c ∈ cpus L → jfile w c (ja c) pos → jfile w' c (ja c) pos.
Proof using Type.
  intros HM Hc [Hd Hp (j & x & Hj & Ho & Hx & Hdev & Hty & Hsz & Hb)].
  destruct (im_journal _ _ HM c j Hc Hj) as (j' & Hj' & Es & Eo & Ei).
  assert (∀ i, i = 10%nat ∨ i = 11%nat → cur w' (addrs x !!! i) = cur w (addrs x !!! i)) as Ea.
  { intros i Hi. apply (im_index _ _ HM c); [done|]. exists j, x. destruct Hi as [-> | ->]; auto. }
  split; [eapply one_disk_eq; [apply HM|done]|done|]. exists j', x. rewrite Es Eo Ei. split_and!; try done.
  intros n Hn. destruct (Hb n Hn) as (Hpo & Hfb & Hne).
  assert (file_block w' x n = file_block w x n) as Efb.
  { unfold file_block. destruct (Z.ltb_spec n NDIRECT); [done|]. unfold jlen in Hn.
    rewrite (proj2 (Z.ltb_lt n (NDIRECT + NINDIRECT))); [lia|]. unfold ptr_at. by rewrite Ea; [left|]. }
  split_and!; [|by rewrite Efb|done]. unfold path_ok in *. rewrite Efb. unfold ptr_at. by rewrite Ea; [right|].
Qed.

Lemma system_memory w w' J D : in_memory w w' → system L ja w J D → system L ja w' J D.
Proof using Type.
  intros HM [HF HD Hu]. split; [split| |].
  - intros c Hc. eapply jfile_memory; [done..|]. by apply HF.
  - intros c b Hc (j' & x & Hj' & Hx & Hb). destruct (files_start _ _ _ _ _ HF Hc) as (j & Hj & _).
    destruct (im_journal _ _ HM c j Hc Hj) as (j2 & Hj2 & Es & _ & Ei). rewrite Hj' in Hj2. injection Hj2 as <-.
    apply (fl_index _ _ _ _ HF c _ Hc). exists j, x. by rewrite -Ei -Es.
  - apply HM.
  - apply HM.
  - apply HM.
  - by rewrite (im_disks _ _ HM).
  - intros c Hc. destruct (Hu c Hc) as (j & x & Hj & Hx & Hb & Hr).
    destruct (im_journal _ _ HM c j Hc Hj) as (j' & Hj' & Es & _ & Ei). exists j', x. by rewrite Es Ei.
Qed.

(** What a transaction [t] needs to be committed, and a group to be applied. *)
Definition committable (w : fs_world) (J : Z → jstate) (c t : Z) (x : transaction) : Prop :=
  f_trans w !! t = Some x ∧ t < f_next w ∧ disks_written x ⊆ {[0]} ∧ may_commit L J c (txn_of x).
Definition applicable (w : fs_world) (J : Z → jstate) (c t : Z) (Tl : txn) : Prop :=
  ∃ x G, f_trans w !! t = Some x ∧ t < f_next w ∧ bqueue x = None ∧ disks_written x ⊆ {[0]} ∧ txq_id x = c ∧
    commit_tsc x = t_ts Tl ∧ 0 ≤ t_ts Tl < 2 ^ 64 ∧ may_apply L J c G Tl (db_writes (dedup_blocks (blocks x))) ∧
    blocks x ≠ [] ∧ Forall (λ b, small (blocknum b)) (blocks x).

(** A state [w1] in which the power fails: the system is at rest in [w], or one of
    its operations is under way; [p] is the transaction being committed. *)
Inductive interrupted (w : fs_world) (J : Z → jstate) : fs_world → list txn → Prop :=
| in_rest : interrupted w J w []
| in_commit c t x w1 : committable w J c t x → visits (commit_transaction_to_disk c t) w w1 → interrupted w J w1 [txn_of x]
| in_apply c t Tl w1 : applicable w J c t Tl → visits (apply_transaction_to_disk c t) w w1 → interrupted w J w1 []
| in_reset c j w1 : c ∈ cpus L → f_journals w !! c = Some j → to_replay (J c) = [] →
    last_applied_commit_tsc j = j_skip (J c) → 0 ≤ j_skip (J c) < 2 ^ 64 → visits (reset_journal c) w w1 → interrupted w J w1 [].

Definition contents (D0 : Z → list Z) (l : list txn) : Z → list Z := over (concat (t_blocks <$> l)) D0.

(** The states [w] of the system with journals [J] after the transactions [l]
    have been committed, from the contents [D0]; the power may fail and come
    back any number of times. *)
Inductive history (D0 : Z → list Z) : fs_world → (Z → jstate) → list txn → Prop :=
| h_start w J : system L ja w J D0 → history D0 w J []
| h_memory w w' J l : history D0 w J l → in_memory w w' → history D0 w' J l
| h_commit w w' J l c t x :
    history D0 w J l → committable w J c t x → run (write_journal_commit c t) w = Done () w' →
    history D0 w' (set_journal J c (append (J c) (txn_of x))) (l ++ [txn_of x])
| h_apply w w' J l c t Tl :
    history D0 w J l → applicable w J c t Tl → run (apply_trans_on_disk t) w = Done () w' →
    history D0 w' (set_journal J c ((J c) <| j_skip := t_ts Tl |>)) l
| h_reset w w' J l c j :
    history D0 w J l → c ∈ cpus L → f_journals w !! c = Some j → to_replay (J c) = [] →
    last_applied_commit_tsc j = j_skip (J c) → 0 ≤ j_skip (J c) < 2 ^ 64 → run (reset_journal c) w = Done () w' →
    history D0 w' (set_journal J c (emptied (J c))) l
| h_crash w J l w1 p l' m wb w' :
    history D0 w J l → interrupted w J w1 p → (∃ d, f_disks w1 = [d] ∧ crash d m) → booted L ja wb m →
    run (recover_scalefs (cpus L)) wb = Done () w' → l' = l ∨ l' = l ++ p → (∀ b, meta L b → cur w' b = contents D0 l' b) →
    history D0 w' (λ _, empty_state) l'.

Lemma contents_snoc D0 l T b : contents D0 (l ++ [T]) b = over (t_blocks T) (contents D0 l) b.
Proof using Type. unfold contents. by rewrite fmap_app concat_app /= app_nil_r over_app. Qed.

Lemma system_contents w J D D' : (∀ b, meta L b → D' b = D b) → system L ja w J D → system L ja w J D'.
Proof using Type.
  intros E [HF (d & Hd & [? ? ? ? ? Hdata]) Hu]. split; [done| |done]. exists d. split; [done|]. split; try done.
  intros b Hb. rewrite E //. by apply Hdata.
Qed.

Lemma interrupted_gives w J D w1 p :
  system L ja w J D → interrupted w J w1 p → crash_gives L [D; over (concat (t_blocks <$> p)) D] (f_disks w1).
Proof using HJA.
  intros HS HI.
  assert (∀ ds D', crash_gives L [D] ds → crash_gives L [D; D'] ds) as Hw.
  { intros ds D' (d & Hd & Hc). exists d. split; [done|]. intros m Hm. destruct (Hc m Hm) as (E & HE & ?). exists E. split; [|done].
    apply list_elem_of_singleton in HE as ->. by left. }
  destruct HI as [|c t x w1 (Ht & Hlt & Hdw & HT) Hv|c t Tl w1 (x & G & Ht & Hlt & Hq & Hdw & Hcpu & Hts & H64 & HA & Hne & Hsm) Hv|
    c j w1 Hc Hj Hn Hl H64 Hv].
  - apply Hw. by eapply core_gives, system_core.
  - rewrite /= app_nil_r. by eapply commit_gives.
  - apply Hw. eapply (apply_gives w J D c t x G Tl); try done. by apply system_core.
  - apply Hw. destruct (reset_parts L ja HJA w J D c j) as (_ & _ & _ & Hp & _); try done; [by apply system_core|]. by apply Hp.
Qed.

(** The power fails, and comes back. *)
Lemma interrupted_recovers w J D w1 p m wb :
  system L ja w J D → interrupted w J w1 p → (∃ d, f_disks w1 = [d] ∧ crash d m) → booted L ja wb m →
  ∃ w2 E, run (recover_scalefs (cpus L)) wb = Done () w2 ∧ (E = D ∨ E = over (concat (t_blocks <$> p)) D) ∧
    system L ja w2 (λ _, empty_state) E ∧ ∀ b, meta L b → cur w2 b = E b.
Proof using HJA Hcpus.
  intros HS HI (d & Hd & Hm) Hb. destruct (interrupted_gives _ _ _ _ _ HS HI) as (d' & Hd' & Hc). rewrite Hd in Hd'. injection Hd' as <-.
  destruct (Hc m Hm) as (E & HE & Hr). destruct (recover_run L ja HJA wb m E Hb Hr Hcpus) as (w2 & Hrun & Hsys & Hcur).
  exists w2, E. split_and!; [done| |done|done]. apply elem_of_cons in HE as [->|HE]; [by left|]. apply list_elem_of_singleton in HE. by right.
Qed.

Lemma history_system D0 w J l : history D0 w J l → system L ja w J (contents D0 l).
Proof using HJA Hcpus.
  induction 1 as [w J HS|w w' J l H IH HM|w w' J l c t x H IH (Ht & Hlt & Hdw & HT) Hr|
    w w' J l c t Tl H IH (x & G & Ht & Hlt & Hq & Hdw & Hcpu & Hts & H64 & HA & Hne & Hsm) Hr|
    w w' J l c j H IH Hc Hj Hn Hl H64 Hr|w J l w1 p l' m wb w' H IH HI Hm Hb Hr Hl' Hcur].
  - done.
  - by eapply system_memory.
  - destruct (commit_run L ja HJA w J _ c t x IH Ht Hlt Hdw HT) as (w2 & Hr2 & HS & _). rewrite Hr in Hr2. injection Hr2 as <-.
    eapply system_contents; [|exact HS]. intros b _. apply contents_snoc.
  - destruct (apply_run L ja HJA w J (contents D0 l) c t x G Tl) as (w2 & x' & Hr2 & [HF HD] & _ & _ & Hu); try done; [by apply system_core|].
    rewrite Hr in Hr2. injection Hr2 as <-. split; [done..|]. intros c' Hc'. by apply Hu, IH.
  - destruct (reset_parts L ja HJA w J (contents D0 l) c j) as (w2 & Hr2 & [HF HD] & _ & Hu); try done; [by apply system_core|].
    rewrite Hr in Hr2. injection Hr2 as <-. split; [done..|]. intros c' Hc'. by apply Hu, IH.
  - destruct (interrupted_recovers _ _ _ _ _ _ _ IH HI Hm Hb) as (w2 & E & Hr2 & _ & HS & HE). rewrite Hr in Hr2. injection Hr2 as <-.
    eapply system_contents; [|exact HS]. intros b Hb'. by rewrite -Hcur // -HE.
Qed.

End atomic.
