(* ===== verification/FsAlloc.v ===== *)
(** * The allocators of blocks and inode numbers

    The invariant of a bitmap in memory: the lists of the CPUs and the reserve
    hold exactly the free entries that have been handed out to them.  Allocation
    takes one of these entries, or panics because there is none; freeing
    gives an entry back to the list it came from.  [M] are the entries that
    have been handed out; the others are in no list before they are freed. *)

From S2P Require Import Prelude FsBytes FsWorld FsDisk FsTrans FsBlocks.

(** ** The invariant *)

(** The list an entry belongs to. *)
Definition home (x : free_bit) : option Z := if fb_cpu x <? NCPU then Some (fb_cpu x) else None.

(** Entry [b] is free. *)
Definition free_at (bm : freeblock_bitmap) (b : Z) : Prop := ∃ x, bit_vector bm !! Z.to_nat b = Some x ∧ is_free x = true.

Record bitmap_ok (M : Z → Prop) (bm : freeblock_bitmap) : Prop := BitmapOk {
  bo_list : ∀ c b, b ∈ list_of c bm ↔ M b ∧ ∃ x, bit_vector bm !! Z.to_nat b = Some x ∧ is_free x = true ∧ home x = c;
  bo_nodup : ∀ c, NoDup (list_of c bm);
  bo_pos : ∀ b, M b → 0 ≤ b;
  bo_in : ∀ b, M b → is_Some (bit_vector bm !! Z.to_nat b);
  bo_home : ∀ b x c, M b → bit_vector bm !! Z.to_nat b = Some x → home x = Some c → 0 ≤ c;
}.

Lemma list_of_set c c' l bm : list_of c' (set_list c l bm) = if decide (c' = c) then l else list_of c' bm.
Proof.
  destruct c as [c|], c' as [c'|]; simpl; repeat case_decide; simplify_eq; try done.
  - by rewrite lookup_insert_eq.
  - rewrite lookup_insert_ne //. congruence.
Qed.

Lemma bits_set c l bm : bit_vector (set_list c l bm) = bit_vector bm.
Proof. by destruct c. Qed.

Lemma list_of_bits c v bm : list_of c (bm <| bit_vector := v |>) = list_of c bm.
Proof. by destruct c. Qed.

(** Entry [b] changes to [y], and its list to [l]. *)
Definition change (c : option Z) (l : list Z) (b : Z) (y : free_bit) (bm : freeblock_bitmap) : freeblock_bitmap :=
  set_list c l (bm <| bit_vector ::= <[Z.to_nat b := y]> |>).

Lemma change_list c l b y bm c' : list_of c' (change c l b y bm) = if decide (c' = c) then l else list_of c' bm.
Proof. unfold change. rewrite list_of_set. case_decide; [done|]. apply (list_of_bits c'). Qed.

Lemma change_bit c l b y bm b' x :
  bit_vector bm !! Z.to_nat b = Some x → 0 ≤ b → 0 ≤ b' →
  bit_vector (change c l b y bm) !! Z.to_nat b' = if decide (b' = b) then Some y else bit_vector bm !! Z.to_nat b'.
Proof.
  intros Hx Hb Hb'. unfold change. rewrite bits_set.
  change (bit_vector (bm <| bit_vector ::= <[Z.to_nat b := y]> |>)) with (<[Z.to_nat b := y]> (bit_vector bm)).
  case_decide as E; [subst b'; rewrite list_lookup_insert_eq //; by eapply lookup_lt_Some|].
  rewrite list_lookup_insert_ne //. lia.
Qed.

Section bitmap.
Context (M : Z → Prop) (bm : freeblock_bitmap) (HB : bitmap_ok M bm).

(** Taking the first entry of a list. *)
Lemma take_ok c b l :
  list_of c bm = b :: l →
  ∃ x, bit_vector bm !! Z.to_nat b = Some x ∧ is_free x = true ∧ M b ∧
    let bm' := change c l b (x <| is_free := false |>) bm in
    bitmap_ok M bm' ∧ ∀ b', M b' → free_at bm' b' ↔ free_at bm b' ∧ b' ≠ b.
Proof using HB.
  intros El. pose proof (bo_nodup _ _ HB c) as Hnd. rewrite El in Hnd. apply NoDup_cons in Hnd as [Hb Hnd].
  destruct (proj1 (bo_list _ _ HB c b)) as (HM & x & Hx & Hf & Hh); [rewrite El; by left|].
  exists x. split_and!; [done..|]. cbv zeta. set (y := x <| is_free := false |>).
  pose proof (bo_pos _ _ HB) as Hpos.
  split; [split|].
  - intros c' b'. rewrite change_list. split.
    + intros Hin. assert (b' ∈ list_of c' bm ∧ b' ≠ b) as [Hin' Hne].
      { case_decide as Ec; [subst c'; rewrite El; split; [by right|congruence]|]. split; [done|]. intros ->.
        apply (bo_list _ _ HB) in Hin as (_ & x' & Hx' & _ & Hh'). rewrite Hx in Hx'. injection Hx' as <-. congruence. }
      apply (bo_list _ _ HB) in Hin' as (HM' & x' & Hx' & ?). split; [done|]. exists x'.
      rewrite (change_bit _ _ _ _ _ _ x) ?decide_False //; auto.
    + intros (HM' & x' & Hx' & Hf' & Hh'). rewrite (change_bit _ _ _ _ _ _ x) in Hx'; auto.
      destruct (decide (b' = b)) as [E|E]; [by injection Hx' as <-|]. assert (b' ∈ list_of c' bm) as Hin by (apply (bo_list _ _ HB); eauto).
      case_decide as Ec; [|done]. rewrite Ec El in Hin. by apply elem_of_cons in Hin as [?|?].
  - intros c'. rewrite change_list. case_decide; [done|apply HB].
  - done.
  - intros b' HM'. rewrite (change_bit _ _ _ _ _ _ x); auto. case_decide; [done|by apply (bo_in _ _ HB)].
  - intros b' x' c' HM' Hx' Hh'. rewrite (change_bit _ _ _ _ _ _ x) in Hx'; auto. case_decide as E; [|by eapply (bo_home _ _ HB)].
    subst b'. injection Hx' as <-. eapply (bo_home _ _ HB); [exact HM|exact Hx|done].
  - intros b' HM'. unfold free_at. rewrite (change_bit _ _ _ _ _ _ x); auto. case_decide as E.
    + subst b'. split; [by intros (z & [= <-] & ?)|by intros [_ ?]].
    + by split; [intros ?; split|intros [? _]].
Qed.

(** Giving back an entry that is in use. *)
Lemma give_ok b x (back : bool) :
  bit_vector bm !! Z.to_nat b = Some x → is_free x = false → 0 ≤ b → (∀ c, home x = Some c → 0 ≤ c) →
  let l := list_of (home x) bm in
  let bm' := change (home x) (if back then l ++ [b] else b :: l) b (x <| is_free := true |>) bm in
  bitmap_ok (λ b', M b' ∨ b' = b) bm' ∧ ∀ b', 0 ≤ b' → free_at bm' b' ↔ free_at bm b' ∨ b' = b.
Proof using HB.
  intros Hx Hf Hb Hc. cbv zeta. set (y := x <| is_free := true |>). set (l := if back then _ else _).
  assert (∀ b', b' ∈ l ↔ b' ∈ list_of (home x) bm ∨ b' = b) as Hl.
  { intros b'. unfold l. destruct back; [rewrite elem_of_app list_elem_of_singleton; tauto|rewrite elem_of_cons; tauto]. }
  assert (∀ c, b ∉ list_of c bm) as Hout.
  { intros c H. apply (bo_list _ _ HB) in H as (_ & x' & Hx' & Hf' & _). rewrite Hx in Hx'. injection Hx' as <-. congruence. }
  assert (∀ b', M b' ∨ b' = b → 0 ≤ b') as Hpos by (intros b' [?| ->]; [by apply (bo_pos _ _ HB)|done]).
  split; [split|].
  - intros c' b'. rewrite change_list. split.
    + intros Hin. assert (b' ∈ list_of c' bm ∨ c' = home x ∧ b' = b) as [Hin'|[-> ->]].
      { case_decide; [subst c'|by left]. apply Hl in Hin as [?|?]; auto. }
      * assert (b' ≠ b) as Hne by (intros ->; by eapply Hout).
        apply (bo_list _ _ HB) in Hin' as (HM' & x' & ?). split; [by left|]. exists x'. rewrite (change_bit _ _ _ _ _ _ x) ?decide_False //; auto.
      * split; [by right|]. exists y. rewrite (change_bit _ _ _ _ _ _ x) ?decide_True //.
    + intros (HM' & x' & Hx' & Hf' & Hh'). rewrite (change_bit _ _ _ _ _ _ x) in Hx'; auto. destruct (decide (b' = b)) as [E|E].
      * subst b'. injection Hx' as <-. rewrite decide_True; [done|]. apply Hl. by right.
      * destruct HM' as [HM'|?]; [|done]. assert (b' ∈ list_of c' bm) as Hin by (apply (bo_list _ _ HB); eauto).
        case_decide as Ec; [|done]. apply Hl. left. by rewrite -Ec.
  - intros c'. rewrite change_list. case_decide; [|apply HB]. unfold l.
    destruct back; [|apply NoDup_cons; split; [apply Hout|apply HB]].
    apply NoDup_app. split_and!; [apply HB| |apply NoDup_singleton]. intros z Hz ->%list_elem_of_singleton. by eapply Hout.
  - done.
  - intros b' HM'. rewrite (change_bit _ _ _ _ _ _ x); auto. case_decide; [done|]. destruct HM' as [HM'|?]; [|done]. by apply (bo_in _ _ HB).
  - intros b' x' c' HM' Hx' Hh'. rewrite (change_bit _ _ _ _ _ _ x) in Hx'; auto. case_decide as E.
    + injection Hx' as <-. by apply Hc.
    + destruct HM' as [HM'|?]; [|done]. by eapply (bo_home _ _ HB).
  - intros b' Hb'. unfold free_at. rewrite (change_bit _ _ _ _ _ _ x) //. case_decide as E.
    + subst b'. split; [by right|]. intros _. by exists y.
    + split; [by left|by intros [?|?]].
Qed.
End bitmap.

(** ** Allocation *)

(** Entry [b] is taken from [bm], which leaves [bm']. *)
Definition takes (M : Z → Prop) (bm : freeblock_bitmap) (b : Z) (bm' : freeblock_bitmap) : Prop :=
  M b ∧ free_at bm b ∧ bitmap_ok M bm' ∧ ∀ b', M b' → free_at bm' b' ↔ free_at bm b' ∧ b' ≠ b.

Section alloc.
Context (p : pool) (M : Z → Prop) (w : fs_world) (HB : bitmap_ok M (bitmap_of p w)).

Lemma run_take_first c :
  (list_of c (bitmap_of p w) = [] ∧ run (take_first p c) w = Done None w) ∨
  ∃ b bm', run (take_first p c) w = Done (Some b) (set_bitmap p bm' w) ∧ takes M (bitmap_of p w) b bm'.
Proof using HB.
  unfold take_first. rewrite run_act. destruct (list_of c (bitmap_of p w)) as [|b l] eqn:El; [by left|]. right.
  destruct (take_ok _ _ HB c b l El) as (x & Hx & Hf & HM & Hok & Hfree). exists b. eexists. rewrite Hx Hf. split; [done|].
  split_and!; [done|by exists x|exact Hok|exact Hfree].
Qed.

(** The lists of the other CPUs, from [cpu + k] on. *)
Definition try_others (cpu : Z) (fallback_cpu : Z) : fprog (Z + option Z) :=
  if fallback_cpu mod NCPU =? cpu then mret (inr None) else
  r ← take_first p (Some (fallback_cpu mod NCPU));
  mret (match r with Some b => inr (Some b) | None => inl (fallback_cpu + 1) end).

Lemma run_others cpu fuel k :
  0 ≤ cpu < NCPU → 0 < k ≤ NCPU → NCPU - k < Z.of_nat fuel →
  (∀ c, 0 ≤ c < NCPU → (∃ i, 0 < i < k ∧ c = (cpu + i) mod NCPU) → list_of (Some c) (bitmap_of p w) = []) →
  (run (loop fuel (try_others cpu) (cpu + k)) w = Done None w ∧
     ∀ c, 0 ≤ c < NCPU → c ≠ cpu → list_of (Some c) (bitmap_of p w) = []) ∨
  ∃ b bm', run (loop fuel (try_others cpu) (cpu + k)) w = Done (Some b) (set_bitmap p bm' w) ∧ takes M (bitmap_of p w) b bm'.
Proof using HB.
  intros Hcpu. revert k. induction fuel as [|fuel IH]; intros k Hk Hfuel Hprev; [lia|].
  pose proof (Z.mod_pos_bound (cpu + k) NCPU) as Hm.
  destruct (decide ((cpu + k) mod NCPU = cpu)) as [E|E].
  - left. assert (k = NCPU) as ->.
    { unfold NCPU in *. pose proof (Z.div_mod (cpu + k) 16). assert ((cpu + k) / 16 = 0 ∨ (cpu + k) / 16 = 1) as [?|?]; [|lia|lia].
      pose proof (Z.div_pos (cpu + k) 16). pose proof (Z.div_lt_upper_bound (cpu + k) 16 2). lia. }
    split; [apply run_loop_exit; unfold try_others; by rewrite (proj2 (Z.eqb_eq _ _) E)|]. intros c Hc Hne. apply Hprev; [done|].
    exists ((c - cpu) mod NCPU). unfold NCPU in *. rewrite Zplus_mod_idemp_r. replace (cpu + (c - cpu)) with c by lia.
    rewrite (Z.mod_small c) //. split; [|done]. pose proof (Z.mod_pos_bound (c - cpu) 16).
    assert ((c - cpu) mod 16 ≠ 0); [|lia]. intros E0. apply Z.mod_divide in E0 as [q Hq]; [lia|lia].
  - destruct (run_take_first (Some ((cpu + k) mod NCPU))) as [[El Hr]|(b & bm' & Hr & Ht)].
    + assert (k < NCPU) as Hk'.
      { destruct (decide (k = NCPU)) as [->|]; [|lia]. exfalso. apply E. unfold NCPU in *.
        rewrite -(Z.mul_1_l 16) Z_mod_plus_full Z.mod_small; lia. }
      destruct (IH (k + 1)) as [[Hr' Hall]|(b & bm' & Hr' & Ht)]; [lia|lia| | |].
      * intros c Hc (i & Hi & ->). destruct (decide (i = k)) as [->|]; [done|]. apply Hprev; [done|]. exists i. split; [lia|done].
      * left. split; [|done]. rewrite (run_loop_again _ _ _ _ (cpu + k + 1) w).
        { unfold try_others. rewrite (proj2 (Z.eqb_neq _ _) E) (run_bind_done _ _ _ _ _ Hr). done. }
        by rewrite -Z.add_assoc.
      * right. exists b, bm'. split; [|done]. rewrite (run_loop_again _ _ _ _ (cpu + k + 1) w).
        { unfold try_others. rewrite (proj2 (Z.eqb_neq _ _) E) (run_bind_done _ _ _ _ _ Hr). done. }
        by rewrite -Z.add_assoc.
    + right. exists b, bm'. split; [|done]. apply run_loop_exit. unfold try_others. rewrite (proj2 (Z.eqb_neq _ _) E) (run_bind_done _ _ _ _ _ Hr). done.
Qed.
End alloc.

(** Allocation from the own list, the reserve or another CPU's list. *)
Lemma run_alloc_from p M w :
  bitmap_ok M (bitmap_of p w) → 0 ≤ f_cpu w < NCPU →
  (∃ b bm', run (alloc_from p) w = Done b (set_bitmap p bm' w) ∧ takes M (bitmap_of p w) b bm') ∨
  (run (alloc_from p) w = Fault ∧ ∀ b, M b → ¬ free_at (bitmap_of p w) b).
Proof.
  intros HB Hcpu. unfold alloc_from. rewrite (run_bind_done _ _ _ _ _ (run_frd _ _)).
  destruct (run_take_first p M w HB (Some (f_cpu w))) as [[El1 Hr1]|(b & bm' & Hr1 & Ht)];
    rewrite (run_bind_done _ _ _ _ _ Hr1); [|left; by exists b, bm'].
  destruct (run_take_first p M w HB None) as [[El2 Hr2]|(b & bm' & Hr2 & Ht)];
    rewrite (run_bind_done _ _ _ _ _ Hr2); [|left; by exists b, bm'].
  destruct (run_others p M w HB (f_cpu w) (Z.to_nat NCPU) 1 Hcpu) as [[Hr3 Hall]|(b & bm' & Hr3 & Ht)];
    [done|done|intros c _ (i & Hi & _); lia| |].
  - right. rewrite (run_bind_done _ _ _ _ _ Hr3). split; [done|]. intros b HM (x & Hx & Hf).
    assert (b ∈ list_of (home x) (bitmap_of p w)) as Hin by (apply (bo_list _ _ HB); eauto).
    destruct (home x) as [c|] eqn:Eh; [|rewrite El2 in Hin; by apply elem_of_nil in Hin].
    destruct (decide (c = f_cpu w)) as [->|Hne]; [rewrite El1 in Hin; by apply elem_of_nil in Hin|].
    rewrite Hall in Hin; [|done|by apply elem_of_nil in Hin]. split; [by eapply (bo_home _ _ HB)|].
    unfold home in Eh. destruct (Z.ltb_spec (fb_cpu x) NCPU); [|done]. by injection Eh as <-.
  - left. rewrite (run_bind_done _ _ _ _ _ Hr3). by exists b, bm'.
Qed.

Lemma run_free_to p M w back b x :
  bitmap_ok M (bitmap_of p w) → bit_vector (bitmap_of p w) !! Z.to_nat b = Some x → 0 ≤ b → 0 ≤ fb_cpu x →
  (is_free x = true ∧ run (free_to p back b) w = Fault) ∨
  (is_free x = false ∧ ∃ bm', run (free_to p back b) w = Done () (set_bitmap p bm' w) ∧ bitmap_ok (λ b', M b' ∨ b' = b) bm' ∧
     ∀ b', 0 ≤ b' → free_at bm' b' ↔ free_at (bitmap_of p w) b' ∨ b' = b).
Proof.
  intros HB Hx Hb Hc. unfold free_to. rewrite run_act Hx. destruct (is_free x) eqn:Hf; [by left|]. right. split; [done|].
  destruct (give_ok _ _ HB b x back Hx Hf Hb) as [Hok Hfree].
  { intros c Hh. unfold home in Hh. destruct (fb_cpu x <? NCPU); [|done]. by injection Hh as <-. }
  eexists. split; [done|]. by split.
Qed.

Lemma bitmap_of_set p bm w : bitmap_of p (set_bitmap p bm w) = bm.
Proof. by destruct p. Qed.

(** ** Clients *)

Lemma bitmap_ok_ext M M' bm : (∀ b, M' b ↔ M b) → bitmap_ok M bm → bitmap_ok M' bm.
Proof.
  intros E [Hl Hn Hp Hi Hh]. split; [|done| | |].
  - intros c b. by rewrite E.
  - intros b HM%E. by apply Hp.
  - intros b HM%E. by apply Hi.
  - intros b x c HM%E. by apply Hh.
Qed.

Lemma home_cpu M bm b x : bitmap_ok M bm → M b → bit_vector bm !! Z.to_nat b = Some x → 0 ≤ fb_cpu x.
Proof.
  intros HB HM Hx. pose proof (λ c, bo_home _ _ HB b x c HM Hx) as H. unfold home in H.
  destruct (Z.ltb_spec (fb_cpu x) NCPU) as [|Hge]; [by apply H|]. unfold NCPU in Hge. lia.
Qed.

Lemma set_cpu_bitmap p w c : bitmap_of p (w <| f_cpu := c |>) = bitmap_of p w.
Proof. by destruct p. Qed.

(** What the CPUs do with a pool from the state [w0] on: the entries [l] have
    been allocated and not given back. *)
Inductive client (p : pool) (w0 : fs_world) : fs_world → list Z → Prop :=
| cl_start : client p w0 w0 []
| cl_take w l cpu b w' :
    client p w0 w l → 0 ≤ cpu < NCPU → run (alloc_from p) (w <| f_cpu := cpu |>) = Done b w' → client p w0 w' (b :: l)
| cl_give w l back b w' :
    client p w0 w l → b ∈ l → run (free_to p back b) w = Done () w' → client p w0 w' (filter (λ b', b' ≠ b) l).

(** The state of a pool whose entries [l] are in use. *)
Record in_use (p : pool) (M : Z → Prop) (w0 w : fs_world) (l : list Z) : Prop := InUse {
  iu_ok : bitmap_ok M (bitmap_of p w);
  iu_nodup : NoDup l;
  iu_free : ∀ b, M b → free_at (bitmap_of p w) b ↔ free_at (bitmap_of p w0) b ∧ b ∉ l;
  iu_used : ∀ b, b ∈ l → M b ∧ free_at (bitmap_of p w0) b;
}.

Section client.
Context (p : pool) (M : Z → Prop) (w0 w : fs_world) (l : list Z) (HU : in_use p M w0 w l).

Lemma client_take cpu :
  0 ≤ cpu < NCPU →
  (∃ b w', run (alloc_from p) (w <| f_cpu := cpu |>) = Done b w' ∧ b ∉ l ∧ in_use p M w0 w' (b :: l)) ∨
  (run (alloc_from p) (w <| f_cpu := cpu |>) = Fault ∧ ∀ b, M b → free_at (bitmap_of p w0) b → b ∈ l).
Proof using HU.
  intros Hcpu. destruct HU as [HB Hnd Hfree Hused].
  destruct (run_alloc_from p M (w <| f_cpu := cpu |>)) as [(b & bm' & Hr & HM & Hf & HB' & Hf')|[Hr Hnone]];
    [by rewrite set_cpu_bitmap|done|left|right].
  - rewrite set_cpu_bitmap in Hf, Hf'. pose proof (proj1 (Hfree b HM) Hf) as [Hf0 Hout].
    exists b. eexists. split; [exact Hr|]. split; [done|]. split; rewrite ?bitmap_of_set.
    + done.
    + by apply NoDup_cons.
    + intros b' HM'. rewrite Hf' // Hfree // not_elem_of_cons. tauto.
    + intros b' [->|Hb']%elem_of_cons; [done|by apply Hused].
  - rewrite set_cpu_bitmap in Hnone. split; [done|]. intros b HM Hf.
    destruct (decide (b ∈ l)) as [|Hout]; [done|]. exfalso. apply (Hnone b HM). by apply Hfree.
Qed.

Lemma client_give back b :
  b ∈ l → ∃ w', run (free_to p back b) w = Done () w' ∧ in_use p M w0 w' (filter (λ b', b' ≠ b) l).
Proof using HU.
  intros Hb. destruct HU as [HB Hnd Hfree Hused]. destruct (Hused b Hb) as [HM Hf0]. destruct (bo_in _ _ HB b HM) as [x Hx].
  destruct (run_free_to p M w back b x HB Hx) as [[Hf _]|(Hf & bm' & Hr & HB' & Hf')];
    [by apply (bo_pos _ _ HB)|by eapply home_cpu| |].
  { exfalso. assert (free_at (bitmap_of p w) b) as [_ Hout]%Hfree; [by exists x|done|done]. }
  eexists. split; [exact Hr|]. split; rewrite ?bitmap_of_set.
  - eapply bitmap_ok_ext; [|exact HB']. intros b'. split; [by left|]. by intros [?| ->].
  - by apply NoDup_filter.
  - intros b' HM'. rewrite Hf'; [by apply (bo_pos _ _ HB)|]. rewrite Hfree // list_elem_of_filter.
    destruct (decide (b' = b)) as [->|Hne]; tauto.
  - intros b' [_ Hb']%list_elem_of_filter. by apply Hused.
Qed.
End client.

Lemma client_in_use p M w0 w l : bitmap_ok M (bitmap_of p w0) → client p w0 w l → in_use p M w0 w l.
Proof.
  intros HB. induction 1 as [|w l cpu b w' H IH Hcpu Hr|w l back b w' H IH Hb Hr].
  - split; [done|constructor| |]; [intros b HM; split; [split; [done|apply not_elem_of_nil]|tauto]|intros b Hb; by apply elem_of_nil in Hb].
  - destruct (client_take p M w0 w l IH cpu Hcpu) as [(b2 & w2 & Hr2 & _ & H2)|[Hr2 _]]; rewrite Hr in Hr2; [|done].
    by injection Hr2 as <- <-.
  - destruct (client_give p M w0 w l IH back b Hb) as (w2 & Hr2 & H2). rewrite Hr in Hr2. by injection Hr2 as <-.
Qed.

