(* ===== verification/FsAllocInit.v ===== *)
(** * The allocators at the start

    [initialize_freeblock_bitmap] reads the bitmap of the disk and hands out the
    blocks to the CPUs and the reserve: what it leaves has the form the
    allocators need, and a block is free in it if its bit on the disk is
    clear. *)

From S2P Require Import Prelude FsBytes FsWorld FsDisk FsTrans FsBlocks FsInode FsView FsAlloc.

(** ** Handing out *)

Definition list_name (c : option Z) : Prop := match c with Some cpu => 0 ≤ cpu < NCPU | None => True end.

Lemma home_default c x : list_name c → home (x <| fb_cpu := default NCPU c |>) = c.
Proof.
  intros Hc. unfold home. change (fb_cpu (x <| fb_cpu := default NCPU c |>)) with (default NCPU c). destruct c as [cpu|]; simpl in *.
  - by rewrite (proj2 (Z.ltb_lt _ _)); [apply Hc|].
  - done.
Qed.

Section hand.
Context (M : Z → Prop) (bm : freeblock_bitmap) (HB : bitmap_ok M bm).

Lemma hand_out_ok c b x :
  list_name c → bit_vector bm !! Z.to_nat b = Some x → 0 ≤ b → ¬ M b →
  ∃ bm', hand_out c bm b = Some bm' ∧ bitmap_ok (λ b', M b' ∨ b' = b) bm' ∧
    is_free <$> bit_vector bm' = is_free <$> bit_vector bm.
Proof using HB.
  intros Hc Hx Hb HM. unfold hand_out. rewrite Hx. set (y := x <| fb_cpu := default NCPU c |>).
  assert (home y = c) as Hh by by apply home_default. eexists. split; [done|].
  set (l := if is_free x then list_of c bm ++ [b] else list_of c bm).
  match goal with |- bitmap_ok _ ?m ∧ _ => assert (∀ c', list_of c' m = if decide (c' = c) then l else list_of c' bm) as El;
    [|assert (bit_vector m = <[Z.to_nat b := y]> (bit_vector bm)) as Ev; [|set (bm' := m) in *]] end.
  { intros c'. unfold l. destruct (is_free x); [apply (change_list c _ b y bm)|]. rewrite (list_of_bits c' _ bm). case_decide; [by subst c'|done]. }
  { destruct (is_free x); [by rewrite bits_set|done]. }
  clearbody bm'. assert (∀ b', 0 ≤ b' → bit_vector bm' !! Z.to_nat b' = if decide (b' = b) then Some y else bit_vector bm !! Z.to_nat b') as Ebit.
  { intros b' Hb'. rewrite Ev. case_decide as E; [subst b'; rewrite list_lookup_insert_eq //; by eapply lookup_lt_Some|].
    rewrite list_lookup_insert_ne //. lia. }
  assert (∀ b', M b' ∨ b' = b → 0 ≤ b') as Hpos by (intros b' [?| ->]; [by apply (bo_pos _ _ HB)|done]).
  assert (∀ b', M b' → b' ≠ b) as Hne by by intros b' ? ->.
  assert (∀ c', b ∉ list_of c' bm) as Hout by by intros c' [? _]%(bo_list _ _ HB).
  split; [split|].
  - intros c' b'. rewrite El. split.
    + intros Hin. assert (b' ∈ list_of c' bm ∨ (c' = c ∧ b' = b ∧ is_free x = true)) as [Hin'|(-> & -> & Hf)].
      { case_decide; [subst c'|by left]. unfold l in Hin. destruct (is_free x); [|by left].
        apply elem_of_app in Hin as [?|?%list_elem_of_singleton]; auto. }
      * apply (bo_list _ _ HB) in Hin' as (HM' & x' & ?). split; [by left|]. exists x'. rewrite Ebit ?decide_False //; auto.
      * split; [by right|]. exists y. rewrite Ebit ?decide_True //.
    + intros (HM' & x' & Hx' & Hf' & Hh'). rewrite Ebit in Hx'; auto. destruct (decide (b' = b)) as [->|E].
      * injection Hx' as <-. rewrite decide_True; [congruence|]. unfold l. change (is_free y) with (is_free x) in Hf'. rewrite Hf'.
        apply elem_of_app. right. by left.
      * destruct HM' as [HM'|?]; [|done]. assert (b' ∈ list_of c' bm) as Hin by (apply (bo_list _ _ HB); eauto).
        case_decide as Ec; [|done]. rewrite Ec in Hin. unfold l. destruct (is_free x); [apply elem_of_app; by left|done].
  - intros c'. rewrite El. case_decide; [|apply HB]. unfold l. destruct (is_free x); [|apply HB].
    apply NoDup_app. split_and!; [apply HB| |apply NoDup_singleton]. intros z Hz ->%list_elem_of_singleton. by eapply Hout.
  - done.
  - intros b' HM'. rewrite Ebit; auto. case_decide; [done|]. destruct HM' as [HM'|?]; [|done]. by apply (bo_in _ _ HB).
  - intros b' x' c' HM' Hx' Hh'. rewrite Ebit in Hx'; auto. case_decide as E.
    + injection Hx' as <-. rewrite Hh in Hh'. rewrite Hh' in Hc. apply Hc.
    + destruct HM' as [HM'|?]; [|done]. by eapply (bo_home _ _ HB).
  - rewrite Ev list_fmap_insert. apply list_insert_id. by rewrite list_lookup_fmap Hx.
Qed.
End hand.

Lemma hand_out_all_ok l M bm :
  bitmap_ok M bm → NoDup l.*2 → Forall (λ y, list_name y.1 ∧ 0 ≤ y.2 < Z.of_nat (length (bit_vector bm)) ∧ ¬ M y.2) l →
  ∃ bm', hand_out_all l bm = Some bm' ∧ bitmap_ok (λ b, M b ∨ b ∈ l.*2) bm' ∧
    is_free <$> bit_vector bm' = is_free <$> bit_vector bm.
Proof.
  revert M bm. induction l as [|[c b] l IH]; intros M bm HB Hnd Hl.
  { exists bm. split_and!; [done| |done]. eapply bitmap_ok_ext; [|exact HB]. intros b. simpl. rewrite elem_of_nil. tauto. }
  apply NoDup_cons in Hnd as [Hb Hnd]. apply Forall_cons in Hl as [(Hc & Hr & HM) Hl]. cbn [fst snd] in *.
  destruct (lookup_lt_is_Some_2 (bit_vector bm) (Z.to_nat b)) as [x Hx]; [lia|].
  destruct (hand_out_ok M bm HB c b x Hc Hx) as (bm1 & E1 & HB1 & Ef1); [lia|done|].
  assert (length (bit_vector bm1) = length (bit_vector bm)) as El.
  { rewrite -(length_fmap is_free (bit_vector bm1)) Ef1. apply length_fmap. }
  destruct (IH _ bm1 HB1 Hnd) as (bm2 & E2 & HB2 & Ef2).
  { rewrite El. apply Forall_forall. intros y Hy. rewrite Forall_forall in Hl. destruct (Hl y Hy) as (? & ? & HM').
    split_and!; [done|lia|lia|]. intros [?|E]; [done|]. apply Hb. rewrite -E. by apply list_elem_of_fmap_2. }
  exists bm2. split_and!.
  - cbn [hand_out_all]. by rewrite E1.
  - eapply bitmap_ok_ext; [|exact HB2]. intros b'. simpl. rewrite elem_of_cons. tauto.
  - congruence.
Qed.

(** ** Who gets which block *)

Lemma seqZ_chunks {A} (f : Z → A) k n :
  0 ≤ k → 0 ≤ n → (c ← seqZ 0 n; f <$> seqZ (c * k) k) = f <$> seqZ 0 (n * k).
Proof.
  intros Hk Hn. revert Hn. apply (natlike_ind (λ n, (c ← seqZ 0 n; f <$> seqZ (c * k) k) = f <$> seqZ 0 (n * k))); [done|].
  intros m Hm IH. rewrite -Z.add_1_r seqZ_app; [lia..|]. rewrite Z.add_0_l.
  assert (seqZ m 1 = [m]) as -> by (rewrite seqZ_cons; [lia|]; by rewrite seqZ_nil).
  rewrite bind_app IH. rewrite bind_singleton -fmap_app. f_equal.
  replace ((m + 1) * k) with (m * k + k) by lia. rewrite seqZ_app; [lia|done|]. by rewrite Z.add_0_l.
Qed.

Lemma fmap_of_bind {A B C} (g : B → C) (f : A → list B) l : g <$> (l ≫= f) = l ≫= λ x, g <$> f x.
Proof. induction l as [|x l IH]; [done|]. by rewrite !bind_cons fmap_app IH. Qed.

Section shares.
Context (size first : Z) (Hs : 0 ≤ first ≤ size) (Hf : first mod BPB = 0).

Let q := size / BPB - first / BPB.
Let k := q / NCPU * BPB.

Lemma share_size : 0 ≤ k ∧ first + NCPU * k ≤ size ∧ (NCPU * (q / NCPU) < q → NCPU * k ≤ size - first).
Proof using Hs Hf.
  unfold k, q, NCPU, BPB, BSIZE in *. change (4096 * 8) with 32768 in *.
  pose proof (Z.div_mod size 32768) as E1. pose proof (Z.div_mod first 32768) as E2. rewrite Hf in E2.
  pose proof (Z.mod_pos_bound size 32768). set (a := size / 32768) in *. set (b := first / 32768) in *.
  pose proof (Z.div_mod (a - b) 16). pose proof (Z.mod_pos_bound (a - b) 16). lia.
Qed.

Lemma shares_blocks :
  (shares size first).*2 =
  ((λ b, b + first) <$> (seqZ 0 (NCPU * k) ++ if NCPU * (q / NCPU) <? q then seqZ (NCPU * k) (size - first - NCPU * k) else [])) ++
  seqZ 0 first.
Proof using Hs Hf.
  unfold shares. cbv zeta. fold q. fold k. rewrite fmap_app fmap_of_bind.
  assert (0 ≤ k) as Hk by apply share_size. clearbody k. set (n := NCPU). assert (0 ≤ n) as Hn by done. clearbody n.
  rewrite !fmap_app app_assoc. f_equal; [f_equal|].
  - rewrite -seqZ_chunks; [done|done|]. apply list_bind_ext; [|done]. intros c. by rewrite -list_fmap_compose.
  - destruct (_ <? _); [|done]. by rewrite -list_fmap_compose.
  - rewrite -list_fmap_compose. by rewrite list_fmap_id.
Qed.

Lemma shares_ok : NoDup (shares size first).*2 ∧ Forall (λ y, list_name y.1 ∧ 0 ≤ y.2 < size) (shares size first).
Proof using Hs Hf.
  pose proof share_size as (Hk & Hle & Hres). assert (0 ≤ NCPU * k) as Hnk by (unfold NCPU; lia).
  assert (∀ b, b ∈ (shares size first).*2 → 0 ≤ b < size) as Hr.
  { intros b. rewrite shares_blocks elem_of_app list_elem_of_fmap elem_of_seqZ. intros [(b' & -> & Hb)|?]; [|lia].
    apply elem_of_app in Hb as [Hb|Hb]; [apply elem_of_seqZ in Hb; lia|].
    destruct (Z.ltb_spec (NCPU * (q / NCPU)) q); [apply elem_of_seqZ in Hb; lia|by apply elem_of_nil in Hb]. }
  split.
  - rewrite shares_blocks. apply NoDup_app. split_and!; [| |apply NoDup_seqZ].
    + apply NoDup_fmap_2; [intros ???; lia|]. apply NoDup_app. split_and!; [apply NoDup_seqZ| |].
      * intros b Hb1%elem_of_seqZ Hb2. destruct (_ <? _); [apply elem_of_seqZ in Hb2; lia|by apply elem_of_nil in Hb2].
      * destruct (_ <? _); [apply NoDup_seqZ|constructor].
    + intros b (b' & -> & Hb)%list_elem_of_fmap Hb2%elem_of_seqZ.
      apply elem_of_app in Hb as [Hb|Hb]; [apply elem_of_seqZ in Hb; lia|].
      destruct (_ <? _); [apply elem_of_seqZ in Hb; lia|by apply elem_of_nil in Hb].
  - apply Forall_forall. intros y Hy. split; [|apply Hr; by apply list_elem_of_fmap_2].
    unfold shares in Hy. cbv zeta in Hy. apply elem_of_app in Hy as [Hy|Hy]; [|apply elem_of_app in Hy as [Hy|Hy]].
    + apply list_elem_of_bind in Hy as (c & Hy & Hc%elem_of_seqZ). apply list_elem_of_fmap in Hy as (b & -> & _). simpl. lia.
    + destruct (_ <? _); [|by apply elem_of_nil in Hy]. by apply list_elem_of_fmap in Hy as (b & -> & _).
    + by apply list_elem_of_fmap in Hy as (b & -> & _).
Qed.
End shares.

(** ** Reading the bitmap *)

(** Whether block [b] is free on the disk. *)
Definition clear_on_disk (w : fs_world) (b : Z) : bool := bit_clear (cur w (BBLOCK b (sb_ninodes (f_sb w)))) (b mod BPB).

(** One round of the loop of [read_bits]. *)
Definition read_round (sb : superblock) : Z * list bool * Z → fprog (Z * list bool * Z) := λ '(b, bits, first),
  let blk := BBLOCK b (sb_ninodes sb) in
  buf_get (1, blk) false;;
  data ← buf_read (1, blk);
  let nbits := Z.min BPB (sb_size sb - b) in
  mret (b + BPB, bits ++ ((λ bi, bit_clear data bi) <$> seqZ 0 nbits),
        if (first =? 0) && bit_clear data 0 then b else first).

Section read.
Context (w0 : fs_world).
Notation sb := (f_sb w0).
Context (Hblk : ∀ b, 0 ≤ b < sb_size sb → blkno (BBLOCK b (sb_ninodes sb))).

(** The state of the loop at block [b]. *)
Record reading (b : Z) (st : Z * list bool * Z) : Prop := Reading {
  re_block : st.1.1 = b;
  re_bits : st.1.2 = clear_on_disk w0 <$> seqZ 0 (Z.min b (sb_size sb));
  re_first : 0 ≤ st.2 ≤ sb_size sb ∧ st.2 mod BPB = 0;
}.

Lemma block_bit b i : b mod BPB = 0 → 0 ≤ i < BPB → BBLOCK (b + i) (sb_ninodes sb) = BBLOCK b (sb_ninodes sb) ∧ (b + i) mod BPB = i.
Proof using Type.
  intros Hb Hi. unfold BBLOCK. pose proof (Z.div_mod b BPB ltac:(done)) as E. rewrite Hb in E.
  assert (b + i = i + b / BPB * BPB) as -> by lia. rewrite Z.div_add // Z_mod_plus_full. rewrite Z.div_small // Z.mod_small //.
Qed.

Lemma run_read_round w b st :
  quiet w0 w → (∀ c, cur w c = cur w0 c) → one_disk w → 0 ≤ b < sb_size sb → b mod BPB = 0 → reading b st →
  ∃ w' st', run (read_round sb st) w = Done st' w' ∧ quiet w0 w' ∧ (∀ c, cur w' c = cur w0 c) ∧ one_disk w' ∧ reading (b + BPB) st'.
Proof using Hblk.
  intros Hq Hc Hd Hb Hmod [Eb Ebits Hfirst]. destruct st as [[b' bits] first]. simpl in *. subst b'.
  destruct (run_buf_get w (BBLOCK b (sb_ninodes sb)) Hd (Hblk b Hb)) as (w1 & x & Hr1 & Hq1 & Hc1 & Hx).
  assert (bdata x = cur w0 (BBLOCK b (sb_ninodes sb))) as Ex by (by rewrite -Hc -Hc1 (cur_buf _ _ _ Hx)).
  exists w1. eexists. split; [|split_and!].
  - unfold read_round. rewrite (run_bind_done _ _ _ _ _ Hr1) (run_bind_done _ _ _ _ _ (run_buf_read _ _ _ Hx)). done.
  - by eapply quiet_trans.
  - intros c. by rewrite Hc1 Hc.
  - eapply one_disk_eq; [by apply quiet_disks|done].
  - split; [done| |].
    + simpl. rewrite Ebits Ex Z.min_l; [lia|].
      assert (Z.min (b + BPB) (sb_size sb) = b + Z.min BPB (sb_size sb - b)) as -> by lia.
      assert (0 < BPB) as HB by done. rewrite seqZ_app; [lia..|]. rewrite fmap_app Z.add_0_l. f_equal.
      rewrite -[in RHS](Z.add_0_r b) -fmap_add_seqZ -list_fmap_compose Z.add_0_r. apply list_fmap_ext. intros i z [-> Hz]%lookup_seqZ.
      rewrite Z.add_0_l. unfold clear_on_disk, compose. destruct (block_bit b (Z.of_nat i) Hmod) as [-> ->]; [lia|]. done.
    + simpl. destruct ((first =? 0) && _); [split; [lia|done]|done].
Qed.

Lemma run_read_rounds n w b st :
  quiet w0 w → (∀ c, cur w c = cur w0 c) → one_disk w → 0 ≤ b → b mod BPB = 0 →
  (0 < n)%nat → b + (Z.of_nat n - 1) * BPB < sb_size sb → reading b st →
  ∃ w' st', run (iterate n (read_round sb) st) w = Done st' w' ∧ quiet w0 w' ∧ (∀ c, cur w' c = cur w0 c) ∧
    reading (b + Z.of_nat n * BPB) st'.
Proof using Hblk.
  assert (0 < BPB) as HB by done.
  revert w b st. induction n as [|n IH]; intros w b st Hq Hc Hd Hb Hmod Hn Hlast Hre; [lia|].
  destruct (run_read_round w b st Hq Hc Hd) as (w1 & st1 & Hr1 & Hq1 & Hc1 & Hd1 & Hre1); [nia|done|done|].
  rewrite run_iterate_S Hr1. simpl. destruct n as [|n].
  { exists w1, st1. rewrite run_iterate_O Z.mul_1_l. done. }
  destruct (IH w1 (b + BPB) st1) as (w2 & st2 & Hr2 & Hq2 & Hc2 & Hre2); [done|done|done|lia| |lia|nia|done|].
  { rewrite -{1}(Z.mul_1_l BPB) Z_mod_plus_full. done. }
  exists w2, st2. split_and!; [done..|]. replace (b + Z.of_nat (S (S n)) * BPB) with (b + BPB + Z.of_nat (S n) * BPB) by lia. done.
Qed.

Lemma run_read_bits :
  one_disk w0 → 0 < sb_size sb →
  ∃ w' first, run read_bits w0 = Done (clear_on_disk w0 <$> seqZ 0 (sb_size sb), first) w' ∧ quiet w0 w' ∧
    (∀ c, cur w' c = cur w0 c) ∧ 0 ≤ first ≤ sb_size sb ∧ first mod BPB = 0.
Proof using Hblk.
  intros Hd Hs. set (n := Z.to_nat ((sb_size sb + BPB - 1) / BPB)).
  assert (0 < BPB) as HB by done. pose proof (Z.div_mod (sb_size sb + BPB - 1) BPB ltac:(lia)) as E.
  pose proof (Z.mod_pos_bound (sb_size sb + BPB - 1) BPB HB).
  assert (0 < (sb_size sb + BPB - 1) / BPB) as Hn by (apply Z.div_str_pos; lia).
  destruct (run_read_rounds n w0 0 (0, [], 0)) as (w1 & st & Hr & Hq & Hc & [_ Ebits Hfirst]); [apply quiet_refl|done|done|done|done|lia|nia| |].
  { split; [done| |]; simpl; [by rewrite Z.min_l; [lia|]|]. split; [lia|done]. }
  exists w1, st.2. split_and!; [|done|done|apply Hfirst..]. unfold read_bits. rewrite (run_bind_done _ _ _ _ _ (run_frd _ _)).
  change (iterate _ _ (0, [], 0)) with (iterate n (read_round sb) (0, [], 0)). rewrite (run_bind_done _ _ _ _ _ Hr) run_ret Ebits.
  do 4 f_equal. nia.
Qed.
End read.

Lemma no_handed_ok v : bitmap_ok (λ _, False) (FreeblockBitmap v ∅ []).
Proof.
  split; try done.
  - intros c b. split; [|by intros [[] _]]. destruct c; simpl; [rewrite lookup_empty|]; intros H; by apply elem_of_nil in H.
  - intros c. destruct c; simpl; [rewrite lookup_empty|]; constructor.
Qed.

(** C28: [initialize_freeblock_bitmap] builds the bitmap of free blocks from
    the disk.  It returns for every disk, every entry it hands out is handed out
    once and is in the list it belongs to exactly if it is free, and a block is
    free in memory exactly if its bit on the disk is clear. *)
Theorem initialize_freeblock_bitmap_ok u w :
  one_disk w → 0 < sb_size (f_sb w) → (∀ b, 0 ≤ b < sb_size (f_sb w) → blkno (BBLOCK b (sb_ninodes (f_sb w)))) →
  ∃ w' first, run (initialize_freeblock_bitmap u) w = Done () w' ∧
    bitmap_ok (λ b, b ∈ (shares (sb_size (f_sb w)) first).*2) (f_bitmap w') ∧
    (∀ b, 0 ≤ b → free_at (f_bitmap w') b ↔ b < sb_size (f_sb w) ∧ clear_on_disk w b = true) ∧
    ∀ c, cur w' c = cur w c.
Proof.
  intros Hd Hs Hblk. destruct (run_read_bits w Hblk Hd Hs) as (w1 & first & Hr & Hq & Hc & Hf & Hmod).
  set (bits := clear_on_disk w <$> seqZ 0 (sb_size (f_sb w))) in *.
  assert (length bits = Z.to_nat (sb_size (f_sb w))) as El by (unfold bits; by rewrite length_fmap length_seqZ).
  destruct (shares_ok _ _ Hf Hmod) as [Hnd Hsh].
  destruct (hand_out_all_ok (shares (sb_size (f_sb w)) first) (λ _, False) (FreeblockBitmap (FreeBit u <$> bits) ∅ [])) as (bm & Ebm & HB & Efree);
    [apply no_handed_ok|done| |].
  { eapply Forall_impl; [exact Hsh|]. intros y [? ?]. simpl. rewrite length_fmap El. split_and!; [done|lia|lia|tauto]. }
  exists (w1 <| f_bitmap := bm |>), first. split_and!.
  - unfold initialize_freeblock_bitmap. rewrite (run_bind_done _ _ _ _ _ Hr) (run_bind_done _ _ _ _ _ (run_frd _ _)).
    rewrite (quiet_sb _ _ Hq). cbn [fst snd]. by rewrite Ebm run_fwr.
  - eapply bitmap_ok_ext; [|exact HB]. intros b. simpl. tauto.
  - intros b Hb. change (f_bitmap (w1 <| f_bitmap := bm |>)) with bm. unfold free_at.
    assert (is_free <$> bit_vector bm !! Z.to_nat b = bits !! Z.to_nat b) as Eb.
    { rewrite -list_lookup_fmap Efree. simpl. rewrite -list_fmap_compose. by rewrite list_fmap_id. }
    unfold bits in Eb. rewrite list_lookup_fmap in Eb. split.
    + intros (x & Hx & Hfx). rewrite Hx /= Hfx in Eb. symmetry in Eb. apply fmap_Some in Eb as (z & Hz & E).
      apply lookup_seqZ in Hz as [-> ?]. split; [lia|]. by replace b with (0 + Z.of_nat (Z.to_nat b)) by lia.
    + intros [Hlt Hcl]. rewrite lookup_seqZ_lt in Eb; [lia|]. simpl in Eb. replace (0 + Z.of_nat (Z.to_nat b)) with b in Eb by lia.
      rewrite Hcl in Eb. apply fmap_Some in Eb as (x & Hx & E). by exists x.
  - intros c. rewrite -Hc. done.
Qed.
