(* ===== verification/FsFile.v ===== *)
(** * Files: writing and reading back *)

From S2P Require Import Prelude FsBytes FsWorld FsDisk FsTrans FsDedup FsWrite FsBlocks FsInode FsView.

Section file.
Context (w : fs_world) (x : inode) (w1 : fs_world).
Context (Hidx : cur w1 (addrs x !!! 10%nat) = cur w (addrs x !!! 10%nat) ∧ cur w1 (addrs x !!! 11%nat) = cur w (addrs x !!! 11%nat)).

(** The blocks of a file are known from its blocks of addresses. *)
Lemma file_block_index bn : 0 ≤ bn < NDIRECT + NINDIRECT → file_block w1 x bn = file_block w x bn.
Proof using Hidx.
  intros Hbn. unfold file_block. destruct (Z.ltb_spec bn NDIRECT); [done|].
  rewrite (proj2 (Z.ltb_lt bn (NDIRECT + NINDIRECT))); [lia|]. unfold ptr_at. by rewrite (proj1 Hidx).
Qed.

Lemma path_ok_index bn : 0 ≤ bn < NDIRECT + NINDIRECT → path_ok w x bn → path_ok w1 x bn.
Proof using Hidx. intros Hbn. unfold path_ok. rewrite file_block_index //. unfold ptr_at. by rewrite (proj2 Hidx). Qed.
End file.

