(* ===== verification/FsFaults.v ===== *)
(** * What goes wrong

    Statements on paths of the code that do not do what they mean to: a
    transaction that is used after it has been deleted, and blocks that are
    written to another place than they are read from. *)

From S2P Require Import Prelude FsBytes FsWorld FsDisk FsTrans FsDedup FsWrite FsBlocks FsInode FsView FsJournal FsCommit.

(** ** A transaction after its deletion *)

Lemma delete_gone t w a w' : run (delete_transaction t) w = Done a w' → f_trans w' !! t = None.
Proof.
  unfold delete_transaction. rewrite run_bind. destruct (run (tr_get bqueue t) w) as [q w1| | |]; simpl; try done.
  rewrite run_bind. destruct (run _ w1) as [[] w2| | |]; simpl; try done. intros [= _ <-]. apply lookup_delete_eq.
Qed.

Lemma apply_gone c t w a w' : run (apply_transaction_to_disk c t) w = Done a w' → f_trans w' !! t = None.
Proof.
  unfold apply_transaction_to_disk. rewrite run_bind. destruct (run (apply_trans_on_disk t) w) as [[] w1| | |]; simpl; try done.
  rewrite run_bind. destruct (run (tr_get _ t) w1) as [ts w2| | |]; simpl; try done.
  rewrite run_bind. destruct (run (notify_apply c ts) w2) as [[] w3| | |]; simpl; try done. apply delete_gone.
Qed.

(** Whatever follows the apply begins with a look at the transaction. *)
Lemma apply_then_faults {A} c t (k : Z → fprog A) w a w' :
  run (apply_transaction_to_disk c t;; ts ← tr_get commit_tsc t; k ts) w ≠ Done a w'.
Proof.
  rewrite run_bind. destruct (run (apply_transaction_to_disk c t) w) as [[] w1| | |] eqn:E; simpl; try done.
  rewrite run_bind. unfold tr_get. rewrite run_act (apply_gone _ _ _ _ _ E). done.
Qed.

Lemma bind_inv {A B} (p : fprog A) (f : A → fprog B) w b w' :
  run (p ≫= f) w = Done b w' → ∃ a w1, run p w = Done a w1 ∧ run (f a) w1 = Done b w'.
Proof. rewrite run_bind. destruct (run p w) as [a w1| | |]; simpl; try done. intros H. by exists a, w1. Qed.

(** Programs that read only. *)
Definition same (w w' : fs_world) : Prop := w' = w.
#[export] Instance same_preorder : PreOrder same.
Proof. split; [done|]. unfold same. intros; congruence. Qed.

Lemma same_jr_get {A} (f : journal → A) c : keeps same (jr_get f c).
Proof. apply keeps_act. intros w b w'. case_match; [|done]. by intros [= _ <-]. Qed.
Lemma same_tr_get {A} (f : transaction → A) t : keeps same (tr_get f t).
Proof. apply keeps_act. intros w b w'. case_match; [|done]. by intros [= _ <-]. Qed.
Lemma same_fassert b : keeps same (fassert b).
Proof. unfold fassert. destruct b; [done|]. by apply keeps_act. Qed.

Lemma same_deps (ds : list (Z * Z)) acc :
  keeps same (fold_each ds (λ d acc, a ← jr_get applied_trans_tsc d.1; mret (if a <? d.2 then acc ++ [d] else acc)) acc).
Proof. apply keeps_fold_each. intros. apply keeps_bind; [apply same_jr_get|]. intros. apply keeps_ret. Qed.

(** [H] is a run that starts with a program that reads only. *)
Ltac reads H lem :=
  let a := fresh "a" in let w1 := fresh "w1" in let H1 := fresh "H1" in
  apply bind_inv in H as (a & w1 & H1 & H); apply (keeps_run same) in H1; [unfold same in H1; subst w1|apply lem].

(** What a round does if it returns. *)
Lemma apply_round_done deps w r w' :
  run (apply_round deps) w = Done r w' →
  w' = w ∧ match r with
           | inr _ => deps = []
           | inl deps' => ∃ c ts rest, deps = rest ++ [(c, ts)] ∧
               ((∃ j, f_journals w !! c = Some j ∧ ts ≤ applied_trans_tsc j ∧ deps' = rest) ∨ ∃ new, deps' = deps ++ new)
           end.
Proof.
  unfold apply_round. destruct deps as [|[cpu dep] rest _] using rev_ind; [by intros [= <- <-]|]. rewrite last_snoc. intros H.
  apply bind_inv in H as (done & w1 & H1 & H). unfold jr_get in H1. rewrite run_act in H1.
  destruct (f_journals w !! cpu) as [j|] eqn:Ej; [|done]. injection H1 as <- <-.
  destruct (Z.leb_spec dep (applied_trans_tsc j)).
  { injection H as <- <-. split; [done|]. exists cpu, dep, rest. split; [done|]. left. exists j. split_and!; [done..|].
    rewrite length_app Nat.add_1_r. apply take_app_length. }
  assert (∀ new, r = inl ((rest ++ [(cpu, dep)]) ++ new) → w' = w → w' = w ∧ match r with
     | inr _ => rest ++ [(cpu, dep)] = []
     | inl deps' => ∃ c ts rest', rest ++ [(cpu, dep)] = rest' ++ [(c, ts)] ∧
         ((∃ j, f_journals w !! c = Some j ∧ ts ≤ applied_trans_tsc j ∧ deps' = rest') ∨ ∃ new, deps' = (rest ++ [(cpu, dep)]) ++ new) end) as Hmore.
  { intros new -> ->. split; [done|]. exists cpu, dep, rest. split; [done|]. right. by exists new. }
  reads H (@same_jr_get (list Z)). destruct a as [|t q]; [injection H as <- <-; apply (Hmore []); [by rewrite app_nil_r|done]|].
  reads H (@same_tr_get Z). reads H same_fassert. reads H (@same_tr_get (list (Z * Z))). reads H same_deps.
  destruct (negb _); [injection H as <- <-; by eapply Hmore|]. exfalso.
  do 5 (apply bind_inv in H as (? & ? & _ & H)). exact (apply_then_faults _ _ _ _ _ _ H).
Qed.

Lemma apply_rounds_done fuel deps w w' :
  run (loop fuel apply_round deps) w = Done () w' →
  w' = w ∧ ∀ c ts, (c, ts) ∈ deps → ∃ j, f_journals w !! c = Some j ∧ ts ≤ applied_trans_tsc j.
Proof.
  revert deps. induction fuel as [|fuel IH]; intros deps; [done|]. rewrite run_loop_S.
  destruct (run (apply_round deps) w) as [r w1| | |] eqn:E; simpl; try done. apply apply_round_done in E as [-> Hr].
  destruct r as [deps'|[]]; [|intros [= <-]; split; [done|]; subst deps; intros c ts H; by apply elem_of_nil in H].
  intros [-> Hall]%IH. split; [done|]. intros c ts Hin.
  destruct Hr as (c' & ts' & rest & -> & [(j & Hj & Hle & ->)|[new ->]]); [|apply Hall, elem_of_app; by left].
  apply elem_of_app in Hin as [Hin|Hin]; [by apply Hall|]. apply list_elem_of_singleton in Hin as [= -> ->]. by exists j.
Qed.


(** ** Block numbers of more than 20 bits *)

(** C38: The blocks of a transaction are written at [blocknum * BSIZE], which is
    computed with 32 bits: block [b] goes to the place of block [b mod 2^20].
    Up to 4 GB this is the block itself; beyond, another one is overwritten. *)
Theorem writeback_wraps w d b :
  f_disks w = [d] → 0 ≤ blocknum b < 2 ^ 32 →
  run (db_writeback b) w = Done () (w <| f_disks := [put d [(blocknum b mod 2 ^ 20, blockdata b)]] |>).
Proof.
  intros Hd Hb. assert (block_offset b = blocknum b mod 2 ^ 20 * BSIZE) as Eo.
  { unfold block_offset, wrap32, BSIZE. change 4294967296 with (2 ^ 20 * 4096). by rewrite Zmult_mod_distr_r. }
  unfold db_writeback, disk_write. rewrite Eo. rewrite (run_disk_writev _ d); [done| |].
  - split; [|simpl; lia]. exists (blocknum b mod 2 ^ 20). split; [|done]. pose proof (Z.mod_pos_bound (blocknum b) (2 ^ 20)). lia.
  - rewrite Z.div_mul //. unfold run_of. simpl. by rewrite Z.add_0_r.
Qed.

Lemma writeback_wraps_witness :
  let d := Disk ∅ [] in
  let w := FsWorld [d] ∅ ∅ 1 ∅ ∅ (FreeblockBitmap [] ∅ []) (FreeblockBitmap [] ∅ []) ∅ ∅ (Superblock 2000000 0 0) 0 (λ n, Z.of_nat n) (λ _, zero_block) 0 in
  run (db_writeback (DiskBlock 1048577 zero_block 0)) w = Done () (w <| f_disks := [put d [(1, zero_block)]] |>).
Proof. apply (writeback_wraps _ _ (DiskBlock 1048577 zero_block 0)); [done|]. simpl. lia. Defined.

(** ** More than one disk *)

(** A transaction with the block [b], and [n] empty disks. *)
Definition striped (n : nat) (b : Z) (data : list Z) : fs_world :=
  FsWorld (replicate n (Disk ∅ [])) ∅ {[1 := (transaction_at 1) <| blocks := [DiskBlock b data 1] |>]} 2 ∅ ∅
    (FreeblockBitmap [] ∅ []) (FreeblockBitmap [] ∅ []) ∅ ∅ (Superblock 4000 3900 200) 0 (λ n, Z.of_nat n) (λ _, zero_block) 0.

(** What is read from block [b] of [n] disks after a transaction has written it. *)
Definition write_then_read (n : nat) (b : Z) (data : list Z) : option (list Z) :=
  match run (write_to_disk_and_flush 1;; disk_read (b * BSIZE)) (striped n b data) with Done v _ => Some v | _ => None end.

(** [block_queue::write] computes the place of a block in its stripe, and
    [disk_writev] does so again: with one disk, what has been written is read
    back; with two, block 16 is not, and the data are in block 0. *)
Lemma queued_write_misplaced :
  let data := replicate 4096 7 in
  write_then_read 1 16 data = Some data ∧ write_then_read 2 16 data = Some zero_block ∧
  match run (write_to_disk_and_flush 1;; disk_read 0) (striped 2 16 data) with Done v _ => v = data | _ => False end.
Proof. cbv zeta. split_and!; vm_compute; reflexivity. Qed.
