(* ===== verification/FsExamples.v ===== *)
(** * A file system with two journals

    A concrete disk and system on which the theorems on commit, apply and
    recovery are used: the journals of two CPUs have the blocks 100 to 1133 and
    2100 to 3133, with their blocks of addresses in 50 and 51, and transactions
    may have the blocks 10 to 19. *)

From S2P Require Import Prelude FsBytes FsWorld FsDisk FsTrans FsDedup FsWrite FsBlocks FsInode FsView FsJournal FsHeaders FsCommit FsScan FsRecords FsCrash FsSafe FsJournals FsRunning FsDurable FsRecover FsAtomic FsAlloc FsAllocInit FsFile FsFaults.

(** ** The disk *)

Definition demo_base (c : Z) : Z := 100 + 2000 * c.
Definition demo_ja (c : Z) : list Z := seqZ (demo_base c) jlen.
Definition demo_layout : layout := Layout [0; 1] (λ c n, demo_ja c !!! Z.to_nat n) (λ b, 10 ≤ b < 20).

Definition demo_index (c : Z) : list Z := seqZ (demo_base c + 10) 1024 ≫= le_bytes 4.
Definition demo_skip : list Z := header_block 0 JOURNAL_TXN_SKIP zero_block.
Definition demo_image : gmap Z (list Z) := {[50 := demo_index 0; 51 := demo_index 1; 100 := demo_skip; 2100 := demo_skip]}.

(** ** The system, with all journals at position [pos] *)

Definition demo_inode (c : Z) : inode :=
  Inode 1 (5 + c) T_FILE 0 0 1 PHYS_JOURNAL_SIZE 1 (seqZ (demo_base c) 10 ++ [50 + c; 0]) false 0.
Definition demo_journal (c pos : Z) : journal := Journal (pos * BSIZE) 0 0 0 [] [] (5 + c).

(** A transaction with one block. *)
Definition demo_data : list Z := replicate 4096 7.
Definition demo_trans : transaction :=
  (transaction_at 2) <| blocks := [DiskBlock 10 demo_data 3] |> <| commit_tsc := 5 |> <| last_group_txn_tsc := 4 |>.

Definition no_bits : freeblock_bitmap := FreeblockBitmap [] ∅ [].
Definition demo_world (pos : Z) : fs_world :=
  FsWorld [Disk demo_image []] ∅ {[1 := demo_trans]} 2 {[5 := demo_inode 0; 6 := demo_inode 1]}
    {[0 := demo_journal 0 pos; 1 := demo_journal 1 pos]} no_bits no_bits ∅ ∅ (Superblock 4000 3900 200) 0
    (λ n, Z.of_nat n) (λ _, zero_block) 0.

Lemma demo_jblk c n : 0 ≤ n < jlen → jblk demo_layout c n = demo_base c + n.
Proof. intros Hn. cbn [jblk demo_layout]. unfold demo_ja. apply list_lookup_total_correct, lookup_seqZ. lia. Qed.

Lemma demo_cpu c : c ∈ cpus demo_layout ↔ c = 0 ∨ c = 1.
Proof. cbn [cpus demo_layout]. set_solver. Qed.

Lemma demo_layout_ok : layout_ok demo_layout.
Proof.
  split.
  - intros c c' n n' Hc%demo_cpu Hc'%demo_cpu Hn Hn'. rewrite !demo_jblk //. unfold demo_base, jlen, NDIRECT, NINDIRECT in *. lia.
  - intros c n Hc%demo_cpu Hn. rewrite demo_jblk //. cbn [meta demo_layout]. unfold demo_base. lia.
Qed.

Lemma demo_journals : journals_at demo_layout demo_ja.
Proof.
  split; [apply demo_layout_ok| |done|].
  - apply (bool_decide_unpack _). vm_compute. done.
  - intros c n Hc%demo_cpu Hn. rewrite demo_jblk //. unfold demo_base, small, jlen, NDIRECT, NINDIRECT in *. lia.
Qed.

Lemma demo_img b :
  img demo_image b = if decide (b = 50) then demo_index 0 else if decide (b = 51) then demo_index 1
    else if decide (b = 100 ∨ b = 2100) then demo_skip else zero_block.
Proof.
  unfold img, demo_image. destruct (decide (b = 50)) as [->|H1]; [by rewrite lookup_insert_eq|rewrite lookup_insert_ne //].
  destruct (decide (b = 51)) as [->|H2]; [by rewrite lookup_insert_eq|rewrite lookup_insert_ne //].
  destruct (decide (b = 100)) as [->|H3]; [by rewrite lookup_insert_eq|rewrite lookup_insert_ne //].
  destruct (decide (b = 2100)) as [->|H4]; [by rewrite lookup_singleton_eq|].
  rewrite lookup_singleton_ne // decide_False //. by intros [?|?].
Qed.

Lemma demo_index_ok c : block_ok (demo_index c).
Proof. unfold block_ok, demo_index. rewrite length_words length_seqZ. done. Qed.

Lemma demo_img_ok b : block_ok (img demo_image b).
Proof.
  rewrite demo_img. case_decide; [apply demo_index_ok|]. case_decide; [apply demo_index_ok|].
  case_decide; [apply header_block_ok|]; apply zero_block_ok.
Qed.

Lemma demo_index_word c n : c = 0 ∨ c = 1 → 0 ≤ n < 1024 → word_at (demo_index c) n = demo_base c + 10 + n.
Proof.
  intros Hc Hn. unfold word_at, u32_at, demo_index. rewrite (slice_words _ _ (demo_base c + 10 + n)); [|lia|].
  - rewrite lookup_seqZ. lia.
  - apply le_val_bytes. unfold demo_base. change (256 ^ Z.of_nat 4) with 4294967296. lia.
Qed.

(** ** The system *)

Lemma demo_cur pos b : cur (demo_world pos) b = img demo_image b.
Proof. done. Qed.

Lemma demo_file_journal pos c :
  c = 0 ∨ c = 1 →
  f_journals (demo_world pos) !! c = Some (demo_journal c pos) ∧ f_inodes (demo_world pos) !! (5 + c) = Some (demo_inode c).
Proof. by intros [-> | ->]. Qed.

Lemma demo_addr c i : addrs (demo_inode c) !!! (10 + i)%nat = [50 + c; 0] !!! i.
Proof.
  cbn [addrs demo_inode]. rewrite lookup_total_app_r; [rewrite length_seqZ; lia|]. f_equal. rewrite length_seqZ. lia.
Qed.

Lemma demo_block pos c n : c = 0 ∨ c = 1 → 0 ≤ n < jlen → file_block (demo_world pos) (demo_inode c) n = demo_base c + n.
Proof.
  intros Hc Hn. unfold file_block. destruct (Z.ltb_spec n NDIRECT) as [H|H].
  - cbn [addrs demo_inode]. unfold NDIRECT in H. rewrite lookup_total_app_l; [rewrite length_seqZ; lia|].
    rewrite lookup_total_seqZ_lt; lia.
  - rewrite (proj2 (Z.ltb_lt n (NDIRECT + NINDIRECT))); [apply Hn|].
    rewrite (demo_addr c 0). cbn. unfold ptr_at. rewrite demo_cur demo_img.
    unfold jlen, NDIRECT, NINDIRECT in *. rewrite (proj2 (Z.eqb_neq _ _)); [lia|].
    assert ((if decide (50 + c = 50) then demo_index 0 else if decide (50 + c = 51) then demo_index 1
      else if decide (50 + c = 100 ∨ 50 + c = 2100) then demo_skip else zero_block) = demo_index c) as -> by by destruct Hc as [-> | ->].
    rewrite demo_index_word; [done|lia|lia].
Qed.

Lemma demo_jfile pos c : c = 0 ∨ c = 1 → 0 ≤ pos ≤ jlen → jfile (demo_world pos) c (demo_ja c) pos.
Proof.
  intros Hc Hp. destruct (demo_file_journal pos c Hc) as [Hj Hi]. split; [by eexists|done|].
  exists (demo_journal c pos), (demo_inode c). split_and!; try done. intros n Hn.
  pose proof (demo_addr c 0) as E0. pose proof (demo_addr c 1) as E1. cbn in E0, E1.
  assert (demo_ja c !!! Z.to_nat n = demo_base c + n) as En by by apply demo_jblk.
  unfold path_ok. rewrite E0 E1 demo_block // En. unfold blkno, ptr_at, jlen, NDIRECT, NINDIRECT in *.
  split_and!; try done; unfold demo_base; lia.
Qed.

Lemma demo_files pos : 0 ≤ pos ≤ jlen → files demo_layout demo_ja (demo_world pos) (λ _, pos).
Proof.
  intros Hp. split.
  - intros c Hc%demo_cpu. by apply demo_jfile.
  - intros c b Hc%demo_cpu (j & x & Hj & Hx & Hb). destruct (demo_file_journal pos c Hc) as [Ej Ei].
    rewrite Ej in Hj. injection Hj as <-. change (sv6_journal (demo_journal c pos)) with (5 + c) in Hx. rewrite Ei in Hx. injection Hx as <-.
    pose proof (demo_addr c 0) as E0. pose proof (demo_addr c 1) as E1. cbn in E0, E1. rewrite E0 E1 in Hb.
    intros [Hm|(c' & n & Hc'%demo_cpu & Hn & E)]; [cbn [meta demo_layout] in Hm; lia|].
    rewrite demo_jblk // in E. unfold demo_base in E. lia.
  - apply demo_img_ok.
  - intros. apply zero_block_ok.
  - done.
Qed.

Lemma demo_unlocked pos c : c ∈ cpus demo_layout → unlocked (demo_world pos) c.
Proof.
  intros Hc%demo_cpu. destruct (demo_file_journal pos c Hc) as [Hj Hi]. by exists (demo_journal c pos), (demo_inode c).
Qed.

Lemma demo_journal_ok c : c = 0 ∨ c = 1 → journal_ok (jimg demo_layout demo_image c) empty_state.
Proof.
  intros Hc. apply empty_journal; unfold jimg.
  - rewrite demo_jblk // demo_img. unfold demo_base. do 2 (rewrite decide_False; [lia|]). rewrite decide_True; [lia|].
    split; [apply header_type|by apply header_timestamp].
  - intros n Hn. rewrite demo_jblk; [lia|]. rewrite demo_img. unfold demo_base, jlen, NDIRECT, NINDIRECT in *.
    rewrite !decide_False //; lia.
Qed.

Lemma demo_consistent : consistent demo_layout (Disk demo_image []) (λ _, empty_state) (img demo_image).
Proof.
  split.
  - intros b _. apply not_elem_of_nil.
  - split; [apply demo_img_ok|constructor].
  - intros c Hc%demo_cpu. by apply demo_journal_ok.
  - intros. constructor.
  - rewrite no_replay. intros T1 T2 H. by apply elem_of_nil in H.
  - intros b Hb. by rewrite no_replay.
Qed.

Lemma demo_system : system demo_layout demo_ja (demo_world 1) (λ _, empty_state) (img demo_image).
Proof. split; [by apply demo_files|exists (Disk demo_image []); split; [done|apply demo_consistent]|apply demo_unlocked]. Qed.

Lemma demo_booted : booted demo_layout demo_ja (demo_world 0) demo_image.
Proof. split; [done|done|by apply demo_files|apply demo_unlocked]. Qed.

Lemma demo_crash : crash (Disk demo_image []) demo_image.
Proof. intros b. split; [apply demo_img_ok|]. intros s _. exists (img demo_image b). split; [by left|done]. Qed.

(** ** The transaction *)

Lemma demo_data_ok : block_ok demo_data.
Proof. unfold block_ok, demo_data. by rewrite length_replicate. Qed.

Lemma demo_txn_ok : txn_ok demo_layout (txn_of demo_trans).
Proof.
  split; [split; [done|by repeat constructor]|]. split; [apply NoDup_singleton|].
  constructor; [|constructor]. split_and!; [done|done|apply demo_data_ok].
Qed.

Lemma demo_may_commit : may_commit demo_layout (λ _, empty_state) 0 (txn_of demo_trans).
Proof.
  split; [apply demo_cpu; by left|done| |rewrite no_replay; intros T H; by apply elem_of_nil in H|apply demo_txn_ok| |done].
  - split_and!; [done..|constructor].
  - constructor; [|constructor]. split; vm_compute; done.
Qed.

Lemma demo_journal_writes b f :
  over (db_writes (dedup_blocks (blocks demo_trans))) f b = replayed [txn_of demo_trans] f b.
Proof. done. Qed.



(** The journal of the example after the commit. *)
Definition demo_committed : Z → jstate := set_journal (λ _, empty_state) 0 (append empty_state (txn_of demo_trans)).

Lemma demo_may_apply :
  may_apply demo_layout demo_committed 0 [txn_of demo_trans] (txn_of demo_trans) (db_writes (dedup_blocks (blocks demo_trans))).
Proof.
  split; [apply demo_cpu; by left|exists []; done|done| | |].
  - intros c' T T' HT Hc' Hne HT'. unfold demo_committed, set_journal in HT'. rewrite decide_False // in HT'. by apply elem_of_nil in HT'.
  - intros b v H. cbn in H. apply list_elem_of_singleton in H. injection H as -> ->.
    split_and!; [done|apply demo_data_ok|]. exists (txn_of demo_trans). split; by left.
  - intros. apply demo_journal_writes.
Qed.



(** ** Files, queues and allocators *)



(** Two versions of block 11. *)
Definition demo_blocks : list transaction_diskblock := [DiskBlock 11 [1] 4; DiskBlock 10 [2] 5; DiskBlock 11 [3] 6].
Lemma dedup_keeps_newest_witness :
  Sorted.StronglySorted Z.lt (blocknum <$> dedup_blocks demo_blocks) ∧
  ∀ b, b ∈ dedup_blocks demo_blocks ↔
    b ∈ demo_blocks ∧ ∀ b', b' ∈ demo_blocks → blocknum b' = blocknum b → timestamp b' ≤ timestamp b.
Proof. apply (dedup_keeps_newest demo_blocks). apply (bool_decide_unpack _). vm_compute. done. Defined.

(** The bitmap block of the example is zero. *)
Lemma initialize_freeblock_bitmap_ok_witness :
  ∃ w' first, run (initialize_freeblock_bitmap 0) (demo_world 0) = Done () w' ∧
    bitmap_ok (λ b, b ∈ (shares 4000 first).*2) (f_bitmap w') ∧
    (∀ b, 0 ≤ b → free_at (f_bitmap w') b ↔ b < 4000 ∧ clear_on_disk (demo_world 0) b = true) ∧
    ∀ c, cur w' c = cur (demo_world 0) c.
Proof.
  apply (initialize_freeblock_bitmap_ok 0 (demo_world 0)); [by eexists|done|]. intros b Hb. simpl in Hb.
  unfold BBLOCK, blkno, BPB, BSIZE. simpl sb_ninodes. change (200 / IPB) with 3. rewrite Z.div_small; lia.
Defined.

(** Three free blocks: of CPU 0, of CPU 1 and in the reserve. *)
Definition demo_bits : freeblock_bitmap :=
  FreeblockBitmap [FreeBit 0 true; FreeBit 1 true; FreeBit 16 true; FreeBit 0 false] {[0 := [0]; 1 := [1]]} [2].
Definition demo_pool : fs_world := (demo_world 0) <| f_bitmap := demo_bits |>.

Lemma demo_bits_ok : bitmap_ok (λ b, b ∈ [0; 1; 2]) demo_bits.
Proof.
  destruct (hand_out_all_ok [(Some 0, 0); (Some 1, 1); (None, 2)] (λ _, False) (FreeblockBitmap (FreeBit 0 <$> [true; true; true; false]) ∅ []))
    as (bm & E & HB & _); [apply no_handed_ok|apply (bool_decide_unpack _); vm_compute; done| |].
  { repeat constructor; simpl; try done; tauto. }
  assert (bm = demo_bits) as -> by (vm_compute in E; by injection E as <-).
  eapply bitmap_ok_ext; [|exact HB]. intros b. simpl. tauto.
Qed.

